(* ===== verification/_CoqProject ===== *)
-Q . S2P
Prelude.v
Float32.v
Float32Spec.v
FloatRound.v
PiscesPixel.v
PiscesTransform.v
PiscesState.v
PiscesBlit.v
PiscesBlitSpec.v
PiscesPaint.v
PiscesPaintSpec.v
PiscesTextureSpec.v
PiscesRenderer.v
PiscesRendererSpec.v
PiscesSurface.v
PiscesDraw.v
PiscesAreaSpec.v
PiscesDrawSpec.v
ColorConverter.v
ColorConverterSpec.v
ColorConverterSse.v
ColorConverterSseSpec.v
ColorConverterSseFrame.v
GstModel.v
MediaCache.v
CachePosix.v
CacheWin32.v
ProgressBuffer.v
ProgressBufferSpec.v
ProgressBufferLive.v
HlsProgressBuffer.v
HlsSpec.v
StreamCallbacks.v
ConnectionHolders.v
JavaSource.v
JavaSourceSpec.v
MediaPipeline.v
MediaPipelineRuns.v
GlTrace.v
GlTraceSpec.v
GlTraceThreads.v
GlTraceRead.v
GlMap.v
GlCalls.v
GlReplay.v
GlReplaySpec.v
GlHandles.v
GlSession.v
PrismRenderer.v
PrismCoverage.v
PrismEdges.v
PrismScan.v
PrismFill.v
PrismRasterizer.v
PrismPath.v
PrismRasterizerSpec.v
PrismHelpers.v
FloatExact.v
PrismCalls.v
PrismStroker.v
PrismDasher.v
PrismStrokeAlphas.v
PrismHelpersSpec.v
PrismStrokerSpec.v
PrismOutlines.v
PrismDashes.v
PrismDashExact.v
PrismLengths.v
