(* ===== verification/Prelude.v ===== *)
(** * OpenJFX: rasterizer, software renderer, media pipeline and OpenGL tracer

    This library models C code of OpenJFX and proves what it computes.  Five
    parts of the program are covered.

    ** The software pipeline (javafx.graphics, native-prism-sw)

    Java's [PiscesRenderer] owns a native [struct _Renderer].  Setters record the
    colour, the composite rule, the paint, the mask and the surface and raise
    flags in [_rendererState]; an entry point of JPiscesRenderer.c pins the pixel
    array, calls [VALIDATE_BLITTING], splits the primitive into bands, has a row
    of paint generated where there is one and calls a scanline routine through a
    function pointer.
      - PiscesPixel.v, PiscesBlit.v: PiscesBlit.c, one function per blend and per
        scanline routine;
      - PiscesTransform.v: PiscesTransform.c, 16.16 matrices;
      - PiscesState.v: PiscesRenderer.h, the struct;
      - PiscesPaint.v: PiscesPaint.c, gradients and textures;
      - PiscesRenderer.v: PiscesRenderer.inl, setters and validation;
      - PiscesSurface.v: JJavaSurface.c, JAbstractSurface.c, PiscesSurface.inl;
      - PiscesDraw.v: JPiscesRenderer.c, the entry points.
    The theorems go from the pixel to the entry point: the blends are the rounded
    Porter-Duff formulas and keep pixels premultiplied (PiscesPixel.v); a scanline
    routine writes exactly the pixels it should (PiscesBlit.v, PiscesBlitSpec.v); a
    row of paint is the sampled gradient or texture, read in bounds
    (PiscesPaintSpec.v, PiscesTextureSpec.v); after any history of setters and
    draws the function pointers are the right ones and textures are freed once
    (PiscesRendererSpec.v); the coverage of a rectangle is exact (PiscesAreaSpec.v);
    [fillRect], [fillAlphaMask] and [clearRect] change the Java array as specified
    (PiscesDrawSpec.v).

    ** The path rasterizer (javafx.graphics, native-prism)

    Java hands a path, a transform, pixel bounds and a byte array to
    [produceFillAlphas] or [produceStrokeAlphas].  The path is played into a chain of
    path consumers: a dasher and a stroker where there are any, a transformer, then
    the renderer, which flattens curves, keeps the lines as edges in one list per
    sample row, and afterwards scans the rows: the crossings of the live edges are
    sorted, the samples between them counted per pixel, and the counts become alpha
    through a map.  The models of the code are
      - PrismRenderer.v: Renderer.c with what it uses of Curve.c, Helpers.h and
        AlphaConsumer.h;
      - PrismRasterizer.v: PathConsumer.h as a record of operations, Transformer.c,
        [feedConsumer] and [produceFillAlphas] of NativePiscesRasterizer.c;
      - PrismHelpers.v: the rest of Helpers.c and Curve.c: roots, subdivision, offsets;
      - PrismStroker.v: Stroker.c; PrismDasher.v: Dasher.c with its length iterator;
      - PrismStrokeAlphas.v: [produceStrokeAlphas], composed of these.
    What they compute is shown in
      - Float32Spec.v: integers of 24 bits in [jfloat]; FloatRound.v: each operation
        is the exact result rounded; FloatExact.v: fixed-point numbers, on which
        nothing is rounded;
      - PrismCoverage.v: a row of differences stands for a coverage; one sample row
        adds to each pixel its samples inside by the winding rule;
      - PrismEdges.v: how the arrays represent the list of edges, and that [addLine]
        keeps this; PrismScan.v: what the scanline iterator yields;
      - PrismFill.v: [Renderer_produceAlphas] fills the mask with the alpha of the
        number of samples inside;
      - PrismPath.v: a recorder of the flattened lines, as a consumer; the renderer
        refines it, by a simulation between consumers that a transformer and
        [feedConsumer] preserve; a finished path is closed, so that its edges are
        balanced in every row;
      - PrismCalls.v: the same for the calls a consumer makes, which carries the
        theorems across the dasher and the stroker;
      - PrismRasterizerSpec.v: the theorems on filling, on malformed paths, on the
        alpha maps and on the rows of the iterator;
      - PrismHelpersSpec.v, PrismStrokerSpec.v, PrismOutlines.v: for every path and
        every coordinate, infinities and NaN included, the stroker returns and keeps
        to its arrays, at most ten points subdivide a curve, and what it emits is one
        closed outline per end of a subpath or two per closed subpath;
      - PrismDashes.v: the dasher makes the calls of a reference that cuts every
        segment along the pattern; PrismDashExact.v: on horizontal and vertical
        fixed-point lines the cuts are exactly the partial sums of the pattern;
      - PrismLengths.v: the length iterator, an explicit stack, refines a walk over
        the leaves of the recursive subdivision and stays in its arrays.
    Assumed are resolutions of at most 256 samples, bounds below 2^22 samples, fewer
    edges than a 24-bit link can address, that flattening ends (the recorder returns;
    [fuel] bounds the loops of the cubic case), and that the ends of each line are
    ordered by rows as by coordinates ([ordered], which can be evaluated).  The
    theorem on strokes assumes that the dasher returns, which its loops do not always;
    along the lines of PrismDashExact.v one round per unit of length is proved to be
    enough.  Subdivision has depth [li_depth] = 5 and at most [li_leaves] = 17
    requests, proved to be enough where the lengths are numbers.  What C leaves to the
    platform is an argument: [pow], [acos] and [cos] of the C library ([lm_pow],
    [lm_acos], [lm_cos]), the bits of a NaN and shifts beyond the width.

    ** Colour conversion of video frames (javafx.media, jfxmedia/Utils)

    ColorConverter.v holds the tables and the portable converters of
    ColorConverter.c.  ColorConverterSpec.v shows that each writes exactly the
    pixels of the frame, in bounds, within a stated distance of ITU-R BT.601.
    ColorConverterSse.v holds the converters that builds with SSE2 use, on registers
    of eight words with the intrinsics as functions, and the allocation of their
    destination in GstVideoFrame.cpp.  ColorConverterSseSpec.v follows the lanes
    through a step: the formats are a class with laws, against which the steps and
    rows are proved.  ColorConverterSseFrame.v: the four functions write the pixels of
    the frame by an integer formula, whatever its width; they agree with the portable
    converters within one level; frames of type BGRA_PRE are premultiplied.

    ** The media pipeline (javafx.media, gstreamer/plugins and jfxmedia)

    Bytes come from a connection holder in Java through a table of callbacks to the
    Java source, whose task pushes them into a progress buffer: it stores what arrives
    in a file cache, and a task of its source pad reads it back and pushes it
    downstream, or downstream pulls ranges.  The variant for HTTP live streaming has a
    ring of three caches, one per media segment.
      - GstModel.v: the values exchanged with GStreamer and the monad the elements
        are written in (state, effects, failure);
      - MediaCache.v: cache.h as the class [CacheOps], its contract [CacheLaws],
        and the abstract byte store;
      - CachePosix.v, CacheWin32.v: the two filecache.c, instances of the class;
      - ProgressBuffer.v: progressbuffer.c; ProgressBufferSpec.v: the interleaving
        of its threads as a step relation, with the invariant; ProgressBufferLive.v:
        liveness of the task, pull mode, and runs on the POSIX cache;
      - HlsProgressBuffer.v: hlsprogressbuffer.c, cut where the lock is given up;
        HlsSpec.v: the interleavings of the pieces, with the two condition variables;
        the ring is a queue;
      - StreamCallbacks.v: the callbacks of LocatorStream.h as a class with its laws,
        and JavaInputStreamCallbacks.cpp; ConnectionHolders.v: the file, HTTP and
        memory holders of ConnectionHolder.java, instances of the laws;
      - JavaSource.v: javasource.c and its set-up by [CreateSourceElement];
        JavaSourceSpec.v: a call of the task returns, a plain source delivers the
        content, a pulled range is right;
      - MediaPipeline.v: source and progress buffer as one machine of interleaved
        pieces; it projects to the machine of the progress buffer alone, so that its
        theorems carry over, and the bytes pushed are those of the connection;
        MediaPipelineRuns.v: an executable scheduler of this machine, and its runs.
    The buffers are proved against the class of caches, the source against the class
    of callbacks: the bytes pushed are the bytes of the stream at their offset, in
    order, in every interleaving; nothing is dereferenced that is null; the task drains
    the cache and ends the stream; a writer of the ring that waits for a free cache is
    woken and gets one, as long as the ring has bytes left when it starts to wait.  The
    runs of the ring have all their caches, reads that work, segments that are not empty
    and are announced before their bytes, and a downstream that does not refuse a buffer
    while a SEGMENT event is between its first test and its choice of a cache; the
    examples of HlsSpec.v show the run in which both threads wait for ever, the one in
    which a cache is rewound that has not been read and the one in which a segment after
    the end of the stream is thrown away.  Of what is done without the lock, the end of
    the stream against [segment_open] is interleaved; the assignments of [segment_open]
    itself are one piece.  Buffers are in order of the
    segment events that downstream gets in the runs in which none that was queued is
    dropped ([announced]; [ordered] is what holds in all runs).

    ** The OpenGL tracer (tools/gltrace)

    A library preloaded into a program intercepts its GL ES and EGL calls: each
    function of gles.c and egl.c records a command, its arguments, results and times
    through iolib.c, under a recursive mutex, into a file that is mapped one megabyte
    at a time.  A second program, retrace.c, reads the file and prints the calls or
    makes them again.
      - GlTrace.v: iolib.c, recorder and reader; GlMap.v: map.c, the tables that
        translate handles, which are finite maps of sixteen keys;
      - GlTraceSpec.v, GlTraceRead.v: every [put] function appends the encoding of its
        argument, across chunks, and every [get] function reads it back;
      - GlTraceThreads.v: the steps of the threads under any schedule, with the
        invariant that the file is whole calls and the one in progress;
      - GlCalls.v: the recording functions of gles.c and egl.c (Linux), with the buffer
        bindings and vertex attributes they keep; GlReplay.v: the loop and the cases
        of [process] in retrace.c; both follow the source function by function;
      - GlReplaySpec.v: each case reads what its function recorded, and the replayer's
        state follows the tracer's; GlHandles.v: EGL handles of the new run;
      - GlSession.v: the two theorems, on the file and on its replay, and runs on
        which the replay differs.
    [maps_chunks] says that the system maps every chunk, page-aligned; [call_ok] that
    nested calls are whole and a string or block has a length of an [int]; [replayable]
    that a call is one the replayer has a case for, that its arguments have their C types
    and strings, attribute lists and the results of queries are not NULL.
    The theorem on the replay takes the arguments of a call from left to right, of which
    the order is the compiler's ([ltr]).  The driver is an argument: the handles, names
    and strings it returns and the native window; [learnt] says that where the calls are
    made again the names are the recorded ones and strings are answered.  The loop of [process] has as fuel the length of the file, since
    each round takes a word.

    ** Conventions

    A machine integer is a [Z] whose wrap-around is written out ([i32], [u64],
    ...).  An array is the list of its elements, [None] an access outside it or
    another undefined behaviour, so that "= Some _" in a theorem includes memory
    safety.  [float] and [double] are the Standard Library's executable IEEE model
    (Float32.v).  A loop whose count is known is a fold over its indices; the
    others are [while_fuel] with a measure that bounds the iterations, and the
    theorems state that the fuel given suffices.  The liveness theorems bound the
    number of calls of the task by the number of bytes left.  What the operating
    system, the JVM and the framework answer is an argument; the assumptions are
    named: [posix] and [healthy] for files, [jni] for pinning and allocation,
    [segment_ok] and [buffer_ok] for what upstream sends, [is_open] and [reliable] for
    a connection, which seeks to every offset or to none.  One call of the source's
    task takes at most [max_pieces] = 5 pieces.  The machines of the progress buffer and
    of the pipeline cover one session between PAUSED and READY, with seeks inside the
    content and, for the pipeline, allocations that succeed; what goes wrong
    outside the assumptions is shown by examples next to the theorems.

    ** Not modelled

    [Helpers_polyLineLength] and the curve functions [xat], [yat], [dxat] and
    [dyat], which nothing calls; [initGammaArrays] ([pow] of the C library); jar URLs
    and the holder of live streams, and the composition of the source with the HLS buffer; field-id lookups and other
    JNI bookkeeping; registration of GObject classes; of the tracer the printing and
    comparison of results, the functions for macOS, the preloading, PNG output, frame
    rates and the interactive mode; the OpenGL, windowing and font code, which forwards to the
    system; WebKit and the other vendored libraries. *)

From stdpp Require Export base list option numbers.
From Stdlib Require Export ZArith Lia.

#[global] Open Scope Z_scope.

(** ** Machine integers

    The C types [jint]/[int32_t] and [jlong] are modelled by [Z] with the
    wrap-around written out: a C expression over [+], [-], [*], [<<], [|] is
    computed in [Z] and wrapped once, before it is compared, shifted right,
    divided or stored.  Wrapping once is the same as wrapping after every
    operation, because those operators commute with reduction modulo 2^32. *)

Definition i32 (x : Z) : Z := (x + 2 ^ 31) mod 2 ^ 32 - 2 ^ 31.

Definition i64 (x : Z) : Z := (x + 2 ^ 63) mod 2 ^ 64 - 2 ^ 63.

Definition u32 (x : Z) : Z := x mod 2 ^ 32.

Definition u8 (x : Z) : Z := x mod 2 ^ 8.

Declare Scope cint_scope.
Delimit Scope cint_scope with cint.
Notation "x >> n" := (Z.shiftr x n) (at level 45, left associativity) : cint_scope.
Notation "x << n" := (Z.shiftl x n) (at level 45, left associativity) : cint_scope.
Notation "x & y" := (Z.land x y) (at level 46, left associativity) : cint_scope.
Notation "x .| y" := (Z.lor x y) (at level 48, left associativity) : cint_scope.
#[global] Open Scope cint_scope.

(** The ranges the statements use. *)
Definition in_i32 (x : Z) : Prop := - 2 ^ 31 <= x < 2 ^ 31.
Definition in_i64 (x : Z) : Prop := - 2 ^ 63 <= x < 2 ^ 63.
Definition is_byte (x : Z) : Prop := 0 <= x <= 255.

(** C truth value of an integer. *)
Definition ctrue (x : Z) : bool := negb (x =? 0).

Lemma ctrue_eqb x : ctrue x = negb (x =? 0).
Proof. reflexivity. Qed.

Lemma ctrue_lor a b : ctrue (Z.lor a b) = ctrue a || ctrue b.
Proof.
  unfold ctrue. rewrite <- negb_andb. f_equal. apply eq_true_iff_eq.
  rewrite andb_true_iff, !Z.eqb_eq. apply Z.lor_eq_0_iff.
Qed.

(** The macros [MIN] and [MAX] of PiscesUtil.h. *)
Definition MIN (a b : Z) : Z := if a <? b then a else b.
Definition MAX (a b : Z) : Z := if a >? b then a else b.

Lemma i32_id x : in_i32 x -> i32 x = x.
Proof. unfold in_i32, i32. intros H. rewrite Z.mod_small; lia. Qed.

Lemma i64_id x : in_i64 x -> i64 x = x.
Proof. unfold in_i64, i64. intros H. rewrite Z.mod_small; lia. Qed.

Lemma i32_range x : in_i32 (i32 x).
Proof.
  unfold in_i32, i32. pose proof (Z.mod_pos_bound (x + 2 ^ 31) (2 ^ 32)). lia.
Qed.

Lemma i64_range x : in_i64 (i64 x).
Proof.
  unfold in_i64, i64. pose proof (Z.mod_pos_bound (x + 2 ^ 63) (2 ^ 64)). lia.
Qed.

(** [i32 x] is [x] up to a multiple of 2^32. *)
Lemma i32_shift x : exists k, i32 x = x + k * 2 ^ 32.
Proof.
  exists (- ((x + 2 ^ 31) / 2 ^ 32)). unfold i32.
  pose proof (Z.div_mod (x + 2 ^ 31) (2 ^ 32)). lia.
Qed.

Lemma i32_idemp x : i32 (i32 x) = i32 x.
Proof. apply i32_id, i32_range. Qed.

Lemma MIN_spec a b : MIN a b = Z.min a b.
Proof. unfold MIN. destruct (Z.ltb_spec a b); lia. Qed.

Lemma MAX_spec a b : MAX a b = Z.max a b.
Proof. unfold MAX. rewrite Z.gtb_ltb. destruct (Z.ltb_spec b a); lia. Qed.

(** Shifts and masks by constants as division and remainder, the form [lia]
    reasons about. *)
Lemma shiftr_div x n : 0 <= n -> x >> n = x / 2 ^ n.
Proof. apply Z.shiftr_div_pow2. Qed.

Lemma shiftl_mul x n : 0 <= n -> x << n = x * 2 ^ n.
Proof. apply Z.shiftl_mul_pow2. Qed.

Lemma land_mask x n m : 0 <= n -> m = Z.ones n -> x & m = x mod 2 ^ n.
Proof. intros ? ->. by apply Z.land_ones. Qed.

Lemma land_255 x : x & 255 = x mod 256.
Proof. by rewrite (land_mask x 8). Qed.

Lemma land_0xffff x : x & 65535 = x mod 65536.
Proof. by rewrite (land_mask x 16). Qed.

Lemma land_0x1ffff x : x & 131071 = x mod 131072.
Proof. by rewrite (land_mask x 17). Qed.

(** Bit fields that do not overlap add up. *)
Lemma lor_shiftl_add a b n : 0 <= n -> 0 <= b < 2 ^ n -> (a << n) .| b = a * 2 ^ n + b.
Proof.
  intros Hn Hb.
  assert (Hd : (a << n) & b = 0).
  { apply Z.bits_inj'. intros i Hi. rewrite Z.land_spec, Z.bits_0.
    destruct (Z.lt_ge_cases i n).
    - by rewrite Z.shiftl_spec_low.
    - rewrite <- (Z.mod_small b (2 ^ n)), Z.mod_pow2_bits_high by lia.
      apply andb_false_r. }
  rewrite <- shiftl_mul, <- Z.lxor_lor by done. symmetry. by apply Z.add_nocarry_lxor.
Qed.

(** ** Fallible computations and memory

    A C function that reads or writes through pointers is a function into
    [option]: [None] is undefined behaviour (an access outside the object, a
    null pointer, a division by zero) or, for a loop with fuel, running out of
    fuel.  A pointer into an array is an index of type [Z]; an array is the
    list of its elements. *)

Definition aget {A} (m : list A) (i : Z) : option A :=
  if i <? 0 then None else m !! Z.to_nat i.

Definition aset {A} (m : list A) (i : Z) (v : A) : option (list A) :=
  if (0 <=? i) && (i <? Z.of_nat (length m)) then Some (<[Z.to_nat i := v]> m) else None.

(** [*a = f( *a )] with a fallible [f]. *)
Definition aupd {A} (m : list A) (i : Z) (f : A -> option A) : option (list A) :=
  v ← aget m i; v' ← f v; aset m i v'.

(** [for (j = 0; j < n; j++) body] *)
Fixpoint for_from {S} (n : nat) (j : Z) (body : Z -> S -> option S) (s : S) : option S :=
  match n with
  | O => Some s
  | S n => s' ← body j s; for_from n (j + 1) body s'
  end.

Definition for_lt {S} (n : Z) (body : Z -> S -> option S) (s : S) : option S :=
  for_from (Z.to_nat n) 0 body s.

(** [while (cond s) s = body s], cut off after [fuel] rounds. *)
Fixpoint while_fuel {S} (fuel : nat) (cond : S -> bool) (body : S -> option S) (s : S)
  : option S :=
  if cond s then
    match fuel with
    | O => None
    | S fuel => s' ← body s; while_fuel fuel cond body s'
    end
  else Some s.

Section arrays.
Context {A : Type}.
Implicit Types (m : list A) (i j : Z) (v : A).

Definition alen m : Z := Z.of_nat (length m).

Lemma alen_nonneg m : 0 <= alen m.
Proof. unfold alen. lia. Qed.

Lemma alen_cons v m : alen (v :: m) = alen m + 1.
Proof. unfold alen. simpl. lia. Qed.

Lemma alen_app m m' : alen (m ++ m') = alen m + alen m'.
Proof. unfold alen. rewrite length_app. lia. Qed.

Lemma aget_lookup m i : 0 <= i -> aget m i = m !! Z.to_nat i.
Proof. intros. unfold aget. destruct (Z.ltb_spec i 0); [lia|done]. Qed.

Lemma aget_is_Some m i : is_Some (aget m i) <-> 0 <= i < alen m.
Proof.
  unfold aget, alen. destruct (Z.ltb_spec i 0).
  - rewrite is_Some_alt. split; [done|lia].
  - rewrite lookup_lt_is_Some. lia.
Qed.

Lemma aget_Some_range m i v : aget m i = Some v -> 0 <= i < alen m.
Proof. intros. apply aget_is_Some. eauto. Qed.

Lemma aget_None m i : ~ (0 <= i < alen m) -> aget m i = None.
Proof. rewrite <- aget_is_Some. by destruct (aget m i) as [v|] eqn:E; [intros []; eauto|]. Qed.

Lemma aget_ex m i : 0 <= i < alen m -> exists v, aget m i = Some v.
Proof. intros H. by apply aget_is_Some in H. Qed.

Lemma aget_ext m1 m2 : (forall i, aget m1 i = aget m2 i) -> m1 = m2.
Proof.
  intros H. apply list_eq. intros i. specialize (H (Z.of_nat i)).
  unfold aget in H. destruct (Z.ltb_spec (Z.of_nat i) 0); [lia|].
  by rewrite Nat2Z.id in H.
Qed.

Lemma alen_eq m1 m2 :
  (forall i, is_Some (aget m1 i) <-> is_Some (aget m2 i)) -> alen m1 = alen m2.
Proof.
  intros H. assert (Hi : forall i, 0 <= i < alen m1 <-> 0 <= i < alen m2).
  { intros i. by rewrite <- !aget_is_Some. }
  assert (0 <= alen m1) by (unfold alen; lia). assert (0 <= alen m2) by (unfold alen; lia).
  pose proof (Hi (alen m1)). pose proof (Hi (alen m2)). lia.
Qed.

Lemma aget_Forall (P : A -> Prop) m i v : Forall P m -> aget m i = Some v -> P v.
Proof.
  intros Hm Hv. unfold aget in Hv. destruct (i <? 0); [done|].
  by eapply Forall_lookup_1.
Qed.

Lemma aset_ok m i v :
  0 <= i < alen m ->
  exists m', aset m i v = Some m' /\
    (forall j, aget m' j = if j =? i then Some v else aget m j).
Proof.
  intros H. unfold aset. fold (alen m).
  destruct (Z.leb_spec 0 i), (Z.ltb_spec i (alen m)); try lia; simpl.
  eexists; split; [done|]. intros j. unfold aget, alen in *.
  destruct (Z.eqb_spec j i) as [->|]; destruct (Z.ltb_spec j 0) || destruct (Z.ltb_spec i 0); try lia; try done.
  - apply list_lookup_insert_eq. lia.
  - apply list_lookup_insert_ne. lia.
Qed.

Lemma aset_inv m i v m' :
  aset m i v = Some m' ->
  0 <= i < alen m /\ (forall j, aget m' j = if j =? i then Some v else aget m j).
Proof.
  intros H. assert (Hr : 0 <= i < alen m).
  { unfold aset, alen in *. destruct (Z.leb_spec 0 i), (Z.ltb_spec i (Z.of_nat (length m)));
      simpl in *; simplify_eq; lia. }
  destruct (aset_ok m i v Hr) as (m1 & H1 & H2). simplify_eq. done.
Qed.
End arrays.

(** ** Pointwise updates

    [pointwise m m' f]: [m'] is [m] with every element [v] at index [i]
    replaced by [f i v].  The row routines of the renderer are characterised
    by such a function. *)
Definition pointwise {A} (m m' : list A) (f : Z -> A -> A) : Prop :=
  forall i, aget m' i = f i <$> aget m i.

Section pointwise.
Context {A : Type}.
Implicit Types (m : list A) (f g : Z -> A -> A).

Lemma pointwise_refl m : pointwise m m (fun _ v => v).
Proof. intros i. by destruct (aget m i). Qed.

Lemma pointwise_trans m1 m2 m3 f g :
  pointwise m1 m2 f -> pointwise m2 m3 g -> pointwise m1 m3 (fun i v => g i (f i v)).
Proof. intros Hf Hg i. rewrite Hg, Hf. by destruct (aget m1 i). Qed.

Lemma pointwise_ext m m' f g :
  (forall i v, aget m i = Some v -> f i v = g i v) -> pointwise m m' f -> pointwise m m' g.
Proof. intros He Hf i. rewrite Hf. destruct (aget m i) eqn:E; [|done]. simpl. f_equal. by apply He. Qed.

Lemma pointwise_alen m m' f : pointwise m m' f -> alen m' = alen m.
Proof. intros H. apply alen_eq. intros i. rewrite H. by rewrite fmap_is_Some. Qed.

Lemma pointwise_fun m m1 m2 f : pointwise m m1 f -> pointwise m m2 f -> m1 = m2.
Proof. intros H1 H2. apply aget_ext. intros i. by rewrite H1, H2. Qed.

(** One element updated in place. *)
Lemma aupd_pointwise m i (f : A -> option A) (g : A -> A) :
  0 <= i < alen m -> (forall v, aget m i = Some v -> f v = Some (g v)) ->
  exists m', aupd m i f = Some m' /\
    pointwise m m' (fun j v => if j =? i then g v else v).
Proof.
  intros Hi Hf. destruct (aget_ex m i Hi) as [v Hv].
  unfold aupd. rewrite Hv; simpl. rewrite (Hf v Hv); simpl.
  destruct (aset_ok m i (g v) Hi) as (m' & -> & Hm'). eexists; split; [done|].
  intros j. rewrite Hm'. destruct (Z.eqb_spec j i) as [->|]; [by rewrite Hv|by destruct (aget m j)].
Qed.
End pointwise.

(** ** Loop rules *)
Lemma for_from_inv {S} (P : Z -> S -> Prop) n body j s :
  P j s ->
  (forall k s, j <= k < j + Z.of_nat n -> P k s -> exists s', body k s = Some s' /\ P (k + 1) s') ->
  exists s', for_from n j body s = Some s' /\ P (j + Z.of_nat n) s'.
Proof.
  revert j s. induction n as [|n IH]; intros j s H0 Hb; simpl for_from.
  - exists s. split; [done|]. by replace (j + Z.of_nat 0) with j by lia.
  - destruct (Hb j s) as (s1 & -> & H1); [lia|done|]. simpl.
    destruct (IH (j + 1) s1 H1) as (s2 & -> & H2).
    { intros k s' ?. apply Hb. lia. }
    exists s2. split; [done|]. by replace (j + Z.of_nat (Datatypes.S n)) with (j + 1 + Z.of_nat n) by lia.
Qed.

Lemma for_lt_1 {S} (body : Z -> S -> option S) s : for_lt 1 body s = body 0 s.
Proof. unfold for_lt. simpl. by destruct (body 0 s). Qed.

(** A counted loop whose body preserves [P] returns, with [P] at the bound. *)
Lemma for_lt_inv {S} (P : Z -> S -> Prop) n body s :
  P 0 s ->
  (forall k s, 0 <= k < n -> P k s -> exists s', body k s = Some s' /\ P (k + 1) s') ->
  exists s', for_lt n body s = Some s' /\ P (Z.max 0 n) s'.
Proof.
  intros H0 Hb. unfold for_lt.
  destruct (for_from_inv P (Z.to_nat n) body 0 s H0) as (s' & H1 & H2).
  { intros k s1 ?. apply Hb. lia. }
  exists s'. split; [done|]. by replace (Z.max 0 n) with (0 + Z.of_nat (Z.to_nat n)) by lia.
Qed.

(** A while loop whose body decreases a measure below the fuel returns, in a
    state that satisfies the invariant and falsifies the condition. *)
Lemma while_fuel_inv {S} (P : S -> Prop) (mu : S -> nat) cond body fuel s :
  P s -> (mu s <= fuel)%nat ->
  (forall s, P s -> cond s = true ->
     exists s', body s = Some s' /\ P s' /\ (mu s' < mu s)%nat) ->
  exists s', while_fuel fuel cond body s = Some s' /\ P s' /\ cond s' = false.
Proof.
  intros HP Hmu Hb. revert s HP Hmu. induction fuel as [|fuel IH]; intros s HP Hmu; simpl;
    destruct (cond s) eqn:Ec; eauto.
  - destruct (Hb s HP Ec) as (s' & _ & _ & ?). lia.
  - destruct (Hb s HP Ec) as (s' & -> & HP' & ?). simpl. apply IH; [done|lia].
Qed.

(** The same for loops that are known to have returned. *)
Lemma for_from_partial {S} (P : S -> Prop) n body : (forall j s s', body j s = Some s' -> P s -> P s') ->
  forall j s s', for_from n j body s = Some s' -> P s -> P s'.
Proof.
  intros Hb. induction n as [|n IH]; intros j s s' E Hs; simpl in E; [by simplify_eq|].
  apply bind_Some in E as (s1 & E1 & E2). eauto.
Qed.

Lemma while_fuel_partial {S} (P : S -> Prop) fuel cond body : (forall s s', body s = Some s' -> P s -> P s') ->
  forall s s', while_fuel fuel cond body s = Some s' -> P s -> P s' /\ cond s' = false.
Proof.
  intros Hb. induction fuel as [|fuel IH]; intros s s' E Hs; simpl in E; destruct (cond s) eqn:Ec; simplify_eq; try done.
  apply bind_Some in E as (s1 & E1 & E2). eauto.
Qed.

(** ** Tactics *)

(** Case analysis on the boolean comparisons of the goal. *)
Ltac case_bool :=
  match goal with
  | |- context [?a <? ?b] => destruct (Z.ltb_spec a b)
  | |- context [?a <=? ?b] => destruct (Z.leb_spec a b)
  | |- context [?a =? ?b] => destruct (Z.eqb_spec a b)
  | |- context [?a >? ?b] => rewrite (Z.gtb_ltb a b)
  | |- context [?a >=? ?b] => rewrite (Z.geb_leb a b)
  end.
Ltac case_bools := repeat (case_bool; simpl; try lia).
Ltac cases := repeat (case_bool; simpl; try lia; try done); try done.

(** Constant powers of two, so that [lia] sees numerals. *)
Ltac pow2 :=
  change (2 ^ 8) with 256 in *; change (2 ^ 16) with 65536 in *;
  change (2 ^ 24) with 16777216 in *; change (2 ^ 31) with 2147483648 in *;
  change (2 ^ 32) with 4294967296 in *.

(** Shifts and masks by the constants the sources use, as [/] and [mod]. *)
Ltac bits_to_arith :=
  rewrite ?land_255, ?land_0xffff, ?land_0x1ffff, ?shiftr_div, ?shiftl_mul by lia; pow2.

(** Step through a bind whose first computation has returned. *)
Ltac mred :=
  repeat match goal with
  | |- context [@mbind option option_bind ?A ?B ?f (Some ?a)] =>
      change (@mbind option option_bind A B f (Some a)) with (f a); cbv beta iota
  end.

Ltac mred_in H :=
  repeat match type of H with
  | context [@mbind option option_bind ?A ?B ?f (Some ?a)] =>
      change (@mbind option option_bind A B f (Some a)) with (f a) in H; cbv beta iota in H
  end.

(** A closed statement about numerals that is true by computation. *)
Ltac compute_true := vm_compute; repeat split; first [discriminate | reflexivity].

(** [Forall P l] for a concrete list whose elements satisfy [P] by computation. *)
Ltac forall_list :=
  cbv [replicate]; repeat (apply Forall_cons_2; [compute_true|]); apply Forall_nil_2.

(** Linear arithmetic with division and remainder by constants. *)
Ltac dlia := Z.div_mod_to_equations; lia.
