(* ===== verification/Float32.v ===== *)
(** * Single- and double-precision arithmetic

    [jfloat] is IEEE binary32.  The values and operations are those of the
    Standard Library's [SpecFloat], at precision 24 and maximal exponent 128,
    with round-to-nearest-even: every operation the sources use computes. *)

From Stdlib Require Import SpecFloat.
From S2P Require Import Prelude.

Definition jfloat := spec_float.

Definition f32_prec : Z := 24.
Definition f32_emax : Z := 128.

Definition fadd (x y : jfloat) : jfloat := SFadd f32_prec f32_emax x y.
Definition fsub (x y : jfloat) : jfloat := SFsub f32_prec f32_emax x y.
Definition fmul (x y : jfloat) : jfloat := SFmul f32_prec f32_emax x y.
Definition fdiv (x y : jfloat) : jfloat := SFdiv f32_prec f32_emax x y.
Definition fopp (x : jfloat) : jfloat := SFopp x.
Definition flt (x y : jfloat) : bool := SFltb x y.
Definition feq (x y : jfloat) : bool := SFeqb x y.

(** [(jfloat)n] for an integer [n]: one rounding to nearest. *)
Definition of_int (n : Z) : jfloat := binary_normalize f32_prec f32_emax n 0 false.

(** [(jint)x]: truncation toward zero.  The C conversion is undefined when the
    truncated value is not an [int]; the sources rely on it being some [int],
    and the targets the library is built for return [INT_MIN] (the "integer
    indefinite" value), which is what the model returns. *)
Definition trunc (x : jfloat) : option Z :=
  match x with
  | S754_zero _ => Some 0
  | S754_infinity _ | S754_nan => None
  | S754_finite s m e =>
      let a := if 0 <=? e then Z.pos m * 2 ^ e else Z.pos m / 2 ^ (- e) in
      Some (if s then - a else a)
  end.

Definition to_jint (x : jfloat) : Z :=
  match trunc x with
  | Some z => if (- 2 ^ 31 <=? z) && (z <? 2 ^ 31) then z else - 2 ^ 31
  | None => - 2 ^ 31
  end.

Definition f65536 : jfloat := of_int 65536.

(** Double precision: the exact conversion from [jfloat], the rounding back, and
    the operations the sources use. *)
Definition jdouble := spec_float.

Definition to_double (x : jfloat) : jdouble :=
  match x with
  | S754_finite s m e => binary_normalize 53 1024 (if s then Zneg m else Zpos m) e s
  | _ => x
  end.

Definition of_double (x : jdouble) : jfloat :=
  match x with
  | S754_finite s m e => binary_normalize f32_prec f32_emax (if s then Zneg m else Zpos m) e s
  | _ => x
  end.

Definition dadd (x y : jdouble) : jdouble := SFadd 53 1024 x y.
Definition dsub (x y : jdouble) : jdouble := SFsub 53 1024 x y.
Definition dmul (x y : jdouble) : jdouble := SFmul 53 1024 x y.
Definition ddiv (x y : jdouble) : jdouble := SFdiv 53 1024 x y.
Definition dlt (x y : jdouble) : bool := SFltb x y.
Definition dle (x y : jdouble) : bool := SFleb x y.
Definition dsqrt (x : jdouble) : jdouble := SFsqrt 53 1024 x.

(** [(double)n] for an integer [n]. *)
Definition double_of_int (n : Z) : jdouble := binary_normalize 53 1024 n 0 false.

(** [(gint64)x]: truncation, and [INT64_MIN] where C leaves the result
    undefined, as on the targets. *)
Definition to_int64 (x : jdouble) : Z :=
  match trunc x with
  | Some z => if (- 2 ^ 63 <=? z) && (z <? 2 ^ 63) then z else - 2 ^ 63
  | None => - 2 ^ 63
  end.

Lemma to_jint_range x : in_i32 (to_jint x).
Proof.
  unfold to_jint, in_i32. destruct (trunc x) as [z|]; [|lia].
  case_bools; lia.
Qed.

(** Small integers survive the conversion to [jfloat] and back. *)
Example of_int_trunc_small : forallb (fun n => to_jint (of_int n) =? n)
  [0; 1; -1; 65535; 65536; -65536; 16777215; -16777216] = true.
Proof. vm_compute. reflexivity. Qed.

Example f32_third : to_jint (fmul (fdiv (of_int 1) (of_int 3)) f65536) = 21845.
Proof. vm_compute. reflexivity. Qed.

Example sqrt_two : to_jint (fmul (of_double (dsqrt (to_double (of_int 2)))) f65536) = 92681.
Proof. vm_compute. reflexivity. Qed.
