(* ===== verification/Float32Spec.v ===== *)
(** * Properties of single-precision numbers

    The integers of at most 24 bits are represented exactly: they survive the
    conversion to [jfloat] and back, and compare as integers. *)

From Stdlib Require Import SpecFloat.
From S2P Require Import Prelude.
From S2P Require Import Float32.

(** The number of binary digits. *)
Definition ndigits (m : positive) : Z := Z.pos (digits2_pos m).

Lemma ndigits_bounds m : 2 ^ (ndigits m - 1) <= Z.pos m < 2 ^ ndigits m.
Proof.
  unfold ndigits. induction m as [m IH|m IH|]; cbn [digits2_pos]; [| |done];
    rewrite Pos2Z.inj_succ; replace (Z.succ (Z.pos (digits2_pos m))) with (1 + Z.pos (digits2_pos m)) by lia;
    rewrite (Z.pow_add_r 2 1) by lia; replace (1 + Z.pos (digits2_pos m) - 1) with (1 + (Z.pos (digits2_pos m) - 1)) by lia;
    rewrite (Z.pow_add_r 2 1) by lia; lia.
Qed.


Lemma shift_pos_mul k m : Z.pos (shift_pos k m) = Z.pos m * 2 ^ Z.pos k.
Proof. rewrite Zpower.shift_pos_correct. lia. Qed.

Lemma ndigits_unique m d : 2 ^ (d - 1) <= Z.pos m < 2 ^ d -> ndigits m = d.
Proof.
  intros H. pose proof (ndigits_bounds m). assert (0 < ndigits m) by (unfold ndigits; lia).
  assert (0 < d). { destruct (Z.le_gt_cases d 0); [|done]. destruct (Z.eq_dec d 0) as [->|]; [simpl in *; lia|].
    rewrite (Z.pow_neg_r 2 d) in H by lia. lia. }
  destruct (Z.lt_trichotomy (ndigits m) d) as [|[|]]; [|done|].
  - assert (2 ^ ndigits m <= 2 ^ (d - 1)) by (apply Z.pow_le_mono_r; lia). lia.
  - assert (2 ^ d <= 2 ^ (ndigits m - 1)) by (apply Z.pow_le_mono_r; lia). lia.
Qed.

(** A mantissa of full width is not rounded. *)
Lemma round_full s m e : ndigits m = 24 -> -149 <= e <= 104 ->
  binary_round_aux f32_prec f32_emax s (Z.pos m) e loc_Exact = S754_finite s m e.
Proof.
  intros Hd He. unfold ndigits in Hd.
  assert (Hf : shr_fexp f32_prec f32_emax (Z.pos m) e loc_Exact = ({| shr_m := Z.pos m; shr_r := false; shr_s := false |}, e)).
  { unfold shr_fexp. cbn [Zdigits2 shr_record_of_loc]. rewrite Hd. unfold fexp, emin, f32_prec, f32_emax.
    replace (Z.max _ _ - e) with 0 by lia. done. }
  unfold binary_round_aux. rewrite Hf. cbn [shr_m loc_of_shr_record round_nearest_even]. rewrite Hf. cbn [shr_m].
  unfold f32_prec, f32_emax. case_bools. done.
Qed.

(** An integer of at most 24 bits is represented exactly. *)
Lemma round_small s m : Z.pos m < 2 ^ 24 ->
  exists M, binary_round f32_prec f32_emax s m 0 = S754_finite s M (ndigits m - 24) /\
    Z.pos M = Z.pos m * 2 ^ (24 - ndigits m) /\ ndigits M = 24 /\ ndigits m <= 24.
Proof.
  intros Hm. pose proof (ndigits_bounds m) as Hb. assert (0 < ndigits m) by (unfold ndigits; lia).
  assert (Hd : ndigits m <= 24).
  { destruct (Z.le_gt_cases (ndigits m) 24); [done|].
    assert (2 ^ 24 <= 2 ^ (ndigits m - 1)) by (apply Z.pow_le_mono_r; lia). lia. }
  unfold binary_round. change (Z.pos (digits2_pos m) + 0) with (ndigits m + 0).
  replace (fexp _ _ (ndigits m + 0)) with (ndigits m - 24) by (unfold fexp, emin, f32_prec, f32_emax; lia).
  unfold shl_align.
  destruct (ndigits m - 24 - 0) as [|k|k] eqn:E; [| lia |].
  - exists m. replace (ndigits m - 24) with 0 by lia. replace (24 - ndigits m) with 0 by lia.
    split; [apply round_full; lia|lia].
  - change (Pos.iter xO m k) with (shift_pos k m). exists (shift_pos k m).
    assert (HM : Z.pos (shift_pos k m) = Z.pos m * 2 ^ (24 - ndigits m)).
    { rewrite shift_pos_mul. do 2 f_equal. lia. }
    assert (HN : ndigits (shift_pos k m) = 24).
    { apply ndigits_unique. rewrite HM.
      replace (24 - 1) with ((ndigits m - 1) + (24 - ndigits m)) by lia.
      replace 24 with (ndigits m + (24 - ndigits m)) at 4 by lia.
      rewrite !Z.pow_add_r by lia. assert (0 < 2 ^ (24 - ndigits m)) by (apply Z.pow_pos_nonneg; lia). nia. }
    split; [|done]. apply round_full; [done|lia].
Qed.

Lemma trunc_small s m : Z.pos m < 2 ^ 24 ->
  trunc (binary_round f32_prec f32_emax s m 0) = Some (if s then Z.neg m else Z.pos m).
Proof.
  intros Hm. destruct (round_small s m Hm) as (M & -> & HM & _ & Hd). cbn [trunc]. rewrite HM.
  replace (if 0 <=? ndigits m - 24 then _ else _) with (Z.pos m); [by destruct s|].
  destruct (Z.leb_spec 0 (ndigits m - 24)).
  - replace (ndigits m - 24) with 0 by lia. replace (24 - ndigits m) with 0 by lia. lia.
  - replace (- (ndigits m - 24)) with (24 - ndigits m) by lia. rewrite Z.div_mul; [done|]. apply Z.pow_nonzero; lia.
Qed.

(** Integers of at most 24 bits survive the conversion and compare as they should. *)
Lemma to_jint_of_int n : - 2 ^ 24 < n < 2 ^ 24 -> to_jint (of_int n) = n.
Proof.
  intros Hn. unfold to_jint, of_int. destruct n as [|m|m]; [done| |]; cbn [binary_normalize];
    rewrite trunc_small by lia; case_bools.
Qed.

Lemma round_small_compare m1 m2 M1 M2 : Z.pos m1 < 2 ^ 24 -> Z.pos m2 < 2 ^ 24 ->
  Z.pos M1 = Z.pos m1 * 2 ^ (24 - ndigits m1) -> Z.pos M2 = Z.pos m2 * 2 ^ (24 - ndigits m2) ->
  match ndigits m1 - 24 ?= ndigits m2 - 24 with Lt => Lt | Eq => (M1 ?= M2)%positive | Gt => Gt end =
  (Z.pos m1 ?= Z.pos m2).
Proof.
  intros H1 H2 HM1 HM2. pose proof (ndigits_bounds m1). pose proof (ndigits_bounds m2).
  destruct (Z.compare_spec (ndigits m1 - 24) (ndigits m2 - 24)) as [E|E|E]; symmetry.
  - assert (Ed : ndigits m1 = ndigits m2) by lia. rewrite Ed in *.
    change (M1 ?= M2)%positive with (Z.pos M1 ?= Z.pos M2). rewrite HM1, HM2.
    set (k := 2 ^ (24 - ndigits m2)) in *. assert (0 < k) by lia.
    rewrite (Z.mul_comm (Z.pos m1)), (Z.mul_comm (Z.pos m2)). apply Zmult_compare_compat_l. lia.
  - apply Z.compare_lt_iff. assert (2 ^ ndigits m1 <= 2 ^ (ndigits m2 - 1)) by (apply Z.pow_le_mono_r; lia). lia.
  - apply Z.compare_gt_iff. assert (2 ^ ndigits m2 <= 2 ^ (ndigits m1 - 1)) by (apply Z.pow_le_mono_r; lia). lia.
Qed.

Lemma flt_of_int a b : - 2 ^ 24 < a < 2 ^ 24 -> - 2 ^ 24 < b < 2 ^ 24 -> flt (of_int a) (of_int b) = (a <? b).
Proof.
  intros Ha Hb. unfold flt, SFltb, of_int, Z.ltb.
  destruct a as [|a|a], b as [|b|b]; cbn [binary_normalize];
    try (destruct (round_small false a ltac:(lia)) as (M1 & -> & HM1 & _)); try (destruct (round_small true a ltac:(lia)) as (M1 & -> & HM1 & _));
    try (destruct (round_small false b ltac:(lia)) as (M2 & -> & HM2 & _)); try (destruct (round_small true b ltac:(lia)) as (M2 & -> & HM2 & _));
    try done.
  - pose proof (round_small_compare a b M1 M2 ltac:(lia) ltac:(lia) HM1 HM2) as E.
    cbn [SFcompare]. change (Pos.compare_cont Eq M1 M2) with (M1 ?= M2)%positive. rewrite E. done.
  - pose proof (round_small_compare b a M2 M1 ltac:(lia) ltac:(lia) HM2 HM1) as E. cbn [SFcompare].
    change (Z.neg a ?= Z.neg b) with (CompOpp (a ?= b)%positive). change (Z.pos b ?= Z.pos a) with (b ?= a)%positive in E.
    rewrite <- (Pos.compare_antisym a b), <- E. change (Pos.compare_cont Eq M1 M2) with (M1 ?= M2)%positive.
    rewrite (Z.compare_antisym (ndigits a - 24)), (Pos.compare_antisym M1 M2).
    destruct (ndigits a - 24 ?= ndigits b - 24); simpl; [|done|done]. by destruct (M1 ?= M2)%positive.
Qed.
