(* ===== verification/FloatRound.v ===== *)
(** * Rounding

    What the rounding of [SpecFloat] does to a value, at any precision: the magnitude
    stays below a power of two ([round_mag]), the sign is kept ([round_sign]), and a
    value that has a canonical representation is not changed ([round_exact]). *)

From Stdlib Require Import SpecFloat.
From S2P Require Import Prelude.
From S2P Require Import Float32.
From S2P Require Import Float32Spec.

(** ** Shifting right *)

Lemma iter_pos_nat {A} (f : A -> A) p : forall x, SpecFloat.iter_pos f p x = Nat.iter (Pos.to_nat p) f x.
Proof.
  induction p as [p IH|p IH|]; intros x; cbn [SpecFloat.iter_pos]; [| |done]; rewrite !IH.
  - rewrite <- Nat.iter_add. replace (f x) with (Nat.iter 1 f x) by done. rewrite <- Nat.iter_add. f_equal. lia.
  - rewrite <- Nat.iter_add. f_equal. lia.
Qed.

Lemma shr_1_spec m r s : 0 <= m ->
  shr_1 {| shr_m := m; shr_r := r; shr_s := s |} = {| shr_m := m / 2; shr_r := Z.odd m; shr_s := r || s |}.
Proof.
  intros Hm. destruct m as [|p|p]; [done| |lia]. rewrite <- Z.div2_div. destruct p; done.
Qed.

(** The mantissa is divided, and the two bits tell whether anything was lost. *)
Lemma shr_iter k : forall m r s, 0 <= m ->
  let x := Nat.iter k shr_1 {| shr_m := m; shr_r := r; shr_s := s |} in
  shr_m x = m / 2 ^ Z.of_nat k /\ (shr_r x || shr_s x = false <-> r || s = false /\ m mod 2 ^ Z.of_nat k = 0).
Proof.
  induction k as [|k IH]; intros m r s Hm; cbv zeta.
  { cbn. rewrite Z.div_1_r, Z.mod_1_r. tauto. }
  destruct (IH m r s Hm) as [E1 E2]. rewrite Nat.iter_succ.
  destruct (Nat.iter k shr_1 _) as [m' r' s']. cbn [shr_m shr_r shr_s] in *. subst m'. assert (0 <= m / 2 ^ Z.of_nat k) by (apply Z.div_pos; lia).
  rewrite shr_1_spec by done. cbn [shr_m shr_r shr_s]. rewrite Nat2Z.inj_succ, Z.pow_succ_r by lia.
  rewrite (Z.mul_comm 2). rewrite Z.rem_mul_r, Z.div_div by lia. split; [done|].
  rewrite orb_false_iff, E2, Zmod_odd. assert (0 < 2 ^ Z.of_nat k) by lia. pose proof (Z.mod_pos_bound m (2 ^ Z.of_nat k)).
  destruct (Z.odd (m / 2 ^ Z.of_nat k)); [split; [by intros []|lia]|]. rewrite Z.mul_0_r, Z.add_0_r. tauto.
Qed.

(** ** Rounding *)

Section round.
Context (prec emax : Z) (Hprec : 1 < prec) (Hemax : prec + 1 < emax).

(** The exponent a value with [d] digits and exponent [e] is represented at. *)
Lemma fexp_le d e k : emin prec emax <= k -> d + e - prec <= k -> fexp prec emax (d + e) <= k.
Proof. unfold fexp. lia. Qed.

Lemma fexp_low e : emin prec emax <= fexp prec emax e.
Proof. unfold fexp. lia. Qed.

(** A shift to that exponent. *)
Lemma shr_fexp_spec m e l : 0 <= m -> exists x n, shr_fexp prec emax m e l = (x, e + n) /\ 0 <= n /\
  shr_m x = m / 2 ^ n /\ (loc_of_shr_record x = loc_Exact <-> l = loc_Exact /\ m mod 2 ^ n = 0) /\
  e + n = Z.max e (fexp prec emax (Zdigits2 m + e)).
Proof.
  intros Hm. unfold shr_fexp. set (n := fexp prec emax (Zdigits2 m + e) - e). set (y := shr_record_of_loc m l).
  assert (Hl : forall x, loc_of_shr_record x = loc_Exact <-> shr_r x || shr_s x = false) by (by intros [? [] []]).
  assert (Hy : exists r s, y = {| shr_m := m; shr_r := r; shr_s := s |} /\ (r || s = false <-> l = loc_Exact)).
  { unfold y. destruct l as [|[]]; cbn; do 2 eexists; (split; [reflexivity|]); done. }
  destruct Hy as (r & s & -> & Hrs). destruct n as [|p|p] eqn:En; cbn [shr].
  2: { rewrite iter_pos_nat. destruct (shr_iter (Pos.to_nat p) m r s Hm) as [E1 E2]. rewrite positive_nat_Z in E1, E2.
    exists (Nat.iter (Pos.to_nat p) shr_1 {| shr_m := m; shr_r := r; shr_s := s |}), (Z.pos p).
    split; [done|]. split; [lia|]. split; [done|]. split; [rewrite Hl, E2, Hrs; done|]. unfold n in En. lia. }
  all: exists {| shr_m := m; shr_r := r; shr_s := s |}, 0; rewrite Z.add_0_r; split; [done|]; split; [lia|]; cbn [shr_m]; rewrite Z.div_1_r, Z.mod_1_r.
  all: split; [done|]; split; [rewrite Hl; cbn; tauto|]; unfold n in En; lia.
Qed.

Lemma nearest_le m l : 0 <= m -> m <= round_nearest_even m l <= m + 1 /\ (l = loc_Exact -> round_nearest_even m l = m).
Proof. intros Hm. destruct l as [|[]]; cbn; try (split; [lia|done]). destruct (Z.even m); split; try lia; done. Qed.

(** The sign is kept, and a number comes out. *)
Definition signed (s : bool) (x : spec_float) : Prop :=
  match x with S754_zero t | S754_infinity t | S754_finite t _ _ => t = s | S754_nan => False end.

Lemma round_sign s m e l : 0 <= m -> signed s (binary_round_aux prec emax s m e l).
Proof.
  intros Hm. unfold binary_round_aux. destruct (shr_fexp_spec m e l Hm) as (x & n & -> & Hn & Ex & _).
  assert (Hx : 0 <= shr_m x) by (rewrite Ex; apply Z.div_pos; lia). destruct (nearest_le (shr_m x) (loc_of_shr_record x) Hx) as [Hr _].
  destruct (shr_fexp_spec (round_nearest_even (shr_m x) (loc_of_shr_record x)) (e + n) loc_Exact ltac:(lia)) as (y & n' & -> & Hn' & Ey & _).
  assert (Hy : 0 <= shr_m y) by (rewrite Ey; apply Z.div_pos; lia).
  destruct (shr_m y); [done| |lia]. by destruct (_ <=? _).
Qed.

Lemma digits_le m j : 0 <= m -> 0 <= j -> m <= 2 ^ j -> Zdigits2 m <= j + 1.
Proof.
  intros Hm Hj Hle. destruct m as [|p|p]; [cbn; lia| |lia]. change (Zdigits2 (Z.pos p)) with (ndigits p). pose proof (ndigits_bounds p).
  destruct (Z.le_gt_cases (ndigits p) (j + 1)); [done|]. assert (2 ^ (j + 1) <= 2 ^ (ndigits p - 1)) by (apply Z.pow_le_mono_r; lia).
  rewrite Z.pow_add_r in * by lia. lia.
Qed.

Lemma div_pow_le m n j : 0 <= m -> 0 <= n <= j -> m <= 2 ^ j ->
  m / 2 ^ n <= 2 ^ (j - n) /\ (m < 2 ^ j -> m / 2 ^ n < 2 ^ (j - n)).
Proof.
  intros Hm Hn Hle. assert (E : 2 ^ j = 2 ^ n * 2 ^ (j - n)) by (rewrite <- Z.pow_add_r by lia; f_equal; lia). assert (0 < 2 ^ n) by lia. split.
  - apply Z.div_le_upper_bound; lia.
  - intros Hlt. apply Z.div_lt_upper_bound; lia.
Qed.

(** At most [2 ^ k] in magnitude. *)
Definition mag (k : Z) (x : spec_float) : Prop :=
  match x with
  | S754_zero _ => True
  | S754_finite _ m e => emin prec emax <= e <= k /\ Z.pos m <= 2 ^ (k - e)
  | _ => False
  end.

(** A shift keeps the bound, and with it the exponent. *)
Lemma shr_fexp_mag m e l k : 0 <= m -> e <= k -> emin prec emax <= k -> m <= 2 ^ (k - e) -> exists x n,
  shr_fexp prec emax m e l = (x, e + n) /\ 0 <= n /\ emin prec emax <= e + n <= k /\ e + n <= Z.max e (Z.max (k + 1 - prec) (emin prec emax)) /\
  0 <= shr_m x <= 2 ^ (k - (e + n)) /\ (loc_of_shr_record x <> loc_Exact -> (l <> loc_Exact -> m < 2 ^ (k - e)) -> shr_m x < 2 ^ (k - (e + n))).
Proof.
  intros Hm He Hk Hle. destruct (shr_fexp_spec m e l Hm) as (x & n & E & Hn & Ex & Hloc & Hmax). exists x, n. split; [done|]. split; [done|].
  pose proof (digits_le m (k - e) Hm ltac:(lia) Hle) as Hd.
  assert (Hf : fexp prec emax (Zdigits2 m + e) <= Z.max (k + 1 - prec) (emin prec emax)) by (unfold fexp; lia).
  pose proof (fexp_low (Zdigits2 m + e)) as Hlow.
  assert (Hnk : n <= k - e) by lia. destruct (div_pow_le m n (k - e) Hm ltac:(lia) Hle) as [D1 D2].
  split; [lia|]. split; [lia|]. rewrite Ex. replace (k - (e + n)) with (k - e - n) by lia.
  split; [split; [apply Z.div_pos; lia|done]|]. intros Hne Hl. apply D2. destruct (Z.lt_ge_cases m (2 ^ (k - e))) as [|Hge]; [done|].
  destruct Hne. apply Hloc. split; [destruct l; [done|]; exfalso; specialize (Hl ltac:(done)); lia|].
  replace m with (2 ^ (k - e - n) * 2 ^ n) by (rewrite <- Z.pow_add_r by lia; replace (k - e - n + n) with (k - e) by lia; lia).
  apply Z.mod_mul. lia.
Qed.

Lemma round_mag s m e l k : 0 <= m -> e <= k -> e <= emax - prec -> emin prec emax <= k < emax ->
  m <= 2 ^ (k - e) -> (l <> loc_Exact -> m < 2 ^ (k - e)) -> mag k (binary_round_aux prec emax s m e l).
Proof.
  intros Hm He Hee Hk Hle Hl. unfold binary_round_aux.
  destruct (shr_fexp_mag m e l k Hm He ltac:(lia) Hle) as (x & n & -> & Hn & Hek & Hmax & Hx & Hlt).
  destruct (nearest_le (shr_m x) (loc_of_shr_record x) ltac:(lia)) as [Hr Hr'].
  assert (Hrle : round_nearest_even (shr_m x) (loc_of_shr_record x) <= 2 ^ (k - (e + n))).
  { destruct (loc_of_shr_record x) as [|c] eqn:El; [rewrite Hr' by done; lia|]. specialize (Hlt ltac:(done) Hl). lia. }
  destruct (shr_fexp_mag (round_nearest_even (shr_m x) (loc_of_shr_record x)) (e + n) loc_Exact k ltac:(lia) ltac:(lia) ltac:(lia) Hrle) as (y & n' & -> & Hn' & Hek' & Hmax' & Hy & _).
  destruct (shr_m y) as [|p|p] eqn:Ey; [done| |lia]. assert (Hlast : e + n + n' <= emax - prec) by (unfold emin in *; lia).
  rewrite (proj2 (Z.leb_le _ _) Hlast). cbn. lia.
Qed.

(** Aligning to the left keeps the value and the bound. *)
Lemma binary_round_mag s m e k : emin prec emax <= e <= k -> k < emax -> Z.pos m <= 2 ^ (k - e) -> mag k (binary_round prec emax s m e).
Proof.
  intros He Hk Hle. unfold binary_round. set (f := fexp prec emax (Z.pos (digits2_pos m) + e)).
  pose proof (digits_le (Z.pos m) (k - e) ltac:(lia) ltac:(lia) Hle) as Hd. cbn [Zdigits2] in Hd.
  assert (Hf : f <= Z.max (k + 1 - prec) (emin prec emax)) by (unfold f, fexp; lia). assert (Hlow : emin prec emax <= f) by apply fexp_low.
  unfold shl_align. destruct (f - e) as [|p|p] eqn:E.
  1,2: apply round_mag; try done; unfold emin in *; lia.
  change (Pos.iter xO m p) with (shift_pos p m). apply round_mag; try done; try (unfold emin in *; lia).
  rewrite shift_pos_mul. replace (k - f) with ((k - e) + Z.pos p) by lia. rewrite Z.pow_add_r by lia. nia.
Qed.

Lemma normalize_mag m e z k : emin prec emax <= e <= k -> k < emax -> Z.abs m <= 2 ^ (k - e) -> mag k (binary_normalize prec emax m e z).
Proof. intros. destruct m as [|p|p]; [done| |]; apply binary_round_mag; lia. Qed.

Lemma shl_align_value m e e' : e' <= e -> Z.pos (fst (shl_align m e e')) = Z.pos m * 2 ^ (e - e').
Proof.
  intros. unfold shl_align. destruct (e' - e) as [|p|p] eqn:E; cbn [fst]; [replace (e - e') with 0 by lia; lia|lia|].
  change (Pos.iter xO m p) with (shift_pos p m). rewrite shift_pos_mul. do 2 f_equal. lia.
Qed.

Lemma mag_weaken k k' x : k <= k' -> mag k x -> mag k' x.
Proof.
  intros Hk. destruct x as [| | |s m e]; try done. cbn. intros [? Hm]. split; [lia|]. assert (2 ^ (k - e) <= 2 ^ (k' - e)) by (apply Z.pow_le_mono_r; lia). lia.
Qed.

(** Sums and differences of numbers of magnitude [2 ^ k]. *)
Lemma aligned_mag sx sy mx my ex ey k (neg : bool) : emin prec emax <= k -> k + 1 < emax ->
  mag k (S754_finite sx mx ex) -> mag k (S754_finite sy my ey) ->
  mag (k + 1) (binary_normalize prec emax
    (cond_Zopp sx (Z.pos (fst (shl_align mx ex (Z.min ex ey)))) + cond_Zopp neg (cond_Zopp sy (Z.pos (fst (shl_align my ey (Z.min ex ey))))))
    (Z.min ex ey) false).
Proof.
  cbn. intros Hk1 Hk2 [Hex Hmx] [Hey Hmy]. rewrite !shl_align_value by lia. apply normalize_mag; [lia|lia|].
  assert (Hb : forall m e, e <= k -> Z.min ex ey <= e -> Z.pos m <= 2 ^ (k - e) -> 0 <= Z.pos m * 2 ^ (e - Z.min ex ey) <= 2 ^ (k - Z.min ex ey)).
  { intros m e H1 H2 H3. replace (k - Z.min ex ey) with ((k - e) + (e - Z.min ex ey)) by lia. rewrite Z.pow_add_r by lia.
    assert (0 < 2 ^ (e - Z.min ex ey)) by lia. nia. }
  pose proof (Hb mx ex ltac:(lia) ltac:(lia) Hmx). pose proof (Hb my ey ltac:(lia) ltac:(lia) Hmy).
  replace (k + 1 - Z.min ex ey) with ((k - Z.min ex ey) + 1) by lia. rewrite Z.pow_add_r by lia. unfold cond_Zopp. destruct sx, sy, neg; lia.
Qed.

Lemma add_mag x y k : emin prec emax <= k -> k + 1 < emax -> mag k x -> mag k y -> mag (k + 1) (SFadd prec emax x y).
Proof.
  intros H1 H2 Hx Hy. destruct x as [[]| | |sx mx ex], y as [[]| | |sy my ey]; try done; try (by apply (mag_weaken k); [lia|]).
  exact (aligned_mag sx sy mx my ex ey k false H1 H2 Hx Hy).
Qed.

Lemma sub_mag x y k : emin prec emax <= k -> k + 1 < emax -> mag k x -> mag k y -> mag (k + 1) (SFsub prec emax x y).
Proof.
  intros H1 H2 Hx Hy. destruct x as [[]| | |sx mx ex], y as [[]| | |sy my ey]; try done; try (by apply (mag_weaken k); [lia|]).
  exact (aligned_mag sx sy mx my ex ey k true H1 H2 Hx Hy).
Qed.

(** ** Exact results *)

Definition canonical (M : positive) (E : Z) : Prop := fexp prec emax (ndigits M + E) = E /\ E <= emax - prec.

Lemma ndigits_shift m M k : 0 <= k -> Z.pos m = Z.pos M * 2 ^ k -> ndigits m = ndigits M + k.
Proof.
  intros Hk Hm. pose proof (ndigits_bounds M) as Hb. assert (0 < ndigits M) by (unfold ndigits; lia). apply ndigits_unique. rewrite Hm.
  replace (ndigits M + k - 1) with ((ndigits M - 1) + k) by lia. rewrite !Z.pow_add_r by lia. assert (0 < 2 ^ k) by lia. nia.
Qed.

Lemma aux_exact s m e M E : canonical M E -> e <= E -> Z.pos m = Z.pos M * 2 ^ (E - e) ->
  binary_round_aux prec emax s (Z.pos m) e loc_Exact = S754_finite s M E.
Proof.
  intros [Hc HE] He Hm. unfold binary_round_aux. pose proof (ndigits_shift m M (E - e) ltac:(lia) Hm) as Hd.
  destruct (shr_fexp_spec (Z.pos m) e loc_Exact ltac:(lia)) as (x & n & -> & Hn & Ex & Hloc & Hmax).
  change (Zdigits2 (Z.pos m)) with (ndigits m) in Hmax. rewrite Hd in Hmax. replace (ndigits M + (E - e) + e) with (ndigits M + E) in Hmax by lia.
  assert (En : n = E - e) by lia. subst n. replace (e + (E - e)) with E by lia. assert (0 < 2 ^ (E - e)) by lia.
  assert (Hx : loc_of_shr_record x = loc_Exact) by (apply Hloc; split; [done|]; rewrite Hm; apply Z.mod_mul; lia).
  assert (Hxm : shr_m x = Z.pos M) by (rewrite Ex, Hm; apply Z.div_mul; lia). rewrite Hx, Hxm. cbn [round_nearest_even].
  destruct (shr_fexp_spec (Z.pos M) E loc_Exact ltac:(lia)) as (y & n' & -> & Hn' & Ey & _ & Hmax').
  change (Zdigits2 (Z.pos M)) with (ndigits M) in Hmax'. assert (En' : n' = 0) by lia. subst n'. rewrite Z.div_1_r in Ey. rewrite Ey, Z.add_0_r.
  by rewrite (proj2 (Z.leb_le _ _) HE).
Qed.

(** Two mantissas and exponents of the same value. *)
Definition same_value (m : positive) (e : Z) (M : positive) (E : Z) : Prop :=
  (e <= E /\ Z.pos m = Z.pos M * 2 ^ (E - e)) \/ (E <= e /\ Z.pos M = Z.pos m * 2 ^ (e - E)).

Lemma round_exact s m e M E : canonical M E -> same_value m e M E -> binary_round prec emax s m e = S754_finite s M E.
Proof.
  intros Hc Hv. pose proof Hc as [Hf HE]. unfold binary_round. change (Z.pos (digits2_pos m)) with (ndigits m).
  assert (Hd : ndigits m + e = ndigits M + E).
  { destruct Hv as [[He Hm]|[He Hm]]; [pose proof (ndigits_shift m M (E - e) ltac:(lia) Hm)|pose proof (ndigits_shift M m (e - E) ltac:(lia) Hm)]; lia. }
  rewrite Hd, Hf. unfold shl_align. destruct Hv as [[He Hm]|[He Hm]].
  - destruct (E - e) as [|p|p] eqn:Ed; [| |lia]; apply aux_exact; try done; rewrite Ed; done.
  - destruct (E - e) as [|p|p] eqn:Ed; [|lia|].
    + apply aux_exact; [done|lia|]. replace (e - E) with 0 in Hm by lia. rewrite Ed. lia.
    + change (Pos.iter xO m p) with (shift_pos p m). apply aux_exact; [done|lia|]. rewrite shift_pos_mul, Z.sub_diag, Hm. replace (e - E) with (Z.pos p) by lia. lia.
Qed.

(** *** Fixed-point numbers: [n / 2 ^ j] with [n] of at most [prec] bits *)
Definition fixed (j n : Z) : spec_float := binary_normalize prec emax n (- j) false.

Definition scale_ok (j : Z) : Prop := 0 <= j <= emax - 3 - 1.

(** Its representation. *)
Lemma fixed_repr (a : positive) j : Z.pos a < 2 ^ prec -> scale_ok j -> exists M E, (canonical M E /\ ndigits M = prec) /\ E <= - j /\ Z.pos M = Z.pos a * 2 ^ (- j - E) /\
  (forall s, binary_round prec emax s a (- j) = S754_finite s M E).
Proof.
  intros Ha Hj. unfold scale_ok in Hj. pose proof (digits_le (Z.pos a) prec ltac:(lia) ltac:(lia) ltac:(lia)) as Hd0. pose proof (ndigits_bounds a) as Hb.
  assert (0 < ndigits a) by (unfold ndigits; lia).
  assert (Hd : ndigits a <= prec).
  { destruct (Z.le_gt_cases (ndigits a) prec); [done|]. assert (2 ^ prec <= 2 ^ (ndigits a - 1)) by (apply Z.pow_le_mono_r; lia). lia. }
  set (E := ndigits a - prec - j). assert (HM : exists M, Z.pos M = Z.pos a * 2 ^ (- j - E)).
  { assert (0 < Z.pos a * 2 ^ (- j - E)) by (assert (0 < 2 ^ (- j - E)) by (apply Z.pow_pos_nonneg; unfold E; lia); lia). by exists (Z.to_pos (Z.pos a * 2 ^ (- j - E))); rewrite Z2Pos.id. }
  destruct HM as [M HM]. pose proof (ndigits_shift M a (- j - E) ltac:(unfold E; lia) HM) as HdM.
  assert (Hc : canonical M E) by (split; unfold fexp, emin, E in *; lia).
  exists M, E. split; [split; [done|unfold E in *; lia]|]. split; [unfold E; lia|]. split; [done|]. intros s. apply round_exact; [done|]. right. split; [unfold E; lia|done].
Qed.

(** An exact result is the fixed-point number. *)
Lemma normalize_fixed c e j z : c <> 0 -> Z.abs c < 2 ^ prec -> scale_ok j -> e <= - j -> binary_normalize prec emax (c * 2 ^ (- j - e)) e z = fixed j c.
Proof.
  intros Hc Hr Hj He. assert (Hp : 0 < 2 ^ (- j - e)) by (apply Z.pow_pos_nonneg; lia).
  assert (Hpos : forall s a, Z.pos a < 2 ^ prec -> forall m, Z.pos m = Z.pos a * 2 ^ (- j - e) -> binary_round prec emax s m e = binary_round prec emax s a (- j)).
  { intros s a Ha m Hm. destruct (fixed_repr a j Ha Hj) as (M & E & [HcM _] & HE & HM & ->). apply round_exact; [done|].
    destruct (Z.le_gt_cases e E) as [Hle|Hgt]; [left|right]; (split; [lia|]).
    - rewrite HM, Hm, <- Z.mul_assoc, <- Z.pow_add_r by lia. do 2 f_equal. lia.
    - rewrite HM, Hm, <- Z.mul_assoc, <- Z.pow_add_r by lia. do 2 f_equal. lia. }
  unfold fixed. destruct c as [|a|a]; [done| |]; cbn [binary_normalize].
  - destruct (Z.pos a * 2 ^ (- j - e)) as [|m|m] eqn:Em; [lia| |lia]. cbn [binary_normalize]. apply Hpos; [lia|by rewrite Em].
  - destruct (Z.neg a * 2 ^ (- j - e)) as [|m|m] eqn:Em; [lia|lia|]. cbn [binary_normalize]. apply Hpos; lia.
Qed.

(** *** Arithmetic on fixed-point numbers *)

Definition fits (n : Z) : Prop := Z.abs n < 2 ^ prec.

(** Zero, or a signed mantissa and exponent with the value. *)
Lemma fixed_cases j a : fits a -> scale_ok j -> (a = 0 /\ fixed j a = S754_zero false) \/
  (a <> 0 /\ exists M E, (canonical M E /\ ndigits M = prec) /\ E <= - j /\ Z.pos M = Z.abs a * 2 ^ (- j - E) /\ fixed j a = S754_finite (a <? 0) M E).
Proof.
  intros Ha Hj. unfold fits in Ha. destruct a as [|a|a]; [by left| |]; right; (split; [done|]);
    destruct (fixed_repr a j ltac:(lia) Hj) as (M & E & Hc & HE & HM & Hr); exists M, E; (split; [done|]); (split; [done|]); (split; [done|]); apply Hr.
Qed.

Lemma cond_opp a x : cond_Zopp (a <? 0) (Z.abs a * x) = a * x.
Proof. unfold cond_Zopp. destruct (Z.ltb_spec a 0); nia. Qed.

Lemma align_fixed a j M E e : E <= - j -> Z.pos M = Z.abs a * 2 ^ (- j - E) -> e <= E ->
  cond_Zopp (a <? 0) (Z.pos (fst (shl_align M E e))) = a * 2 ^ (- j - e).
Proof.
  intros HE HM He. rewrite shl_align_value, HM, <- Z.mul_assoc, <- Z.pow_add_r by lia. replace (- j - E + (E - e)) with (- j - e) by lia. apply cond_opp.
Qed.

Lemma add_fixed j a b : fits a -> fits b -> fits (a + b) -> scale_ok j -> SFadd prec emax (fixed j a) (fixed j b) = fixed j (a + b).
Proof.
  intros Ha Hb Hab Hj. destruct (fixed_cases j a Ha Hj) as [[-> ->]|(Hna & M & E & _ & HE & HM & Ea)], (fixed_cases j b Hb Hj) as [[-> ->]|(Hnb & N & F & _ & HF & HN & Eb)].
  - done.
  - rewrite Z.add_0_l, Eb. done.
  - rewrite Z.add_0_r, Ea. done.
  - rewrite Ea, Eb. cbn [SFadd]. rewrite (align_fixed a j M E), (align_fixed b j N F) by (done || lia). rewrite <- Z.mul_add_distr_r.
    destruct (Z.eq_dec (a + b) 0) as [E0|Hne]; [by rewrite E0|]. apply normalize_fixed; [done|done|done|lia].
Qed.

Lemma sub_fixed j a b : fits a -> fits b -> fits (a - b) -> scale_ok j -> SFsub prec emax (fixed j a) (fixed j b) = fixed j (a - b).
Proof.
  intros Ha Hb Hab Hj. destruct (fixed_cases j a Ha Hj) as [[-> ->]|(Hna & M & E & _ & HE & HM & Ea)], (fixed_cases j b Hb Hj) as [[-> ->]|(Hnb & N & F & Hc & HF & HN & Eb)].
  - done.
  - rewrite Z.sub_0_l, Eb. cbn [SFsub]. destruct (fixed_cases j (- b)) as [[? ?]|(_ & N' & F' & _ & HF' & HN' & Eb')]; [unfold fits in *; lia|done|lia|].
    destruct b as [|b|b]; [done| |]; unfold fixed in *; cbn [Z.opp binary_normalize] in *; destruct (fixed_repr b j ltac:(unfold fits in Hb; lia) Hj) as (P & Q & _ & _ & _ & Hr);
      rewrite Hr in *; by simplify_eq/=.
  - rewrite Z.sub_0_r, Ea. done.
  - rewrite Ea, Eb. cbn [SFsub]. rewrite (align_fixed a j M E), (align_fixed b j N F) by (done || lia). rewrite <- Z.mul_sub_distr_r.
    destruct (Z.eq_dec (a - b) 0) as [E0|Hne]; [by rewrite E0|]. apply normalize_fixed; [done|done|done|lia].
Qed.

Lemma xorb_ltb a b : a <> 0 -> b <> 0 -> xorb (a <? 0) (b <? 0) = (a * b <? 0).
Proof. intros. destruct (Z.ltb_spec a 0), (Z.ltb_spec b 0), (Z.ltb_spec (a * b) 0); cbn; try done; nia. Qed.

Lemma mul_fixed i j a b : a <> 0 -> b <> 0 -> fits a -> fits b -> fits (a * b) -> scale_ok i -> scale_ok j -> scale_ok (i + j) ->
  SFmul prec emax (fixed i a) (fixed j b) = fixed (i + j) (a * b).
Proof.
  intros Hna Hnb Ha Hb Hab Hi Hj Hij.
  destruct (fixed_cases i a Ha Hi) as [[? _]|(_ & M & E & [HcM HdM] & HE & HM & ->)]; [done|].
  destruct (fixed_cases j b Hb Hj) as [[? _]|(_ & N & F & [HcN HdN] & HF & HN & ->)]; [done|].
  destruct (fixed_cases (i + j) (a * b) Hab Hij) as [[? _]|(_ & P & Q & [HcP HdP] & HQ & HP & ->)]; [lia|]. cbn [SFmul].
  assert (HMN : Z.pos (M * N) = Z.abs (a * b) * 2 ^ (- (i + j) - (E + F))).
  { rewrite Pos2Z.inj_mul, HM, HN, Z.abs_mul. replace (- (i + j) - (E + F)) with ((- i - E) + (- j - F)) by lia. rewrite Z.pow_add_r by lia. ring. }
  pose proof (ndigits_bounds M) as BM. pose proof (ndigits_bounds N) as BN. pose proof (ndigits_bounds P) as BP. rewrite HdM, HdN, HdP in *.
  rewrite xorb_ltb by done.
  assert (HQEF : E + F <= Q).
  { destruct (Z.le_gt_cases (E + F) Q); [done|]. assert (E1 : Z.pos P = Z.pos (M * N) * 2 ^ (E + F - Q)).
    { rewrite HP, HMN, <- Z.mul_assoc, <- Z.pow_add_r by lia. do 2 f_equal. lia. }
    assert (2 ^ 1 <= 2 ^ (E + F - Q)) by (apply Z.pow_le_mono_r; lia). assert (2 ^ prec = 2 * 2 ^ (prec - 1)) by (rewrite <- Z.pow_succ_r by lia; f_equal; lia).
    assert (1 <= 2 ^ (prec - 1)) by lia. rewrite Pos2Z.inj_mul in E1. nia. }
  apply aux_exact; [done|done|]. rewrite HMN, HP, <- Z.mul_assoc, <- Z.pow_add_r by lia. do 2 f_equal. lia.
Qed.

(** The representation is determined. *)
Lemma repr_unique v M E N F j : ndigits M = prec -> ndigits N = prec -> E <= - j -> F <= - j ->
  Z.pos M = v * 2 ^ (- j - E) -> Z.pos N = v * 2 ^ (- j - F) -> M = N /\ E = F.
Proof.
  intros HdM HdN HE HF HM HN. pose proof (ndigits_bounds M) as BM. pose proof (ndigits_bounds N) as BN. rewrite HdM, HdN in *.
  assert (H2 : 2 ^ prec = 2 * 2 ^ (prec - 1)) by (rewrite <- Z.pow_succ_r by lia; f_equal; lia).
  assert (Hlt : forall (P Q : Z) G H, G <= - j -> H <= - j -> P = v * 2 ^ (- j - G) -> Q = v * 2 ^ (- j - H) ->
    2 ^ (prec - 1) <= P < 2 ^ prec -> 2 ^ (prec - 1) <= Q < 2 ^ prec -> G <= H).
  { intros P Q G H HG HH HP HQ BP BQ. destruct (Z.le_gt_cases G H); [done|].
    assert (E1 : Q = P * 2 ^ (G - H)) by (rewrite HP, HQ, <- Z.mul_assoc, <- Z.pow_add_r by lia; do 2 f_equal; lia).
    assert (2 ^ 1 <= 2 ^ (G - H)) by (apply Z.pow_le_mono_r; lia). nia. }
  pose proof (Hlt _ _ E F HE HF HM HN BM BN). pose proof (Hlt _ _ F E HF HE HN HM BN BM). assert (E = F) by lia. subst F. split; [|done]. lia.
Qed.

Lemma shl_value m s : 0 <= s -> match s with Z.pos _ => Z.shiftl m s | Z0 => m | Z.neg _ => 0 end = m * 2 ^ s.
Proof. intros Hs. destruct s as [|p|p]; [lia| |lia]. by rewrite Z.shiftl_mul_pow2. Qed.

Lemma eucl_value m n q r : m = n * q + r -> 0 <= r < n -> Z.div_eucl m n = (q, r).
Proof.
  intros Hm Hr. pose proof (Z.div_unique_pos m n q r Hr Hm) as Hq. pose proof (Z.mod_unique_pos m n q r Hr Hm) as Hr'.
  unfold Z.div, Z.modulo in *. destruct (Z.div_eucl m n). congruence.
Qed.

(** A number divided by one of the same magnitude. *)
Lemma div_fixed j a b : Z.abs a = Z.abs b -> a <> 0 -> fits a -> scale_ok j -> SFdiv prec emax (fixed j a) (fixed j b) = fixed 0 (Z.sgn (a * b)).
Proof.
  intros Hab Hna Ha Hj. assert (Hb : fits b) by (unfold fits in *; lia).
  destruct (fixed_cases j a Ha Hj) as [[? _]|(_ & M & E & [_ HdM] & HE & HM & ->)]; [done|].
  destruct (fixed_cases j b Hb Hj) as [[? _]|(Hnb & N & F & [_ HdN] & HF & HN & ->)]; [lia|]. rewrite Hab in HM.
  destruct (repr_unique _ M E N F j HdM HdN HE HF HM HN) as [<- <-].
  assert (Hs : fits (Z.sgn (a * b))). { assert (2 ^ 1 < 2 ^ prec) by (apply Z.pow_lt_mono_r; lia). unfold fits. lia. }
  destruct (fixed_cases 0 (Z.sgn (a * b)) Hs) as [[? _]|(_ & P & Q & [HcP HdP] & HQ & HP & ->)]; [unfold scale_ok; lia|lia|].
  replace (Z.abs (Z.sgn (a * b))) with 1 in HP by lia. assert (HQp : Q = 1 - prec).
  { pose proof (ndigits_shift P 1 (- 0 - Q) ltac:(lia) HP) as Hd. change (ndigits 1) with 1 in Hd. lia. }
  cbn [SFdiv]. unfold SFdiv_core_binary. rewrite Z.sub_diag, Z.sub_diag. replace (Z.min (fexp prec emax 0) 0) with (- prec) by (unfold fexp, emin; lia).
  rewrite shl_value by lia. rewrite (eucl_value (Z.pos M * 2 ^ (0 - - prec)) (Z.pos M) (2 ^ prec) 0) by (replace (0 - - prec) with prec by lia; lia).
  replace (new_location (Z.pos M) 0) with loc_Exact by (unfold new_location; by destruct (Z.even _)). rewrite xorb_ltb by done.
  replace (Z.sgn (a * b) <? 0) with (a * b <? 0) by (destruct (Z.ltb_spec (a * b) 0), (Z.ltb_spec (Z.sgn (a * b)) 0); lia).
  rewrite <- (Z2Pos.id (2 ^ prec)) by lia. apply aux_exact; [done|lia|]. rewrite Z2Pos.id by lia. rewrite HP, Z.mul_1_l, <- Z.pow_add_r by lia. f_equal. lia.
Qed.

Lemma sqrtrem_square t : 0 <= t -> Z.sqrtrem (t * t) = (t, 0).
Proof.
  intros Ht. pose proof (Z.sqrtrem_spec (t * t) ltac:(nia)) as Hs. destruct (Z.sqrtrem (t * t)) as [q r]. destruct Hs as [H1 H2].
  assert (q = t) by nia. subst q. f_equal. lia.
Qed.

(** The root of a square. *)
Lemma sqrt_fixed j n : 0 < n -> fits (n * n) -> scale_ok j -> scale_ok (2 * j) -> SFsqrt prec emax (fixed (2 * j) (n * n)) = fixed j n.
Proof.
  intros Hn Hf Hj H2j. assert (Hfn : fits n) by (unfold fits in *; nia). unfold scale_ok in Hj, H2j.
  destruct (fixed_cases (2 * j) (n * n) Hf H2j) as [[? _]|(_ & M & E & [_ HdM] & HE & HM & ->)]; [nia|].
  destruct (fixed_cases j n Hfn Hj) as [[? _]|(_ & N & F & [HcN HdN] & HF & HN & ->)]; [nia|].
  rewrite Z.abs_eq in HM, HN by nia. rewrite (proj2 (Z.ltb_ge (n * n) 0)) by nia. rewrite (proj2 (Z.ltb_ge n 0)) by nia.
  cbn [SFsqrt]. unfold SFsqrt_core_binary. change (Zdigits2 (Z.pos M)) with (ndigits M). rewrite HdM.
  set (e := Z.min (fexp prec emax (Z.div2 (prec + E + 1))) (Z.div2 E)).
  assert (HeF : e <= F).
  { (* M 2^E = n^2 and N 2^F = n have prec digits each *)
    assert (HEF : prec + E <= 2 * (prec + F)).
    { pose proof (ndigits_bounds M) as BM. pose proof (ndigits_bounds N) as BN. rewrite HdM, HdN in *.
      destruct (Z.le_gt_cases (prec + E) (2 * (prec + F))) as [|Hgt]; [done|exfalso].
      assert (EM : Z.pos M * 2 ^ (E - 2 * F) = Z.pos N * Z.pos N).
      { rewrite HM, HN, <- Z.mul_assoc, <- Z.pow_add_r by lia. replace (- (2 * j) - E + (E - 2 * F)) with ((- j - F) + (- j - F)) by lia. rewrite Z.pow_add_r by lia. ring. }
      assert (2 ^ (prec + 1) <= 2 ^ (E - 2 * F)) by (apply Z.pow_le_mono_r; lia). rewrite Z.pow_add_r in * by lia.
      assert (2 ^ prec = 2 * 2 ^ (prec - 1)) by (rewrite <- Z.pow_succ_r by lia; f_equal; lia). nia. }
    assert (Hd2 : Z.div2 (prec + E + 1) <= prec + F) by (rewrite Z.div2_div; pose proof (Z.div_lt_upper_bound (prec + E + 1) 2 (prec + F + 1)); lia).
    destruct HcN as [HcN _]. rewrite HdN in HcN. unfold e, fexp in *. lia. }
  assert (HeE : 2 * e <= E) by (unfold e; rewrite Z.div2_div; pose proof (Z.mul_div_le E 2 ltac:(lia)); lia).
  assert (Hsq : Z.pos M * 2 ^ (E - 2 * e) = (n * 2 ^ (- j - e)) * (n * 2 ^ (- j - e))).
  { rewrite HM, <- Z.mul_assoc, <- Z.pow_add_r by lia. replace (- (2 * j) - E + (E - 2 * e)) with ((- j - e) + (- j - e)) by lia. rewrite Z.pow_add_r by lia. ring. }
  rewrite shl_value by lia. rewrite Hsq. assert (Hq : 0 < n * 2 ^ (- j - e)) by (assert (0 < 2 ^ (- j - e)) by (apply Z.pow_pos_nonneg; lia); nia).
  rewrite sqrtrem_square by lia. cbn [Z.eqb]. rewrite <- (Z2Pos.id (n * 2 ^ (- j - e))) by done. apply aux_exact; [done|done|].
  rewrite Z2Pos.id by done. rewrite HN, <- Z.mul_assoc, <- Z.pow_add_r by lia. do 2 f_equal. lia.
Qed.

Lemma compare_repr a b j M E N F : 0 < a -> 0 < b -> ndigits M = prec -> ndigits N = prec -> E <= - j -> F <= - j ->
  Z.pos M = a * 2 ^ (- j - E) -> Z.pos N = b * 2 ^ (- j - F) ->
  match E ?= F with Lt => Lt | Eq => Pos.compare_cont Eq M N | Gt => Gt end = (a ?= b).
Proof.
  intros Ha Hb HdM HdN HE HF HM HN. pose proof (ndigits_bounds M) as BM. pose proof (ndigits_bounds N) as BN. rewrite HdM, HdN in *.
  assert (H2 : 2 ^ prec = 2 * 2 ^ (prec - 1)) by (rewrite <- Z.pow_succ_r by lia; f_equal; lia).
  assert (Hlt : forall c d (P Q : Z) G H, 0 < c -> 0 < d -> G < H -> H <= - j -> P = c * 2 ^ (- j - G) -> Q = d * 2 ^ (- j - H) -> P < 2 ^ prec -> 2 ^ (prec - 1) <= Q -> c < d).
  { intros c d P Q G H Hc Hd HG HH HP HQ BP BQ. assert (2 ^ 1 <= 2 ^ (H - G)) by (apply Z.pow_le_mono_r; lia).
    assert (E1 : d * 2 ^ (- j - G) = Q * 2 ^ (H - G)) by (rewrite HQ, <- Z.mul_assoc, <- Z.pow_add_r by lia; do 2 f_equal; lia).
    assert (0 < 2 ^ (- j - G)) by (apply Z.pow_pos_nonneg; lia). nia. }
  destruct (Z.compare_spec E F) as [<-|HEF|HEF]; symmetry.
  - change (Pos.compare_cont Eq M N) with (Z.pos M ?= Z.pos N). rewrite HM, HN. assert (0 < 2 ^ (- j - E)) by (apply Z.pow_pos_nonneg; lia).
    rewrite (Z.mul_comm a), (Z.mul_comm b). apply Zmult_compare_compat_l. lia.
  - apply Z.compare_lt_iff. eapply (Hlt a b _ _ E F); eauto; lia.
  - apply Z.compare_gt_iff. eapply (Hlt b a _ _ F E); eauto; lia.
Qed.

(** Fixed-point numbers of one scale compare as integers. *)
Lemma compare_fixed j a b : fits a -> fits b -> scale_ok j -> SFcompare (fixed j a) (fixed j b) = Some (a ?= b).
Proof.
  intros Ha Hb Hj. destruct (fixed_cases j a Ha Hj) as [[-> ->]|(Hna & M & E & [_ HdM] & HE & HM & ->)],
    (fixed_cases j b Hb Hj) as [[-> ->]|(Hnb & N & F & [_ HdN] & HF & HN & ->)]; cbn [SFcompare].
  - done.
  - destruct (Z.ltb_spec b 0); f_equal; symmetry; [apply Z.compare_gt_iff|apply Z.compare_lt_iff]; lia.
  - destruct (Z.ltb_spec a 0); f_equal; symmetry; [apply Z.compare_lt_iff|apply Z.compare_gt_iff]; lia.
  - pose proof (compare_repr (Z.abs a) (Z.abs b) j M E N F ltac:(lia) ltac:(lia) HdM HdN HE HF HM HN) as Hc. f_equal.
    destruct (Z.ltb_spec a 0), (Z.ltb_spec b 0).
    + rewrite !Z.abs_neq in Hc by lia. rewrite (Z.compare_antisym b a), <- (Z.compare_opp a b), <- Hc. by destruct (E ?= F).
    + symmetry. apply Z.compare_lt_iff. lia.
    + symmetry. apply Z.compare_gt_iff. lia.
    + rewrite !Z.abs_eq in Hc by lia. exact Hc.
Qed.
End round.
