(* ===== verification/PiscesPixel.v ===== *)
(** * Pixel arithmetic of the software renderer

    The per-pixel functions of native-prism-sw/PiscesBlit.c: the channel
    accessors, the division by 255 and the six blend functions.  A C function
    that rewrites the pixel behind a pointer is a function from the old pixel
    value to the new one.  A pixel is a [jint]: alpha, red, green and blue in
    its four bytes, the colour channels premultiplied by alpha. *)

From S2P Require Import Prelude.

Definition MAX_ALPHA : Z := 255.

(** ** The source's functions *)

Definition div255 (x : Z) : Z := i32 (x * 257 + 257) >> 16.

Definition A (x : Z) : Z := (x >> 24) & 0xFF.
Definition R (x : Z) : Z := (x >> 16) & 0xFF.
Definition G (x : Z) : Z := (x >> 8) & 0xFF.
Definition B (x : Z) : Z := x & 0xFF.

(** [(a << 24) | (r << 16) | (g << 8) | b], the expression that ends every
    blend function. *)
Definition pack (a r g b : Z) : Z :=
  i32 ((a << 24) .| (r << 16) .| (g << 8) .| b).

(** [*intData] premultiplied, the source colour not. *)
Definition blendSrcOver8888_pre (aval sred sgreen sblue : Z) (ival : Z) : Z :=
  let dalpha := (ival >> 24) & 0xff in
  let dred := (ival >> 16) & 0xff in
  let dgreen := (ival >> 8) & 0xff in
  let dblue := ival & 0xff in
  let oneminusaval := 255 - aval in
  let oalpha := div255 (255 * aval + oneminusaval * dalpha) in
  let ored := div255 (sred * aval + oneminusaval * dred) in
  let ogreen := div255 (sgreen * aval + oneminusaval * dgreen) in
  let oblue := div255 (sblue * aval + oneminusaval * dblue) in
  pack oalpha ored ogreen oblue.

(** [*intData] and the source colour premultiplied. *)
Definition blendSrcOver8888_pre_pre (frac aval sred sgreen sblue : Z) (ival : Z) : Z :=
  let dalpha := (ival >> 24) & 0xff in
  let dred := (ival >> 16) & 0xff in
  let dgreen := (ival >> 8) & 0xff in
  let dblue := ival & 0xff in
  let aval2 := i32 (aval * frac) >> 8 in
  let oneminusaval := 255 - aval2 in
  let oalpha := aval2 + div255 (oneminusaval * dalpha) in
  let ored := (i32 (sred * frac) >> 8) + div255 (oneminusaval * dred) in
  let ogreen := (i32 (sgreen * frac) >> 8) + div255 (oneminusaval * dgreen) in
  let oblue := (i32 (sblue * frac) >> 8) + div255 (oneminusaval * dblue) in
  pack oalpha ored ogreen oblue.

Definition blendSrcOver8888_pre_pre_fullFrac (aval sred sgreen sblue : Z) (ival : Z) : Z :=
  let dalpha := (ival >> 24) & 0xff in
  let dred := (ival >> 16) & 0xff in
  let dgreen := (ival >> 8) & 0xff in
  let dblue := ival & 0xff in
  let oneminusaval := 255 - aval in
  let oalpha := aval + div255 (oneminusaval * dalpha) in
  let ored := sred + div255 (oneminusaval * dred) in
  let ogreen := sgreen + div255 (oneminusaval * dgreen) in
  let oblue := sblue + div255 (oneminusaval * dblue) in
  pack oalpha ored ogreen oblue.

(** The source colour not premultiplied; the result is opaque.  The two gamma
    arrays are static arrays of the C file. *)
Definition blendLCDSrcOver8888_pre (gammaArray invGammaArray : list Z)
    (ared agreen ablue sred sgreen sblue : Z) (ival : Z) : option Z :=
  let dred := (ival >> 16) & 0xff in
  let dgreen := (ival >> 8) & 0xff in
  let dblue := ival & 0xff in
  dred ← aget invGammaArray dred;
  dgreen ← aget invGammaArray dgreen;
  dblue ← aget invGammaArray dblue;
  let ored := div255 (ared * sred + (255 - ared) * dred) in
  let ogreen := div255 (agreen * sgreen + (255 - agreen) * dgreen) in
  let oblue := div255 (ablue * sblue + (255 - ablue) * dblue) in
  ored ← aget gammaArray ored;
  ogreen ← aget gammaArray ogreen;
  oblue ← aget gammaArray oblue;
  Some (pack 0xFF ored ogreen oblue).

Definition blendSrc8888_pre (aval raaval sred sgreen sblue : Z) (ival : Z) : Z :=
  let dalpha := (ival >> 24) & 0xff in
  let dred := (ival >> 16) & 0xff in
  let dgreen := (ival >> 8) & 0xff in
  let dblue := ival & 0xff in
  let denom := i32 (255 * aval + dalpha * raaval) in
  if denom =? 0 then 0
  else
    let oalpha := div255 denom in
    let ored := div255 (aval * sred + raaval * dred) in
    let ogreen := div255 (aval * sgreen + raaval * dgreen) in
    let oblue := div255 (aval * sblue + raaval * dblue) in
    pack oalpha ored ogreen oblue.

Definition blendSrc8888_pre_pre (aval raaval sred sgreen sblue : Z) (ival : Z) : Z :=
  let dalpha := (ival >> 24) & 0xff in
  let dred := (ival >> 16) & 0xff in
  let dgreen := (ival >> 8) & 0xff in
  let dblue := ival & 0xff in
  let denom := i32 (255 * aval + dalpha * raaval) in
  if denom =? 0 then 0
  else
    let oalpha := div255 denom in
    let ored := sred + div255 (raaval * dred) in
    let ogreen := sgreen + div255 (raaval * dgreen) in
    let oblue := sblue + div255 (raaval * dblue) in
    pack oalpha ored ogreen oblue.

(** ** Channels *)

Lemma A_arith x : A x = (x / 16777216) mod 256.
Proof. unfold A. bits_to_arith. done. Qed.
Lemma R_arith x : R x = (x / 65536) mod 256.
Proof. unfold R. bits_to_arith. done. Qed.
Lemma G_arith x : G x = (x / 256) mod 256.
Proof. unfold G. bits_to_arith. done. Qed.
Lemma B_arith x : B x = x mod 256.
Proof. unfold B. bits_to_arith. done. Qed.

Lemma channel_range x : is_byte (A x) /\ is_byte (R x) /\ is_byte (G x) /\ is_byte (B x).
Proof. rewrite A_arith, R_arith, G_arith, B_arith. unfold is_byte. dlia. Qed.

Lemma A_range x : 0 <= A x <= 255.
Proof. apply channel_range. Qed.
Lemma R_range x : 0 <= R x <= 255.
Proof. apply channel_range. Qed.
Lemma G_range x : 0 <= G x <= 255.
Proof. apply channel_range. Qed.
Lemma B_range x : 0 <= B x <= 255.
Proof. apply channel_range. Qed.

Create HintDb pixel.
#[export] Hint Resolve A_range R_range G_range B_range : pixel.

(** Bytes packed into a pixel are an integer with those base-256 digits. *)
Lemma pack_arith a r g b :
  is_byte a -> is_byte r -> is_byte g -> is_byte b ->
  pack a r g b =
    (if a <? 128 then 0 else - 4294967296) + a * 16777216 + r * 65536 + g * 256 + b.
Proof.
  unfold is_byte, pack. intros Ha Hr Hg Hb.
  rewrite <- !Z.lor_assoc.
  rewrite (lor_shiftl_add g b 8), (lor_shiftl_add r _ 16), (lor_shiftl_add a _ 24) by lia.
  unfold i32. pow2. destruct (Z.ltb_spec a 128); dlia.
Qed.

Lemma pack_channels a r g b :
  is_byte a -> is_byte r -> is_byte g -> is_byte b ->
  A (pack a r g b) = a /\ R (pack a r g b) = r /\ G (pack a r g b) = g /\ B (pack a r g b) = b.
Proof.
  intros. rewrite A_arith, R_arith, G_arith, B_arith, pack_arith by done.
  unfold is_byte in *. destruct (Z.ltb_spec a 128); dlia.
Qed.

(** Read the channels of the one [pack] in the goal. *)
Ltac unpack_pack :=
  match goal with
  | |- context [pack ?a ?r ?g ?b] =>
      destruct (pack_channels a r g b) as (-> & -> & -> & ->); [unfold is_byte in *; lia..|]
  end.

(** Every [jint] is the packing of its channels. *)
Lemma pack_unpack x : in_i32 x -> pack (A x) (R x) (G x) (B x) = x.
Proof.
  intros Hx. destruct (channel_range x) as (?&?&?&?). rewrite pack_arith by done.
  rewrite A_arith, R_arith, G_arith, B_arith. unfold in_i32 in Hx. pow2.
  match goal with |- context [?a <? ?b] => destruct (Z.ltb_spec a b) end; dlia.
Qed.

Lemma pack_range a r g b : in_i32 (pack a r g b).
Proof. apply i32_range. Qed.

(** ** Division by 255 *)

(** Below 65790 the multiply-and-shift is the exact floor division: this
    covers 255*255, the largest weighted sum of two bytes. *)
Lemma div255_floor x : 0 <= x < 65790 -> div255 x = x / 255.
Proof.
  intros Hx. unfold div255. rewrite i32_id by (unfold in_i32; lia). bits_to_arith. dlia.
Qed.

Lemma div255_mul x : 0 <= x <= 255 -> div255 (255 * x) = x.
Proof. intros. rewrite div255_floor by lia. dlia. Qed.

Lemma weighted_range s d a : 0 <= s <= 255 -> 0 <= d <= 255 -> 0 <= a <= 255 ->
  0 <= s * a + (255 - a) * d <= 65025.
Proof. nia. Qed.

Lemma div255_weighted s d a : is_byte s -> is_byte d -> is_byte a ->
  div255 (s * a + (255 - a) * d) = (s * a + (255 - a) * d) / 255 /\
  is_byte (div255 (s * a + (255 - a) * d)).
Proof.
  unfold is_byte. intros Hs Hd Ha. pose proof (weighted_range s d a Hs Hd Ha).
  rewrite div255_floor by lia. split; [done|dlia].
Qed.

Lemma div255_le x y : 0 <= x <= y -> y < 65790 -> div255 x <= div255 y.
Proof. intros. rewrite !div255_floor by lia. apply Z.div_le_mono; lia. Qed.

(** A product of two bytes, divided by 255 and by 256. *)
Lemma mul_range x y : 0 <= x <= 255 -> 0 <= y <= 256 -> 0 <= x * y <= 65280 /\ x * y <= 256 * x.
Proof. nia. Qed.

Lemma scale256 x f : is_byte x -> 0 <= f <= 256 ->
  i32 (x * f) >> 8 = x * f / 256 /\ 0 <= x * f / 256 <= x.
Proof.
  unfold is_byte. intros Hx Hf. pose proof (mul_range x f Hx Hf).
  rewrite i32_id by (unfold in_i32; lia). bits_to_arith. split; [done|dlia].
Qed.

Lemma scale256_mono x y f : 0 <= x <= y -> 0 <= f -> x * f / 256 <= y * f / 256.
Proof. intros. apply Z.div_le_mono; [lia|nia]. Qed.

Lemma div255_compl a d : 0 <= a <= 255 -> 0 <= d <= 255 ->
  0 <= div255 ((255 - a) * d) <= 255 - a.
Proof.
  intros Ha Hd. assert (0 <= (255 - a) * d <= 255 * (255 - a)) by nia.
  rewrite div255_floor by nia. dlia.
Qed.

(** ** Premultiplied pixels *)

Definition premultiplied (p : Z) : Prop := R p <= A p /\ G p <= A p /\ B p <= A p.

#[global] Instance premultiplied_dec p : Decision (premultiplied p).
Proof. unfold premultiplied. apply _. Defined.

Lemma pack_premultiplied a r g b :
  is_byte a -> 0 <= r <= a -> 0 <= g <= a -> 0 <= b <= a ->
  premultiplied (pack a r g b).
Proof.
  unfold is_byte. intros Ha Hr Hg Hb.
  destruct (pack_channels a r g b) as (HA & HR & HG & HB); unfold is_byte; try lia.
  unfold premultiplied. rewrite HA, HR, HG, HB. lia.
Qed.

(** ** The specification of the compositing rules

    [over_channel s d a]: the Porter-Duff "source over destination" of two
    8-bit channels at source alpha [a], rounded down. *)
Definition over_channel (s d a : Z) : Z := (s * a + (255 - a) * d) / 255.

Lemma blendSrcOver_channels aval sred sgreen sblue ival :
  is_byte aval -> is_byte sred -> is_byte sgreen -> is_byte sblue ->
  let o := blendSrcOver8888_pre aval sred sgreen sblue ival in
  A o = over_channel 255 (A ival) aval /\ R o = over_channel sred (R ival) aval /\
  G o = over_channel sgreen (G ival) aval /\ B o = over_channel sblue (B ival) aval.
Proof.
  intros Ha Hr Hg Hb. simpl. unfold blendSrcOver8888_pre.
  fold (A ival) (R ival) (G ival) (B ival).
  destruct (channel_range ival) as (?&?&?&?).
  destruct (div255_weighted 255 (A ival) aval) as [EA RA]; [done..|].
  destruct (div255_weighted sred (R ival) aval) as [ER RR]; [done..|].
  destruct (div255_weighted sgreen (G ival) aval) as [EG RG]; [done..|].
  destruct (div255_weighted sblue (B ival) aval) as [EB RB]; [done..|].
  destruct (pack_channels _ _ _ _ RA RR RG RB) as (-> & -> & -> & ->). done.
Qed.

Lemma over_channel_premultiplied s d da a :
  0 <= s <= 255 -> 0 <= d <= da -> da <= 255 -> 0 <= a <= 255 ->
  0 <= over_channel s d a <= over_channel 255 da a.
Proof.
  intros. unfold over_channel. split; [apply Z.div_pos; nia|].
  apply Z.div_le_mono; [lia|nia].
Qed.

(** ** Theorems *)

(** Source-over blending of a non-premultiplied colour computes, in every
    channel, the Porter-Duff combination (s*a + d*(255-a))/255 rounded down,
    with no carry from one channel into the next, and keeps a premultiplied
    destination premultiplied. *)
Theorem blendSrcOver8888_pre_spec aval sred sgreen sblue ival :
  is_byte aval -> is_byte sred -> is_byte sgreen -> is_byte sblue ->
  let o := blendSrcOver8888_pre aval sred sgreen sblue ival in
  A o = over_channel 255 (A ival) aval /\ R o = over_channel sred (R ival) aval /\
  G o = over_channel sgreen (G ival) aval /\ B o = over_channel sblue (B ival) aval /\
  (premultiplied ival -> premultiplied o).
Proof.
  intros Ha Hr Hg Hb o.
  destruct (blendSrcOver_channels aval sred sgreen sblue ival Ha Hr Hg Hb) as (EA & ER & EG & EB).
  fold o in EA, ER, EG, EB. split_and!; [done..|].
  intros (?&?&?). destruct (channel_range ival) as (?&?&?&?). unfold premultiplied, is_byte in *.
  rewrite EA, ER, EG, EB. split_and!; apply over_channel_premultiplied; lia.
Qed.

Lemma blendSrcOver8888_pre_spec_witness :
  let o := blendSrcOver8888_pre 128 200 100 50 (pack 64 10 20 30) in
  A o = 159 /\ R o = 105 /\ G o = 60 /\ B o = 40 /\ premultiplied o.
Proof.
  pose proof (blendSrcOver8888_pre_spec 128 200 100 50 (pack 64 10 20 30)) as H.
  destruct H as (HA & HR & HG & HB & HP); try (unfold is_byte; lia).
  simpl in *. rewrite HA, HR, HG, HB.
  repeat split; try reflexivity; apply HP; vm_compute; repeat split; discriminate.
Defined.

Lemma blendSrcOver_pre_0 sred sgreen sblue ival : in_i32 ival ->
  blendSrcOver8888_pre 0 sred sgreen sblue ival = ival.
Proof.
  intros Hi. destruct (channel_range ival) as (?&?&?&?). unfold is_byte in *.
  unfold blendSrcOver8888_pre; fold (A ival) (R ival) (G ival) (B ival).
  change (255 - 0) with 255. rewrite !Z.mul_0_r, !Z.add_0_l, !div255_mul by lia.
  by apply pack_unpack.
Qed.

Lemma blendSrcOver_pre_255 sred sgreen sblue ival :
  is_byte sred -> is_byte sgreen -> is_byte sblue ->
  blendSrcOver8888_pre 255 sred sgreen sblue ival = pack 255 sred sgreen sblue.
Proof.
  unfold is_byte. intros Hr Hg Hb. unfold blendSrcOver8888_pre.
  change (255 - 255) with 0. rewrite !Z.mul_0_l, !Z.add_0_r.
  by rewrite (Z.mul_comm sred), (Z.mul_comm sgreen), (Z.mul_comm sblue), !div255_mul by lia.
Qed.

(** the two ends of source-over: zero alpha leaves the pixel as it is and
    full alpha replaces it by the opaque source colour, so the early-out
    branches of the blit loops agree with the general formula. *)
Theorem blendSrcOver8888_pre_ends sred sgreen sblue ival :
  is_byte sred -> is_byte sgreen -> is_byte sblue -> in_i32 ival ->
  blendSrcOver8888_pre 0 sred sgreen sblue ival = ival /\
  blendSrcOver8888_pre 255 sred sgreen sblue ival = pack 255 sred sgreen sblue.
Proof. intros. split; [by apply blendSrcOver_pre_0|by apply blendSrcOver_pre_255]. Qed.

Lemma blendSrcOver8888_pre_ends_witness :
  blendSrcOver8888_pre 0 1 2 3 (-5) = -5 /\ blendSrcOver8888_pre 255 1 2 3 (-5) = pack 255 1 2 3.
Proof. apply (blendSrcOver8888_pre_ends 1 2 3 (-5)); unfold is_byte, in_i32; lia. Defined.

(** The channels of the premultiplied source-over blend. *)
Lemma blendSrcOver_pre_pre_channels frac aval sred sgreen sblue ival :
  0 <= frac <= 256 -> is_byte aval ->
  0 <= sred <= aval -> 0 <= sgreen <= aval -> 0 <= sblue <= aval -> premultiplied ival ->
  let o := blendSrcOver8888_pre_pre frac aval sred sgreen sblue ival in
  let a2 := aval * frac / 256 in
  let ch s d := s * frac / 256 + (255 - a2) * d / 255 in
  A o = ch aval (A ival) /\ R o = ch sred (R ival) /\
  G o = ch sgreen (G ival) /\ B o = ch sblue (B ival) /\ premultiplied o.
Proof.
  intros Hf Ha Hr Hg Hb (P1 & P2 & P3). simpl.
  destruct (channel_range ival) as (Ba & Br & Bg & Bb).
  destruct (scale256 aval frac Ha Hf) as [Ea Ra].
  unfold is_byte in *.
  unfold blendSrcOver8888_pre_pre. fold (A ival) (R ival) (G ival) (B ival). rewrite Ea.
  destruct (scale256 sred frac) as [Er Rr]; [unfold is_byte; lia|done|].
  destruct (scale256 sgreen frac) as [Eg Rg]; [unfold is_byte; lia|done|].
  destruct (scale256 sblue frac) as [Eb Rb]; [unfold is_byte; lia|done|].
  rewrite Er, Eg, Eb.
  pose proof (scale256_mono sred aval frac ltac:(lia) ltac:(lia)).
  pose proof (scale256_mono sgreen aval frac ltac:(lia) ltac:(lia)).
  pose proof (scale256_mono sblue aval frac ltac:(lia) ltac:(lia)).
  set (a2 := aval * frac / 256) in *.
  assert (Hd : forall d, 0 <= d <= A ival -> div255 ((255 - a2) * d) = (255 - a2) * d / 255
      /\ 0 <= (255 - a2) * d / 255 <= (255 - a2) * A ival / 255).
  { intros d ?. assert (0 <= (255 - a2) * d <= 65025) by nia. rewrite div255_floor by lia.
    split; [done|]. split; [dlia|]. apply Z.div_le_mono; nia. }
  destruct (Hd (A ival)) as [-> ?]; [lia|]. destruct (Hd (R ival)) as [-> ?]; [lia|].
  destruct (Hd (G ival)) as [-> ?]; [lia|]. destruct (Hd (B ival)) as [-> ?]; [lia|].
  assert ((255 - a2) * A ival / 255 <= 255 - a2) by (apply Z.div_le_upper_bound; nia).
  unpack_pack. split_and!; [done..|]. apply pack_premultiplied; unfold is_byte; lia.
Qed.

(** Source-over blending of a premultiplied colour at coverage [frac]/256
    scales the colour by the coverage, adds the destination weighted by the
    remaining alpha, stays inside every channel and keeps pixels
    premultiplied. *)
Theorem blendSrcOver8888_pre_pre_spec frac aval sred sgreen sblue ival :
  0 <= frac <= 256 -> is_byte aval ->
  0 <= sred <= aval -> 0 <= sgreen <= aval -> 0 <= sblue <= aval -> premultiplied ival ->
  let o := blendSrcOver8888_pre_pre frac aval sred sgreen sblue ival in
  let a2 := aval * frac / 256 in
  let ch s d := s * frac / 256 + (255 - a2) * d / 255 in
  A o = ch aval (A ival) /\ R o = ch sred (R ival) /\
  G o = ch sgreen (G ival) /\ B o = ch sblue (B ival) /\ premultiplied o.
Proof. apply blendSrcOver_pre_pre_channels. Qed.

Lemma blendSrcOver8888_pre_pre_spec_witness :
  A (blendSrcOver8888_pre_pre 128 200 150 100 50 (pack 255 255 0 128)) = 255 /\
  premultiplied (blendSrcOver8888_pre_pre 128 200 150 100 50 (pack 255 255 0 128)).
Proof.
  pose proof (blendSrcOver8888_pre_pre_spec 128 200 150 100 50 (pack 255 255 0 128)) as H.
  destruct H as (HA & _ & _ & _ & HP); try (unfold is_byte; lia).
  - vm_compute. repeat split; discriminate.
  - split; [rewrite HA; reflexivity|exact HP].
Defined.

Lemma fullFrac_256 aval sred sgreen sblue ival :
  is_byte aval -> is_byte sred -> is_byte sgreen -> is_byte sblue ->
  blendSrcOver8888_pre_pre_fullFrac aval sred sgreen sblue ival =
  blendSrcOver8888_pre_pre 256 aval sred sgreen sblue ival.
Proof.
  intros Ha Hr Hg Hb.
  assert (H : forall x, is_byte x -> i32 (x * 256) >> 8 = x).
  { intros x Hx. destruct (scale256 x 256 Hx) as [-> _]; [lia|]. by rewrite Z.div_mul. }
  unfold blendSrcOver8888_pre_pre_fullFrac, blendSrcOver8888_pre_pre. by rewrite !H.
Qed.

(** An opaque paint pixel replaces the destination, a transparent one leaves
    it alone: the two cases the paint loop takes out of the blend. *)
Lemma fullFrac_opaque p ival : in_i32 p -> A p = 255 ->
  blendSrcOver8888_pre_pre_fullFrac 255 (R p) (G p) (B p) ival = p.
Proof.
  intros Hp Ha. unfold blendSrcOver8888_pre_pre_fullFrac. change (255 - 255) with 0.
  rewrite !Z.mul_0_l. change (div255 0) with 0. rewrite !Z.add_0_r, <- Ha. by apply pack_unpack.
Qed.

Lemma fullFrac_transparent p ival : premultiplied p -> A p = 0 -> in_i32 ival ->
  blendSrcOver8888_pre_pre_fullFrac 0 (R p) (G p) (B p) ival = ival.
Proof.
  intros (H1 & H2 & H3) Ha Hi. destruct (channel_range p) as (_ & ? & ? & ?).
  destruct (channel_range ival) as (?&?&?&?). unfold is_byte in *.
  replace (R p) with 0 by lia. replace (G p) with 0 by lia. replace (B p) with 0 by lia.
  unfold blendSrcOver8888_pre_pre_fullFrac. fold (A ival) (R ival) (G ival) (B ival).
  change (255 - 0) with 255. rewrite !Z.add_0_l, !div255_mul by lia. by apply pack_unpack.
Qed.

Lemma fullFrac_pixel p ival : in_i32 p -> premultiplied p -> in_i32 ival ->
  (if A p =? 0 then ival
   else if A p =? 255 then p
   else blendSrcOver8888_pre_pre_fullFrac (A p) (R p) (G p) (B p) ival) =
  blendSrcOver8888_pre_pre 256 (A p) (R p) (G p) (B p) ival.
Proof.
  intros Hp Hm Hi. destruct (channel_range p) as (?&?&?&?). rewrite <- fullFrac_256 by done.
  destruct (Z.eqb_spec (A p) 0) as [E|]; [rewrite E; symmetry; by apply fullFrac_transparent|].
  destruct (Z.eqb_spec (A p) 255) as [E|]; [rewrite E; symmetry; by apply fullFrac_opaque|done].
Qed.

(** The specialised routine for full coverage computes the same pixel as
    the general premultiplied blend at coverage 256/256, and so do the two
    cases the paint loop treats without it: a transparent paint pixel leaves
    the destination alone, an opaque one replaces it. *)
Theorem blendSrcOver_fullFrac_equiv p ival :
  in_i32 p -> premultiplied p -> in_i32 ival ->
  blendSrcOver8888_pre_pre 256 (A p) (R p) (G p) (B p) ival =
  (if A p =? 0 then ival
   else if A p =? 255 then p
   else blendSrcOver8888_pre_pre_fullFrac (A p) (R p) (G p) (B p) ival).
Proof. intros. symmetry. by apply fullFrac_pixel. Qed.

Lemma blendSrcOver_fullFrac_equiv_witness :
  blendSrcOver8888_pre_pre 256 200 100 90 80 (-1) =
  blendSrcOver8888_pre_pre_fullFrac 200 100 90 80 (-1).
Proof.
  pose proof (blendSrcOver_fullFrac_equiv (pack 200 100 90 80) (-1)) as H. vm_compute in H.
  vm_compute. apply H; repeat split; discriminate.
Defined.

(** The alpha the blit loops pass for a pixel covered [cov]/255. *)
Lemma coverage_alpha cov calpha : is_byte cov -> is_byte calpha ->
  0 <= i32 ((cov + 1) * calpha) >> 8 <= cov /\
  i32 ((cov + 1) * calpha) >> 8 <= calpha.
Proof.
  unfold is_byte. intros Hc Ha. assert (0 <= (cov + 1) * calpha <= 65280) by nia.
  rewrite i32_id by (unfold in_i32; lia). bits_to_arith.
  split; [split; [dlia|]|]; apply Z.lt_succ_r, Z.div_lt_upper_bound; nia.
Qed.

(** The channels of the "source" blends, when alpha and the weight of the
    destination add up to at most 255. *)
Lemma blendSrc_channels aval raaval sred sgreen sblue ival :
  0 <= aval -> 0 <= raaval -> aval + raaval <= 255 ->
  is_byte sred -> is_byte sgreen -> is_byte sblue -> premultiplied ival ->
  let o := blendSrc8888_pre aval raaval sred sgreen sblue ival in
  let ch s d := (aval * s + raaval * d) / 255 in
  A o = ch 255 (A ival) /\ R o = ch sred (R ival) /\
  G o = ch sgreen (G ival) /\ B o = ch sblue (B ival) /\ premultiplied o.
Proof.
  intros Ha Hra Hs Hr Hg Hb (P1 & P2 & P3). simpl.
  destruct (channel_range ival) as (?&?&?&?). unfold is_byte in *.
  unfold blendSrc8888_pre. fold (A ival) (R ival) (G ival) (B ival).
  set (dA := A ival) in *. set (dR := R ival) in *. set (dG := G ival) in *. set (dB := B ival) in *.
  assert (Hw : forall s d, 0 <= s <= 255 -> 0 <= d <= dA ->
      0 <= aval * s + raaval * d <= aval * 255 + raaval * dA /\
      aval * s + raaval * d <= 65025) by (intros; nia).
  pose proof (Hw 255 dA ltac:(lia) ltac:(lia)). pose proof (Hw sred dR ltac:(lia) ltac:(lia)).
  pose proof (Hw sgreen dG ltac:(lia) ltac:(lia)). pose proof (Hw sblue dB ltac:(lia) ltac:(lia)).
  replace (255 * aval + dA * raaval) with (aval * 255 + raaval * dA) by ring.
  rewrite i32_id by (unfold in_i32; lia).
  destruct (Z.eqb_spec (aval * 255 + raaval * dA) 0).
  - replace (aval * 255 + raaval * dA) with 0 by lia.
    replace (aval * sred + raaval * dR) with 0 by lia.
    replace (aval * sgreen + raaval * dG) with 0 by lia.
    replace (aval * sblue + raaval * dB) with 0 by lia. done.
  - rewrite !div255_floor by lia.
    set (x := aval * 255 + raaval * dA) in *. set (y := aval * sred + raaval * dR) in *.
    set (z := aval * sgreen + raaval * dG) in *. set (t := aval * sblue + raaval * dB) in *.
    assert (y / 255 <= x / 255) by (apply Z.div_le_mono; lia).
    assert (z / 255 <= x / 255) by (apply Z.div_le_mono; lia).
    assert (t / 255 <= x / 255) by (apply Z.div_le_mono; lia).
    assert (0 <= x / 255 <= 255) by dlia. assert (0 <= y / 255) by dlia.
    assert (0 <= z / 255) by dlia. assert (0 <= t / 255) by dlia.
    unpack_pack. split_and!; [done..|]. apply pack_premultiplied; unfold is_byte; lia.
Qed.

(** The "source" blend, given the alpha ((cov+1)*calpha)>>8 that the blit
    loops pass for a pixel of coverage [cov], mixes source and destination in
    proportion to the coverage in every channel, stays inside the channels and
    keeps pixels premultiplied. *)
Theorem blendSrc8888_pre_spec cov calpha sred sgreen sblue ival :
  is_byte cov -> is_byte calpha -> is_byte sred -> is_byte sgreen -> is_byte sblue ->
  premultiplied ival ->
  let aval := i32 ((cov + 1) * calpha) >> 8 in
  let o := blendSrc8888_pre aval (255 - cov) sred sgreen sblue ival in
  let ch s d := (aval * s + (255 - cov) * d) / 255 in
  A o = ch 255 (A ival) /\ R o = ch sred (R ival) /\
  G o = ch sgreen (G ival) /\ B o = ch sblue (B ival) /\ premultiplied o.
Proof.
  intros Hc Ha Hr Hg Hb Hp. destruct (coverage_alpha cov calpha Hc Ha) as [H1 H2].
  unfold is_byte in Hc. apply blendSrc_channels; try done; lia.
Qed.

Lemma blendSrc8888_pre_spec_witness :
  A (blendSrc8888_pre (i32 ((127 + 1) * 255) >> 8) (255 - 127) 255 0 9 (pack 255 0 0 0)) = 255.
Proof.
  destruct (blendSrc8888_pre_spec 127 255 255 0 9 (pack 255 0 0 0)) as (H & _);
    try (unfold is_byte; lia).
  - vm_compute. repeat split; discriminate.
  - simpl in H. rewrite H. reflexivity.
Defined.

Definition byte_table (t : list Z) : Prop :=
  forall i, 0 <= i < 256 -> exists v, aget t i = Some v /\ is_byte v.

Lemma byte_table_get t i : byte_table t -> is_byte i -> exists v, aget t i = Some v /\ is_byte v.
Proof. unfold is_byte. intros Ht Hi. apply Ht. lia. Qed.

(** LCD blending never indexes the gamma tables out of range, whatever the
    destination pixel is, and produces a fully opaque pixel whose channels are
    the gamma-corrected source-over of the linearised channels. *)
Theorem blendLCDSrcOver8888_pre_spec gammaArray invGammaArray ared agreen ablue
    sred sgreen sblue ival :
  byte_table gammaArray -> byte_table invGammaArray ->
  is_byte ared -> is_byte agreen -> is_byte ablue ->
  is_byte sred -> is_byte sgreen -> is_byte sblue ->
  exists o dr dg db,
    blendLCDSrcOver8888_pre gammaArray invGammaArray ared agreen ablue sred sgreen sblue ival = Some o /\
    aget invGammaArray (R ival) = Some dr /\ aget invGammaArray (G ival) = Some dg /\
    aget invGammaArray (B ival) = Some db /\
    A o = 255 /\
    aget gammaArray (over_channel sred dr ared) = Some (R o) /\
    aget gammaArray (over_channel sgreen dg agreen) = Some (G o) /\
    aget gammaArray (over_channel sblue db ablue) = Some (B o).
Proof.
  intros Hg Hi ? ? ? ? ? ?. destruct (channel_range ival) as (_ & HR & HG & HB).
  destruct (byte_table_get _ _ Hi HR) as (dr & Er & Hdr).
  destruct (byte_table_get _ _ Hi HG) as (dg & Eg & Hdg).
  destruct (byte_table_get _ _ Hi HB) as (db & Eb & Hdb).
  destruct (div255_weighted sred dr ared) as [Wr Br]; [done..|].
  destruct (div255_weighted sgreen dg agreen) as [Wg Bg]; [done..|].
  destruct (div255_weighted sblue db ablue) as [Wb Bb]; [done..|].
  destruct (byte_table_get _ _ Hg Br) as (vr & Fr & Hvr).
  destruct (byte_table_get _ _ Hg Bg) as (vg & Fg & Hvg).
  destruct (byte_table_get _ _ Hg Bb) as (vb & Fb & Hvb).
  unfold blendLCDSrcOver8888_pre. fold (R ival) (G ival) (B ival).
  rewrite Er, Eg, Eb. mred.
  rewrite (Z.mul_comm ared), (Z.mul_comm agreen), (Z.mul_comm ablue), Fr, Fg, Fb. mred.
  eexists _, dr, dg, db. split; [done|].
  unpack_pack. unfold over_channel. rewrite <- Wr, <- Wg, <- Wb. done.
Qed.

Definition identity_table : list Z := Z.of_nat <$> seq 0 256.

Lemma identity_table_ok : byte_table identity_table.
Proof.
  intros i Hi. exists i. split; [|unfold is_byte; lia]. rewrite aget_lookup by lia.
  unfold identity_table. rewrite list_lookup_fmap, lookup_seq_lt by lia. simpl. f_equal. lia.
Qed.

Lemma blendLCDSrcOver8888_pre_spec_witness :
  exists o, blendLCDSrcOver8888_pre identity_table identity_table 255 128 0 10 20 30 0 = Some o /\ A o = 255.
Proof.
  destruct (blendLCDSrcOver8888_pre_spec identity_table identity_table 255 128 0 10 20 30 0)
    as (o & _ & _ & _ & H & _ & _ & _ & HA & _); try (unfold is_byte; lia); try apply identity_table_ok.
  exists o. split; assumption.
Defined.
