(* ===== verification/PiscesTransform.v ===== *)
(** * Affine transforms of the software renderer

    native-prism-sw/PiscesTransform.c: a 2 by 3 matrix of 16.16 fixed-point
    numbers, its product (64-bit intermediates, truncated to 32 bits) and its
    inverse, computed in single precision. *)

From S2P Require Import Prelude Float32.

Record Transform6 : Type := mkTransform6 {
  m00 : Z; m01 : Z; m10 : Z; m11 : Z; m02 : Z; m12 : Z
}.

#[global] Instance Transform6_eq_dec : EqDecision Transform6.
Proof. solve_decision. Defined.

(** The source copies the structure with [memcpy]. *)
Definition pisces_transform_assign (transformD transformS : Transform6) : Transform6 := transformS.

Definition pisces_transform_invert (transform : Transform6) : Transform6 :=
  let fix16 n := fdiv (of_int n) f65536 in
  let fm00 := fix16 (m00 transform) in
  let fm01 := fix16 (m01 transform) in
  let fm02 := fix16 (m02 transform) in
  let fm10 := fix16 (m10 transform) in
  let fm11 := fix16 (m11 transform) in
  let fm12 := fix16 (m12 transform) in
  let fdet := fsub (fmul fm00 fm11) (fmul fm01 fm10) in
  let fa00 := fdiv fm11 fdet in
  let fa01 := fdiv (fopp fm01) fdet in
  let fa10 := fdiv (fopp fm10) fdet in
  let fa11 := fdiv fm00 fdet in
  let fa02 := fdiv (fsub (fmul fm01 fm12) (fmul fm02 fm11)) fdet in
  let fa12 := fdiv (fsub (fmul fm02 fm10) (fmul fm00 fm12)) fdet in
  let int16 f := to_jint (fmul f f65536) in
  mkTransform6 (int16 fa00) (int16 fa01) (int16 fa10) (int16 fa11) (int16 fa02) (int16 fa12).

Definition pisces_transform_multiply (transformD transformS : Transform6) : Transform6 :=
  let '(mkTransform6 d00 d01 d10 d11 d02 d12) := transformD in
  let '(mkTransform6 s00 s01 s10 s11 s02 s12) := transformS in
  let _m00 := i64 (d00 * s00 + d01 * s10) >> 16 in
  let _m01 := i64 (d00 * s01 + d01 * s11) >> 16 in
  let _m10 := i64 (d10 * s00 + d11 * s10) >> 16 in
  let _m11 := i64 (d10 * s01 + d11 * s11) >> 16 in
  let _m02 := i64 ((d02 << 16) + d00 * s02 + d01 * s12) >> 16 in
  let _m12 := i64 ((d12 << 16) + d10 * s02 + d11 * s12) >> 16 in
  mkTransform6 (i32 _m00) (i32 _m01) (i32 _m10) (i32 _m11) (i32 _m02) (i32 _m12).

(** On two non-null pointers. *)
Definition pisces_transform_equals (tr1 tr2 : Transform6) : bool :=
  (m00 tr1 =? m00 tr2) && (m01 tr1 =? m01 tr2) && (m02 tr1 =? m02 tr2) &&
  (m10 tr1 =? m10 tr2) && (m11 tr1 =? m11 tr2) && (m12 tr1 =? m12 tr2).

(** ** Properties *)

Definition identity6 : Transform6 := mkTransform6 65536 0 0 65536 0 0.

(** Entries are Java ints. *)
Definition transform_ok (t : Transform6) : Prop :=
  in_i32 (m00 t) /\ in_i32 (m01 t) /\ in_i32 (m10 t) /\
  in_i32 (m11 t) /\ in_i32 (m02 t) /\ in_i32 (m12 t).

(** The exact product in units of 2^-32 (linear part and translation). *)
Definition exact_product (d s : Transform6) : Transform6 :=
  mkTransform6
    (m00 d * m00 s + m01 d * m10 s) (m00 d * m01 s + m01 d * m11 s)
    (m10 d * m00 s + m11 d * m10 s) (m10 d * m01 s + m11 d * m11 s)
    (m02 d * 65536 + m00 d * m02 s + m01 d * m12 s)
    (m12 d * 65536 + m10 d * m02 s + m11 d * m12 s).

(** Every entry of [t], rounded down to 16.16, is a Java int. *)
Definition fits16 (t : Transform6) : Prop :=
  let ok x := - 2 ^ 31 * 65536 <= x < 2 ^ 31 * 65536 in
  ok (m00 t) /\ ok (m01 t) /\ ok (m10 t) /\ ok (m11 t) /\ ok (m02 t) /\ ok (m12 t).

Definition floor16 (t : Transform6) : Transform6 :=
  mkTransform6 (m00 t / 65536) (m01 t / 65536) (m10 t / 65536)
    (m11 t / 65536) (m02 t / 65536) (m12 t / 65536).

Lemma product_entry x : - 2 ^ 31 * 65536 <= x < 2 ^ 31 * 65536 -> i32 (i64 x >> 16) = x / 65536.
Proof.
  intros Hx. rewrite i64_id by (unfold in_i64; lia). rewrite shiftr_div by lia. pow2.
  apply i32_id. unfold in_i32. dlia.
Qed.

(** The product of two transforms is the exact matrix product rounded
    down entry by entry to 16.16, whenever the rounded entries are Java ints:
    no intermediate 64-bit sum overflows. *)
Theorem transform_multiply_spec d s :
  fits16 (exact_product d s) -> pisces_transform_multiply d s = floor16 (exact_product d s).
Proof.
  destruct d as [d00 d01 d10 d11 d02 d12], s as [s00 s01 s10 s11 s02 s12].
  unfold fits16, exact_product, floor16, pisces_transform_multiply; simpl.
  intros (H00 & H01 & H10 & H11 & H02 & H12).
  rewrite !(shiftl_mul _ 16) by lia. pow2. by rewrite !product_entry.
Qed.

Lemma transform_multiply_spec_witness :
  pisces_transform_multiply (mkTransform6 131072 0 0 65536 10 (-3)) (mkTransform6 32768 1 0 65536 7 1) =
  mkTransform6 65536 2 0 65536 24 (-2).
Proof. apply transform_multiply_spec. compute_true. Defined.

(** The identity is neutral, and equality of transforms is decided. *)
Lemma multiply_identity t : transform_ok t ->
  pisces_transform_multiply identity6 t = t /\ pisces_transform_multiply t identity6 = t.
Proof.
  destruct t as [a b c d e f]. unfold transform_ok, in_i32, pisces_transform_multiply; simpl.
  intros (?&?&?&?&?&?). rewrite !(shiftl_mul _ 16) by lia. pow2.
  split; rewrite !product_entry by lia; f_equal; dlia.
Qed.

Lemma transform_equals_spec t1 t2 : pisces_transform_equals t1 t2 = true <-> t1 = t2.
Proof.
  destruct t1, t2. unfold pisces_transform_equals; simpl.
  rewrite !andb_true_iff, !Z.eqb_eq. naive_solver.
Qed.

(** The inverse of a scale by two and a translation, and of a singular
    matrix: division by a zero determinant yields infinities or NaNs, whose
    conversion is the smallest int. *)
Example invert_scale : pisces_transform_invert (mkTransform6 131072 0 0 131072 65536 0) =
  mkTransform6 32768 0 0 32768 (-32768) 0.
Proof. vm_compute. reflexivity. Qed.

Example invert_singular : m00 (pisces_transform_invert (mkTransform6 0 0 0 65536 0 0)) = - 2 ^ 31.
Proof. vm_compute. reflexivity. Qed.
