(* ===== verification/PiscesState.v ===== *)
(** * State of the software renderer

    [Renderer] is [struct _Renderer] of native-prism-sw/PiscesRenderer.h: every
    field the C code reads or writes after initialisation, under its own name.
    The fields no code assigns ([_texture_byteData], [_texture_alphaData], both
    always [NULL]) are left out.  A function pointer is the name of the routine it points to,
    [None] for [NULL].  [_data], [_mask_byteData] and [_texture_intData] are
    pointers into Java arrays or the heap: [None] for [NULL]. *)

From S2P Require Import Prelude Float32 PiscesTransform.

(** ** Constants of PiscesRenderer.h, PiscesSurface.h and RendererBase *)

Definition COMPOSITE_CLEAR : Z := 0.
Definition COMPOSITE_SRC : Z := 1.
Definition COMPOSITE_SRC_OVER : Z := 2.

Definition TYPE_INT_ARGB_PRE : Z := 1.

Definition PAINT_FLAT_COLOR : Z := 0.
Definition PAINT_LINEAR_GRADIENT : Z := 1.
Definition PAINT_RADIAL_GRADIENT : Z := 2.
Definition PAINT_TEXTURE8888 : Z := 4.
Definition PAINT_TEXTURE8888_MULTIPLY : Z := 5.

Definition IMAGE_MODE_NORMAL : Z := 1.
Definition IMAGE_MODE_MULTIPLY : Z := 2.
Definition IMAGE_FRAC_EDGE_KEEP : Z := 0.
Definition IMAGE_FRAC_EDGE_PAD : Z := 1.
Definition IMAGE_FRAC_EDGE_TRIM : Z := 2.

Definition NUM_ALPHA_ROWS : Z := 8.
Definition LG_GRADIENT_MAP_SIZE : Z := 8.
Definition GRADIENT_MAP_SIZE : Z := 256.

Definition CYCLE_NONE : Z := 0.
Definition CYCLE_REPEAT : Z := 1.
Definition CYCLE_REFLECT : Z := 2.

Definition NO_MASK : Z := 0.
Definition ALPHA_MASK : Z := 1.
Definition LCD_ALPHA_MASK : Z := 2.

Definition TEXTURE_TRANSFORM_IDENTITY : Z := 1.
Definition TEXTURE_TRANSFORM_TRANSLATE : Z := 2.
Definition TEXTURE_TRANSFORM_SCALE_TRANSLATE : Z := 3.
Definition TEXTURE_TRANSFORM_GENERIC : Z := 4.

(** ** Routines a function pointer can name *)

Inductive blit_routine : Type :=
  | BlitSrcOver8888_pre | BlitPTSrcOver8888_pre | BlitSrc8888_pre | BlitPTSrc8888_pre
  | BlitSrcOverMask8888_pre | BlitPTSrcOverMask8888_pre | BlitSrcMask8888_pre | BlitPTSrcMask8888_pre
  | BlitSrcOverLCDMask8888_pre.

Inductive emit_routine : Type :=
  | EmitLineSource8888_pre | EmitLineSourceOver8888_pre
  | EmitLinePTSource8888_pre | EmitLinePTSourceOver8888_pre.

Inductive clear_routine : Type := ClearRect8888_any.

Inductive paint_routine : Type :=
  | GenLinearGradientPaint | GenRadialGradientPaint | GenTexturePaint | GenTexturePaintMultiply.

#[global] Instance blit_routine_eq_dec : EqDecision blit_routine.
Proof. solve_decision. Defined.
#[global] Instance emit_routine_eq_dec : EqDecision emit_routine.
Proof. solve_decision. Defined.
#[global] Instance clear_routine_eq_dec : EqDecision clear_routine.
Proof. solve_decision. Defined.
#[global] Instance paint_routine_eq_dec : EqDecision paint_routine.
Proof. solve_decision. Defined.

(** A texture pointer: the block it points into (0 for a Java array, a
    positive number for a block of [my_malloc]), the element offset of the
    pointer in the block and the block's contents. *)
Record texture_ptr : Type := TexturePtr {
  tex_block : Z;
  tex_off : Z;
  tex_data : list Z
}.

Definition tex_get (t : texture_ptr) (i : Z) : option Z := aget (tex_data t) (tex_off t + i).

(** ** struct _Renderer *)

Record Renderer : Type := mkRenderer {
  _paintMode : Z;
  _prevPaintMode : Z;
  _ured : Z;
  _ugreen : Z;
  _ublue : Z;
  _ualpha : Z;
  _cred : Z;
  _cgreen : Z;
  _cblue : Z;
  _calpha : Z;
  _compositeRule : Z;
  _data : option (list Z);
  _width : Z;
  _height : Z;
  _imageOffset : Z;
  _imageScanlineStride : Z;
  _imagePixelStride : Z;
  _imageType : Z;
  _bl_SourceOverMask : option blit_routine;
  _bl_PT_SourceOverMask : option blit_routine;
  _bl_SourceMask : option blit_routine;
  _bl_PT_SourceMask : option blit_routine;
  _bl_SourceOverLCDMask : option blit_routine;
  _bl_PT_SourceOverLCDMask : option blit_routine;
  _bl_SourceLCDMask : option blit_routine;
  _bl_PT_SourceLCDMask : option blit_routine;
  _bl_SourceOverNoMask : option blit_routine;
  _bl_PT_SourceOverNoMask : option blit_routine;
  _bl_SourceNoMask : option blit_routine;
  _bl_PT_SourceNoMask : option blit_routine;
  _bl_SourceOver : option blit_routine;
  _bl_PT_SourceOver : option blit_routine;
  _bl_Source : option blit_routine;
  _bl_PT_Source : option blit_routine;
  _el_Source : option emit_routine;
  _el_SourceOver : option emit_routine;
  _el_PT_Source : option emit_routine;
  _el_PT_SourceOver : option emit_routine;
  _bl_Clear : option blit_routine;
  _bl_PT_Clear : option blit_routine;
  _bl : option blit_routine;
  _bl_PT : option blit_routine;
  _el : option emit_routine;
  _el_PT : option emit_routine;
  _clearRect : option clear_routine;
  _emitRows : option blit_routine;
  _emitLine : option emit_routine;
  _genPaint : option paint_routine;
  _rowNum : Z;
  _alphaWidth : Z;
  _minTouched : Z;
  _maxTouched : Z;
  _currX : Z;
  _currY : Z;
  _currImageOffset : Z;
  alphaMap : list Z;
  _rowAAInt : list Z;
  _rectX : Z;
  _rectY : Z;
  _mask_free : bool;
  _maskType : Z;
  _mask_byteData : option (list Z);
  _maskOffset : Z;
  _mask_width : Z;
  _mask_height : Z;
  _paint : list Z;
  _paint_length : Z;
  _lg_mx : jfloat;
  _lg_my : jfloat;
  _lg_b : jfloat;
  _rg_a00 : jfloat;
  _rg_a01 : jfloat;
  _rg_a02 : jfloat;
  _rg_a10 : jfloat;
  _rg_a11 : jfloat;
  _rg_a12 : jfloat;
  _rg_cx : jfloat;
  _rg_cy : jfloat;
  _rg_fx : jfloat;
  _rg_fy : jfloat;
  _rg_r : jfloat;
  _rg_rsq : jfloat;
  _rg_a00a00 : jfloat;
  _rg_a10a10 : jfloat;
  _rg_a00a10 : jfloat;
  _gradient_transform : Transform6;
  _gradient_inverse_transform : Transform6;
  _paint_transform : Transform6;
  _gradient_colors : list Z;
  _gradient_cycleMethod : Z;
  _texture_intData : option texture_ptr;
  _texture_hasAlpha : bool;
  _texture_imageWidth : Z;
  _texture_imageHeight : Z;
  _texture_stride : Z;
  _texture_txMin : Z;
  _texture_tyMin : Z;
  _texture_txMax : Z;
  _texture_tyMax : Z;
  _texture_repeat : bool;
  _texture_m00 : Z;
  _texture_m01 : Z;
  _texture_m02 : Z;
  _texture_m10 : Z;
  _texture_m11 : Z;
  _texture_m12 : Z;
  _texture_interpolate : bool;
  _texture_transformType : Z;
  _texture_free : bool;
  _clip_bbMinX : Z;
  _clip_bbMinY : Z;
  _clip_bbMaxX : Z;
  _clip_bbMaxY : Z;
  _el_lfrac : Z;
  _el_rfrac : Z;
  _rendererState : Z
}.

(** The record built field by field from its own projections: the pattern from
    which the assignments [rdr->f = v] are derived. *)
Definition renderer_eta (r : Renderer) : Renderer :=
  mkRenderer
    (_paintMode r) (_prevPaintMode r) (_ured r) (_ugreen r)
    (_ublue r) (_ualpha r) (_cred r) (_cgreen r)
    (_cblue r) (_calpha r) (_compositeRule r) (_data r)
    (_width r) (_height r) (_imageOffset r) (_imageScanlineStride r)
    (_imagePixelStride r) (_imageType r) (_bl_SourceOverMask r) (_bl_PT_SourceOverMask r)
    (_bl_SourceMask r) (_bl_PT_SourceMask r) (_bl_SourceOverLCDMask r) (_bl_PT_SourceOverLCDMask r)
    (_bl_SourceLCDMask r) (_bl_PT_SourceLCDMask r) (_bl_SourceOverNoMask r) (_bl_PT_SourceOverNoMask r)
    (_bl_SourceNoMask r) (_bl_PT_SourceNoMask r) (_bl_SourceOver r) (_bl_PT_SourceOver r)
    (_bl_Source r) (_bl_PT_Source r) (_el_Source r) (_el_SourceOver r)
    (_el_PT_Source r) (_el_PT_SourceOver r) (_bl_Clear r) (_bl_PT_Clear r)
    (_bl r) (_bl_PT r) (_el r) (_el_PT r)
    (_clearRect r) (_emitRows r) (_emitLine r) (_genPaint r)
    (_rowNum r) (_alphaWidth r) (_minTouched r) (_maxTouched r)
    (_currX r) (_currY r) (_currImageOffset r) (alphaMap r)
    (_rowAAInt r) (_rectX r) (_rectY r) (_mask_free r)
    (_maskType r) (_mask_byteData r) (_maskOffset r) (_mask_width r)
    (_mask_height r) (_paint r) (_paint_length r) (_lg_mx r)
    (_lg_my r) (_lg_b r) (_rg_a00 r) (_rg_a01 r) (_rg_a02 r) (_rg_a10 r) (_rg_a11 r) (_rg_a12 r)
    (_rg_cx r) (_rg_cy r) (_rg_fx r) (_rg_fy r) (_rg_r r) (_rg_rsq r) (_rg_a00a00 r) (_rg_a10a10 r) (_rg_a00a10 r)
    (_gradient_transform r) (_gradient_inverse_transform r) (_paint_transform r)
    (_gradient_colors r) (_gradient_cycleMethod r)
    (_texture_intData r) (_texture_hasAlpha r) (_texture_imageWidth r) (_texture_imageHeight r)
    (_texture_stride r) (_texture_txMin r) (_texture_tyMin r) (_texture_txMax r)
    (_texture_tyMax r) (_texture_repeat r) (_texture_m00 r) (_texture_m01 r)
    (_texture_m02 r) (_texture_m10 r) (_texture_m11 r) (_texture_m12 r)
    (_texture_interpolate r) (_texture_transformType r) (_texture_free r) (_clip_bbMinX r)
    (_clip_bbMinY r) (_clip_bbMaxX r) (_clip_bbMaxY r) (_el_lfrac r)
    (_el_rfrac r) (_rendererState r).

(** [assign f]: the assignment to field [f], as a function of the new value. *)
Ltac make_assign f :=
  let e := eval unfold renderer_eta in renderer_eta in
  let e' := eval pattern f in e in
  match e' with ?F f => exact (fun v => F (fun _ => v)) end.

Definition set_paintMode : Z -> Renderer -> Renderer := ltac:(make_assign _paintMode).
Definition set_prevPaintMode : Z -> Renderer -> Renderer := ltac:(make_assign _prevPaintMode).
Definition set_ured : Z -> Renderer -> Renderer := ltac:(make_assign _ured).
Definition set_ugreen : Z -> Renderer -> Renderer := ltac:(make_assign _ugreen).
Definition set_ublue : Z -> Renderer -> Renderer := ltac:(make_assign _ublue).
Definition set_ualpha : Z -> Renderer -> Renderer := ltac:(make_assign _ualpha).
Definition set_cred : Z -> Renderer -> Renderer := ltac:(make_assign _cred).
Definition set_cgreen : Z -> Renderer -> Renderer := ltac:(make_assign _cgreen).
Definition set_cblue : Z -> Renderer -> Renderer := ltac:(make_assign _cblue).
Definition set_calpha : Z -> Renderer -> Renderer := ltac:(make_assign _calpha).
Definition set_compositeRule : Z -> Renderer -> Renderer := ltac:(make_assign _compositeRule).
Definition set_data : option (list Z) -> Renderer -> Renderer := ltac:(make_assign _data).
Definition set_width : Z -> Renderer -> Renderer := ltac:(make_assign _width).
Definition set_height : Z -> Renderer -> Renderer := ltac:(make_assign _height).
Definition set_imageOffset : Z -> Renderer -> Renderer := ltac:(make_assign _imageOffset).
Definition set_imageScanlineStride : Z -> Renderer -> Renderer := ltac:(make_assign _imageScanlineStride).
Definition set_imagePixelStride : Z -> Renderer -> Renderer := ltac:(make_assign _imagePixelStride).
Definition set_imageType : Z -> Renderer -> Renderer := ltac:(make_assign _imageType).
Definition set_bl_SourceOverMask : option blit_routine -> Renderer -> Renderer := ltac:(make_assign _bl_SourceOverMask).
Definition set_bl_PT_SourceOverMask : option blit_routine -> Renderer -> Renderer := ltac:(make_assign _bl_PT_SourceOverMask).
Definition set_bl_SourceMask : option blit_routine -> Renderer -> Renderer := ltac:(make_assign _bl_SourceMask).
Definition set_bl_PT_SourceMask : option blit_routine -> Renderer -> Renderer := ltac:(make_assign _bl_PT_SourceMask).
Definition set_bl_SourceOverLCDMask : option blit_routine -> Renderer -> Renderer := ltac:(make_assign _bl_SourceOverLCDMask).
Definition set_bl_PT_SourceOverLCDMask : option blit_routine -> Renderer -> Renderer := ltac:(make_assign _bl_PT_SourceOverLCDMask).
Definition set_bl_SourceLCDMask : option blit_routine -> Renderer -> Renderer := ltac:(make_assign _bl_SourceLCDMask).
Definition set_bl_PT_SourceLCDMask : option blit_routine -> Renderer -> Renderer := ltac:(make_assign _bl_PT_SourceLCDMask).
Definition set_bl_SourceOverNoMask : option blit_routine -> Renderer -> Renderer := ltac:(make_assign _bl_SourceOverNoMask).
Definition set_bl_PT_SourceOverNoMask : option blit_routine -> Renderer -> Renderer := ltac:(make_assign _bl_PT_SourceOverNoMask).
Definition set_bl_SourceNoMask : option blit_routine -> Renderer -> Renderer := ltac:(make_assign _bl_SourceNoMask).
Definition set_bl_PT_SourceNoMask : option blit_routine -> Renderer -> Renderer := ltac:(make_assign _bl_PT_SourceNoMask).
Definition set_bl_SourceOver : option blit_routine -> Renderer -> Renderer := ltac:(make_assign _bl_SourceOver).
Definition set_bl_PT_SourceOver : option blit_routine -> Renderer -> Renderer := ltac:(make_assign _bl_PT_SourceOver).
Definition set_bl_Source : option blit_routine -> Renderer -> Renderer := ltac:(make_assign _bl_Source).
Definition set_bl_PT_Source : option blit_routine -> Renderer -> Renderer := ltac:(make_assign _bl_PT_Source).
Definition set_el_Source : option emit_routine -> Renderer -> Renderer := ltac:(make_assign _el_Source).
Definition set_el_SourceOver : option emit_routine -> Renderer -> Renderer := ltac:(make_assign _el_SourceOver).
Definition set_el_PT_Source : option emit_routine -> Renderer -> Renderer := ltac:(make_assign _el_PT_Source).
Definition set_el_PT_SourceOver : option emit_routine -> Renderer -> Renderer := ltac:(make_assign _el_PT_SourceOver).
Definition set_bl_Clear : option blit_routine -> Renderer -> Renderer := ltac:(make_assign _bl_Clear).
Definition set_bl_PT_Clear : option blit_routine -> Renderer -> Renderer := ltac:(make_assign _bl_PT_Clear).
Definition set_bl : option blit_routine -> Renderer -> Renderer := ltac:(make_assign _bl).
Definition set_bl_PT : option blit_routine -> Renderer -> Renderer := ltac:(make_assign _bl_PT).
Definition set_el : option emit_routine -> Renderer -> Renderer := ltac:(make_assign _el).
Definition set_el_PT : option emit_routine -> Renderer -> Renderer := ltac:(make_assign _el_PT).
Definition set_clearRect : option clear_routine -> Renderer -> Renderer := ltac:(make_assign _clearRect).
Definition set_emitRows : option blit_routine -> Renderer -> Renderer := ltac:(make_assign _emitRows).
Definition set_emitLine : option emit_routine -> Renderer -> Renderer := ltac:(make_assign _emitLine).
Definition set_genPaint : option paint_routine -> Renderer -> Renderer := ltac:(make_assign _genPaint).
Definition set_rowNum : Z -> Renderer -> Renderer := ltac:(make_assign _rowNum).
Definition set_alphaWidth : Z -> Renderer -> Renderer := ltac:(make_assign _alphaWidth).
Definition set_minTouched : Z -> Renderer -> Renderer := ltac:(make_assign _minTouched).
Definition set_maxTouched : Z -> Renderer -> Renderer := ltac:(make_assign _maxTouched).
Definition set_currX : Z -> Renderer -> Renderer := ltac:(make_assign _currX).
Definition set_currY : Z -> Renderer -> Renderer := ltac:(make_assign _currY).
Definition set_currImageOffset : Z -> Renderer -> Renderer := ltac:(make_assign _currImageOffset).
Definition set_alphaMap : list Z -> Renderer -> Renderer := ltac:(make_assign alphaMap).
Definition set_rowAAInt : list Z -> Renderer -> Renderer := ltac:(make_assign _rowAAInt).
Definition set_rectX : Z -> Renderer -> Renderer := ltac:(make_assign _rectX).
Definition set_rectY : Z -> Renderer -> Renderer := ltac:(make_assign _rectY).
Definition set_mask_free : bool -> Renderer -> Renderer := ltac:(make_assign _mask_free).
Definition set_maskType : Z -> Renderer -> Renderer := ltac:(make_assign _maskType).
Definition set_mask_byteData : option (list Z) -> Renderer -> Renderer := ltac:(make_assign _mask_byteData).
Definition set_maskOffset : Z -> Renderer -> Renderer := ltac:(make_assign _maskOffset).
Definition set_mask_width : Z -> Renderer -> Renderer := ltac:(make_assign _mask_width).
Definition set_mask_height : Z -> Renderer -> Renderer := ltac:(make_assign _mask_height).
Definition set_paint : list Z -> Renderer -> Renderer := ltac:(make_assign _paint).
Definition set_paint_length : Z -> Renderer -> Renderer := ltac:(make_assign _paint_length).
Definition set_lg_mx : jfloat -> Renderer -> Renderer := ltac:(make_assign _lg_mx).
Definition set_lg_my : jfloat -> Renderer -> Renderer := ltac:(make_assign _lg_my).
Definition set_lg_b : jfloat -> Renderer -> Renderer := ltac:(make_assign _lg_b).
Definition set_rg_a00 : jfloat -> Renderer -> Renderer := ltac:(make_assign _rg_a00).
Definition set_rg_a01 : jfloat -> Renderer -> Renderer := ltac:(make_assign _rg_a01).
Definition set_rg_a02 : jfloat -> Renderer -> Renderer := ltac:(make_assign _rg_a02).
Definition set_rg_a10 : jfloat -> Renderer -> Renderer := ltac:(make_assign _rg_a10).
Definition set_rg_a11 : jfloat -> Renderer -> Renderer := ltac:(make_assign _rg_a11).
Definition set_rg_a12 : jfloat -> Renderer -> Renderer := ltac:(make_assign _rg_a12).
Definition set_rg_cx : jfloat -> Renderer -> Renderer := ltac:(make_assign _rg_cx).
Definition set_rg_cy : jfloat -> Renderer -> Renderer := ltac:(make_assign _rg_cy).
Definition set_rg_fx : jfloat -> Renderer -> Renderer := ltac:(make_assign _rg_fx).
Definition set_rg_fy : jfloat -> Renderer -> Renderer := ltac:(make_assign _rg_fy).
Definition set_rg_r : jfloat -> Renderer -> Renderer := ltac:(make_assign _rg_r).
Definition set_rg_rsq : jfloat -> Renderer -> Renderer := ltac:(make_assign _rg_rsq).
Definition set_rg_a00a00 : jfloat -> Renderer -> Renderer := ltac:(make_assign _rg_a00a00).
Definition set_rg_a10a10 : jfloat -> Renderer -> Renderer := ltac:(make_assign _rg_a10a10).
Definition set_rg_a00a10 : jfloat -> Renderer -> Renderer := ltac:(make_assign _rg_a00a10).
Definition set_gradient_transform : Transform6 -> Renderer -> Renderer := ltac:(make_assign _gradient_transform).
Definition set_gradient_inverse_transform : Transform6 -> Renderer -> Renderer := ltac:(make_assign _gradient_inverse_transform).
Definition set_paint_transform : Transform6 -> Renderer -> Renderer := ltac:(make_assign _paint_transform).
Definition set_gradient_colors : list Z -> Renderer -> Renderer := ltac:(make_assign _gradient_colors).
Definition set_gradient_cycleMethod : Z -> Renderer -> Renderer := ltac:(make_assign _gradient_cycleMethod).
Definition set_texture_intData : option texture_ptr -> Renderer -> Renderer := ltac:(make_assign _texture_intData).
Definition set_texture_hasAlpha : bool -> Renderer -> Renderer := ltac:(make_assign _texture_hasAlpha).
Definition set_texture_imageWidth : Z -> Renderer -> Renderer := ltac:(make_assign _texture_imageWidth).
Definition set_texture_imageHeight : Z -> Renderer -> Renderer := ltac:(make_assign _texture_imageHeight).
Definition set_texture_stride : Z -> Renderer -> Renderer := ltac:(make_assign _texture_stride).
Definition set_texture_txMin : Z -> Renderer -> Renderer := ltac:(make_assign _texture_txMin).
Definition set_texture_tyMin : Z -> Renderer -> Renderer := ltac:(make_assign _texture_tyMin).
Definition set_texture_txMax : Z -> Renderer -> Renderer := ltac:(make_assign _texture_txMax).
Definition set_texture_tyMax : Z -> Renderer -> Renderer := ltac:(make_assign _texture_tyMax).
Definition set_texture_repeat : bool -> Renderer -> Renderer := ltac:(make_assign _texture_repeat).
Definition set_texture_m00 : Z -> Renderer -> Renderer := ltac:(make_assign _texture_m00).
Definition set_texture_m01 : Z -> Renderer -> Renderer := ltac:(make_assign _texture_m01).
Definition set_texture_m02 : Z -> Renderer -> Renderer := ltac:(make_assign _texture_m02).
Definition set_texture_m10 : Z -> Renderer -> Renderer := ltac:(make_assign _texture_m10).
Definition set_texture_m11 : Z -> Renderer -> Renderer := ltac:(make_assign _texture_m11).
Definition set_texture_m12 : Z -> Renderer -> Renderer := ltac:(make_assign _texture_m12).
Definition set_texture_interpolate : bool -> Renderer -> Renderer := ltac:(make_assign _texture_interpolate).
Definition set_texture_transformType : Z -> Renderer -> Renderer := ltac:(make_assign _texture_transformType).
Definition set_texture_free : bool -> Renderer -> Renderer := ltac:(make_assign _texture_free).
Definition set_clip_bbMinX : Z -> Renderer -> Renderer := ltac:(make_assign _clip_bbMinX).
Definition set_clip_bbMinY : Z -> Renderer -> Renderer := ltac:(make_assign _clip_bbMinY).
Definition set_clip_bbMaxX : Z -> Renderer -> Renderer := ltac:(make_assign _clip_bbMaxX).
Definition set_clip_bbMaxY : Z -> Renderer -> Renderer := ltac:(make_assign _clip_bbMaxY).
Definition set_el_lfrac : Z -> Renderer -> Renderer := ltac:(make_assign _el_lfrac).
Definition set_el_rfrac : Z -> Renderer -> Renderer := ltac:(make_assign _el_rfrac).
Definition set_rendererState : Z -> Renderer -> Renderer := ltac:(make_assign _rendererState).

(** [rdr->f = v; rest] *)
Declare Scope renderer_scope.
Delimit Scope renderer_scope with rdr.
Notation "r '<|' f ':=' v '|>'" := (f v r) (at level 1, left associativity, only parsing) : renderer_scope.
#[global] Open Scope renderer_scope.

Definition zero_transform : Transform6 := mkTransform6 0 0 0 0 0 0.

(** [my_malloc(Renderer, 1)]: all fields zero. *)
Definition zero_renderer : Renderer :=
  mkRenderer
    0 0 0 0 0 0 0 0 0 0 0 None 0 0 0 0
    0 0 None None None None None None None None None None None None None None
    None None None None None None None None None None None None None None None None
    0 0 0 0 0 0 0 [] [] 0 0 false 0 None 0 0
    0 [] 0 (of_int 0) (of_int 0) (of_int 0)
    (of_int 0) (of_int 0) (of_int 0) (of_int 0) (of_int 0) (of_int 0) (of_int 0) (of_int 0) (of_int 0) (of_int 0) (of_int 0) (of_int 0) (of_int 0) (of_int 0) (of_int 0)
    zero_transform zero_transform zero_transform [] 0 None false 0 0 0 0 0 0
    0 false 0 0 0 0 0 0 false 0 false 0 0 0 0 0
    0 0.
