(* ===== verification/PiscesBlit.v ===== *)
(** * Scanline routines of the software renderer

    The exported functions of native-prism-sw/PiscesBlit.c: the four
    [emitLine] routines that fill whole scanlines of a rectangle, the nine
    [blit] routines that composite under a coverage row or a mask, and
    [clearRect8888_any].  Each takes the renderer and returns it with its
    pixel buffer (and, for the delta-coded coverage row, that row) updated;
    [None] is an access outside a buffer.  The theorems say which pixel gets
    which value and that no other pixel changes. *)

From S2P Require Import Prelude Float32 PiscesPixel PiscesState.

(** ** Loop shapes the routines share *)

(** One scanline of an [emitLine] routine: an optional left edge pixel, [w]
    pixels in the middle, an optional right edge pixel.  [a] walks the pixel
    buffer by the pixel stride, [aidx] the paint row. *)
Definition edge_row (imagePixelStride w lfrac rfrac : Z)
    (left mid right : Z -> Z -> option Z) (aidx iidx : Z) (m : list Z) : option (list Z) :=
  '(a, aidx, m) ←
    (if ctrue lfrac then
       m ← aupd m iidx (left aidx); Some (iidx + imagePixelStride, aidx + 1, m)
     else Some (iidx, aidx, m));
  let am := a + w in
  '(a, aidx, m) ←
    while_fuel (Z.to_nat w) (fun '(a, _, _) => a <? am)
      (fun '(a, aidx, m) =>
         m ← aupd m a (mid aidx); Some (a + imagePixelStride, aidx + 1, m))
      (a, aidx, m);
  if ctrue rfrac then aupd m a (right aidx) else Some m.

(** [for (j = 0; j < height; j++)] over scanlines, stepping the image offset
    and the paint offset. *)
Definition emit_rows (height imageOffset imageScanlineStride paint_stride : Z)
    (row : Z -> Z -> list Z -> option (list Z)) (m : list Z) : option (list Z) :=
  '(_, _, m) ←
    for_lt height
      (fun _ '(imageOffset, paint_offset, m) =>
         m ← row paint_offset imageOffset m;
         Some (i32 (imageOffset + imageScanlineStride), i32 (paint_offset + paint_stride), m))
      (imageOffset, 0, m);
  Some m.

(** The index of the first pixel of the scanline. *)
Definition row_start (rdr : Renderer) (imageOffset : Z) : Z :=
  i32 (imageOffset + _minTouched rdr * _imagePixelStride rdr).

(** [w -= (lfrac) ? 1 : 0; w -= (rfrac) ? 1 : 0;] *)
Definition inner_width (alphaWidth lfrac rfrac : Z) : Z :=
  alphaWidth - (if ctrue lfrac then 1 else 0) - (if ctrue rfrac then 1 else 0).

(** [(jint)(((jlong)x * frac) >> 16)] *)
Definition scale_frac (x frac : Z) : Z := i32 (i64 (x * frac) >> 16).

(** ** The emitLine routines *)

Definition emitLineSource8888_pre (rdr : Renderer) (height frac : Z) : option Renderer :=
  intData ← _data rdr;
  let imageOffset := _currImageOffset rdr in
  let imageScanlineStride := _imageScanlineStride rdr in
  let imagePixelStride := _imagePixelStride rdr in
  let calpha := _calpha rdr in
  let cred := _cred rdr in
  let cgreen := _cgreen rdr in
  let cblue := _cblue rdr in
  let lfrac := _el_lfrac rdr in
  let rfrac := _el_rfrac rdr in
  let w := inner_width (_alphaWidth rdr) lfrac rfrac in
  let edge f (_ : Z) ival :=
    Some (blendSrc8888_pre calpha (255 - (f >> 8)) cred cgreen cblue ival) in
  intData ←
    (if frac =? 0x10000 then
       let pre_red := i32 ((calpha + 1) * cred) >> 8 in
       let pre_green := i32 ((calpha + 1) * cgreen) >> 8 in
       let pre_blue := i32 ((calpha + 1) * cblue) >> 8 in
       let pixel := pack calpha pre_red pre_green pre_blue in
       emit_rows height imageOffset imageScanlineStride 0
         (fun aidx imageOffset m =>
            edge_row imagePixelStride w lfrac rfrac
              (edge lfrac) (fun _ _ => Some pixel) (edge rfrac)
              aidx (row_start rdr imageOffset) m) intData
     else
       let comp_frac := 255 - (frac >> 8) in
       let lfrac := scale_frac lfrac frac in
       let rfrac := scale_frac rfrac frac in
       emit_rows height imageOffset imageScanlineStride 0
         (fun aidx imageOffset m =>
            edge_row imagePixelStride w lfrac rfrac
              (edge lfrac)
              (fun _ ival => Some (blendSrc8888_pre calpha comp_frac cred cgreen cblue ival))
              (edge rfrac)
              aidx (row_start rdr imageOffset) m) intData);
  Some (rdr <| set_data := Some intData |>).

Definition emitLinePTSource8888_pre (rdr : Renderer) (height frac : Z) : option Renderer :=
  intData ← _data rdr;
  let paint := _paint rdr in
  let comp_frac := 255 - (frac >> 8) in
  let lfrac := scale_frac (_el_lfrac rdr) frac in
  let rfrac := scale_frac (_el_rfrac rdr) frac in
  let paint_stride := _alphaWidth rdr in
  let w := inner_width (_alphaWidth rdr) lfrac rfrac in
  let blend raaval aidx ival :=
    cval ← aget paint aidx;
    Some (blendSrc8888_pre_pre (A cval) raaval (R cval) (G cval) (B cval) ival) in
  intData ←
    emit_rows height (_currImageOffset rdr) (_imageScanlineStride rdr) paint_stride
      (fun aidx imageOffset m =>
         edge_row (_imagePixelStride rdr) w lfrac rfrac
           (blend (255 - (lfrac >> 8)))
           (if frac =? 0x10000 then fun aidx _ => aget paint aidx else blend comp_frac)
           (blend (255 - (rfrac >> 8)))
           aidx (row_start rdr imageOffset) m) intData;
  Some (rdr <| set_data := Some intData |>).

Definition emitLineSourceOver8888_pre (rdr : Renderer) (height frac : Z) : option Renderer :=
  intData ← _data rdr;
  let calpha := _calpha rdr in
  let cred := _cred rdr in
  let cgreen := _cgreen rdr in
  let cblue := _cblue rdr in
  let alpha := i32 (calpha * frac) >> 16 in
  let lfrac := _el_lfrac rdr in
  let rfrac := _el_rfrac rdr in
  let w := inner_width (_alphaWidth rdr) lfrac rfrac in
  let blend aval (_ : Z) ival := Some (blendSrcOver8888_pre aval cred cgreen cblue ival) in
  intData ←
    (if alpha =? MAX_ALPHA then
       let solid_pixel := pack 0xFF cred cgreen cblue in
       emit_rows height (_currImageOffset rdr) (_imageScanlineStride rdr) 0
         (fun aidx imageOffset m =>
            edge_row (_imagePixelStride rdr) w lfrac rfrac
              (blend (lfrac >> 8)) (fun _ _ => Some solid_pixel) (blend (rfrac >> 8))
              aidx (row_start rdr imageOffset) m) intData
     else
       let lalpha := i32 (lfrac * alpha) >> 16 in
       let ralpha := i32 (rfrac * alpha) >> 16 in
       emit_rows height (_currImageOffset rdr) (_imageScanlineStride rdr) 0
         (fun aidx imageOffset m =>
            edge_row (_imagePixelStride rdr) w lfrac rfrac
              (blend lalpha) (blend alpha) (blend ralpha)
              aidx (row_start rdr imageOffset) m) intData);
  Some (rdr <| set_data := Some intData |>).

Definition emitLinePTSourceOver8888_pre (rdr : Renderer) (height frac : Z) : option Renderer :=
  intData ← _data rdr;
  let paint := _paint rdr in
  let lfrac := scale_frac (_el_lfrac rdr) frac in
  let rfrac := scale_frac (_el_rfrac rdr) frac in
  let paint_stride := _alphaWidth rdr in
  let w := inner_width (_alphaWidth rdr) lfrac rfrac in
  let blend f aidx ival :=
    cval ← aget paint aidx;
    Some (blendSrcOver8888_pre_pre f (A cval) (R cval) (G cval) (B cval) ival) in
  intData ←
    emit_rows height (_currImageOffset rdr) (_imageScanlineStride rdr) paint_stride
      (fun aidx imageOffset m =>
         edge_row (_imagePixelStride rdr) w lfrac rfrac
           (blend (lfrac >> 8))
           (if frac =? 0x10000 then
              fun aidx ival =>
                cval ← aget paint aidx;
                let palpha := A cval in
                Some (if palpha =? 0 then ival
                      else if palpha =? MAX_ALPHA then cval
                      else blendSrcOver8888_pre_pre_fullFrac palpha (R cval) (G cval) (B cval) ival)
            else blend (frac >> 8))
           (blend (rfrac >> 8))
           aidx (row_start rdr imageOffset) m) intData;
  Some (rdr <| set_data := Some intData |>).

(** ** The blit routines *)

(** [w = (maxX >= minX) ? (maxX - minX + 1) : 0;] *)
Definition touched_width (rdr : Renderer) : Z :=
  if _maxTouched rdr >=? _minTouched rdr then i32 (_maxTouched rdr - _minTouched rdr + 1) else 0.

(** Rows under the delta-coded coverage row [_rowAAInt]: the running sum of
    the deltas is the coverage of the pixel, and every delta read is reset to
    zero.  [act aidx cov iidx m] is what the loop body does with the pixel. *)
Definition blit_alpha_rows (rdr : Renderer) (height : Z)
    (act : Z -> Z -> Z -> list Z -> option (list Z)) : option Renderer :=
  intData ← _data rdr;
  let w := touched_width rdr in
  '(_, intData, alpha) ←
    for_lt height
      (fun _ '(imageOffset, m, alpha) =>
         '(_, _, m, alpha) ←
           for_lt w
             (fun a '(iidx, aval_relative, m, alpha) =>
                d ← aget alpha a;
                let aval_relative := i32 (aval_relative + d) in
                alpha ← aset alpha a 0;
                m ← act a aval_relative iidx m;
                Some (i32 (iidx + _imagePixelStride rdr), aval_relative, m, alpha))
             (row_start rdr imageOffset, 0, m, alpha);
         Some (i32 (imageOffset + _imageScanlineStride rdr), m, alpha))
      (_currImageOffset rdr, intData, _rowAAInt rdr);
  Some (rdr <| set_data := Some intData |> <| set_rowAAInt := alpha |>).

(** Rows under a byte mask; [alphaStep] is what the routine adds to the mask
    offset after a row, [bytes] the mask bytes per pixel. *)
Definition blit_mask_rows (rdr : Renderer) (height alphaStep bytes : Z)
    (act : list Z -> Z -> Z -> Z -> list Z -> option (list Z)) : option Renderer :=
  intData ← _data rdr;
  alpha ← _mask_byteData rdr;
  let w := touched_width rdr in
  '(_, _, intData) ←
    for_lt height
      (fun _ '(imageOffset, alphaOffset, m) =>
         '(_, m) ←
           for_lt w
             (fun aidx '(iidx, m) =>
                m ← act alpha aidx (alphaOffset + bytes * aidx) iidx m;
                Some (i32 (iidx + _imagePixelStride rdr), m))
             (row_start rdr imageOffset, m);
         Some (i32 (imageOffset + _imageScanlineStride rdr), i32 (alphaOffset + alphaStep), m))
      (_currImageOffset rdr, _maskOffset rdr, intData);
  Some (rdr <| set_data := Some intData |>).

(** What [blitSrc8888_pre] and [blitSrcMask8888_pre] do with a pixel of
    coverage [acoverage]. *)
Definition src_act (rdr : Renderer) (acoverage iidx : Z) (m : list Z) : option (list Z) :=
  let calpha := _calpha rdr in
  if acoverage =? MAX_ALPHA then
    aset m iidx (pack calpha (_cred rdr) (_cgreen rdr) (_cblue rdr))
  else if 0 <? acoverage then
    let aval := i32 ((acoverage + 1) * calpha) >> 8 in
    aupd m iidx (fun ival => Some (blendSrc8888_pre aval (255 - acoverage)
                                     (_cred rdr) (_cgreen rdr) (_cblue rdr) ival))
  else Some m.

Definition blitSrc8888_pre (rdr : Renderer) (height : Z) : option Renderer :=
  blit_alpha_rows rdr height
    (fun _ aval_relative iidx m =>
       c ← aget (alphaMap rdr) aval_relative;
       src_act rdr (c & 0xff) iidx m).

Definition blitSrcMask8888_pre (rdr : Renderer) (height : Z) : option Renderer :=
  blit_mask_rows rdr height (_alphaWidth rdr) 1
    (fun alpha _ a iidx m =>
       c ← aget alpha a;
       src_act rdr (c & 0xff) iidx m).

(** The same for a paint pixel [cval]. *)
Definition pt_src_act (cval acoverage iidx : Z) (m : list Z) : option (list Z) :=
  let palpha := A cval in
  if acoverage =? MAX_ALPHA then aset m iidx cval
  else if 0 <? acoverage then
    let aval := i32 ((acoverage + 1) * palpha) >> 8 in
    aupd m iidx (fun ival => Some (blendSrc8888_pre_pre aval (255 - acoverage)
                                     (R cval) (G cval) (B cval) ival))
  else Some m.

Definition blitPTSrc8888_pre (rdr : Renderer) (height : Z) : option Renderer :=
  blit_alpha_rows rdr height
    (fun aidx aval_relative iidx m =>
       cval ← aget (_paint rdr) aidx;
       c ← aget (alphaMap rdr) aval_relative;
       pt_src_act cval (c & 0xff) iidx m).

Definition blitPTSrcMask8888_pre (rdr : Renderer) (height : Z) : option Renderer :=
  blit_mask_rows rdr height 0 1
    (fun alpha aidx a iidx m =>
       cval ← aget (_paint rdr) aidx;
       c ← aget alpha a;
       pt_src_act cval (c & 0xff) iidx m).

(** Source-over of the current colour at mask value [malpha]. *)
Definition src_over_act (rdr : Renderer) (malpha iidx : Z) (m : list Z) : option (list Z) :=
  let aval := i32 ((malpha + 1) * _calpha rdr) >> 8 in
  if aval =? MAX_ALPHA then aset m iidx (pack 0xff (_cred rdr) (_cgreen rdr) (_cblue rdr))
  else if 0 <? aval then
    aupd m iidx (fun ival => Some (blendSrcOver8888_pre aval (_cred rdr) (_cgreen rdr) (_cblue rdr) ival))
  else Some m.

Definition blitSrcOver8888_pre (rdr : Renderer) (height : Z) : option Renderer :=
  blit_alpha_rows rdr height
    (fun _ aval_relative iidx m =>
       if ctrue aval_relative then
         c ← aget (alphaMap rdr) aval_relative;
         src_over_act rdr (c & 0xff) iidx m
       else Some m).

Definition blitSrcOverMask8888_pre (rdr : Renderer) (height : Z) : option Renderer :=
  blit_mask_rows rdr height (_alphaWidth rdr) 1
    (fun alpha _ a iidx m =>
       c ← aget alpha a;
       if ctrue c then src_over_act rdr (c & 0xff) iidx m else Some m).

(** Source-over of a paint pixel. *)
Definition pt_src_over_act (cval malpha iidx : Z) (m : list Z) : option (list Z) :=
  let palpha := A cval in
  let aval := i32 ((malpha + 1) * palpha) >> 8 in
  if aval =? MAX_ALPHA then aset m iidx cval
  else if 0 <? aval then
    aupd m iidx (fun ival => Some (blendSrcOver8888_pre_pre (malpha + 1) palpha
                                     (R cval) (G cval) (B cval) ival))
  else Some m.

Definition blitPTSrcOver8888_pre (rdr : Renderer) (height : Z) : option Renderer :=
  blit_alpha_rows rdr height
    (fun aidx aval_relative iidx m =>
       cval ← aget (_paint rdr) aidx;
       if ctrue aval_relative then
         c ← aget (alphaMap rdr) aval_relative;
         pt_src_over_act cval (c & 0xff) iidx m
       else Some m).

Definition blitPTSrcOverMask8888_pre (rdr : Renderer) (height : Z) : option Renderer :=
  blit_mask_rows rdr height 0 1
    (fun alpha aidx a iidx m =>
       c ← aget alpha a;
       if ctrue c then
         cval ← aget (_paint rdr) aidx;
         pt_src_over_act cval (c & 0xff) iidx m
       else Some m).

(** The LCD mask has three bytes per pixel; the colour goes through the
    inverse gamma table first. *)
Definition blitSrcOverLCDMask8888_pre (gammaArray invGammaArray : list Z)
    (rdr : Renderer) (height : Z) : option Renderer :=
  calpha ← aget invGammaArray (_calpha rdr);
  cred ← aget invGammaArray (_cred rdr);
  cgreen ← aget invGammaArray (_cgreen rdr);
  cblue ← aget invGammaArray (_cblue rdr);
  blit_mask_rows rdr height (_alphaWidth rdr) 3
    (fun alpha _ a iidx m =>
       cr ← aget alpha a;
       cg ← aget alpha (a + 1);
       cb ← aget alpha (a + 2);
       let scale c := if calpha <? MAX_ALPHA then i32 ((c + 1) * calpha) >> 8 else c in
       let ared := scale (cr & 0xff) in
       let agreen := scale (cg & 0xff) in
       let ablue := scale (cb & 0xff) in
       let aval_ismax := (ared & agreen) & ablue in
       if aval_ismax =? MAX_ALPHA then aset m iidx (pack 0xff cred cgreen cblue)
       else aupd m iidx (blendLCDSrcOver8888_pre gammaArray invGammaArray
                           ared agreen ablue cred cgreen cblue)).

(** ** clearRect8888_any *)

(** Store [v] into the [n] elements from index [p] on. *)
Definition fill (m : list Z) (p n v : Z) : option (list Z) :=
  for_lt n (fun k m => aset m (p + k) v) m.

(** [memset(p, 0, size)] on an array of [jint]: a negative [int] size becomes
    a [size_t] larger than any object. *)
Definition memset0 (m : list Z) (p size : Z) : option (list Z) :=
  if size <? 0 then None else fill m p (size / 4) 0.

(** [memcpy(dst, src, size)] inside one array of [jint]. *)
Definition memcpy_within (m : list Z) (dst src size : Z) : option (list Z) :=
  if size <? 0 then None
  else for_lt (size / 4) (fun k m => v ← aget m (src + k); aset m (dst + k) v) m.

Definition clearRect8888_any (rdr : Renderer) (x y w h : Z) : option Renderer :=
  data ← _data rdr;
  let cval := pack (_calpha rdr) (_cred rdr) (_cgreen rdr) (_cblue rdr) in
  let pixelStride := _imagePixelStride rdr in
  let intData := _imageOffset rdr + i32 (y * _imageScanlineStride rdr) + i32 (x * pixelStride) in
  let size := i32 (4 * w) in
  m ←
    (if cval =? 0 then
       if (x =? 0) && (w =? _width rdr) then memset0 data intData (i32 (size * h))
       else
         '(_, m) ← for_lt h (fun _ '(intData, m) =>
                               m ← memset0 m intData size;
                               Some (intData + _imageScanlineStride rdr, m)) (intData, data);
         Some m
     else
       m ← fill data intData w cval;
       '(_, m) ← for_lt (h - 1) (fun _ '(p, m) =>
                             m ← memcpy_within m p intData size;
                             Some (p + _imageScanlineStride rdr, m))
                   (intData + _imageScanlineStride rdr, m);
       Some m);
  Some (rdr <| set_data := Some m |>).

(** ** Reasoning about rows *)

(** [n] elements from index [p] on are rewritten by [col], which takes the
    column and the old value. *)
Definition span_fn (p n : Z) (col : Z -> Z -> Z) (i v : Z) : Z :=
  if (p <=? i) && (i <? p + n) then col (i - p) v else v.

(** [h] such spans, [stride] apart: the rectangle of pixels a routine may
    touch. *)
Definition rect_fn (p stride n h : Z) (col : Z -> Z -> Z -> Z) (i v : Z) : Z :=
  let j := (i - p) / stride in
  let c := (i - p) mod stride in
  if (0 <=? j) && (j <? h) && (c <? n) then col j c v else v.

Lemma span_fn_0 p col i v : span_fn p 0 col i v = v.
Proof. unfold span_fn. case_bools; done. Qed.

Lemma span_fn_snoc p n col i v : 0 <= n ->
  (if i =? p + n then col n (span_fn p n col i v) else span_fn p n col i v) =
  span_fn p (n + 1) col i v.
Proof.
  intros. unfold span_fn. destruct (Z.eqb_spec i (p + n)) as [->|]; case_bools; try done.
  by replace (p + n - p) with n by lia.
Qed.

(** Extending a span by one element updated in place. *)
Lemma span_step m0 m p n col (f : Z -> option Z) :
  0 <= n -> 0 <= p -> p + n < alen m0 ->
  pointwise m0 m (span_fn p n col) ->
  (forall v, f v = Some (col n v)) ->
  exists m', aupd m (p + n) f = Some m' /\ pointwise m0 m' (span_fn p (n + 1) col).
Proof.
  intros Hn Hp Hr Hm Hf.
  assert (Hl : alen m = alen m0) by (eapply pointwise_alen; eauto).
  destruct (aupd_pointwise m (p + n) f (col n)) as (m' & E & Hm'); [lia|auto|].
  exists m'. split; [done|].
  eapply pointwise_ext; [|exact (pointwise_trans _ _ _ _ _ Hm Hm')].
  intros i v _. by apply span_fn_snoc.
Qed.

(** The same for the loop bodies that may leave the pixel alone: [act]
    rewrites any pixel that satisfies [P] by [g]. *)
Definition acts_as (P : Z -> Prop) (act : Z -> list Z -> option (list Z)) (g : Z -> Z) : Prop :=
  forall i m v, aget m i = Some v -> P v ->
    exists m', act i m = Some m' /\ pointwise m m' (fun j v => if j =? i then g v else v).

Lemma span_act P m0 m p n col act :
  0 <= n -> 0 <= p -> p + n < alen m0 -> (forall v, aget m0 (p + n) = Some v -> P v) ->
  pointwise m0 m (span_fn p n col) -> acts_as P act (col n) ->
  exists m', act (p + n) m = Some m' /\ pointwise m0 m' (span_fn p (n + 1) col).
Proof.
  intros Hn Hp Hr HP Hm Hf. destruct (aget_ex m0 (p + n)) as [v Hv]; [lia|].
  destruct (Hf (p + n) m v) as (m' & E & Hm'); [|by apply HP|].
  { rewrite Hm, Hv. simpl. unfold span_fn. case_bools; done. }
  exists m'. split; [done|].
  eapply pointwise_ext; [|exact (pointwise_trans _ _ _ _ _ Hm Hm')].
  intros i w _. by apply span_fn_snoc.
Qed.

Lemma acts_as_aupd (P : Z -> Prop) f g :
  (forall v, P v -> f v = Some (g v)) -> acts_as P (fun i m => aupd m i f) g.
Proof.
  intros H i m v Hv HP. apply aupd_pointwise; [by eapply aget_Some_range|].
  intros w Hw. simplify_eq. auto.
Qed.

Lemma acts_as_aset (P : Z -> Prop) v0 g :
  (forall v, P v -> g v = v0) -> acts_as P (fun i m => aset m i v0) g.
Proof.
  intros Hg i m v Hv HP. destruct (aset_ok m i v0) as (m' & E & Hm'); [by eapply aget_Some_range|].
  exists m'. split; [done|]. intros j. rewrite Hm'.
  destruct (Z.eqb_spec j i) as [->|]; [|by destruct (aget m j)]. rewrite Hv. simpl. by rewrite Hg.
Qed.

Lemma acts_as_skip (P : Z -> Prop) g :
  (forall v, P v -> g v = v) -> acts_as P (fun _ m => Some m) g.
Proof.
  intros Hg i m v Hv HP. exists m. split; [done|]. intros j.
  destruct (Z.eqb_spec j i) as [->|]; [|by destruct (aget m j)]. rewrite Hv. simpl. by rewrite Hg.
Qed.

Definition edges (x : Z) : Z := if ctrue x then 1 else 0.

Lemma edge_row_ok w lfrac rfrac left mid right aidx iidx m col :
  let n := edges lfrac + w + edges rfrac in
  0 <= w -> 0 <= iidx -> iidx + n <= alen m ->
  (forall v, ctrue lfrac = true -> left aidx v = Some (col 0 v)) ->
  (forall k v, edges lfrac <= k < edges lfrac + w -> mid (aidx + k) v = Some (col k v)) ->
  (forall v, ctrue rfrac = true -> right (aidx + (edges lfrac + w)) v = Some (col (edges lfrac + w) v)) ->
  exists m', edge_row 1 w lfrac rfrac left mid right aidx iidx m = Some m' /\
    pointwise m m' (span_fn iidx n col).
Proof.
  intros n Hw Hi Hr Hl Hm Hrt. unfold edge_row.
  assert (H1 : exists m1, (if ctrue lfrac then m' ← aupd m iidx (left aidx); Some (iidx + 1, aidx + 1, m')
        else Some (iidx, aidx, m)) = Some (iidx + edges lfrac, aidx + edges lfrac, m1) /\
        pointwise m m1 (span_fn iidx (edges lfrac) col)).
  { unfold edges in *. destruct (ctrue lfrac).
    - destruct (span_step m m iidx 0 col (left aidx)) as (m1 & E & H1); try lia.
      + destruct (ctrue rfrac); lia.
      + eapply pointwise_ext; [|apply pointwise_refl]. intros. by rewrite span_fn_0.
      + auto.
      + rewrite Z.add_0_r in E. exists m1. rewrite E. done.
    - exists m. rewrite !Z.add_0_r. split; [done|].
      eapply pointwise_ext; [|apply pointwise_refl]. intros. by rewrite span_fn_0. }
  destruct H1 as (m1 & -> & H1). mred.
  assert (0 <= edges lfrac <= 1) by (unfold edges; destruct (ctrue lfrac); lia).
  assert (0 <= edges rfrac <= 1) by (unfold edges; destruct (ctrue rfrac); lia).
  destruct (while_fuel_inv
    (fun '(a, ai, m') => exists k, edges lfrac <= k <= edges lfrac + w /\ a = iidx + k /\
        ai = aidx + k /\ pointwise m m' (span_fn iidx k col))
    (fun '(a, _, _) => Z.to_nat (iidx + edges lfrac + w - a))
    (fun '(a, _, _) => a <? iidx + edges lfrac + w)
    (fun '(a, ai, m') => m' ← aupd m' a (mid ai); Some (a + 1, ai + 1, m'))
    (Z.to_nat w) (iidx + edges lfrac, aidx + edges lfrac, m1))
    as ([[a ai] m2] & -> & (k & Hk & -> & -> & H2) & Hend).
  - exists (edges lfrac). split_and!; [lia..|done].
  - lia.
  - intros [[a ai] m'] (k & Hk & -> & -> & Hp) Hc. apply Z.ltb_lt in Hc.
    destruct (span_step m m' iidx k col (mid (aidx + k))) as (m2 & -> & H2); [lia..|done| |].
    { intros v. apply Hm. lia. }
    mred. eexists; split; [done|]. split; [|lia].
    exists (k + 1). split_and!; [lia..|done].
  - mred. apply Z.ltb_ge in Hend. assert (k = edges lfrac + w) as -> by lia.
    subst n. assert (Ee : edges rfrac = if ctrue rfrac then 1 else 0) by done.
    rewrite Ee in Hr |- *. destruct (ctrue rfrac).
    + apply span_step; [lia..|done|]. intros v. by apply Hrt.
    + exists m2. split; [done|]. by rewrite Z.add_0_r.
Qed.

(** The column function of a scanline with fractional edges. *)
Definition edge_col (lfrac rfrac w : Z) (left mid right : Z -> Z -> Z) (c v : Z) : Z :=
  if ctrue lfrac && (c =? 0) then left c v
  else if c <? edges lfrac + w then mid c v
  else if ctrue rfrac && (c =? edges lfrac + w) then right c v
  else v.

Lemma edges_range x : 0 <= edges x <= 1.
Proof. unfold edges. destruct (ctrue x); lia. Qed.

(** A scanline with edges, as an update of the [n] pixels from [iidx] on for
    any [n] that has room for it. *)
Lemma edge_row_col n w lfrac rfrac left mid right aidx iidx m (L M T : Z -> Z -> Z) :
  0 <= w -> edges lfrac + w + edges rfrac <= n -> 0 <= iidx -> iidx + n <= alen m ->
  (forall v, left aidx v = Some (L 0 v)) ->
  (forall k v, 0 <= k < n -> mid (aidx + k) v = Some (M k v)) ->
  (forall k v, 0 <= k < n -> right (aidx + k) v = Some (T k v)) ->
  exists m', edge_row 1 w lfrac rfrac left mid right aidx iidx m = Some m' /\
    pointwise m m' (span_fn iidx n (edge_col lfrac rfrac w L M T)).
Proof.
  intros Hw Hn Hi Hr HL HM HT.
  pose proof (edges_range lfrac). pose proof (edges_range rfrac).
  destruct (edge_row_ok w lfrac rfrac left mid right aidx iidx m
              (edge_col lfrac rfrac w L M T)) as (m' & E & Hm'); [lia..| | | |].
  - intros v Hl. rewrite HL. unfold edge_col. by rewrite Hl.
  - intros k v Hk. rewrite HM by lia. unfold edge_col, edges in *.
    destruct (ctrue lfrac); simpl; case_bools; done.
  - intros v Hl. assert (edges rfrac = 1) by (unfold edges; by rewrite Hl).
    rewrite HT by lia. unfold edge_col. rewrite Hl. unfold edges in *.
    destruct (ctrue lfrac); simpl; case_bools; done.
  - exists m'. split; [done|]. eapply pointwise_ext; [|exact Hm'].
    intros i v Hv. unfold span_fn. case_bools; try done.
    unfold edge_col. unfold edges in *. destruct (ctrue lfrac), (ctrue rfrac); simpl; case_bools; done.
Qed.

Lemma rect_fn_0 p stride n col i v : rect_fn p stride n 0 col i v = v.
Proof. unfold rect_fn. case_bools; done. Qed.

Lemma rect_fn_step p stride n j col i v : 0 < stride -> n <= stride -> 0 <= j ->
  span_fn (p + j * stride) n (col j) i (rect_fn p stride n j col i v) =
  rect_fn p stride n (j + 1) col i v.
Proof.
  intros Hs Hn Hj. unfold span_fn, rect_fn.
  pose proof (Z.div_mod (i - p) stride ltac:(lia)) as Hd.
  pose proof (Z.mod_pos_bound (i - p) stride Hs) as Hc.
  set (q := (i - p) / stride) in *. set (c := (i - p) mod stride) in *.
  assert (Hq : (q < j /\ i < p + j * stride) \/ (q = j /\ i = p + j * stride + c) \/
               (j < q /\ p + j * stride + stride <= i)).
  { destruct (Z.lt_trichotomy q j) as [Hlt|[Heq|Hgt]].
    - pose proof (Z.mul_le_mono_nonneg_l (q + 1) j stride ltac:(lia) ltac:(lia)). lia.
    - subst j. lia.
    - pose proof (Z.mul_le_mono_nonneg_l (j + 1) q stride ltac:(lia) ltac:(lia)). lia. }
  destruct Hq as [[? ?]|[[<- Hi]|[? ?]]]; case_bools; try done.
  by replace (i - (p + q * stride)) with c by lia.
Qed.

(** A loop over scanlines updates the rectangle of its rows. *)
Lemma emit_rows_ok height off stride paint_stride row m p n col :
  0 <= height -> 0 < stride -> n <= stride -> 0 <= off -> 0 <= paint_stride ->
  off + height * stride < 2 ^ 31 -> height * paint_stride < 2 ^ 31 ->
  (forall j m', 0 <= j < height -> alen m' = alen m ->
     exists m'', row (j * paint_stride) (off + j * stride) m' = Some m'' /\
       pointwise m' m'' (span_fn (p + j * stride) n (col j))) ->
  exists m', emit_rows height off stride paint_stride row m = Some m' /\
    pointwise m m' (rect_fn p stride n height col).
Proof.
  intros Hh Hs Hn Ho Hp Hb1 Hb2 Hrow. unfold emit_rows.
  destruct (for_lt_inv
    (fun j '(o, po, m') => o = off + j * stride /\ po = j * paint_stride /\
        pointwise m m' (rect_fn p stride n j col))
    height
    (fun _ '(o, po, m') => m'' ← row po o m';
         Some (i32 (o + stride), i32 (po + paint_stride), m''))
    (off, 0, m)) as ([[o po] m'] & -> & (_ & _ & Hm')).
  - split_and!; [lia..|]. eapply pointwise_ext; [|apply pointwise_refl].
    intros. by rewrite rect_fn_0.
  - intros j [[o po] m'] Hj (-> & -> & Hm').
    destruct (Hrow j m' Hj) as (m'' & -> & Hm'').
    { by eapply pointwise_alen. }
    mred. eexists; split; [done|].
    assert (0 <= j * stride <= height * stride - stride) by nia.
    assert (0 <= j * paint_stride <= height * paint_stride - paint_stride) by nia.
    rewrite !i32_id by (unfold in_i32; lia). split_and!; [lia..|].
    eapply pointwise_ext; [|exact (pointwise_trans _ _ _ _ _ Hm' Hm'')].
    intros i v _. apply rect_fn_step; lia.
  - exists m'. split; [done|]. by replace (Z.max 0 height) with height in Hm' by lia.
Qed.

(** ** When a routine may be called

    The callers set the pixel stride to one, the scanline stride to the width
    of the surface and the current offset to the first row, inside the
    buffer. *)
Record row_geometry (rdr : Renderer) (height : Z) (m : list Z) : Prop := {
  geo_data : _data rdr = Some m;
  geo_pixel : _imagePixelStride rdr = 1;
  geo_height : 0 <= height;
  geo_min : 0 <= _minTouched rdr;
  geo_width : 1 <= _alphaWidth rdr;
  geo_max : _maxTouched rdr = _minTouched rdr + _alphaWidth rdr - 1;
  geo_stride : _minTouched rdr + _alphaWidth rdr <= _imageScanlineStride rdr;
  geo_off : 0 <= _currImageOffset rdr;
  geo_end : _currImageOffset rdr + height * _imageScanlineStride rdr <= alen m;
  geo_len : alen m < 2 ^ 31
}.

(** The index of the rectangle's first pixel. *)
Definition rect_origin (rdr : Renderer) : Z := _currImageOffset rdr + _minTouched rdr.

(** The pixels of the rectangle rewritten by [col row column old]. *)
Definition rect_update (rdr : Renderer) (height : Z) (col : Z -> Z -> Z -> Z) : Z -> Z -> Z :=
  rect_fn (rect_origin rdr) (_imageScanlineStride rdr) (_alphaWidth rdr) height col.

Lemma geometry_row rdr height m j : row_geometry rdr height m -> 0 <= j < height ->
  row_start rdr (_currImageOffset rdr + j * _imageScanlineStride rdr) =
    rect_origin rdr + j * _imageScanlineStride rdr /\
  0 <= rect_origin rdr + j * _imageScanlineStride rdr /\
  rect_origin rdr + j * _imageScanlineStride rdr + _alphaWidth rdr <= alen m.
Proof.
  intros [] Hj. unfold row_start, rect_origin. rewrite geo_pixel0.
  assert (0 <= j * _imageScanlineStride rdr <=
          height * _imageScanlineStride rdr - _imageScanlineStride rdr) by nia.
  rewrite i32_id by (unfold in_i32; lia). lia.
Qed.

Lemma geometry_bound rdr height m : row_geometry rdr height m ->
  0 < _imageScanlineStride rdr /\ _alphaWidth rdr <= _imageScanlineStride rdr /\
  _currImageOffset rdr + height * _imageScanlineStride rdr < 2 ^ 31 /\
  0 <= height * _alphaWidth rdr < 2 ^ 31.
Proof. intros []. assert (height * _alphaWidth rdr <= height * _imageScanlineStride rdr) by nia. nia. Qed.

(** The shape common to the four emitLine routines. *)
Lemma emit_shape rdr height m ps lfrac rfrac w left mid right (L M T : Z -> Z -> Z -> Z) :
  row_geometry rdr height m -> ps = 0 \/ ps = _alphaWidth rdr ->
  0 <= w -> edges lfrac + w + edges rfrac <= _alphaWidth rdr ->
  (forall j v, 0 <= j < height -> left (j * ps) v = Some (L j 0 v)) ->
  (forall j k v, 0 <= j < height -> 0 <= k < _alphaWidth rdr -> mid (j * ps + k) v = Some (M j k v)) ->
  (forall j k v, 0 <= j < height -> 0 <= k < _alphaWidth rdr -> right (j * ps + k) v = Some (T j k v)) ->
  exists m',
    emit_rows height (_currImageOffset rdr) (_imageScanlineStride rdr) ps
      (fun aidx imageOffset m =>
         edge_row (_imagePixelStride rdr) w lfrac rfrac left mid right aidx
           (row_start rdr imageOffset) m) m = Some m' /\
    pointwise m m' (rect_update rdr height
       (fun j c v => edge_col lfrac rfrac w (L j) (M j) (T j) c v)).
Proof.
  intros Hg Hps Hw Hn HL HM HT. pose proof (geometry_bound _ _ _ Hg) as (?&?&?&?).
  pose proof Hg as []. apply emit_rows_ok; try lia.
  - intros j m' Hj Hl. destruct (geometry_row _ _ _ j Hg Hj) as (-> & ? & ?).
    rewrite geo_pixel0. apply edge_row_col; auto; lia.
Qed.

(** ** What the emitLine routines do to each pixel *)

Definition run_emit (e : emit_routine) : Renderer -> Z -> Z -> option Renderer :=
  match e with
  | EmitLineSource8888_pre => emitLineSource8888_pre
  | EmitLineSourceOver8888_pre => emitLineSourceOver8888_pre
  | EmitLinePTSource8888_pre => emitLinePTSource8888_pre
  | EmitLinePTSourceOver8888_pre => emitLinePTSourceOver8888_pre
  end.

(** The paint pixel for row [j], column [c] of the rectangle. *)
Definition paint_at (rdr : Renderer) (j c : Z) : Z :=
  default 0 (aget (_paint rdr) (j * _alphaWidth rdr + c)).

(** Choose by column: left edge, right edge or inside. *)
Definition by_column {T} (rdr : Renderer) (l r c : Z) (left right mid : T) : T :=
  if ctrue l && (c =? 0) then left
  else if ctrue r && (c =? _alphaWidth rdr - 1) then right
  else mid.

(** The specification: the new value of the pixel in row [j] and column [c] of
    the rectangle, at vertical coverage [frac]/65536. *)
Definition emit_pixel (e : emit_routine) (rdr : Renderer) (frac j c v : Z) : Z :=
  let l := _el_lfrac rdr in
  let r := _el_rfrac rdr in
  let l' := l * frac / 65536 in
  let r' := r * frac / 65536 in
  let src raaval := blendSrc8888_pre (_calpha rdr) raaval (_cred rdr) (_cgreen rdr) (_cblue rdr) v in
  let p := paint_at rdr j c in
  let pt_src raaval := blendSrc8888_pre_pre (A p) raaval (R p) (G p) (B p) v in
  match e with
  | EmitLineSourceOver8888_pre =>
      let alpha := _calpha rdr * frac / 65536 in
      let edge f := if alpha =? 255 then f / 256 else f * alpha / 65536 in
      blendSrcOver8888_pre (by_column rdr l r c (edge l) (edge r) alpha)
        (_cred rdr) (_cgreen rdr) (_cblue rdr) v
  | EmitLinePTSourceOver8888_pre =>
      blendSrcOver8888_pre_pre (by_column rdr l' r' c (l' / 256) (r' / 256) (frac / 256))
        (A p) (R p) (G p) (B p) v
  | EmitLineSource8888_pre =>
      if frac =? 65536 then
        by_column rdr l r c (src (255 - l / 256)) (src (255 - r / 256))
          (pack (_calpha rdr) ((_calpha rdr + 1) * _cred rdr / 256)
             ((_calpha rdr + 1) * _cgreen rdr / 256) ((_calpha rdr + 1) * _cblue rdr / 256))
      else
        edge_col l' r' (_alphaWidth rdr - edges l - edges r)
          (fun _ _ => src (255 - l' / 256)) (fun _ _ => src (255 - frac / 256))
          (fun _ _ => src (255 - r' / 256)) c v
  | EmitLinePTSource8888_pre =>
      by_column rdr l' r' c (pt_src (255 - l' / 256)) (pt_src (255 - r' / 256))
        (if frac =? 65536 then p else pt_src (255 - frac / 256))
  end.

(** Whether the routine reads the paint rows. *)
Definition uses_paint (e : emit_routine) : bool :=
  match e with
  | EmitLineSource8888_pre | EmitLineSourceOver8888_pre => false
  | EmitLinePTSource8888_pre | EmitLinePTSourceOver8888_pre => true
  end.

(** What a caller provides besides the geometry; [pt] asks for paint rows. *)
Record emit_ready (pt : bool) (rdr : Renderer) (height frac : Z) (m : list Z) : Prop := {
  er_geo : row_geometry rdr height m;
  er_frac : 0 <= frac <= 65536;
  er_lfrac : 0 <= _el_lfrac rdr < 65536;
  er_rfrac : 0 <= _el_rfrac rdr < 65536;
  er_edges : edges (_el_lfrac rdr) + edges (_el_rfrac rdr) <= _alphaWidth rdr;
  er_alpha : is_byte (_calpha rdr);
  er_red : is_byte (_cred rdr);
  er_green : is_byte (_cgreen rdr);
  er_blue : is_byte (_cblue rdr);
  er_paint : pt = true -> height * _alphaWidth rdr <= alen (_paint rdr);
  er_paint_pre : pt = true -> forall i p, aget (_paint rdr) i = Some p -> in_i32 p /\ premultiplied p;
  er_pixels : pt = true -> forall i v, aget m i = Some v -> in_i32 v
}.

Lemma by_column_edge rdr l r c (L T M : Z -> Z -> Z) v :
  0 <= c < _alphaWidth rdr -> edges l + edges r <= _alphaWidth rdr ->
  edge_col l r (_alphaWidth rdr - edges l - edges r) L M T c v =
  by_column rdr l r c (L c v) (T c v) (M c v).
Proof.
  intros Hc He. unfold edge_col, by_column, edges in *.
  destruct (ctrue l), (ctrue r); simpl; case_bools; done.
Qed.

Lemma scale_frac_ok x frac : 0 <= x < 65536 -> 0 <= frac <= 65536 ->
  scale_frac x frac = x * frac / 65536 /\ 0 <= x * frac / 65536 <= x.
Proof.
  intros Hx Hf. unfold scale_frac. assert (0 <= x * frac <= 65536 * x) by nia.
  rewrite (i64_id (x * frac)) by (unfold in_i64; lia). bits_to_arith.
  assert (0 <= x * frac / 65536 <= x) by dlia.
  rewrite i32_id by (unfold in_i32; lia). done.
Qed.

Lemma edges_le x y : 0 <= y <= x -> edges y <= edges x.
Proof. unfold edges, ctrue. intros. case_bools; simpl; lia. Qed.

Lemma alpha_frac a frac : is_byte a -> 0 <= frac <= 65536 ->
  i32 (a * frac) >> 16 = a * frac / 65536 /\ 0 <= a * frac / 65536 <= a.
Proof.
  unfold is_byte. intros Ha Hf. assert (0 <= a * frac <= 65536 * a) by nia.
  rewrite i32_id by (unfold in_i32; lia). bits_to_arith. split; [done|dlia].
Qed.

Lemma rect_update_ext rdr height m m' (f g : Z -> Z -> Z -> Z) :
  (forall i v j c, aget m i = Some v -> 0 <= j < height -> 0 <= c < _alphaWidth rdr ->
     f j c v = g j c v) ->
  0 < _imageScanlineStride rdr ->
  pointwise m m' (rect_update rdr height f) -> pointwise m m' (rect_update rdr height g).
Proof.
  intros H Hs. apply pointwise_ext. intros i v Hv. unfold rect_update, rect_fn.
  pose proof (Z.mod_pos_bound (i - rect_origin rdr) _ Hs).
  case_bools; try done. apply (H i); try lia. done.
Qed.

Definition emits (rdr : Renderer) (height frac : Z) (m : list Z) (e : emit_routine) : Prop :=
  exists m', run_emit e rdr height frac = Some (set_data (Some m') rdr) /\
    pointwise m m' (rect_update rdr height (emit_pixel e rdr frac)).

Lemma mul_frac_small f a : 0 <= f < 65536 -> is_byte a ->
  i32 (f * a) >> 16 = f * a / 65536 /\ 0 <= f * a / 65536 <= a.
Proof.
  unfold is_byte. intros Hf Ha. assert (0 <= f * a <= 65536 * a) by nia.
  rewrite i32_id by (unfold in_i32; lia). bits_to_arith. split; [done|dlia].
Qed.

(** Apply [emit_shape] to the scanline loop of the goal, with the pixel
    functions of its three parts. *)
Ltac use_emit_shape L M T m' Hm' :=
  match goal with
  | Hg : row_geometry ?rdr ?h ?m
    |- context [emit_rows ?h _ _ ?ps (fun aidx o m1 => edge_row _ ?w ?lf ?rf ?left ?mid ?right aidx _ m1) ?m] =>
      destruct (emit_shape rdr h m ps lf rf w left mid right L M T Hg) as (m' & -> & Hm');
        [lia..| | | |]
  end.

Section emit_specs.
Context (pt : bool) (rdr : Renderer) (height frac : Z) (m : list Z).
Context (Hr : emit_ready pt rdr height frac m).

Lemma emit_paint_at j c : pt = true -> 0 <= j < height -> 0 <= c < _alphaWidth rdr ->
  aget (_paint rdr) (j * _alphaWidth rdr + c) = Some (paint_at rdr j c) /\
  in_i32 (paint_at rdr j c) /\ premultiplied (paint_at rdr j c).
Proof using Hr.
  intros Hpt Hj Hc. destruct Hr. specialize (er_paint0 Hpt). unfold paint_at.
  destruct (aget_ex (_paint rdr) (j * _alphaWidth rdr + c)) as [p Hp]; [nia|].
  rewrite Hp. simpl. split; [done|]. eauto.
Qed.

Lemma emit_SourceOver_ok : emits rdr height frac m EmitLineSourceOver8888_pre.
Proof using Hr.
  destruct Hr as [Hg Hf Hl Hrf He Ha Hred Hgreen Hblue _ _ _].
  destruct (geometry_bound _ _ _ Hg) as (Hs & _). pose proof Hg as [Gd _ _ _ Gw _ _ _ _ _].
  destruct (alpha_frac _ _ Ha Hf) as [Ea Ra].
  assert (Hb : is_byte (_calpha rdr * frac / 65536)) by (unfold is_byte in *; lia).
  destruct (mul_frac_small _ _ Hl Hb) as [El _]. destruct (mul_frac_small _ _ Hrf Hb) as [Er _].
  pose proof (edges_range (_el_lfrac rdr)). pose proof (edges_range (_el_rfrac rdr)).
  unfold emits, run_emit, emitLineSourceOver8888_pre. rewrite Gd. mred.
  set (blend a v := blendSrcOver8888_pre a (_cred rdr) (_cgreen rdr) (_cblue rdr) v).
  rewrite Ea, El, Er. unfold inner_width. fold (edges (_el_lfrac rdr)) (edges (_el_rfrac rdr)).
  unfold MAX_ALPHA, emit_pixel.
  destruct (Z.eqb_spec (_calpha rdr * frac / 65536) 255) as [E255|E255].
  - use_emit_shape (fun _ _ : Z => blend (_el_lfrac rdr >> 8))
      (fun _ _ _ : Z => pack 255 (_cred rdr) (_cgreen rdr) (_cblue rdr))
      (fun _ _ : Z => blend (_el_rfrac rdr >> 8)) m' Hm'; [by intros..|].
    exists m'. split; [done|]. eapply rect_update_ext; [|done|exact Hm'].
    intros i v j c Hv Hj Hc. cbv beta. rewrite by_column_edge by lia.
    unfold by_column. rewrite !shiftr_div by lia. repeat case_match; try done.
    rewrite E255. symmetry. by apply blendSrcOver_pre_255.
  - use_emit_shape (fun _ _ : Z => blend (_el_lfrac rdr * (_calpha rdr * frac / 65536) / 65536))
      (fun _ _ : Z => blend (_calpha rdr * frac / 65536))
      (fun _ _ : Z => blend (_el_rfrac rdr * (_calpha rdr * frac / 65536) / 65536)) m' Hm'; [by intros..|].
    exists m'. split; [done|]. eapply rect_update_ext; [|done|exact Hm'].
    intros i v j c Hv Hj Hc. cbv beta. rewrite by_column_edge by lia.
    unfold by_column. by repeat case_match.
Qed.

Lemma emit_Source_ok : emits rdr height frac m EmitLineSource8888_pre.
Proof using Hr.
  destruct Hr as [Hg Hf Hl Hrf He Ha Hred Hgreen Hblue _ _ _].
  destruct (geometry_bound _ _ _ Hg) as (Hs & _). pose proof Hg as [Gd _ _ _ Gw _ _ _ _ _].
  destruct (scale_frac_ok _ _ Hl Hf) as [El Rl]. destruct (scale_frac_ok _ _ Hrf Hf) as [Er Rr].
  pose proof (edges_range (_el_lfrac rdr)). pose proof (edges_range (_el_rfrac rdr)).
  pose proof (edges_le _ _ Rl). pose proof (edges_le _ _ Rr).
  unfold emits, run_emit, emitLineSource8888_pre. rewrite Gd. mred.
  set (src ra v := blendSrc8888_pre (_calpha rdr) ra (_cred rdr) (_cgreen rdr) (_cblue rdr) v).
  rewrite El, Er. unfold inner_width. fold (edges (_el_lfrac rdr)) (edges (_el_rfrac rdr)).
  unfold emit_pixel. change 0x10000 with 65536.
  destruct (Z.eqb_spec frac 65536) as [E|E].
  - set (px := pack _ _ _ _).
    use_emit_shape (fun _ _ : Z => src (255 - (_el_lfrac rdr >> 8))) (fun _ _ _ : Z => px)
      (fun _ _ : Z => src (255 - (_el_rfrac rdr >> 8))) m' Hm'; [by intros..|].
    exists m'. split; [done|]. eapply rect_update_ext; [|done|exact Hm'].
    intros i v j c Hv Hj Hc. cbv beta. rewrite by_column_edge by lia.
    unfold by_column, px. rewrite !shiftr_div by lia.
    assert (Hp : forall x, is_byte x -> i32 ((_calpha rdr + 1) * x) = (_calpha rdr + 1) * x).
    { unfold is_byte in *. intros x Hx. apply i32_id. unfold in_i32. nia. }
    by rewrite !Hp.
  - use_emit_shape (fun _ _ : Z => src (255 - (_el_lfrac rdr * frac / 65536 >> 8)))
      (fun _ _ : Z => src (255 - (frac >> 8)))
      (fun _ _ : Z => src (255 - (_el_rfrac rdr * frac / 65536 >> 8))) m' Hm'; [by intros..|].
    exists m'. split; [done|]. eapply rect_update_ext; [|done|exact Hm'].
    intros i v j c Hv Hj Hc. cbv beta. rewrite !shiftr_div by lia.
    unfold edge_col. by repeat case_match.
Qed.

Lemma emit_PTSource_ok : pt = true -> emits rdr height frac m EmitLinePTSource8888_pre.
Proof using Hr.
  intros Hpt. pose proof Hr as [Hg Hf Hl Hrf He _ _ _ _ _ _ _].
  destruct (geometry_bound _ _ _ Hg) as (Hs & _). pose proof Hg as [Gd _ _ _ Gw _ _ _ _ _].
  destruct (scale_frac_ok _ _ Hl Hf) as [El Rl]. destruct (scale_frac_ok _ _ Hrf Hf) as [Er Rr].
  set (l := _el_lfrac rdr * frac / 65536) in *. set (r := _el_rfrac rdr * frac / 65536) in *.
  pose proof (edges_range l). pose proof (edges_range r).
  pose proof (edges_le _ _ Rl). pose proof (edges_le _ _ Rr).
  unfold emits, run_emit, emitLinePTSource8888_pre. rewrite Gd. mred.
  rewrite El, Er. unfold inner_width. fold (edges l) (edges r).
  set (src ra j c v := let p := paint_at rdr j c in
         blendSrc8888_pre_pre (A p) ra (R p) (G p) (B p) v).
  use_emit_shape (src (255 - (l >> 8)))
    (fun j c v => if frac =? 65536 then paint_at rdr j c else src (255 - (frac >> 8)) j c v)
    (src (255 - (r >> 8))) m' Hm'.
  - intros j v Hj. destruct (emit_paint_at j 0) as (Hp & _); [done|done|lia|].
    rewrite Z.add_0_r in Hp. by rewrite Hp.
  - intros j k v Hj Hk. destruct (emit_paint_at j k) as (Hp & _); [done..|].
    change 0x10000 with 65536. destruct (frac =? 65536); by rewrite Hp.
  - intros j k v Hj Hk. destruct (emit_paint_at j k) as (Hp & _); [done..|]. by rewrite Hp.
  - exists m'. split; [done|]. eapply rect_update_ext; [|done|exact Hm'].
    intros i v j c Hv Hj Hc. cbv beta.
    rewrite by_column_edge by lia. unfold emit_pixel, src. by rewrite !shiftr_div by lia.
Qed.

Lemma emit_PTSourceOver_ok : pt = true -> emits rdr height frac m EmitLinePTSourceOver8888_pre.
Proof using Hr.
  intros Hpt. pose proof Hr as [Hg Hf Hl Hrf He _ _ _ _ _ _ Hpx]. specialize (Hpx Hpt).
  destruct (geometry_bound _ _ _ Hg) as (Hs & _). pose proof Hg as [Gd _ _ _ Gw _ _ _ _ _].
  destruct (scale_frac_ok _ _ Hl Hf) as [El Rl]. destruct (scale_frac_ok _ _ Hrf Hf) as [Er Rr].
  set (l := _el_lfrac rdr * frac / 65536) in *. set (r := _el_rfrac rdr * frac / 65536) in *.
  pose proof (edges_range l). pose proof (edges_range r).
  pose proof (edges_le _ _ Rl). pose proof (edges_le _ _ Rr).
  unfold emits, run_emit, emitLinePTSourceOver8888_pre. rewrite Gd. mred.
  rewrite El, Er. unfold inner_width. fold (edges l) (edges r).
  set (over f j c v := let p := paint_at rdr j c in
         blendSrcOver8888_pre_pre f (A p) (R p) (G p) (B p) v).
  use_emit_shape (over (l >> 8))
    (fun j c v => let p := paint_at rdr j c in
       if frac =? 65536 then
         if A p =? 0 then v else if A p =? 255 then p
         else blendSrcOver8888_pre_pre_fullFrac (A p) (R p) (G p) (B p) v
       else over (frac >> 8) j c v)
    (over (r >> 8)) m' Hm'.
  - intros j v Hj. destruct (emit_paint_at j 0) as (Hp & _); [done|done|lia|].
    rewrite Z.add_0_r in Hp. by rewrite Hp.
  - intros j k v Hj Hk. destruct (emit_paint_at j k) as (Hp & _); [done..|].
    change 0x10000 with 65536. destruct (frac =? 65536); by rewrite Hp.
  - intros j k v Hj Hk. destruct (emit_paint_at j k) as (Hp & _); [done..|]. by rewrite Hp.
  - exists m'. split; [done|]. eapply rect_update_ext; [|done|exact Hm'].
    intros i v j c Hv Hj Hc. destruct (emit_paint_at j c) as (_ & Hp & Hm); [done..|].
    cbv beta. rewrite by_column_edge by lia. unfold emit_pixel, over. fold l r.
    rewrite !shiftr_div by lia. destruct (Z.eqb_spec frac 65536) as [->|]; [|].
    + change (65536 / 256) with 256. cbv zeta. rewrite fullFrac_pixel by eauto.
      unfold by_column. by repeat case_match.
    + unfold by_column. by repeat case_match.
Qed.
End emit_specs.

Lemma emit_ok e rdr height frac m :
  emit_ready (uses_paint e) rdr height frac m -> emits rdr height frac m e.
Proof.
  intros H. destruct e.
  - by eapply emit_Source_ok.
  - by eapply emit_SourceOver_ok.
  - by eapply emit_PTSource_ok.
  - by eapply emit_PTSourceOver_ok.
Qed.

(** ** Theorems about the emitLine routines *)

(** C35: called on rows inside the pixel buffer, each of the four emitLine
    routines returns, writes every pixel of the rectangle of touched columns
    and [height] rows exactly according to [emit_pixel], and changes no pixel
    outside it and no other field of the renderer. *)
Theorem emitLine_spec e rdr height frac m :
  emit_ready (uses_paint e) rdr height frac m ->
  exists m', run_emit e rdr height frac = Some (set_data (Some m') rdr) /\
    pointwise m m' (rect_update rdr height (emit_pixel e rdr frac)).
Proof.
  apply emit_ok.
Qed.

(** A 4 by 3 surface, rows 1 and 2, columns 1 and 2. *)
Definition sample_renderer (m : list Z) : Renderer :=
  zero_renderer <| set_data := Some m |> <| set_imageScanlineStride := 4 |>
    <| set_imagePixelStride := 1 |> <| set_currImageOffset := 4 |>
    <| set_minTouched := 1 |> <| set_maxTouched := 2 |> <| set_alphaWidth := 2 |>
    <| set_el_lfrac := 0x8000 |> <| set_calpha := 255 |> <| set_cred := 200 |>
    <| set_cgreen := 100 |> <| set_cblue := 50 |> <| set_paint := [0; -1; -1; 0] |>.

Lemma sample_geometry : row_geometry (sample_renderer (replicate 12 0)) 2 (replicate 12 0).
Proof. split; vm_compute; repeat split; discriminate. Qed.

Lemma sample_ready pt : emit_ready pt (sample_renderer (replicate 12 0)) 2 0x10000 (replicate 12 0).
Proof.
  split; [apply sample_geometry|vm_compute; repeat split; discriminate..| |].
  - intros _ i p. apply (aget_Forall (fun p => in_i32 p /\ premultiplied p)).
    change (_paint _) with [0; -1; -1; 0]. forall_list.
  - intros _ i v. apply (aget_Forall in_i32). forall_list.
Qed.

Lemma emitLine_spec_witness :
  exists m', run_emit EmitLineSourceOver8888_pre (sample_renderer (replicate 12 0)) 2 0x10000 =
               Some (set_data (Some m') (sample_renderer (replicate 12 0))) /\
    aget m' 5 = Some (blendSrcOver8888_pre 128 200 100 50 0) /\
    aget m' 6 = Some (pack 255 200 100 50) /\ aget m' 7 = Some 0.
Proof.
  destruct (emitLine_spec EmitLineSourceOver8888_pre _ _ _ _ (sample_ready _)) as (m' & E & Hm').
  exists m'. split; [exact E|]. rewrite !Hm'. vm_compute. repeat split; reflexivity.
Defined.

Lemma by_column_ind {T} (P : T -> Prop) rdr l r c left right mid :
  P left -> P right -> P mid -> P (by_column rdr l r c left right mid).
Proof. intros. unfold by_column. by repeat case_match. Qed.

Definition sound_pixel (v : Z) : Prop := in_i32 v /\ premultiplied v.

Lemma rect_update_inv (P : Z -> Prop) rdr height m m' col :
  pointwise m m' (rect_update rdr height col) -> 0 < _imageScanlineStride rdr ->
  (forall i v, aget m i = Some v -> P v) ->
  (forall j c v, 0 <= j < height -> 0 <= c < _alphaWidth rdr -> P v -> P (col j c v)) ->
  forall i v, aget m' i = Some v -> P v.
Proof.
  intros Hm Hs HP Hc i v' Hv. rewrite Hm in Hv.
  destruct (aget m i) as [v|] eqn:E; simpl in Hv; simplify_eq.
  unfold rect_update, rect_fn. pose proof (Z.mod_pos_bound (i - rect_origin rdr) _ Hs).
  case_bools; eauto. apply Hc; eauto; lia.
Qed.

Lemma blendSrcOver_sound aval r g b v :
  is_byte aval -> is_byte r -> is_byte g -> is_byte b -> sound_pixel v ->
  sound_pixel (blendSrcOver8888_pre aval r g b v).
Proof.
  intros Ha Hr Hg Hb [_ (?&?&?)]. split; [apply pack_range|].
  destruct (blendSrcOver_channels aval r g b v Ha Hr Hg Hb) as (EA & ER & EG & EB).
  destruct (channel_range v) as (?&?&?&?). unfold premultiplied, is_byte in *.
  rewrite EA, ER, EG, EB. split_and!; apply over_channel_premultiplied; lia.
Qed.

Lemma blendSrcOver_pre_pre_sound f p v :
  0 <= f <= 256 -> premultiplied p -> sound_pixel v ->
  sound_pixel (blendSrcOver8888_pre_pre f (A p) (R p) (G p) (B p) v).
Proof.
  intros Hf (?&?&?) [_ Hv]. split; [apply pack_range|].
  destruct (channel_range p) as (?&?&?&?). unfold is_byte in *.
  edestruct (blendSrcOver_pre_pre_channels f (A p) (R p) (G p) (B p) v)
    as (_ & _ & _ & _ & Hp); unfold is_byte; try lia; done.
Qed.

(** The source-over routines keep the whole surface premultiplied: if no
    colour channel of any pixel exceeds its alpha before the call, none does
    after it. *)
Theorem emitLine_over_premultiplied e rdr height frac m :
  e = EmitLineSourceOver8888_pre \/ e = EmitLinePTSourceOver8888_pre ->
  emit_ready (uses_paint e) rdr height frac m -> (forall i v, aget m i = Some v -> sound_pixel v) ->
  exists m', run_emit e rdr height frac = Some (set_data (Some m') rdr) /\
    (forall i v, aget m' i = Some v -> sound_pixel v).
Proof.
  intros He Hr Hp.
  destruct (emit_ok e rdr height frac m Hr) as (m' & E & Hm'). exists m'. split; [done|]. intros i v Hv.
  pose proof Hr as [Hg Hf Hl Hrf _ Ha Hred Hgreen Hblue _ _ _].
  eapply (rect_update_inv sound_pixel); [exact Hm'|by apply (geometry_bound _ _ _ Hg)| | |exact Hv].
  { exact Hp. }
  intros j c v0 Hj Hc Hs. destruct He as [->| ->]; unfold emit_pixel.
  - destruct (alpha_frac _ _ Ha Hf) as [_ Ra].
    assert (Hb : is_byte (_calpha rdr * frac / 65536)) by (unfold is_byte in *; lia).
    destruct (mul_frac_small _ _ Hl Hb) as [_ ?]. destruct (mul_frac_small _ _ Hrf Hb) as [_ ?].
    apply blendSrcOver_sound; auto. unfold is_byte in *.
    apply by_column_ind; [case_match; dlia..|lia].
  - destruct (emit_paint_at true rdr height frac m Hr j c eq_refl Hj Hc) as (_ & _ & Hpm).
    destruct (scale_frac_ok _ _ Hl Hf) as [_ ?]. destruct (scale_frac_ok _ _ Hrf Hf) as [_ ?].
    apply blendSrcOver_pre_pre_sound; auto. apply by_column_ind; dlia.
Qed.

Lemma emitLine_over_premultiplied_witness :
  exists m', run_emit EmitLinePTSourceOver8888_pre (sample_renderer (replicate 12 0)) 2 0x10000 =
      Some (set_data (Some m') (sample_renderer (replicate 12 0))) /\
    (forall i v, aget m' i = Some v -> sound_pixel v).
Proof.
  apply (emitLine_over_premultiplied EmitLinePTSourceOver8888_pre _ _ _ (replicate 12 0)).
  - right. reflexivity.
  - apply sample_ready.
  - intros i v. apply (aget_Forall sound_pixel). forall_list.
Defined.

(** The "source" routine passes the colour's alpha to the blend without
    scaling it by the coverage of an edge pixel.  Filling opaque white over
    opaque white with a half-covered left edge gives the edge pixel alpha 125
    and overflowing colour channels instead of leaving it opaque white. *)
Example emitLineSource_edge_overflow :
  let rdr := (sample_renderer (replicate 12 (-1))) <| set_cred := 255 |>
               <| set_cgreen := 255 |> <| set_cblue := 255 |> in
  (rdr' ← emitLineSource8888_pre rdr 1 0x10000; m ← _data rdr'; A <$> aget m 5) = Some 125.
Proof. vm_compute. reflexivity. Qed.

(** With a partly covered row the same routine scales the edge fractions after
    it has computed the inner width from the unscaled ones: if the scaled left
    fraction is zero, the last column of the rectangle is not painted. *)
Example emitLineSource_drops_column :
  let rdr := (sample_renderer (replicate 12 0)) <| set_el_lfrac := 1 |> in
  (rdr' ← emitLineSource8888_pre rdr 1 0x8000; m ← _data rdr'; aget m 6) = Some 0 /\
  (rdr' ← emitLineSource8888_pre (rdr <| set_el_lfrac := 0 |>) 1 0x8000;
   m ← _data rdr'; A <$> aget m 6) = Some 255.
Proof. vm_compute. split; reflexivity. Qed.
