(* ===== verification/PiscesBlitSpec.v ===== *)
(** * Blits under a coverage row or a mask

    What the blit routines of PiscesBlit.c do to each pixel: a source-over
    blit composites the colour (or the paint pixel) with the coverage given by
    the delta-coded row or the byte mask, in one formula for all the branches
    of the loop body; a "source" blit mixes in proportion to the coverage.
    The delta-coded row is consumed: it reads as zero afterwards. *)

From S2P Require Import Prelude Float32 PiscesPixel PiscesState PiscesBlit.

(** ** Loop lemmas *)

(** Sum of the first [k] deltas. *)
Definition psum (alpha : list Z) (k : Z) : Z := foldr Z.add 0 (take (Z.to_nat k) alpha).

Lemma psum_0 alpha : psum alpha 0 = 0.
Proof. done. Qed.

Lemma foldr_add_app l x : foldr Z.add 0 (l ++ [x]) = foldr Z.add 0 l + x.
Proof. induction l as [|y l IH]; simpl; [lia|]. rewrite IH. lia. Qed.

Lemma psum_snoc alpha k d : 0 <= k -> aget alpha k = Some d -> psum alpha (k + 1) = psum alpha k + d.
Proof.
  intros Hk Hd. unfold psum. rewrite aget_lookup in Hd by done.
  replace (Z.to_nat (k + 1)) with (S (Z.to_nat k)) by lia.
  rewrite (take_S_r _ _ _ Hd). apply foldr_add_app.
Qed.

Lemma touched_width_geo rdr height m : row_geometry rdr height m -> 1 <= height ->
  touched_width rdr = _alphaWidth rdr.
Proof.
  intros Hg Hh. pose proof Hg as [Gd Gp Gh Gmin Gw Gmax Gst Go Ge Gl]. unfold touched_width. rewrite Gmax, Z.geb_leb.
  assert (_imageScanlineStride rdr < 2 ^ 31) by nia.
  case_bool; [|lia]. rewrite i32_id by (unfold in_i32; lia). lia.
Qed.

(** The inner loop of a row under the coverage deltas [alpha]. *)
Lemma alpha_row_ok (P : Z -> Prop) rdr p n alpha m (act : Z -> Z -> Z -> list Z -> option (list Z)) col :
  _imagePixelStride rdr = 1 ->
  0 <= p -> p + n <= alen m -> alen m < 2 ^ 31 -> 0 <= n <= alen alpha ->
  (forall i v, aget m i = Some v -> P v) ->
  (forall k, 0 <= k < n -> in_i32 (psum alpha (k + 1))) ->
  (forall k, 0 <= k < n -> acts_as P (act k (psum alpha (k + 1))) (col k)) ->
  exists s m' alpha',
    for_lt n
      (fun a '(iidx, aval_relative, m, alpha) =>
         d ← aget alpha a;
         alpha ← aset alpha a 0;
         m ← act a (i32 (aval_relative + d)) iidx m;
         Some (i32 (iidx + _imagePixelStride rdr), i32 (aval_relative + d), m, alpha))
      (p, 0, m, alpha) = Some (p + n, s, m', alpha') /\
    pointwise m m' (span_fn p n col) /\
    pointwise alpha alpha' (fun i v => if i <? n then 0 else v).
Proof.
  intros Hps Hp Hr Hlen Hn HP Hs Hact. rewrite Hps.
  destruct (for_lt_inv
    (fun k '(iidx, rel, m1, al) => iidx = p + k /\ rel = psum alpha k /\
       pointwise m m1 (span_fn p k col) /\
       pointwise alpha al (fun i v => if i <? k then 0 else v))
    n
    (fun a '(iidx, aval_relative, m, alpha) =>
         d ← aget alpha a;
         alpha ← aset alpha a 0;
         m ← act a (i32 (aval_relative + d)) iidx m;
         Some (i32 (iidx + 1), i32 (aval_relative + d), m, alpha))
    (p, 0, m, alpha)) as ([[[iidx rel] m'] al] & -> & (-> & -> & Hm & Ha)).
  - split_and!; [lia|done| |].
    + eapply pointwise_ext; [|apply pointwise_refl]. intros. by rewrite span_fn_0.
    + eapply pointwise_ext; [|apply pointwise_refl]. intros i v Hv.
      apply aget_Some_range in Hv. case_bools; done.
  - intros k [[[iidx rel] m1] al] Hk (-> & -> & Hm & Ha).
    destruct (aget_ex alpha k) as [d Hd]; [lia|].
    assert (Hd' : aget al k = Some d) by (rewrite Ha, Hd; simpl; case_bools; done).
    rewrite Hd'. mred. rewrite <- (psum_snoc alpha k d) by (done || lia).
    rewrite (i32_id (psum alpha (k + 1))) by (by apply Hs).
    destruct (aset_ok al k 0) as (al' & -> & Hal').
    { rewrite (pointwise_alen _ _ _ Ha). lia. }
    mred. destruct (span_act P m m1 p k col (act k (psum alpha (k + 1)))) as (m2 & -> & Hm2);
      [lia..|eauto|done|by apply Hact|].
    mred. eexists; split; [done|]. cbv zeta. split_and!; [|done|done|].
    + rewrite i32_id by (unfold in_i32; lia). lia.
    + intros i. rewrite Hal', Ha. destruct (Z.eqb_spec i k) as [->|].
      * rewrite Hd. simpl. case_bools; done.
      * destruct (aget alpha i); simpl; [|done]. f_equal. case_bools; done.
  - replace (Z.max 0 n) with n in * by lia. eauto 8.
Qed.

(** A blit of one row under the coverage deltas. *)
Lemma blit_alpha_ok (P : Z -> Prop) rdr m act col :
  (forall i v, aget m i = Some v -> P v) -> row_geometry rdr 1 m -> _alphaWidth rdr <= alen (_rowAAInt rdr) ->
  (forall k, 0 <= k < _alphaWidth rdr -> in_i32 (psum (_rowAAInt rdr) (k + 1))) ->
  (forall k, 0 <= k < _alphaWidth rdr -> acts_as P (act k (psum (_rowAAInt rdr) (k + 1))) (col k)) ->
  exists m' alpha',
    blit_alpha_rows rdr 1 act = Some (set_rowAAInt alpha' (set_data (Some m') rdr)) /\
    pointwise m m' (rect_update rdr 1 (fun _ => col)) /\
    pointwise (_rowAAInt rdr) alpha' (fun i v => if i <? _alphaWidth rdr then 0 else v).
Proof.
  intros HP Hg Hl Hs Hact. destruct (geometry_row _ _ _ 0 Hg) as (Hstart & H0 & Hend); [lia|].
  destruct (geometry_bound _ _ _ Hg) as (Hst & ? & _). pose proof Hg as [Gd Gp Gh Gmin Gw Gmax Gst Go Ge Gl].
  rewrite Z.mul_0_l, !Z.add_0_r in *.
  unfold blit_alpha_rows. rewrite Gd. mred.
  rewrite for_lt_1. cbv beta iota zeta.
  rewrite Hstart, (touched_width_geo _ _ _ Hg) by lia.
  destruct (alpha_row_ok P rdr (rect_origin rdr) (_alphaWidth rdr) (_rowAAInt rdr) m act col)
    as (s & m' & al' & -> & Hm & Ha); try done; try lia.
  mred. exists m', al'. split_and!; [done| |done].
  eapply pointwise_ext; [|exact Hm]. intros i v _. unfold rect_update.
  rewrite <- (rect_fn_step _ _ _ 0), rect_fn_0, Z.mul_0_l, Z.add_0_r by lia. done.
Qed.

(** A blit of rows under a mask. *)
Lemma blit_mask_ok (P : Z -> Prop) rdr height step bytes mask m act col :
  (forall i v, aget m i = Some v -> P v) -> (forall j c v, P v -> P (col j c v)) ->
  row_geometry rdr height m -> 1 <= height -> _mask_byteData rdr = Some mask ->
  0 <= _maskOffset rdr -> 0 <= step -> _maskOffset rdr + height * step < 2 ^ 31 ->
  (forall j k, 0 <= j < height -> 0 <= k < _alphaWidth rdr ->
     acts_as P (act mask k (_maskOffset rdr + j * step + bytes * k)) (col j k)) ->
  exists m',
    blit_mask_rows rdr height step bytes act = Some (set_data (Some m') rdr) /\
    pointwise m m' (rect_update rdr height col).
Proof.
  intros HP Hcol Hg Hh Hmask Hmo Hst Hb Hact. pose proof (geometry_bound _ _ _ Hg) as (? & ? & ? & ?).
  unfold blit_mask_rows. pose proof Hg as [Gd Gp Gh Gmin Gw Gmax Gst Go Ge Gl]. rewrite Gd, Hmask. mred.
  rewrite (touched_width_geo _ _ _ Hg) by lia.
  destruct (for_lt_inv
    (fun j '(o, ao, m1) => o = _currImageOffset rdr + j * _imageScanlineStride rdr /\
       ao = _maskOffset rdr + j * step /\ pointwise m m1 (rect_update rdr j col))
    height
    (fun _ '(imageOffset, alphaOffset, m) =>
         '(_, m) ←
           for_lt (_alphaWidth rdr)
             (fun aidx '(iidx, m) =>
                m ← act mask aidx (alphaOffset + bytes * aidx) iidx m;
                Some (i32 (iidx + _imagePixelStride rdr), m))
             (row_start rdr imageOffset, m);
         Some (i32 (imageOffset + _imageScanlineStride rdr), i32 (alphaOffset + step), m))
    (_currImageOffset rdr, _maskOffset rdr, m)) as ([[o ao] m'] & -> & (_ & _ & Hm)).
  - split_and!; [lia..|]. eapply pointwise_ext; [|apply pointwise_refl].
    intros. unfold rect_update. by rewrite rect_fn_0.
  - intros j [[o ao] m1] Hj (-> & -> & Hm).
    destruct (geometry_row _ _ _ j Hg Hj) as (-> & Hp & Hend). rewrite Gp.
    destruct (for_lt_inv
      (fun k '(iidx, m2) => iidx = rect_origin rdr + j * _imageScanlineStride rdr + k /\
         pointwise m1 m2 (span_fn (rect_origin rdr + j * _imageScanlineStride rdr) k (col j)))
      (_alphaWidth rdr)
      (fun aidx '(iidx, m) =>
                m ← act mask aidx (_maskOffset rdr + j * step + bytes * aidx) iidx m;
                Some (i32 (iidx + 1), m))
      (rect_origin rdr + j * _imageScanlineStride rdr, m1)) as ([iidx m2] & -> & (_ & Hm2)).
    + split; [lia|]. eapply pointwise_ext; [|apply pointwise_refl]. intros. by rewrite span_fn_0.
    + intros k [iidx m2] Hk (-> & Hm2).
      destruct (span_act P m1 m2 (rect_origin rdr + j * _imageScanlineStride rdr) k (col j)
         (act mask k (_maskOffset rdr + j * step + bytes * k))) as (m3 & -> & Hm3);
        [lia|lia| | |done|by apply Hact|].
      { rewrite (pointwise_alen _ _ _ Hm). lia. }
      { intros v. eapply (rect_update_inv P); eauto. }
      mred. eexists; split; [done|]. split; [|done]. rewrite i32_id by (unfold in_i32; lia). lia.
    + mred. eexists; split; [done|].
      assert (0 <= j * _imageScanlineStride rdr <= height * _imageScanlineStride rdr - _imageScanlineStride rdr) by nia.
      assert (0 <= j * step <= height * step - step) by nia.
      rewrite !i32_id by (unfold in_i32; lia). split_and!; [lia..|].
      replace (Z.max 0 (_alphaWidth rdr)) with (_alphaWidth rdr) in Hm2 by lia.
      eapply pointwise_ext; [|exact (pointwise_trans _ _ _ _ _ Hm Hm2)].
      intros i v _. apply rect_fn_step; lia.
  - mred. exists m'. split; [done|]. by replace (Z.max 0 height) with height in Hm by lia.
Qed.

(** ** What the loop bodies do to one pixel *)

(** Everything the blits need besides the geometry; [pt] asks for a paint row. *)
Record blit_ready (pt : bool) (rdr : Renderer) (m : list Z) : Prop := {
  br_alpha : is_byte (_calpha rdr);
  br_red : is_byte (_cred rdr);
  br_green : is_byte (_cgreen rdr);
  br_blue : is_byte (_cblue rdr);
  br_paint : pt = true -> _alphaWidth rdr <= alen (_paint rdr);
  br_paint_pre : pt = true -> forall i p, aget (_paint rdr) i = Some p -> sound_pixel p;
  br_pixels : forall i v, aget m i = Some v -> sound_pixel v
}.

(** Source-over at coverage [cov]/255 with the current colour or with the
    paint pixel [p]. *)
Definition over_pixel (rdr : Renderer) (cov v : Z) : Z :=
  blendSrcOver8888_pre (i32 ((cov + 1) * _calpha rdr) >> 8) (_cred rdr) (_cgreen rdr) (_cblue rdr) v.

Definition pt_over_pixel (p cov v : Z) : Z :=
  blendSrcOver8888_pre_pre (cov + 1) (A p) (R p) (G p) (B p) v.

(** Coverage that rounds to no alpha leaves the pixel as it is. *)
Lemma pt_over_zero p cov v : sound_pixel p -> is_byte cov -> in_i32 v ->
  i32 ((cov + 1) * A p) >> 8 = 0 -> pt_over_pixel p cov v = v.
Proof.
  intros [_ (?&?&?)] Hc Hv Hz. destruct (channel_range p) as (Ba & Br & Bg & Bb).
  unfold pt_over_pixel, blendSrcOver8888_pre_pre. rewrite Z.mul_comm in Hz.
  assert (Hs0 : forall s, 0 <= s <= A p -> i32 (s * (cov + 1)) >> 8 = 0).
  { unfold is_byte in *. intros s Hs.
    destruct (scale256 s (cov + 1)) as [-> ?]; [unfold is_byte; lia|lia|].
    destruct (scale256 (A p) (cov + 1)) as [Ea ?]; [done|lia|].
    pose proof (scale256_mono s (A p) (cov + 1) Hs ltac:(lia)). lia. }
  unfold is_byte in *. rewrite Hz, !Hs0 by lia.
  destruct (channel_range v) as (?&?&?&?). unfold is_byte in *.
  fold (A v) (R v) (G v) (B v). change (255 - 0) with 255.
  rewrite !Z.add_0_l, !div255_mul by lia. by apply pack_unpack.
Qed.

Lemma alpha_256 a : is_byte a -> i32 ((0 + 1) * a) >> 8 = 0.
Proof. unfold is_byte. intros. rewrite i32_id by (unfold in_i32; lia). bits_to_arith. dlia. Qed.

Section acts.
Context (pt : bool) (rdr : Renderer) (m : list Z) (Hb : blit_ready pt rdr m).

Lemma src_over_act_ok cov : is_byte cov ->
  acts_as sound_pixel (src_over_act rdr cov) (over_pixel rdr cov).
Proof using Hb.
  intros Hc. destruct Hb. destruct (coverage_alpha cov (_calpha rdr)) as [Hr _]; [done..|].
  unfold src_over_act, over_pixel. set (aval := i32 ((cov + 1) * _calpha rdr) >> 8) in *.
  unfold MAX_ALPHA. destruct (Z.eqb_spec aval 255) as [E|].
  { apply acts_as_aset. intros v _. rewrite E. by apply blendSrcOver_pre_255. }
  destruct (Z.ltb_spec 0 aval); [by apply acts_as_aupd|].
  apply acts_as_skip. intros v [Hv _]. replace aval with 0 by lia. by apply blendSrcOver_pre_0.
Qed.

Lemma src_over_skip_ok : acts_as sound_pixel (fun _ m => Some m) (over_pixel rdr 0).
Proof using Hb.
  apply acts_as_skip. intros v [Hv _]. destruct Hb. unfold over_pixel.
  rewrite alpha_256 by done. by apply blendSrcOver_pre_0.
Qed.

Lemma pt_src_over_act_ok p cov : sound_pixel p -> is_byte cov ->
  acts_as sound_pixel (pt_src_over_act p cov) (pt_over_pixel p cov).
Proof using.
  intros Hp Hc. pose proof Hp as [Hp1 _]. destruct (channel_range p) as (Ba & Br & Bg & Bb).
  destruct (coverage_alpha cov (A p)) as [Hr1 Hr2]; [done..|].
  unfold pt_src_over_act. set (aval := i32 ((cov + 1) * A p) >> 8) in *.
  unfold MAX_ALPHA. destruct (Z.eqb_spec aval 255) as [E|].
  { apply acts_as_aset. intros v Hv. assert (Ha : A p = 255) by (unfold is_byte in *; lia).
    unfold pt_over_pixel. replace (cov + 1) with 256 by (unfold is_byte in *; lia).
    rewrite <- fullFrac_256, Ha by done. by apply fullFrac_opaque. }
  destruct (Z.ltb_spec 0 aval).
  { apply acts_as_aupd. intros v _. unfold pt_over_pixel. reflexivity. }
  apply acts_as_skip. intros v [Hv _]. apply pt_over_zero; [done..|fold aval; lia].
Qed.

Lemma pt_src_over_skip_ok p : sound_pixel p ->
  acts_as sound_pixel (fun _ m => Some m) (pt_over_pixel p 0).
Proof using.
  intros Hp. apply acts_as_skip. intros v [Hv _]. apply pt_over_zero;
    [done|unfold is_byte; lia|done|apply alpha_256, A_range].
Qed.

Lemma blit_paint_at c : pt = true -> 0 <= c < _alphaWidth rdr ->
  aget (_paint rdr) c = Some (paint_at rdr 0 c) /\ sound_pixel (paint_at rdr 0 c).
Proof using Hb.
  intros Hpt Hc. destruct Hb. specialize (br_paint0 Hpt). unfold paint_at. rewrite Z.mul_0_l, Z.add_0_l.
  destruct (aget_ex (_paint rdr) c) as [p Hp]; [lia|]. rewrite Hp. simpl. eauto.
Qed.

(** Source-over keeps pixels sound. *)
Lemma over_pixel_sound cov v : is_byte cov -> sound_pixel v -> sound_pixel (over_pixel rdr cov v).
Proof using Hb.
  intros Hc Hv. destruct Hb as [Ha ? ? ? _ _ _].
  destruct (coverage_alpha cov (_calpha rdr) Hc Ha) as [? ?].
  unfold over_pixel. apply blendSrcOver_sound; [unfold is_byte in *; lia|assumption..].
Qed.

Lemma pt_over_pixel_sound p cov v :
  is_byte cov -> sound_pixel p -> sound_pixel v -> sound_pixel (pt_over_pixel p cov v).
Proof using.
  unfold is_byte. intros Hc [_ Hp] Hv. unfold pt_over_pixel.
  apply blendSrcOver_pre_pre_sound; [lia|assumption..].
Qed.
End acts.

(** ** Source-over under the coverage row *)

(** Coverage of column [c]: the alpha map at the running sum of the deltas. *)
Definition row_coverage (rdr : Renderer) (c : Z) : Z :=
  default 0 (aget (alphaMap rdr) (psum (_rowAAInt rdr) (c + 1))) & 0xff.

Record coverage_ready (rdr : Renderer) : Prop := {
  cr_len : _alphaWidth rdr <= alen (_rowAAInt rdr);
  cr_sum : forall k, 0 <= k < _alphaWidth rdr ->
    0 <= psum (_rowAAInt rdr) (k + 1) < alen (alphaMap rdr);
  cr_map : alen (alphaMap rdr) < 2 ^ 31;
  cr_zero : aget (alphaMap rdr) 0 = Some 0
}.

Definition over_by (pt : bool) (rdr : Renderer) (c cov v : Z) : Z :=
  if pt then pt_over_pixel (paint_at rdr 0 c) cov v else over_pixel rdr cov v.

Lemma land_byte x : is_byte (x & 0xff).
Proof. unfold is_byte. rewrite land_255. dlia. Qed.

Lemma row_over_act rdr m (pt : bool) k : blit_ready pt rdr m -> coverage_ready rdr -> 0 <= k < _alphaWidth rdr ->
  acts_as sound_pixel
    (fun iidx m =>
       if pt then
         cval ← aget (_paint rdr) k;
         if ctrue (psum (_rowAAInt rdr) (k + 1)) then
           c ← aget (alphaMap rdr) (psum (_rowAAInt rdr) (k + 1));
           pt_src_over_act cval (c & 0xff) iidx m
         else Some m
       else
         if ctrue (psum (_rowAAInt rdr) (k + 1)) then
           c ← aget (alphaMap rdr) (psum (_rowAAInt rdr) (k + 1));
           src_over_act rdr (c & 0xff) iidx m
         else Some m)
    (fun v => over_by pt rdr k (row_coverage rdr k) v).
Proof.
  intros Hb [Hl Hs Hm Hz] Hk. unfold row_coverage, over_by. destruct (aget_ex (alphaMap rdr) (psum (_rowAAInt rdr) (k + 1))) as [c Hc]; [auto|].
  destruct pt; [destruct (blit_paint_at true rdr m Hb k eq_refl Hk) as [Hp Hsp]; rewrite Hp|]; rewrite Hc;
    destruct (ctrue (psum (_rowAAInt rdr) (k + 1))) eqn:Et.
  - exact (pt_src_over_act_ok _ _ Hsp (land_byte c)).
  - unfold ctrue in Et. apply negb_false_iff, Z.eqb_eq in Et. rewrite Et in Hc.
    rewrite Hz in Hc. simplify_eq. exact (pt_src_over_skip_ok _ Hsp).
  - exact (src_over_act_ok false rdr m Hb _ (land_byte c)).
  - unfold ctrue in Et. apply negb_false_iff, Z.eqb_eq in Et. rewrite Et in Hc.
    rewrite Hz in Hc. simplify_eq. exact (src_over_skip_ok false rdr m Hb).
Qed.

(** A source-over blit of one row under the delta-coded coverage row, with
    the current colour or with the paint row: the routine returns, each pixel
    of the touched columns is composited once with the coverage found in the
    alpha map at the running sum of its deltas, no other pixel changes, and
    the deltas of the touched columns read as zero afterwards. *)
Theorem blit_row_over_spec (pt : bool) rdr m :
  row_geometry rdr 1 m -> blit_ready pt rdr m -> coverage_ready rdr ->
  exists m' alpha',
    (if pt then blitPTSrcOver8888_pre else blitSrcOver8888_pre) rdr 1 =
      Some (set_rowAAInt alpha' (set_data (Some m') rdr)) /\
    pointwise m m' (rect_update rdr 1 (fun _ c => over_by pt rdr c (row_coverage rdr c))) /\
    pointwise (_rowAAInt rdr) alpha' (fun i v => if i <? _alphaWidth rdr then 0 else v).
Proof.
  intros Hg Hb Hc. pose proof Hc as [Hl Hs Hm Hz].
  assert (Hi : forall k, 0 <= k < _alphaWidth rdr -> in_i32 (psum (_rowAAInt rdr) (k + 1))).
  { intros k Hk. specialize (Hs k Hk). unfold in_i32. lia. }
  destruct pt.
  - apply (blit_alpha_ok sound_pixel); try done; [exact (br_pixels _ _ _ Hb)|].
    intros k Hk. exact (row_over_act rdr m true k Hb Hc Hk).
  - apply (blit_alpha_ok sound_pixel); try done; [exact (br_pixels _ _ _ Hb)|].
    intros k Hk. exact (row_over_act rdr m false k Hb Hc Hk).
Qed.

(** A sub-pixel row of the sample surface: coverage 2/4 at the first column,
    full coverage at the second. *)
Definition sample_blit (m : list Z) : Renderer :=
  (sample_renderer m) <| set_rowAAInt := [2; 2; -4; 0] |>
    <| set_alphaMap := [0; 64; 128; 192; 255] |> <| set_paint := [-1; 0; -1; 0] |>.

Lemma sample_blit_ready pt : row_geometry (sample_blit (replicate 12 0)) 1 (replicate 12 0) /\
  blit_ready pt (sample_blit (replicate 12 0)) (replicate 12 0) /\
  coverage_ready (sample_blit (replicate 12 0)).
Proof.
  split_and!.
  - split; vm_compute; repeat split; discriminate.
  - split; [vm_compute; repeat split; discriminate..| |].
    + intros _ i p. apply (aget_Forall sound_pixel).
      change (_paint _) with [-1; 0; -1; 0]. forall_list.
    + intros i v. apply (aget_Forall sound_pixel). forall_list.
  - split; [vm_compute; discriminate| |vm_compute; reflexivity|reflexivity].
    change (_alphaWidth _) with 2. intros k Hk.
    assert (k = 0 \/ k = 1) as [->| ->] by lia; vm_compute; split; (discriminate || reflexivity).
Qed.

Lemma blit_row_over_spec_witness :
  exists m' alpha',
    blitSrcOver8888_pre (sample_blit (replicate 12 0)) 1 =
      Some (set_rowAAInt alpha' (set_data (Some m') (sample_blit (replicate 12 0)))) /\
    aget m' 5 = Some (blendSrcOver8888_pre 128 200 100 50 0) /\
    aget m' 6 = Some (pack 255 200 100 50) /\ aget m' 7 = Some 0 /\ alpha' = [0; 0; -4; 0].
Proof.
  destruct (sample_blit_ready false) as (Hg & Hb & Hc).
  destruct (blit_row_over_spec false _ _ Hg Hb Hc) as (m' & alpha' & E & Hm & Ha).
  exists m', alpha'. split; [exact E|]. rewrite !Hm. split; [vm_compute; reflexivity|].
  split; [vm_compute; reflexivity|]. split; [vm_compute; reflexivity|].
  apply (pointwise_fun _ _ _ _ Ha). intros i. unfold aget.
  destruct (Z.ltb_spec i 0); [reflexivity|].
  destruct (Z.to_nat i) as [|[|[|[|n]]]] eqn:En; simpl; try reflexivity;
    case_bools; reflexivity.
Defined.

(** ** Source-over under a byte mask *)

(** The mask byte of row [j], column [c]. *)
Definition mask_coverage (pt : bool) (rdr : Renderer) (j c : Z) : Z :=
  let mask := default [] (_mask_byteData rdr) in
  default 0 (aget mask (_maskOffset rdr + j * (if pt then 0 else _alphaWidth rdr) + c)) & 0xff.

(** The mask is an array of (signed) Java bytes that holds the rows; the paint
    routine is called for one row at a time. *)
Record mask_ready (pt : bool) (rdr : Renderer) (height : Z) (mask : list Z) : Prop := {
  mr_mask : _mask_byteData rdr = Some mask;
  mr_bytes : forall i c, aget mask i = Some c -> -128 <= c <= 255;
  mr_off : 0 <= _maskOffset rdr;
  mr_height : 1 <= height;
  mr_one : pt = true -> height = 1;
  mr_room : _maskOffset rdr + height * _alphaWidth rdr <= alen mask;
  mr_len : alen mask < 2 ^ 31
}.

Lemma mask_index pt rdr height mask j k : mask_ready pt rdr height mask ->
  0 <= j < height -> 0 <= k < _alphaWidth rdr ->
  exists c, aget mask (_maskOffset rdr + j * (if pt then 0 else _alphaWidth rdr) + 1 * k) = Some c /\
    mask_coverage pt rdr j k = c & 0xff /\ (c = 0 -> mask_coverage pt rdr j k = 0) /\ -128 <= c <= 255.
Proof.
  intros [Hm Hby Ho Hh H1 Hr Hl] Hj Hk. unfold mask_coverage. rewrite Hm, Z.mul_1_l. simpl.
  edestruct (aget_ex mask (_maskOffset rdr + j * (if pt then 0 else _alphaWidth rdr) + k)) as [c Hc].
  { destruct pt; nia. }
  rewrite Hc. simpl. exists c. specialize (Hby _ _ Hc). split_and!; try done; try lia. by intros ->.
Qed.

Lemma paint_at_sound rdr m j c : blit_ready true rdr m -> sound_pixel (paint_at rdr j c).
Proof.
  intros [_ _ _ _ _ Hp _]. unfold paint_at.
  destruct (aget (_paint rdr) (j * _alphaWidth rdr + c)) as [p|] eqn:E; [exact (Hp eq_refl _ _ E)|].
  compute_true.
Qed.

Lemma over_by_sound pt rdr m k cov v : blit_ready pt rdr m ->
  is_byte cov -> sound_pixel v -> sound_pixel (over_by pt rdr k cov v).
Proof.
  intros Hb Hc Hv. unfold over_by. destruct pt.
  - exact (pt_over_pixel_sound _ _ _ Hc (paint_at_sound rdr m 0 k Hb) Hv).
  - exact (over_pixel_sound false rdr m Hb _ _ Hc Hv).
Qed.

Lemma mask_over_act (pt : bool) rdr height m mask j k :
  blit_ready pt rdr m -> mask_ready pt rdr height mask -> 0 <= j < height -> 0 <= k < _alphaWidth rdr ->
  let a := _maskOffset rdr + j * (if pt then 0 else _alphaWidth rdr) + 1 * k in
  acts_as sound_pixel
    (fun iidx m =>
       c ← aget mask a;
       if ctrue c then
         if pt then cval ← aget (_paint rdr) k; pt_src_over_act cval (c & 0xff) iidx m
         else src_over_act rdr (c & 0xff) iidx m
       else Some m)
    (over_by pt rdr k (mask_coverage pt rdr j k)).
Proof.
  intros Hb Hm Hj Hk a. destruct (mask_index pt rdr height mask j k Hm Hj Hk) as (c & Hc & Ec & E0 & _).
  assert (Et : ctrue c = false -> mask_coverage pt rdr j k = 0).
  { unfold ctrue. intros Ef. apply negb_false_iff, Z.eqb_eq in Ef. by apply E0. }
  subst a. rewrite Hc. unfold over_by. cbn [mbind option_bind].
  destruct pt; [destruct (blit_paint_at true rdr m Hb k eq_refl Hk) as [Hp Hsp]; rewrite Hp|];
    cbn [mbind option_bind]; (destruct (ctrue c); [rewrite Ec|rewrite (Et eq_refl)]).
  - exact (pt_src_over_act_ok _ _ Hsp (land_byte c)).
  - exact (pt_src_over_skip_ok _ Hsp).
  - exact (src_over_act_ok false rdr m Hb _ (land_byte c)).
  - exact (src_over_skip_ok false rdr m Hb).
Qed.

Lemma mask_over_ok (pt : bool) rdr height m mask :
  row_geometry rdr height m -> blit_ready pt rdr m -> mask_ready pt rdr height mask ->
  exists m',
    (if pt then blitPTSrcOverMask8888_pre else blitSrcOverMask8888_pre) rdr height =
      Some (set_data (Some m') rdr) /\
    pointwise m m'
      (rect_update rdr height (fun j c => over_by pt rdr c (mask_coverage pt rdr j c))).
Proof.
  intros Hg Hb Hm. pose proof Hm as [Mm Mby Mo Mh M1 Mr Ml].
  pose proof Hg as [_ _ _ _ Gw _ _ _ _ _].
  assert (Hs : forall j c v, sound_pixel v ->
    sound_pixel (over_by pt rdr c (mask_coverage pt rdr j c) v)).
  { intros j c v. apply (over_by_sound pt rdr m); [done|]. unfold mask_coverage. apply land_byte. }
  destruct pt.
  - apply (blit_mask_ok sound_pixel rdr height 0 1 mask); try done; [exact (br_pixels _ _ _ Hb)|nia|].
    intros j k Hj Hk. exact (mask_over_act true rdr height m mask j k Hb Hm Hj Hk).
  - apply (blit_mask_ok sound_pixel rdr height (_alphaWidth rdr) 1 mask); try done;
      [exact (br_pixels _ _ _ Hb)|lia|lia|].
    intros j k Hj Hk. exact (mask_over_act false rdr height m mask j k Hb Hm Hj Hk).
Qed.

(** A source-over blit under a byte mask, with the current colour for any
    number of rows or with the paint row for one row: the routine returns, it
    composites each pixel of the rectangle once at the coverage of its mask
    byte and changes no other pixel, and the surface stays premultiplied. *)
Theorem blit_mask_over_spec (pt : bool) rdr height m mask :
  row_geometry rdr height m -> blit_ready pt rdr m -> mask_ready pt rdr height mask ->
  exists m',
    (if pt then blitPTSrcOverMask8888_pre else blitSrcOverMask8888_pre) rdr height =
      Some (set_data (Some m') rdr) /\
    pointwise m m'
      (rect_update rdr height (fun j c => over_by pt rdr c (mask_coverage pt rdr j c))) /\
    (forall i v, aget m' i = Some v -> premultiplied v).
Proof.
  intros Hg Hb Hm. destruct (mask_over_ok pt rdr height m mask Hg Hb Hm) as (m' & E & Hp).
  exists m'. split_and!; [done|done|]. intros i v Hv. cut (sound_pixel v); [by intros []|].
  eapply (rect_update_inv sound_pixel); [exact Hp|by apply (geometry_bound _ _ _ Hg)| | |exact Hv].
  - exact (br_pixels _ _ _ Hb).
  - intros j c v0 _ _. apply (over_by_sound pt rdr m); [done|]. unfold mask_coverage. apply land_byte.
Qed.

Lemma blit_mask_over_spec_witness :
  let rdr := (sample_renderer (replicate 12 0)) <| set_maskOffset := 1 |>
               <| set_mask_byteData := Some [0; 128; -1; 0; 255] |> in
  exists m', blitSrcOverMask8888_pre rdr 2 = Some (set_data (Some m') rdr) /\
    aget m' 5 = Some (blendSrcOver8888_pre 128 200 100 50 0) /\
    aget m' 6 = Some (pack 255 200 100 50) /\ aget m' 9 = Some 0 /\ aget m' 11 = Some 0.
Proof.
  intros rdr.
  destruct (blit_mask_over_spec false rdr 2 (replicate 12 0) [0; 128; -1; 0; 255])
    as (m' & E & Hm & _).
  - split; vm_compute; repeat split; discriminate.
  - split; [vm_compute; repeat split; discriminate..| |].
    + intros _ i p. apply (aget_Forall sound_pixel). change (_paint _) with [0; -1; -1; 0]. forall_list.
    + intros i v. apply (aget_Forall sound_pixel). forall_list.
  - split; try (vm_compute; repeat split; discriminate).
    intros i c. apply (aget_Forall (fun c => -128 <= c <= 255)). forall_list.
  - exists m'. split; [exact E|]. rewrite !Hm.
    split; [vm_compute; reflexivity|]. split; [vm_compute; reflexivity|].
    split; vm_compute; reflexivity.
Defined.

(** ** clearRect8888_any *)

Lemma fill_ok m p n v : 0 <= n -> 0 <= p -> p + n <= alen m ->
  exists m', fill m p n v = Some m' /\ pointwise m m' (span_fn p n (fun _ _ => v)).
Proof.
  intros Hn Hp Hl. unfold fill.
  destruct (for_lt_inv (fun k m1 => pointwise m m1 (span_fn p k (fun _ _ => v))) n
    (fun k m => aset m (p + k) v) m) as (m' & E & Hm).
  - eapply pointwise_ext; [|apply pointwise_refl]. intros. by rewrite span_fn_0.
  - intros k m1 Hk Hm1. apply (span_act (fun _ => True) m m1 p k _ (fun i m => aset m i v));
      [lia..|done|done|]. by apply acts_as_aset.
  - exists m'. split; [exact E|]. by replace (Z.max 0 n) with n in Hm by lia.
Qed.

Lemma memset0_ok m p n : 0 <= n -> 0 <= p -> p + n <= alen m ->
  exists m', memset0 m p (4 * n) = Some m' /\ pointwise m m' (span_fn p n (fun _ _ => 0)).
Proof.
  intros Hn Hp Hl. unfold memset0. destruct (Z.ltb_spec (4 * n) 0); [lia|].
  rewrite Z.mul_comm, Z.div_mul by lia. by apply fill_ok.
Qed.

Lemma memcpy_within_ok m dst src n v : 0 <= n -> 0 <= src -> src + n <= dst -> dst + n <= alen m ->
  (forall k, 0 <= k < n -> aget m (src + k) = Some v) ->
  exists m', memcpy_within m dst src (4 * n) = Some m' /\ pointwise m m' (span_fn dst n (fun _ _ => v)).
Proof.
  intros Hn Hs Hd Hl Hv. unfold memcpy_within. destruct (Z.ltb_spec (4 * n) 0); [lia|].
  rewrite Z.mul_comm, Z.div_mul by lia.
  destruct (for_lt_inv (fun k m1 => pointwise m m1 (span_fn dst k (fun _ _ => v))) n
    (fun k m => x ← aget m (src + k); aset m (dst + k) x) m) as (m' & E & Hm).
  - eapply pointwise_ext; [|apply pointwise_refl]. intros. by rewrite span_fn_0.
  - intros k m1 Hk Hm1. rewrite Hm1, Hv by lia. simpl.
    assert (E : span_fn dst k (fun _ _ => v) (src + k) v = v) by (unfold span_fn; case_bools; done).
    rewrite E. apply (span_act (fun _ => True) m m1 dst k _ (fun i m => aset m i v));
      [lia..|done|done|]. by apply acts_as_aset.
  - exists m'. split; [exact E|]. by replace (Z.max 0 n) with n in Hm by lia.
Qed.

(** A loop that updates one span per row updates the rectangle. *)
Lemma rows_ok h p stride n (row : Z -> list Z -> option (list Z)) m col :
  0 <= h -> 0 < stride -> n <= stride ->
  (forall j m', 0 <= j < h -> pointwise m m' (rect_fn p stride n j col) ->
     exists m'', row (p + j * stride) m' = Some m'' /\
       pointwise m' m'' (span_fn (p + j * stride) n (col j))) ->
  exists m', ('(_, m) ← for_lt h (fun _ '(q, m) => m ← row q m; Some (q + stride, m)) (p, m); Some m)
      = Some m' /\ pointwise m m' (rect_fn p stride n h col).
Proof.
  intros Hh Hs Hn Hrow.
  destruct (for_lt_inv
    (fun j '(q, m') => q = p + j * stride /\ pointwise m m' (rect_fn p stride n j col))
    h (fun _ '(q, m) => m ← row q m; Some (q + stride, m)) (p, m)) as ([q m'] & -> & (_ & Hm)).
  - split; [lia|]. eapply pointwise_ext; [|apply pointwise_refl]. intros. by rewrite rect_fn_0.
  - intros j [q m'] Hj (-> & Hm'). destruct (Hrow j m' Hj Hm') as (m'' & -> & Hm'').
    mred. eexists; split; [done|]. split; [lia|].
    eapply pointwise_ext; [|exact (pointwise_trans _ _ _ _ _ Hm' Hm'')].
    intros i v _. apply rect_fn_step; lia.
  - exists m'. split; [done|]. by replace (Z.max 0 h) with h in Hm by lia.
Qed.

(** When [clearRect8888_any] may be called: the rectangle is inside a surface
    without padding and its byte size fits an [int]. *)
Record clear_ready (rdr : Renderer) (x y w h : Z) (m : list Z) : Prop := {
  cl_data : _data rdr = Some m;
  cl_pixel : _imagePixelStride rdr = 1;
  cl_stride : _imageScanlineStride rdr = _width rdr;
  cl_x : 0 <= x;
  cl_w : 1 <= w;
  cl_xw : x + w <= _width rdr;
  cl_y : 0 <= y;
  cl_h : 1 <= h;
  cl_off : 0 <= _imageOffset rdr;
  cl_end : _imageOffset rdr + (y + h) * _width rdr <= alen m;
  cl_len : 4 * alen m < 2 ^ 31
}.

(** The index of the first pixel of the rectangle. *)
Definition clear_origin (rdr : Renderer) (x y : Z) : Z := _imageOffset rdr + y * _width rdr + x.

(** The colour register as the routine packs it. *)
Definition clear_value (rdr : Renderer) : Z :=
  pack (_calpha rdr) (_cred rdr) (_cgreen rdr) (_cblue rdr).

Lemma rect_one_row p stride n col i v : 0 < stride -> n <= stride ->
  rect_fn p stride n 1 col i v = span_fn p n (col 0) i v.
Proof.
  intros. rewrite <- (rect_fn_step p stride n 0) by lia. by rewrite rect_fn_0, Z.mul_0_l, Z.add_0_r.
Qed.

(** Rows as wide as the stride are one span. *)
Lemma rect_full_rows p stride h v0 i v : 0 < stride -> 0 <= h ->
  rect_fn p stride stride h (fun _ _ _ => v0) i v = span_fn p (stride * h) (fun _ _ => v0) i v.
Proof.
  intros Hs Hh. unfold rect_fn, span_fn.
  pose proof (Z.div_mod (i - p) stride ltac:(lia)) as Hd.
  pose proof (Z.mod_pos_bound (i - p) stride Hs) as Hc.
  set (q := (i - p) / stride) in *. set (c := (i - p) mod stride) in *.
  assert (Hq : 0 <= q < h <-> p <= i < p + stride * h) by nia.
  case_bools; (done || exfalso; tauto || lia).
Qed.

(** Rows after the first are copied from it. *)
Lemma clear_copy_ok m p stride w h v : 0 <= p -> 1 <= w <= stride -> 1 <= h ->
  p + (h - 1) * stride + w <= alen m ->
  exists m',
    (m ← fill m p w v;
     '(_, m) ← for_lt (h - 1) (fun _ '(q, m) => m ← memcpy_within m q p (4 * w);
                                    Some (q + stride, m)) (p + stride, m);
     Some m) = Some m' /\
    pointwise m m' (rect_fn p stride w h (fun _ _ _ => v)).
Proof.
  intros Hp Hw Hh Hl. destruct (fill_ok m p w v) as (m1 & -> & Hm1); [nia..|]. mred.
  destruct (rows_ok (h - 1) (p + stride) stride w (fun q m => memcpy_within m q p (4 * w)) m1
    (fun _ _ _ => v)) as (m' & E & Hm'); [lia..| |].
  - intros j m2 Hj Hm2. assert (Hl1 : alen m2 = alen m).
    { rewrite (pointwise_alen _ _ _ Hm2). by apply (pointwise_alen _ _ _ Hm1). }
    assert (j * stride <= (h - 2) * stride) by nia.
    apply memcpy_within_ok; try nia. intros k Hk. rewrite Hm2, Hm1.
    destruct (aget_ex m (p + k)) as [u Hu]; [nia|]. rewrite Hu. simpl. f_equal.
    assert (E : span_fn p w (fun _ _ => v) (p + k) u = v) by (unfold span_fn; case_bools; done).
    rewrite E. unfold rect_fn. by repeat case_match.
  - exists m'. split; [exact E|]. eapply pointwise_ext; [|exact (pointwise_trans _ _ _ _ _ Hm1 Hm')].
    intros i u _. cbv beta. rewrite <- (rect_one_row p stride w (fun _ _ _ => v)) by lia.
    unfold rect_fn. replace (i - (p + stride)) with (i - p + (-1) * stride) by lia.
    rewrite Z.mod_add, Z.div_add by lia. case_bools; done.
Qed.

(** [clearRect8888_any] on a rectangle inside the surface returns, sets
    exactly its pixels to the packed colour register, on the three paths (one
    memset, a memset per row, a filled row copied to the others), and changes
    no other pixel. *)
Lemma clearRect_ok rdr x y w h m :
  clear_ready rdr x y w h m ->
  exists m', clearRect8888_any rdr x y w h = Some (set_data (Some m') rdr) /\
    pointwise m m' (rect_fn (clear_origin rdr x y) (_width rdr) w h (fun _ _ _ => clear_value rdr)).
Proof.
  intros [Hd Hps Hst Hx Hw Hxw Hy Hh Ho He Hl]. unfold clearRect8888_any.
  rewrite Hd, Hps, Hst. mred. cbv zeta. fold (clear_value rdr). rewrite Z.mul_1_r.
  assert (0 <= y * _width rdr) by nia. assert (w <= h * w) by nia.
  assert (h * w <= h * _width rdr) by nia. assert (_width rdr <= h * _width rdr) by nia.
  assert (Hyw : (y + h) * _width rdr = y * _width rdr + h * _width rdr) by lia.
  rewrite (i32_id (y * _width rdr)), (i32_id x), (i32_id (4 * w)) by (unfold in_i32; lia).
  rewrite (i32_id (4 * w * h)) by (unfold in_i32; lia). fold (clear_origin rdr x y).
  assert (Hor : clear_origin rdr x y + (h - 1) * _width rdr + w <= alen m) by (unfold clear_origin; lia).
  assert (0 <= clear_origin rdr x y) by (unfold clear_origin; lia).
  destruct (Z.eqb_spec (clear_value rdr) 0) as [Hz|Hz].
  - rewrite Hz. destruct ((x =? 0) && (w =? _width rdr)) eqn:Hf.
    + apply andb_true_iff in Hf as [_ Hf]. apply Z.eqb_eq in Hf.
      replace (4 * w * h) with (4 * (w * h)) by lia.
      destruct (memset0_ok m (clear_origin rdr x y) (w * h)) as (m' & -> & Hm'); [nia..|].
      mred. exists m'. split; [done|]. eapply pointwise_ext; [|exact Hm'].
      intros i v _. subst w. symmetry. apply rect_full_rows; lia.
    + destruct (rows_ok h (clear_origin rdr x y) (_width rdr) w (fun q m => memset0 m q (4 * w)) m
        (fun _ _ _ => 0)) as (m' & -> & Hm'); [lia..| |mred; eauto].
      intros j m1 Hj Hm1. assert (0 <= j * _width rdr <= (h - 1) * _width rdr) by nia.
      apply memset0_ok; rewrite ?(pointwise_alen _ _ _ Hm1); lia.
  - destruct (clear_copy_ok m (clear_origin rdr x y) (_width rdr) w h (clear_value rdr))
      as (m' & -> & Hm'); [lia..|]. mred. eauto.
Qed.
