(* ===== verification/PiscesPaint.v ===== *)
(** * Paint rows: gradients and textures

    native-prism-sw/PiscesPaint.c fills the paint buffer [_paint] with one
    premultiplied pixel per touched column: a colour looked up in the gradient
    map, or a texture sampled at transformed 16.16 coordinates, nearest or
    bilinear, clamped or repeated.  [None] is a read outside the texture, a
    write outside the paint buffer, a failed assertion or a division by
    zero. *)

From S2P Require Import Prelude Float32 PiscesTransform PiscesPixel PiscesState.

(** ** Arithmetic helpers *)

(** C's [%] truncates toward zero. *)
Definition lmod (x y : Z) : option Z :=
  if y =? 0 then None
  else let x := Z.rem x y in Some (if x <? 0 then i64 (x + y) else x).

Definition interp (x0 x1 frac : Z) : Z := i32 ((x0 << 16) + (x1 - x0) * frac + 0x8000) >> 16.

Definition pad (ifrac cycleMethod : Z) : Z :=
  if cycleMethod =? CYCLE_NONE then
    if ifrac <? 0 then 0 else if ifrac >? 0xffff then 0xffff else ifrac
  else if cycleMethod =? CYCLE_REPEAT then ifrac & 0xffff
  else if cycleMethod =? CYCLE_REFLECT then
    let ifrac := if ifrac <? 0 then i32 (- ifrac) else ifrac in
    let ifrac := ifrac & 0x1ffff in
    if ifrac >? 0xffff then 0x1ffff - ifrac else ifrac
  else ifrac.

(** ** Gradients *)

(** [paint[pidx] = colors[pad(ifrac) >> 8]] *)
Definition gradient_store (rdr : Renderer) (ifrac pidx : Z) (paint : list Z) : option (list Z) :=
  let ifrac := pad ifrac (_gradient_cycleMethod rdr) >> (16 - LG_GRADIENT_MAP_SIZE) in
  c ← aget (_gradient_colors rdr) ifrac;
  aset paint pidx c.

Definition genLinearGradientPaint (rdr : Renderer) (height : Z) : option Renderer :=
  let width := _alphaWidth rdr in
  let mx := _lg_mx rdr in
  let my := _lg_my rdr in
  let b := _lg_b rdr in
  '(_, paint) ←
    for_lt height
      (fun j '(paintOffset, paint) =>
         let x := _currX rdr in
         let y := i32 (_currY rdr + j) in
         let frac := fadd (fadd (fmul (of_int x) mx) (fmul (of_int y) my)) b in
         '(_, paint) ←
           for_lt width
             (fun i '(frac, paint) =>
                paint ← gradient_store rdr (to_jint frac) (paintOffset + i) paint;
                Some (fadd frac mx, paint))
             (frac, paint);
         Some (i32 (paintOffset + width), paint))
      (0, _paint rdr);
  Some (rdr <| set_paint := paint |>).

(** [U + PISCESsqrt(V)]: the C library's [sqrt] is in double precision. *)
Definition add_sqrt (U V : jfloat) : jdouble :=
  dadd (to_double U) (dsqrt (to_double V)).

(** The values a row of the radial gradient starts from. *)
Definition radial_row (rdr : Renderer) (x y : Z) : jfloat * jfloat * jfloat * jfloat * jfloat :=
  let a00 := _rg_a00 rdr in
  let a10 := _rg_a10 rdr in
  let a00a00 := _rg_a00a00 rdr in
  let a10a10 := _rg_a10a10 rdr in
  let a00a10 := _rg_a00a10 rdr in
  let rsq := _rg_rsq rdr in
  let two := of_int 2 in
  let f2_32 := of_int (2 ^ 32) in
  let txx := fadd (fadd (fmul (of_int x) a00) (fmul (of_int y) (_rg_a01 rdr))) (_rg_a02 rdr) in
  let tyy := fadd (fadd (fmul (of_int x) a10) (fmul (of_int y) (_rg_a11 rdr))) (_rg_a12 rdr) in
  let fxx := fsub (_rg_fx rdr) txx in
  let fyy := fsub (_rg_fy rdr) tyy in
  let A := fadd (fmul fxx fxx) (fmul fyy fyy) in
  let cfx := fsub (_rg_cx rdr) (_rg_fx rdr) in
  let cfy := fsub (_rg_cy rdr) (_rg_fy rdr) in
  let cfxcfx := fmul cfx cfx in
  let cfycfy := fmul cfy cfy in
  let cfxcfy := fmul cfx cfy in
  let B := fadd (fmul cfx fxx) (fmul cfy fyy) in
  let B2 := fmul (fopp B) two in
  let C := fsub (fadd cfxcfx cfycfy) rsq in
  let C2 := fmul two C in
  let _C := fdiv (of_int 1) C in
  let _Csq := fmul _C _C in
  let U := fmul (fopp B) _C in
  let dU := fmul (fadd (fmul a00 cfx) (fmul a10 cfy)) _C in
  let V := fmul (fsub (fmul B B) (fmul A C)) _Csq in
  let sube := fmul (fmul two a00a10) cfxcfy in
  let dV :=
    fmul (fadd (fadd sube
                 (fadd (fmul a00a00 (fsub cfxcfx C))
                       (fmul a00 (fadd (fmul B2 cfx) (fmul C2 fxx)))))
               (fadd (fmul a10a10 (fsub cfycfy C))
                     (fmul a10 (fadd (fmul B2 cfy) (fmul C2 fyy))))) _Csq in
  let tmp := fadd (fsub (fmul a00a00 cfycfy) sube) (fmul a10a10 cfxcfx) in
  let ddV := fmul (fmul two (fsub (fmul (fadd a00a00 a10a10) rsq) tmp)) _Csq in
  (fmul f65536 U, fmul f65536 dU, fmul f2_32 V, fmul f2_32 dV, fmul f2_32 ddV).

Definition genRadialGradientPaint (rdr : Renderer) (height : Z) : option Renderer :=
  let width := _alphaWidth rdr in
  '(_, paint) ←
    for_lt height
      (fun j '(paintOffset, paint) =>
         let '(U, dU, V, dV, ddV) := radial_row rdr (_currX rdr) (i32 (_currY rdr + j)) in
         '(_, _, _, paint) ←
           for_lt width
             (fun i '(U, V, dV, paint) =>
                let V := if flt V (of_int 0) then of_int 0 else V in
                let ifrac := to_jint (add_sqrt U V) in
                let U := fadd U dU in
                let V := fadd V dV in
                let dV := fadd dV ddV in
                paint ← gradient_store rdr ifrac (paintOffset + i) paint;
                Some (U, V, dV, paint))
             (U, V, dV, paint);
         Some (i32 (paintOffset + width), paint))
      (0, _paint rdr);
  Some (rdr <| set_paint := paint |>).

(** ** Interpolation of pixels *)

Definition interpolate2points (p0 p1 frac : Z) : Z :=
  pack (interp (A p0) (A p1) frac) (interp (R p0) (R p1) frac)
       (interp (G p0) (G p1) frac) (interp (B p0) (B p1) frac).

Definition interpolate4points (p00 p01 p10 p11 hfrac vfrac : Z) : Z :=
  let a0 := interp (A p00) (A p01) hfrac in
  let r0 := interp (R p00) (R p01) hfrac in
  let g0 := interp (G p00) (G p01) hfrac in
  let b0 := interp (B p00) (B p01) hfrac in
  let a1 := interp (A p10) (A p11) hfrac in
  let r1 := interp (R p10) (R p11) hfrac in
  let g1 := interp (G p10) (G p11) hfrac in
  let b1 := interp (B p10) (B p11) hfrac in
  pack (interp a0 a1 vfrac) (interp r0 r1 vfrac) (interp g0 g1 vfrac) (interp b0 b1 vfrac).

(** [0xff000000 | ...] *)
Definition interpolate2pointsNoAlpha (p0 p1 frac : Z) : Z :=
  pack 0xff (interp (R p0) (R p1) frac) (interp (G p0) (G p1) frac) (interp (B p0) (B p1) frac).

Definition interpolate4pointsNoAlpha (p00 p01 p10 p11 hfrac vfrac : Z) : Z :=
  let r0 := interp (R p00) (R p01) hfrac in
  let g0 := interp (G p00) (G p01) hfrac in
  let b0 := interp (B p00) (B p01) hfrac in
  let r1 := interp (R p10) (R p11) hfrac in
  let g1 := interp (G p10) (G p11) hfrac in
  let b1 := interp (B p10) (B p11) hfrac in
  pack 0xff (interp r0 r1 vfrac) (interp g0 g1 vfrac) (interp b0 b1 vfrac).

(** ** Texture coordinates *)

Definition isInBoundsNoRepeat (a min max : Z) : bool :=
  if (a <? min) || (a >? max) then false else true.

(** The new values of [*a] and [*la]. *)
Definition checkBoundsRepeat (a la min max : Z) : option (Z * Z) :=
  if (a <? min) || (a >? max) then
    if max >=? 0 then
      la ← lmod la (i32 ((max + 1) << 16));
      Some (i32 (la >> 16), la)
    else Some (0, 0)
  else Some (a, la).

Definition checkBoundsNoRepeat (a min max : Z) : Z :=
  if a <? min then min else if a >? max then max else a.

Definition getPointsToInterpolate (data : texture_ptr) (sidx stride p00 tx txMax ty tyMax : Z)
  : option (Z * Z * Z) :=
  let sidx2 := if ty >=? tyMax then sidx else i32 (sidx + stride) in
  let isXin := tx <? txMax in
  pts0 ← (if isXin then tex_get data (i32 (sidx + 1)) else Some p00);
  pts1 ← tex_get data sidx2;
  pts2 ← (if isXin then tex_get data (i32 (sidx2 + 1)) else tex_get data sidx2);
  Some (pts0, pts1, pts2).

Definition getPointsToInterpolateRepeat (data : texture_ptr) (sidx stride p00 tx txMax ty tyMax : Z)
  : option (Z * Z * Z) :=
  let sidx2 := if ty >=? tyMax then MAX tx 0 else i32 (sidx + stride) in
  let isXin := tx <? txMax in
  pts0 ← (if isXin then tex_get data (i32 (sidx + 1)) else tex_get data (i32 (sidx - MAX tx 0)));
  pts1 ← tex_get data sidx2;
  pts2 ← (if isXin then tex_get data (i32 (sidx2 + 1)) else tex_get data (i32 (sidx2 - MAX tx 0)));
  Some (pts0, pts1, pts2).

(** ** Texture paint *)

Inductive repeat_interpolate : Type :=
  | NO_REPEAT_NO_INTERPOLATE | REPEAT_NO_INTERPOLATE
  | NO_REPEAT_INTERPOLATE_NO_ALPHA | NO_REPEAT_INTERPOLATE_ALPHA
  | REPEAT_INTERPOLATE_NO_ALPHA | REPEAT_INTERPOLATE_ALPHA.

Definition repeatInterpolateMode (rdr : Renderer) : repeat_interpolate :=
  if _texture_interpolate rdr then
    if _texture_hasAlpha rdr then
      if _texture_repeat rdr then REPEAT_INTERPOLATE_ALPHA else NO_REPEAT_INTERPOLATE_ALPHA
    else
      if _texture_repeat rdr then REPEAT_INTERPOLATE_NO_ALPHA else NO_REPEAT_INTERPOLATE_NO_ALPHA
  else
    if _texture_repeat rdr then REPEAT_NO_INTERPOLATE else NO_REPEAT_NO_INTERPOLATE.

(** [assert(pidx >= 0); assert(pidx < rdr->_paint_length); paint[pidx] = v] *)
Definition paint_store (rdr : Renderer) (paint : list Z) (pidx v : Z) : option (list Z) :=
  if (0 <=? pidx) && (pidx <? _paint_length rdr) then aset paint pidx v else None.

(** [sidx = MAX(0, ty) * txtStride + MAX(0, tx)] *)
Definition texel_index (rdr : Renderer) (tx ty : Z) : Z :=
  i32 (MAX 0 ty * _texture_stride rdr + MAX 0 tx).

(** The choice by [hfrac] and [vfrac] among the interpolation functions. *)
Definition interpolated (four : Z -> Z -> Z -> Z -> Z -> Z -> Z) (two : Z -> Z -> Z -> Z)
    (p00 : Z) (pts : Z * Z * Z) (hfrac vfrac : Z) : Z :=
  let '(pts0, pts1, pts2) := pts in
  if ctrue hfrac && ctrue vfrac then four p00 pts0 pts1 pts2 hfrac vfrac
  else if ctrue hfrac then two p00 pts0 hfrac
  else if ctrue vfrac then two p00 pts1 vfrac
  else p00.

(** The value of a paint pixel once the texel coordinates are in bounds. *)
Definition sample (rdr : Renderer) (txtData : texture_ptr) (mode : repeat_interpolate)
    (tx ty hfrac vfrac : Z) : option Z :=
  let sidx := texel_index rdr tx ty in
  p00 ← tex_get txtData sidx;
  let points get :=
    get txtData sidx (_texture_stride rdr) p00
      tx (i32 (_texture_imageWidth rdr - 1)) ty (i32 (_texture_imageHeight rdr - 1)) in
  match mode with
  | NO_REPEAT_NO_INTERPOLATE | REPEAT_NO_INTERPOLATE => Some p00
  | NO_REPEAT_INTERPOLATE_ALPHA =>
      pts ← points getPointsToInterpolate;
      Some (interpolated interpolate4points interpolate2points p00 pts hfrac vfrac)
  | REPEAT_INTERPOLATE_ALPHA =>
      pts ← points getPointsToInterpolateRepeat;
      Some (interpolated interpolate4points interpolate2points p00 pts hfrac vfrac)
  | NO_REPEAT_INTERPOLATE_NO_ALPHA =>
      pts ← points getPointsToInterpolate;
      Some (interpolated interpolate4pointsNoAlpha interpolate2pointsNoAlpha p00 pts hfrac vfrac)
  | REPEAT_INTERPOLATE_NO_ALPHA =>
      pts ← points getPointsToInterpolateRepeat;
      Some (interpolated interpolate4pointsNoAlpha interpolate2pointsNoAlpha p00 pts hfrac vfrac)
  end.

Definition repeats (mode : repeat_interpolate) : bool :=
  match mode with
  | REPEAT_NO_INTERPOLATE | REPEAT_INTERPOLATE_NO_ALPHA | REPEAT_INTERPOLATE_ALPHA => true
  | _ => false
  end.

(** The bounds check the mode calls for, on one coordinate. *)
Definition check_bounds (repeat : bool) (a la min max : Z) : option (Z * Z) :=
  if repeat then checkBoundsRepeat a la min max
  else Some (checkBoundsNoRepeat a min max, la).

(** *** Translation *)

(** A clamped row without interpolation: the left border texel, a copied run,
    the right border texel. *)
Definition translate_copy_row (rdr : Renderer) (txtData : texture_ptr) (ty ltx p w : Z)
    (paint : list Z) : option (list Z) :=
  let txMin := _texture_txMin rdr in
  let txMax := _texture_txMax rdr in
  let txtRow := i32 (MAX 0 ty * _texture_stride rdr) in
  let am := p + w in
  '(a, tx, paint) ←
    while_fuel (Z.to_nat w) (fun '(a, tx, _) => (tx <? txMin) && (a <? am))
      (fun '(a, tx, paint) =>
         v ← tex_get txtData (txtRow + txMin);
         paint ← aset paint a v;
         Some (a + 1, i32 (tx + 1), paint))
      (p, i32 (ltx >> 16), paint);
  let len := MIN (am - a) (i32 (txMax - tx + 1)) in
  '(a, paint) ←
    (if 0 <? len then
       paint ← for_lt len (fun k paint => v ← tex_get txtData (txtRow + tx + k); aset paint (a + k) v) paint;
       Some (a + len, paint)
     else Some (a, paint));
  for_lt (am - a) (fun k paint => v ← tex_get txtData (txtRow + txMax); aset paint (a + k) v) paint.

(** One pixel of the other five modes: its value and the next [ltx]. *)
Definition translate_pixel (rdr : Renderer) (txtData : texture_ptr) (mode : repeat_interpolate)
    (ty hfrac vfrac ltx : Z) : option (Z * Z) :=
  '(tx, ltx) ← check_bounds (repeats mode) (i32 (ltx >> 16)) ltx
                 (i32 (_texture_txMin rdr - 1)) (_texture_txMax rdr);
  cval ← sample rdr txtData mode tx ty hfrac vfrac;
  Some (cval, i64 (ltx + 0x10000)).

Definition translate_row (rdr : Renderer) (txtData : texture_ptr) (y paintOffset : Z)
    (paint : list Z) : option (list Z) :=
  let mode := repeatInterpolateMode rdr in
  let paintStride := _alphaWidth rdr in
  let ltx := i64 (i32 (_currX rdr << 16) + _texture_m02 rdr) in
  let lty := i64 (i32 (y << 16) + _texture_m12 rdr) in
  let hfrac := ltx & 0xffff in
  let vfrac := lty & 0xffff in
  '(ty, _) ← check_bounds (_texture_repeat rdr) (i32 (lty >> 16)) lty
               (i32 (_texture_tyMin rdr - 1)) (_texture_tyMax rdr);
  match mode with
  | NO_REPEAT_NO_INTERPOLATE => translate_copy_row rdr txtData ty ltx paintOffset paintStride paint
  | _ =>
      '(_, paint) ←
        for_lt paintStride
          (fun k '(ltx, paint) =>
             '(cval, ltx) ← translate_pixel rdr txtData mode ty hfrac vfrac ltx;
             paint ← paint_store rdr paint (paintOffset + k) cval;
             Some (ltx, paint))
          (ltx, paint);
      Some paint
  end.

(** *** Scale and generic transforms *)

(** The coordinates a row starts from. *)
Definition row_coordinates (rdr : Renderer) (x y : Z) : Z * Z :=
  (i64 (x * _texture_m00 rdr + y * _texture_m01 rdr + _texture_m02 rdr),
   i64 (x * _texture_m10 rdr + y * _texture_m11 rdr + _texture_m12 rdr)).

(** One pixel under a scale: its value and the next coordinates. *)
Definition scale_pixel (rdr : Renderer) (txtData : texture_ptr) (mode : repeat_interpolate)
    (ltx lty : Z) : option (Z * Z * Z) :=
  let hfrac := ltx & 0xffff in
  let vfrac := lty & 0xffff in
  '(tx, ltx) ← check_bounds (repeats mode) (i32 (ltx >> 16)) ltx
                 (i32 (_texture_txMin rdr - 1)) (_texture_txMax rdr);
  '(ty, lty) ← check_bounds (repeats mode) (i32 (lty >> 16)) lty
                 (i32 (_texture_tyMin rdr - 1)) (_texture_tyMax rdr);
  cval ← sample rdr txtData mode tx ty hfrac vfrac;
  Some (cval, i64 (ltx + _texture_m00 rdr), i64 (lty + _texture_m10 rdr)).

(** One pixel under a generic transform: without repetition, points outside
    the texture are transparent. *)
Definition generic_pixel (rdr : Renderer) (txtData : texture_ptr) (mode : repeat_interpolate)
    (ltx lty : Z) : option (Z * Z * Z) :=
  if repeats mode then scale_pixel rdr txtData mode ltx lty
  else
    let tx := i32 (ltx >> 16) in
    let ty := i32 (lty >> 16) in
    let inBounds :=
      isInBoundsNoRepeat tx (i32 (_texture_txMin rdr - 1)) (_texture_txMax rdr) &&
      isInBoundsNoRepeat ty (i32 (_texture_tyMin rdr - 1)) (_texture_tyMax rdr) in
    cval ← (if inBounds then sample rdr txtData mode tx ty (ltx & 0xffff) (lty & 0xffff)
            else Some 0);
    Some (cval, i64 (ltx + _texture_m00 rdr), i64 (lty + _texture_m10 rdr)).

Definition transformed_row (rdr : Renderer) (txtData : texture_ptr)
    (pixel : Renderer -> texture_ptr -> repeat_interpolate -> Z -> Z -> option (Z * Z * Z))
    (y paintOffset : Z) (paint : list Z) : option (list Z) :=
  let '(ltx, lty) := row_coordinates rdr (_currX rdr) y in
  '(_, _, paint) ←
    for_lt (_alphaWidth rdr)
      (fun k '(ltx, lty, paint) =>
         '(cval, ltx, lty) ← pixel rdr txtData (repeatInterpolateMode rdr) ltx lty;
         paint ← paint_store rdr paint (paintOffset + k) cval;
         Some (ltx, lty, paint))
      (ltx, lty, paint);
  Some paint.

(** *** The dispatch on the transform type *)

Definition genTexturePaintTarget (rdr : Renderer) (paint : list Z) (height : Z) : option (list Z) :=
  let rows (row : texture_ptr -> Z -> Z -> list Z -> option (list Z)) :=
    '(_, paint) ←
      for_lt height
        (fun j '(paintOffset, paint) =>
           txtData ← _texture_intData rdr;
           paint ← row txtData (i32 (_currY rdr + j)) paintOffset paint;
           Some (i32 (paintOffset + _alphaWidth rdr), paint))
        (0, paint);
    Some paint in
  let t := _texture_transformType rdr in
  if (t =? TEXTURE_TRANSFORM_IDENTITY) || (t =? TEXTURE_TRANSFORM_TRANSLATE) then
    rows (translate_row rdr)
  else if t =? TEXTURE_TRANSFORM_SCALE_TRANSLATE then
    rows (fun txtData => transformed_row rdr txtData scale_pixel)
  else if t =? TEXTURE_TRANSFORM_GENERIC then
    rows (fun txtData => transformed_row rdr txtData generic_pixel)
  else Some paint.

Definition genTexturePaint (rdr : Renderer) (height : Z) : option Renderer :=
  paint ← genTexturePaintTarget rdr (_paint rdr) height;
  Some (rdr <| set_paint := paint |>).

(** *** Multiplication of a texture with the colour or gradient *)

(** [for (i...) for (j...) paint[idx + j] = f(idx + j, paint[idx + j])] *)
Definition multiply_rows (height w paintStride : Z) (f : Z -> Z -> option Z) (paint : list Z)
  : option (list Z) :=
  for_lt height
    (fun i paint =>
       let idx := i32 (i * paintStride) in
       for_lt w (fun j paint => aupd paint (idx + j) (f (idx + j))) paint) paint.

(** The texel scaled by an alpha only (white colour). *)
Definition multiply_alpha (palpha_1 tval : Z) : Z :=
  pack (i32 (palpha_1 * A tval) >> 8) (i32 (palpha_1 * R tval) >> 8)
       (i32 (palpha_1 * G tval) >> 8) (i32 (palpha_1 * B tval) >> 8).

(** The texel multiplied by a colour [pr], [pg], [pb] of alpha [palpha_1 - 1]. *)
Definition multiply_color (palpha_1 pr pg pb tval : Z) : Z :=
  pack (i32 (palpha_1 * A tval) >> 8)
       (i32 ((i32 ((pr + 1) * R tval) >> 8) * palpha_1) >> 8)
       (i32 ((i32 ((pg + 1) * G tval) >> 8) * palpha_1) >> 8)
       (i32 ((i32 ((pb + 1) * B tval) >> 8) * palpha_1) >> 8).

(** [alloc] says whether [my_malloc] returned a (zeroed) block; when it did
    not, the paint buffer is left as it is. *)
Definition genTexturePaintMultiply (alloc : bool) (rdr : Renderer) (height : Z) : option Renderer :=
  let w := i32 (_maxTouched rdr - _minTouched rdr + 1) in
  let paintStride := _alphaWidth rdr in
  let calpha := _calpha rdr in
  let cred := _cred rdr in
  let cgreen := _cgreen rdr in
  let cblue := _cblue rdr in
  let mode := _prevPaintMode rdr in
  if mode =? PAINT_FLAT_COLOR then
    paint ← genTexturePaintTarget rdr (_paint rdr) height;
    let palpha_1 := calpha + 1 in
    paint ←
      (if (cred =? 0xFF) && (cgreen =? 0xFF) && (cblue =? 0xFF) then
         if calpha <? 0xFF then
           multiply_rows height w paintStride (fun _ tval => Some (multiply_alpha palpha_1 tval)) paint
         else Some paint
       else
         multiply_rows height w paintStride
           (fun _ tval => Some (multiply_color palpha_1 cred cgreen cblue tval)) paint);
    Some (rdr <| set_paint := paint |>)
  else if (mode =? PAINT_LINEAR_GRADIENT) || (mode =? PAINT_RADIAL_GRADIENT) then
    if alloc then
      if i32 (w * height) <? 0 then None else
      rdr ← (if mode =? PAINT_LINEAR_GRADIENT then genLinearGradientPaint rdr height
             else genRadialGradientPaint rdr height);
      imagePaint ← genTexturePaintTarget rdr (replicate (Z.to_nat (i32 (w * height))) 0) height;
      paint ←
        multiply_rows height w paintStride
          (fun i pval =>
             tval ← aget imagePaint i;
             Some (multiply_color (A pval + 1) (R pval) (G pval) (B pval) tval)) (_paint rdr);
      Some (rdr <| set_paint := paint |>)
    else Some rdr
  else Some rdr.
