(* ===== verification/PiscesPaintSpec.v ===== *)
(** * What the paint routines compute

    Gradient rows look up a colour of the map for every pixel and never leave
    the map; interpolation stays between its end points and keeps pixels
    premultiplied; texture rows sample the texture at the affine image of the
    pixel, clamped or repeated, without leaving it. *)

From S2P Require Import Prelude Float32 PiscesTransform PiscesPixel PiscesState PiscesBlit PiscesPaint.

(** ** Loops that write a paint buffer *)

(** A row: the loop state besides the buffer satisfies [I k] before pixel [k],
    which gets the value [val k]. *)
Lemma row_writer_inv {S} (I : Z -> S -> Prop) w p m
    (body : Z -> S * list Z -> option (S * list Z)) s0 (val : Z -> Z) :
  0 <= w -> 0 <= p -> p + w <= alen m -> I 0 s0 ->
  (forall k s m', 0 <= k < w -> alen m' = alen m -> I k s ->
     exists s' m'', body k (s, m') = Some (s', m'') /\ I (k + 1) s' /\
       pointwise m' m'' (fun i v => if i =? p + k then val k else v)) ->
  exists s m', for_lt w body (s0, m) = Some (s, m') /\ I w s /\
    pointwise m m' (span_fn p w (fun c _ => val c)).
Proof.
  intros Hw Hp Hl H0 Hb.
  destruct (for_lt_inv
    (fun k '(s, m') => I k s /\ pointwise m m' (span_fn p k (fun c _ => val c)))
    w body (s0, m)) as ([s m'] & E & Hs & Hm).
  - split; [done|]. eapply pointwise_ext; [|apply pointwise_refl]. intros. by rewrite span_fn_0.
  - intros k [s m'] Hk [Hs Hm']. destruct (Hb k s m' Hk) as (s' & m'' & -> & Hs' & Hm''); [|done|].
    { by eapply pointwise_alen. }
    eexists; split; [done|]. split; [done|].
    eapply pointwise_ext; [|exact (pointwise_trans _ _ _ _ _ Hm' Hm'')].
    intros i v _. cbv beta. apply (span_fn_snoc p k (fun c _ => val c)); lia.
  - replace (Z.max 0 w) with w in * by lia. eauto.
Qed.

(** The same when the state before pixel [k] is known to be [st k]. *)
Lemma row_writer_ok {S} w p m (body : Z -> S * list Z -> option (S * list Z)) (st : Z -> S) (val : Z -> Z) :
  0 <= w -> 0 <= p -> p + w <= alen m ->
  (forall k m', 0 <= k < w -> alen m' = alen m ->
     exists m'', body k (st k, m') = Some (st (k + 1), m'') /\
       pointwise m' m'' (fun i v => if i =? p + k then val k else v)) ->
  exists m', for_lt w body (st 0, m) = Some (st w, m') /\
    pointwise m m' (span_fn p w (fun c _ => val c)).
Proof.
  intros Hw Hp Hl Hb.
  destruct (row_writer_inv (fun k s => s = st k) w p m body (st 0) val) as (s & m' & E & -> & Hm); eauto.
  intros k s m' Hk Hm ->. destruct (Hb k m' Hk Hm) as (m'' & ? & ?). eauto.
Qed.

(** All the rows of the rectangle, one after the other in the buffer. *)
Lemma paint_rows_ok h w m (body : Z -> Z * list Z -> option (Z * list Z)) (val : Z -> Z -> Z) :
  0 <= h -> 0 < w -> h * w <= alen m -> alen m < 2 ^ 31 ->
  (forall j m', 0 <= j < h -> alen m' = alen m ->
     exists m'', body j (j * w, m') = Some (i32 (j * w + w), m'') /\
       pointwise m' m'' (span_fn (j * w) w (fun c _ => val j c))) ->
  exists o m', for_lt h body (0, m) = Some (o, m') /\
    pointwise m m' (rect_fn 0 w w h (fun j c _ => val j c)).
Proof.
  intros Hh Hw Hl Hm Hb.
  destruct (for_lt_inv
    (fun j '(o, m') => o = j * w /\ pointwise m m' (rect_fn 0 w w j (fun j c _ => val j c)))
    h body (0, m)) as ([o m'] & E & _ & Hm').
  - split; [lia|]. eapply pointwise_ext; [|apply pointwise_refl]. intros. by rewrite rect_fn_0.
  - intros j [o m'] Hj [-> Hm']. destruct (Hb j m' Hj) as (m'' & -> & Hm'').
    { by eapply pointwise_alen. }
    assert (j * w + w <= h * w) by nia. assert (0 <= j * w) by nia.
    rewrite i32_id by (unfold in_i32; lia). eexists; split; [done|]. split; [lia|].
    eapply pointwise_ext; [|exact (pointwise_trans _ _ _ _ _ Hm' Hm'')].
    intros i v _. cbv beta. apply (rect_fn_step 0 w w j (fun j c _ => val j c)); lia.
  - replace (Z.max 0 h) with h in * by lia. eauto.
Qed.

(** ** pad *)

(** Clamping, wrapping and reflecting a 16.16 position into one period. *)
Definition pad_ref (f cycleMethod : Z) : Z :=
  if cycleMethod =? CYCLE_NONE then Z.max 0 (Z.min 65535 f)
  else if cycleMethod =? CYCLE_REPEAT then f mod 65536
  else let m := Z.abs f mod 131072 in Z.min m (131071 - m).

Definition cycle_ok (c : Z) : Prop := c = CYCLE_NONE \/ c = CYCLE_REPEAT \/ c = CYCLE_REFLECT.

Lemma pad_ok f c : in_i32 f -> cycle_ok c -> pad f c = pad_ref f c /\ 0 <= pad f c <= 65535.
Proof.
  unfold in_i32, pad, pad_ref. intros Hf [->|[->| ->]]; simpl (_ =? _).
  - rewrite Z.gtb_ltb. case_bools; lia.
  - rewrite land_0xffff. split; [done|]. dlia.
  - assert (E : (if f <? 0 then i32 (- f) else f) & 131071 = Z.abs f mod 131072).
    { rewrite land_0x1ffff. destruct (Z.ltb_spec f 0); [|by rewrite Z.abs_eq].
      rewrite Z.abs_neq by lia. destruct (i32_shift (- f)) as [k ->].
      replace (- f + k * 2 ^ 32) with (- f + (k * 32768) * 131072) by lia.
      apply Z.mod_add. lia. }
    rewrite E, Z.gtb_ltb. pose proof (Z.mod_pos_bound (Z.abs f) 131072 ltac:(lia)).
    case_bools; lia.
Qed.

(** The colour map index of a position. *)
Definition gradient_index (f c : Z) : Z := pad_ref f c / 256.

Lemma gradient_store_ok rdr f p m :
  in_i32 f -> cycle_ok (_gradient_cycleMethod rdr) -> GRADIENT_MAP_SIZE <= alen (_gradient_colors rdr) ->
  0 <= p < alen m ->
  exists c m', aget (_gradient_colors rdr) (gradient_index f (_gradient_cycleMethod rdr)) = Some c /\
    gradient_store rdr f p m = Some m' /\ pointwise m m' (fun i v => if i =? p then c else v).
Proof.
  intros Hf Hc Hg Hp. destruct (pad_ok f _ Hf Hc) as [E Hr]. unfold gradient_store.
  change (16 - LG_GRADIENT_MAP_SIZE) with 8. rewrite shiftr_div, E by lia. change (2 ^ 8) with 256.
  fold (gradient_index f (_gradient_cycleMethod rdr)).
  unfold GRADIENT_MAP_SIZE in Hg. rewrite E in Hr.
  destruct (aget_ex (_gradient_colors rdr) (gradient_index f (_gradient_cycleMethod rdr))) as [c Hcol].
  { unfold gradient_index. split; [apply Z.div_pos; lia|].
    assert (pad_ref f (_gradient_cycleMethod rdr) / 256 < 256) by (apply Z.div_lt_upper_bound; lia). lia. }
  exists c. rewrite Hcol. mred. destruct (aset_ok m p c Hp) as (m' & -> & Hm').
  exists m'. split_and!; [done..|]. intros i. rewrite Hm'.
  destruct (Z.eqb_spec i p) as [->|]; [|by destruct (aget m i)].
  destruct (aget_ex m p Hp) as [v ->]. done.
Qed.

(** ** Gradients *)

Definition ziter {S} (k : Z) (f : S -> S) (s : S) : S := Nat.iter (Z.to_nat k) f s.

Lemma ziter_succ {S} k (f : S -> S) s : 0 <= k -> ziter (k + 1) f s = f (ziter k f s).
Proof. intros. unfold ziter. by replace (Z.to_nat (k + 1)) with (Datatypes.S (Z.to_nat k)) by lia. Qed.

(** Position of pixel [c] of row [j] on the linear gradient: the start value
    incremented [c] times in single precision. *)
Definition linear_position (rdr : Renderer) (j c : Z) : Z :=
  let start := fadd (fadd (fmul (of_int (_currX rdr)) (_lg_mx rdr))
                          (fmul (of_int (i32 (_currY rdr + j))) (_lg_my rdr))) (_lg_b rdr) in
  to_jint (ziter c (fun f => fadd f (_lg_mx rdr)) start).

(** The forward differences of the radial gradient. *)
Definition radial_step (dU ddV : jfloat) '(U, V, dV) : jfloat * jfloat * jfloat :=
  let V := if flt V (of_int 0) then of_int 0 else V in
  (fadd U dU, fadd V dV, fadd dV ddV).

Definition radial_position (rdr : Renderer) (j c : Z) : Z :=
  let '(U, dU, V, dV, ddV) := radial_row rdr (_currX rdr) (i32 (_currY rdr + j)) in
  let '(U, V, _) := ziter c (radial_step dU ddV) (U, V, dV) in
  to_jint (add_sqrt U (if flt V (of_int 0) then of_int 0 else V)).

(** The colour of the map that a position selects. *)
Definition gradient_color (rdr : Renderer) (position : Z) : Z :=
  default 0 (aget (_gradient_colors rdr) (gradient_index position (_gradient_cycleMethod rdr))).

Record gradient_ready (rdr : Renderer) (height : Z) : Prop := {
  gr_cycle : cycle_ok (_gradient_cycleMethod rdr);
  gr_colors : GRADIENT_MAP_SIZE <= alen (_gradient_colors rdr);
  gr_height : 0 <= height;
  gr_width : 0 < _alphaWidth rdr;
  gr_room : height * _alphaWidth rdr <= alen (_paint rdr);
  gr_len : alen (_paint rdr) < 2 ^ 31
}.

Lemma gradient_store_color rdr height f p m : gradient_ready rdr height -> in_i32 f -> 0 <= p < alen m ->
  exists m', gradient_store rdr f p m = Some m' /\
    pointwise m m' (fun i v => if i =? p then gradient_color rdr f else v).
Proof.
  intros [Hc Hg _ _ _ _] Hf Hp. destruct (gradient_store_ok rdr f p m) as (c & m' & Hcol & E & Hm'); [done..|].
  exists m'. split; [done|]. unfold gradient_color. by rewrite Hcol.
Qed.

(** The result of a paint routine: the first [height] rows of the paint
    buffer hold [val], the rest is unchanged. *)
Definition paints (rdr : Renderer) (height : Z) (val : Z -> Z -> Z) (paint paint' : list Z) : Prop :=
  pointwise paint paint' (rect_fn 0 (_alphaWidth rdr) (_alphaWidth rdr) height (fun j c _ => val j c)).

Lemma linear_ok rdr height : gradient_ready rdr height ->
  exists paint, genLinearGradientPaint rdr height = Some (set_paint paint rdr) /\
    paints rdr height (fun j c => gradient_color rdr (linear_position rdr j c)) (_paint rdr) paint.
Proof.
  intros Hr. pose proof Hr as [Hc Hg Hh Hw Hro Hl]. unfold genLinearGradientPaint. cbv zeta.
  edestruct (paint_rows_ok height (_alphaWidth rdr) (_paint rdr)) as (o & paint & E & Hp);
    [lia..| |rewrite E; mred; eexists; split; [done|exact Hp]].
  intros j m' Hj Hm'. cbv beta iota.
  set (start := fadd (fadd _ _) _).
  edestruct (row_writer_ok (_alphaWidth rdr) (j * _alphaWidth rdr) m'
    (fun i '(frac, paint) =>
       paint ← gradient_store rdr (to_jint frac) (j * _alphaWidth rdr + i) paint;
       Some (fadd frac (_lg_mx rdr), paint))
    (fun k => ziter k (fun f => fadd f (_lg_mx rdr)) start)
    (fun c => gradient_color rdr (linear_position rdr j c))) as (m'' & E & Hp); [nia..| |].
  - intros k m1 Hk Hm1. cbv beta iota.
    destruct (gradient_store_color rdr height
      (to_jint (ziter k (fun f => fadd f (_lg_mx rdr)) start)) (j * _alphaWidth rdr + k) m1)
      as (m2 & -> & Hm2); [done|apply to_jint_range|nia|].
    mred. rewrite ziter_succ by lia. eexists; split; [reflexivity|exact Hm2].
  - unfold ziter at 1 in E. simpl Nat.iter in E. rewrite E. mred. eexists; split; [done|exact Hp].
Qed.

Lemma radial_ok rdr height : gradient_ready rdr height ->
  exists paint, genRadialGradientPaint rdr height = Some (set_paint paint rdr) /\
    paints rdr height (fun j c => gradient_color rdr (radial_position rdr j c)) (_paint rdr) paint.
Proof.
  intros Hr. pose proof Hr as [Hc Hg Hh Hw Hro Hl]. unfold genRadialGradientPaint. cbv zeta.
  edestruct (paint_rows_ok height (_alphaWidth rdr) (_paint rdr)) as (o & paint & E & Hp);
    [lia..| |rewrite E; mred; eexists; split; [done|exact Hp]].
  intros j m' Hj Hm'. cbv beta iota.
  destruct (radial_row rdr (_currX rdr) (i32 (_currY rdr + j))) as [[[[U dU] V] dV] ddV] eqn:Erow.
  edestruct (row_writer_ok (_alphaWidth rdr) (j * _alphaWidth rdr) m'
    (fun i '(U, V, dV, paint) =>
       paint ← gradient_store rdr (to_jint (add_sqrt U (if flt V (of_int 0) then of_int 0 else V)))
                 (j * _alphaWidth rdr + i) paint;
       Some (fadd U dU, fadd (if flt V (of_int 0) then of_int 0 else V) dV, fadd dV ddV, paint))
    (fun k => ziter k (radial_step dU ddV) (U, V, dV))
    (fun c => gradient_color rdr (radial_position rdr j c))) as (m'' & E & Hp); [nia..| |].
  - intros k m1 Hk Hm1. rewrite ziter_succ by lia. unfold radial_position. rewrite Erow.
    destruct (ziter k (radial_step dU ddV) (U, V, dV)) as [[U1 V1] dV1].
    destruct (gradient_store_color rdr height
      (to_jint (add_sqrt U1 (if flt V1 (of_int 0) then of_int 0 else V1))) (j * _alphaWidth rdr + k) m1)
      as (m2 & -> & Hm2); [done|apply to_jint_range|nia|].
    mred. eexists; split; [reflexivity|exact Hm2].
  - unfold ziter at 1 in E. simpl Nat.iter in E. rewrite E.
    destruct (ziter _ _ _) as [[U1 V1] dV1]. mred. eexists; split; [done|exact Hp].
Qed.

(** C37: both gradient routines return for every gradient, whatever its
    floating-point parameters (infinities and NaNs included): each paint pixel
    of the rectangle is the colour of the map at the clamped, wrapped or
    reflected position, with the map index between 0 and 255, and nothing
    outside the rectangle is written. *)
Theorem gradient_paint_spec (radial : bool) rdr height :
  gradient_ready rdr height ->
  let position := (if radial then radial_position else linear_position) rdr in
  exists paint,
    (if radial then genRadialGradientPaint else genLinearGradientPaint) rdr height =
      Some (set_paint paint rdr) /\
    paints rdr height (fun j c => gradient_color rdr (position j c)) (_paint rdr) paint /\
    (forall j c, 0 <= gradient_index (position j c) (_gradient_cycleMethod rdr) < GRADIENT_MAP_SIZE).
Proof.
  intros Hr position.
  assert (Hi : forall f, in_i32 f ->
    0 <= gradient_index f (_gradient_cycleMethod rdr) < GRADIENT_MAP_SIZE).
  { intros f Hf. destruct Hr as [Hc _ _ _ _ _]. destruct (pad_ok f _ Hf Hc) as [E Hb].
    unfold gradient_index, GRADIENT_MAP_SIZE. rewrite E in Hb. dlia. }
  subst position. destruct radial.
  - destruct (radial_ok rdr height Hr) as (paint & E & Hp). exists paint. split_and!; [done..|].
    intros j c. apply Hi. unfold radial_position. repeat case_match. all: apply to_jint_range.
  - destruct (linear_ok rdr height Hr) as (paint & E & Hp). exists paint. split_and!; [done..|].
    intros j c. apply Hi. apply to_jint_range.
Qed.

(** A grey ramp across four pixels, reflected. *)
Definition sample_gradient : Renderer :=
  zero_renderer <| set_alphaWidth := 4 |> <| set_paint := [0; 0; 0; 0; 9] |>
    <| set_gradient_colors := seqZ 0 256 |> <| set_gradient_cycleMethod := CYCLE_REFLECT |>
    <| set_lg_mx := of_int 32768 |>.

Lemma gradient_paint_spec_witness :
  exists paint, genLinearGradientPaint sample_gradient 1 = Some (set_paint paint sample_gradient) /\
    aget paint 1 = Some 128 /\ aget paint 2 = Some 255 /\ aget paint 3 = Some 127 /\ aget paint 4 = Some 9.
Proof.
  destruct (gradient_paint_spec false sample_gradient 1) as (paint & E & Hp & _).
  - split; [right; right; reflexivity|..]; vm_compute; first [discriminate | reflexivity].
  - exists paint. split; [exact E|]. unfold paints in Hp. rewrite !Hp. vm_compute. repeat split; reflexivity.
Defined.

(** ** Interpolation *)

Definition is_frac (f : Z) : Prop := 0 <= f <= 65535.

Lemma interp_arith x0 x1 f : is_byte x0 -> is_byte x1 -> is_frac f ->
  interp x0 x1 f = (x0 * (65536 - f) + x1 * f + 32768) / 65536.
Proof.
  unfold is_byte, is_frac, interp. intros. rewrite shiftl_mul by lia. pow2.
  rewrite i32_id by (unfold in_i32; nia). rewrite shiftr_div by lia. pow2. f_equal. lia.
Qed.

Lemma interp_mono x0 x1 y0 y1 f : is_byte x0 -> is_byte x1 -> is_byte y0 -> is_byte y1 -> is_frac f ->
  x0 <= y0 -> x1 <= y1 -> interp x0 x1 f <= interp y0 y1 f.
Proof.
  intros. rewrite !interp_arith by done. unfold is_frac in *. apply Z.div_le_mono; [lia|nia].
Qed.

Lemma interp_const x f : is_byte x -> is_frac f -> interp x x f = x.
Proof.
  intros. rewrite interp_arith by done. unfold is_frac in *.
  replace (x * (65536 - f) + x * f + 32768) with (x * 65536 + 32768) by lia. dlia.
Qed.

Lemma interp_byte x0 x1 f : is_byte x0 -> is_byte x1 -> is_frac f -> is_byte (interp x0 x1 f).
Proof.
  unfold is_byte. intros H0 H1 Hf. rewrite interp_arith by done. unfold is_frac in Hf.
  split; [apply Z.div_pos; nia|]. apply Z.lt_succ_r, Z.div_lt_upper_bound; nia.
Qed.

(** the fixed-point interpolation of two channel values rounds to
    nearest: it is within half a unit of the exact weighted mean, hence never
    outside the two values. *)
Theorem interp_rounds x0 x1 f : is_byte x0 -> is_byte x1 -> is_frac f ->
  2 * Z.abs (65536 * interp x0 x1 f - (x0 * (65536 - f) + x1 * f)) <= 65536 /\
  Z.min x0 x1 <= interp x0 x1 f <= Z.max x0 x1.
Proof.
  intros H0 H1 Hf. rewrite interp_arith by done. unfold is_byte, is_frac in *.
  set (t := x0 * (65536 - f) + x1 * f).
  assert (Z.min x0 x1 * 65536 <= t <= Z.max x0 x1 * 65536) by (subst t; nia).
  split; dlia.
Qed.

Lemma interp_rounds_witness : interp 10 20 0x8000 = 15 /\ 10 <= interp 10 20 0x8000 <= 20.
Proof.
  destruct (interp_rounds 10 20 0x8000) as [_ H]; [compute_true..|].
  split; [vm_compute; reflexivity|exact H].
Defined.

Create HintDb paint.
Lemma channel_byte x : is_byte (A x) /\ is_byte (R x) /\ is_byte (G x) /\ is_byte (B x).
Proof. exact (channel_range x). Qed.
#[export] Hint Extern 1 (is_byte (A _)) => apply channel_byte : paint.
#[export] Hint Extern 1 (is_byte (R _)) => apply channel_byte : paint.
#[export] Hint Extern 1 (is_byte (G _)) => apply channel_byte : paint.
#[export] Hint Extern 1 (is_byte (B _)) => apply channel_byte : paint.
#[export] Hint Resolve interp_byte : paint.

(** Interpolated channel quadruples keep the premultiplied order. *)
Lemma pack_sound a r g b : is_byte a -> is_byte r -> is_byte g -> is_byte b ->
  r <= a -> g <= a -> b <= a -> sound_pixel (pack a r g b).
Proof.
  intros Ha Hr Hg Hb ? ? ?. split; [apply pack_range|].
  destruct (pack_channels a r g b) as (EA & ER & EG & EB); [done..|].
  unfold premultiplied. by rewrite EA, ER, EG, EB.
Qed.

Lemma interpolate2_sound p0 p1 f : is_frac f -> premultiplied p0 -> premultiplied p1 ->
  sound_pixel (interpolate2points p0 p1 f).
Proof.
  intros Hf (?&?&?) (?&?&?). unfold interpolate2points.
  apply pack_sound; try apply interp_mono; auto with paint.
Qed.

Lemma interpolate4_sound p00 p01 p10 p11 h v : is_frac h -> is_frac v ->
  premultiplied p00 -> premultiplied p01 -> premultiplied p10 -> premultiplied p11 ->
  sound_pixel (interpolate4points p00 p01 p10 p11 h v).
Proof.
  intros Hh Hv (?&?&?) (?&?&?) (?&?&?) (?&?&?). unfold interpolate4points. cbv zeta.
  apply pack_sound; try (apply interp_mono; try apply interp_mono); auto 7 with paint.
Qed.

Lemma interpolate2NoAlpha_sound p0 p1 f : is_frac f -> sound_pixel (interpolate2pointsNoAlpha p0 p1 f).
Proof.
  intros Hf. unfold interpolate2pointsNoAlpha.
  assert (Hb : forall x0 x1, is_byte x0 -> is_byte x1 -> interp x0 x1 f <= 255).
  { intros x0 x1 H0 H1. by destruct (interp_byte x0 x1 f H0 H1 Hf). }
  apply pack_sound; try apply Hb; auto with paint. compute_true.
Qed.

Lemma interpolate4NoAlpha_sound p00 p01 p10 p11 h v : is_frac h -> is_frac v ->
  sound_pixel (interpolate4pointsNoAlpha p00 p01 p10 p11 h v).
Proof.
  intros Hh Hv. unfold interpolate4pointsNoAlpha. cbv zeta.
  assert (Hb : forall x0 x1, is_byte x0 -> is_byte x1 -> interp x0 x1 v <= 255).
  { intros x0 x1 H0 H1. by destruct (interp_byte x0 x1 v H0 H1 Hv). }
  apply pack_sound; try apply Hb; auto 7 with paint. compute_true.
Qed.

(** On opaque pixels the variants without alpha compute the same pixel as
    the general bilinear and linear interpolation. *)
Theorem interpolate_NoAlpha_equiv p00 p01 p10 p11 h v :
  is_frac h -> is_frac v -> A p00 = 255 -> A p01 = 255 -> A p10 = 255 -> A p11 = 255 ->
  interpolate4pointsNoAlpha p00 p01 p10 p11 h v = interpolate4points p00 p01 p10 p11 h v /\
  interpolate2pointsNoAlpha p00 p01 h = interpolate2points p00 p01 h.
Proof.
  intros Hh Hv H0 H1 H2 H3.
  unfold interpolate4pointsNoAlpha, interpolate4points, interpolate2pointsNoAlpha, interpolate2points.
  cbv zeta. assert (is_byte 255) by (unfold is_byte; lia).
  by rewrite H0, H1, H2, H3, !(interp_const 255) by done.
Qed.

Lemma interpolate_NoAlpha_equiv_witness :
  interpolate4pointsNoAlpha (-1) (-16777216) (-256) (-1) 1000 40000 =
  interpolate4points (-1) (-16777216) (-256) (-1) 1000 40000.
Proof.
  refine (proj1 (interpolate_NoAlpha_equiv (-1) (-16777216) (-256) (-1) 1000 40000 _ _ _ _ _ _));
    compute_true.
Defined.
