(* ===== verification/PiscesTextureSpec.v ===== *)
(** * Texture paint against its specification

    [genTexturePaintTarget] and the row routines below it, for every transform
    type and every repeat/interpolate mode: no read leaves the texture and
    every paint pixel is the texture sampled at the affine image of the pixel,
    clamped to the sub-texture or taken modulo its size. *)

From S2P Require Import Prelude Float32 PiscesTransform PiscesPixel PiscesState PiscesBlit.
From S2P Require Import PiscesPaint PiscesPaintSpec.

(** ** The texture *)

(** A texture of [_texture_imageWidth] by [_texture_imageHeight] pixels inside
    its array, with a sub-texture inside it.  Interpolation reads the texel
    right of and below the sampled one: it needs two rows and two columns. *)
Record texture_ready (rdr : Renderer) (tex : texture_ptr) : Prop := {
  tr_ptr : _texture_intData rdr = Some tex;
  tr_off : 0 <= tex_off tex;
  tr_xmin : 0 <= _texture_txMin rdr <= _texture_txMax rdr;
  tr_xmax : _texture_txMax rdr <= _texture_imageWidth rdr - 1;
  tr_ymin : 0 <= _texture_tyMin rdr <= _texture_tyMax rdr;
  tr_ymax : _texture_tyMax rdr <= _texture_imageHeight rdr - 1;
  tr_stride : _texture_imageWidth rdr <= _texture_stride rdr;
  tr_room : tex_off tex + (_texture_imageHeight rdr - 1) * _texture_stride rdr
            + _texture_imageWidth rdr <= alen (tex_data tex);
  tr_len : alen (tex_data tex) < 2 ^ 31;
  tr_interp : _texture_interpolate rdr = true ->
    2 <= _texture_imageWidth rdr /\ 2 <= _texture_imageHeight rdr
}.

Section texture.
Context (rdr : Renderer) (tex : texture_ptr) (Ht : texture_ready rdr tex).
Context (Q : Z -> Prop) (HQ : forall i p, aget (tex_data tex) i = Some p -> Q p).

Let W := _texture_imageWidth rdr.
Let H := _texture_imageHeight rdr.
Let stride := _texture_stride rdr.

Lemma texel_bound r c : 0 <= r <= H - 1 -> 0 <= c <= W - 1 ->
  0 <= r * stride + c /\ tex_off tex + (r * stride + c) < alen (tex_data tex) /\
  in_i32 (r * stride + c) /\
  (r < H - 1 -> r * stride + stride <= (H - 1) * stride).
Proof using Ht.
  subst W H stride. intros Hr Hc. destruct Ht. unfold in_i32.
  assert (0 <= r * _texture_stride rdr <= (_texture_imageHeight rdr - 1) * _texture_stride rdr) by nia.
  split_and!; try lia; try nia.
Qed.

Lemma texel_ok r c : 0 <= r <= H - 1 -> 0 <= c <= W - 1 ->
  exists v, tex_get tex (r * stride + c) = Some v /\ Q v.
Proof using Ht HQ.
  intros Hr Hc. destruct (texel_bound r c Hr Hc) as (?&?&_). destruct Ht.
  unfold tex_get. destruct (aget_ex (tex_data tex) (tex_off tex + (r * stride + c))) as [v Hv]; [lia|].
  exists v. split; [done|]. by eapply HQ.
Qed.

(** Coordinates that passed the bounds check: at most one before the first
    texel. *)
Definition coord_ok (tx ty : Z) : Prop := -1 <= tx <= W - 1 /\ -1 <= ty <= H - 1.

Lemma texel_index_ok tx ty : coord_ok tx ty ->
  texel_index rdr tx ty = Z.max 0 ty * stride + Z.max 0 tx /\
  0 <= Z.max 0 ty <= H - 1 /\ 0 <= Z.max 0 tx <= W - 1.
Proof using Ht.
  intros [Hx Hy]. assert (0 <= W - 1 /\ 0 <= H - 1) as [??] by (subst W H; destruct Ht; lia).
  unfold texel_index. rewrite !MAX_spec. fold stride.
  destruct (texel_bound (Z.max 0 ty) (Z.max 0 tx)) as (_&_&?&_); [lia..|].
  rewrite i32_id by done. split_and!; [done|lia..].
Qed.

Lemma texel_at x r c : x = r * stride + c -> 0 <= r <= H - 1 -> 0 <= c <= W - 1 ->
  exists v, tex_get tex x = Some v /\ Q v /\ i32 x = x.
Proof using Ht HQ.
  intros -> Hr Hc. destruct (texel_ok r c Hr Hc) as (v & ? & ?).
  destruct (texel_bound r c Hr Hc) as (_ & _ & ? & _). exists v. by rewrite i32_id.
Qed.

Ltac get_texel x r c :=
  let q := fresh "q" in let G := fresh "G" in let I := fresh "I" in
  destruct (texel_at x r c) as (q & G & ? & I); [nia|lia|lia|];
  rewrite ?I, ?G; mred.

Lemma points_ok tx ty p00 (repeat : bool) :
  _texture_interpolate rdr = true -> coord_ok tx ty -> Q p00 ->
  exists p01 p10 p11,
    (if repeat then getPointsToInterpolateRepeat else getPointsToInterpolate)
      tex (texel_index rdr tx ty) stride p00 tx (i32 (W - 1)) ty (i32 (H - 1)) = Some (p01, p10, p11) /\
    Q p01 /\ Q p10 /\ Q p11.
Proof using Ht HQ.
  intros Hi Hc Hp. destruct (texel_index_ok tx ty Hc) as (-> & Hr & Hcx). destruct Hc as [Hx Hy].
  set (r := Z.max 0 ty) in *. set (c := Z.max 0 tx) in *.
  assert (Hw : 2 <= W /\ 2 <= H) by (destruct Ht; auto).
  assert (HW : in_i32 (W - 1) /\ in_i32 (H - 1)).
  { destruct Ht. subst W H stride. unfold in_i32. split; nia. }
  rewrite (i32_id (W - 1)), (i32_id (H - 1)) by tauto.
  unfold getPointsToInterpolateRepeat, getPointsToInterpolate.
  destruct repeat; cbv zeta; rewrite ?MAX_spec, ?(Z.max_comm tx 0), Z.geb_leb; fold c;
    destruct (Z.leb_spec (H - 1) ty); destruct (Z.ltb_spec tx (W - 1)).
  - get_texel (r * stride + c + 1) r (c + 1). get_texel c 0 c. get_texel (c + 1) 0 (c + 1). eauto 10.
  - get_texel (r * stride + c - c) r 0. get_texel c 0 c. get_texel (c - c) 0 0. eauto 10.
  - get_texel (r * stride + c + 1) r (c + 1). get_texel (r * stride + c + stride) (r + 1) c.
    get_texel (r * stride + c + stride + 1) (r + 1) (c + 1). eauto 10.
  - get_texel (r * stride + c - c) r 0. get_texel (r * stride + c + stride) (r + 1) c.
    get_texel (r * stride + c + stride - c) (r + 1) 0. eauto 10.
  - get_texel (r * stride + c + 1) r (c + 1). get_texel (r * stride + c) r c. eauto 10.
  - get_texel (r * stride + c) r c. eauto 10.
  - get_texel (r * stride + c + 1) r (c + 1). get_texel (r * stride + c + stride) (r + 1) c.
    get_texel (r * stride + c + stride + 1) (r + 1) (c + 1). eauto 10.
  - get_texel (r * stride + c + stride) (r + 1) c. eauto 10.
Qed.

Lemma interpolated_ind four two p00 p01 p10 p11 h v :
  Q p00 -> Q (two p00 p01 h) -> Q (two p00 p10 v) -> Q (four p00 p01 p10 p11 h v) ->
  Q (interpolated four two p00 (p01, p10, p11) h v).
Proof using. intros. unfold interpolated. by repeat case_match. Qed.

(** Sampling at checked coordinates reads only texels. *)
Lemma sample_ok tx ty h v :
  (forall p00 p01 f, is_frac f -> Q p00 -> Q p01 ->
     Q (interpolate2points p00 p01 f) /\ Q (interpolate2pointsNoAlpha p00 p01 f)) ->
  (forall p00 p01 p10 p11 f g, is_frac f -> is_frac g -> Q p00 -> Q p01 -> Q p10 -> Q p11 ->
     Q (interpolate4points p00 p01 p10 p11 f g) /\ Q (interpolate4pointsNoAlpha p00 p01 p10 p11 f g)) ->
  coord_ok tx ty -> is_frac h -> is_frac v ->
  exists p, sample rdr tex (repeatInterpolateMode rdr) tx ty h v = Some p /\ Q p.
Proof using Ht HQ.
  intros Q2 Q4 Hc Hh Hv. unfold sample.
  destruct (texel_index_ok tx ty Hc) as (E & Hr & Hcx).
  destruct (texel_ok _ _ Hr Hcx) as (p00 & G & Q0). rewrite <- E in G. rewrite G. mred. cbv zeta.
  unfold repeatInterpolateMode. destruct (_texture_interpolate rdr) eqn:Ei.
  - fold W H stride.
    destruct (points_ok tx ty p00 (_texture_repeat rdr) Ei Hc Q0) as (p01 & p10 & p11 & Ep & Q1 & Q2' & Q3).
    destruct (Q2 p00 p01 h), (Q2 p00 p10 v), (Q4 p00 p01 p10 p11 h v); [done..|].
    destruct (_texture_hasAlpha rdr), (_texture_repeat rdr); rewrite Ep; mred;
      (eexists; split; [done|]; by apply interpolated_ind).
  - destruct (_texture_repeat rdr); eauto.
Qed.
End texture.

(** ** Coordinates *)

(** The 16.16 texture coordinates of the surface pixel ([X], [Y]). *)
Definition tex_u (rdr : Renderer) (X Y : Z) : Z :=
  X * _texture_m00 rdr + Y * _texture_m01 rdr + _texture_m02 rdr.
Definition tex_v (rdr : Renderer) (X Y : Z) : Z :=
  X * _texture_m10 rdr + Y * _texture_m11 rdr + _texture_m12 rdr.

(** The texture sampled at texel ([tx], [ty]) with the fractions of [u], [v]. *)
Definition sample_at (rdr : Renderer) (tex : texture_ptr) (tx ty u v : Z) : Z :=
  default 0 (sample rdr tex (repeatInterpolateMode rdr) tx ty (u mod 65536) (v mod 65536)).

Definition clampz (lo hi t : Z) : Z := Z.max lo (Z.min hi t).

Definition is_translate (rdr : Renderer) : bool :=
  (_texture_transformType rdr =? TEXTURE_TRANSFORM_IDENTITY) ||
  (_texture_transformType rdr =? TEXTURE_TRANSFORM_TRANSLATE).

Definition is_generic (rdr : Renderer) : bool := _texture_transformType rdr =? TEXTURE_TRANSFORM_GENERIC.

(** The smallest column index the bounds check lets through: the copying loop
    clamps to the sub-texture, the others to one texel before it. *)
Definition x_low (rdr : Renderer) : Z :=
  if is_translate rdr && negb (_texture_interpolate rdr) then _texture_txMin rdr
  else _texture_txMin rdr - 1.

(** The specification without repetition: the sample at the clamped texel,
    transparent outside the texture for a generic transform. *)
Definition clamp_pixel (rdr : Renderer) (tex : texture_ptr) (X Y : Z) : Z :=
  let u := tex_u rdr X Y in
  let v := tex_v rdr X Y in
  let tx := u / 65536 in
  let ty := v / 65536 in
  let x' := clampz (x_low rdr) (_texture_txMax rdr) tx in
  let y' := clampz (_texture_tyMin rdr - 1) (_texture_tyMax rdr) ty in
  if is_generic rdr && negb ((x' =? tx) && (y' =? ty)) then 0
  else sample_at rdr tex x' y' u v.

(** The specification with repetition: the coordinates modulo the size of the
    sub-texture (measured from the origin of the texture, as the code does). *)
Definition repeat_pixel (rdr : Renderer) (tex : texture_ptr) (X Y : Z) : Z :=
  let u := tex_u rdr X Y in
  let v := tex_v rdr X Y in
  sample_at rdr tex ((u / 65536) mod (_texture_txMax rdr + 1))
    ((v / 65536) mod (_texture_tyMax rdr + 1)) u v.

(** When the paint routine may be called. *)
Record target_ready (rdr : Renderer) (tex : texture_ptr) (height : Z) (paint : list Z) : Prop := {
  ta_tex : texture_ready rdr tex;
  ta_type : TEXTURE_TRANSFORM_IDENTITY <= _texture_transformType rdr <= TEXTURE_TRANSFORM_GENERIC;
  ta_affine : is_translate rdr = true ->
    _texture_m00 rdr = 65536 /\ _texture_m11 rdr = 65536 /\
    _texture_m01 rdr = 0 /\ _texture_m10 rdr = 0;
  ta_height : 0 <= height;
  ta_width : 0 < _alphaWidth rdr;
  ta_room : height * _alphaWidth rdr <= alen paint;
  ta_len : alen paint < 2 ^ 31;
  ta_assert : height * _alphaWidth rdr <= _paint_length rdr;
  ta_x : 0 <= _currX rdr /\ _currX rdr + _alphaWidth rdr <= 2 ^ 15;
  ta_y : 0 <= _currY rdr /\ _currY rdr + height <= 2 ^ 15;
  ta_coord : forall X Y, _currX rdr <= X < _currX rdr + _alphaWidth rdr ->
    _currY rdr <= Y < _currY rdr + height ->
    - 2 ^ 47 <= tex_u rdr X Y < 2 ^ 47 /\ - 2 ^ 47 <= tex_v rdr X Y < 2 ^ 47
}.

(** With repetition the period must fit 16.16 and the coordinates must not
    start or step below zero. *)
Record repeat_ready (rdr : Renderer) (height : Z) : Prop := {
  re_x : _texture_txMax rdr + 1 < 2 ^ 15;
  re_y : _texture_tyMax rdr + 1 < 2 ^ 15;
  re_step : 0 <= _texture_m00 rdr < 2 ^ 31 /\ 0 <= _texture_m10 rdr < 2 ^ 31;
  re_start : forall Y, _currY rdr <= Y < _currY rdr + height ->
    0 <= tex_u rdr (_currX rdr) Y /\ 0 <= tex_v rdr (_currX rdr) Y
}.

Lemma i64_add a b : i64 (i64 a + b) = i64 (a + b).
Proof.
  unfold i64. f_equal.
  replace ((a + 2 ^ 63) mod 2 ^ 64 - 2 ^ 63 + b + 2 ^ 63) with ((a + 2 ^ 63) mod 2 ^ 64 + b) by lia.
  rewrite Zplus_mod_idemp_l. f_equal. lia.
Qed.

Lemma repeats_mode rdr : repeats (repeatInterpolateMode rdr) = _texture_repeat rdr.
Proof.
  unfold repeatInterpolateMode.
  by destruct (_texture_interpolate rdr), (_texture_hasAlpha rdr), (_texture_repeat rdr).
Qed.

Lemma mod_frac u : is_frac (u mod 65536).
Proof. unfold is_frac. dlia. Qed.

Lemma texel_coord u : - 2 ^ 47 <= u < 2 ^ 47 -> i32 (u >> 16) = u / 65536 /\ in_i32 (u / 65536).
Proof.
  intros Hu. rewrite shiftr_div by lia. pow2.
  assert (in_i32 (u / 65536)) by (unfold in_i32; dlia). by rewrite i32_id.
Qed.

Lemma checkBoundsNoRepeat_clamp a min max : min <= max -> checkBoundsNoRepeat a min max = clampz min max a.
Proof. intros. unfold checkBoundsNoRepeat, clampz. rewrite Z.gtb_ltb. case_bools; lia. Qed.

(** Storing one paint pixel. *)
Lemma paint_store_ok rdr m p v : 0 <= p < alen m -> p < _paint_length rdr ->
  exists m', paint_store rdr m p v = Some m' /\ pointwise m m' (fun i w => if i =? p then v else w).
Proof.
  intros Hp Hl. unfold paint_store. case_bools. destruct (aset_ok m p v Hp) as (m' & -> & Hm').
  exists m'. split; [done|]. intros i. rewrite Hm'.
  destruct (Z.eqb_spec i p) as [->|]; [|by destruct (aget m i)].
  by destruct (aget_ex m p Hp) as [w ->].
Qed.

Lemma period_div a n : 0 < n -> (a mod (n * 65536)) / 65536 = (a / 65536) mod n.
Proof.
  intros. rewrite (Z.mul_comm n), Z.rem_mul_r by lia.
  rewrite (Z.mul_comm 65536), Z.div_add, (Z.div_small (a mod 65536)) by dlia. lia.
Qed.

Lemma period_mod a n : 0 < n -> (a mod (n * 65536)) mod 65536 = a mod 65536.
Proof.
  intros. rewrite (Z.mul_comm n), Z.rem_mul_r by lia.
  rewrite (Z.mul_comm 65536), Z.mod_add, Z.mod_mod by lia. done.
Qed.

(** The reduction of a coordinate that starts or has stepped past the
    period. *)
Lemma checkBoundsRepeat_wrap la lo max :
  0 <= max -> max + 1 < 2 ^ 15 -> 0 <= la < 2 ^ 47 ->
  checkBoundsRepeat (i32 (la >> 16)) la lo max =
    Some ((la / 65536) mod (max + 1), la mod ((max + 1) * 65536)).
Proof.
  intros Hm Hm2 Hla. destruct (texel_coord la) as [-> _]; [lia|]. unfold checkBoundsRepeat.
  assert (0 <= la / 65536) by dlia.
  rewrite Z.gtb_ltb. destruct ((la / 65536 <? lo) || (max <? la / 65536)) eqn:Eb.
  - rewrite Z.geb_leb. destruct (Z.leb_spec 0 max); [|lia].
    rewrite shiftl_mul by lia. pow2. rewrite i32_id by (unfold in_i32; lia). unfold lmod.
    destruct (Z.eqb_spec ((max + 1) * 65536) 0); [lia|]. rewrite Z.rem_mod_nonneg by lia.
    pose proof (Z.mod_pos_bound la ((max + 1) * 65536) ltac:(lia)) as Hb.
    destruct (Z.ltb_spec (la mod ((max + 1) * 65536)) 0); [lia|]. mred.
    destruct (texel_coord (la mod ((max + 1) * 65536))) as [-> _]; [lia|].
    by rewrite period_div by lia.
  - apply orb_false_iff in Eb as [_ Eb]. apply Z.ltb_ge in Eb.
    rewrite !Z.mod_small by dlia. done.
Qed.

(** ** Pixels *)

Section rows.
Context (rdr : Renderer) (tex : texture_ptr) (height : Z) (paint : list Z).
Context (Hr : target_ready rdr tex height paint).

Lemma sample_some tx ty u v : coord_ok rdr tx ty ->
  sample rdr tex (repeatInterpolateMode rdr) tx ty (u mod 65536) (v mod 65536) =
    Some (sample_at rdr tex tx ty u v).
Proof using Hr.
  intros Hc. destruct (sample_ok rdr tex (ta_tex _ _ _ _ Hr) (fun _ => True) (fun _ _ _ => I)
    tx ty (u mod 65536) (v mod 65536)) as (p & E & _); auto using mod_frac.
  unfold sample_at. by rewrite E.
Qed.

Lemma clamp_coord tx ty lo : _texture_txMin rdr - 1 <= lo <= _texture_txMax rdr ->
  coord_ok rdr (clampz lo (_texture_txMax rdr) tx)
    (clampz (_texture_tyMin rdr - 1) (_texture_tyMax rdr) ty).
Proof using Hr. intros. destruct Hr as [[] _ _ _ _ _ _ _ _ _ _]. unfold coord_ok, clampz. lia. Qed.

Lemma min_minus1 : i32 (_texture_txMin rdr - 1) = _texture_txMin rdr - 1 /\
  i32 (_texture_tyMin rdr - 1) = _texture_tyMin rdr - 1.
Proof using Hr.
  destruct Hr as [[] _ _ _ _ _ _ _ _ _ _]. rewrite !i32_id by (unfold in_i32; nia). done.
Qed.

Lemma scale_clamp u v : _texture_repeat rdr = false ->
  - 2 ^ 47 <= u < 2 ^ 47 -> - 2 ^ 47 <= v < 2 ^ 47 ->
  scale_pixel rdr tex (repeatInterpolateMode rdr) u v =
    Some (sample_at rdr tex (clampz (_texture_txMin rdr - 1) (_texture_txMax rdr) (u / 65536))
            (clampz (_texture_tyMin rdr - 1) (_texture_tyMax rdr) (v / 65536)) u v,
          i64 (u + _texture_m00 rdr), i64 (v + _texture_m10 rdr)).
Proof using Hr.
  intros Hrep Hu Hv. unfold scale_pixel. rewrite repeats_mode, Hrep. unfold check_bounds. mred.
  destruct min_minus1 as [-> ->]. destruct (texel_coord u Hu) as [-> _], (texel_coord v Hv) as [-> _].
  pose proof (ta_tex _ _ _ _ Hr) as [].
  rewrite !checkBoundsNoRepeat_clamp, !land_0xffff by lia.
  rewrite sample_some by (apply clamp_coord; lia). done.
Qed.

Lemma inBounds_clamp t lo hi : lo <= hi -> isInBoundsNoRepeat t lo hi = (clampz lo hi t =? t).
Proof using. intros. unfold isInBoundsNoRepeat, clampz. rewrite Z.gtb_ltb. case_bools; done. Qed.

Lemma generic_clamp u v : _texture_repeat rdr = false ->
  - 2 ^ 47 <= u < 2 ^ 47 -> - 2 ^ 47 <= v < 2 ^ 47 ->
  let x' := clampz (_texture_txMin rdr - 1) (_texture_txMax rdr) (u / 65536) in
  let y' := clampz (_texture_tyMin rdr - 1) (_texture_tyMax rdr) (v / 65536) in
  generic_pixel rdr tex (repeatInterpolateMode rdr) u v =
    Some (if (x' =? u / 65536) && (y' =? v / 65536) then sample_at rdr tex x' y' u v else 0,
          i64 (u + _texture_m00 rdr), i64 (v + _texture_m10 rdr)).
Proof using Hr.
  intros Hrep Hu Hv x' y'. unfold generic_pixel. rewrite repeats_mode, Hrep.
  destruct min_minus1 as [-> ->]. destruct (texel_coord u Hu) as [-> _], (texel_coord v Hv) as [-> _].
  pose proof (ta_tex _ _ _ _ Hr) as [].
  rewrite !inBounds_clamp, !land_0xffff by lia. fold x' y'.
  destruct (Z.eqb_spec x' (u / 65536)) as [Ex|], (Z.eqb_spec y' (v / 65536)) as [Ey|]; mred; try done.
  simpl andb. cbv iota. rewrite <- Ex, <- Ey, sample_some by (apply clamp_coord; lia). done.
Qed.

(** One pixel with repetition: the sample at the reduced coordinates and the
    next, reduced and stepped, coordinates. *)
Lemma repeat_coord tx ty : 0 <= tx < _texture_txMax rdr + 1 -> 0 <= ty < _texture_tyMax rdr + 1 ->
  coord_ok rdr tx ty.
Proof using Hr. intros. destruct Hr as [[] _ _ _ _ _ _ _ _ _ _]. unfold coord_ok. lia. Qed.

Lemma scale_repeat u v : _texture_repeat rdr = true -> repeat_ready rdr height ->
  0 <= u < 2 ^ 47 -> 0 <= v < 2 ^ 47 ->
  scale_pixel rdr tex (repeatInterpolateMode rdr) u v =
    Some (sample_at rdr tex ((u / 65536) mod (_texture_txMax rdr + 1))
            ((v / 65536) mod (_texture_tyMax rdr + 1)) u v,
          u mod ((_texture_txMax rdr + 1) * 65536) + _texture_m00 rdr,
          v mod ((_texture_tyMax rdr + 1) * 65536) + _texture_m10 rdr).
Proof using Hr.
  intros Hrep [Rx Ry Rs _] Hu Hv. unfold scale_pixel. rewrite repeats_mode, Hrep. unfold check_bounds.
  pose proof (ta_tex _ _ _ _ Hr) as [].
  rewrite !checkBoundsRepeat_wrap by lia. mred. rewrite !land_0xffff.
  rewrite sample_some by (apply repeat_coord; apply Z.mod_pos_bound; lia). mred.
  pose proof (Z.mod_pos_bound u ((_texture_txMax rdr + 1) * 65536) ltac:(lia)).
  pose proof (Z.mod_pos_bound v ((_texture_tyMax rdr + 1) * 65536) ltac:(lia)).
  rewrite !i64_id by (unfold in_i64; lia). done.
Qed.
(** *** Rows *)

Lemma tex_step X Y : tex_u rdr (X + 1) Y = tex_u rdr X Y + _texture_m00 rdr /\
  tex_v rdr (X + 1) Y = tex_v rdr X Y + _texture_m10 rdr.
Proof using. unfold tex_u, tex_v. lia. Qed.

Lemma row_room j : 0 <= j < height ->
  0 <= j * _alphaWidth rdr /\ j * _alphaWidth rdr + _alphaWidth rdr <= alen paint /\
  j * _alphaWidth rdr + _alphaWidth rdr <= _paint_length rdr.
Proof using Hr. intros. destruct Hr as [_ _ _ ? ? ? ? ? _ _ _]. nia. Qed.

Lemma coord_row j k : 0 <= j < height -> 0 <= k < _alphaWidth rdr ->
  - 2 ^ 47 <= tex_u rdr (_currX rdr + k) (_currY rdr + j) < 2 ^ 47 /\
  - 2 ^ 47 <= tex_v rdr (_currX rdr + k) (_currY rdr + j) < 2 ^ 47.
Proof using Hr. intros. apply (ta_coord _ _ _ _ Hr); lia. Qed.

Lemma row_start_coord j : 0 <= j < height ->
  row_coordinates rdr (_currX rdr) (_currY rdr + j) =
    (i64 (tex_u rdr (_currX rdr + 0) (_currY rdr + j)), i64 (tex_v rdr (_currX rdr + 0) (_currY rdr + j))).
Proof using. intros. by rewrite Z.add_0_r. Qed.

(** The value of a pixel whose routine computes it from exact coordinates. *)
Lemma transformed_clamp j m : _texture_repeat rdr = false -> is_translate rdr = false ->
  0 <= j < height -> alen m = alen paint ->
  exists m', transformed_row rdr tex (if is_generic rdr then generic_pixel else scale_pixel)
               (_currY rdr + j) (j * _alphaWidth rdr) m = Some m' /\
    pointwise m m' (span_fn (j * _alphaWidth rdr) (_alphaWidth rdr)
      (fun c _ => clamp_pixel rdr tex (_currX rdr + c) (_currY rdr + j))).
Proof using Hr.
  intros Hrep Htr Hj Hm. destruct (row_room j Hj) as (? & ? & ?). pose proof (ta_width _ _ _ _ Hr).
  unfold transformed_row. rewrite row_start_coord by done.
  edestruct (row_writer_ok (_alphaWidth rdr) (j * _alphaWidth rdr) m
    (fun k '(ltx, lty, paint) =>
         '(cval, ltx, lty) ← (if is_generic rdr then generic_pixel else scale_pixel)
                                rdr tex (repeatInterpolateMode rdr) ltx lty;
         paint ← paint_store rdr paint (j * _alphaWidth rdr + k) cval;
         Some (ltx, lty, paint))
    (fun k => (i64 (tex_u rdr (_currX rdr + k) (_currY rdr + j)),
               i64 (tex_v rdr (_currX rdr + k) (_currY rdr + j))))) as (m' & E & Hp);
    [lia..| |rewrite E; mred; eexists; split; [done|exact Hp]].
  intros k m1 Hk Hm1. cbv beta iota. destruct (coord_row j k Hj Hk) as [Hu Hv].
  rewrite Z.add_assoc. destruct (tex_step (_currX rdr + k) (_currY rdr + j)) as [-> ->].
  rewrite (i64_id (tex_u rdr (_currX rdr + k) (_currY rdr + j))) by (unfold in_i64; lia).
  rewrite (i64_id (tex_v rdr (_currX rdr + k) (_currY rdr + j))) by (unfold in_i64; lia).
  assert (Epix : (if is_generic rdr then generic_pixel else scale_pixel) rdr tex (repeatInterpolateMode rdr)
      (tex_u rdr (_currX rdr + k) (_currY rdr + j)) (tex_v rdr (_currX rdr + k) (_currY rdr + j)) =
    Some (clamp_pixel rdr tex (_currX rdr + k) (_currY rdr + j),
          i64 (tex_u rdr (_currX rdr + k) (_currY rdr + j) + _texture_m00 rdr),
          i64 (tex_v rdr (_currX rdr + k) (_currY rdr + j) + _texture_m10 rdr))).
  { unfold clamp_pixel, x_low. rewrite Htr. cbn [andb]. destruct (is_generic rdr).
    - rewrite generic_clamp by done. cbn [andb]. by destruct (_ && _).
    - by rewrite scale_clamp. }
  rewrite Epix. mred.
  destruct (paint_store_ok rdr m1 (j * _alphaWidth rdr + k)
    (clamp_pixel rdr tex (_currX rdr + k) (_currY rdr + j))) as (m2 & -> & Hm2); [lia..|].
  mred. eexists; split; [reflexivity|]. exact Hm2.
Qed.

(** Two coordinates with the same reduction are sampled alike. *)
Lemma sample_at_period u u' v v' nx ny : 0 < nx -> 0 < ny ->
  u' mod (nx * 65536) = u mod (nx * 65536) -> v' mod (ny * 65536) = v mod (ny * 65536) ->
  sample_at rdr tex ((u' / 65536) mod nx) ((v' / 65536) mod ny) u' v' =
  sample_at rdr tex ((u / 65536) mod nx) ((v / 65536) mod ny) u v.
Proof using.
  intros Hx Hy Eu Ev. unfold sample_at.
  rewrite <- !period_div by done. rewrite <- (period_mod u' nx), <- (period_mod v' ny) by done.
  rewrite Eu, Ev. by rewrite !period_mod by done.
Qed.

Lemma mod_step a b n m : 0 < n -> a mod n = b mod n -> (a mod n + m) mod n = (b + m) mod n.
Proof using. intros Hn E. rewrite E. apply Zplus_mod_idemp_l. Qed.

Lemma transformed_repeat j m : _texture_repeat rdr = true -> repeat_ready rdr height ->
  0 <= j < height -> alen m = alen paint ->
  exists m', transformed_row rdr tex (if is_generic rdr then generic_pixel else scale_pixel)
               (_currY rdr + j) (j * _alphaWidth rdr) m = Some m' /\
    pointwise m m' (span_fn (j * _alphaWidth rdr) (_alphaWidth rdr)
      (fun c _ => repeat_pixel rdr tex (_currX rdr + c) (_currY rdr + j))).
Proof using Hr.
  intros Hrep Hre Hj Hm. destruct (row_room j Hj) as (? & ? & ?). pose proof (ta_width _ _ _ _ Hr).
  pose proof (ta_tex _ _ _ _ Hr) as HT. pose proof (tr_xmin _ _ HT). pose proof (tr_ymin _ _ HT).
  pose proof Hre as [Rx Ry Rs R0]. destruct (coord_row j 0 Hj ltac:(lia)) as [Hu0 Hv0].
  destruct (R0 (_currY rdr + j)) as [Pu Pv]; [lia|]. rewrite Z.add_0_r in Hu0, Hv0.
  set (nx := _texture_txMax rdr + 1) in *. set (ny := _texture_tyMax rdr + 1) in *.
  unfold transformed_row. rewrite row_start_coord, Z.add_0_r by done.
  rewrite !i64_id by (unfold in_i64; lia).
  edestruct (row_writer_inv
    (fun k '(u, v) => 0 <= u < 2 ^ 47 /\ 0 <= v < 2 ^ 47 /\
       u mod (nx * 65536) = tex_u rdr (_currX rdr + k) (_currY rdr + j) mod (nx * 65536) /\
       v mod (ny * 65536) = tex_v rdr (_currX rdr + k) (_currY rdr + j) mod (ny * 65536))
    (_alphaWidth rdr) (j * _alphaWidth rdr) m
    (fun k '(ltx, lty, paint) =>
         '(cval, ltx, lty) ← (if is_generic rdr then generic_pixel else scale_pixel)
                                rdr tex (repeatInterpolateMode rdr) ltx lty;
         paint ← paint_store rdr paint (j * _alphaWidth rdr + k) cval;
         Some (ltx, lty, paint))) as ([u' v'] & m' & E & _ & Hp);
    [lia..| | |rewrite E; mred; eexists; split; [done|exact Hp]].
  { rewrite !Z.add_0_r. split_and!; done || lia. }
  intros k [u v] m1 Hk Hm1 (Hu & Hv & Eu & Ev). cbv beta iota.
  assert (Epix : (if is_generic rdr then generic_pixel else scale_pixel) rdr tex (repeatInterpolateMode rdr) u v =
    Some (repeat_pixel rdr tex (_currX rdr + k) (_currY rdr + j),
          u mod (nx * 65536) + _texture_m00 rdr, v mod (ny * 65536) + _texture_m10 rdr)).
  { unfold repeat_pixel. rewrite <- (sample_at_period _ u _ v nx ny) by (done || lia).
    rewrite <- scale_repeat by done. destruct (is_generic rdr); [|done].
    unfold generic_pixel. by rewrite repeats_mode, Hrep. }
  rewrite Epix. mred.
  destruct (paint_store_ok rdr m1 (j * _alphaWidth rdr + k)
    (repeat_pixel rdr tex (_currX rdr + k) (_currY rdr + j))) as (m2 & -> & Hm2); [lia..|].
  mred. eexists _, _. split; [reflexivity|]. split; [|exact Hm2].
  rewrite Z.add_assoc. destruct (tex_step (_currX rdr + k) (_currY rdr + j)) as [-> ->].
  pose proof (Z.mod_pos_bound u (nx * 65536) ltac:(lia)).
  pose proof (Z.mod_pos_bound v (ny * 65536) ltac:(lia)).
  split_and!; try lia; apply mod_step; (done || lia).
Qed.
(** *** Translated rows *)

(** A segment filled from a total source. *)
Lemma segment_ok n p m (src : Z -> option Z) (val : Z -> Z) :
  0 <= n -> 0 <= p -> p + n <= alen m -> (forall k, 0 <= k < n -> src k = Some (val k)) ->
  exists m', for_lt n (fun k paint => v ← src k; aset paint (p + k) v) m = Some m' /\
    pointwise m m' (span_fn p n (fun c _ => val c)).
Proof using.
  intros Hn Hp Hl Hs.
  destruct (for_lt_inv (fun k m1 => pointwise m m1 (span_fn p k (fun c _ => val c))) n
    (fun k paint => v ← src k; aset paint (p + k) v) m) as (m' & E & Hm).
  - eapply pointwise_ext; [|apply pointwise_refl]. intros. by rewrite span_fn_0.
  - intros k m1 Hk Hm1. rewrite Hs by done. mred.
    apply (span_act (fun _ => True) m m1 p k _ (fun i m => aset m i (val k))); [lia..|done|done|].
    by apply acts_as_aset.
  - exists m'. split; [exact E|]. by replace (Z.max 0 n) with n in Hm by lia.
Qed.

(** Two adjacent segments of the same row. *)
Lemma segment_join m1 m2 m3 p a b val : 0 <= a -> 0 <= b ->
  pointwise m1 m2 (span_fn p a (fun c _ => val c)) ->
  pointwise m2 m3 (span_fn (p + a) b (fun c _ => val (a + c))) ->
  pointwise m1 m3 (span_fn p (a + b) (fun c _ => val c)).
Proof using.
  intros Ha Hb H1 H2. eapply pointwise_ext; [|exact (pointwise_trans _ _ _ _ _ H1 H2)].
  intros i v _. unfold span_fn. case_bools; try done. f_equal. lia.
Qed.

(** The left border of the copying loop. *)
Lemma left_border_ok w p t0 txMin m v (src : option Z) : 0 <= w -> 0 <= p -> p + w <= alen m ->
  in_i32 t0 -> in_i32 txMin -> src = Some v ->
  exists n m',
    while_fuel (Z.to_nat w) (fun '(a, tx, _) => (tx <? txMin) && (a <? p + w))
      (fun '(a, tx, paint) => v ← src; paint ← aset paint a v; Some (a + 1, i32 (tx + 1), paint))
      (p, t0, m) = Some (p + n, t0 + n, m') /\
    0 <= n <= w /\ (forall c, 0 <= c < n -> t0 + c < txMin) /\ (n = w \/ txMin <= t0 + n) /\
    pointwise m m' (span_fn p n (fun _ _ => v)).
Proof using.
  intros Hw Hp Hl Ht Hx ->. unfold in_i32 in *.
  destruct (while_fuel_inv
    (fun '(a, tx, m') => exists n, a = p + n /\ tx = t0 + n /\ 0 <= n <= w /\
       (forall c, 0 <= c < n -> t0 + c < txMin) /\ pointwise m m' (span_fn p n (fun _ _ => v)))
    (fun '(a, _, _) => Z.to_nat (p + w - a))
    (fun '(a, tx, _) => (tx <? txMin) && (a <? p + w))
    (fun '(a, tx, paint) => v ← Some v; paint ← aset paint a v; Some (a + 1, i32 (tx + 1), paint))
    (Z.to_nat w) (p, t0, m)) as ([[a tx] m'] & E & (n & -> & -> & Hn & Hc & Hm) & He).
  - exists 0. split_and!; try lia. eapply pointwise_ext; [|apply pointwise_refl].
    intros. by rewrite span_fn_0.
  - lia.
  - intros [[a tx] m'] (n & -> & -> & Hn & Hc & Hm) Hcond.
    apply andb_true_iff in Hcond as [H1%Z.ltb_lt H2%Z.ltb_lt]. mred.
    destruct (span_act (fun _ => True) m m' p n (fun _ _ => v) (fun i m => aset m i v))
      as (m'' & -> & Hm''); [lia..|done|done|by apply acts_as_aset|].
    mred. rewrite i32_id by (unfold in_i32; lia). eexists; split; [done|]. split; [|lia].
    exists (n + 1). split_and!; (done || lia).
  - exists n, m'. split_and!; (done || lia).
Qed.

(** The texels of one row, clamped to the sub-texture. *)
Definition row_texel (ty x : Z) : Z := default 0 (tex_get tex (texel_index rdr x ty)).

Lemma row_texels ty : coord_ok rdr 0 ty ->
  let row := Z.max 0 ty * _texture_stride rdr in
  i32 (MAX 0 ty * _texture_stride rdr) = row /\
  in_i32 (_texture_txMin rdr) /\ _texture_txMax rdr + 1 < 2 ^ 31 /\
  (forall x, _texture_txMin rdr <= x <= _texture_txMax rdr -> tex_get tex (row + x) = Some (row_texel ty x)).
Proof using Hr.
  intros Hc row. pose proof (ta_tex _ _ _ _ Hr) as HT. pose proof HT as [_ _ ? ? ? ? _ _ _ _].
  pose proof Hc as [_ Hy].
  destruct (texel_bound rdr tex HT (Z.max 0 ty) (_texture_imageWidth rdr - 1)) as (_&?&Hb&_); [lia..|].
  split_and!.
  - rewrite MAX_spec. fold row in Hb |- *. unfold in_i32 in Hb. apply i32_id. unfold in_i32.
    assert (0 <= row) by (destruct HT; unfold row; nia). lia.
  - destruct HT. unfold in_i32. nia.
  - destruct HT. unfold in_i32. nia.
  - intros x Hx. destruct (texel_index_ok rdr tex HT x ty) as (E & H1 & H2); [unfold coord_ok in *; lia|].
    destruct (texel_ok rdr tex HT (fun _ => True) (fun _ _ _ => I) _ _ H1 H2) as (v & Ev & _).
    unfold row_texel. rewrite E. replace (Z.max 0 x) with x in * by lia. fold row in Ev |- *. by rewrite Ev.
Qed.

(** The copied run in the middle: [n] columns are done, [t] is the texel of
    the next one. *)
Lemma copied_run_ok ty p n t0 m m1 (col := fun c => row_texel ty
    (clampz (_texture_txMin rdr) (_texture_txMax rdr) (t0 + c))) :
  coord_ok rdr 0 ty -> in_i32 t0 -> 0 <= p -> p + _alphaWidth rdr <= alen m ->
  0 <= n <= _alphaWidth rdr -> n = _alphaWidth rdr \/ _texture_txMin rdr <= t0 + n ->
  t0 + n <= Z.max t0 (_texture_txMin rdr) ->
  pointwise m m1 (span_fn p n (fun c _ => col c)) ->
  let row := Z.max 0 ty * _texture_stride rdr in
  let len := MIN (p + _alphaWidth rdr - (p + n)) (i32 (_texture_txMax rdr - (t0 + n) + 1)) in
  exists l m2, 0 <= l <= _alphaWidth rdr - n /\
    (if 0 <? len then
       paint ← for_lt len (fun k paint => v ← tex_get tex (row + (t0 + n) + k); aset paint (p + n + k) v) m1;
       Some (p + n + len, paint)
     else Some (p + n, m1)) = Some (p + n + l, m2) /\
    pointwise m m2 (span_fn p (n + l) (fun c _ => col c)) /\
    (n + l = _alphaWidth rdr \/ _texture_txMax rdr < t0 + n + l).
Proof using Hr.
  intros Hc It Hp Hl Hn Hstop Hmax Hm1 row len. pose proof (pointwise_alen _ _ _ Hm1) as L1.
  destruct (row_texels ty Hc) as (_ & Imin & Imax & Hval).
  pose proof (tr_xmin _ _ (ta_tex _ _ _ _ Hr)) as Hmm. unfold in_i32 in *.
  assert (Hlen : (len <= 0 /\ (n = _alphaWidth rdr \/ _texture_txMax rdr < t0 + n)) \/
    (0 < len /\ len = Z.min (_alphaWidth rdr - n) (_texture_txMax rdr - (t0 + n) + 1) /\
     _texture_txMin rdr <= t0 + n)).
  { unfold len. rewrite MIN_spec. destruct Hstop as [->|Hstop]; [left; split; [lia|by left]|].
    destruct (decide (n = _alphaWidth rdr)) as [->|]; [left; split; [lia|by left]|].
    rewrite i32_id by (unfold in_i32; lia). lia. }
  destruct Hlen as [[Hle Hor]|(Hlt & El & Hge)].
  - exists 0, m1. destruct (Z.ltb_spec 0 len); [lia|]. rewrite !Z.add_0_r.
    split_and!; [lia|lia|done|done|lia].
  - exists len. destruct (Z.ltb_spec 0 len); [|lia].
    destruct (segment_ok len (p + n) m1 (fun k => tex_get tex (row + (t0 + n) + k)) (fun k => col (n + k)))
      as (m2 & -> & Hm2); [lia..| |].
    { intros k Hk. replace (row + (t0 + n) + k) with (row + (t0 + n + k)) by lia. rewrite Hval by lia. unfold col. do 2 f_equal. unfold clampz. lia. }
    mred. exists m2. split_and!; [lia|lia|done| |lia].
    apply (segment_join m m1 m2); [lia..|done|exact Hm2].
Qed.

Lemma copy_row_ok ty u p m : coord_ok rdr 0 ty -> - 2 ^ 47 <= u < 2 ^ 47 ->
  0 <= p -> p + _alphaWidth rdr <= alen m ->
  exists m', translate_copy_row rdr tex ty u p (_alphaWidth rdr) m = Some m' /\
    pointwise m m' (span_fn p (_alphaWidth rdr)
      (fun c _ => row_texel ty (clampz (_texture_txMin rdr) (_texture_txMax rdr) (u / 65536 + c)))).
Proof using Hr.
  intros Hc Hu Hp Hl. pose proof (ta_width _ _ _ _ Hr).
  destruct (texel_coord u Hu) as [Eu Iu]. set (t0 := u / 65536) in *.
  destruct (row_texels ty Hc) as (Er & Imin & Imax & Hval).
  pose proof (tr_xmin _ _ (ta_tex _ _ _ _ Hr)) as Hmm.
  unfold translate_copy_row. rewrite Er, Eu. set (row := Z.max 0 ty * _texture_stride rdr) in *.
  destruct (left_border_ok (_alphaWidth rdr) p t0 (_texture_txMin rdr) m (row_texel ty (_texture_txMin rdr))
    (tex_get tex (row + _texture_txMin rdr))) as (n & m1 & -> & Hn & Hleft & Hstop & Hm1);
    [lia..|done|done|by apply Hval; lia|].
  mred. set (col c := row_texel ty (clampz (_texture_txMin rdr) (_texture_txMax rdr) (t0 + c))).
  assert (H1 : pointwise m m1 (span_fn p n (fun c _ => col c))).
  { eapply pointwise_ext; [|exact Hm1]. intros i v _. unfold span_fn. case_bools; try done.
    unfold col. f_equal. unfold clampz. specialize (Hleft (i - p) ltac:(lia)). lia. }
  assert (Hmax : t0 + n <= Z.max t0 (_texture_txMin rdr)).
  { destruct (decide (n = 0)); [lia|]. specialize (Hleft (n - 1) ltac:(lia)). lia. }
  destruct (copied_run_ok ty p n t0 m m1) as (l & m2 & Hl2 & E2 & Hm2 & Hor); [done..|].
  fold row in E2. cbv zeta. rewrite E2. mred.
  replace (p + _alphaWidth rdr - (p + n + l)) with (_alphaWidth rdr - (n + l)) by lia.
  destruct (segment_ok (_alphaWidth rdr - (n + l)) (p + n + l) m2
    (fun _ => tex_get tex (row + _texture_txMax rdr)) (fun k => col (n + l + k))) as (m3 & -> & Hm3);
    [lia|lia|rewrite (pointwise_alen _ _ _ Hm2); lia| |].
  { intros k Hk. rewrite Hval by lia. unfold col. do 2 f_equal. unfold clampz. lia. }
  exists m3. split; [done|]. fold col.
  replace (_alphaWidth rdr) with (n + l + (_alphaWidth rdr - (n + l))) by lia.
  apply (segment_join m m2 m3); [lia..|done|]. by rewrite Z.add_assoc.
Qed.
Lemma translate_uv : is_translate rdr = true ->
  (forall X Y, tex_u rdr X Y = X * 65536 + _texture_m02 rdr /\ tex_v rdr X Y = Y * 65536 + _texture_m12 rdr).
Proof using Hr.
  intros Htr X Y. destruct (ta_affine _ _ _ _ Hr Htr) as (E1 & E2 & E3 & E4).
  unfold tex_u, tex_v. rewrite E1, E2, E3, E4. lia.
Qed.

Lemma translate_start j : is_translate rdr = true -> 0 <= j < height ->
  i64 (i32 (_currX rdr << 16) + _texture_m02 rdr) = tex_u rdr (_currX rdr) (_currY rdr + j) /\
  i64 (i32 ((_currY rdr + j) << 16) + _texture_m12 rdr) = tex_v rdr (_currX rdr) (_currY rdr + j).
Proof using Hr.
  intros Htr Hj. destruct (translate_uv Htr (_currX rdr) (_currY rdr + j)) as [Eu Ev].
  pose proof Hr as [_ _ _ _ ? _ _ _ ? ? _]. destruct (coord_row j 0 Hj) as [Hu Hv]; [lia|].
  rewrite Z.add_0_r, Eu in Hu. rewrite Z.add_0_r, Ev in Hv.
  rewrite !(shiftl_mul _ 16) by lia. pow2. rewrite !(i32_id (_ * 65536)) by (unfold in_i32; lia).
  rewrite !i64_id by (unfold in_i64; lia). by rewrite Eu, Ev.
Qed.

(** Columns of a translated row: the fractions and the texel row are those of
    its first pixel. *)
Lemma translate_col j k : is_translate rdr = true ->
  let u0 := tex_u rdr (_currX rdr) (_currY rdr + j) in
  let u := tex_u rdr (_currX rdr + k) (_currY rdr + j) in
  tex_v rdr (_currX rdr + k) (_currY rdr + j) = tex_v rdr (_currX rdr) (_currY rdr + j) /\
  u = u0 + k * 65536 /\ u mod 65536 = u0 mod 65536 /\ u / 65536 = u0 / 65536 + k.
Proof using Hr.
  intros Htr u0 u. destruct (translate_uv Htr (_currX rdr) (_currY rdr + j)) as [Eu Ev].
  destruct (translate_uv Htr (_currX rdr + k) (_currY rdr + j)) as [Eu' Ev'].
  assert (E : u = u0 + k * 65536) by (unfold u, u0; lia).
  split; [congruence|]. split; [done|]. rewrite E. split; [apply Z.mod_add|apply Z.div_add]; lia.
Qed.

Lemma translate_clamp j m : _texture_repeat rdr = false -> is_translate rdr = true ->
  0 <= j < height -> alen m = alen paint ->
  exists m', translate_row rdr tex (_currY rdr + j) (j * _alphaWidth rdr) m = Some m' /\
    pointwise m m' (span_fn (j * _alphaWidth rdr) (_alphaWidth rdr)
      (fun c _ => clamp_pixel rdr tex (_currX rdr + c) (_currY rdr + j))).
Proof using Hr.
  intros Hrep Htr Hj Hm. destruct (row_room j Hj) as (? & ? & ?). pose proof (ta_width _ _ _ _ Hr).
  assert (Hgen : is_generic rdr = false).
  { unfold is_translate, is_generic in *. apply Z.eqb_neq.
    apply orb_true_iff in Htr as [E%Z.eqb_eq|E%Z.eqb_eq]; rewrite E; discriminate. }
  unfold translate_row. destruct (translate_start j Htr Hj) as [-> ->].
  destruct (coord_row j 0 Hj) as [Hu0 Hv0]; [lia|]. rewrite Z.add_0_r in Hu0, Hv0.
  set (u0 := tex_u rdr (_currX rdr) (_currY rdr + j)) in *.
  set (v0 := tex_v rdr (_currX rdr) (_currY rdr + j)) in *.
  rewrite Hrep. unfold check_bounds at 1. mred. destruct min_minus1 as [Mx My]. rewrite My.
  destruct (texel_coord v0 Hv0) as [-> _]. pose proof (ta_tex _ _ _ _ Hr) as HT.
  pose proof HT as [_ _ ? ? ? ? _ _ _ _]. rewrite checkBoundsNoRepeat_clamp by lia.
  set (y' := clampz (_texture_tyMin rdr - 1) (_texture_tyMax rdr) (v0 / 65536)).
  destruct (_texture_interpolate rdr) eqn:Ei.
  - assert (Emode : exists b, repeatInterpolateMode rdr =
      if b : bool then NO_REPEAT_INTERPOLATE_ALPHA else NO_REPEAT_INTERPOLATE_NO_ALPHA).
    { unfold repeatInterpolateMode. rewrite Ei, Hrep. by exists (_texture_hasAlpha rdr). }
    edestruct (row_writer_ok (_alphaWidth rdr) (j * _alphaWidth rdr) m
      (fun k '(ltx, paint) =>
         '(cval, ltx) ← translate_pixel rdr tex (repeatInterpolateMode rdr) y' (u0 & 0xffff) (v0 & 0xffff) ltx;
         paint ← paint_store rdr paint (j * _alphaWidth rdr + k) cval;
         Some (ltx, paint))
      (fun k => i64 (tex_u rdr (_currX rdr + k) (_currY rdr + j)))
      (fun k => clamp_pixel rdr tex (_currX rdr + k) (_currY rdr + j))) as (m' & E & Hp); [lia..| |].
    + intros k m1 Hk Hm1. cbv beta iota. destruct (coord_row j k Hj Hk) as [Hu _].
      destruct (translate_col j k Htr) as (Ev & Eu & Em & Ed). fold u0 v0 in Ev, Eu, Em, Ed.
      rewrite (i64_id (tex_u rdr (_currX rdr + k) (_currY rdr + j))) by (unfold in_i64; lia).
      unfold translate_pixel, check_bounds. rewrite repeats_mode, Hrep. mred.
      destruct (texel_coord _ Hu) as [-> _]. rewrite Mx, checkBoundsNoRepeat_clamp by lia.
      rewrite !land_0xffff, <- Em, sample_some by (apply clamp_coord; lia). mred.
      destruct (paint_store_ok rdr m1 (j * _alphaWidth rdr + k)
        (clamp_pixel rdr tex (_currX rdr + k) (_currY rdr + j))) as (m2 & Es & Hm2); [lia..|].
      unfold clamp_pixel, x_low in Es. rewrite Hgen, Htr, Ei, Ev in Es. cbn [andb negb] in Es.
      fold y' in Es. rewrite Es. mred. exists m2. split; [|exact Hm2]. do 3 f_equal.
      rewrite Z.add_assoc. rewrite (proj1 (tex_step _ _)). by rewrite (proj1 (ta_affine _ _ _ _ Hr Htr)).
    + rewrite Z.add_0_r in E. fold u0 in E. rewrite (i64_id u0) in E by (unfold in_i64; lia).
      exists m'. split; [|exact Hp].
      destruct Emode as [[] Em]; rewrite Em in E |- *; rewrite E; mred; done.
  - assert (Emode : repeatInterpolateMode rdr = NO_REPEAT_NO_INTERPOLATE).
    { unfold repeatInterpolateMode. by rewrite Ei, Hrep. }
    rewrite Emode. destruct (copy_row_ok y' u0 (j * _alphaWidth rdr) m) as (m' & E & Hp);
      [|done|lia|lia|].
    { unfold coord_ok, y', clampz. lia. }
    exists m'. split; [done|]. eapply pointwise_ext; [|exact Hp]. intros i v _.
    unfold span_fn. case_bools; try done. set (c := i - j * _alphaWidth rdr).
    destruct (translate_col j c Htr) as (Ev & Eu & Em & Ed). fold u0 v0 in Ev, Eu, Em, Ed.
    unfold clamp_pixel, x_low. rewrite Hgen, Htr, Ei, Ev. cbn [andb negb]. fold y'.
    unfold sample_at, sample, row_texel. rewrite Emode, Ed. by destruct (tex_get _ _).
Qed.
Lemma translate_repeat j m : _texture_repeat rdr = true -> repeat_ready rdr height ->
  is_translate rdr = true -> 0 <= j < height -> alen m = alen paint ->
  exists m', translate_row rdr tex (_currY rdr + j) (j * _alphaWidth rdr) m = Some m' /\
    pointwise m m' (span_fn (j * _alphaWidth rdr) (_alphaWidth rdr)
      (fun c _ => repeat_pixel rdr tex (_currX rdr + c) (_currY rdr + j))).
Proof using Hr.
  intros Hrep Hre Htr Hj Hm. destruct (row_room j Hj) as (? & ? & ?). pose proof (ta_width _ _ _ _ Hr).
  pose proof (ta_tex _ _ _ _ Hr) as HT. pose proof (tr_xmin _ _ HT). pose proof (tr_ymin _ _ HT).
  pose proof Hre as [Rx Ry Rs R0]. destruct (coord_row j 0 Hj ltac:(lia)) as [Hu0 Hv0].
  destruct (R0 (_currY rdr + j)) as [Pu Pv]; [lia|]. rewrite Z.add_0_r in Hu0, Hv0.
  unfold translate_row. destruct (translate_start j Htr Hj) as [-> ->].
  set (u0 := tex_u rdr (_currX rdr) (_currY rdr + j)) in *.
  set (v0 := tex_v rdr (_currX rdr) (_currY rdr + j)) in *.
  rewrite Hrep. unfold check_bounds at 1. rewrite checkBoundsRepeat_wrap by lia. mred.
  set (nx := _texture_txMax rdr + 1) in *. set (ny := _texture_tyMax rdr + 1) in *.
  edestruct (row_writer_inv
    (fun k u => 0 <= u < 2 ^ 47 /\
       u mod (nx * 65536) = tex_u rdr (_currX rdr + k) (_currY rdr + j) mod (nx * 65536))
    (_alphaWidth rdr) (j * _alphaWidth rdr) m
    (fun k '(ltx, paint) =>
       '(cval, ltx) ← translate_pixel rdr tex (repeatInterpolateMode rdr) ((v0 / 65536) mod ny)
                        (u0 & 0xffff) (v0 & 0xffff) ltx;
       paint ← paint_store rdr paint (j * _alphaWidth rdr + k) cval;
       Some (ltx, paint)) u0
    (fun k => repeat_pixel rdr tex (_currX rdr + k) (_currY rdr + j))) as (u' & m' & E & _ & Hp);
    [lia..| | |].
  - rewrite Z.add_0_r. split; [lia|done].
  - intros k u m1 Hk Hm1 (Hu & Eu). cbv beta iota.
    destruct (translate_col j k Htr) as (Ev & Eu' & Em & Ed). fold u0 v0 in Ev, Eu', Em, Ed.
    unfold translate_pixel, check_bounds. rewrite repeats_mode, Hrep, checkBoundsRepeat_wrap by lia. mred.
    assert (Ef : u0 mod 65536 = u mod 65536).
    { rewrite <- Em, <- (period_mod _ nx), <- Eu, period_mod by lia. done. }
    fold nx. rewrite !land_0xffff, Ef, sample_some by (apply repeat_coord; apply Z.mod_pos_bound; lia). mred.
    destruct (paint_store_ok rdr m1 (j * _alphaWidth rdr + k)
      (repeat_pixel rdr tex (_currX rdr + k) (_currY rdr + j))) as (m2 & Es & Hm2); [lia..|].
    unfold repeat_pixel in Es. rewrite Ev in Es. fold v0 nx ny in Es.
    rewrite <- (sample_at_period _ u _ v0 nx ny) in Es by (done || lia). rewrite Es. mred.
    pose proof (Z.mod_pos_bound u (nx * 65536) ltac:(lia)).
    rewrite i64_id by (unfold in_i64; lia). eexists _, m2. split; [reflexivity|]. split; [|exact Hm2].
    rewrite Z.add_assoc, (proj1 (tex_step _ _)), (proj1 (ta_affine _ _ _ _ Hr Htr)).
    split; [lia|]. apply mod_step; (done || lia).
  - exists m'. split; [|exact Hp].
    assert (Hmode : repeatInterpolateMode rdr <> NO_REPEAT_NO_INTERPOLATE).
    { intros Em. pose proof (repeats_mode rdr) as F. rewrite Em, Hrep in F. done. }
    destruct (repeatInterpolateMode rdr); try done; rewrite E; by mred.
Qed.
End rows.

(** ** The whole paint *)

Lemma target_rows_ok rdr tex height paint (row : texture_ptr -> Z -> Z -> list Z -> option (list Z)) px :
  target_ready rdr tex height paint ->
  (forall j m, 0 <= j < height -> alen m = alen paint ->
     exists m', row tex (_currY rdr + j) (j * _alphaWidth rdr) m = Some m' /\
       pointwise m m' (span_fn (j * _alphaWidth rdr) (_alphaWidth rdr)
         (fun c _ => px (_currX rdr + c) (_currY rdr + j)))) ->
  exists paint',
    ('(_, paint) ←
      for_lt height
        (fun j '(paintOffset, paint) =>
           txtData ← _texture_intData rdr;
           paint ← row txtData (i32 (_currY rdr + j)) paintOffset paint;
           Some (i32 (paintOffset + _alphaWidth rdr), paint))
        (0, paint);
     Some paint) = Some paint' /\
    paints rdr height (fun j c => px (_currX rdr + c) (_currY rdr + j)) paint paint'.
Proof.
  intros Hr Hrow. pose proof Hr as [HT _ _ ? ? ? ? _ _ Hy _].
  edestruct (paint_rows_ok height (_alphaWidth rdr) paint) as (o & paint' & E & Hp);
    [lia..| |rewrite E; mred; eexists; split; [done|exact Hp]].
  intros j m Hj Hm. cbv beta iota. rewrite (tr_ptr _ _ HT). mred.
  rewrite (i32_id (_currY rdr + j)) by (unfold in_i32; lia). destruct (Hrow j m Hj Hm) as (m' & -> & Hm'). mred.
  eexists; split; [reflexivity|]. exact Hm'.
Qed.

(** The value the specification assigns to a pixel. *)
Definition texture_pixel (rdr : Renderer) (tex : texture_ptr) (X Y : Z) : Z :=
  if _texture_repeat rdr then repeat_pixel rdr tex X Y else clamp_pixel rdr tex X Y.

Lemma target_ok rdr tex height paint : target_ready rdr tex height paint ->
  (_texture_repeat rdr = true -> repeat_ready rdr height) ->
  exists paint', genTexturePaintTarget rdr paint height = Some paint' /\
    paints rdr height (fun j c => texture_pixel rdr tex (_currX rdr + c) (_currY rdr + j)) paint paint'.
Proof.
  intros Hr Hre. unfold genTexturePaintTarget. cbv zeta. fold (is_translate rdr).
  destruct (is_translate rdr) eqn:Htr.
  - apply (target_rows_ok rdr tex height paint (translate_row rdr) (texture_pixel rdr tex)); [done|].
    intros j m Hj Hm. unfold texture_pixel. destruct (_texture_repeat rdr) eqn:Erep.
    + exact (translate_repeat rdr tex height paint Hr j m Erep (Hre eq_refl) Htr Hj Hm).
    + exact (translate_clamp rdr tex height paint Hr j m Erep Htr Hj Hm).
  - assert (Hrows : exists paint',
      ('(_, paint) ←
        for_lt height
          (fun j '(paintOffset, paint) =>
             txtData ← _texture_intData rdr;
             paint ← transformed_row rdr txtData (if is_generic rdr then generic_pixel else scale_pixel)
                       (i32 (_currY rdr + j)) paintOffset paint;
             Some (i32 (paintOffset + _alphaWidth rdr), paint))
          (0, paint);
       Some paint) = Some paint' /\
      paints rdr height (fun j c => texture_pixel rdr tex (_currX rdr + c) (_currY rdr + j)) paint paint').
    { apply (target_rows_ok rdr tex height paint (fun txtData => transformed_row rdr txtData _)
        (texture_pixel rdr tex)); [done|].
      intros j m Hj Hm. unfold texture_pixel. destruct (_texture_repeat rdr) eqn:Erep.
      + exact (transformed_repeat rdr tex height paint Hr j m Erep (Hre eq_refl) Hj Hm).
      + exact (transformed_clamp rdr tex height paint Hr j m Erep Htr Hj Hm). }
    pose proof (ta_type _ _ _ _ Hr) as Hty. unfold is_generic, is_translate in *.
    unfold TEXTURE_TRANSFORM_IDENTITY, TEXTURE_TRANSFORM_TRANSLATE, TEXTURE_TRANSFORM_SCALE_TRANSLATE,
      TEXTURE_TRANSFORM_GENERIC in *.
    apply orb_false_iff in Htr as [H1%Z.eqb_neq H2%Z.eqb_neq].
    destruct (Z.eqb_spec (_texture_transformType rdr) 3) as [E3|].
    + rewrite E3 in Hrows. exact Hrows.
    + assert (E4 : _texture_transformType rdr = 4) by lia. rewrite E4 in Hrows |- *. exact Hrows.
Qed.


(** A 2 by 2 texture, translated by half a pixel, interpolated. *)
Definition sample_texture : texture_ptr := TexturePtr 0 0 [-1; -16777216; -16777216; -1].

Definition sample_textured : Renderer :=
  zero_renderer <| set_alphaWidth := 3 |> <| set_paint := [1; 2; 3; 4] |> <| set_paint_length := 4 |>
    <| set_texture_intData := Some sample_texture |> <| set_texture_imageWidth := 2 |>
    <| set_texture_imageHeight := 2 |> <| set_texture_stride := 2 |>
    <| set_texture_txMax := 1 |> <| set_texture_tyMax := 1 |>
    <| set_texture_m00 := 65536 |> <| set_texture_m11 := 65536 |> <| set_texture_m02 := 32768 |>
    <| set_texture_interpolate := true |> <| set_texture_hasAlpha := true |>
    <| set_texture_transformType := TEXTURE_TRANSFORM_TRANSLATE |>.

Lemma sample_target_ready : target_ready sample_textured sample_texture 1 (_paint sample_textured).
Proof.
  assert (HT : texture_ready sample_textured sample_texture).
  { split; [..|intros _]; compute_true. }
  split; [exact HT|compute_true|intros _; compute_true|compute_true..|].
  intros X Y HX HY. unfold tex_u, tex_v. simpl in *. lia.
Qed.


(** ** Painted pixels are premultiplied *)

Lemma sample_at_sound rdr tex tx ty u v : texture_ready rdr tex ->
  (forall i p, aget (tex_data tex) i = Some p -> sound_pixel p) -> coord_ok rdr tx ty ->
  sound_pixel (sample_at rdr tex tx ty u v).
Proof.
  intros HT Hs Hc. destruct (sample_ok rdr tex HT sound_pixel Hs tx ty (u mod 65536) (v mod 65536))
    as (p & E & Hp); auto using mod_frac.
  - intros p00 p01 f Hf [_ H0] [_ H1].
    split; [by apply interpolate2_sound|by apply interpolate2NoAlpha_sound].
  - intros p00 p01 p10 p11 f g Hf Hg [_ H0] [_ H1] [_ H2] [_ H3].
    split; [by apply interpolate4_sound|by apply interpolate4NoAlpha_sound].
  - unfold sample_at. by rewrite E.
Qed.

Lemma texture_pixel_sound rdr tex X Y : texture_ready rdr tex ->
  (forall i p, aget (tex_data tex) i = Some p -> sound_pixel p) ->
  sound_pixel (texture_pixel rdr tex X Y).
Proof.
  intros HT Hs. pose proof HT as [_ _ Hx Hx' Hy Hy' _ _ _ _]. unfold texture_pixel.
  destruct (_texture_repeat rdr).
  - apply sample_at_sound; [done..|]. unfold coord_ok.
    pose proof (Z.mod_pos_bound (tex_u rdr X Y / 65536) (_texture_txMax rdr + 1) ltac:(lia)).
    pose proof (Z.mod_pos_bound (tex_v rdr X Y / 65536) (_texture_tyMax rdr + 1) ltac:(lia)). lia.
  - unfold clamp_pixel. destruct (_ && _); [compute_true|].
    apply sample_at_sound; [done..|]. unfold coord_ok, clampz, x_low. destruct (_ && _); lia.
Qed.

(** All pixels of the painted rectangle satisfy what their values satisfy. *)
Lemma paints_inv (P : Z -> Prop) rdr height val paint paint' i p :
  paints rdr height val paint paint' -> 0 < _alphaWidth rdr -> 0 <= i < height * _alphaWidth rdr ->
  (forall j c, 0 <= j < height -> 0 <= c < _alphaWidth rdr -> P (val j c)) ->
  aget paint' i = Some p -> P p.
Proof.
  intros Hp Hw Hi HP E. rewrite Hp in E. destruct (aget paint i) as [v|]; simpl in E; simplify_eq.
  unfold rect_fn. rewrite Z.sub_0_r.
  pose proof (Z.mod_pos_bound i (_alphaWidth rdr) Hw). pose proof (Z.div_mod i (_alphaWidth rdr)).
  assert (0 <= i / _alphaWidth rdr < height)
    by (split; [apply Z.div_pos; lia|apply Z.div_lt_upper_bound; lia]).
  case_bools. apply HP; lia.
Qed.

(** ** Multiplication *)

Lemma multiply_rows_ok h w m (f : Z -> Z -> option Z) (g : Z -> Z -> Z) :
  0 <= h -> 0 < w -> h * w <= alen m -> alen m < 2 ^ 31 ->
  (forall i v, aget m i = Some v -> i < h * w -> f i v = Some (g i v)) ->
  exists m', multiply_rows h w w f m = Some m' /\
    pointwise m m' (fun i v => if i <? h * w then g i v else v).
Proof.
  intros Hh Hw Hl Hm Hf. unfold multiply_rows.
  destruct (for_lt_inv (fun j m' => pointwise m m' (fun i v => if i <? j * w then g i v else v)) h
    (fun i paint => let idx := i32 (i * w) in
       for_lt w (fun j paint => aupd paint (idx + j) (f (idx + j))) paint) m) as (m' & E & Hm').
  - eapply pointwise_ext; [|apply pointwise_refl]. intros i v Hv%aget_Some_range. case_bools; done.
  - intros j m1 Hj Hm1. cbv zeta. assert (0 <= j * w /\ j * w + w <= h * w) as [??] by nia.
    rewrite i32_id by (unfold in_i32; lia).
    destruct (for_lt_inv (fun k m' => pointwise m m' (fun i v => if i <? j * w + k then g i v else v)) w
      (fun k paint => aupd paint (j * w + k) (f (j * w + k))) m1) as (m2 & E & Hm2).
    + by rewrite Z.add_0_r.
    + intros k m2 Hk Hm2. destruct (aget_ex m (j * w + k)) as [v0 Hv0]; [lia|].
      destruct (aupd_pointwise m2 (j * w + k) (f (j * w + k)) (g (j * w + k))) as (m3 & -> & Hm3).
      { rewrite (pointwise_alen _ _ _ Hm2). lia. }
      { intros v Hv. rewrite Hm2, Hv0 in Hv. simpl in Hv. destruct (Z.ltb_spec (j * w + k) (j * w + k)); [lia|].
        simplify_eq. apply Hf; [done|lia]. }
      eexists; split; [done|]. eapply pointwise_ext; [|exact (pointwise_trans _ _ _ _ _ Hm2 Hm3)].
      intros i v _. cbv beta. destruct (Z.eqb_spec i (j * w + k)) as [->|]; case_bools; done.
    + rewrite E. eexists; split; [done|]. replace (Z.max 0 w) with w in Hm2 by lia.
      eapply pointwise_ext; [|exact Hm2]. intros i v _. cbv beta. by replace ((j + 1) * w) with (j * w + w) by lia.
  - exists m'. split; [exact E|]. by replace (Z.max 0 h) with h in Hm' by lia.
Qed.

(** White leaves the texel's colour to its alpha. *)
Lemma multiply_white pa tval : 1 <= pa <= 256 ->
  multiply_color pa 255 255 255 tval = multiply_alpha pa tval.
Proof.
  intros Hpa. unfold multiply_color, multiply_alpha. change (255 + 1) with 256.
  assert (Hs : forall x, is_byte x -> i32 (256 * x) >> 8 = x).
  { unfold is_byte. intros x Hx. rewrite i32_id by (unfold in_i32; lia). bits_to_arith. dlia. }
  destruct (channel_byte tval) as (_ & ? & ? & ?). rewrite !Hs by done.
  by rewrite !(Z.mul_comm _ pa).
Qed.

Lemma multiply_opaque tval : in_i32 tval -> multiply_alpha 256 tval = tval.
Proof.
  intros Ht. unfold multiply_alpha.
  assert (Hs : forall x, is_byte x -> i32 (256 * x) >> 8 = x).
  { unfold is_byte. intros x Hx. rewrite i32_id by (unfold in_i32; lia). bits_to_arith. dlia. }
  destruct (channel_byte tval) as (? & ? & ? & ?). rewrite !Hs by done. by apply pack_unpack.
Qed.

(** Multiplying keeps pixels premultiplied. *)
Lemma multiply_sound pa pr pg pb tval : 1 <= pa <= 256 -> is_byte pr -> is_byte pg -> is_byte pb ->
  sound_pixel tval -> sound_pixel (multiply_color pa pr pg pb tval).
Proof.
  intros Hpa Hr Hg Hb [_ (?&?&?)]. destruct (channel_byte tval) as (? & ? & ? & ?).
  assert (Hc : forall c x, is_byte c -> is_byte x -> x <= A tval ->
    is_byte (i32 ((i32 ((c + 1) * x) >> 8) * pa) >> 8) /\
    i32 ((i32 ((c + 1) * x) >> 8) * pa) >> 8 <= i32 (pa * A tval) >> 8).
  { intros c x Hc Hx Hxa. unfold is_byte in *.
    rewrite (i32_id ((c + 1) * x)), (i32_id (pa * A tval)) by (unfold in_i32; nia). bits_to_arith.
    assert (0 <= (c + 1) * x / 256 <= x)
      by (split; [apply Z.div_pos; nia|apply Z.div_le_upper_bound; nia]).
    rewrite i32_id by (unfold in_i32; nia).
    assert (0 <= (c + 1) * x / 256 * pa <= pa * A tval) by nia.
    split; [split; [apply Z.div_pos; lia|apply Z.div_le_upper_bound; nia]|].
    apply Z.div_le_mono; lia. }
  assert (Ha : is_byte (i32 (pa * A tval) >> 8)).
  { unfold is_byte in *. rewrite i32_id by (unfold in_i32; nia). bits_to_arith.
    split; [apply Z.div_pos; nia|apply Z.div_le_upper_bound; nia]. }
  unfold multiply_color. destruct (Hc pr (R tval)), (Hc pg (G tval)), (Hc pb (B tval)); try done.
  by apply pack_sound.
Qed.

Record multiply_ready (rdr : Renderer) (tex : texture_ptr) (height : Z) : Prop := {
  mu_target : target_ready rdr tex height (_paint rdr);
  mu_repeat : _texture_repeat rdr = true -> repeat_ready rdr height;
  mu_pixels : forall i p, aget (tex_data tex) i = Some p -> sound_pixel p;
  mu_width : i32 (_maxTouched rdr - _minTouched rdr + 1) = _alphaWidth rdr;
  mu_red : is_byte (_cred rdr);
  mu_green : is_byte (_cgreen rdr);
  mu_blue : is_byte (_cblue rdr);
  mu_alpha : is_byte (_calpha rdr)
}.

Definition multiply_flat (rdr : Renderer) (p : Z) : Z :=
  multiply_color (_calpha rdr + 1) (_cred rdr) (_cgreen rdr) (_cblue rdr) p.

(** Repainting the rectangle pixel by pixel. *)
Lemma paints_map rdr height val g paint paint1 paint2 : 0 < _alphaWidth rdr -> 0 <= height ->
  paints rdr height val paint paint1 ->
  pointwise paint1 paint2 (fun i v => if i <? height * _alphaWidth rdr then g v else v) ->
  paints rdr height (fun j c => g (val j c)) paint paint2.
Proof.
  intros Hw Hh H1 H2. eapply pointwise_ext; [|exact (pointwise_trans _ _ _ _ _ H1 H2)].
  intros i v Hv%aget_Some_range. cbv beta. unfold rect_fn. rewrite Z.sub_0_r.
  pose proof (Z.mod_pos_bound i (_alphaWidth rdr) Hw). pose proof (Z.div_mod i (_alphaWidth rdr)).
  assert (Hd : i / _alphaWidth rdr < height <-> i < height * _alphaWidth rdr).
  { split; intros; [nia|apply Z.div_lt_upper_bound; lia]. }
  assert (0 <= i / _alphaWidth rdr) by (apply Z.div_pos; lia).
  case_bools; try done; exfalso; tauto || lia.
Qed.

(** An image multiplied with a flat colour: on all three branches (white
    and opaque, white and translucent, coloured) the paint is the sampled
    texture multiplied by the colour and its alpha with the one formula
    [multiply_color], and it is premultiplied when the texture is. *)
Theorem genTexturePaintMultiply_flat alloc rdr tex height :
  multiply_ready rdr tex height -> _prevPaintMode rdr = PAINT_FLAT_COLOR ->
  exists paint, genTexturePaintMultiply alloc rdr height = Some (set_paint paint rdr) /\
    paints rdr height
      (fun j c => multiply_flat rdr (texture_pixel rdr tex (_currX rdr + c) (_currY rdr + j)))
      (_paint rdr) paint /\
    (forall i p, 0 <= i < height * _alphaWidth rdr -> aget paint i = Some p -> sound_pixel p).
Proof.
  intros [Ht Hre Hs Hw Hr Hg Hb Ha] Hmode. unfold genTexturePaintMultiply. rewrite Hmode, Hw.
  change (PAINT_FLAT_COLOR =? PAINT_FLAT_COLOR) with true. cbv iota.
  pose proof Ht as [HT _ _ Hh Hwd Hroom Hlen _ _ _ _].
  destruct (target_ok rdr tex height _ Ht Hre) as (paint1 & -> & Hp1). mred.
  pose proof (pointwise_alen _ _ _ Hp1) as L1.
  assert (Hpix : forall i v, aget paint1 i = Some v -> i < height * _alphaWidth rdr -> sound_pixel v).
  { intros i v Hv Hi. pose proof (aget_Some_range _ _ _ Hv).
    apply (paints_inv sound_pixel rdr height _ (_paint rdr) paint1 i v Hp1); [done|lia| |done].
    intros. by apply texture_pixel_sound. }
  assert (H2 : exists paint2,
    (if (_cred rdr =? 255) && (_cgreen rdr =? 255) && (_cblue rdr =? 255) then
       if _calpha rdr <? 255 then
         multiply_rows height (_alphaWidth rdr) (_alphaWidth rdr)
           (fun _ tval => Some (multiply_alpha (_calpha rdr + 1) tval)) paint1
       else Some paint1
     else multiply_rows height (_alphaWidth rdr) (_alphaWidth rdr)
            (fun _ tval => Some (multiply_flat rdr tval)) paint1) = Some paint2 /\
    pointwise paint1 paint2 (fun i v => if i <? height * _alphaWidth rdr then multiply_flat rdr v else v)).
  { unfold multiply_flat, is_byte in *.
    destruct (Z.eqb_spec (_cred rdr) 255) as [->|], (Z.eqb_spec (_cgreen rdr) 255) as [->|],
      (Z.eqb_spec (_cblue rdr) 255) as [->|]; cbn [andb]; try (apply multiply_rows_ok; done || lia).
    destruct (Z.ltb_spec (_calpha rdr) 255).
    - apply multiply_rows_ok; try (done || lia). intros i v _ _. by rewrite multiply_white by lia.
    - exists paint1. split; [done|]. eapply pointwise_ext; [|apply pointwise_refl].
      intros i v Hv. case_bools; try done. destruct (Hpix i v) as [? _]; [done..|].
      replace (_calpha rdr + 1) with 256 by lia. by rewrite multiply_white, multiply_opaque by (lia || done). }
  destruct H2 as (paint2 & E & Hp2). unfold multiply_flat in E. rewrite E. mred.
  pose proof (paints_map _ _ _ _ _ _ _ Hwd Hh Hp1 Hp2) as Hp. exists paint2. split_and!; [done|exact Hp|].
  intros i p Hi Hv. apply (paints_inv sound_pixel _ _ _ _ _ i p Hp Hwd Hi); [|done].
  intros. unfold multiply_flat, is_byte in *. apply multiply_sound; (unfold is_byte; lia) || by apply texture_pixel_sound.
Qed.

Lemma genTexturePaintMultiply_flat_witness :
  let rdr := sample_textured <| set_calpha := 127 |> <| set_cred := 255 |> <| set_maxTouched := 2 |> in
  exists paint, genTexturePaintMultiply false rdr 1 = Some (set_paint paint rdr) /\
    aget paint 1 = Some (multiply_color 128 255 0 0 (-16777216)) /\ aget paint 3 = Some 4.
Proof.
  intros rdr. destruct (genTexturePaintMultiply_flat false rdr sample_texture 1) as (paint & E & Hp & _).
  - assert (HT : texture_ready rdr sample_texture) by (split; [..|intros _]; compute_true).
    split; [|discriminate| |compute_true..].
    + split; [exact HT|compute_true|intros _; compute_true|compute_true..|].
      intros X Y HX HY. unfold tex_u, tex_v. simpl in *. lia.
    + intros i p. apply (aget_Forall sound_pixel). change (tex_data _) with [-1; -16777216; -16777216; -1].
      forall_list.
  - reflexivity.
  - exists paint. split; [exact E|]. unfold paints in Hp. rewrite !Hp. vm_compute. repeat split; reflexivity.
Defined.

(** ** Behaviour at the border *)

(** A one-pixel texture scaled up with interpolation.  [renderer_setTexture]
    shifts the origin by half a texel, so the first surface pixel has texel
    coordinate -1; the bounds check lets -1 through and -1 is less than
    [txtWidth - 1], so the texel to the right of the only one is read. *)
Definition one_pixel : Renderer :=
  sample_textured <| set_texture_intData := Some (TexturePtr 0 0 [-1]) |>
    <| set_texture_imageWidth := 1 |> <| set_texture_imageHeight := 1 |> <| set_texture_stride := 1 |>
    <| set_texture_txMax := 0 |> <| set_texture_tyMax := 0 |>
    <| set_texture_m00 := 32768 |> <| set_texture_m11 := 32768 |>
    <| set_texture_m02 := -16384 |> <| set_texture_m12 := -16384 |>
    <| set_texture_transformType := TEXTURE_TRANSFORM_SCALE_TRANSLATE |>.

Example one_pixel_overread : genTexturePaint one_pixel 1 = None.
Proof. vm_compute. reflexivity. Qed.

(** Just left of the origin a repeated texture shows its first texel, not its
    last: the lower bound passed to [checkBoundsRepeat] is [txMin - 1], so the
    coordinate -1 is not reduced. *)
Example repeat_before_origin :
  let rdr := sample_textured <| set_texture_m02 := -65536 |> <| set_texture_interpolate := false |>
               <| set_texture_repeat := true |>
               <| set_texture_intData := Some (TexturePtr 0 0 [10; 20; 30; 40]) |> in
  (rdr' ← genTexturePaint rdr 1; Some (_paint rdr')) = Some [10; 10; 20; 4].
Proof. vm_compute. reflexivity. Qed.
