(* ===== verification/PiscesRenderer.v ===== *)
(** * The renderer's state machine

    native-prism-sw/PiscesRenderer.inl: the setters record the new paint, mask,
    composite rule or surface and mark what they invalidate in
    [_rendererState]; [VALIDATE_BLITTING] recomputes the colour registers, the
    surface geometry and the function pointers [_emitRows], [_emitLine] and
    [_genPaint] before anything is drawn.  Setters that may free a texture or
    a mask take and return the list of the blocks freed so far. *)

From S2P Require Import Prelude Float32 PiscesTransform PiscesPixel PiscesState PiscesBlit.

(** ** Flags of [_rendererState] *)

Definition INVALID_COLOR_ALPHA_MAP : Z := 1.
Definition INVALID_PAINT_ALPHA_MAP : Z := 2.
Definition INVALID_INTERNAL_COLOR : Z := 8.
Definition INVALID_RENDERER_SURFACE : Z := 16.
Definition INVALID_COMPOSITE_DEPENDED_ROUTINES : Z := 32.
Definition INVALID_PAINT_DEPENDED_ROUTINES : Z := 64.
Definition INVALID_MASK_DEPENDED_ROUTINES : Z := 128.

Definition INVALID_BLITTING_MASK : Z :=
  INVALID_INTERNAL_COLOR .| INVALID_RENDERER_SURFACE .| INVALID_COMPOSITE_DEPENDED_ROUTINES
  .| INVALID_PAINT_DEPENDED_ROUTINES .| INVALID_MASK_DEPENDED_ROUTINES.

Definition INVALID_ALL : Z :=
  INVALID_COLOR_ALPHA_MAP .| INVALID_PAINT_ALPHA_MAP .| INVALID_BLITTING_MASK.

(** [rdr->_rendererState |= flags], [&= ~flags] and the test of a flag. *)
Definition raise (flags : Z) (rdr : Renderer) : Renderer :=
  rdr <| set_rendererState := _rendererState rdr .| flags |>.
Definition lower (flags : Z) (rdr : Renderer) : Renderer :=
  rdr <| set_rendererState := _rendererState rdr & Z.lnot flags |>.
Definition has (rdr : Renderer) (flags : Z) : bool := ctrue (_rendererState rdr & flags).

(** ** The surface the renderer draws on *)

Record Surface : Type := mkSurface {
  width : Z;
  height : Z;
  offset : Z;
  scanlineStride : Z;
  pixelStride : Z;
  imageType : Z;
  data : option (list Z)
}.

(** ** Validation *)

Definition updatePaintDependedRoutines (rdr : Renderer) : Renderer :=
  let m := _paintMode rdr in
  let pt g := rdr <| set_genPaint := Some g |> <| set_emitRows := _bl_PT rdr |> <| set_emitLine := _el_PT rdr |> in
  lower INVALID_PAINT_DEPENDED_ROUTINES
    (if m =? PAINT_LINEAR_GRADIENT then pt GenLinearGradientPaint
     else if m =? PAINT_RADIAL_GRADIENT then pt GenRadialGradientPaint
     else if m =? PAINT_TEXTURE8888 then pt GenTexturePaint
     else if m =? PAINT_TEXTURE8888_MULTIPLY then pt GenTexturePaintMultiply
     else if m =? PAINT_FLAT_COLOR then
       rdr <| set_genPaint := None |> <| set_emitRows := _bl rdr |> <| set_emitLine := _el rdr |>
     else rdr).

Definition updateCompositeDependedRoutines (rdr : Renderer) : Renderer :=
  let r := _compositeRule rdr in
  let choose bl bl_PT el el_PT :=
    rdr <| set_bl := bl |> <| set_bl_PT := bl_PT |> <| set_el := el |> <| set_el_PT := el_PT |> in
  lower INVALID_COMPOSITE_DEPENDED_ROUTINES
    (updatePaintDependedRoutines
      (if r =? COMPOSITE_SRC_OVER then
         choose (_bl_SourceOver rdr) (_bl_PT_SourceOver rdr) (_el_SourceOver rdr) (_el_PT_SourceOver rdr)
       else if r =? COMPOSITE_SRC then
         choose (_bl_Source rdr) (_bl_PT_Source rdr) (_el_Source rdr) (_el_PT_Source rdr)
       else if r =? COMPOSITE_CLEAR then
         choose (_bl_Clear rdr) (_bl_PT_Clear rdr) (_el_Source rdr) (_el_Source rdr)
       else rdr)).

Definition updateMaskDependedRoutines (rdr : Renderer) : Renderer :=
  let t := _maskType rdr in
  let choose over pt_over src pt_src :=
    rdr <| set_bl_SourceOver := over |> <| set_bl_PT_SourceOver := pt_over |>
        <| set_bl_Source := src |> <| set_bl_PT_Source := pt_src |> in
  lower INVALID_MASK_DEPENDED_ROUTINES
    (updateCompositeDependedRoutines
      (if t =? NO_MASK then
         choose (_bl_SourceOverNoMask rdr) (_bl_PT_SourceOverNoMask rdr)
                (_bl_SourceNoMask rdr) (_bl_PT_SourceNoMask rdr)
       else if t =? ALPHA_MASK then
         choose (_bl_SourceOverMask rdr) (_bl_PT_SourceOverMask rdr)
                (_bl_SourceMask rdr) (_bl_PT_SourceMask rdr)
       else if t =? LCD_ALPHA_MASK then
         choose (_bl_SourceOverLCDMask rdr) (_bl_PT_SourceOverLCDMask rdr)
                (_bl_SourceLCDMask rdr) (_bl_PT_SourceLCDMask rdr)
       else rdr)).

Definition updateSurfaceDependedRoutines (rdr : Renderer) : Renderer :=
  updateMaskDependedRoutines
    (if _imageType rdr =? TYPE_INT_ARGB_PRE then
       rdr <| set_bl_SourceOverNoMask := Some BlitSrcOver8888_pre |>
           <| set_bl_PT_SourceOverNoMask := Some BlitPTSrcOver8888_pre |>
           <| set_bl_SourceNoMask := Some BlitSrc8888_pre |>
           <| set_bl_PT_SourceNoMask := Some BlitPTSrc8888_pre |>
           <| set_bl_SourceOverMask := Some BlitSrcOverMask8888_pre |>
           <| set_bl_PT_SourceOverMask := Some BlitPTSrcOverMask8888_pre |>
           <| set_bl_SourceMask := Some BlitSrcMask8888_pre |>
           <| set_bl_PT_SourceMask := Some BlitPTSrcMask8888_pre |>
           <| set_bl_SourceOverLCDMask := Some BlitSrcOverLCDMask8888_pre |>
           <| set_bl_PT_SourceOverLCDMask := None |>
           <| set_bl_SourceLCDMask := None |>
           <| set_bl_PT_SourceLCDMask := None |>
           <| set_bl_Clear := Some BlitSrc8888_pre |>
           <| set_bl_PT_Clear := Some BlitSrc8888_pre |>
           <| set_clearRect := Some ClearRect8888_any |>
           <| set_el_Source := Some EmitLineSource8888_pre |>
           <| set_el_SourceOver := Some EmitLineSourceOver8888_pre |>
           <| set_el_PT_Source := Some EmitLinePTSource8888_pre |>
           <| set_el_PT_SourceOver := Some EmitLinePTSourceOver8888_pre |>
     else rdr).

Definition updateRendererSurface (surface : Surface) (rdr : Renderer) : Renderer :=
  let rdr :=
    rdr <| set_width := width surface |> <| set_height := height surface |>
        <| set_data := data surface |> <| set_imageOffset := offset surface |>
        <| set_imageScanlineStride := scanlineStride surface |>
        <| set_imagePixelStride := pixelStride surface |> in
  lower INVALID_RENDERER_SURFACE
    (if _imageType rdr =? imageType surface then rdr
     else
       let rdr :=
         if negb (_compositeRule rdr =? COMPOSITE_SRC_OVER) && (imageType surface =? TYPE_INT_ARGB_PRE)
         then raise (INVALID_COLOR_ALPHA_MAP .| INVALID_PAINT_ALPHA_MAP) rdr else rdr in
       updateSurfaceDependedRoutines (rdr <| set_imageType := imageType surface |>)).

Definition updateInternalColor (rdr : Renderer) : Renderer :=
  lower INVALID_INTERNAL_COLOR
    (if _compositeRule rdr =? COMPOSITE_CLEAR then
       rdr <| set_cred := 0 |> <| set_cgreen := 0 |> <| set_cblue := 0 |> <| set_calpha := 0 |>
     else
       rdr <| set_cred := _ured rdr |> <| set_cgreen := _ugreen rdr |>
           <| set_cblue := _ublue rdr |> <| set_calpha := _ualpha rdr |>).

(** The macro; the flags are read once, before the updates.  [None] is the
    failure of its assertion. *)
Definition VALIDATE_BLITTING (surface : Surface) (rdr : Renderer) : option Renderer :=
  if has rdr INVALID_BLITTING_MASK then
    let state flag := has rdr flag in
    let rdr := if state INVALID_RENDERER_SURFACE then updateRendererSurface surface rdr else rdr in
    let rdr := if state INVALID_INTERNAL_COLOR then updateInternalColor rdr else rdr in
    let rdr :=
      if state INVALID_MASK_DEPENDED_ROUTINES then updateMaskDependedRoutines rdr
      else if state INVALID_COMPOSITE_DEPENDED_ROUTINES then updateCompositeDependedRoutines rdr
      else if state INVALID_PAINT_DEPENDED_ROUTINES then updatePaintDependedRoutines rdr
      else rdr in
    if has rdr INVALID_BLITTING_MASK then None else Some rdr
  else Some rdr.

(** ** Setters *)

Inductive freed_block : Type := FreedTexture (block : Z) | FreedMask.

Definition my_free_texture (t : option texture_ptr) (freed : list freed_block) : list freed_block :=
  match t with Some t => FreedTexture (tex_block t) :: freed | None => freed end.

Definition my_free_mask (m : option (list Z)) (freed : list freed_block) : list freed_block :=
  match m with Some _ => FreedMask :: freed | None => freed end.

Definition setPaintMode (newPaintMode : Z) (rdr : Renderer) (freed : list freed_block)
  : Renderer * list freed_block :=
  if _paintMode rdr =? newPaintMode then (rdr, freed)
  else
    let freed := if _texture_free rdr then my_free_texture (_texture_intData rdr) freed else freed in
    let rdr := rdr <| set_texture_intData := None |> in
    let rdr := raise INVALID_PAINT_DEPENDED_ROUTINES rdr in
    (rdr <| set_prevPaintMode := _paintMode rdr |> <| set_paintMode := newPaintMode |>, freed).

Definition renderer_setClip (minX minY width height : Z) (rdr : Renderer) : Renderer :=
  rdr <| set_clip_bbMinX := minX |> <| set_clip_bbMinY := minY |>
      <| set_clip_bbMaxX := i32 (minX + width - 1) |> <| set_clip_bbMaxY := i32 (minY + height - 1) |>.

Definition renderer_setColor (red green blue alpha : Z) (rdr : Renderer) (freed : list freed_block)
  : Renderer * list freed_block :=
  let same := (_ured rdr =? red) && (_ugreen rdr =? green) && (_ublue rdr =? blue) && (_ualpha rdr =? alpha) in
  let rdr :=
    if same then rdr
    else
      let rdr := raise INVALID_INTERNAL_COLOR rdr in
      let rdr := if _ualpha rdr =? alpha then rdr
                 else raise (INVALID_COLOR_ALPHA_MAP .| INVALID_PAINT_ALPHA_MAP) rdr in
      rdr <| set_ured := red |> <| set_ugreen := green |> <| set_ublue := blue |> <| set_ualpha := alpha |> in
  setPaintMode PAINT_FLAT_COLOR rdr freed.

Definition renderer_setCompositeRule (compositeRule : Z) (rdr : Renderer) : Renderer :=
  if _compositeRule rdr =? compositeRule then rdr
  else
    let rdr := raise (INVALID_INTERNAL_COLOR .| INVALID_COMPOSITE_DEPENDED_ROUTINES) rdr in
    let rdr :=
      if (compositeRule =? COMPOSITE_SRC_OVER) ||
         (((compositeRule =? COMPOSITE_CLEAR) || (compositeRule =? COMPOSITE_SRC)) &&
          (_imageType rdr =? TYPE_INT_ARGB_PRE))
      then raise (INVALID_COLOR_ALPHA_MAP .| INVALID_PAINT_ALPHA_MAP) rdr else rdr in
    rdr <| set_compositeRule := compositeRule |>.

(** [memcpy(rdr->_gradient_colors, colors, GRADIENT_MAP_SIZE * sizeof(jint))] *)
Definition copy_ramp (colors : list Z) (rdr : Renderer) : option Renderer :=
  if GRADIENT_MAP_SIZE <=? alen colors then
    Some (rdr <| set_gradient_colors := take (Z.to_nat GRADIENT_MAP_SIZE) colors |>)
  else None.

Definition renderer_setLinearGradient (x0 y0 x1 y1 : Z) (colors : list Z) (transform : Transform6)
    (rdr : Renderer) (freed : list freed_block) : option (Renderer * list freed_block) :=
  let inv := pisces_transform_invert transform in
  let rdr := rdr <| set_gradient_transform := transform |> <| set_gradient_inverse_transform := inv |> in
  let a00 := of_int (m00 inv) in
  let a01 := of_int (m01 inv) in
  let a02 := fdiv (of_int (m02 inv)) f65536 in
  let a10 := of_int (m10 inv) in
  let a11 := of_int (m11 inv) in
  let a12 := fdiv (of_int (m12 inv)) f65536 in
  let fx0 := fdiv (of_int x0) f65536 in
  let fx1 := fdiv (of_int x1) f65536 in
  let fy0 := fdiv (of_int y0) f65536 in
  let fy1 := fdiv (of_int y1) f65536 in
  let fdx := fsub fx1 fx0 in
  let fdy := fsub fy1 fy0 in
  let flensq := fadd (fmul fdx fdx) (fmul fdy fdy) in
  let t := fadd (fmul fdx fx0) (fmul fdy fy0) in
  let rdr :=
    rdr <| set_lg_mx := fdiv (fadd (fmul a00 fdx) (fmul a10 fdy)) flensq |>
        <| set_lg_my := fdiv (fadd (fmul a01 fdx) (fmul a11 fdy)) flensq |>
        <| set_lg_b := fdiv (fmul f65536 (fsub (fadd (fmul a02 fdx) (fmul a12 fdy)) t)) flensq |> in
  let '(rdr, freed) := setPaintMode PAINT_LINEAR_GRADIENT rdr freed in
  rdr ← copy_ramp colors rdr;
  Some (rdr, freed).

Definition f0_94 : jfloat := fdiv (of_int 94) (of_int 100).
Definition f0_97 : jfloat := fdiv (of_int 97) (of_int 100).

Definition renderer_setRadialGradient (cx cy fx fy radius : Z) (colors : list Z) (transform : Transform6)
    (rdr : Renderer) (freed : list freed_block) : option (Renderer * list freed_block) :=
  let inv := pisces_transform_invert transform in
  let fix16 n := fdiv (of_int n) f65536 in
  let a00 := fix16 (m00 inv) in
  let a10 := fix16 (m10 inv) in
  let rdr :=
    rdr <| set_gradient_transform := transform |> <| set_gradient_inverse_transform := inv |>
        <| set_rg_a00 := a00 |> <| set_rg_a01 := fix16 (m01 inv) |> <| set_rg_a02 := fix16 (m02 inv) |>
        <| set_rg_a10 := a10 |> <| set_rg_a11 := fix16 (m11 inv) |> <| set_rg_a12 := fix16 (m12 inv) |>
        <| set_rg_a00a00 := fmul a00 a00 |> <| set_rg_a10a10 := fmul a10 a10 |>
        <| set_rg_a00a10 := fmul a00 a10 |> in
  let _cx := fix16 cx in
  let _cy := fix16 cy in
  let _fx := fix16 fx in
  let _fy := fix16 fy in
  let r := fix16 radius in
  let rsq := fmul r r in
  let fcx := fsub _fx _cx in
  let fcy := fsub _fy _cy in
  let dsq := fadd (fmul fcx fcx) (fmul fcy fcy) in
  let '(_fx, _fy) :=
    if flt (fmul rsq f0_94) dsq then
      let f := fdiv (fmul r f0_97) (of_double (dsqrt (to_double dsq))) in
      (fadd _cx (fmul f fcx), fadd _cy (fmul f fcy))
    else (_fx, _fy) in
  let rdr :=
    rdr <| set_rg_r := r |> <| set_rg_rsq := rsq |> <| set_rg_cx := _cx |> <| set_rg_cy := _cy |>
        <| set_rg_fx := _fx |> <| set_rg_fy := _fy |> in
  let '(rdr, freed) := setPaintMode PAINT_RADIAL_GRADIENT rdr freed in
  rdr ← copy_ramp colors rdr;
  Some (rdr, freed).

Definition renderer_setTexture (renderMode : Z) (data : texture_ptr) (width height stride : Z)
    (repeat smooth : bool) (transform : Transform6) (freeData textureHasAlpha : bool)
    (txMin tyMin txMax tyMax : Z) (rdr : Renderer) (freed : list freed_block)
  : Renderer * list freed_block :=
  let compound := pisces_transform_invert transform in
  let rdr := rdr <| set_paint_transform := transform |> in
  let '(rdr, freed) :=
    setPaintMode (if renderMode =? IMAGE_MODE_NORMAL then PAINT_TEXTURE8888 else PAINT_TEXTURE8888_MULTIPLY)
      rdr freed in
  let freed := if _texture_free rdr then my_free_texture (_texture_intData rdr) freed else freed in
  let rdr :=
    rdr <| set_texture_free := freeData |> <| set_texture_hasAlpha := textureHasAlpha |>
        <| set_texture_intData := Some data |>
        <| set_texture_imageWidth := width |> <| set_texture_imageHeight := height |>
        <| set_texture_stride := stride |> <| set_texture_repeat := repeat |>
        <| set_texture_txMin := txMin |> <| set_texture_tyMin := tyMin |>
        <| set_texture_txMax := txMax |> <| set_texture_tyMax := tyMax |>
        <| set_texture_m00 := m00 compound |> <| set_texture_m01 := m01 compound |>
        <| set_texture_m10 := m10 compound |> <| set_texture_m11 := m11 compound |>
        <| set_texture_m02 := m02 compound |> <| set_texture_m12 := m12 compound |> in
  let rdr :=
    if smooth then
      rdr <| set_texture_interpolate := true |>
          <| set_texture_m02 := i64 (m02 compound + ((m00 compound >> 1) + (m01 compound >> 1) - 32768)) |>
          <| set_texture_m12 := i64 (m12 compound + ((m10 compound >> 1) + (m11 compound >> 1) - 32768)) |>
    else rdr <| set_texture_interpolate := false |> in
  let rdr :=
    if (_texture_m00 rdr =? 65536) && (_texture_m11 rdr =? 65536) &&
       (_texture_m01 rdr =? 0) && (_texture_m10 rdr =? 0) then
      if (_texture_m02 rdr =? 0) && (_texture_m12 rdr =? 0) then
        rdr <| set_texture_transformType := TEXTURE_TRANSFORM_IDENTITY |>
            <| set_texture_interpolate := false |>
      else
        let rdr := rdr <| set_texture_transformType := TEXTURE_TRANSFORM_TRANSLATE |> in
        if ((_texture_m02 rdr & 0xFFFF) =? 0) && ((_texture_m12 rdr & 0xFFFF) =? 0) then
          rdr <| set_texture_interpolate := false |>
        else rdr
    else if (_texture_m01 rdr =? 0) && (_texture_m10 rdr =? 0) then
      rdr <| set_texture_transformType := TEXTURE_TRANSFORM_SCALE_TRANSLATE |>
    else rdr <| set_texture_transformType := TEXTURE_TRANSFORM_GENERIC |> in
  (rdr, freed).

Definition renderer_setMask (maskType : Z) (data : list Z) (width height : Z) (freeData : bool)
    (rdr : Renderer) (freed : list freed_block) : Renderer * list freed_block :=
  let freed := if _mask_free rdr then my_free_mask (_mask_byteData rdr) freed else freed in
  let rdr :=
    rdr <| set_mask_free := freeData |> <| set_maskType := maskType |>
        <| set_mask_byteData := Some data |> <| set_mask_width := width |> <| set_mask_height := height |> in
  (raise (INVALID_BLITTING_MASK .| INVALID_MASK_DEPENDED_ROUTINES) rdr, freed).

Definition renderer_removeMask (rdr : Renderer) (freed : list freed_block) : Renderer * list freed_block :=
  let freed := if _mask_free rdr then my_free_mask (_mask_byteData rdr) freed else freed in
  let rdr := rdr <| set_maskType := NO_MASK |> <| set_mask_byteData := None |> in
  (raise (INVALID_BLITTING_MASK .| INVALID_MASK_DEPENDED_ROUTINES) rdr, freed).

Definition INVALIDATE_RENDERER_SURFACE (rdr : Renderer) : Renderer := raise INVALID_RENDERER_SURFACE rdr.

(** ** Creation, disposal, clearing *)

Definition createCommon (surface : Surface) : Renderer :=
  zero_renderer <| set_imageType := -1 |> <| set_compositeRule := COMPOSITE_SRC_OVER |>
    <| set_maskType := NO_MASK |> <| set_paintMode := PAINT_FLAT_COLOR |>
    <| set_clip_bbMinX := 0 |> <| set_clip_bbMinY := 0 |>
    <| set_clip_bbMaxX := i32 (width surface - 1) |> <| set_clip_bbMaxY := i32 (height surface - 1) |>
    <| set_rendererState := INVALID_ALL |>.

Definition renderer_create := createCommon.

(** The texture block freed by [renderer_dispose]. *)
Definition renderer_dispose (rdr : Renderer) (freed : list freed_block) : list freed_block :=
  if _texture_free rdr then my_free_texture (_texture_intData rdr) freed else freed.

Definition run_clear (c : option clear_routine) (rdr : Renderer) (x y w h : Z) : option Renderer :=
  ClearRect8888_any ← c; clearRect8888_any rdr x y w h.

Definition renderer_clearRect (surface : Surface) (x y w h : Z) (rdr : Renderer) : option Renderer :=
  let maxX := i32 (x + w - 1) in
  let maxY := i32 (y + h - 1) in
  rdr ← VALIDATE_BLITTING surface rdr;
  let x := MAX (MAX x 0) (_clip_bbMinX rdr) in
  let y := MAX (MAX y 0) (_clip_bbMinY rdr) in
  let maxX := MIN (MIN maxX (i32 (_width rdr - 1))) (_clip_bbMaxX rdr) in
  let maxY := MIN (MIN maxY (i32 (_height rdr - 1))) (_clip_bbMaxY rdr) in
  if (x <=? maxX) && (y <=? maxY) then
    run_clear (_clearRect rdr) rdr x y (i32 (maxX - x + 1)) (i32 (maxY - y + 1))
  else Some rdr.
