(* ===== verification/PiscesRendererSpec.v ===== *)
(** * Validation always leaves the right routines selected

    The invariant of the lazily recomputed renderer state, preserved by every
    setter, and what follows from it: the assertion in [VALIDATE_BLITTING]
    never fails, and after validation the function pointers and the colour
    registers are the ones the current mask, composite rule, paint and colour
    call for.  Textures handed to the renderer are freed exactly once. *)

From stdpp Require Import relations.
From S2P Require Import Prelude Float32 PiscesTransform PiscesPixel PiscesState PiscesBlit.
From S2P Require Import PiscesBlitSpec PiscesRenderer.

(** ** Flags *)

Lemma has_raise f g r : has (raise f r) g = has r g || ctrue (f & g).
Proof. unfold has, raise. simpl. by rewrite Z.land_lor_distr_l, ctrue_lor. Qed.

Lemma has_lower_ne f g r : Z.lnot f & g = g -> has (lower f r) g = has r g.
Proof. intros E. unfold has, lower. simpl. by rewrite <- Z.land_assoc, E. Qed.

Lemma has_lower_eq f g r : Z.lnot f & g = 0 -> has (lower f r) g = false.
Proof. intros E. unfold has, lower. simpl. by rewrite <- Z.land_assoc, E, Z.land_0_r. Qed.

(** Evaluate the flag tests of the goal: [set_] leaves flags alone, [raise]
    and [lower] change the ones they name. *)
Ltac flags :=
  repeat match goal with
  | |- context [has (raise ?f ?r) ?g] => rewrite (has_raise f g r)
  | |- context [has (lower ?f ?r) ?g] =>
      first [rewrite (has_lower_eq f g r) by reflexivity | rewrite (has_lower_ne f g r) by reflexivity]
  | |- context [has (?s ?v ?r) ?g] => change (has (s v r) g) with (has r g)
  | |- context [ctrue (?f & ?g)] =>
      let b := eval vm_compute in (ctrue (f & g)) in
      first [constr_eq b true | constr_eq b false];
      change (ctrue (f & g)) with b
  end.

(** ** The tables of routines *)

Definition surface_table (r : Renderer) :=
  ((_bl_SourceOverNoMask r, _bl_PT_SourceOverNoMask r, _bl_SourceNoMask r, _bl_PT_SourceNoMask r),
   (_bl_SourceOverMask r, _bl_PT_SourceOverMask r, _bl_SourceMask r, _bl_PT_SourceMask r),
   (_bl_SourceOverLCDMask r, _bl_PT_SourceOverLCDMask r, _bl_SourceLCDMask r, _bl_PT_SourceLCDMask r),
   (_bl_Clear r, _bl_PT_Clear r), _clearRect r,
   (_el_Source r, _el_SourceOver r, _el_PT_Source r, _el_PT_SourceOver r)).

(** Blits for a mask type: source-over with the colour and with the paint,
    "source" with the colour and with the paint. *)
Definition mask_expected (t : Z) : option blit_routine * option blit_routine * option blit_routine * option blit_routine :=
  if t =? NO_MASK then
    (Some BlitSrcOver8888_pre, Some BlitPTSrcOver8888_pre, Some BlitSrc8888_pre, Some BlitPTSrc8888_pre)
  else if t =? ALPHA_MASK then
    (Some BlitSrcOverMask8888_pre, Some BlitPTSrcOverMask8888_pre,
     Some BlitSrcMask8888_pre, Some BlitPTSrcMask8888_pre)
  else (Some BlitSrcOverLCDMask8888_pre, None, None, None).

Definition argb_table :=
  (mask_expected NO_MASK, mask_expected ALPHA_MASK, mask_expected LCD_ALPHA_MASK,
   (Some BlitSrc8888_pre, Some BlitSrc8888_pre), Some ClearRect8888_any,
   (Some EmitLineSource8888_pre, Some EmitLineSourceOver8888_pre,
    Some EmitLinePTSource8888_pre, Some EmitLinePTSourceOver8888_pre)).

Definition mask_table (r : Renderer) :=
  (_bl_SourceOver r, _bl_PT_SourceOver r, _bl_Source r, _bl_PT_Source r).

(** Routines for a composite rule: blit and line routine for the flat colour
    and for a paint. *)
Definition rule_of (blits : option blit_routine * option blit_routine * option blit_routine * option blit_routine)
    (rule : Z) :=
  let '(over, pt_over, src, pt_src) := blits in
  if rule =? COMPOSITE_SRC_OVER then
    (over, pt_over, Some EmitLineSourceOver8888_pre, Some EmitLinePTSourceOver8888_pre)
  else if rule =? COMPOSITE_SRC then
    (src, pt_src, Some EmitLineSource8888_pre, Some EmitLinePTSource8888_pre)
  else
    (Some BlitSrc8888_pre, Some BlitSrc8888_pre, Some EmitLineSource8888_pre, Some EmitLineSource8888_pre).

Definition rule_expected (t rule : Z) := rule_of (mask_expected t) rule.

Definition rule_table (r : Renderer) := (_bl r, _bl_PT r, _el r, _el_PT r).

Definition paint_generator (paint : Z) : option paint_routine :=
  if paint =? PAINT_LINEAR_GRADIENT then Some GenLinearGradientPaint
  else if paint =? PAINT_RADIAL_GRADIENT then Some GenRadialGradientPaint
  else if paint =? PAINT_TEXTURE8888 then Some GenTexturePaint
  else if paint =? PAINT_TEXTURE8888_MULTIPLY then Some GenTexturePaintMultiply
  else None.

Definition paint_of
    (routines : option blit_routine * option blit_routine * option emit_routine * option emit_routine)
    (paint : Z) :=
  let '(bl, bl_PT, el, el_PT) := routines in
  match paint_generator paint with
  | Some g => (Some g, bl_PT, el_PT)
  | None => (None, bl, el)
  end.

(** The specification of the dispatch: paint generator, blit and line routine
    for a mask type, a composite rule and a paint mode. *)
Definition dispatch (t rule paint : Z) := paint_of (rule_expected t rule) paint.

Definition paint_table (r : Renderer) := (_genPaint r, _emitRows r, _emitLine r).

Definition color_table (r : Renderer) := (_calpha r, _cred r, _cgreen r, _cblue r).

Definition color_expected (r : Renderer) :=
  if _compositeRule r =? COMPOSITE_CLEAR then (0, 0, 0, 0)
  else (_ualpha r, _ured r, _ugreen r, _ublue r).

(** ** The invariant *)

Definition valid_mask (t : Z) : Prop := t = NO_MASK \/ t = ALPHA_MASK \/ t = LCD_ALPHA_MASK.
Definition valid_rule (c : Z) : Prop := c = COMPOSITE_CLEAR \/ c = COMPOSITE_SRC \/ c = COMPOSITE_SRC_OVER.
Definition valid_paint (p : Z) : Prop :=
  p = PAINT_FLAT_COLOR \/ p = PAINT_LINEAR_GRADIENT \/ p = PAINT_RADIAL_GRADIENT \/
  p = PAINT_TEXTURE8888 \/ p = PAINT_TEXTURE8888_MULTIPLY.

(** What is known when the corresponding flags are down. *)
Record wf (r : Renderer) : Prop := {
  wf_mask : valid_mask (_maskType r);
  wf_rule : valid_rule (_compositeRule r);
  wf_paint : valid_paint (_paintMode r);
  wf_type : _imageType r = TYPE_INT_ARGB_PRE \/
            (_imageType r = -1 /\ has r INVALID_RENDERER_SURFACE = true);
  wf_surface : _imageType r = TYPE_INT_ARGB_PRE -> surface_table r = argb_table;
  wf_masked : _imageType r = TYPE_INT_ARGB_PRE -> has r INVALID_MASK_DEPENDED_ROUTINES = false ->
    mask_table r = mask_expected (_maskType r);
  wf_ruled : _imageType r = TYPE_INT_ARGB_PRE -> has r INVALID_MASK_DEPENDED_ROUTINES = false ->
    has r INVALID_COMPOSITE_DEPENDED_ROUTINES = false ->
    rule_table r = rule_expected (_maskType r) (_compositeRule r);
  wf_painted : _imageType r = TYPE_INT_ARGB_PRE -> has r INVALID_MASK_DEPENDED_ROUTINES = false ->
    has r INVALID_COMPOSITE_DEPENDED_ROUTINES = false -> has r INVALID_PAINT_DEPENDED_ROUTINES = false ->
    paint_table r = dispatch (_maskType r) (_compositeRule r) (_paintMode r);
  wf_color : has r INVALID_INTERNAL_COLOR = false -> color_table r = color_expected r
}.

Lemma createCommon_wf s : wf (createCommon s).
Proof.
  split; try discriminate.
  - by left.
  - by right; right.
  - by left.
  - right. split; reflexivity.
Qed.

(** ** The update functions *)

(** The fields no update function below the surface level changes. *)
Definition core (r : Renderer) :=
  (_maskType r, _compositeRule r, _paintMode r, _imageType r, surface_table r, color_table r,
   (_ualpha r, _ured r, _ugreen r, _ublue r)).

Lemma core_eq r r' : core r' = core r ->
  _maskType r' = _maskType r /\ _compositeRule r' = _compositeRule r /\ _paintMode r' = _paintMode r /\
  _imageType r' = _imageType r /\ surface_table r' = surface_table r /\ color_table r' = color_table r /\
  color_expected r' = color_expected r.
Proof.
  unfold core, color_expected. intros E.
  apply pair_equal_spec in E as [E Eu]. apply pair_equal_spec in E as [E E6].
  apply pair_equal_spec in E as [E E5]. apply pair_equal_spec in E as [E E4].
  apply pair_equal_spec in E as [E E3]. apply pair_equal_spec in E as [E1 E2].
  rewrite E2, Eu. split_and!; done.
Qed.

Lemma updatePaint_ok r : valid_paint (_paintMode r) ->
  let r' := updatePaintDependedRoutines r in
  core r' = core r /\ mask_table r' = mask_table r /\ rule_table r' = rule_table r /\
  paint_table r' = paint_of (rule_table r) (_paintMode r) /\
  (forall g, Z.lnot INVALID_PAINT_DEPENDED_ROUTINES & g = g -> has r' g = has r g) /\
  has r' INVALID_PAINT_DEPENDED_ROUTINES = false.
Proof.
  intros Hp r'. subst r'. unfold updatePaintDependedRoutines, paint_of, paint_generator, rule_table.
  destruct Hp as [E|[E|[E|[E|E]]]]; rewrite E; cbv zeta; simpl (_ =? _); cbv iota;
    (split_and!; [reflexivity..| |by apply has_lower_eq]; intros g Hg; by rewrite has_lower_ne).
Qed.

Definition set_rules
    (t : option blit_routine * option blit_routine * option emit_routine * option emit_routine)
    (r : Renderer) : Renderer :=
  let '(bl, bl_PT, el, el_PT) := t in
  r <| set_bl := bl |> <| set_bl_PT := bl_PT |> <| set_el := el |> <| set_el_PT := el_PT |>.

(** The entries of the surface table. *)
Lemma argb_entries r : surface_table r = argb_table ->
  (_bl_SourceOverNoMask r, _bl_PT_SourceOverNoMask r, _bl_SourceNoMask r, _bl_PT_SourceNoMask r)
    = mask_expected NO_MASK /\
  (_bl_SourceOverMask r, _bl_PT_SourceOverMask r, _bl_SourceMask r, _bl_PT_SourceMask r)
    = mask_expected ALPHA_MASK /\
  (_bl_SourceOverLCDMask r, _bl_PT_SourceOverLCDMask r, _bl_SourceLCDMask r, _bl_PT_SourceLCDMask r)
    = mask_expected LCD_ALPHA_MASK /\
  _bl_Clear r = Some BlitSrc8888_pre /\ _bl_PT_Clear r = Some BlitSrc8888_pre /\
  _el_Source r = Some EmitLineSource8888_pre /\ _el_SourceOver r = Some EmitLineSourceOver8888_pre /\
  _el_PT_Source r = Some EmitLinePTSource8888_pre /\ _el_PT_SourceOver r = Some EmitLinePTSourceOver8888_pre.
Proof.
  unfold surface_table, argb_table. intros E.
  apply pair_equal_spec in E as [E Ef]. apply pair_equal_spec in E as [E _].
  apply pair_equal_spec in E as [E Ed]. apply pair_equal_spec in E as [E Ec].
  apply pair_equal_spec in E as [Ea Eb]. injection Ef as ? ? ? ?. injection Ed as ? ?.
  split_and!; assumption.
Qed.

Lemma updateComposite_eq r : valid_rule (_compositeRule r) -> surface_table r = argb_table ->
  updateCompositeDependedRoutines r =
    lower INVALID_COMPOSITE_DEPENDED_ROUTINES
      (updatePaintDependedRoutines (set_rules (rule_of (mask_table r) (_compositeRule r)) r)).
Proof.
  intros Hr Ht. destruct (argb_entries r Ht) as (_ & _ & _ & E1 & E2 & E3 & E4 & E5 & E6).
  unfold updateCompositeDependedRoutines, rule_of, mask_table, set_rules. cbv beta zeta iota.
  rewrite E1, E2, E3, E4, E5, E6.
  destruct Hr as [E|[E|E]]; rewrite E; reflexivity.
Qed.

Lemma updateComposite_ok r : valid_paint (_paintMode r) -> valid_rule (_compositeRule r) ->
  surface_table r = argb_table ->
  let r' := updateCompositeDependedRoutines r in
  core r' = core r /\ mask_table r' = mask_table r /\
  rule_table r' = rule_of (mask_table r) (_compositeRule r) /\
  paint_table r' = paint_of (rule_of (mask_table r) (_compositeRule r)) (_paintMode r) /\
  (forall g, Z.lnot INVALID_PAINT_DEPENDED_ROUTINES & g = g ->
     Z.lnot INVALID_COMPOSITE_DEPENDED_ROUTINES & g = g -> has r' g = has r g) /\
  has r' INVALID_PAINT_DEPENDED_ROUTINES = false /\ has r' INVALID_COMPOSITE_DEPENDED_ROUTINES = false.
Proof.
  intros Hp Hr Ht r'. subst r'. rewrite updateComposite_eq by done.
  set (t := rule_of (mask_table r) (_compositeRule r)). clearbody t. destruct t as [[[a b] c] d].
  unfold set_rules. set (r1 := set_el_PT _ _).
  destruct (updatePaint_ok r1) as (Hc & Hm & Hru & Hpa & Hf & Hfp); [exact Hp|].
  split_and!; [exact Hc|exact Hm|exact Hru|exact Hpa| |by rewrite has_lower_ne|by apply has_lower_eq].
  intros g Hg1 Hg2. rewrite has_lower_ne by exact Hg2. by rewrite Hf.
Qed.

Definition set_masks
    (t : option blit_routine * option blit_routine * option blit_routine * option blit_routine)
    (r : Renderer) : Renderer :=
  let '(over, pt_over, src, pt_src) := t in
  r <| set_bl_SourceOver := over |> <| set_bl_PT_SourceOver := pt_over |>
    <| set_bl_Source := src |> <| set_bl_PT_Source := pt_src |>.

Lemma updateMask_eq r : valid_mask (_maskType r) -> surface_table r = argb_table ->
  updateMaskDependedRoutines r =
    lower INVALID_MASK_DEPENDED_ROUTINES
      (updateCompositeDependedRoutines (set_masks (mask_expected (_maskType r)) r)).
Proof.
  intros Hr Ht. destruct (argb_entries r Ht) as (E1 & E2 & E3 & _).
  unfold updateMaskDependedRoutines, set_masks. cbv beta zeta.
  destruct Hr as [E|[E|E]]; rewrite E; [rewrite <- E1|rewrite <- E2|rewrite <- E3]; reflexivity.
Qed.

(** All three levels after the mask update. *)
Definition settled (r : Renderer) : Prop :=
  mask_table r = mask_expected (_maskType r) /\
  rule_table r = rule_expected (_maskType r) (_compositeRule r) /\
  paint_table r = dispatch (_maskType r) (_compositeRule r) (_paintMode r) /\
  has r INVALID_MASK_DEPENDED_ROUTINES = false /\ has r INVALID_COMPOSITE_DEPENDED_ROUTINES = false /\
  has r INVALID_PAINT_DEPENDED_ROUTINES = false.

(** The flags the routine updates do not touch. *)
Definition other_flag (g : Z) : Prop :=
  Z.lnot INVALID_PAINT_DEPENDED_ROUTINES & g = g /\ Z.lnot INVALID_COMPOSITE_DEPENDED_ROUTINES & g = g /\
  Z.lnot INVALID_MASK_DEPENDED_ROUTINES & g = g.

Lemma updateMask_ok r : valid_paint (_paintMode r) -> valid_rule (_compositeRule r) ->
  valid_mask (_maskType r) -> surface_table r = argb_table ->
  let r' := updateMaskDependedRoutines r in
  core r' = core r /\ settled r' /\ (forall g, other_flag g -> has r' g = has r g).
Proof.
  intros Hp Hr Hm Ht r'. subst r'. rewrite updateMask_eq by done.
  set (t := mask_expected (_maskType r)). assert (Et : t = mask_expected (_maskType r)) by done. clearbody t.
  set (r1 := set_masks t r).
  assert (E1 : core r1 = core r /\ mask_table r1 = t) by (destruct t as [[[? ?] ?] ?]; done).
  destruct E1 as [E1 E1m].
  assert (Hfl : forall g, has r1 g = has r g) by (destruct t as [[[? ?] ?] ?]; done).
  clearbody r1. destruct (core_eq _ _ E1) as (F1 & F2 & F3 & F4 & F5 & _).
  destruct (updateComposite_ok r1) as (Hc & Hmt & Hru & Hpa & Hf & Hf1 & Hf2); [congruence..|].
  destruct (core_eq _ _ Hc) as (G1 & G2 & G3 & _).
  set (r2 := updateCompositeDependedRoutines r1) in *. clearbody r2.
  split_and!.
  - change (core r2 = core r). congruence.
  - unfold settled. rewrite has_lower_eq, !has_lower_ne by reflexivity.
    change (mask_table r2 = mask_expected (_maskType r2) /\
      rule_table r2 = rule_expected (_maskType r2) (_compositeRule r2) /\
      paint_table r2 = dispatch (_maskType r2) (_compositeRule r2) (_paintMode r2) /\
      false = false /\ has r2 INVALID_COMPOSITE_DEPENDED_ROUTINES = false /\
      has r2 INVALID_PAINT_DEPENDED_ROUTINES = false).
    unfold dispatch, rule_expected. split_and!; congruence.
  - intros g (? & ? & ?). rewrite has_lower_ne by done. rewrite Hf by done. apply Hfl.
Qed.

(** ** Validation *)

(** The last three branches of the macro, on the flags read at its start. *)
Lemma refresh_ok (m c p : bool) r : wf r -> _imageType r = TYPE_INT_ARGB_PRE ->
  (m = false -> has r INVALID_MASK_DEPENDED_ROUTINES = false) ->
  (c = false -> has r INVALID_COMPOSITE_DEPENDED_ROUTINES = false) ->
  (p = false -> has r INVALID_PAINT_DEPENDED_ROUTINES = false) ->
  let r' := if m then updateMaskDependedRoutines r
            else if c then updateCompositeDependedRoutines r
            else if p then updatePaintDependedRoutines r else r in
  core r' = core r /\ settled r' /\ (forall g, other_flag g -> has r' g = has r g).
Proof.
  intros [Hm Hr Hp _ Hs Hmt Hrt Hpt _] Ht Em Ec Ep r'. subst r'.
  destruct m; [by apply updateMask_ok; auto|]. specialize (Em eq_refl). specialize (Hmt Ht Em).
  destruct c.
  { destruct (updateComposite_ok r) as (E & E1 & E2 & E3 & E4 & E5 & E6); [by auto..|].
    destruct (core_eq _ _ E) as (F1 & F2 & F3 & _).
    split_and!; [done| |intros g (? & ? & ?); auto].
    unfold settled, dispatch, rule_expected. rewrite E4 by reflexivity. split_and!; congruence. }
  specialize (Ec eq_refl). specialize (Hrt Ht Em Ec). destruct p.
  { destruct (updatePaint_ok r) as (E & E1 & E2 & E3 & E4 & E5); [by auto|].
    destruct (core_eq _ _ E) as (F1 & F2 & F3 & _).
    split_and!; [done| |intros g (? & ? & ?); auto].
    unfold settled, dispatch. rewrite !E4 by reflexivity. split_and!; congruence. }
  specialize (Ep eq_refl). split_and!; [done| |done]. unfold settled. auto 10.
Qed.

Lemma settled_wf r : valid_mask (_maskType r) -> valid_rule (_compositeRule r) -> valid_paint (_paintMode r) ->
  _imageType r = TYPE_INT_ARGB_PRE -> surface_table r = argb_table -> settled r ->
  (has r INVALID_INTERNAL_COLOR = false -> color_table r = color_expected r) -> wf r.
Proof. intros ? ? ? ? ? (? & ? & ? & ? & ? & ?) ?. split; auto. Qed.

(** The geometry a validated renderer takes over from its surface. *)
Definition geometry_of (r : Renderer) :=
  (_width r, _height r, _data r, _imageOffset r, _imageScanlineStride r, _imagePixelStride r).
Definition surface_geometry (s : Surface) :=
  (width s, height s, data s, offset s, scanlineStride s, pixelStride s).

Lemma lower_geometry f r : geometry_of (lower f r) = geometry_of r.
Proof. reflexivity. Qed.

Lemma updatePaint_geometry r : geometry_of (updatePaintDependedRoutines r) = geometry_of r.
Proof. unfold updatePaintDependedRoutines. repeat case_match; reflexivity. Qed.

Lemma updateComposite_geometry r : geometry_of (updateCompositeDependedRoutines r) = geometry_of r.
Proof.
  unfold updateCompositeDependedRoutines. cbv zeta.
  match goal with |- context [updatePaintDependedRoutines ?q] => set (r1 := q) end.
  rewrite lower_geometry, updatePaint_geometry.
  subst r1. repeat case_match; reflexivity.
Qed.

Lemma updateMask_geometry r : geometry_of (updateMaskDependedRoutines r) = geometry_of r.
Proof.
  unfold updateMaskDependedRoutines. cbv zeta.
  match goal with |- context [updateCompositeDependedRoutines ?q] => set (r1 := q) end.
  rewrite lower_geometry, updateComposite_geometry.
  subst r1. repeat case_match; reflexivity.
Qed.

(** What the surface update keeps. *)
Definition inputs (r : Renderer) :=
  (_maskType r, _compositeRule r, _paintMode r, color_table r, (_ualpha r, _ured r, _ugreen r, _ublue r)).

Lemma inputs_eq r r' : inputs r' = inputs r ->
  _maskType r' = _maskType r /\ _compositeRule r' = _compositeRule r /\ _paintMode r' = _paintMode r /\
  color_table r' = color_table r /\ color_expected r' = color_expected r.
Proof.
  unfold inputs, color_expected. intros E.
  apply pair_equal_spec in E as [E Eu]. apply pair_equal_spec in E as [E E4].
  apply pair_equal_spec in E as [E E3]. apply pair_equal_spec in E as [E1 E2].
  rewrite E2, Eu. split_and!; done.
Qed.

Lemma core_inputs r r' : core r' = core r -> inputs r' = inputs r.
Proof.
  unfold core, inputs. intros E.
  apply pair_equal_spec in E as [E Eu]. apply pair_equal_spec in E as [E E6].
  apply pair_equal_spec in E as [E E5]. apply pair_equal_spec in E as [E E4]. congruence.
Qed.

Lemma surfaceRoutines_ok r : _imageType r = TYPE_INT_ARGB_PRE ->
  valid_mask (_maskType r) -> valid_rule (_compositeRule r) -> valid_paint (_paintMode r) ->
  let r' := updateSurfaceDependedRoutines r in
  _imageType r' = TYPE_INT_ARGB_PRE /\ surface_table r' = argb_table /\ settled r' /\ inputs r' = inputs r /\
  geometry_of r' = geometry_of r /\ (forall g, other_flag g -> has r' g = has r g).
Proof.
  intros Ht Hm Hr Hp r'. subst r'. unfold updateSurfaceDependedRoutines. rewrite Ht, Z.eqb_refl.
  match goal with |- context [updateMaskDependedRoutines ?q] => set (r1 := q) end.
  assert (E1 : surface_table r1 = argb_table) by reflexivity.
  assert (E2 : inputs r1 = inputs r /\ _imageType r1 = _imageType r) by (split; reflexivity).
  assert (E3 : geometry_of r1 = geometry_of r) by reflexivity.
  assert (Hf : forall g, has r1 g = has r g) by reflexivity.
  clearbody r1. destruct E2 as [E2 E2t]. destruct (inputs_eq _ _ E2) as (F1 & F2 & F3 & _).
  destruct (updateMask_ok r1) as (Hc & Hs & Hfl); [congruence..|].
  destruct (core_eq _ _ Hc) as (_ & _ & _ & G4 & G5 & _).
  split_and!; [congruence|congruence|done| | |].
  - rewrite (core_inputs _ _ Hc). done.
  - by rewrite updateMask_geometry.
  - intros g Hg. rewrite Hfl by done. apply Hf.
Qed.

Definition tables (r : Renderer) := (surface_table r, mask_table r, rule_table r, paint_table r).

(** Two renderers alike up to the geometry and to flags that [r'] may have in
    addition. *)
Record frame (r r' : Renderer) : Prop := {
  fr_inputs : inputs r' = inputs r;
  fr_tables : tables r' = tables r;
  fr_type : _imageType r' = _imageType r
}.

Lemma lower_frame f r : frame r (lower f r).
Proof. split; reflexivity. Qed.

Lemma raise_frame f r : frame r (raise f r).
Proof. split; reflexivity. Qed.

Lemma frame_trans r1 r2 r3 : frame r1 r2 -> frame r2 r3 -> frame r1 r3.
Proof. intros [A1 A2 A3] [B1 B2 B3]. split; congruence. Qed.

Lemma tables_eq r r' : tables r' = tables r ->
  surface_table r' = surface_table r /\ mask_table r' = mask_table r /\
  rule_table r' = rule_table r /\ paint_table r' = paint_table r.
Proof. unfold tables. rewrite !pair_equal_spec. tauto. Qed.

(** Raised flags and framed fields keep the invariant. *)
Lemma wf_frame r r' : wf r -> frame r r' ->
  _imageType r' = TYPE_INT_ARGB_PRE \/ has r' INVALID_RENDERER_SURFACE = true ->
  (has r' INVALID_MASK_DEPENDED_ROUTINES = false -> has r INVALID_MASK_DEPENDED_ROUTINES = false) ->
  (has r' INVALID_COMPOSITE_DEPENDED_ROUTINES = false -> has r INVALID_COMPOSITE_DEPENDED_ROUTINES = false) ->
  (has r' INVALID_PAINT_DEPENDED_ROUTINES = false -> has r INVALID_PAINT_DEPENDED_ROUTINES = false) ->
  (has r' INVALID_INTERNAL_COLOR = false -> has r INVALID_INTERNAL_COLOR = false) ->
  wf r'.
Proof.
  intros [Hm Hr Hp Ht Hs Hmt Hrt Hpt Hc] [Ei Et Ety] Htype H1 H2 H3 H4.
  destruct (inputs_eq _ _ Ei) as (F1 & F2 & F3 & F4 & F5).
  destruct (tables_eq _ _ Et) as (T1 & T2 & T3 & T4).
  split; rewrite ?F1, ?F2, ?F3, ?F4, ?F5, ?T1, ?T2, ?T3, ?T4, ?Ety; auto.
  rewrite Ety in Htype. destruct Ht as [?|[? _]], Htype as [?|?]; auto.
Qed.

Lemma settled_frame r r' : settled r -> frame r r' ->
  has r' INVALID_MASK_DEPENDED_ROUTINES = has r INVALID_MASK_DEPENDED_ROUTINES ->
  has r' INVALID_COMPOSITE_DEPENDED_ROUTINES = has r INVALID_COMPOSITE_DEPENDED_ROUTINES ->
  has r' INVALID_PAINT_DEPENDED_ROUTINES = has r INVALID_PAINT_DEPENDED_ROUTINES -> settled r'.
Proof.
  intros (S1 & S2 & S3 & S4 & S5 & S6) [Ei Et _] E1 E2 E3.
  destruct (inputs_eq _ _ Ei) as (F1 & F2 & F3 & _). destruct (tables_eq _ _ Et) as (_ & T2 & T3 & T4).
  unfold settled. rewrite F1, F2, F3, T2, T3, T4, E1, E2, E3. done.
Qed.

(** The fields taken over from the surface. *)
Definition load_geometry (s : Surface) (r : Renderer) : Renderer :=
  r <| set_width := width s |> <| set_height := height s |> <| set_data := data s |>
    <| set_imageOffset := offset s |> <| set_imageScanlineStride := scanlineStride s |>
    <| set_imagePixelStride := pixelStride s |>.

Lemma load_geometry_ok s r : frame r (load_geometry s r) /\
  geometry_of (load_geometry s r) = surface_geometry s /\
  (forall g, has (load_geometry s r) g = has r g).
Proof. split_and!; [split|..]; reflexivity. Qed.

(** A renderer that has not seen its surface type yet. *)
Lemma first_surface_ok r : _imageType r <> TYPE_INT_ARGB_PRE -> wf r ->
  exists r1,
    updateSurfaceDependedRoutines
      ((if negb (_compositeRule r =? COMPOSITE_SRC_OVER) && (TYPE_INT_ARGB_PRE =? TYPE_INT_ARGB_PRE)
        then raise (INVALID_COLOR_ALPHA_MAP .| INVALID_PAINT_ALPHA_MAP) r else r)
       <| set_imageType := TYPE_INT_ARGB_PRE |>) = r1 /\
    _imageType r1 = TYPE_INT_ARGB_PRE /\ settled r1 /\ wf r1 /\ inputs r1 = inputs r /\
    geometry_of r1 = geometry_of r /\ has r1 INVALID_INTERNAL_COLOR = has r INVALID_INTERNAL_COLOR.
Proof.
  intros Ht Hw. pose proof Hw as [Hm Hr Hp _ _ _ _ _ Hc]. eexists; split; [reflexivity|].
  set (r0 := set_imageType _ _).
  assert (E0 : inputs r0 = inputs r /\ _imageType r0 = TYPE_INT_ARGB_PRE /\ geometry_of r0 = geometry_of r)
    by (subst r0; destruct (_ && _); split_and!; reflexivity).
  assert (Ef : has r0 INVALID_INTERNAL_COLOR = has r INVALID_INTERNAL_COLOR).
  { subst r0. destruct (_ && _); flags; [by rewrite orb_false_r|reflexivity]. }
  clearbody r0. destruct E0 as (E1 & E2 & E3). destruct (inputs_eq _ _ E1) as (F1 & F2 & F3 & F4 & F5).
  destruct (surfaceRoutines_ok r0) as (G1 & G2 & G3 & G4 & G5 & G6); [congruence..|].
  destruct (inputs_eq _ _ G4) as (K1 & K2 & K3 & K4 & K5).
  assert (Hcol : has (updateSurfaceDependedRoutines r0) INVALID_INTERNAL_COLOR = has r INVALID_INTERNAL_COLOR).
  { rewrite G6 by (split_and!; reflexivity). done. }
  split_and!; [done|done| |congruence|congruence|done].
  apply settled_wf; try congruence. rewrite Hcol. intros Hcf. specialize (Hc Hcf). congruence.
Qed.

Lemma updateSurface_ok s r : wf r -> imageType s = TYPE_INT_ARGB_PRE ->
  exists r', updateRendererSurface s r = r' /\
  wf r' /\ _imageType r' = TYPE_INT_ARGB_PRE /\ inputs r' = inputs r /\
  geometry_of r' = surface_geometry s /\ has r' INVALID_RENDERER_SURFACE = false /\
  has r' INVALID_INTERNAL_COLOR = has r INVALID_INTERNAL_COLOR /\
  (settled r' \/
   (has r' INVALID_MASK_DEPENDED_ROUTINES = has r INVALID_MASK_DEPENDED_ROUTINES /\
    has r' INVALID_COMPOSITE_DEPENDED_ROUTINES = has r INVALID_COMPOSITE_DEPENDED_ROUTINES /\
    has r' INVALID_PAINT_DEPENDED_ROUTINES = has r INVALID_PAINT_DEPENDED_ROUTINES)).
Proof.
  intros Hw Hs. unfold updateRendererSurface. cbv zeta. fold (load_geometry s r). rewrite Hs.
  destruct (load_geometry_ok s r) as (L1 & L2 & L3). set (r0 := load_geometry s r) in *. clearbody r0.
  assert (Hw0 : wf r0).
  { apply (wf_frame r); rewrite ?L3; auto. pose proof Hw as [_ _ _ Ht _ _ _ _ _].
    rewrite (fr_type _ _ L1). tauto. }
  pose proof (lower_frame INVALID_RENDERER_SURFACE r0) as L0.
  destruct (Z.eqb_spec (_imageType r0) TYPE_INT_ARGB_PRE) as [E|E].
  - eexists; split; [reflexivity|]. set (r1 := lower INVALID_RENDERER_SURFACE r0) in *.
    assert (Hf : has r1 INVALID_RENDERER_SURFACE = false /\
      forall g, Z.lnot INVALID_RENDERER_SURFACE & g = g -> has r1 g = has r g).
    { subst r1. split; [by apply has_lower_eq|]. intros g Hg. by rewrite has_lower_ne, L3. }
    assert (Hg : geometry_of r1 = geometry_of r0) by reflexivity. clearbody r1.
    destruct Hf as [Hf1 Hf2]. pose proof (fr_type _ _ L0).
    split_and!; [|congruence|destruct L0, L1; congruence|congruence|done|by rewrite Hf2|right; by rewrite !Hf2].
    apply (wf_frame r0); [done..|left; congruence| | | |]; rewrite !Hf2, !L3 by reflexivity; done.
  - destruct (first_surface_ok r0 E Hw0) as (r1 & -> & G1 & G2 & G3 & G4 & G5 & G6).
    eexists; split; [reflexivity|]. pose proof (lower_frame INVALID_RENDERER_SURFACE r1) as L0'.
    set (r2 := lower INVALID_RENDERER_SURFACE r1) in *.
    assert (Hf : has r2 INVALID_RENDERER_SURFACE = false /\
      forall g, Z.lnot INVALID_RENDERER_SURFACE & g = g -> has r2 g = has r1 g).
    { subst r2. split; [by apply has_lower_eq|]. intros g Hg. by rewrite has_lower_ne. }
    assert (Hg : geometry_of r2 = geometry_of r1) by reflexivity. clearbody r2.
    destruct Hf as [Hf1 Hf2]. pose proof (fr_type _ _ L0').
    split_and!; [|congruence|destruct L0', L1; congruence|congruence|done
      |rewrite Hf2 by reflexivity; rewrite G6; apply L3
      |left; apply (settled_frame r1); auto; by rewrite Hf2].
    apply (wf_frame r1); [done..|left; congruence| | | |]; by rewrite !Hf2.
Qed.

Lemma updateColor_ok r : wf r -> _imageType r = TYPE_INT_ARGB_PRE ->
  exists r', updateInternalColor r = r' /\
  wf r' /\ _imageType r' = TYPE_INT_ARGB_PRE /\ geometry_of r' = geometry_of r /\
  (_maskType r', _compositeRule r', _paintMode r') = (_maskType r, _compositeRule r, _paintMode r) /\
  color_expected r' = color_expected r /\ has r' INVALID_INTERNAL_COLOR = false /\
  (forall g, Z.lnot INVALID_INTERNAL_COLOR & g = g -> has r' g = has r g).
Proof.
  intros Hw Ht. eexists; split; [reflexivity|]. unfold updateInternalColor.
  match goal with |- context [lower _ ?q] => set (r1 := q) end.
  assert (E : tables r1 = tables r /\ geometry_of r1 = geometry_of r /\ _imageType r1 = _imageType r /\
    (_maskType r1, _compositeRule r1, _paintMode r1) = (_maskType r, _compositeRule r, _paintMode r) /\
    color_expected r1 = color_expected r /\ color_table r1 = color_expected r /\
    (forall g, has r1 g = has r g)).
  { subst r1. unfold color_expected.
    destruct (_compositeRule r =? COMPOSITE_CLEAR) eqn:Ec; split_and!; try reflexivity;
      match goal with |- context [_compositeRule ?q] => change (_compositeRule q) with (_compositeRule r) end;
      by rewrite Ec. }
  clearbody r1. destruct E as (E1 & E2 & E3 & E4 & E5 & E6 & E7).
  pose proof (lower_frame INVALID_INTERNAL_COLOR r1) as [L1 L2 L3].
  set (r2 := lower INVALID_INTERNAL_COLOR r1) in *.
  assert (Hf : has r2 INVALID_INTERNAL_COLOR = false /\
    forall g, Z.lnot INVALID_INTERNAL_COLOR & g = g -> has r2 g = has r g).
  { subst r2. split; [by apply has_lower_eq|]. intros g Hg. rewrite has_lower_ne by done. apply E7. }
  assert (Hg : geometry_of r2 = geometry_of r1) by reflexivity. clearbody r2. destruct Hf as [Hf1 Hf2].
  destruct (inputs_eq _ _ L1) as (F1 & F2 & F3 & F4 & F5).
  destruct (tables_eq _ _ L2) as (T1 & T2 & T3 & T4). destruct (tables_eq _ _ E1) as (U1 & U2 & U3 & U4).
  injection E4 as E41 E42 E43. pose proof Hw as [Hm Hr Hp _ Hs Hmt Hrt Hpt Hc].
  split_and!; [|congruence|congruence|congruence|congruence|done|done].
  split; rewrite ?Hf2 by reflexivity;
    rewrite ?F1, ?F2, ?F3, ?F4, ?F5, ?T1, ?T2, ?T3, ?T4, ?U1, ?U2, ?U3, ?U4, ?E41, ?E42, ?E43; auto.
  - left. congruence.
  - intros _. congruence.
Qed.

(** What a renderer ready to draw satisfies. *)
Record validated (s : Surface) (r r' : Renderer) : Prop := {
  va_wf : wf r';
  va_inputs : (_maskType r', _compositeRule r', _paintMode r') = (_maskType r, _compositeRule r, _paintMode r);
  va_dispatch : paint_table r' = dispatch (_maskType r) (_compositeRule r) (_paintMode r);
  va_clear : _clearRect r' = Some ClearRect8888_any;
  va_color : color_table r' = color_expected r;
  va_geometry : has r INVALID_RENDERER_SURFACE = true -> geometry_of r' = surface_geometry s;
  va_flags : has r' INVALID_BLITTING_MASK = false
}.

Lemma blitting_flags r : has r INVALID_BLITTING_MASK =
  has r INVALID_INTERNAL_COLOR || has r INVALID_RENDERER_SURFACE || has r INVALID_COMPOSITE_DEPENDED_ROUTINES
  || has r INVALID_PAINT_DEPENDED_ROUTINES || has r INVALID_MASK_DEPENDED_ROUTINES.
Proof. unfold has, INVALID_BLITTING_MASK. by rewrite !Z.land_lor_distr_r, !ctrue_lor. Qed.

Lemma table_clear r : surface_table r = argb_table -> _clearRect r = Some ClearRect8888_any.
Proof.
  unfold surface_table, argb_table. intros E. apply pair_equal_spec in E as [E _].
  by apply pair_equal_spec in E as [_ E].
Qed.

(** First step of the macro: the surface. *)
Lemma validate_surface s r : wf r -> imageType s = TYPE_INT_ARGB_PRE ->
  exists r1, (if has r INVALID_RENDERER_SURFACE then updateRendererSurface s r else r) = r1 /\
    wf r1 /\ _imageType r1 = TYPE_INT_ARGB_PRE /\ inputs r1 = inputs r /\
    (has r INVALID_RENDERER_SURFACE = true -> geometry_of r1 = surface_geometry s) /\
    has r1 INVALID_RENDERER_SURFACE = false /\ has r1 INVALID_INTERNAL_COLOR = has r INVALID_INTERNAL_COLOR /\
    (has r INVALID_MASK_DEPENDED_ROUTINES = false -> has r1 INVALID_MASK_DEPENDED_ROUTINES = false) /\
    (has r INVALID_COMPOSITE_DEPENDED_ROUTINES = false -> has r1 INVALID_COMPOSITE_DEPENDED_ROUTINES = false) /\
    (has r INVALID_PAINT_DEPENDED_ROUTINES = false -> has r1 INVALID_PAINT_DEPENDED_ROUTINES = false).
Proof.
  intros Hw Hs. destruct (has r INVALID_RENDERER_SURFACE) eqn:Esf.
  - destruct (updateSurface_ok s r Hw Hs) as (r1 & -> & W1 & W2 & W3 & W4 & W5 & W6 & W7).
    exists r1. destruct W7 as [(_ & _ & _ & ? & ? & ?)|(-> & -> & ->)]; split_and!; auto.
  - exists r. pose proof Hw as [_ _ _ [?|[_ ?]] _ _ _ _ _]; [|congruence]. split_and!; auto. discriminate.
Qed.

(** Second step: the colour. *)
Lemma validate_color (c : bool) r : wf r -> _imageType r = TYPE_INT_ARGB_PRE ->
  has r INVALID_INTERNAL_COLOR = c ->
  exists r2, (if c then updateInternalColor r else r) = r2 /\
    wf r2 /\ _imageType r2 = TYPE_INT_ARGB_PRE /\ geometry_of r2 = geometry_of r /\
    (_maskType r2, _compositeRule r2, _paintMode r2) = (_maskType r, _compositeRule r, _paintMode r) /\
    color_table r2 = color_expected r /\ has r2 INVALID_INTERNAL_COLOR = false /\
    (forall g, Z.lnot INVALID_INTERNAL_COLOR & g = g -> has r2 g = has r g).
Proof.
  intros Hw Ht Hc. destruct c.
  - destruct (updateColor_ok r Hw Ht) as (r2 & -> & V1 & V2 & V3 & V4 & V5 & V6 & V7).
    exists r2. split_and!; auto. pose proof V1 as [_ _ _ _ _ _ _ _ Vc]. specialize (Vc V6). congruence.
  - exists r. pose proof Hw as [_ _ _ _ _ _ _ _ Vc]. specialize (Vc Hc). split_and!; auto.
Qed.

Lemma validate_ok s r : wf r -> imageType s = TYPE_INT_ARGB_PRE ->
  exists r', VALIDATE_BLITTING s r = Some r' /\ validated s r r'.
Proof.
  intros Hw Hs. unfold VALIDATE_BLITTING. pose proof (blitting_flags r) as Hb.
  destruct (has r INVALID_BLITTING_MASK) eqn:Eb.
  2: { exists r. split; [done|]. symmetry in Hb.
       apply orb_false_iff in Hb as [Hb B5]. apply orb_false_iff in Hb as [Hb B4].
       apply orb_false_iff in Hb as [Hb B3]. apply orb_false_iff in Hb as [B1 B2].
       pose proof Hw as [_ _ _ Ht Hst _ _ Hpt Hc].
       assert (E : _imageType r = TYPE_INT_ARGB_PRE) by (destruct Ht as [?|[_ ?]]; congruence).
       split; auto using table_clear. congruence. }
  cbv zeta. clear Hb.
  destruct (validate_surface s r Hw Hs) as (r1 & -> & Hw1 & Ht1 & Hi1 & Hg1 & Hf1 & Hc1 & Hm1 & Hco1 & Hp1).
  destruct (inputs_eq _ _ Hi1) as (F1 & F2 & F3 & F4 & F5).
  destruct (validate_color _ r1 Hw1 Ht1 Hc1) as (r2 & -> & Hw2 & Ht2 & Hg2 & Hi2 & Hc2 & Hcf2 & Hf2).
  injection Hi2 as I1 I2 I3.
  destruct (refresh_ok (has r INVALID_MASK_DEPENDED_ROUTINES) (has r INVALID_COMPOSITE_DEPENDED_ROUTINES)
    (has r INVALID_PAINT_DEPENDED_ROUTINES) r2 Hw2 Ht2) as (K1 & K2 & K3);
    [by rewrite Hf2 by reflexivity; auto..|].
  set (r3 := if has r INVALID_MASK_DEPENDED_ROUTINES then _ else _) in *.
  assert (Hg3 : geometry_of r3 = geometry_of r2).
  { subst r3. repeat case_match; auto using updateMask_geometry, updateComposite_geometry, updatePaint_geometry. }
  clearbody r3. destruct (core_eq _ _ K1) as (C1 & C2 & C3 & C4 & C5 & C6 & C7).
  pose proof K2 as (S1 & S2 & S3 & S4 & S5 & S6). pose proof Hw2 as [V1 V2 V3 _ V5 _ _ _ _]. specialize (V5 Ht2).
  assert (Hfl : has r3 INVALID_BLITTING_MASK = false).
  { rewrite blitting_flags, S4, S5, S6. rewrite !K3 by (split_and!; reflexivity).
    rewrite Hcf2, Hf2 by reflexivity. by rewrite Hf1. }
  rewrite Hfl. exists r3. split; [done|]. split; [|congruence|congruence| |congruence| |done].
  - apply settled_wf; congruence || auto. intros _. pose proof Hw2 as [_ _ _ _ _ _ _ _ Vc].
    specialize (Vc Hcf2). congruence.
  - apply table_clear. congruence.
  - intros Hsf. rewrite Hg3, Hg2. auto.
Qed.

(** ** The setters keep the invariant *)

(** A setter may change an input if it raises the flag of what depends on it. *)
Record changes (r r' : Renderer) : Prop := {
  ch_tables : tables r' = tables r;
  ch_type : _imageType r' = _imageType r;
  ch_colors : color_table r' = color_table r;
  ch_mask : has r' INVALID_MASK_DEPENDED_ROUTINES = false ->
    has r INVALID_MASK_DEPENDED_ROUTINES = false /\ _maskType r' = _maskType r;
  ch_rule : has r' INVALID_COMPOSITE_DEPENDED_ROUTINES = false ->
    has r INVALID_COMPOSITE_DEPENDED_ROUTINES = false /\ _compositeRule r' = _compositeRule r;
  ch_paint : has r' INVALID_PAINT_DEPENDED_ROUTINES = false ->
    has r INVALID_PAINT_DEPENDED_ROUTINES = false /\ _paintMode r' = _paintMode r;
  ch_color : has r' INVALID_INTERNAL_COLOR = false ->
    has r INVALID_INTERNAL_COLOR = false /\ color_expected r' = color_expected r;
  ch_surface : has r' INVALID_RENDERER_SURFACE = false -> has r INVALID_RENDERER_SURFACE = false
}.

Lemma wf_changes r r' : wf r -> changes r r' -> valid_mask (_maskType r') ->
  valid_rule (_compositeRule r') -> valid_paint (_paintMode r') -> wf r'.
Proof.
  intros [_ _ _ Ht Hs Hmt Hrt Hpt Hc] [Et Ety Ec C1 C2 C3 C4 C5] Vm Vr Vp.
  destruct (tables_eq _ _ Et) as (T1 & T2 & T3 & T4).
  split; [done|done|done| | | | | |]; rewrite ?T1, ?T2, ?T3, ?T4, ?Ec, ?Ety.
  - destruct (has r' INVALID_RENDERER_SURFACE); [tauto|]. destruct Ht as [?|[_ Ht]]; [by left|].
    rewrite C5 in Ht by done. done.
  - auto.
  - intros Hty H1. destruct (C1 H1) as [? ->]. auto.
  - intros Hty H1 H2. destruct (C1 H1) as [? ->], (C2 H2) as [? ->]. auto.
  - intros Hty H1 H2 H3. destruct (C1 H1) as [? ->], (C2 H2) as [? ->], (C3 H3) as [? ->]. auto.
  - intros H1. destruct (C4 H1) as [? ->]. auto.
Qed.

Lemma changes_trans r1 r2 r3 : changes r1 r2 -> changes r2 r3 -> changes r1 r3.
Proof.
  intros [A1 A2 A3 A4 A5 A6 A7 A8] [B1 B2 B3 B4 B5 B6 B7 B8]. split; try congruence; auto.
  - intros H. destruct (B4 H) as [? ->]. auto.
  - intros H. destruct (B5 H) as [? ->]. auto.
  - intros H. destruct (B6 H) as [? ->]. auto.
  - intros H. destruct (B7 H) as [? ->]. auto.
Qed.

Lemma changes_refl r : changes r r.
Proof. split; auto. Qed.

(** Setters of fields outside the invariant. *)
Lemma changes_frame r r' : frame r r' -> (forall g, has r' g = has r g) -> changes r r'.
Proof.
  intros [Ei Et Ety] Hf. destruct (inputs_eq _ _ Ei) as (F1 & F2 & F3 & F4 & F5).
  split; rewrite ?Hf; auto.
Qed.

Lemma changes_raise f r : changes r (raise f r).
Proof.
  destruct (raise_frame f r) as [Ei Et Ety]. destruct (inputs_eq _ _ Ei) as (F1 & F2 & F3 & F4 & F5).
  split; try assumption; rewrite has_raise; intros [H _]%orb_false_iff; auto.
Qed.

Lemma setPaintMode_ok p r freed : changes r (setPaintMode p r freed).1 /\ _paintMode (setPaintMode p r freed).1 = p /\
  _maskType (setPaintMode p r freed).1 = _maskType r /\ _compositeRule (setPaintMode p r freed).1 = _compositeRule r.
Proof.
  unfold setPaintMode. destruct (Z.eqb_spec (_paintMode r) p) as [E|E]; cbn [fst].
  { split_and!; [apply changes_refl|done..]. }
  split_and!; [|reflexivity..].
  apply (changes_trans _ (raise INVALID_PAINT_DEPENDED_ROUTINES (set_texture_intData None r))).
  { apply (changes_trans _ (set_texture_intData None r)); [|apply changes_raise].
    apply changes_frame; [split|]; reflexivity. }
  set (r1 := raise INVALID_PAINT_DEPENDED_ROUTINES _).
  assert (Hp : has r1 INVALID_PAINT_DEPENDED_ROUTINES = true).
  { subst r1. rewrite has_raise. apply orb_true_r. }
  clearbody r1.
  split; try reflexivity; try (intros H; split; [exact H|reflexivity]); try (intros H; exact H).
  intros H. change (has r1 INVALID_PAINT_DEPENDED_ROUTINES = false) in H. congruence.
Qed.

Lemma setColor_ok red green blue alpha r freed :
  let r' := (renderer_setColor red green blue alpha r freed).1 in
  changes r r' /\ _paintMode r' = PAINT_FLAT_COLOR /\ _maskType r' = _maskType r /\
  _compositeRule r' = _compositeRule r.
Proof.
  intros r'. subst r'. unfold renderer_setColor.
  match goal with |- context [setPaintMode _ ?q _] => set (r1 := q) end.
  assert (H : changes r r1 /\ _maskType r1 = _maskType r /\ _compositeRule r1 = _compositeRule r).
  { subst r1. destruct (_ && _); [split_and!; auto using changes_refl|].
    split_and!; [|by destruct (_ =? _)..].
    cbv zeta. set (r1 := raise INVALID_INTERNAL_COLOR r).
    assert (H1 : has r1 INVALID_INTERNAL_COLOR = true) by (subst r1; rewrite has_raise; apply orb_true_r).
    apply (changes_trans _ r1); [apply changes_raise|]. clearbody r1.
    match goal with |- context [set_ured _ ?q] => set (r2 := q) end.
    assert (H2 : changes r1 r2 /\ has r2 INVALID_INTERNAL_COLOR = true).
    { subst r2. destruct (_ =? _); [by auto using changes_refl|].
      split; [apply changes_raise|]. rewrite has_raise, H1. done. }
    clearbody r2. destruct H2 as [H2 H3]. apply (changes_trans _ r2); [done|].
    split; try reflexivity; try (intros H; split; [exact H|reflexivity]); try (intros H; exact H).
    intros H. change (has r2 INVALID_INTERNAL_COLOR = false) in H. congruence. }
  clearbody r1. destruct H as (H1 & H2 & H3).
  destruct (setPaintMode_ok PAINT_FLAT_COLOR r1 freed) as (P1 & P2 & P3 & P4).
  split_and!; [by apply (changes_trans _ r1)|congruence..].
Qed.

(** [r2] differs from [r1] only in inputs whose flag is already up. *)
Ltac keep_flags := split; try reflexivity; try (intros H; split; [exact H|reflexivity]); try (intros H; exact H).

Lemma setCompositeRule_ok c r :
  let r' := renderer_setCompositeRule c r in
  changes r r' /\ _compositeRule r' = c /\ _maskType r' = _maskType r /\ _paintMode r' = _paintMode r.
Proof.
  intros r'. subst r'. unfold renderer_setCompositeRule.
  destruct (Z.eqb_spec (_compositeRule r) c) as [E|E]; [split_and!; auto using changes_refl|].
  cbv zeta. set (r1 := raise (INVALID_INTERNAL_COLOR .| INVALID_COMPOSITE_DEPENDED_ROUTINES) r).
  assert (H1 : changes r r1 /\ has r1 INVALID_INTERNAL_COLOR = true /\
    has r1 INVALID_COMPOSITE_DEPENDED_ROUTINES = true /\ _maskType r1 = _maskType r /\ _paintMode r1 = _paintMode r).
  { subst r1. rewrite !has_raise. split_and!; [apply changes_raise|apply orb_true_r..|reflexivity|reflexivity]. }
  clearbody r1. destruct H1 as (H1 & H2 & H3 & H4 & H5).
  match goal with |- context [set_compositeRule c ?q] => set (r2 := q) end.
  assert (K : changes r1 r2 /\ has r2 INVALID_INTERNAL_COLOR = true /\
    has r2 INVALID_COMPOSITE_DEPENDED_ROUTINES = true /\ _maskType r2 = _maskType r1 /\ _paintMode r2 = _paintMode r1).
  { subst r2. destruct (_ || _); [|split_and!; auto using changes_refl].
    rewrite !has_raise, H2, H3. split_and!; auto using changes_raise. }
  clearbody r2. destruct K as (K1 & K2 & K3 & K4 & K5).
  split_and!; [|reflexivity| |].
  - apply (changes_trans _ r1); [done|]. apply (changes_trans _ r2); [done|]. keep_flags.
    + intros H. change (has r2 INVALID_COMPOSITE_DEPENDED_ROUTINES = false) in H. congruence.
    + intros H. change (has r2 INVALID_INTERNAL_COLOR = false) in H. congruence.
  - change (_maskType r2 = _maskType r). congruence.
  - change (_paintMode r2 = _paintMode r). congruence.
Qed.

(** Setting and removing a mask: all flags go up, the mask type is new. *)
Lemma new_mask_ok t r r1 : frame r (set_maskType (_maskType r) r1) -> (forall g, has r1 g = has r g) ->
  _maskType r1 = t ->
  let r' := raise (INVALID_BLITTING_MASK .| INVALID_MASK_DEPENDED_ROUTINES) r1 in
  changes r r' /\ _maskType r' = t /\ _compositeRule r' = _compositeRule r /\ _paintMode r' = _paintMode r.
Proof.
  intros [Ei Et Ety] Hf Hm r'. destruct (inputs_eq _ _ Ei) as (_ & F2 & F3 & F4 & F5).
  change (_compositeRule r1 = _compositeRule r) in F2. change (_paintMode r1 = _paintMode r) in F3.
  change (tables r1 = tables r) in Et. change (_imageType r1 = _imageType r) in Ety.
  change (color_table r1 = color_table r) in F4.
  assert (Hr : forall g, ctrue ((INVALID_BLITTING_MASK .| INVALID_MASK_DEPENDED_ROUTINES) & g) = true ->
    has r' g = true).
  { intros g Hg. subst r'. rewrite has_raise, Hg. apply orb_true_r. }
  split_and!; [|exact Hm|exact F2|exact F3].
  split; [exact Et|exact Ety|exact F4| | | | |]; rewrite Hr by reflexivity; discriminate.
Qed.

Lemma setMask_ok t d w h fd r freed :
  let r' := (renderer_setMask t d w h fd r freed).1 in
  changes r r' /\ _maskType r' = t /\ _compositeRule r' = _compositeRule r /\ _paintMode r' = _paintMode r.
Proof.
  unfold renderer_setMask. cbv zeta. cbn [fst]. apply (new_mask_ok t r); [split|..]; reflexivity.
Qed.

Lemma removeMask_ok r freed :
  let r' := (renderer_removeMask r freed).1 in
  changes r r' /\ _maskType r' = NO_MASK /\ _compositeRule r' = _compositeRule r /\ _paintMode r' = _paintMode r.
Proof.
  unfold renderer_removeMask. cbv zeta. cbn [fst]. apply (new_mask_ok NO_MASK r); [split|..]; reflexivity.
Qed.

(** Unrelated fields before and after a change of paint mode. *)
Lemma paint_setter_ok p r r0 r' freed : frame r r0 -> (forall g, has r0 g = has r g) ->
  frame (setPaintMode p r0 freed).1 r' -> (forall g, has r' g = has (setPaintMode p r0 freed).1 g) ->
  changes r r' /\ _paintMode r' = p /\ _maskType r' = _maskType r /\ _compositeRule r' = _compositeRule r.
Proof.
  intros H1 H2 H3 H4. destruct (setPaintMode_ok p r0 freed) as (P1 & P2 & P3 & P4).
  pose proof (changes_frame _ _ H1 H2) as C1. pose proof (changes_frame _ _ H3 H4) as C3.
  destruct H1 as [E1 _ _], H3 as [E3 _ _].
  destruct (inputs_eq _ _ E1) as (F1 & F2 & F3 & _), (inputs_eq _ _ E3) as (G1 & G2 & G3 & _).
  split_and!; [|congruence..]. by apply (changes_trans _ r0), (changes_trans _ _ _ P1).
Qed.

Lemma setTexture_ok rm d w h st rep sm tr fd al a b c e r freed :
  let r' := (renderer_setTexture rm d w h st rep sm tr fd al a b c e r freed).1 in
  changes r r' /\ valid_paint (_paintMode r') /\ _maskType r' = _maskType r /\
  _compositeRule r' = _compositeRule r.
Proof.
  intros r'. subst r'. unfold renderer_setTexture. cbv zeta.
  set (p := if rm =? IMAGE_MODE_NORMAL then _ else _). set (r0 := set_paint_transform tr r).
  assert (Vp : valid_paint p) by (unfold valid_paint; subst p; destruct (_ =? _); tauto).
  destruct (setPaintMode p r0 freed) as [r1 f1] eqn:E1.
  assert (G : forall q, frame r1 q -> (forall g, has q g = has r1 g) ->
    changes r q /\ valid_paint (_paintMode q) /\ _maskType q = _maskType r /\ _compositeRule q = _compositeRule r).
  { intros q H1 H2. destruct (paint_setter_ok p r r0 q freed) as (K1 & K2 & K3 & K4);
      [split; reflexivity|reflexivity|by rewrite E1|by rewrite E1|]. rewrite K2. done. }
  cbn [fst]. apply G; destruct sm; repeat case_match; first [split; reflexivity | reflexivity].
Qed.

Lemma copy_ramp_ok colors r r' : copy_ramp colors r = Some r' -> frame r r' /\ (forall g, has r' g = has r g).
Proof.
  unfold copy_ramp. destruct (_ <=? _); [|done]. intros. simplify_eq. split; [split|]; reflexivity.
Qed.

Lemma setLinear_ok x0 y0 x1 y1 colors tr r freed r' freed' :
  renderer_setLinearGradient x0 y0 x1 y1 colors tr r freed = Some (r', freed') ->
  changes r r' /\ _paintMode r' = PAINT_LINEAR_GRADIENT /\ _maskType r' = _maskType r /\
  _compositeRule r' = _compositeRule r.
Proof.
  unfold renderer_setLinearGradient. cbv zeta.
  match goal with |- context [setPaintMode _ ?q _] => set (r0 := q) end.
  destruct (setPaintMode PAINT_LINEAR_GRADIENT r0 freed) as [r1 f1] eqn:E1. intros H.
  destruct (copy_ramp colors r1) as [r2|] eqn:E2; [|discriminate].
  assert (r2 = r') as <- by (cbn in H; congruence). destruct (copy_ramp_ok _ _ _ E2) as [K1 K2].
  apply (paint_setter_ok PAINT_LINEAR_GRADIENT r r0 r2 freed); rewrite ?E1; [split; reflexivity|reflexivity|done..].
Qed.

Lemma setRadial_ok cx cy fx fy radius colors tr r freed r' freed' :
  renderer_setRadialGradient cx cy fx fy radius colors tr r freed = Some (r', freed') ->
  changes r r' /\ _paintMode r' = PAINT_RADIAL_GRADIENT /\ _maskType r' = _maskType r /\
  _compositeRule r' = _compositeRule r.
Proof.
  unfold renderer_setRadialGradient. cbv zeta.
  match goal with |- context [let '(a, b) := ?t in _] => destruct t as [ux uy] end.
  match goal with |- context [setPaintMode _ ?q _] => set (r0 := q) end.
  destruct (setPaintMode PAINT_RADIAL_GRADIENT r0 freed) as [r1 f1] eqn:E1. intros H.
  destruct (copy_ramp colors r1) as [r2|] eqn:E2; [|discriminate].
  assert (r2 = r') as <- by (cbn in H; congruence). destruct (copy_ramp_ok _ _ _ E2) as [K1 K2].
  apply (paint_setter_ok PAINT_RADIAL_GRADIENT r r0 r2 freed); rewrite ?E1; [split; reflexivity|reflexivity|done..].
Qed.

(** ** Reachable states

    A configuration: the renderer, the blocks freed so far, and the texture
    blocks whose ownership was handed to the renderer so far. *)
Definition conf : Type := Renderer * list freed_block * list Z.

Inductive renderer_step (s : Surface) : conf -> conf -> Prop :=
  | st_clip x y w h r f g : renderer_step s (r, f, g) (renderer_setClip x y w h r, f, g)
  | st_color a b c d r f g : renderer_step s (r, f, g) (renderer_setColor a b c d r f, g)
  | st_rule c r f g : valid_rule c -> renderer_step s (r, f, g) (renderer_setCompositeRule c r, f, g)
  | st_linear x0 y0 x1 y1 colors tr r f g r' f' :
      renderer_setLinearGradient x0 y0 x1 y1 colors tr r f = Some (r', f') ->
      renderer_step s (r, f, g) (r', f', g)
  | st_radial cx cy fx fy radius colors tr r f g r' f' :
      renderer_setRadialGradient cx cy fx fy radius colors tr r f = Some (r', f') ->
      renderer_step s (r, f, g) (r', f', g)
  | st_texture_owned rm d w h st rep sm tr al a b c e r f g :
      (** a freshly allocated copy of the image *)
      tex_block d ∉ g ->
      renderer_step s (r, f, g)
        (renderer_setTexture rm d w h st rep sm tr true al a b c e r f, tex_block d :: g)
  | st_texture_java rm d w h st rep sm tr al a b c e r f g :
      renderer_step s (r, f, g) (renderer_setTexture rm d w h st rep sm tr false al a b c e r f, g)
  | st_texture_drop r f g :
      (** the end of drawImage *)
      _texture_free r = false -> renderer_step s (r, f, g) (set_texture_intData None r, f, g)
  | st_mask t d w h fd r f g :
      valid_mask t -> renderer_step s (r, f, g) (renderer_setMask t d w h fd r f, g)
  | st_unmask r f g : renderer_step s (r, f, g) (renderer_removeMask r f, g)
  | st_invalidate r f g : renderer_step s (r, f, g) (INVALIDATE_RENDERER_SURFACE r, f, g)
  | st_validate r f g r' :
      VALIDATE_BLITTING s r = Some r' -> renderer_step s (r, f, g) (r', f, g)
  | st_draw r f g r' :
      (** drawing moves the cursor and writes pixels, coverage and paint *)
      frame r r' -> (forall flag, has r' flag = has r flag) ->
      _texture_free r' = _texture_free r -> _texture_intData r' = _texture_intData r ->
      renderer_step s (r, f, g) (r', f, g).

Definition reachable (s : Surface) (c : conf) : Prop :=
  rtc (renderer_step s) (createCommon s, [], []) c.

Lemma step_wf s c c' : imageType s = TYPE_INT_ARGB_PRE -> renderer_step s c c' -> wf c.1.1 -> wf c'.1.1.
Proof.
  intros Hs Hstep Hw. pose proof Hw as [Hm Hr Hp _ _ _ _ _ _].
  destruct Hstep; cbn [fst] in *.
  - apply (wf_changes r); try assumption. apply changes_frame; [split|]; reflexivity.
  - destruct (setColor_ok a b c d r f) as (K1 & K2 & K3 & K4).
    apply (wf_changes r); [done|done|congruence|congruence|]. rewrite K2. by left.
  - destruct (setCompositeRule_ok c r) as (K1 & K2 & K3 & K4). apply (wf_changes r); congruence.
  - destruct (setLinear_ok _ _ _ _ _ _ _ _ _ _ H) as (K1 & K2 & K3 & K4).
    apply (wf_changes r); [done|done|congruence|congruence|]. rewrite K2. by right; left.
  - destruct (setRadial_ok _ _ _ _ _ _ _ _ _ _ _ H) as (K1 & K2 & K3 & K4).
    apply (wf_changes r); [done|done|congruence|congruence|]. rewrite K2. by right; right; left.
  - destruct (setTexture_ok rm d w h st rep sm tr true al a b c e r f) as (K1 & K2 & K3 & K4).
    apply (wf_changes r); congruence.
  - destruct (setTexture_ok rm d w h st rep sm tr false al a b c e r f) as (K1 & K2 & K3 & K4).
    apply (wf_changes r); congruence.
  - apply (wf_changes r); try assumption. apply changes_frame; [split|]; reflexivity.
  - destruct (setMask_ok t d w h fd r f) as (K1 & K2 & K3 & K4). apply (wf_changes r); congruence.
  - destruct (removeMask_ok r f) as (K1 & K2 & K3 & K4).
    apply (wf_changes r); [done|done| |congruence|congruence]. rewrite K2. by left.
  - apply (wf_changes r); try assumption. apply changes_raise.
  - destruct (validate_ok s r Hw Hs) as (r1 & E1 & V). assert (r1 = r') as <- by congruence. by destruct V.
  - pose proof H as [Ei _ _]. destruct (inputs_eq _ _ Ei) as (F1 & F2 & F3 & _).
    apply (wf_changes r); [done|by apply changes_frame|congruence..].
Qed.

Lemma reachable_wf s c : imageType s = TYPE_INT_ARGB_PRE -> reachable s c -> wf c.1.1.
Proof.
  intros Hs H. unfold reachable in H. pattern c. eapply rtc_ind_r; [|clear c H|exact H].
  - apply createCommon_wf.
  - intros c c' _ Hstep Hw. by eapply step_wf.
Qed.

(** C20: from creation on, after any sequence of setters, masks, textures,
    gradients and drawing, [VALIDATE_BLITTING] succeeds (its assertion holds)
    and leaves the paint generator, the blit and the line routine that the
    current mask type, composite rule and paint mode call for, the colour
    registers of the current colour (zero for the clear rule), the geometry of
    the surface, and no flag up. *)
Theorem validation_correct s c : imageType s = TYPE_INT_ARGB_PRE -> reachable s c ->
  exists r', VALIDATE_BLITTING s c.1.1 = Some r' /\ validated s c.1.1 r'.
Proof. intros Hs Hc. apply validate_ok; [by eapply reachable_wf|done]. Qed.

Definition sample_surface : Surface := mkSurface 4 3 0 4 1 TYPE_INT_ARGB_PRE (Some (replicate 12 0)).

Definition sample_conf : conf :=
  (renderer_setColor 255 0 0 128
     (renderer_setCompositeRule COMPOSITE_SRC (createCommon sample_surface)) [], []).

Lemma sample_conf_reachable : reachable sample_surface sample_conf.
Proof.
  unfold reachable. eapply rtc_l; [apply (st_rule _ COMPOSITE_SRC); right; left; reflexivity|].
  apply rtc_once. apply (st_color _ 255 0 0 128).
Qed.

Lemma validation_correct_witness :
  exists r', VALIDATE_BLITTING sample_surface sample_conf.1.1 = Some r' /\
    paint_table r' = (None, Some BlitSrc8888_pre, Some EmitLineSource8888_pre) /\
    color_table r' = (128, 255, 0, 0) /\ _width r' = 4.
Proof.
  destruct (validation_correct sample_surface sample_conf) as (r' & E & [_ _ D _ C G _]).
  - reflexivity.
  - apply sample_conf_reachable.
  - exists r'. split; [exact E|]. rewrite D, C. specialize (G eq_refl). unfold geometry_of in G.
    split; [reflexivity|]. split; [reflexivity|]. injection G as G _ _ _ _ _. exact G.
Defined.

(** ** Ownership of textures *)

Definition freed_textures (f : list freed_block) : list Z :=
  omap (fun b => match b with FreedTexture n => Some n | FreedMask => None end) f.

(** The block the renderer must still free. *)
Definition tex_fields (r : Renderer) := (_texture_free r, _texture_intData r).

Definition owned (t : bool * option texture_ptr) : list Z :=
  match t with (true, Some d) => [tex_block d] | _ => [] end.

(** What is owned or already freed. *)
Definition accounted (r : Renderer) (f : list freed_block) : list Z := owned (tex_fields r) ++ freed_textures f.

Lemma free_texture_owned (r : Renderer) f :
  freed_textures (if _texture_free r then my_free_texture (_texture_intData r) f else f) = accounted r f.
Proof. unfold accounted, owned, tex_fields. by destruct (_texture_free r), (_texture_intData r). Qed.

Lemma setPaintMode_accounted p r f : let '(r', f') := setPaintMode p r f in
  accounted r' f' = accounted r f /\ _texture_free r' = _texture_free r.
Proof.
  unfold setPaintMode. destruct (_ =? _); [done|]. cbv zeta. split; [|reflexivity].
  rewrite <- (free_texture_owned r f). unfold accounted. set (f' := if _texture_free r then _ else _).
  match goal with |- owned (tex_fields ?q) ++ _ = _ =>
    change (tex_fields q) with (_texture_free r, @None texture_ptr) end.
  by destruct (_texture_free r).
Qed.

Lemma accounted_ext r r' f : tex_fields r' = tex_fields r -> accounted r' f = accounted r f.
Proof. unfold accounted. by intros ->. Qed.

Lemma freed_mask_textures (b : bool) m f : freed_textures (if b then my_free_mask m f else f) = freed_textures f.
Proof. by destruct b, m. Qed.

Lemma setTexture_accounted rm d w h st rep sm tr fd al a b c e r f :
  let '(r', f') := renderer_setTexture rm d w h st rep sm tr fd al a b c e r f in
  accounted r' f' = (if fd then [tex_block d] else []) ++ accounted r f.
Proof.
  unfold renderer_setTexture. cbv zeta.
  set (p := if rm =? IMAGE_MODE_NORMAL then _ else _). set (r0 := set_paint_transform tr r).
  assert (E0 : accounted r0 f = accounted r f) by reflexivity. clearbody r0.
  pose proof (setPaintMode_accounted p r0 f) as E1. destruct (setPaintMode p r0 f) as [r1 f1].
  destruct E1 as [E1 _]. rewrite <- E0, <- E1, <- (free_texture_owned r1 f1).
  set (f2 := if _texture_free r1 then _ else _). clearbody f2.
  unfold accounted at 1. f_equal. match goal with |- owned (tex_fields ?q) = _ => set (r2 := q) end.
  assert (E2 : tex_fields r2 = (fd, Some d)).
  { subst r2. destruct sm; repeat case_match; reflexivity. }
  rewrite E2. by destruct fd.
Qed.

Lemma copy_ramp_tex colors r r' : copy_ramp colors r = Some r' -> tex_fields r' = tex_fields r.
Proof. unfold copy_ramp. destruct (_ <=? _); [|done]. intros. by simplify_eq. Qed.

Lemma setLinear_accounted x0 y0 x1 y1 colors tr r f r' f' :
  renderer_setLinearGradient x0 y0 x1 y1 colors tr r f = Some (r', f') -> accounted r' f' = accounted r f.
Proof.
  unfold renderer_setLinearGradient. cbv zeta.
  match goal with |- context [setPaintMode _ ?q _] => set (r0 := q) end.
  assert (E0 : accounted r0 f = accounted r f) by reflexivity. clearbody r0.
  pose proof (setPaintMode_accounted PAINT_LINEAR_GRADIENT r0 f) as E1.
  destruct (setPaintMode PAINT_LINEAR_GRADIENT r0 f) as [r1 f1]. destruct E1 as [E1 _].
  destruct (copy_ramp colors r1) as [r2|] eqn:E2; [|discriminate].
  intros H. change (Some (r2, f1) = Some (r', f')) in H. injection H as <- <-.
  transitivity (accounted r1 f1); [|congruence]. apply accounted_ext. by eapply copy_ramp_tex.
Qed.

Lemma setRadial_accounted cx cy fx fy radius colors tr r f r' f' :
  renderer_setRadialGradient cx cy fx fy radius colors tr r f = Some (r', f') -> accounted r' f' = accounted r f.
Proof.
  unfold renderer_setRadialGradient. cbv zeta.
  match goal with |- context [let '(a, b) := ?t in _] => destruct t as [ux uy] end.
  match goal with |- context [setPaintMode _ ?q _] => set (r0 := q) end.
  assert (E0 : accounted r0 f = accounted r f) by reflexivity. clearbody r0.
  pose proof (setPaintMode_accounted PAINT_RADIAL_GRADIENT r0 f) as E1.
  destruct (setPaintMode PAINT_RADIAL_GRADIENT r0 f) as [r1 f1]. destruct E1 as [E1 _].
  destruct (copy_ramp colors r1) as [r2|] eqn:E2; [|discriminate].
  intros H. change (Some (r2, f1) = Some (r', f')) in H. injection H as <- <-.
  transitivity (accounted r1 f1); [|congruence]. apply accounted_ext. by eapply copy_ramp_tex.
Qed.

(** Validation leaves the texture alone. *)
Lemma lower_tex f r : tex_fields (lower f r) = tex_fields r.
Proof. reflexivity. Qed.

Lemma updatePaint_tex r : tex_fields (updatePaintDependedRoutines r) = tex_fields r.
Proof. unfold updatePaintDependedRoutines. repeat case_match; reflexivity. Qed.

Lemma updateComposite_tex r : tex_fields (updateCompositeDependedRoutines r) = tex_fields r.
Proof.
  unfold updateCompositeDependedRoutines. cbv zeta.
  rewrite lower_tex, updatePaint_tex. repeat case_match; reflexivity.
Qed.

Lemma updateMask_tex r : tex_fields (updateMaskDependedRoutines r) = tex_fields r.
Proof.
  unfold updateMaskDependedRoutines. cbv zeta.
  rewrite lower_tex, updateComposite_tex. repeat case_match; reflexivity.
Qed.

Lemma updateSurface_tex s r : tex_fields (updateRendererSurface s r) = tex_fields r.
Proof.
  unfold updateRendererSurface. cbv zeta. fold (load_geometry s r). rewrite lower_tex.
  assert (E : tex_fields (load_geometry s r) = tex_fields r) by reflexivity.
  set (r0 := load_geometry s r) in *. clearbody r0. rewrite <- E. destruct (_ =? _); [done|].
  unfold updateSurfaceDependedRoutines. rewrite updateMask_tex. repeat case_match; reflexivity.
Qed.

Lemma updateColor_tex r : tex_fields (updateInternalColor r) = tex_fields r.
Proof. unfold updateInternalColor. rewrite lower_tex. by destruct (_ =? _). Qed.

Lemma validate_tex s r r' : VALIDATE_BLITTING s r = Some r' -> tex_fields r' = tex_fields r.
Proof.
  unfold VALIDATE_BLITTING. cbv zeta. destruct (has r INVALID_BLITTING_MASK); [|by intros [= ->]].
  match goal with |- (if has ?q _ then _ else _) = _ -> _ => set (r3 := q) end.
  destruct (has r3 INVALID_BLITTING_MASK); [done|]. intros [= <-]. subst r3.
  repeat case_match; rewrite ?updateMask_tex, ?updateComposite_tex, ?updatePaint_tex, ?updateColor_tex,
    ?updateSurface_tex; reflexivity.
Qed.

(** Every step accounts for exactly the blocks handed over. *)
Definition ownership (c : conf) : Prop :=
  let '(r, f, g) := c in accounted r f = g /\ NoDup g.

Lemma step_ownership s c c' : renderer_step s c c' -> ownership c -> ownership c'.
Proof.
  unfold ownership. intros Hstep. destruct Hstep; intros [Ha Hn].
  - split; [|done]. exact Ha.
  - unfold renderer_setColor. cbv zeta.
    match goal with |- context [setPaintMode _ ?q _] => set (r1 := q) end.
    assert (E : accounted r1 f = accounted r f) by (subst r1; repeat case_match; reflexivity). clearbody r1.
    pose proof (setPaintMode_accounted PAINT_FLAT_COLOR r1 f) as E1.
    destruct (setPaintMode PAINT_FLAT_COLOR r1 f) as [r2 f2]. destruct E1. split; [congruence|done].
  - split; [|done]. rewrite (accounted_ext r); [done|].
    unfold renderer_setCompositeRule. repeat case_match; reflexivity.
  - split; [|done]. rewrite (setLinear_accounted _ _ _ _ _ _ _ _ _ _ H). done.
  - split; [|done]. rewrite (setRadial_accounted _ _ _ _ _ _ _ _ _ _ _ H). done.
  - pose proof (setTexture_accounted rm d w h st rep sm tr true al a b c e r f) as E.
    destruct (renderer_setTexture rm d w h st rep sm tr true al a b c e r f) as [r' f'].
    split; [by rewrite E, Ha|by constructor].
  - pose proof (setTexture_accounted rm d w h st rep sm tr false al a b c e r f) as E.
    destruct (renderer_setTexture rm d w h st rep sm tr false al a b c e r f) as [r' f'].
    split; [by rewrite E, Ha|done].
  - split; [|done]. rewrite <- Ha. unfold accounted. f_equal.
    change (tex_fields (set_texture_intData None r)) with (_texture_free r, @None texture_ptr).
    unfold tex_fields. by rewrite H.
  - unfold renderer_setMask. cbv zeta. split; [|done]. rewrite <- Ha. unfold accounted.
    by rewrite freed_mask_textures.
  - unfold renderer_removeMask. cbv zeta. split; [|done]. rewrite <- Ha. unfold accounted.
    by rewrite freed_mask_textures.
  - split; [|done]. exact Ha.
  - split; [|done]. rewrite (accounted_ext r); [done|]. by eapply validate_tex.
  - split; [|done]. rewrite (accounted_ext r); [done|]. unfold tex_fields. congruence.
Qed.

(** C21: texture memory is freed exactly once: in every reachable state the
    blocks handed to the renderer so far are pairwise different and each is
    either the one it holds or freed, once; after [renderer_dispose] all of
    them are freed, once, and nothing else is. *)
Theorem texture_ownership s r f g : reachable s (r, f, g) ->
  NoDup (freed_textures (renderer_dispose r f)) /\ freed_textures (renderer_dispose r f) = g /\
  accounted r f = g.
Proof.
  intros H. assert (Ho : ownership (r, f, g)).
  { unfold reachable in H. eapply (rtc_ind_r ownership); [| |exact H].
    - split; [reflexivity|constructor].
    - intros c c' _ Hstep Hc. by eapply step_ownership. }
  destruct Ho as [Ha Hn]. unfold renderer_dispose. rewrite free_texture_owned, Ha. done.
Qed.

Lemma texture_ownership_witness :
  let s := sample_surface in
  let c := renderer_setTexture IMAGE_MODE_NORMAL (TexturePtr 7 0 [0]) 1 1 1 false true identity6
             true true 0 0 0 0 (createCommon s) [] in
  freed_textures (renderer_dispose c.1 c.2) = [7].
Proof.
  intros s c. destruct (texture_ownership s c.1 c.2 [7]) as (_ & E & _); [|exact E].
  unfold reachable. apply rtc_once. rewrite <- surjective_pairing.
  apply (st_texture_owned s IMAGE_MODE_NORMAL (TexturePtr 7 0 [0])). apply not_elem_of_nil.
Defined.

(** ** Null function pointers *)

(** For every valid mask, rule and paint the selected line routine is not
    null, and the selected blit is null only for an LCD mask under the
    "source" rule or with a paint: the combinations for which PiscesRenderer
    installs no routine. *)
Theorem dispatch_null t rule paint : valid_mask t -> valid_rule rule -> valid_paint paint ->
  let '(g, rows, line) := dispatch t rule paint in
  line <> None /\
  (rows = None <-> t = LCD_ALPHA_MASK /\ rule <> COMPOSITE_CLEAR /\
                   (rule = COMPOSITE_SRC \/ paint <> PAINT_FLAT_COLOR)).
Proof.
  intros Ht Hr Hp.
  destruct Ht as [->|[->| ->]]; destruct Hr as [->|[->| ->]];
    destruct Hp as [->|[->|[->|[->| ->]]]]; vm_compute; (split; [discriminate|]);
    split; intros H; try discriminate; try (destruct H as (? & ? & ?)); try discriminate; try tauto.
  all: try (split_and!; [reflexivity|discriminate|first [left; reflexivity | right; discriminate]]).
  all: try (exfalso; tauto).
  all: try (exfalso; destruct H1; [discriminate|congruence]).
Qed.

Lemma dispatch_null_witness :
  dispatch LCD_ALPHA_MASK COMPOSITE_SRC_OVER PAINT_FLAT_COLOR =
    (None, Some BlitSrcOverLCDMask8888_pre, Some EmitLineSourceOver8888_pre) /\
  (dispatch LCD_ALPHA_MASK COMPOSITE_SRC_OVER PAINT_TEXTURE8888).1.2 = None.
Proof.
  pose proof (dispatch_null LCD_ALPHA_MASK COMPOSITE_SRC_OVER PAINT_TEXTURE8888) as H.
  split; [reflexivity|]. apply H.
  - right. right. reflexivity.
  - right. right. reflexivity.
  - right. right. right. left. reflexivity.
  - split; [reflexivity|]. split; [discriminate|]. right. discriminate.
Defined.

(** With the clear rule the mask is not consulted: a blit under an alpha mask
    is dispatched to the routine that reads the coverage row [_rowAAInt]. *)
Example clear_ignores_mask :
  dispatch ALPHA_MASK COMPOSITE_CLEAR PAINT_FLAT_COLOR =
    (None, Some BlitSrc8888_pre, Some EmitLineSource8888_pre).
Proof. reflexivity. Qed.
