(* ===== verification/PiscesSurface.v ===== *)
(** * Surfaces: pinning the pixel array, reading and writing pixels

    native-prism-sw/JJavaSurface.c ([surface_acquire]), JAbstractSurface.c
    ([getRGBImpl], [setRGBImpl]) and PiscesSurface.inl ([setRGB]).  A Java array
    is the list of its elements; [pin] says whether
    [GetPrimitiveArrayCritical] returned a pointer.  [None] is undefined
    behaviour: a division by zero, a null dereference, an access outside an
    array. *)

From S2P Require Import Prelude Float32 PiscesTransform PiscesPixel PiscesState PiscesBlit.
From S2P Require Import PiscesBlitSpec PiscesRenderer.

Inductive java_exception : Type := IllegalArgumentException | OutOfMemoryError.

#[global] Instance java_exception_eq_dec : EqDecision java_exception.
Proof. solve_decision. Defined.

(** [surface->data = v] *)
Definition set_surface_data (v : option (list Z)) (s : Surface) : Surface :=
  mkSurface (width s) (height s) (offset s) (scanlineStride s) (pixelStride s) (imageType s) v.

(** [Java_com_sun_pisces_JavaSurface_initialize]: the fields it assigns. *)
Definition JavaSurface_initialize (dataType width height : Z) : Surface :=
  mkSurface width height 0 width 1 dataType None.

(** The surface, the memory error flag and the pending exception after the
    call; [dataInt] is the Java array field. *)
Definition surface_acquire (pin : bool) (dataInt : list Z) (s : Surface)
  : option (Surface * bool * option java_exception) :=
  let dataArrayLength := alen dataInt in
  let reject := Some (set_surface_data None s, false, Some IllegalArgumentException) in
  if (width s <? 0) || (height s <? 0) then reject
  else if width s =? 0 then None
  else if Z.quot dataArrayLength (width s) <? height s then reject
  else if pin then Some (set_surface_data (Some dataInt) s, false, None)
  else Some (set_surface_data None s, true, None).

(** The macro [CORRECT_DIMS]: the clipped rectangle and the offset of its
    first pixel in the caller's array. *)
Definition CORRECT_DIMS (s : Surface) (x y w h x1 y1 : Z) : Z * Z * Z * Z * Z * Z :=
  let '(x, w, x1) := if x <? 0 then (0, i32 (w + x), i32 (x1 - x)) else (x, w, x1) in
  let '(y, h, y1) := if y <? 0 then (0, i32 (h + y), i32 (y1 - y)) else (y, h, y1) in
  let w := if i32 (x + w) >? width s then i32 (width s - x) else w in
  let h := if i32 (y + h) >? height s then i32 (height s - y) else h in
  (x, y, w, h, x1, y1).

(** [setRGB] of PiscesSurface.inl: [height] runs of [width] elements, the
    pointers advanced by the scan rests after each run. *)
Definition setRGB (m : list Z) (dst dstScanLength : Z) (from : list Z) (src srcScanLength width height : Z)
  : option (list Z) :=
  let srcScanRest := srcScanLength - width in
  let dstScanRest := dstScanLength - width in
  '(_, _, m) ←
    for_lt height
      (fun _ '(dst, src, m) =>
         '(dst, src, m) ←
           for_lt width
             (fun _ '(dst, src, m) => v ← aget from src; m ← aset m dst v; Some (dst + 1, src + 1, m))
             (dst, src, m);
         Some (dst + dstScanRest, src + srcScanRest, m))
      (dst, src, m);
  Some m.

(** The caller's array after the call and the exception thrown. *)
Definition getRGBImpl (pin_dst pin_src : bool) (s : Surface) (dataInt argb : list Z)
    (off scanLength x y w h : Z) : option (list Z * option java_exception) :=
  let '(x, y, w, h, dstX, dstY) := CORRECT_DIMS s x y w h 0 0 in
  if (w >? 0) && (h >? 0) then
    let dstDataLength := alen argb in
    let dstStart := i32 (off + dstY * scanLength + dstX) in
    let dstEnd := i32 (dstStart + h * scanLength - 1) in
    if (dstStart <? 0) || (dstStart >=? dstDataLength) || (dstEnd <? 0) || (dstEnd >=? dstDataLength)
    then Some (argb, Some IllegalArgumentException)
    else if pin_dst then
      '(s, memError, exn) ← surface_acquire pin_src dataInt s;
      if memError : bool then Some (argb, Some OutOfMemoryError)
      else
        data ← data s;
        argb ← setRGB argb dstStart scanLength data (i32 (i32 (y * width s) + x)) (width s) w h;
        Some (argb, exn)
    else Some (argb, Some OutOfMemoryError)
  else Some (argb, None).

(** The pixel array after the call and the exception thrown. *)
Definition setRGBImpl (pin_src pin_dst : bool) (s : Surface) (dataInt argb : list Z)
    (off scanLength x y w h : Z) : option (list Z * option java_exception) :=
  let '(x, y, w, h, srcX, srcY) := CORRECT_DIMS s x y w h 0 0 in
  if (w >? 0) && (h >? 0) then
    let srcDataLength := alen argb in
    let srcStart := i32 (off + srcY * scanLength + srcX) in
    let srcEnd := i32 (srcStart + h * scanLength - 1) in
    if (srcStart <? 0) || (srcStart >=? srcDataLength) || (srcEnd <? 0) || (srcEnd >=? srcDataLength)
    then Some (dataInt, Some IllegalArgumentException)
    else if pin_src then
      '(s, memError, exn) ← surface_acquire pin_dst dataInt s;
      if memError : bool then Some (dataInt, Some OutOfMemoryError)
      else
        match data s with
        | None => Some (dataInt, exn)
        | Some data =>
            data ← setRGB data (i32 (i32 (y * width s) + x)) (width s) argb srcStart scanLength w h;
            Some (data, exn)
        end
    else Some (dataInt, Some OutOfMemoryError)
  else Some (dataInt, None).

(** ** Copying rectangles *)

(** One run. *)
Lemma run_ok w dst src m from : 0 <= w -> 0 <= dst -> dst + w <= alen m -> 0 <= src -> src + w <= alen from ->
  exists m',
    for_lt w (fun _ '(dst, src, m) => v ← aget from src; m ← aset m dst v; Some (dst + 1, src + 1, m))
      (dst, src, m) = Some (dst + w, src + w, m') /\
    pointwise m m' (span_fn dst w (fun c _ => default 0 (aget from (src + c)))).
Proof.
  intros Hw Hd Hdl Hs Hsl.
  destruct (for_lt_inv
    (fun k '(d, s, m') => d = dst + k /\ s = src + k /\
       pointwise m m' (span_fn dst k (fun c _ => default 0 (aget from (src + c)))))
    w (fun _ '(dst, src, m) => v ← aget from src; m ← aset m dst v; Some (dst + 1, src + 1, m))
    (dst, src, m)) as ([[d s] m'] & E & (-> & -> & Hm)).
  - split_and!; [lia..|]. eapply pointwise_ext; [|apply pointwise_refl]. intros. by rewrite span_fn_0.
  - intros k [[d s] m'] Hk (-> & -> & Hm). destruct (aget_ex from (src + k)) as [v Hv]; [lia|].
    rewrite Hv. mred.
    destruct (span_act (fun _ => True) m m' dst k (fun c _ => default 0 (aget from (src + c)))
      (fun i m => aset m i v)) as (m'' & -> & Hm''); [lia..|done|done| |].
    { apply acts_as_aset. intros _ _. by rewrite Hv. }
    mred. eexists; split; [done|]. split_and!; [lia..|done].
  - replace (Z.max 0 w) with w in * by lia. eauto.
Qed.

(** The whole rectangle: row [j], column [c] of the destination gets row [j],
    column [c] of the source. *)
Lemma setRGB_ok m dst dscan from src sscan w h :
  0 < w -> 0 <= h -> w <= dscan -> w <= sscan -> 0 <= dst -> 0 <= src ->
  dst + (h - 1) * dscan + w <= alen m -> src + (h - 1) * sscan + w <= alen from ->
  exists m', setRGB m dst dscan from src sscan w h = Some m' /\
    pointwise m m' (rect_fn dst dscan w h (fun j c _ => default 0 (aget from (src + j * sscan + c)))).
Proof.
  intros Hw Hh Hds Hss Hd Hs Hdl Hsl. unfold setRGB.
  set (col j c (_ : Z) := default 0 (aget from (src + j * sscan + c))).
  destruct (for_lt_inv
    (fun j '(d, s, m') => d = dst + j * dscan /\ s = src + j * sscan /\
       pointwise m m' (rect_fn dst dscan w j col))
    h (fun _ '(dst, src, m) =>
         '(dst, src, m) ←
           for_lt w
             (fun _ '(dst, src, m) => v ← aget from src; m ← aset m dst v; Some (dst + 1, src + 1, m))
             (dst, src, m);
         Some (dst + (dscan - w), src + (sscan - w), m))
    (dst, src, m)) as ([[d s] m'] & -> & (_ & _ & Hm)).
  - split_and!; [lia..|]. eapply pointwise_ext; [|apply pointwise_refl]. intros. by rewrite rect_fn_0.
  - intros j [[d s] m'] Hj (-> & -> & Hm).
    assert (0 <= j * dscan <= (h - 1) * dscan) by nia. assert (0 <= j * sscan <= (h - 1) * sscan) by nia.
    destruct (run_ok w (dst + j * dscan) (src + j * sscan) m' from) as (m'' & -> & Hm'');
      [lia|lia|rewrite (pointwise_alen _ _ _ Hm); lia|lia..|].
    mred. eexists; split; [done|]. split_and!; [lia..|].
    eapply pointwise_ext; [|exact (pointwise_trans _ _ _ _ _ Hm Hm'')].
    intros i v _. apply (rect_fn_step dst dscan w j col); lia.
  - mred. exists m'. split; [done|]. by replace (Z.max 0 h) with h in Hm by lia.
Qed.

(** ** The JNI entry points, under the checks of AbstractSurface.rgbCheck *)

Record rgb_ready (s : Surface) (dataInt argb : list Z) (off scanLength x y w h : Z) : Prop := {
  rg_width : 0 < width s;
  rg_height : 0 <= height s;
  rg_data : width s * height s <= alen dataInt;
  rg_dlen : alen dataInt < 2 ^ 31;
  rg_x : 0 <= x;
  rg_y : 0 <= y;
  rg_w : 0 < w;
  rg_h : 0 < h;
  rg_xw : x + w <= width s;
  rg_yh : y + h <= height s;
  rg_off : 0 <= off;
  rg_scan : w <= scanLength;
  rg_len : off + h * scanLength <= alen argb;
  rg_alen : alen argb < 2 ^ 31
}.

Lemma acquire_ok dataInt s : 0 < width s -> 0 <= height s -> width s * height s <= alen dataInt ->
  surface_acquire true dataInt s = Some (set_surface_data (Some dataInt) s, false, None).
Proof.
  intros Hw Hh Hl. unfold surface_acquire.
  assert (height s <= Z.quot (alen dataInt) (width s)).
  { rewrite Z.quot_div_nonneg by lia. apply Z.div_le_lower_bound; lia. }
  case_bools; done.
Qed.

Section rgb.
Context (s : Surface) (dataInt argb : list Z) (off scan x y w h : Z).
Context (Hr : rgb_ready s dataInt argb off scan x y w h).

Lemma rgb_bounds : CORRECT_DIMS s x y w h 0 0 = (x, y, w, h, 0, 0) /\
  i32 (off + 0 * scan + 0) = off /\ i32 (off + h * scan - 1) = off + h * scan - 1 /\
  i32 (i32 (y * width s) + x) = y * width s + x /\ 0 <= y * width s /\ off < off + h * scan /\
  y * width s + x + (h - 1) * width s + w <= alen dataInt /\
  off + (h - 1) * scan + w <= alen argb.
Proof using Hr.
  destruct Hr. assert (w <= h * scan) by nia.
  assert ((y + h) * width s <= height s * width s) by nia. assert (0 <= y * width s) by nia.
  assert (height s <= height s * width s) by nia.
  assert (y * width s + h * width s = (y + h) * width s) by lia.
  assert (width s <= h * width s) by nia.
  split_and!.
  - unfold CORRECT_DIMS. rewrite (proj2 (Z.ltb_ge x 0)), (proj2 (Z.ltb_ge y 0)) by lia.
    rewrite (i32_id (x + w)), (i32_id (y + h)) by (unfold in_i32; lia). rewrite !Z.gtb_ltb.
    case_bools. done.
  - rewrite Z.mul_0_l, !Z.add_0_r. apply i32_id. unfold in_i32. lia.
  - apply i32_id. unfold in_i32. lia.
  - rewrite (i32_id (y * width s)) by (unfold in_i32; lia). apply i32_id. unfold in_i32. lia.
  - lia.
  - lia.
  - lia.
  - lia.
Qed.

Lemma getRGB_ok : exists argb', getRGBImpl true true s dataInt argb off scan x y w h = Some (argb', None) /\
  pointwise argb argb' (rect_fn off scan w h
    (fun j c _ => default 0 (aget dataInt (y * width s + x + j * width s + c)))).
Proof using Hr.
  destruct rgb_bounds as (E & E1 & E2 & E3 & Hy & Ho & Hd & Ha). unfold getRGBImpl.
  rewrite E, E1, E2. destruct Hr. rewrite !Z.gtb_ltb, !Z.geb_leb. case_bools.
  rewrite acquire_ok by done. mred. cbn [data set_surface_data]. mred.
  change (width (set_surface_data (Some dataInt) s)) with (width s). rewrite E3.
  destruct (setRGB_ok argb off scan dataInt (y * width s + x) (width s) w h) as (m' & -> & Hm'); [lia..|].
  mred. eauto.
Qed.

Lemma setRGB_impl_ok : exists data', setRGBImpl true true s dataInt argb off scan x y w h = Some (data', None) /\
  pointwise dataInt data' (rect_fn (y * width s + x) (width s) w h
    (fun j c _ => default 0 (aget argb (off + j * scan + c)))).
Proof using Hr.
  destruct rgb_bounds as (E & E1 & E2 & E3 & Hy & Ho & Hd & Ha). unfold setRGBImpl.
  rewrite E, E1, E2. destruct Hr. rewrite !Z.gtb_ltb, !Z.geb_leb. case_bools.
  rewrite acquire_ok by done. mred. cbn [data set_surface_data].
  change (width (set_surface_data (Some dataInt) s)) with (width s). rewrite E3.
  destruct (setRGB_ok dataInt (y * width s + x) (width s) argb off scan w h) as (m' & E4 & Hm'); [lia..|].
  change (width (set_surface_data (Some dataInt) s)) with (width s). rewrite E4. mred. eauto.
Qed.
End rgb.

(** An element of the rectangle. *)
Lemma rect_fn_in p stride n h col j c v : 0 < stride -> n <= stride -> 0 <= j < h -> 0 <= c < n ->
  rect_fn p stride n h col (p + j * stride + c) v = col j c v.
Proof.
  intros Hs Hn Hj Hc. unfold rect_fn. replace (p + j * stride + c - p) with (c + j * stride) by lia.
  rewrite Z.div_add, Z.mod_add, Z.div_small, Z.mod_small by lia. case_bools. done.
Qed.

(** C40: reading and writing pixels are inverse: after [setRGB] of a rectangle
    inside the surface, [getRGB] of the same rectangle returns without an
    exception, delivers exactly the written pixels at the caller's offset and
    scan length, and touches nothing else of the caller's array. *)
Theorem setRGB_getRGB s dataInt argb argb0 off scan x y w h :
  rgb_ready s dataInt argb off scan x y w h -> rgb_ready s dataInt argb0 off scan x y w h ->
  exists data' argb',
    setRGBImpl true true s dataInt argb off scan x y w h = Some (data', None) /\
    getRGBImpl true true s data' argb0 off scan x y w h = Some (argb', None) /\
    pointwise argb0 argb' (rect_fn off scan w h (fun j c _ => default 0 (aget argb (off + j * scan + c)))).
Proof.
  intros H1 H2. destruct (setRGB_impl_ok s dataInt argb off scan x y w h H1) as (data' & E1 & Hd).
  assert (H3 : rgb_ready s data' argb0 off scan x y w h).
  { destruct H2. split; rewrite ?(pointwise_alen _ _ _ Hd); done. }
  destruct (getRGB_ok s data' argb0 off scan x y w h H3) as (argb' & E2 & Ha).
  exists data', argb'. split_and!; [done..|]. eapply pointwise_ext; [|exact Ha].
  intros i v Hv. cbv beta. unfold rect_fn. destruct H1.
  pose proof (Z.mod_pos_bound (i - off) scan ltac:(lia)).
  case_bools; try done. set (j := (i - off) / scan). set (c := (i - off) mod scan).
  assert (Hb : 0 <= y * width s /\ (y + h) * width s <= width s * height s /\ j * width s <= (h - 1) * width s)
    by nia.
  rewrite Hd. destruct (aget_ex dataInt (y * width s + x + j * width s + c)) as [u Hu]; [nia|].
  rewrite Hu. simpl. by rewrite rect_fn_in by lia.
Qed.

Lemma setRGB_getRGB_witness :
  let s := JavaSurface_initialize TYPE_INT_ARGB_PRE 4 3 in
  exists data' argb',
    setRGBImpl true true s (replicate 12 0) [1; 2; 3; 4; 5; 6] 0 3 1 1 2 2 = Some (data', None) /\
    getRGBImpl true true s data' (replicate 6 9) 0 3 1 1 2 2 = Some (argb', None) /\
    aget argb' 0 = Some 1 /\ aget argb' 2 = Some 9 /\ aget argb' 4 = Some 5.
Proof.
  intros s.
  destruct (setRGB_getRGB s (replicate 12 0) [1; 2; 3; 4; 5; 6] (replicate 6 9) 0 3 1 1 2 2)
    as (data' & argb' & E1 & E2 & Hp).
  - split; compute_true.
  - split; compute_true.
  - exists data', argb'. split; [exact E1|]. split; [exact E2|]. rewrite !Hp. vm_compute. repeat split; reflexivity.
Defined.

(** An array too small for the surface: [surface_acquire] throws and leaves
    [data] null, but [ACQUIRE_SURFACE] only looks at the memory error flag, and
    [getRGB] then reads through the null pointer. *)
Example getRGB_null_surface :
  surface_acquire true [0] (JavaSurface_initialize TYPE_INT_ARGB_PRE 4 3) =
    Some (JavaSurface_initialize TYPE_INT_ARGB_PRE 4 3, false, Some IllegalArgumentException) /\
  getRGBImpl true true (JavaSurface_initialize TYPE_INT_ARGB_PRE 4 3) [0] [9; 9] 0 2 0 0 2 1 = None.
Proof. vm_compute. split; reflexivity. Qed.

(** A surface of width zero divides by zero. *)
Example acquire_empty_surface :
  surface_acquire true [0] (JavaSurface_initialize TYPE_INT_ARGB_PRE 0 3) = None.
Proof. reflexivity. Qed.
