(* ===== verification/PiscesDraw.v ===== *)
(** * Drawing entry points of the software renderer

    native-prism-sw/JPiscesRenderer.c: the JNI functions that draw.  They pin
    the surface's pixel array, validate the renderer, split the primitive into
    bands of rows, generate paint and call the scanline routines.

    [world] is what the functions share: the renderer, the surface, the Java
    pixel array, the blocks freed, the gamma tables of the LCD blit, the global
    memory error flag and the pending exception.  [jni] says which of the JVM's
    and the allocator's requests succeed during the call.  The renderer's
    [_data] points into the pinned array, so what is drawn through it is in the
    array when the surface is released. *)

From S2P Require Import Prelude Float32 PiscesTransform PiscesPixel PiscesState PiscesBlit.
From S2P Require Import PiscesPaint PiscesRenderer PiscesSurface.

(** ** Fixed-point coordinates *)

(** [ff] is the bit pattern of a [float]; [None] is a shift by 32 or more,
    which C leaves undefined. *)
Definition toPiscesCoords (ff : Z) : option Z :=
  let gg := (ff & 0xffffff) .| 0x800000 in
  let shift := 134 - ((ff >> 23) & 0xff) in
  gg ← (if shift <? 0 then if -shift <? 32 then Some (u32 (gg << -shift)) else None
        else if shift <? 32 then Some (gg >> shift) else None);
  let sign := ff >> 31 in
  let gg := u32 (Z.lxor gg (u32 (- sign)) + sign) in
  let gg := gg & (if ff =? 0 then 0 else 0xffffffff) in
  Some (i32 gg).

(** ** The shared state *)

Record jni : Type := mkJni {
  pin_surface : bool;
  pin_first : bool;
  pin_second : bool;
  alloc_paint : bool;
  alloc_temp : bool;
  alloc_image : bool
}.

Definition all_succeed : jni := mkJni true true true true true true.

Record world : Type := mkWorld {
  w_rdr : Renderer;
  w_surface : Surface;
  w_pixels : list Z;
  w_freed : list freed_block;
  w_gamma : list Z;
  w_invGamma : list Z;
  w_memError : bool;
  w_exn : option java_exception
}.

Definition with_rdr (w : world) (r : Renderer) : world :=
  mkWorld r (w_surface w) (w_pixels w) (w_freed w) (w_gamma w) (w_invGamma w) (w_memError w) (w_exn w).
Definition with_rdr_freed (w : world) (rf : Renderer * list freed_block) : world :=
  mkWorld rf.1 (w_surface w) (w_pixels w) rf.2 (w_gamma w) (w_invGamma w) (w_memError w) (w_exn w).
Definition with_pixels (w : world) (m : list Z) : world :=
  mkWorld (w_rdr w) (w_surface w) m (w_freed w) (w_gamma w) (w_invGamma w) (w_memError w) (w_exn w).
Definition with_acquired (w : world) (s : Surface) (memError : bool) (exn : option java_exception) : world :=
  mkWorld (w_rdr w) s (w_pixels w) (w_freed w) (w_gamma w) (w_invGamma w)
    (w_memError w || memError) (match exn with Some _ => exn | None => w_exn w end).

Definition setMemErrorFlag (w : world) : world :=
  mkWorld (w_rdr w) (w_surface w) (w_pixels w) (w_freed w) (w_gamma w) (w_invGamma w) true (w_exn w).

(** [if (JNI_TRUE == readAndClearMemErrorFlag()) JNI_ThrowNew(... OutOfMemoryError ...)] *)
Definition throw_mem_error (w : world) : world :=
  if w_memError w then
    mkWorld (w_rdr w) (w_surface w) (w_pixels w) (w_freed w) (w_gamma w) (w_invGamma w) false
      (Some OutOfMemoryError)
  else w.

(** [ACQUIRE_SURFACE ... RELEASE_SURFACE] around [body], which runs unless the
    memory error flag is up. *)
Definition ACQUIRE_SURFACE (j : jni) (body : world -> option world) (w : world) : option world :=
  '(s, memError, exn) ← surface_acquire (pin_surface j) (w_pixels w) (w_surface w);
  let w := with_acquired w s memError exn in
  if w_memError w then Some w else body w.

(** Draw through [_data], which points at the pixel array. *)
Definition draw (f : Renderer -> option Renderer) (w : world) : option world :=
  r ← f (w_rdr w);
  Some (with_pixels (with_rdr w r) (default (w_pixels w) (_data r))).

(** ** Calls through the renderer's function pointers *)

Definition run_paint (j : jni) (g : paint_routine) : Renderer -> Z -> option Renderer :=
  match g with
  | GenLinearGradientPaint => genLinearGradientPaint
  | GenRadialGradientPaint => genRadialGradientPaint
  | GenTexturePaint => genTexturePaint
  | GenTexturePaintMultiply => genTexturePaintMultiply (alloc_temp j)
  end.

Definition run_blit (gammaArray invGammaArray : list Z) (b : blit_routine) : Renderer -> Z -> option Renderer :=
  match b with
  | BlitSrcOver8888_pre => blitSrcOver8888_pre
  | BlitPTSrcOver8888_pre => blitPTSrcOver8888_pre
  | BlitSrc8888_pre => blitSrc8888_pre
  | BlitPTSrc8888_pre => blitPTSrc8888_pre
  | BlitSrcOverMask8888_pre => blitSrcOverMask8888_pre
  | BlitPTSrcOverMask8888_pre => blitPTSrcOverMask8888_pre
  | BlitSrcMask8888_pre => blitSrcMask8888_pre
  | BlitPTSrcMask8888_pre => blitPTSrcMask8888_pre
  | BlitSrcOverLCDMask8888_pre => blitSrcOverLCDMask8888_pre gammaArray invGammaArray
  end.

(** [ALLOC3(rdr->_paint, jint, len)]: a block that is missing (the empty list)
    or too short is replaced by a zeroed one, or by a null pointer. *)
Definition ALLOC3 (j : jni) (len : Z) (rdr : Renderer) : Renderer :=
  if (alen (_paint rdr) =? 0) || (_paint_length rdr <? len) then
    rdr <| set_paint := if alloc_paint j then replicate (Z.to_nat len) 0 else [] |>
        <| set_paint_length := len |>
  else rdr.

(** [if (rdr->_genPaint) { ALLOC3(rdr->_paint, jint, l); rdr->_genPaint(rdr, rows); }] *)
Definition gen_paint (j : jni) (l rows : Z) (rdr : Renderer) : option Renderer :=
  match _genPaint rdr with
  | None => Some rdr
  | Some g => run_paint j g (ALLOC3 j l rdr) rows
  end.

Definition emit_line (rows frac : Z) (rdr : Renderer) : option Renderer :=
  e ← _emitLine rdr; run_emit e rdr rows frac.

Definition emit_blit (gammaArray invGammaArray : list Z) (rows : Z) (rdr : Renderer) : option Renderer :=
  b ← _emitRows rdr; run_blit gammaArray invGammaArray b rdr rows.

(** ** fillRect *)

(** One axis of the rectangle: first and last pixel and the coverage of the
    two, 0 for full, after the edge modes and the clip. *)
Definition rect_axis (x w lEdge rEdge clip_min clip_max : Z) : Z * Z * Z * Z :=
  let lfrac := (0x10000 - (x & 0xFFFF)) & 0xFFFF in
  let rfrac := i32 (x + w) & 0xFFFF in
  let x_from := x >> 16 in
  let x_to := i32 (x + w) in
  let x_to := if ctrue rfrac then x_to >> 16 else (x_to >> 16) - 1 in
  let '(x_from, lfrac) :=
    if lEdge =? IMAGE_FRAC_EDGE_PAD then (x_from, 0)
    else if lEdge =? IMAGE_FRAC_EDGE_TRIM then (if ctrue lfrac then x_from + 1 else x_from, 0)
    else (x_from, lfrac) in
  let '(x_to, rfrac) :=
    if rEdge =? IMAGE_FRAC_EDGE_PAD then (x_to, 0)
    else if rEdge =? IMAGE_FRAC_EDGE_TRIM then (if ctrue rfrac then x_to - 1 else x_to, 0)
    else (x_to, rfrac) in
  let '(x_from, lfrac) := if x_from <? clip_min then (clip_min, 0) else (x_from, lfrac) in
  let '(x_to, rfrac) := if x_to >? clip_max then (clip_max, 0) else (x_to, rfrac) in
  (x_from, x_to, lfrac, rfrac).

(** A single pixel holds both fractions. *)
Definition single_frac (from to lfrac rfrac : Z) : Z * Z :=
  if (from =? to) && ctrue (lfrac .| rfrac) then ((rfrac - 0x10000 + lfrac) & 0xFFFF, 0)
  else (lfrac, rfrac).

(** Paint and emit [rows] rows of the rectangle. *)
Definition rect_band (j : jni) (l rows frac : Z) (rdr : Renderer) : option Renderer :=
  rdr ← gen_paint j (i32 (l * rows)) rows rdr;
  emit_line rows frac rdr.

Definition next_rows (surface_width x_from rows : Z) (rdr : Renderer) : Renderer :=
  let rdr := rdr <| set_currX := x_from |> <| set_currY := i32 (_currY rdr + rows) |> in
  rdr <| set_currImageOffset := i32 (_currY rdr * surface_width) |>
      <| set_rowNum := i32 (_rowNum rdr + rows) |>.

(** [while (rows_to_render_by_loop > 0)]: the full rows, in chunks. *)
Definition full_rows (j : jni) (surface_width x_from l rows : Z) (rdr : Renderer) : option Renderer :=
  '(_, rdr) ←
    while_fuel (Z.to_nat rows) (fun '(rows, _) => rows >? 0)
      (fun '(rows, rdr) =>
         let n := MIN rows NUM_ALPHA_ROWS in
         rdr ← rect_band j l n 0x10000 rdr;
         Some (rows - n, next_rows surface_width x_from n rdr))
      (rows, rdr);
  Some rdr.

(** The three groups of rows: fractional top, full rows in chunks, fractional
    bottom. *)
Definition rect_rows (j : jni) (surface_width x_from l rows tfrac bfrac : Z) (rdr : Renderer) : option Renderer :=
  let rows := if ctrue bfrac then rows - 1 else rows in
  '(rows, rdr) ←
    (if ctrue tfrac then
       rdr ← rect_band j l 1 tfrac rdr;
       Some (rows - 1, next_rows surface_width x_from 1 rdr)
     else Some (rows, rdr));
  rdr ← full_rows j surface_width x_from l rows rdr;
  if ctrue bfrac then rect_band j l 1 bfrac rdr else Some rdr.

Definition fillRect (j : jni) (x y w h lEdge rEdge tEdge bEdge : Z) (wd : world) : option world :=
  let rdr := w_rdr wd in
  let '(x_from, x_to, lfrac, rfrac) := rect_axis x w lEdge rEdge (_clip_bbMinX rdr) (_clip_bbMaxX rdr) in
  let '(y_from, y_to, tfrac, bfrac) := rect_axis y h tEdge bEdge (_clip_bbMinY rdr) (_clip_bbMaxY rdr) in
  let wd := with_rdr wd (rdr <| set_rectX := x >> 16 |> <| set_rectY := y >> 16 |>) in
  if (x_from <=? x_to) && (y_from <=? y_to) then
    let rows := i32 (y_to - y_from + 1) in
    wd ← ACQUIRE_SURFACE j
      (fun wd =>
         let surface := w_surface wd in
         draw (fun rdr =>
           rdr ← VALIDATE_BLITTING surface (INVALIDATE_RENDERER_SURFACE rdr);
           let l := i32 (x_to - x_from + 1) in
           let '(tfrac, bfrac) := single_frac y_from y_to tfrac bfrac in
           let '(lfrac, rfrac) := single_frac x_from x_to lfrac rfrac in
           rect_rows j (width surface) x_from l rows tfrac bfrac
             (rdr <| set_minTouched := x_from |> <| set_maxTouched := x_to |>
                  <| set_currX := x_from |> <| set_currY := y_from |> <| set_alphaWidth := l |>
                  <| set_currImageOffset := i32 (y_from * width surface) |>
                  <| set_imageScanlineStride := width surface |> <| set_imagePixelStride := 1 |>
                  <| set_rowNum := 0 |> <| set_el_lfrac := lfrac |> <| set_el_rfrac := rfrac |>)) wd) wd;
    Some (throw_mem_error wd)
  else Some wd.

Definition fillRectImpl (j : jni) (x y w h : Z) : world -> option world :=
  fillRect j x y w h IMAGE_FRAC_EDGE_KEEP IMAGE_FRAC_EDGE_KEEP IMAGE_FRAC_EDGE_KEEP IMAGE_FRAC_EDGE_KEEP.

(** ** Rows under a coverage row *)

(** Returns the world and the Java array of the deltas. *)
Definition emitAndClearAlphaRowImpl (j : jni) (jAlphaMap jAlphaDeltas : list Z) (y x_from x_to x_off rowNum : Z)
    (wd : world) : option (world * list Z) :=
  '(s, memError, exn) ← surface_acquire (pin_surface j) (w_pixels wd) (w_surface wd);
  let wd := with_acquired wd s memError exn in
  '(wd, deltas) ←
    (if w_memError wd then Some (wd, jAlphaDeltas)
     else
       rdr ← VALIDATE_BLITTING s (INVALIDATE_RENDERER_SURFACE (w_rdr wd));
       if negb (pin_first j) || negb (pin_second j) then Some (setMemErrorFlag (with_rdr wd rdr), jAlphaDeltas)
       else
         let x_from := MAX x_from (_clip_bbMinX rdr) in
         let x_to := MIN x_to (_clip_bbMaxX rdr) in
         if (x_to >=? x_from) && (y >=? _clip_bbMinY rdr) && (y <=? _clip_bbMaxY rdr) then
           if x_off <? 0 then None
           else
             let l := i32 (x_to - x_from + 1) in
             let rdr :=
               rdr <| set_minTouched := x_from |> <| set_maxTouched := x_to |>
                   <| set_currX := x_from |> <| set_currY := y |> <| set_rowNum := rowNum |>
                   <| set_alphaMap := jAlphaMap |>
                   <| set_rowAAInt := drop (Z.to_nat x_off) jAlphaDeltas |>
                   <| set_alphaWidth := l |>
                   <| set_currImageOffset := i32 (y * width s) |>
                   <| set_imageScanlineStride := width s |> <| set_imagePixelStride := 1 |> in
             rdr ← gen_paint j l 1 rdr;
             rdr ← emit_blit (w_gamma wd) (w_invGamma wd) 1 rdr;
             let deltas := take (Z.to_nat x_off) jAlphaDeltas ++ _rowAAInt rdr in
             Some (with_pixels (with_rdr wd (rdr <| set_rowAAInt := [] |>)) (default (w_pixels wd) (_data rdr)),
                   deltas)
         else Some (with_rdr wd rdr, jAlphaDeltas));
  Some (throw_mem_error wd, deltas).

(** ** Masks *)

(** The steps to the next row of the mask. *)
Definition next_mask_row (x maskWidth : Z) (rdr : Renderer) : Renderer :=
  rdr <| set_maskOffset := i32 (_maskOffset rdr + maskWidth) |>
      <| set_rowNum := i32 (_rowNum rdr + 1) |>
      <| set_currX := x |> <| set_currY := i32 (_currY rdr + 1) |>.

Definition mask_row (j : jni) (gammaArray invGammaArray : list Z) (surface_width x width maskWidth : Z)
    (rdr : Renderer) : option Renderer :=
  let rdr := rdr <| set_currImageOffset := i32 (_currY rdr * surface_width) |> in
  rdr ← gen_paint j (i32 (width * 1)) 1 rdr;
  rdr ← emit_blit gammaArray invGammaArray 1 rdr;
  Some (next_mask_row x maskWidth rdr).

Definition fillAlphaMask (j : jni) (minX minY maxX maxY maskType : Z) (mask : list Z)
    (x y maskWidth maskHeight offset stride : Z) (wd : world) : option world :=
  if (maxX >=? minX) && (maxY >=? minY) then
    wd ← ACQUIRE_SURFACE j
      (fun wd =>
         if pin_first j then
           let surface := w_surface wd in
           let wide := i32 (maxX - minX + 1) in
           let high := i32 (maxY - minY + 1) in
           let wd := with_rdr_freed wd
                       (renderer_setMask maskType mask maskWidth maskHeight false (w_rdr wd) (w_freed wd)) in
           wd ← draw (fun rdr =>
             rdr ← VALIDATE_BLITTING surface (INVALIDATE_RENDERER_SURFACE rdr);
             let rdr :=
               rdr <| set_minTouched := minX |> <| set_maxTouched := maxX |>
                   <| set_currX := minX |> <| set_currY := minY |> <| set_alphaWidth := wide |>
                   <| set_imageScanlineStride := width surface |> <| set_imagePixelStride := 1 |>
                   <| set_rowNum := 0 |> <| set_maskOffset := offset |> in
             for_lt high (fun _ => mask_row j (w_gamma wd) (w_invGamma wd) (width surface) x wide maskWidth) rdr) wd;
           Some (with_rdr_freed wd (renderer_removeMask (w_rdr wd) (w_freed wd)))
         else Some (setMemErrorFlag wd)) wd;
    Some (throw_mem_error wd)
  else Some wd.

Definition fillAlphaMaskImpl (j : jni) (jmask : list Z) (x y maskWidth maskHeight offset stride : Z)
    (wd : world) : option world :=
  let rdr := w_rdr wd in
  let minX := MAX x (_clip_bbMinX rdr) in
  let minY := MAX y (_clip_bbMinY rdr) in
  let maxX := MIN (i32 (x + maskWidth - 1)) (_clip_bbMaxX rdr) in
  let maxY := MIN (i32 (y + maskHeight - 1)) (_clip_bbMaxY rdr) in
  let maskOffset := i32 (offset + (minY - y) * maskWidth + minX - x) in
  fillAlphaMask j minX minY maxX maxY ALPHA_MASK jmask x y maskWidth maskHeight maskOffset stride wd.

Definition fillLCDAlphaMaskImpl (j : jni) (jmask : list Z) (x y maskWidth maskHeight offset stride : Z)
    (wd : world) : option world :=
  let rdr := w_rdr wd in
  let minX := MAX x (_clip_bbMinX rdr) in
  let minY := MAX y (_clip_bbMinY rdr) in
  let maxX := MIN (i32 (x + Z.quot maskWidth 3 - 1)) (_clip_bbMaxX rdr) in
  let maxY := MIN (i32 (y + maskHeight - 1)) (_clip_bbMaxY rdr) in
  let maskOffset := i32 (offset + (minY - y) * maskWidth + (minX - x) * 3) in
  fillAlphaMask j minX minY maxX maxY LCD_ALPHA_MASK jmask x y maskWidth maskHeight maskOffset stride wd.

(** ** Images *)

Definition drawImageImpl (j : jni) (imageMode : Z) (dataArray : list Z) (width height offset stride : Z)
    (textureTransform : Transform6) (repeat : bool) (bboxX bboxY bboxW bboxH lEdge rEdge tEdge bEdge : Z)
    (txMin tyMin txMax tyMax : Z) (hasAlpha : bool) (wd : world) : option world :=
  wd ←
    (if pin_first j then
       let wd := with_rdr_freed wd
         (renderer_setTexture imageMode (TexturePtr 0 offset dataArray) width height stride repeat true
            textureTransform false hasAlpha txMin tyMin txMax tyMax (w_rdr wd) (w_freed wd)) in
       wd ← fillRect j bboxX bboxY bboxW bboxH lEdge rEdge tEdge bEdge wd;
       Some (with_rdr wd ((w_rdr wd) <| set_texture_intData := None |>))
     else Some (setMemErrorFlag wd));
  Some (throw_mem_error wd).

(** The private copy of the image: [height] rows of [width] pixels. *)
Definition copy_image (dataArray : list Z) (width height stride : Z) : option (list Z) :=
  let alloc_data := replicate (Z.to_nat (width * height)) 0 in
  let copy m dst src n := for_lt n (fun k m => v ← aget dataArray (src + k); aset m (dst + k) v) m in
  if stride =? width then copy alloc_data 0 0 (width * height)
  else for_lt height (fun i m => copy m (i * width) (i * stride) width) alloc_data.

(** [block] is the address of the new block. *)
Definition setTextureImpl (j : jni) (block : Z) (dataArray : list Z) (width height stride : Z)
    (textureTransform : Transform6) (repeat hasAlpha : bool) (wd : world) : option world :=
  wd ←
    (if pin_first j then
       if alloc_image j && (0 <=? i32 (width * height)) then
         alloc_data ← copy_image dataArray width height stride;
         Some (with_rdr_freed wd
           (renderer_setTexture IMAGE_MODE_NORMAL (TexturePtr block 0 alloc_data) width height width repeat true
              textureTransform true hasAlpha 0 0 (i32 (width - 1)) (i32 (height - 1)) (w_rdr wd) (w_freed wd)))
       else Some (setMemErrorFlag wd)
     else Some (setMemErrorFlag wd));
  Some (throw_mem_error wd).

(** ** Clearing and the paint setters *)

Definition clearRectImpl (j : jni) (x y w h : Z) (wd : world) : option world :=
  wd ← ACQUIRE_SURFACE j
    (fun wd =>
       let surface := w_surface wd in
       draw (fun rdr =>
         renderer_clearRect surface x y w h
           ((INVALIDATE_RENDERER_SURFACE rdr) <| set_imagePixelStride := 1 |>
              <| set_imageScanlineStride := width surface |>)) wd) wd;
  Some (throw_mem_error wd).

Definition setClipImpl (minX minY width height : Z) (wd : world) : world :=
  throw_mem_error (with_rdr wd (renderer_setClip minX minY width height (w_rdr wd))).

Definition setColorImpl (red green blue alpha : Z) (wd : world) : world :=
  throw_mem_error (with_rdr_freed wd (renderer_setColor red green blue alpha (w_rdr wd) (w_freed wd))).

Definition setCompositeRuleImpl (compositeRule : Z) (wd : world) : world :=
  throw_mem_error (with_rdr wd (renderer_setCompositeRule compositeRule (w_rdr wd))).

Definition setLinearGradientImpl (j : jni) (x0 y0 x1 y1 : Z) (ramp : list Z) (cycleMethod : Z)
    (gradientTransform : Transform6) (wd : world) : option world :=
  wd ←
    (if pin_first j then
       rf ← renderer_setLinearGradient x0 y0 x1 y1 ramp gradientTransform
              ((w_rdr wd) <| set_gradient_cycleMethod := cycleMethod |>) (w_freed wd);
       Some (with_rdr_freed wd rf)
     else Some (setMemErrorFlag wd));
  Some (throw_mem_error wd).

Definition setRadialGradientImpl (j : jni) (cx cy fx fy radius : Z) (ramp : list Z) (cycleMethod : Z)
    (gradientTransform : Transform6) (wd : world) : option world :=
  wd ←
    (if pin_first j then
       rf ← renderer_setRadialGradient cx cy fx fy radius ramp gradientTransform
              ((w_rdr wd) <| set_gradient_cycleMethod := cycleMethod |>) (w_freed wd);
       Some (with_rdr_freed wd rf)
     else Some (setMemErrorFlag wd));
  Some (throw_mem_error wd).
