(* ===== verification/PiscesAreaSpec.v ===== *)
(** * Geometry of fillRect

    The fixed-point arithmetic of native-prism-sw/JPiscesRenderer.c: conversion
    of coordinates to 16.16 and the exact pixel coverage that [fillRect]
    computes from a 16.16 rectangle, its edge modes and the clip. *)

From S2P Require Import Prelude PiscesState PiscesRenderer PiscesDraw.

(** ** Coverage of the pixels of one axis *)

(** The interval that the edge modes leave: kept as it is, padded outwards to
    the pixel grid or trimmed inwards. *)
Definition edge_start (mode x : Z) : Z :=
  if mode =? IMAGE_FRAC_EDGE_PAD then x / 65536 * 65536
  else if mode =? IMAGE_FRAC_EDGE_TRIM then (x + 65535) / 65536 * 65536
  else x.

Definition edge_end (mode e : Z) : Z :=
  if mode =? IMAGE_FRAC_EDGE_PAD then (e + 65535) / 65536 * 65536
  else if mode =? IMAGE_FRAC_EDGE_TRIM then e / 65536 * 65536
  else e.

(** Length of the part of pixel [c] inside the interval, in 1/65536. *)
Definition overlap (s e c : Z) : Z := Z.max 0 (Z.min e ((c + 1) * 65536) - Z.max s (c * 65536)).

(** What the drawing code takes as the coverage of pixel [c] when it is given
    first and last pixel and the two fractions. *)
Definition drawn_coverage (from to lfrac rfrac c : Z) : Z :=
  if (from <=? c) && (c <=? to) then
    if ctrue lfrac && (c =? from) then lfrac
    else if ctrue rfrac && (c =? to) then rfrac
    else 65536
  else 0.

Definition axis_coverage (x w lEdge rEdge clip_min clip_max c : Z) : Z :=
  let '(from, to, lfrac, rfrac) := rect_axis x w lEdge rEdge clip_min clip_max in
  let '(lfrac, rfrac) := single_frac from to lfrac rfrac in
  drawn_coverage from to lfrac rfrac c.

(** The first fraction: what is missing to the next pixel boundary. *)
Lemma lfrac_mod x : (0x10000 - (x & 0xFFFF)) & 0xFFFF = (- x) mod 65536.
Proof. rewrite !land_0xffff. dlia. Qed.

Lemma first_pixel x : exists q, x >> 16 = q /\ x = 65536 * q + 65536 - (- x) mod 65536 - (if ctrue ((-x) mod 65536) then 0 else 65536) /\
  0 <= (-x) mod 65536 < 65536.
Proof.
  exists (x >> 16). rewrite shiftr_div by lia. change (2 ^ 16) with 65536. rewrite ctrue_eqb.
  split; [done|]. split; [|apply Z.mod_pos_bound; lia].
  destruct (Z.eqb_spec ((- x) mod 65536) 0); simpl; dlia.
Qed.

Lemma last_pixel e :
  let r := e mod 65536 in
  exists q, (if ctrue r then e >> 16 else (e >> 16) - 1) = q /\
    e = 65536 * q + (if ctrue r then r else 65536) /\ 0 <= r < 65536.
Proof.
  intros r. eexists. split; [done|]. subst r. rewrite shiftr_div by lia. change (2 ^ 16) with 65536. rewrite ctrue_eqb.
  split; [|apply Z.mod_pos_bound; lia].
  destruct (Z.eqb_spec (e mod 65536) 0); simpl; dlia.
Qed.

(** The three parts of [rect_axis], against the real interval [[s, e)]. *)
Definition is_first (s from lfrac : Z) : Prop :=
  0 <= lfrac < 65536 /\ s = 65536 * (from + 1) - (if ctrue lfrac then lfrac else 65536).

Definition is_last (e to rfrac : Z) : Prop :=
  0 <= rfrac < 65536 /\ e = 65536 * to + (if ctrue rfrac then rfrac else 65536).

Lemma edge_first lEdge x from lfrac : is_first x from lfrac ->
  let '(from', lfrac') :=
    if lEdge =? IMAGE_FRAC_EDGE_PAD then (from, 0)
    else if lEdge =? IMAGE_FRAC_EDGE_TRIM then (if ctrue lfrac then from + 1 else from, 0)
    else (from, lfrac) in
  is_first (edge_start lEdge x) from' lfrac' /\ (ctrue lfrac' = true -> edge_start lEdge x = x).
Proof.
  unfold is_first, edge_start. rewrite !ctrue_eqb. intros [Hl ->].
  destruct (lEdge =? IMAGE_FRAC_EDGE_PAD); [|destruct (lEdge =? IMAGE_FRAC_EDGE_TRIM)];
    rewrite ?ctrue_eqb; destruct (Z.eqb_spec lfrac 0); cbn [negb]; try change (0 =? 0) with true; cbn [negb];
    split_and!; try done; try lia; dlia.
Qed.

Lemma edge_last rEdge e to rfrac : is_last e to rfrac ->
  let '(to', rfrac') :=
    if rEdge =? IMAGE_FRAC_EDGE_PAD then (to, 0)
    else if rEdge =? IMAGE_FRAC_EDGE_TRIM then (if ctrue rfrac then to - 1 else to, 0)
    else (to, rfrac) in
  is_last (edge_end rEdge e) to' rfrac' /\ (ctrue rfrac' = true -> edge_end rEdge e = e).
Proof.
  unfold is_last, edge_end. rewrite !ctrue_eqb. intros [Hl ->].
  destruct (rEdge =? IMAGE_FRAC_EDGE_PAD); [|destruct (rEdge =? IMAGE_FRAC_EDGE_TRIM)];
    rewrite ?ctrue_eqb; destruct (Z.eqb_spec rfrac 0); cbn [negb]; try change (0 =? 0) with true; cbn [negb];
    split_and!; try done; try lia; dlia.
Qed.

Lemma clip_first cmin s from lfrac : is_first s from lfrac ->
  let '(from', lfrac') := if from <? cmin then (cmin, 0) else (from, lfrac) in
  is_first (Z.max s (cmin * 65536)) from' lfrac' /\
  (ctrue lfrac' = true -> ctrue lfrac = true /\ Z.max s (cmin * 65536) = s).
Proof.
  unfold is_first. intros [Hl ->]. destruct (Z.ltb_spec from cmin); split_and!; try done; try lia;
    rewrite ?ctrue_eqb; try change (0 =? 0) with true; destruct (Z.eqb_spec lfrac 0); simpl; lia.
Qed.

Lemma clip_last cmax e to rfrac : is_last e to rfrac ->
  let '(to', rfrac') := if to >? cmax then (cmax, 0) else (to, rfrac) in
  is_last (Z.min e ((cmax + 1) * 65536)) to' rfrac' /\
  (ctrue rfrac' = true -> ctrue rfrac = true /\ Z.min e ((cmax + 1) * 65536) = e).
Proof.
  unfold is_last. intros [Hl ->]. rewrite Z.gtb_ltb. destruct (Z.ltb_spec cmax to); split_and!; try done; try lia;
    rewrite ?ctrue_eqb; try change (0 =? 0) with true; destruct (Z.eqb_spec rfrac 0); simpl; lia.
Qed.

(** The single-pixel correction keeps the coverage exact. *)
Lemma coverage_exact s e from to lfrac rfrac c :
  is_first s from lfrac -> is_last e to rfrac ->
  (ctrue lfrac = true -> ctrue rfrac = true -> s < e) ->
  (let '(lfrac, rfrac) := single_frac from to lfrac rfrac in drawn_coverage from to lfrac rfrac c) =
  overlap s e c.
Proof.
  unfold is_first, is_last, single_frac, overlap. intros [Hl Es] [Hr Ee] Hlt.
  rewrite ctrue_lor, land_0xffff. rewrite !ctrue_eqb in *. unfold drawn_coverage.
  set (v := (rfrac - 0x10000 + lfrac) mod 65536).
  destruct (Z.eqb_spec lfrac 0) as [El|El], (Z.eqb_spec rfrac 0) as [Er|Er];
    cbn [negb orb] in *; [rewrite andb_false_r|rewrite andb_true_r..].
  - rewrite El, Er. change (ctrue 0) with false. case_bools.
  - assert (Hv : v = rfrac) by (subst v; rewrite El; dlia). clearbody v. subst v.
    destruct (Z.eqb_spec from to) as [E|E]; rewrite !ctrue_eqb; case_bools.
  - assert (Hv : v = lfrac) by (subst v; rewrite Er; dlia). clearbody v. subst v.
    destruct (Z.eqb_spec from to) as [E|E]; rewrite !ctrue_eqb; case_bools.
  - specialize (Hlt eq_refl eq_refl). destruct (Z.eqb_spec from to) as [E|E].
    + assert (Hv : v = rfrac - 65536 + lfrac) by (subst v; apply Z.mod_small; lia). clearbody v. subst v.
      rewrite !ctrue_eqb. case_bools.
    + rewrite !ctrue_eqb. case_bools.
Qed.

Definition axis_bounds (x w lEdge rEdge cmin cmax : Z) : Z * Z :=
  (Z.max (edge_start lEdge x) (cmin * 65536), Z.min (edge_end rEdge (x + w)) ((cmax + 1) * 65536)).

(** First and last pixel and fractions of an axis, and what they stand for. *)
Lemma rect_axis_ok x w lEdge rEdge cmin cmax : in_i32 (x + w) -> 0 < w ->
  let '(from, to, lfrac, rfrac) := rect_axis x w lEdge rEdge cmin cmax in
  let '(s, e) := axis_bounds x w lEdge rEdge cmin cmax in
  is_first s from lfrac /\ is_last e to rfrac /\
  (ctrue lfrac = true -> ctrue rfrac = true -> s < e) /\ cmin <= from /\ to <= cmax.
Proof.
  intros Hi Hw. unfold rect_axis, axis_bounds. rewrite (i32_id (x + w)) by done.
  rewrite lfrac_mod, (land_0xffff (x + w)).
  assert (F : is_first x (x >> 16) ((- x) mod 65536)).
  { destruct (first_pixel x) as (q & -> & E & Hr). split; [done|].
    rewrite ctrue_eqb in *. destruct (Z.eqb_spec ((- x) mod 65536) 0); simpl in *; lia. }
  destruct (last_pixel (x + w)) as (q & -> & E & Hr).
  assert (L : is_last (x + w) q ((x + w) mod 65536)) by (split; done). clear E Hr.
  generalize dependent (x >> 16). generalize dependent ((- x) mod 65536).
  generalize dependent ((x + w) mod 65536). intros rfrac L lfrac from F.
  pose proof (edge_first lEdge _ _ _ F) as F1. pose proof (edge_last rEdge _ _ _ L) as L1.
  destruct (if lEdge =? _ then _ else _) as [from1 lfrac1]. destruct (if rEdge =? _ then _ else _) as [to1 rfrac1].
  destruct F1 as [F1 K1], L1 as [L1 M1].
  pose proof (clip_first cmin _ _ _ F1) as F2. pose proof (clip_last cmax _ _ _ L1) as L2.
  assert (Hc1 : forall p, p = (if from1 <? cmin then (cmin, 0) else (from1, lfrac1)) -> cmin <= p.1).
  { intros p ->. destruct (Z.ltb_spec from1 cmin); simpl; lia. }
  assert (Hc2 : forall p, p = (if to1 >? cmax then (cmax, 0) else (to1, rfrac1)) -> p.1 <= cmax).
  { intros p ->. rewrite Z.gtb_ltb. destruct (Z.ltb_spec cmax to1); simpl; lia. }
  specialize (Hc1 _ eq_refl). specialize (Hc2 _ eq_refl).
  destruct (if from1 <? cmin then _ else _) as [from2 lfrac2]. destruct (if to1 >? cmax then _ else _) as [to2 rfrac2].
  destruct F2 as [F2 K2], L2 as [L2 M2]. simpl in Hc1, Hc2. split_and!; try done.
  intros H1 H2. destruct (K2 H1) as [K3 ->], (M2 H2) as [M3 ->]. rewrite (K1 K3), (M1 M3). lia.
Qed.

(** C2: pixel coverage of [fillRect] is exact: for a rectangle of positive
    size, every combination of edge modes and any clip, the coverage with which
    each pixel of an axis is drawn is the length of the pixel's intersection
    with the interval (kept, padded or trimmed to the pixel grid at each end)
    cut to the clip; in particular every pixel outside gets coverage zero and a
    rectangle inside one pixel gets its own width. *)
Theorem rect_coverage_exact x w lEdge rEdge cmin cmax c : in_i32 (x + w) -> 0 < w ->
  axis_coverage x w lEdge rEdge cmin cmax c =
  overlap (Z.max (edge_start lEdge x) (cmin * 65536))
          (Z.min (edge_end rEdge (x + w)) ((cmax + 1) * 65536)) c.
Proof.
  intros Hi Hw. unfold axis_coverage. pose proof (rect_axis_ok x w lEdge rEdge cmin cmax Hi Hw) as H.
  destruct (rect_axis x w lEdge rEdge cmin cmax) as [[[from to] lfrac] rfrac].
  destruct H as (F & L & Hlt & _). exact (coverage_exact _ _ _ _ _ _ c F L Hlt).
Qed.

Lemma rect_coverage_exact_witness :
  axis_coverage 0x18000 0x24000 IMAGE_FRAC_EDGE_KEEP IMAGE_FRAC_EDGE_KEEP 0 9 3 = 0xC000 /\
  axis_coverage 0x18000 0x24000 IMAGE_FRAC_EDGE_KEEP IMAGE_FRAC_EDGE_KEEP 0 9 1 =
  overlap 0x18000 0x3C000 1.
Proof.
  split; [vm_compute; reflexivity|].
  refine (rect_coverage_exact 0x18000 0x24000 IMAGE_FRAC_EDGE_KEEP IMAGE_FRAC_EDGE_KEEP 0 9 1 _ _).
  - split; vm_compute; (discriminate || reflexivity).
  - reflexivity.
Defined.

(** The Java caller of [fillRect] rejects empty rectangles, that of
    [drawImage] does not: an image of width zero at a fractional position is
    drawn as a whole column, because the two fractions cancel. *)
Example empty_rect_drawn :
  axis_coverage 0x18000 0 IMAGE_FRAC_EDGE_KEEP IMAGE_FRAC_EDGE_KEEP 0 9 1 = 65536.
Proof. vm_compute. reflexivity. Qed.

(** ** toPiscesCoords *)

(** The fields of a normal single-precision number: its value is
    [(-1)^sign * mantissa * 2^(exponent - 150)]. *)
Definition float_sign (ff : Z) : Z := ff / 2 ^ 31.
Definition float_exponent (ff : Z) : Z := (ff / 2 ^ 23) mod 2 ^ 8.
Definition float_mantissa (ff : Z) : Z := 2 ^ 23 + ff mod 2 ^ 23.

Lemma mantissa_bits ff : (ff & 0xffffff) .| 0x800000 = float_mantissa ff.
Proof.
  unfold float_mantissa. rewrite (land_mask ff 24) by (done || lia).
  pose proof (Z.mod_pos_bound ff (2 ^ 23)).
  assert (E : ff mod 2 ^ 24 = (ff / 2 ^ 23) mod 2 * 2 ^ 23 + ff mod 2 ^ 23).
  { change (2 ^ 24) with (2 ^ 23 * 2). rewrite Z.rem_mul_r by lia. lia. }
  rewrite E, <- lor_shiftl_add by lia.
  transitivity (((1 << 23) .| (ff mod 2 ^ 23))); [|rewrite lor_shiftl_add by lia; lia].
  rewrite <- Z.lor_assoc, (Z.lor_comm (ff mod _)), Z.lor_assoc. f_equal.
  pose proof (Z.mod_pos_bound (ff / 2 ^ 23) 2). assert ((ff / 2 ^ 23) mod 2 = 0 \/ (ff / 2 ^ 23) mod 2 = 1) as [->| ->] by lia;
    reflexivity.
Qed.

Lemma lxor_all_ones g : 0 <= g < 2 ^ 32 -> Z.lxor g (2 ^ 32 - 1) = 2 ^ 32 - 1 - g.
Proof.
  intros Hg. change (2 ^ 32 - 1) with (Z.ones 32).
  assert (H : g & Z.lxor g (Z.ones 32) = 0).
  { apply Z.bits_inj'. intros i Hi. rewrite Z.land_spec, Z.lxor_spec, Z.bits_0.
    destruct (Z.lt_ge_cases i 32).
    - rewrite Z.ones_spec_low by lia. by destruct (Z.testbit g i).
    - rewrite <- (Z.mod_small g (2 ^ 32)), Z.mod_pow2_bits_high by lia. done. }
  apply Z.add_nocarry_lxor in H. rewrite <- Z.lxor_assoc, Z.lxor_nilpotent, Z.lxor_0_l in H. lia.
Qed.

(** Fixing the sign in two's complement. *)
Lemma sign_fixup sign g : sign = 0 \/ sign = 1 -> 0 <= g < 2 ^ 31 ->
  i32 (u32 (Z.lxor g (u32 (- sign)) + sign) & 0xffffffff) = (1 - 2 * sign) * g.
Proof.
  intros Hs Hg. rewrite (land_mask _ 32) by (done || lia). unfold u32. rewrite Z.mod_mod by lia.
  destruct Hs as [->| ->].
  - change ((- 0) mod 2 ^ 32) with 0. rewrite Z.lxor_0_r, Z.mod_small by lia. rewrite i32_id; unfold in_i32; lia.
  - change ((- 1) mod 2 ^ 32) with (2 ^ 32 - 1). rewrite lxor_all_ones by lia. unfold i32.
    replace (2 ^ 32 - 1 - g + 1) with (- g + 1 * 2 ^ 32) by lia. rewrite Z.mod_add by lia.
    rewrite Z.add_mod_idemp_l by lia. rewrite Z.mod_small; lia.
Qed.

(** The shifted mantissa is the integer part of the scaled magnitude. *)
Lemma shifted_mantissa m e : 2 ^ 23 <= m < 2 ^ 24 -> 103 <= e <= 141 ->
  (if 134 - e <? 0 then if - (134 - e) <? 32 then Some (u32 (m << - (134 - e))) else None
   else if 134 - e <? 32 then Some (m >> (134 - e)) else None) = Some (m * 2 ^ e / 2 ^ 134) /\
  0 <= m * 2 ^ e / 2 ^ 134 < 2 ^ 31.
Proof.
  intros Hm He. assert (H : m * 2 ^ e / 2 ^ 134 = if 134 <=? e then m * 2 ^ (e - 134) else m / 2 ^ (134 - e)).
  { destruct (Z.leb_spec 134 e).
    - replace e with (e - 134 + 134) at 1 by lia. rewrite Z.pow_add_r by lia.
      rewrite Z.mul_assoc, Z.div_mul; lia.
    - replace 134 with (e + (134 - e)) at 1 by lia.
      rewrite Z.pow_add_r, Z.mul_comm by lia. apply Z.div_mul_cancel_l; lia. }
  rewrite H. destruct (Z.leb_spec 134 e).
  - assert (0 < 2 ^ (e - 134) <= 2 ^ 7) by (split; [apply Z.pow_pos_nonneg|apply Z.pow_le_mono_r]; lia).
    assert (0 <= m * 2 ^ (e - 134) < 2 ^ 31) by nia. split; [|done].
    destruct (Z.ltb_spec (134 - e) 0).
    + destruct (Z.ltb_spec (- (134 - e)) 32); [|lia]. rewrite shiftl_mul by lia. unfold u32.
      replace (- (134 - e)) with (e - 134) by lia. by rewrite Z.mod_small by lia.
    + replace e with 134 by lia. change (134 - 134) with 0. simpl (0 <? 32). cbv iota.
      rewrite Z.shiftr_0_r. f_equal. lia.
  - destruct (Z.ltb_spec (134 - e) 0); [lia|]. destruct (Z.ltb_spec (134 - e) 32); [|lia].
    rewrite shiftr_div by lia. split; [done|].
    assert (0 < 2 ^ (134 - e)) by (apply Z.pow_pos_nonneg; lia).
    split; [apply Z.div_pos; lia|]. apply Z.div_lt_upper_bound; nia.
Qed.

(** [toPiscesCoords] of the bit pattern of a normal number of magnitude
    between 2^-24 and 2^15 is the number times 65536 truncated towards zero,
    as its comment says: [(int)(f * 65536.0f)]. *)
Theorem toPiscesCoords_spec ff : 0 <= ff < 2 ^ 32 -> 103 <= float_exponent ff <= 141 ->
  toPiscesCoords ff =
  Some ((1 - 2 * float_sign ff) * (float_mantissa ff * 2 ^ float_exponent ff / 2 ^ 134)).
Proof.
  intros Hf He. unfold toPiscesCoords. rewrite mantissa_bits.
  rewrite (land_mask (ff >> 23) 8), !shiftr_div by (done || lia). fold (float_exponent ff) (float_sign ff).
  destruct (shifted_mantissa (float_mantissa ff) (float_exponent ff)) as [-> Hr];
    [unfold float_mantissa; pose proof (Z.mod_pos_bound ff (2 ^ 23)); lia|lia|].
  mred. destruct (Z.eqb_spec ff 0) as [->|]; [by destruct He as [He _]; vm_compute in He|].
  f_equal. apply sign_fixup; [|done]. unfold float_sign. dlia.
Qed.

Lemma toPiscesCoords_spec_witness : toPiscesCoords 0xC0200000 = Some (-0x28000).
Proof.
  rewrite (toPiscesCoords_spec 0xC0200000); [vm_compute; reflexivity|split; vm_compute; (discriminate || reflexivity)|].
  split; vm_compute; discriminate.
Defined.

(** Zero has its own line in the code, but after a shift by 134, which C
    leaves undefined; so is the shift for every number below 2^-24. *)
Example toPiscesCoords_zero : toPiscesCoords 0 = None.
Proof. reflexivity. Qed.
