(* ===== verification/PiscesDrawSpec.v ===== *)
(** * Correctness of the drawing entry points

    End-to-end theorems about native-prism-sw/JPiscesRenderer.c: from a renderer
    in any reachable state, what [fillRect], [fillAlphaMask],
    [emitAndClearAlphaRow] and [clearRect] leave in the Java pixel array, pixel
    by pixel, through validation, banding, clipping and the scanline
    routines. *)

From S2P Require Import Prelude Float32 PiscesTransform PiscesPixel PiscesState PiscesBlit PiscesBlitSpec.
From S2P Require Import PiscesPaint PiscesRenderer PiscesRendererSpec PiscesSurface PiscesDraw PiscesAreaSpec.

(** ** The pixel array as a grid *)

(** Rewrite every pixel by its row and column on a surface [w] wide. *)
Definition grid_fn (w : Z) (f : Z -> Z -> Z -> Z) (i v : Z) : Z := f (i / w) (i mod w) v.

Definition inside (a n x : Z) : bool := (a <=? x) && (x <? a + n).

Lemma inside_spec a n x : reflect (a <= x < a + n) (inside a n x).
Proof. unfold inside. apply iff_reflect. rewrite andb_true_iff, Z.leb_le, Z.ltb_lt. lia. Qed.

(** The rectangles of the scanline routines on the grid. *)
Lemma rect_fn_grid w y x l n col i v : 0 <= x -> 0 <= l -> x + l <= w -> 0 < w ->
  rect_fn (y * w + x) w l n col i v =
  grid_fn w (fun r c v => if inside y n r && inside x l c then col (r - y) (c - x) v else v) i v.
Proof.
  intros Hx Hl Hw Hw0. unfold rect_fn, grid_fn.
  pose proof (Z.div_mod i w ltac:(lia)) as E. pose proof (Z.mod_pos_bound i w Hw0).
  set (r := i / w) in *. set (c := i mod w) in *.
  destruct (Z.lt_ge_cases c x).
  - assert (E1 : (i - (y * w + x)) mod w = c - x + w).
    { symmetry. apply (Z.mod_unique_pos _ _ (r - y - 1)); lia. }
    rewrite E1. destruct (inside_spec x l c); [lia|]. rewrite andb_false_r.
    destruct (Z.ltb_spec (c - x + w) l); [lia|]. by rewrite andb_false_r.
  - assert (E1 : (i - (y * w + x)) / w = r - y) by (symmetry; apply (Z.div_unique_pos _ _ _ (c - x)); lia).
    assert (E2 : (i - (y * w + x)) mod w = c - x) by (symmetry; apply (Z.mod_unique_pos _ _ (r - y)); lia).
    rewrite E1, E2. unfold inside. case_bools; done.
Qed.

Lemma pointwise_grid w y x l n col m m' : 0 <= x -> 0 <= l -> x + l <= w -> 0 < w ->
  pointwise m m' (rect_fn (y * w + x) w l n col) ->
  pointwise m m' (grid_fn w (fun r c v => if inside y n r && inside x l c then col (r - y) (c - x) v else v)).
Proof. intros. eapply pointwise_ext; [|done]. intros. by apply rect_fn_grid. Qed.

(** ** Bands of rows with a flat colour *)

(** The fields the bands read and do not change. *)
Definition band_key (r : Renderer) :=
  (_genPaint r, _emitLine r, (_minTouched r, _maxTouched r, _alphaWidth r),
   (_imageScanlineStride r, _imagePixelStride r), (_el_lfrac r, _el_rfrac r),
   (_calpha r, _cred r, _cgreen r, _cblue r)).

Lemma band_key_fields r r0 : band_key r = band_key r0 ->
  _genPaint r = _genPaint r0 /\ _emitLine r = _emitLine r0 /\
  _minTouched r = _minTouched r0 /\ _maxTouched r = _maxTouched r0 /\ _alphaWidth r = _alphaWidth r0 /\
  _imageScanlineStride r = _imageScanlineStride r0 /\ _imagePixelStride r = _imagePixelStride r0 /\
  _el_lfrac r = _el_lfrac r0 /\ _el_rfrac r = _el_rfrac r0 /\
  _calpha r = _calpha r0 /\ _cred r = _cred r0 /\ _cgreen r = _cgreen r0 /\ _cblue r = _cblue r0.
Proof. unfold band_key. rewrite !pair_equal_spec. tauto. Qed.

Lemma band_key_data d r : band_key (set_data d r) = band_key r.
Proof. reflexivity. Qed.

Lemma next_rows_key w x n r : band_key (next_rows w x n r) = band_key r /\
  _data (next_rows w x n r) = _data r /\ _currY (next_rows w x n r) = i32 (_currY r + n) /\
  _currImageOffset (next_rows w x n r) = i32 (i32 (_currY r + n) * w).
Proof. split_and!; reflexivity. Qed.

(** With a flat colour a pixel depends on its column only. *)
Lemma emit_pixel_flat e r r0 frac j c v : uses_paint e = false -> band_key r = band_key r0 ->
  emit_pixel e r frac j c v = emit_pixel e r0 frac 0 c v.
Proof.
  intros Hp Hk. destruct (band_key_fields _ _ Hk) as (_ & _ & _ & _ & Ew & _ & _ & El & Er & Ea & Er' & Eg & Eb).
  destruct e; try discriminate; unfold emit_pixel, by_column; by rewrite Ew, El, Er, Ea, Er', Eg, Eb.
Qed.

(** What the caller of the bands has set up. *)
Record band_setup (e : emit_routine) (r0 : Renderer) (W H x l : Z) : Prop := {
  bs_flat : uses_paint e = false;
  bs_gen : _genPaint r0 = None;
  bs_emit : _emitLine r0 = Some e;
  bs_min : _minTouched r0 = x;
  bs_max : _maxTouched r0 = x + l - 1;
  bs_width : _alphaWidth r0 = l;
  bs_stride : _imageScanlineStride r0 = W;
  bs_pixel : _imagePixelStride r0 = 1;
  bs_x : 0 <= x;
  bs_l : 1 <= l;
  bs_xl : x + l <= W;
  bs_W : W < 2 ^ 31;
  bs_H : 0 <= H;
  bs_WH : W * H < 2 ^ 31;
  bs_lfrac : 0 <= _el_lfrac r0 < 65536;
  bs_rfrac : 0 <= _el_rfrac r0 < 65536;
  bs_edges : edges (_el_lfrac r0) + edges (_el_rfrac r0) <= l;
  bs_alpha : is_byte (_calpha r0);
  bs_red : is_byte (_cred r0);
  bs_green : is_byte (_cgreen r0);
  bs_blue : is_byte (_cblue r0)
}.

(** A renderer between two bands: [m] is the pixel array, [y] the next row. *)
Record band_state (r0 : Renderer) (W H : Z) (m : list Z) (y : Z) (r : Renderer) : Prop := {
  st_key : band_key r = band_key r0;
  st_data : _data r = Some m;
  st_currY : _currY r = y;
  st_off : _currImageOffset r = y * W;
  st_room : W * H <= alen m;
  st_small : alen m < 2 ^ 31
}.

Section bands.
Context (e : emit_routine) (r0 : Renderer) (W H x l : Z) (j : jni).
Context (Hs : band_setup e r0 W H x l).

(** The columns of a row at vertical coverage [frac]. *)
Definition row_fn (frac c v : Z) : Z :=
  if inside x l c then emit_pixel e r0 frac 0 (c - x) v else v.

Lemma band_emit_ready m y r n frac : band_state r0 W H m y r -> 0 <= y -> 0 <= n -> y + n <= H ->
  0 <= frac <= 65536 -> emit_ready (uses_paint e) r n frac m.
Proof using Hs.
  intros [Hk Hd _ Ho Hl Hlt] Hy Hn Hyn Hf. destruct Hs.
  destruct (band_key_fields _ _ Hk) as (_ & _ & K1 & K2 & K3 & K4 & K5 & K6 & K7 & K8 & K9 & K10 & K11).
  split; rewrite ?K6, ?K7, ?K8, ?K9, ?K10, ?K11, ?bs_flat0; try done.
  - split; rewrite ?K1, ?K2, ?K3, ?K4, ?K5; try done; try lia; nia.
  - rewrite K3. lia.
Qed.

(** One band. *)
Lemma rect_band_ok m y r n frac : band_state r0 W H m y r -> 0 <= y -> 0 <= n -> y + n <= H ->
  0 <= frac <= 65536 ->
  exists m', rect_band j l n frac r = Some (set_data (Some m') r) /\
    pointwise m m' (grid_fn W (fun row c v => if inside y n row then row_fn frac c v else v)).
Proof using Hs.
  intros Hst Hy Hn Hyn Hf. pose proof (band_emit_ready _ _ _ _ _ Hst Hy Hn Hyn Hf) as Hr.
  destruct Hst as [Hk Hd _ Ho _ _]. pose proof Hs as [Hp Hg He Hx _ Hl Hw _ ? ? ? _ _ _ _ _ _ _ _ _ _].
  destruct (band_key_fields _ _ Hk) as (K0 & K1 & K2 & _ & K3 & K4 & _).
  destruct (emit_ok e r n frac m Hr) as (m' & E & Hm).
  exists m'. split.
  - unfold rect_band, gen_paint. rewrite K0, Hg. mred. unfold emit_line. by rewrite K1, He.
  - unfold rect_update, rect_origin in Hm. rewrite Ho, K2, K3, K4, Hx, Hl, Hw in Hm.
    apply pointwise_grid in Hm; [|lia..]. eapply pointwise_ext; [|exact Hm].
    intros i v _. unfold grid_fn, row_fn. destruct (inside y n (i / W)); [|done]. cbn [andb].
    destruct (inside x l (i mod W)); [|done]. by apply emit_pixel_flat.
Qed.

(** The rows drawn so far, [ya] to [y - 1], each at its coverage. *)
Context (m0 : list Z) (ya yb t b : Z).

Definition drawn_rows (n : Z) (row c v : Z) : Z :=
  if inside ya n row then row_fn (drawn_coverage ya yb t b row) c v else v.

Definition progress (y : Z) (r : Renderer) : Prop :=
  exists m, band_state r0 W H m y r /\ pointwise m0 m (grid_fn W (drawn_rows (y - ya))).

Context (Hya : 0 <= ya) (Hyb : ya <= yb < H) (Ht : 0 <= t < 65536) (Hb : 0 <= b < 65536).

(** Drawing the next [n] rows. *)
Lemma progress_band y r n frac : progress y r -> ya <= y -> 0 <= n -> y + n <= yb + 1 ->
  (forall row, y <= row < y + n -> drawn_coverage ya yb t b row = frac) -> 0 <= frac <= 65536 ->
  exists r', rect_band j l n frac r = Some r' /\ progress (y + n) (next_rows W x n r') /\
    exists m', _data r' = Some m' /\ pointwise m0 m' (grid_fn W (drawn_rows (y + n - ya))).
Proof using Hs Hya Hyb.
  intros (m & Hst & Hm) Hy Hn Hyn Hcov Hf.
  destruct (rect_band_ok m y r n frac Hst) as (m' & E & Hm'); [lia..|].
  exists (set_data (Some m') r). split; [done|].
  assert (P : pointwise m0 m' (grid_fn W (drawn_rows (y + n - ya)))).
  { eapply pointwise_ext; [|exact (pointwise_trans _ _ _ _ _ Hm Hm')].
    intros i v _. unfold grid_fn, drawn_rows. set (row := i / W). set (c := i mod W).
    destruct (inside_spec y n row).
    - rewrite <- (Hcov row) by lia. destruct (inside_spec ya (y - ya) row); [lia|].
      by destruct (inside_spec ya (y + n - ya) row); [|lia].
    - destruct (inside_spec ya (y - ya) row), (inside_spec ya (y + n - ya) row); (done || lia). }
  split; [|exists m'; by split].
  destruct (next_rows_key W x n (set_data (Some m') r)) as (N1 & N2 & N3 & N4).
  destruct Hst as [Hk Hd Hc Ho Hroom Hlt]. exists m'. split; [|done].
  pose proof (pointwise_alen _ _ _ Hm'). pose proof Hs as [_ _ _ _ _ _ _ _ ? ? ? ? ? ? _ _ _ _ _ _ _].
  assert (Ey : i32 (_currY r + n) = y + n) by (rewrite Hc; apply i32_id; unfold in_i32; nia).
  change (_currY (set_data (Some m') r)) with (_currY r) in N3, N4. rewrite Ey in N3, N4.
  split.
  - rewrite N1, band_key_data. done.
  - rewrite N2. reflexivity.
  - done.
  - rewrite N4. apply i32_id. unfold in_i32. nia.
  - lia.
  - lia.
Qed.

(** The full rows in chunks of at most [NUM_ALPHA_ROWS]. *)
Lemma full_rows_ok y r rows : progress y r -> ya <= y -> 0 <= rows -> y + rows <= yb + 1 ->
  (forall row, y <= row < y + rows -> drawn_coverage ya yb t b row = 65536) ->
  exists r', progress (y + rows) r' /\
    full_rows j W x l rows r = Some r'.
Proof using Hs Hya Hyb.
  intros Hp Hy Hrows Hend Hcov. unfold full_rows.
  destruct (while_fuel_inv
    (fun '(k, r1) => 0 <= k <= rows /\ progress (y + rows - k) r1) (fun '(k, _) => Z.to_nat k)
    (fun '(rows, _) => rows >? 0)
    (fun '(rows, rdr) =>
         rdr ← rect_band j l (MIN rows NUM_ALPHA_ROWS) 0x10000 rdr;
         Some (rows - MIN rows NUM_ALPHA_ROWS, next_rows W x (MIN rows NUM_ALPHA_ROWS) rdr))
    (Z.to_nat rows) (rows, r)) as ([k r'] & E & [Hk Hpr] & Hc).
  - split; [lia|]. by replace (y + rows - rows) with y by lia.
  - done.
  - intros [k r1] [Hk Hp1] Hpos. rewrite Z.gtb_ltb in Hpos. apply Z.ltb_lt in Hpos. cbv zeta.
    rewrite MIN_spec. unfold NUM_ALPHA_ROWS.
    destruct (progress_band _ _ (Z.min k 8) 65536 Hp1) as (r2 & -> & Hp2 & _);
      [lia|lia|lia|intros; apply Hcov; lia|lia|].
    mred. eexists; split; [done|]. split; [|lia]. split; [lia|].
    by replace (y + rows - (k - Z.min k 8)) with (y + rows - k + Z.min k 8) by lia.
  - rewrite Z.gtb_ltb in Hc. apply Z.ltb_ge in Hc. replace k with 0 in * by lia.
    rewrite Z.sub_0_r in Hpr. rewrite E. eauto.
Qed.

(** All rows of the rectangle: top, chunks, bottom. *)
Lemma rect_rows_ok r : progress ya r -> (ctrue t = true -> ctrue b = true -> ya < yb) ->
  exists r' m', rect_rows j W x l (yb - ya + 1) t b r = Some r' /\ _data r' = Some m' /\
    pointwise m0 m' (grid_fn W (drawn_rows (yb - ya + 1))).
Proof using Hs Hya Hyb Ht Hb.
  intros Hp Htb. unfold rect_rows. rewrite !ctrue_eqb in *.
  set (nt := if t =? 0 then 0 else 1). set (nb := if b =? 0 then 0 else 1).
  assert (Hnt : 0 <= nt <= 1) by (subst nt; case_bools). assert (Hnb : 0 <= nb <= 1) by (subst nb; case_bools).
  assert (Htop : exists r1, progress (ya + nt) r1 /\
    (if negb (t =? 0) then
       rdr ← rect_band j l 1 t r;
       Some ((if negb (b =? 0) then yb - ya + 1 - 1 else yb - ya + 1) - 1, next_rows W x 1 rdr)
     else Some (if negb (b =? 0) then yb - ya + 1 - 1 else yb - ya + 1, r)) =
    Some (yb - ya + 1 - nb - nt, r1)).
  { subst nt nb. destruct (Z.eqb_spec t 0) as [->|Et]; cbn [negb].
    - exists r. rewrite Z.add_0_r. split; [done|]. do 2 f_equal. case_bools.
    - destruct (progress_band ya r 1 t Hp) as (r1 & -> & Hp1 & _); try lia.
      { intros row Hrow. unfold drawn_coverage. rewrite !ctrue_eqb. case_bools. }
      mred. eexists; split; [exact Hp1|]. do 2 f_equal. case_bools. }
  destruct Htop as (r1 & Hp1 & ->). mred.
  destruct (full_rows_ok (ya + nt) r1 (yb - ya + 1 - nb - nt) Hp1) as (r2 & Hp2 & ->).
  { lia. }
  { subst nt nb. destruct (t =? 0), (b =? 0); lia. }
  { lia. }
  { intros row Hrow. unfold drawn_coverage. rewrite !ctrue_eqb. subst nt nb.
    destruct (Z.eqb_spec t 0), (Z.eqb_spec b 0); case_bools. }
  mred. replace (ya + nt + (yb - ya + 1 - nb - nt)) with (yb + 1 - nb) in Hp2 by lia.
  subst nb. destruct (Z.eqb_spec b 0) as [Eb|Eb]; cbn [negb].
  - destruct Hp2 as (m' & [_ Hd _ _ _ _] & Hm'). exists r2, m'. split_and!; try done.
    by replace (yb - ya + 1) with (yb + 1 - 0 - ya) by lia.
  - destruct (progress_band (yb + 1 - 1) r2 1 b Hp2) as (r3 & -> & _ & m' & Hd & Hm'); try lia.
    { intros row Hrow. unfold drawn_coverage. rewrite !ctrue_eqb.
      destruct (Z.eqb_spec t 0); simpl in *; case_bools. }
    exists r3, m'. split_and!; try done. by replace (yb - ya + 1) with (yb + 1 - 1 + 1 - ya) by lia.
Qed.
End bands.

(** ** From a reachable renderer to the scanline routines *)

(** What a drawing call relies on: the surface the renderer was created for,
    whose array is large enough, a renderer that satisfies the invariant of the
    state machine, colour components in range and a clip inside the surface
    (both established by the Java setters), and no error pending. *)
Record draw_ready (wd : world) : Prop := {
  dr_type : imageType (w_surface wd) = TYPE_INT_ARGB_PRE;
  dr_width : 0 < width (w_surface wd);
  dr_height : 0 <= height (w_surface wd);
  dr_room : width (w_surface wd) * height (w_surface wd) <= alen (w_pixels wd);
  dr_small : alen (w_pixels wd) < 2 ^ 31;
  dr_wf : wf (w_rdr wd);
  dr_noerr : w_memError wd = false;
  dr_alpha : is_byte (_ualpha (w_rdr wd));
  dr_red : is_byte (_ured (w_rdr wd));
  dr_green : is_byte (_ugreen (w_rdr wd));
  dr_blue : is_byte (_ublue (w_rdr wd));
  dr_minX : 0 <= _clip_bbMinX (w_rdr wd);
  dr_maxX : _clip_bbMaxX (w_rdr wd) < width (w_surface wd);
  dr_minY : 0 <= _clip_bbMinY (w_rdr wd);
  dr_maxY : _clip_bbMaxY (w_rdr wd) < height (w_surface wd)
}.

(** Fields that validation does not touch. *)
Definition kept (r : Renderer) :=
  ((_clip_bbMinX r, _clip_bbMinY r, _clip_bbMaxX r, _clip_bbMaxY r), _mask_byteData r,
   _rowAAInt r, alphaMap r, _paint r).

Lemma lower_kept f r : kept (lower f r) = kept r.
Proof. reflexivity. Qed.

Lemma updatePaint_kept r : kept (updatePaintDependedRoutines r) = kept r.
Proof. unfold updatePaintDependedRoutines. repeat case_match; reflexivity. Qed.

Lemma updateComposite_kept r : kept (updateCompositeDependedRoutines r) = kept r.
Proof.
  unfold updateCompositeDependedRoutines. cbv zeta.
  match goal with |- context [updatePaintDependedRoutines ?q] => set (r1 := q) end.
  rewrite lower_kept, updatePaint_kept. subst r1.
  repeat case_match; reflexivity.
Qed.

Lemma updateMask_kept r : kept (updateMaskDependedRoutines r) = kept r.
Proof.
  unfold updateMaskDependedRoutines. cbv zeta.
  match goal with |- context [updateCompositeDependedRoutines ?q] => set (r1 := q) end.
  rewrite lower_kept, updateComposite_kept. subst r1.
  repeat case_match; reflexivity.
Qed.

Lemma updateSurfaceRoutines_kept r : kept (updateSurfaceDependedRoutines r) = kept r.
Proof.
  unfold updateSurfaceDependedRoutines. rewrite updateMask_kept. case_match; reflexivity.
Qed.

Lemma updateRendererSurface_kept s r : kept (updateRendererSurface s r) = kept r.
Proof.
  unfold updateRendererSurface. cbv zeta. rewrite lower_kept.
  case_match; [reflexivity|]. rewrite updateSurfaceRoutines_kept. case_match; reflexivity.
Qed.

Lemma kept_if (b : bool) r1 r2 k : kept r1 = k -> kept r2 = k -> kept (if b then r1 else r2) = k.
Proof. by destruct b. Qed.

Lemma validate_kept s r r' : VALIDATE_BLITTING s r = Some r' -> kept r' = kept r.
Proof.
  unfold VALIDATE_BLITTING. cbv zeta. intros E.
  destruct (has r INVALID_BLITTING_MASK); [|by simplify_eq].
  set (r1 := if has r INVALID_RENDERER_SURFACE then updateRendererSurface s r else r) in E.
  assert (K1 : kept r1 = kept r) by (apply kept_if; [apply updateRendererSurface_kept|done]).
  clearbody r1. set (r2 := if has r INVALID_INTERNAL_COLOR then updateInternalColor r1 else r1) in E.
  assert (K2 : kept r2 = kept r1).
  { apply kept_if; [|done]. unfold updateInternalColor. rewrite lower_kept. apply kept_if; reflexivity. }
  clearbody r2. rewrite <- K1, <- K2.
  match type of E with (if has ?q _ then _ else _) = _ => set (r3 := q) in E end.
  assert (K3 : kept r3 = kept r2).
  { repeat apply kept_if; auto using updateMask_kept, updateComposite_kept, updatePaint_kept. }
  clearbody r3. destruct (has r3 INVALID_BLITTING_MASK); [discriminate|congruence].
Qed.

(** The renderer after [INVALIDATE_RENDERER_SURFACE] and [VALIDATE_BLITTING]. *)
Lemma validate_draw s r1 : wf r1 -> imageType s = TYPE_INT_ARGB_PRE ->
  has r1 INVALID_RENDERER_SURFACE = true ->
  exists r, VALIDATE_BLITTING s r1 = Some r /\ wf r /\
    paint_table r = dispatch (_maskType r1) (_compositeRule r1) (_paintMode r1) /\
    color_table r = color_expected r1 /\ _clearRect r = Some ClearRect8888_any /\
    geometry_of r = surface_geometry s /\ kept r = kept r1.
Proof.
  intros Hw Hs Hi. destruct (validate_ok s r1 Hw Hs) as (r & E & [V1 _ V2 V3 V4 V5 _]).
  pose proof (validate_kept _ _ _ E). exists r. split_and!; auto.
Qed.

Lemma invalidate_wf r : wf r -> wf (INVALIDATE_RENDERER_SURFACE r) /\
  has (INVALIDATE_RENDERER_SURFACE r) INVALID_RENDERER_SURFACE = true.
Proof.
  intros Hw. split.
  - apply (wf_changes r); [done|apply changes_raise|apply Hw..].
  - unfold INVALIDATE_RENDERER_SURFACE. rewrite has_raise. by rewrite orb_true_r.
Qed.

Lemma throw_noop wd : w_memError wd = false -> throw_mem_error wd = wd.
Proof. intros E. unfold throw_mem_error. by rewrite E. Qed.

(** Acquiring the surface in a drawing call. *)
Lemma acquire_draw j wd body : draw_ready wd -> pin_surface j = true ->
  ACQUIRE_SURFACE j body wd =
  body (with_acquired wd (set_surface_data (Some (w_pixels wd)) (w_surface wd)) false None).
Proof.
  intros [] Hp. unfold ACQUIRE_SURFACE. rewrite Hp, acquire_ok by done. mred. cbv zeta.
  change (w_memError (with_acquired _ _ _ _)) with (w_memError wd || false). by rewrite dr_noerr0.
Qed.

(** ** fillRect with a flat colour *)

(** Alpha with which the colour is blended at a pixel: the colour's alpha
    scaled by the row's and then by the column's coverage. *)
Definition over_alpha (a rowcov colcov : Z) : Z :=
  let alpha := a * rowcov / 65536 in
  if colcov =? 65536 then alpha else if alpha =? 255 then colcov / 256 else colcov * alpha / 65536.

Definition fill_over (r : Renderer) (rowcov colcov v : Z) : Z :=
  if (rowcov =? 0) || (colcov =? 0) then v
  else blendSrcOver8888_pre (over_alpha (_ualpha r) rowcov colcov) (_ured r) (_ugreen r) (_ublue r) v.

Lemma drawn_inside from to l r c : from <= to ->
  0 <= l -> 0 <= r -> (drawn_coverage from to l r c =? 0) = negb (inside from (to - from + 1) c).
Proof.
  intros. unfold drawn_coverage, inside. rewrite !ctrue_eqb.
  destruct (Z.eqb_spec l 0), (Z.eqb_spec r 0), (Z.eqb_spec c from), (Z.eqb_spec c to);
    case_bools; done.
Qed.

(** The pixel of a covered column, in terms of its coverage. *)
Lemma emit_over_column r0 x l frac c v : inside x l c = true -> _alphaWidth r0 = l ->
  0 <= _el_lfrac r0 < 65536 -> 0 <= _el_rfrac r0 < 65536 ->
  emit_pixel EmitLineSourceOver8888_pre r0 frac 0 (c - x) v =
  blendSrcOver8888_pre
    (over_alpha (_calpha r0) frac (drawn_coverage x (x + l - 1) (_el_lfrac r0) (_el_rfrac r0) c))
    (_cred r0) (_cgreen r0) (_cblue r0) v.
Proof.
  intros Hi Hl Hlf Hrf. destruct (inside_spec x l c); [|done]. unfold emit_pixel, by_column, over_alpha, drawn_coverage.
  rewrite Hl, !ctrue_eqb. f_equal.
  destruct (Z.eqb_spec (_el_lfrac r0) 0), (Z.eqb_spec (_el_rfrac r0) 0),
    (Z.eqb_spec (_calpha r0 * frac / 65536) 255), (Z.eqb_spec c x), (Z.eqb_spec (c - x) 0),
    (Z.eqb_spec (c - x) (l - 1)), (Z.eqb_spec c (x + l - 1)); try lia; case_bools; done.
Qed.

Lemma single_frac_ok from to l r l' r' : from <= to -> 0 <= l < 65536 -> 0 <= r < 65536 ->
  single_frac from to l r = (l', r') ->
  0 <= l' < 65536 /\ 0 <= r' < 65536 /\ edges l' + edges r' <= to - from + 1 /\
  (ctrue l' = true -> ctrue r' = true -> from < to).
Proof.
  intros Hft Hl Hr. unfold single_frac. destruct (Z.eqb_spec from to) as [E|E].
  - rewrite ctrue_lor. destruct (ctrue l || ctrue r) eqn:Ec; cbn [andb]; intros [= <- <-].
    + rewrite land_0xffff. pose proof (Z.mod_pos_bound (r - 0x10000 + l) 65536).
      pose proof (edges_range ((r - 0x10000 + l) mod 65536)). change (edges 0) with 0.
      split_and!; try done; lia.
    + apply orb_false_iff in Ec as [E1 E2]. unfold edges. rewrite E1, E2. split_and!; try done; lia.
  - cbn [andb]. intros [= <- <-]. pose proof (edges_range l). pose proof (edges_range r).
    split_and!; try done; lia.
Qed.

(** One axis: the range, the fractions and the exact coverage. *)
Lemma axis_facts x w lEdge rEdge cmin cmax : in_i32 (x + w) -> 0 < w ->
  exists from to l r, rect_axis x w lEdge rEdge cmin cmax = (from, to, l, r) /\
    cmin <= from /\ to <= cmax /\ 0 <= l < 65536 /\ 0 <= r < 65536 /\
    (forall c, axis_coverage x w lEdge rEdge cmin cmax c =
       overlap (Z.max (edge_start lEdge x) (cmin * 65536))
               (Z.min (edge_end rEdge (x + w)) ((cmax + 1) * 65536)) c) /\
    (forall l' r' c, single_frac from to l r = (l', r') ->
       axis_coverage x w lEdge rEdge cmin cmax c = drawn_coverage from to l' r' c).
Proof.
  intros Hi Hw. pose proof (rect_axis_ok x w lEdge rEdge cmin cmax Hi Hw) as H. unfold axis_coverage.
  destruct (rect_axis x w lEdge rEdge cmin cmax) as [[[from to] l] r].
  destruct H as (F & L & Hlt & H1 & H2). exists from, to, l, r. split_and!; try done; try apply F; try apply L.
  - intros c. exact (coverage_exact _ _ _ _ _ _ c F L Hlt).
  - intros l' r' c ->. done.
Qed.

Lemma drawn_empty from to l r c : to < from -> drawn_coverage from to l r c = 0.
Proof. intros. unfold drawn_coverage. case_bools. Qed.

(** The drawing part of [fillRect], from the renderer at hand to the pixels. *)
Lemma fill_draw_ok j s m r1 x_from x_to y_from y_to l r t b :
  wf r1 -> imageType s = TYPE_INT_ARGB_PRE -> data s = Some m ->
  0 < width s -> 0 <= height s -> width s * height s <= alen m -> alen m < 2 ^ 31 ->
  _paintMode r1 = PAINT_FLAT_COLOR -> _compositeRule r1 = COMPOSITE_SRC_OVER ->
  is_byte (_ualpha r1) -> is_byte (_ured r1) -> is_byte (_ugreen r1) -> is_byte (_ublue r1) ->
  0 <= x_from <= x_to -> x_to < width s -> 0 <= y_from <= y_to -> y_to < height s ->
  0 <= l < 65536 -> 0 <= r < 65536 -> 0 <= t < 65536 -> 0 <= b < 65536 ->
  edges l + edges r <= x_to - x_from + 1 ->
  (ctrue t = true -> ctrue b = true -> y_from < y_to) ->
  exists r' m',
    (rdr ← VALIDATE_BLITTING s (INVALIDATE_RENDERER_SURFACE r1);
     rect_rows j (width s) x_from (x_to - x_from + 1) (y_to - y_from + 1) t b
       (rdr <| set_minTouched := x_from |> <| set_maxTouched := x_to |>
            <| set_currX := x_from |> <| set_currY := y_from |> <| set_alphaWidth := x_to - x_from + 1 |>
            <| set_currImageOffset := y_from * width s |>
            <| set_imageScanlineStride := width s |> <| set_imagePixelStride := 1 |>
            <| set_rowNum := 0 |> <| set_el_lfrac := l |> <| set_el_rfrac := r |>)) = Some r' /\
    _data r' = Some m' /\
    pointwise m m' (grid_fn (width s) (fun row c =>
      fill_over r1 (drawn_coverage y_from y_to t b row) (drawn_coverage x_from x_to l r c))).
Proof.
  intros Hw Hty Hd HW HH Hroom Hlt Hp Hc Ba Br Bg Bb Hx HxW Hy HyH Rl Rr Rt Rb He Htb.
  destruct (invalidate_wf _ Hw) as [Hw1 Hi1].
  destruct (validate_draw s _ Hw1 Hty Hi1) as (r2 & -> & _ & Hdis & Hcol & _ & Hgeo & _). mred.
  change (_compositeRule (INVALIDATE_RENDERER_SURFACE r1)) with (_compositeRule r1) in Hdis.
  change (_paintMode (INVALIDATE_RENDERER_SURFACE r1)) with (_paintMode r1) in Hdis.
  change (color_expected (INVALIDATE_RENDERER_SURFACE r1)) with (color_expected r1) in Hcol.
  rewrite Hp, Hc in Hdis. unfold color_expected, color_table in Hcol. rewrite Hc in Hcol.
  change (COMPOSITE_SRC_OVER =? COMPOSITE_CLEAR) with false in Hcol. injection Hcol as Ca Cr Cg Cb.
  assert (Hd2 : _data r2 = Some m) by (unfold geometry_of, surface_geometry in Hgeo; congruence).
  assert (Hgen : _genPaint r2 = None /\ _emitLine r2 = Some EmitLineSourceOver8888_pre).
  { unfold paint_table in Hdis. unfold dispatch, rule_expected in Hdis.
    destruct (mask_expected _) as [[[? ?] ?] ?]. cbn in Hdis. split; congruence. }
  set (r0 := set_el_rfrac _ _).
  assert (Hs : band_setup EmitLineSourceOver8888_pre r0 (width s) (height s) x_from (x_to - x_from + 1)).
  { split; try reflexivity; try apply Hgen; try done; try lia; try nia.
    - change (_maxTouched r0) with x_to. lia.
    - change (_calpha r0) with (_calpha r2). congruence.
    - change (_cred r0) with (_cred r2). congruence.
    - change (_cgreen r0) with (_cgreen r2). congruence.
    - change (_cblue r0) with (_cblue r2). congruence. }
  destruct (rect_rows_ok EmitLineSourceOver8888_pre r0 (width s) (height s) x_from (x_to - x_from + 1) j Hs
    m y_from y_to t b) with (r := r0) as (r' & m' & E & Hd' & Hm'); try lia; try done.
  { exists m. split; [split; try done; lia|]. eapply pointwise_ext; [|apply pointwise_refl].
    intros i v _. unfold grid_fn, drawn_rows. by destruct (inside_spec y_from (y_from - y_from) (i / width s)); [lia|]. }
  exists r', m'. split_and!; [exact E|done|]. eapply pointwise_ext; [|exact Hm'].
  intros i v _. unfold grid_fn, drawn_rows, row_fn, fill_over. rewrite !drawn_inside by lia.
  destruct (inside y_from (y_to - y_from + 1) (i / width s)); [|done]. cbn [negb orb].
  destruct (inside x_from (x_to - x_from + 1) (i mod width s)) eqn:Ei; [|done]. cbn [negb].
  rewrite emit_over_column with (l := x_to - x_from + 1); [|done..].
  change (_el_lfrac r0) with l. change (_el_rfrac r0) with r.
  change (_calpha r0) with (_calpha r2). change (_cred r0) with (_cred r2).
  change (_cgreen r0) with (_cgreen r2). change (_cblue r0) with (_cblue r2).
  replace (x_from + (x_to - x_from + 1) - 1) with x_to by lia. congruence.
Qed.

(** C1: filling a rectangle with a flat colour (source-over), for any 16.16
    rectangle of positive size, edge modes and clip: the call returns without
    an exception, and the pixel in row [row] and column [c] of the Java array is
    blended with the colour at exactly the area coverage of the rectangle in
    that pixel: its vertical overlap times its horizontal overlap.  Pixels with
    no overlap, outside the clip or beyond the surface keep their value. *)
Theorem fillRect_flat_over j wd x y w h lEdge rEdge tEdge bEdge :
  draw_ready wd -> pin_surface j = true ->
  _paintMode (w_rdr wd) = PAINT_FLAT_COLOR -> _compositeRule (w_rdr wd) = COMPOSITE_SRC_OVER ->
  in_i32 (x + w) -> 0 < w -> in_i32 (y + h) -> 0 < h ->
  exists wd', fillRect j x y w h lEdge rEdge tEdge bEdge wd = Some wd' /\
    w_exn wd' = w_exn wd /\ w_freed wd' = w_freed wd /\
    pointwise (w_pixels wd) (w_pixels wd') (grid_fn (width (w_surface wd)) (fun row c =>
      fill_over (w_rdr wd)
        (overlap (Z.max (edge_start tEdge y) (_clip_bbMinY (w_rdr wd) * 65536))
                 (Z.min (edge_end bEdge (y + h)) ((_clip_bbMaxY (w_rdr wd) + 1) * 65536)) row)
        (overlap (Z.max (edge_start lEdge x) (_clip_bbMinX (w_rdr wd) * 65536))
                 (Z.min (edge_end rEdge (x + w)) ((_clip_bbMaxX (w_rdr wd) + 1) * 65536)) c))).
Proof.
  intros Hr Hpin Hp Hc Hix Hw Hiy Hh. pose proof Hr as [].
  destruct (axis_facts x w lEdge rEdge (_clip_bbMinX (w_rdr wd)) (_clip_bbMaxX (w_rdr wd)) Hix Hw)
    as (xa & xb & l & r & Ex & Hxa & Hxb & Rl & Rr & Cx & Dx).
  destruct (axis_facts y h tEdge bEdge (_clip_bbMinY (w_rdr wd)) (_clip_bbMaxY (w_rdr wd)) Hiy Hh)
    as (ya & yb & t & b & Ey & Hya & Hyb & Rt & Rb & Cy & Dy).
  unfold fillRect. rewrite Ex, Ey.
  destruct (single_frac xa xb l r) as [l' r'] eqn:Sx. destruct (single_frac ya yb t b) as [t' b'] eqn:Sy.
  set (r1 := set_rectY _ _).
  assert (Hsame : pointwise (w_pixels wd) (w_pixels wd) (fun i v => v)) by apply pointwise_refl.
  destruct (Z.leb_spec xa xb); cbn [andb]; [destruct (Z.leb_spec ya yb)|].
  2,3: exists (with_rdr wd r1); split_and!; try done; eapply pointwise_ext; [|exact Hsame];
    intros i v _; unfold grid_fn, fill_over; rewrite <- Cx, <- Cy, (Dx l' r' _ eq_refl), (Dy t' b' _ eq_refl);
    rewrite ?(drawn_empty xa xb), ?(drawn_empty ya yb) by lia; by rewrite ?orb_true_r.
  destruct (single_frac_ok xa xb l r l' r' H Rl Rr Sx) as (Rl' & Rr' & Hedges & _).
  destruct (single_frac_ok ya yb t b t' b' H0 Rt Rb Sy) as (Rt' & Rb' & _ & Htb).
  assert (Hw1 : wf r1).
  { apply (wf_changes (w_rdr wd)); [done| |apply dr_wf0..]. apply changes_frame; [split|]; reflexivity. }
  set (s := set_surface_data (Some (w_pixels wd)) (w_surface wd)).
  assert (Hs : width s = width (w_surface wd) /\ height s = height (w_surface wd)) by done.
  destruct Hs as [EW EH].
  destruct (fill_draw_ok j s (w_pixels wd) r1 xa xb ya yb l' r' t' b') as (r2 & m' & E2 & Hd2 & Hm2);
    try done; try lia.
  assert (Hr1 : draw_ready (with_rdr wd r1)) by (split; done).
  rewrite (acquire_draw j (with_rdr wd r1)) by done. unfold draw.
  change (w_surface (with_acquired _ (set_surface_data _ _) false None)) with s.
  change (w_rdr (with_acquired (with_rdr wd r1) _ false None)) with r1.
  rewrite (i32_id (xb - xa + 1)), (i32_id (yb - ya + 1)), (i32_id (ya * width s)) by (unfold in_i32; nia).
  cbv zeta. rewrite E2. mred. rewrite Hd2.
  rewrite throw_noop by (change (w_memError wd || false = false); by rewrite dr_noerr0).
  eexists. split; [reflexivity|].
  split_and!; [reflexivity..|]. eapply pointwise_ext; [|exact Hm2].
  intros i v _. unfold grid_fn. by rewrite <- Cx, <- Cy, (Dx l' r' _ eq_refl), (Dy t' b' _ eq_refl).
Qed.

(** A 4 by 3 surface and a renderer that was given a colour. *)
Definition sample_world : world :=
  mkWorld (renderer_setColor 200 100 50 255 (createCommon sample_surface) []).1 sample_surface
    (replicate 12 0) [] [] [] false None.

Lemma setColor_wf red green blue alpha r freed :
  wf r -> wf (renderer_setColor red green blue alpha r freed).1.
Proof.
  intros Hw. destruct (setColor_ok red green blue alpha r freed) as (C & P & M & R).
  apply (wf_changes r); [done|exact C|rewrite M; apply Hw|rewrite R; apply Hw|rewrite P; by left].
Qed.

Lemma sample_world_ready : draw_ready sample_world.
Proof.
  split; try (vm_compute; repeat split; discriminate).
  exact (setColor_wf 200 100 50 255 _ [] (createCommon_wf sample_surface)).
Qed.

Lemma fillRect_flat_over_witness :
  exists wd', fillRect all_succeed 0x18000 0x10000 0x18000 0x8000 0 0 0 0 sample_world = Some wd' /\
    aget (w_pixels wd') 4 = Some 0 /\
    aget (w_pixels wd') 5 = Some (blendSrcOver8888_pre 63 200 100 50 0) /\
    aget (w_pixels wd') 6 = Some (blendSrcOver8888_pre 127 200 100 50 0).
Proof.
  destruct (fillRect_flat_over all_succeed sample_world 0x18000 0x10000 0x18000 0x8000 0 0 0 0
    sample_world_ready) as (wd' & E & _ & _ & Hm);
    [reflexivity..|unfold in_i32; lia|lia|unfold in_i32; lia|lia|].
  exists wd'. split; [exact E|]. rewrite !Hm. vm_compute. split_and!; reflexivity.
Defined.

(** ** clearRect *)

(** The surface of a [JavaSurface]: one row after the other. *)
Record dense (s : Surface) : Prop := {
  dn_offset : offset s = 0;
  dn_stride : scanlineStride s = width s;
  dn_pixel : pixelStride s = 1
}.

(** The colour [clearRect] stores: the registers as validation sets them. *)
Definition clear_color (r : Renderer) : Z :=
  if _compositeRule r =? COMPOSITE_CLEAR then 0 else pack (_ualpha r) (_ured r) (_ugreen r) (_ublue r).

Lemma clear_value_expected r r1 : color_table r = color_expected r1 -> clear_value r = clear_color r1.
Proof.
  unfold color_table, color_expected, clear_value, clear_color.
  destruct (_compositeRule r1 =? COMPOSITE_CLEAR); intros [= -> -> -> ->]; reflexivity.
Qed.

Lemma validated_fields r s r1 : geometry_of r = surface_geometry s -> dense s -> kept r = kept r1 ->
  _width r = width s /\ _height r = height s /\ _data r = data s /\ _imageOffset r = 0 /\
  _imageScanlineStride r = width s /\ _imagePixelStride r = 1 /\
  _clip_bbMinX r = _clip_bbMinX r1 /\ _clip_bbMinY r = _clip_bbMinY r1 /\
  _clip_bbMaxX r = _clip_bbMaxX r1 /\ _clip_bbMaxY r = _clip_bbMaxY r1.
Proof.
  unfold geometry_of, surface_geometry, kept. intros Hg [] Hk. injection Hg. injection Hk. intros.
  split_and!; congruence.
Qed.

(** The clipped rectangle as one range per axis. *)
Lemma inside_clip x w y h cx0 cx1 cy0 cy1 xa xb ya yb row c :
  xa = Z.max x cx0 -> xb = Z.min (x + w - 1) cx1 -> ya = Z.max y cy0 -> yb = Z.min (y + h - 1) cy1 ->
  inside ya (yb - ya + 1) row && inside xa (xb - xa + 1) c =
  (inside x w c && inside y h row) && ((cx0 <=? c) && (c <=? cx1) && ((cy0 <=? row) && (row <=? cy1))).
Proof.
  intros -> -> -> ->. apply eq_true_iff_eq. unfold inside.
  rewrite !andb_true_iff, !Z.leb_le, !Z.ltb_lt. lia.
Qed.

(** [renderer_clearRect] once the renderer is validated. *)
Lemma renderer_clearRect_ok s r1 r m x y w h :
  VALIDATE_BLITTING s r1 = Some r -> _clearRect r = Some ClearRect8888_any -> _data r = Some m ->
  _width r = width s -> _height r = height s -> _imageOffset r = 0 ->
  _imageScanlineStride r = width s -> _imagePixelStride r = 1 ->
  0 < width s -> 0 <= height s -> width s * height s <= alen m -> 4 * alen m < 2 ^ 31 ->
  0 <= _clip_bbMinX r -> _clip_bbMaxX r < width s -> 0 <= _clip_bbMinY r -> _clip_bbMaxY r < height s ->
  in_i32 (x + w - 1) -> in_i32 (y + h - 1) ->
  exists r' m', renderer_clearRect s x y w h r1 = Some r' /\ _data r' = Some m' /\
    pointwise m m' (grid_fn (width s) (fun row c v =>
      if (inside x w c && inside y h row) &&
         ((_clip_bbMinX r <=? c) && (c <=? _clip_bbMaxX r) && ((_clip_bbMinY r <=? row) && (row <=? _clip_bbMaxY r)))
      then clear_value r else v)).
Proof.
  intros Ev Hcl Hd Hw Hh Hof Hst Hps HW HH Hroom Hsm Hx0 Hx1 Hy0 Hy1 Hx Hy.
  assert (width s <= width s * height s \/ height s = 0) by nia.
  assert (height s <= width s * height s) by nia.
  unfold renderer_clearRect. rewrite Ev. mred. cbv zeta. rewrite !MIN_spec, !MAX_spec, Hw, Hh, Hcl.
  rewrite (i32_id (x + w - 1)), (i32_id (y + h - 1)) by done.
  rewrite (i32_id (height s - 1)) by (unfold in_i32; lia).
  set (xa := Z.max (Z.max x 0) (_clip_bbMinX r)). set (ya := Z.max (Z.max y 0) (_clip_bbMinY r)).
  set (xb := Z.min (Z.min (x + w - 1) (i32 (width s - 1))) (_clip_bbMaxX r)).
  set (yb := Z.min (Z.min (y + h - 1) (height s - 1)) (_clip_bbMaxY r)).
  assert (Exb : height s <> 0 -> xb = Z.min (x + w - 1) (_clip_bbMaxX r)).
  { intros. subst xb. rewrite (i32_id (width s - 1)) by (unfold in_i32; lia). lia. }
  destruct ((xa <=? xb) && (ya <=? yb)) eqn:Ei.
  - apply andb_true_iff in Ei as [Ex Ey]. apply Z.leb_le in Ex, Ey. specialize (Exb ltac:(lia)).
    rewrite !i32_id by (unfold in_i32; nia).
    destruct (clearRect_ok r xa ya (xb - xa + 1) (yb - ya + 1) m) as (m' & E & Hm').
    { split; rewrite ?Hof, ?Hst, ?Hw; try done; try lia; nia. }
    unfold run_clear. mred. rewrite E. eexists _, m'. split_and!; [done|done|].
    unfold clear_origin in Hm'. rewrite Hof, Hw, Z.add_0_l in Hm'. apply pointwise_grid in Hm'; [|lia..].
    eapply pointwise_ext; [|exact Hm']. intros i v _. unfold grid_fn.
    by rewrite (inside_clip x w y h (_clip_bbMinX r) (_clip_bbMaxX r) (_clip_bbMinY r) (_clip_bbMaxY r)) by lia.
  - exists r, m. split_and!; [done|done|]. eapply pointwise_ext; [|apply pointwise_refl].
    intros i v _. unfold grid_fn. apply andb_false_iff in Ei. rewrite !Z.leb_gt in Ei.
    match goal with |- _ = if ?b then _ else _ => destruct b eqn:Eb; [exfalso|done] end.
    unfold inside in Eb. rewrite !andb_true_iff, !Z.leb_le, !Z.ltb_lt in Eb.
    specialize (Exb ltac:(lia)). lia.
Qed.

(** [clearRect] sets exactly the pixels of the rectangle that lie inside the clip
    to [clear_color], the current colour unless the rule is "clear". *)
Lemma clearRectImpl_stores j wd x y w h :
  draw_ready wd -> dense (w_surface wd) -> pin_surface j = true -> 4 * alen (w_pixels wd) < 2 ^ 31 ->
  in_i32 (x + w - 1) -> in_i32 (y + h - 1) ->
  exists wd', clearRectImpl j x y w h wd = Some wd' /\ w_exn wd' = w_exn wd /\ w_freed wd' = w_freed wd /\
    pointwise (w_pixels wd) (w_pixels wd') (grid_fn (width (w_surface wd)) (fun row c v =>
      let r := w_rdr wd in
      if (inside x w c && inside y h row) &&
         ((_clip_bbMinX r <=? c) && (c <=? _clip_bbMaxX r) && ((_clip_bbMinY r <=? row) && (row <=? _clip_bbMaxY r)))
      then clear_color r else v)).
Proof.
  intros Hr Hdn Hpin Hsm Hx Hy. pose proof Hr as []. unfold clearRectImpl. rewrite acquire_draw by done.
  set (s := set_surface_data (Some (w_pixels wd)) (w_surface wd)). unfold draw.
  change (w_surface (with_acquired wd s false None)) with s.
  change (w_rdr (with_acquired wd s false None)) with (w_rdr wd).
  set (r1 := set_imageScanlineStride _ _).
  assert (Hw1 : wf r1).
  { apply (wf_changes (INVALIDATE_RENDERER_SURFACE (w_rdr wd))); [by apply invalidate_wf| |apply dr_wf0..].
    apply changes_frame; [split|]; reflexivity. }
  destruct (validate_draw s r1 Hw1 dr_type0 (proj2 (invalidate_wf _ dr_wf0)))
    as (r & Ev & _ & _ & Hcol & Hcl & Hgeo & Hk).
  apply clear_value_expected in Hcol. change (clear_color r1) with (clear_color (w_rdr wd)) in Hcol.
  destruct (validated_fields r s r1 Hgeo) as (F1 & F2 & F3 & F4 & F5 & F6 & F7 & F8 & F9 & F10);
    [by split; apply Hdn|done|].
  change (_clip_bbMinX r1) with (_clip_bbMinX (w_rdr wd)) in F7. change (_clip_bbMinY r1) with (_clip_bbMinY (w_rdr wd)) in F8.
  change (_clip_bbMaxX r1) with (_clip_bbMaxX (w_rdr wd)) in F9. change (_clip_bbMaxY r1) with (_clip_bbMaxY (w_rdr wd)) in F10.
  destruct (renderer_clearRect_ok s r1 r (w_pixels wd) x y w h) as (r' & m' & E & Hd & Hm);
    rewrite ?F7, ?F8, ?F9, ?F10; try done.
  rewrite E. mred. rewrite Hd.
  rewrite throw_noop by (change (w_memError wd || false = false); by rewrite dr_noerr0).
  eexists. split; [reflexivity|]. split_and!; [reflexivity..|].
  rewrite F7, F8, F9, F10, Hcol in Hm. exact Hm.
Qed.

(** The current colour is transparent black, or the composite rule is "clear". *)
Definition clears (r : Renderer) : Prop :=
  _compositeRule r = COMPOSITE_CLEAR \/ (_ualpha r = 0 /\ _ured r = 0 /\ _ugreen r = 0 /\ _ublue r = 0).

Lemma clears_color r : clears r -> clear_color r = 0.
Proof. unfold clear_color. intros [->|(-> & -> & -> & ->)]; [done|]. by destruct (_ =? _). Qed.

(** C19: with transparent black as the current colour, or under the "clear" rule,
    [clearRect] sets exactly the pixels of the rectangle that lie inside the clip
    to transparent black, leaves every other pixel of the array alone and throws
    nothing, whatever rectangle it is given. *)
Theorem clearRectImpl_clears j wd x y w h :
  draw_ready wd -> dense (w_surface wd) -> pin_surface j = true -> 4 * alen (w_pixels wd) < 2 ^ 31 ->
  in_i32 (x + w - 1) -> in_i32 (y + h - 1) -> clears (w_rdr wd) ->
  exists wd', clearRectImpl j x y w h wd = Some wd' /\ w_exn wd' = w_exn wd /\ w_freed wd' = w_freed wd /\
    pointwise (w_pixels wd) (w_pixels wd') (grid_fn (width (w_surface wd)) (fun row c v =>
      let r := w_rdr wd in
      if (inside x w c && inside y h row) &&
         ((_clip_bbMinX r <=? c) && (c <=? _clip_bbMaxX r) && ((_clip_bbMinY r <=? row) && (row <=? _clip_bbMaxY r)))
      then 0 else v)).
Proof.
  intros Hr Hdn Hpin Hsm Hx Hy Hc. destruct (clearRectImpl_stores j wd x y w h) as (wd' & E & He & Hf & Hm); try done.
  exists wd'. split_and!; [done..|]. cbv zeta in Hm. by rewrite (clears_color _ Hc) in Hm.
Qed.

(** A surface with pixels to clear, and a renderer whose colour is transparent. *)
Definition painted_world : world :=
  mkWorld (renderer_setColor 0 0 0 0 (createCommon sample_surface) []).1 sample_surface
    (replicate 12 (pack 255 200 100 50)) [] [] [] false None.

Lemma painted_world_ready : draw_ready painted_world.
Proof.
  split; try (vm_compute; repeat split; discriminate).
  exact (setColor_wf 0 0 0 0 _ [] (createCommon_wf sample_surface)).
Qed.

Lemma clearRectImpl_clears_witness :
  exists wd', clearRectImpl all_succeed (-1) 1 3 9 painted_world = Some wd' /\
    aget (w_pixels wd') 3 = Some (pack 255 200 100 50) /\ aget (w_pixels wd') 4 = Some 0 /\
    aget (w_pixels wd') 5 = Some 0 /\ aget (w_pixels wd') 6 = Some (pack 255 200 100 50).
Proof.
  destruct (clearRectImpl_clears all_succeed painted_world (-1) 1 3 9 painted_world_ready)
    as (wd' & E & _ & _ & Hm); [by split|reflexivity..|unfold in_i32; lia|unfold in_i32; lia|right; by vm_compute|].
  exists wd'. split; [exact E|]. rewrite !Hm. vm_compute. split_and!; reflexivity.
Defined.

(** With another colour the rectangle is painted, not cleared. *)
Example clearRect_paints :
  exists wd', clearRectImpl all_succeed (-1) 1 3 9 sample_world = Some wd' /\
    aget (w_pixels wd') 4 = Some (pack 255 200 100 50).
Proof. eexists. split; [vm_compute; reflexivity|vm_compute; reflexivity]. Qed.

(** ** fillAlphaMask with a flat colour *)

(** The fields a row of the mask reads and does not change. *)
Definition mask_key (r : Renderer) :=
  (_genPaint r, _emitRows r, (_minTouched r, _maxTouched r, _alphaWidth r),
   (_imageScanlineStride r, _imagePixelStride r), (_calpha r, _cred r, _cgreen r, _cblue r), _mask_byteData r).

Lemma mask_key_fields r r0 : mask_key r = mask_key r0 ->
  _genPaint r = _genPaint r0 /\ _emitRows r = _emitRows r0 /\
  _minTouched r = _minTouched r0 /\ _maxTouched r = _maxTouched r0 /\ _alphaWidth r = _alphaWidth r0 /\
  _imageScanlineStride r = _imageScanlineStride r0 /\ _imagePixelStride r = _imagePixelStride r0 /\
  _calpha r = _calpha r0 /\ _cred r = _cred r0 /\ _cgreen r = _cgreen r0 /\ _cblue r = _cblue r0 /\
  _mask_byteData r = _mask_byteData r0.
Proof. unfold mask_key. rewrite !pair_equal_spec. tauto. Qed.

Lemma mask_key_offset o r : mask_key (set_currImageOffset o r) = mask_key r /\
  _data (set_currImageOffset o r) = _data r /\ _currY (set_currImageOffset o r) = _currY r /\
  _maskOffset (set_currImageOffset o r) = _maskOffset r /\ _currImageOffset (set_currImageOffset o r) = o.
Proof. split_and!; reflexivity. Qed.

Lemma next_mask_key x mw m r :
  let r' := next_mask_row x mw (set_data (Some m) r) in
  mask_key r' = mask_key r /\ _data r' = Some m /\ _currY r' = i32 (_currY r + 1) /\
  _maskOffset r' = i32 (_maskOffset r + mw).
Proof. split_and!; reflexivity. Qed.

Record mask_setup (r0 : Renderer) (W H x l maskWidth : Z) (mask : list Z) : Prop := {
  ms_gen : _genPaint r0 = None;
  ms_rows : _emitRows r0 = Some BlitSrcOverMask8888_pre;
  ms_min : _minTouched r0 = x;
  ms_max : _maxTouched r0 = x + l - 1;
  ms_width : _alphaWidth r0 = l;
  ms_stride : _imageScanlineStride r0 = W;
  ms_pixel : _imagePixelStride r0 = 1;
  ms_mask : _mask_byteData r0 = Some mask;
  ms_alpha : is_byte (_calpha r0);
  ms_red : is_byte (_cred r0);
  ms_green : is_byte (_cgreen r0);
  ms_blue : is_byte (_cblue r0);
  ms_x : 0 <= x;
  ms_l : 1 <= l;
  ms_xl : x + l <= W;
  ms_WH : W * H < 2 ^ 31;
  ms_lw : l <= maskWidth;
  ms_bytes : forall i c, aget mask i = Some c -> -128 <= c <= 255;
  ms_len : alen mask < 2 ^ 31
}.

(** A renderer between two rows: [y] is the next row, [mo] its place in the
    mask. *)
Record mask_state (r0 : Renderer) (W H : Z) (m : list Z) (y mo : Z) (r : Renderer) : Prop := {
  mst_key : mask_key r = mask_key r0;
  mst_data : _data r = Some m;
  mst_currY : _currY r = y;
  mst_off : _maskOffset r = mo;
  mst_room : W * H <= alen m;
  mst_small : alen m < 2 ^ 31;
  mst_sound : forall i v, aget m i = Some v -> sound_pixel v
}.

Section mask_rows.
Context (r0 : Renderer) (W H x l maskWidth x0 : Z) (mask : list Z) (j : jni) (gamma invGamma : list Z).
Context (Hs : mask_setup r0 W H x l maskWidth mask).

(** The row whose mask bytes start at [mo]. *)
Definition masked_row (mo c v : Z) : Z :=
  if inside x l c then over_pixel r0 (default 0 (aget mask (mo + (c - x))) & 0xff) v else v.

Lemma over_pixel_key r cov v : mask_key r = mask_key r0 -> over_pixel r cov v = over_pixel r0 cov v.
Proof.
  intros Hk. destruct (mask_key_fields _ _ Hk) as (_ & _ & _ & _ & _ & _ & _ & E1 & E2 & E3 & E4 & _).
  unfold over_pixel. by rewrite E1, E2, E3, E4.
Qed.

Lemma mask_row_ready m y mo r : mask_state r0 W H m y mo r -> _currImageOffset r = y * W -> 0 <= y < H ->
  0 <= mo -> mo + l <= alen mask ->
  row_geometry r 1 m /\ blit_ready false r m /\ mask_ready false r 1 mask.
Proof using Hs.
  intros [Hk Hd Hy Ho Hroom Hlt Hsp] Hof Hyr Hmo Hlen. destruct Hs.
  destruct (mask_key_fields _ _ Hk) as (K0 & K1 & K2 & K3 & K4 & K5 & K6 & K7 & K8 & K9 & K10 & K11).
  assert (Hw : (y + 1) * W <= H * W) by nia.
  split_and!.
  - split; rewrite ?K2, ?K3, ?K4, ?K5, ?K6; try done; try lia; nia.
  - split; rewrite ?K7, ?K8, ?K9, ?K10; try done.
  - split; rewrite ?K11, ?K4; try done; lia.
Qed.

(** What the blit does to the row. *)
Lemma masked_row_ok m y mo r : mask_state r0 W H m y mo r -> _currImageOffset r = y * W -> 0 <= y < H ->
  0 <= mo -> mo + l <= alen mask ->
  exists m', blitSrcOverMask8888_pre r 1 = Some (set_data (Some m') r) /\
    pointwise m m' (grid_fn W (fun row c v => if row =? y then masked_row mo c v else v)) /\
    (forall i v, aget m' i = Some v -> sound_pixel v).
Proof using Hs.
  intros Hst Hof Hy Hmo Hlen. destruct (mask_row_ready m y mo r Hst Hof Hy Hmo Hlen) as (Hg & Hb & Hm).
  destruct (mask_over_ok false r 1 m mask Hg Hb Hm) as (m' & E & Hp).
  exists m'. split; [exact E|]. destruct Hst as [Hk _ _ Ho _ _ Hsp]. split.
  2: { intros i v Hv. eapply (rect_update_inv sound_pixel); [exact Hp|by apply (geometry_bound _ _ _ Hg)|exact Hsp| |exact Hv].
       intros jj c v0 _ _. apply (over_by_sound false r m); [done|]. unfold mask_coverage. apply land_byte. }
  destruct Hs. destruct (mask_key_fields _ _ Hk) as (_ & _ & K2 & _ & K4 & K5 & _ & _ & _ & _ & _ & K11).
  unfold rect_update, rect_origin in Hp. rewrite Hof, K2, K4, K5, ms_min0, ms_width0, ms_stride0 in Hp.
  apply pointwise_grid in Hp; [|lia..]. eapply pointwise_ext; [|exact Hp].
  intros i v _. unfold grid_fn, masked_row. destruct (Z.eqb_spec (i / W) y) as [Er|Er].
  - destruct (inside_spec y 1 (i / W)); [|lia]. cbn [andb]. destruct (inside x l (i mod W)); [|done].
    unfold over_by, mask_coverage. rewrite over_pixel_key by done.
    rewrite K11, ms_mask0, Ho. cbn [default]. do 4 f_equal. rewrite Er. unfold id. lia.
  - destruct (inside_spec y 1 (i / W)); [lia|done].
Qed.

Lemma mask_row_ok m y mo r : mask_state r0 W H m y mo r -> 0 <= y < H ->
  0 <= mo -> mo + maskWidth < 2 ^ 31 -> mo + l <= alen mask ->
  exists r' m', mask_row j gamma invGamma W x0 l maskWidth r = Some r' /\
    mask_state r0 W H m' (y + 1) (mo + maskWidth) r' /\
    pointwise m m' (grid_fn W (fun row c v => if row =? y then masked_row mo c v else v)).
Proof using Hs.
  intros Hst Hy Hmo Hmw Hlen. pose proof Hst as [Hk Hd Hcy Ho Hroom Hlt Hsp].
  pose proof Hs as [G1 G2 _ _ _ _ _ _ _ _ _ _ ? ? ? ? ? _ _].
  unfold mask_row. cbv zeta. rewrite Hcy, (i32_id (y * W)) by (unfold in_i32; nia).
  destruct (mask_key_offset (y * W) r) as (Q1 & Q2 & Q3 & Q4 & Q5).
  set (r1 := set_currImageOffset (y * W) r) in *. clearbody r1.
  destruct (masked_row_ok m y mo r1) as (m' & E & Hp & Hsp'); try done.
  { split; try done; congruence. }
  rewrite Hk in Q1. destruct (mask_key_fields _ _ Q1) as (K0 & K1 & _).
  unfold gen_paint. rewrite K0, G1. mred. unfold emit_blit. rewrite K1, G2. mred. cbn [run_blit]. rewrite E. mred.
  destruct (next_mask_key x0 maskWidth m' r1) as (N1 & N2 & N3 & N4).
  eexists _, m'. split; [reflexivity|]. split; [|exact Hp].
  pose proof (pointwise_alen _ _ _ Hp). split; [congruence|exact N2|..|lia|lia|done].
  - rewrite N3, Q3, Hcy. apply i32_id. unfold in_i32. nia.
  - rewrite N4, Q4, Ho. apply i32_id. unfold in_i32. nia.
Qed.

(** [n] rows from row [ya] on, the mask of the first at [mo]. *)
Definition masked_rows (ya mo n row c v : Z) : Z :=
  if inside ya n row then masked_row (mo + (row - ya) * maskWidth) c v else v.

Lemma mask_rows_ok m r ya mo n : mask_state r0 W H m ya mo r -> 0 <= ya -> 0 <= n -> ya + n <= H ->
  0 <= mo -> mo + n * maskWidth < 2 ^ 31 -> (0 < n -> mo + (n - 1) * maskWidth + l <= alen mask) ->
  exists r' m', for_lt n (fun _ => mask_row j gamma invGamma W x0 l maskWidth) r = Some r' /\
    _data r' = Some m' /\ pointwise m m' (grid_fn W (masked_rows ya mo n)).
Proof using Hs.
  intros Hst Hya Hn Hend Hmo Hmw Hlen. pose proof Hs as [_ _ _ _ _ _ _ _ _ _ _ _ ? ? ? ? ? _ _].
  destruct (for_lt_inv (fun k r1 => exists m1, mask_state r0 W H m1 (ya + k) (mo + k * maskWidth) r1 /\
      pointwise m m1 (grid_fn W (masked_rows ya mo k))) n
      (fun _ => mask_row j gamma invGamma W x0 l maskWidth) r) as (r' & E & m' & Hst' & Hm').
  - exists m. rewrite Z.mul_0_l, !Z.add_0_r. split; [done|]. eapply pointwise_ext; [|apply pointwise_refl].
    intros i v _. unfold grid_fn, masked_rows. by destruct (inside_spec ya 0 (i / W)); [lia|].
  - intros k r1 Hk (m1 & Hst1 & Hm1). assert (0 <= k * maskWidth <= (n - 1) * maskWidth) by nia.
    destruct (mask_row_ok m1 (ya + k) (mo + k * maskWidth) r1 Hst1) as (r2 & m2 & E2 & Hst2 & Hm2); [lia..|].
    exists r2. split; [done|]. exists m2.
    replace (ya + (k + 1)) with (ya + k + 1) by lia.
    replace (mo + (k + 1) * maskWidth) with (mo + k * maskWidth + maskWidth) by lia. split; [done|].
    eapply pointwise_ext; [|exact (pointwise_trans _ _ _ _ _ Hm1 Hm2)].
    intros i v _. unfold grid_fn, masked_rows. destruct (Z.eqb_spec (i / W) (ya + k)) as [->|].
    + destruct (inside_spec ya k (ya + k)), (inside_spec ya (k + 1) (ya + k)); try lia.
      by replace (ya + k - ya) with k by lia.
    + destruct (inside_spec ya k (i / W)), (inside_spec ya (k + 1) (i / W)); (done || lia).
  - replace (Z.max 0 n) with n in * by lia. exists r', m'. split_and!; [done|apply Hst'|done].
Qed.
End mask_rows.

(** The colour blended at mask coverage [cov]/255. *)
Definition over_color (r : Renderer) (cov v : Z) : Z :=
  blendSrcOver8888_pre (i32 ((cov + 1) * _ualpha r) >> 8) (_ured r) (_ugreen r) (_ublue r) v.

(** The drawing part of [fillAlphaMask]. *)
Lemma mask_draw_ok j gamma invGamma s m mask r1 xa xb ya yb x0 maskWidth mo :
  wf r1 -> imageType s = TYPE_INT_ARGB_PRE -> data s = Some m ->
  0 < width s -> 0 <= height s -> width s * height s <= alen m -> alen m < 2 ^ 31 ->
  _paintMode r1 = PAINT_FLAT_COLOR -> _compositeRule r1 = COMPOSITE_SRC_OVER -> _maskType r1 = ALPHA_MASK ->
  _mask_byteData r1 = Some mask ->
  is_byte (_ualpha r1) -> is_byte (_ured r1) -> is_byte (_ugreen r1) -> is_byte (_ublue r1) ->
  (forall i v, aget m i = Some v -> sound_pixel v) -> (forall i c, aget mask i = Some c -> -128 <= c <= 255) ->
  0 <= xa <= xb -> xb < width s -> 0 <= ya <= yb -> yb < height s ->
  xb - xa + 1 <= maskWidth -> 0 <= mo -> mo + (yb - ya + 1) * maskWidth < 2 ^ 31 ->
  mo + (yb - ya) * maskWidth + (xb - xa + 1) <= alen mask -> alen mask < 2 ^ 31 ->
  exists r' m',
    (rdr ← VALIDATE_BLITTING s (INVALIDATE_RENDERER_SURFACE r1);
     for_lt (yb - ya + 1) (fun _ => mask_row j gamma invGamma (width s) x0 (xb - xa + 1) maskWidth)
       (rdr <| set_minTouched := xa |> <| set_maxTouched := xb |>
            <| set_currX := xa |> <| set_currY := ya |> <| set_alphaWidth := xb - xa + 1 |>
            <| set_imageScanlineStride := width s |> <| set_imagePixelStride := 1 |>
            <| set_rowNum := 0 |> <| set_maskOffset := mo |>)) = Some r' /\
    _data r' = Some m' /\
    pointwise m m' (grid_fn (width s) (fun row c v =>
      if inside ya (yb - ya + 1) row && inside xa (xb - xa + 1) c
      then over_color r1 (default 0 (aget mask (mo + (row - ya) * maskWidth + (c - xa))) & 0xff) v else v)).
Proof.
  intros Hw Hty Hd HW HH Hroom Hlt Hp Hc Hmt Hmd Ba Br Bg Bb Hsp Hmb Hx HxW Hy HyH Hl Hmo Hmw Hml Hmlen.
  destruct (invalidate_wf _ Hw) as [Hw1 Hi1].
  destruct (validate_draw s _ Hw1 Hty Hi1) as (r2 & -> & _ & Hdis & Hcol & _ & Hgeo & Hk). mred.
  change (_maskType (INVALIDATE_RENDERER_SURFACE r1)) with (_maskType r1) in Hdis.
  change (_compositeRule (INVALIDATE_RENDERER_SURFACE r1)) with (_compositeRule r1) in Hdis.
  change (_paintMode (INVALIDATE_RENDERER_SURFACE r1)) with (_paintMode r1) in Hdis.
  change (color_expected (INVALIDATE_RENDERER_SURFACE r1)) with (color_expected r1) in Hcol.
  change (kept (INVALIDATE_RENDERER_SURFACE r1)) with (kept r1) in Hk.
  rewrite Hp, Hc, Hmt in Hdis. unfold color_expected, color_table in Hcol. rewrite Hc in Hcol.
  change (COMPOSITE_SRC_OVER =? COMPOSITE_CLEAR) with false in Hcol. injection Hcol as Ca Cr Cg Cb.
  assert (Hd2 : _data r2 = Some m) by (unfold geometry_of, surface_geometry in Hgeo; congruence).
  assert (Hm2 : _mask_byteData r2 = Some mask) by (unfold kept in Hk; congruence).
  unfold paint_table in Hdis. vm_compute in Hdis. injection Hdis as D1 D2 D3. clear Hgeo Hk D3.
  set (r0 := set_maskOffset mo _).
  assert (Hs : mask_setup r0 (width s) (height s) xa (xb - xa + 1) maskWidth mask).
  { split; try reflexivity; try done; try lia; try nia.
    - change (_maxTouched r0) with xb. lia.
    - change (_calpha r0) with (_calpha r2). congruence.
    - change (_cred r0) with (_cred r2). congruence.
    - change (_cgreen r0) with (_cgreen r2). congruence.
    - change (_cblue r0) with (_cblue r2). congruence. }
  destruct (mask_rows_ok r0 (width s) (height s) xa (xb - xa + 1) maskWidth x0 mask j gamma invGamma Hs
    m r0 ya mo (yb - ya + 1)) as (r' & m' & E & Hd' & Hm'); [split; try done; lia|lia..|nia|].
  exists r', m'. split_and!; [exact E|done|]. eapply pointwise_ext; [|exact Hm'].
  intros i v _. unfold grid_fn, masked_rows, masked_row.
  destruct (inside ya (yb - ya + 1) (i / width s)); [|done]. cbn [andb].
  destruct (inside xa (xb - xa + 1) (i mod width s)); [|done].
  unfold over_pixel, over_color.
  change (_calpha r0) with (_calpha r2). change (_cred r0) with (_cred r2).
  change (_cgreen r0) with (_cgreen r2). change (_cblue r0) with (_cblue r2). congruence.
Qed.

(** What the caller of [fillAlphaMask] provides: a mask of [maskWidth] by
    [maskHeight] (signed) bytes from [offset] on, rows adjacent. *)
Record mask_given (mask : list Z) (x y maskWidth maskHeight offset : Z) : Prop := {
  mg_bytes : forall i c, aget mask i = Some c -> -128 <= c <= 255;
  mg_width : 0 < maskWidth;
  mg_height : 0 <= maskHeight;
  mg_offset : 0 <= offset;
  mg_room : offset + maskHeight * maskWidth <= alen mask;
  mg_len : alen mask + maskWidth < 2 ^ 31;
  mg_x : in_i32 x /\ in_i32 (x + maskWidth - 1);
  mg_y : in_i32 y /\ in_i32 (y + maskHeight - 1)
}.

Lemma removeMask_fields r f : _mask_byteData (renderer_removeMask r f).1 = None /\
  _maskType (renderer_removeMask r f).1 = NO_MASK.
Proof. split; reflexivity. Qed.

(** [fillAlphaMask] on a clipped rectangle that is not empty. *)
Lemma fillAlphaMask_ok j wd mask xa ya xb yb x y maskWidth maskHeight mo stride :
  draw_ready wd -> pin_surface j = true -> pin_first j = true ->
  _paintMode (w_rdr wd) = PAINT_FLAT_COLOR -> _compositeRule (w_rdr wd) = COMPOSITE_SRC_OVER ->
  (forall i v, aget (w_pixels wd) i = Some v -> sound_pixel v) ->
  (forall i c, aget mask i = Some c -> -128 <= c <= 255) ->
  0 <= xa <= xb -> xb < width (w_surface wd) -> 0 <= ya <= yb -> yb < height (w_surface wd) ->
  xb - xa + 1 <= maskWidth -> 0 <= mo -> mo + (yb - ya + 1) * maskWidth < 2 ^ 31 ->
  mo + (yb - ya) * maskWidth + (xb - xa + 1) <= alen mask -> alen mask < 2 ^ 31 ->
  exists wd', fillAlphaMask j xa ya xb yb ALPHA_MASK mask x y maskWidth maskHeight mo stride wd = Some wd' /\
    w_exn wd' = w_exn wd /\ _mask_byteData (w_rdr wd') = None /\
    pointwise (w_pixels wd) (w_pixels wd') (grid_fn (width (w_surface wd)) (fun row c v =>
      if inside ya (yb - ya + 1) row && inside xa (xb - xa + 1) c
      then over_color (w_rdr wd) (default 0 (aget mask (mo + (row - ya) * maskWidth + (c - xa))) & 0xff) v else v)).
Proof.
  intros Hr Hp1 Hp2 Hp Hc Hsp Hmb Hx HxW Hy HyH Hl Hmo Hmw Hml Hmlen. pose proof Hr as [].
  assert (width (w_surface wd) <= width (w_surface wd) * height (w_surface wd)) by nia.
  assert (height (w_surface wd) <= width (w_surface wd) * height (w_surface wd)) by nia.
  unfold fillAlphaMask. rewrite !Z.geb_leb, (proj2 (Z.leb_le xa xb)), (proj2 (Z.leb_le ya yb)) by lia. cbn [andb].
  rewrite acquire_draw, Hp2 by done. set (s := set_surface_data (Some (w_pixels wd)) (w_surface wd)).
  set (wd0 := with_acquired wd s false None). change (w_surface wd0) with s.
  change (w_rdr wd0) with (w_rdr wd). change (w_freed wd0) with (w_freed wd).
  destruct (setMask_ok ALPHA_MASK mask maskWidth maskHeight false (w_rdr wd) (w_freed wd)) as (C1 & M1 & R1 & P1).
  assert (F : let r1 := (renderer_setMask ALPHA_MASK mask maskWidth maskHeight false (w_rdr wd) (w_freed wd)).1 in
    _mask_byteData r1 = Some mask /\ _ualpha r1 = _ualpha (w_rdr wd) /\ _ured r1 = _ured (w_rdr wd) /\
    _ugreen r1 = _ugreen (w_rdr wd) /\ _ublue r1 = _ublue (w_rdr wd)) by (split_and!; reflexivity).
  destruct (renderer_setMask _ _ _ _ _ _ _) as [r1 f1]. cbn [fst] in C1, M1, R1, P1. destruct F as (F1 & F2 & F3 & F4 & F5).
  cbn [fst] in F1, F2, F3, F4, F5.
  assert (Hw1 : wf r1).
  { apply (wf_changes (w_rdr wd)); [done..|rewrite M1; by right; left|rewrite R1; apply dr_wf0|rewrite P1; apply dr_wf0]. }
  rewrite (i32_id (xb - xa + 1)), (i32_id (yb - ya + 1)) by (unfold in_i32; lia). unfold draw.
  change (w_rdr (with_rdr_freed wd0 (r1, f1))) with r1. change (w_pixels (with_rdr_freed wd0 (r1, f1))) with (w_pixels wd).
  destruct (mask_draw_ok j (w_gamma (with_rdr_freed wd0 (r1, f1))) (w_invGamma (with_rdr_freed wd0 (r1, f1)))
    s (w_pixels wd) mask r1 xa xb ya yb x maskWidth mo) as (r2 & m' & E & Hd & Hm);
    rewrite ?F2, ?F3, ?F4, ?F5; try done; try congruence.
  cbv zeta. rewrite E. mred. rewrite Hd. cbn [default]. unfold id.
  rewrite throw_noop by (change (w_memError wd || false = false); by rewrite dr_noerr0).
  eexists. split; [reflexivity|]. split_and!; [reflexivity| |].
  - apply removeMask_fields.
  - eapply pointwise_ext; [|exact Hm]. intros i v _. unfold grid_fn, over_color. by rewrite F2, F3, F4, F5.
Qed.

(** C3: filling through an alpha mask with a flat colour (source-over), for a
    mask without padding ([stride = maskWidth]): the call returns without an
    exception, every pixel of the mask's rectangle inside the clip is composited
    once with the colour at the coverage of its own mask byte, [stride] bytes from
    row to row, wherever the clip cuts the rectangle, and every other pixel keeps
    its value. *)
Theorem fillAlphaMaskImpl_over j wd mask x y maskWidth maskHeight offset stride :
  draw_ready wd -> pin_surface j = true -> pin_first j = true ->
  _paintMode (w_rdr wd) = PAINT_FLAT_COLOR -> _compositeRule (w_rdr wd) = COMPOSITE_SRC_OVER ->
  (forall i v, aget (w_pixels wd) i = Some v -> sound_pixel v) ->
  mask_given mask x y maskWidth maskHeight offset -> stride = maskWidth ->
  exists wd', fillAlphaMaskImpl j mask x y maskWidth maskHeight offset stride wd = Some wd' /\
    w_exn wd' = w_exn wd /\
    pointwise (w_pixels wd) (w_pixels wd') (grid_fn (width (w_surface wd)) (fun row c v =>
      let r := w_rdr wd in
      if (inside x maskWidth c && inside y maskHeight row) &&
         ((_clip_bbMinX r <=? c) && (c <=? _clip_bbMaxX r) && ((_clip_bbMinY r <=? row) && (row <=? _clip_bbMaxY r)))
      then over_color r (default 0 (aget mask (offset + (row - y) * stride + (c - x))) & 0xff) v else v)).
Proof.
  intros Hr Hp1 Hp2 Hp Hc Hsp [Hmb Hmw Hmh Hof Hroom Hlen [Hx Hxw] [Hy Hyh]] ->. pose proof Hr as [].
  unfold fillAlphaMaskImpl. cbv zeta. rewrite !MAX_spec, !MIN_spec.
  rewrite (i32_id (x + maskWidth - 1)), (i32_id (y + maskHeight - 1)) by done.
  set (cx0 := _clip_bbMinX (w_rdr wd)) in *. set (cy0 := _clip_bbMinY (w_rdr wd)) in *.
  set (cx1 := _clip_bbMaxX (w_rdr wd)) in *. set (cy1 := _clip_bbMaxY (w_rdr wd)) in *.
  set (xa := Z.max x cx0). set (ya := Z.max y cy0).
  set (xb := Z.min (x + maskWidth - 1) cx1). set (yb := Z.min (y + maskHeight - 1) cy1).
  assert (Hclip : forall row c, inside ya (yb - ya + 1) row && inside xa (xb - xa + 1) c =
    (inside x maskWidth c && inside y maskHeight row) &&
    ((cx0 <=? c) && (c <=? cx1) && ((cy0 <=? row) && (row <=? cy1)))) by (intros; by apply inside_clip).
  destruct ((xa <=? xb) && (ya <=? yb)) eqn:Ei.
  - apply andb_true_iff in Ei as [Ex Ey]. apply Z.leb_le in Ex, Ey.
    assert (yb - y + 1 <= maskHeight /\ 0 <= ya - y /\ 0 <= xa - x) as (? & ? & ?) by lia.
    assert ((yb - y + 1) * maskWidth <= maskHeight * maskWidth) by nia.
    assert (0 <= (ya - y) * maskWidth) by nia. assert (0 <= (yb - ya) * maskWidth) by nia.
    rewrite <- (Z.add_sub_assoc _ xa x), i32_id by (unfold in_i32; lia).
    destruct (fillAlphaMask_ok j wd mask xa ya xb yb x y maskWidth maskHeight
      (offset + (ya - y) * maskWidth + (xa - x)) maskWidth) as (wd' & E & He & _ & Hm); try done; try lia.
    exists wd'. split_and!; [done..|]. eapply pointwise_ext; [|exact Hm].
    intros i v _. unfold grid_fn. rewrite Hclip. cbv zeta. case_match; [|done]. do 4 f_equal. lia.
  - exists wd. unfold fillAlphaMask. rewrite !Z.geb_leb, Ei. split_and!; [done..|].
    eapply pointwise_ext; [|apply pointwise_refl].
    intros i v _. unfold grid_fn. cbv zeta. rewrite <- Hclip. apply andb_false_iff in Ei. rewrite !Z.leb_gt in Ei.
    destruct (inside_spec ya (yb - ya + 1) (i / width (w_surface wd))),
      (inside_spec xa (xb - xa + 1) (i mod width (w_surface wd))); (done || lia).
Qed.

Lemma fillAlphaMaskImpl_over_witness :
  exists wd', fillAlphaMaskImpl all_succeed [9; 0; -1; 128; 64] (-1) 0 2 2 1 2 sample_world = Some wd' /\
    aget (w_pixels wd') 0 = Some (pack 255 200 100 50) /\
    aget (w_pixels wd') 1 = Some 0 /\
    aget (w_pixels wd') 4 = Some (blendSrcOver8888_pre 64 200 100 50 0).
Proof.
  destruct (fillAlphaMaskImpl_over all_succeed sample_world [9; 0; -1; 128; 64] (-1) 0 2 2 1 2 sample_world_ready)
    as (wd' & E & _ & Hm); [reflexivity..| | | |].
  - intros i v. apply (aget_Forall sound_pixel). forall_list.
  - split; try (vm_compute; repeat split; discriminate).
    + intros i c. apply (aget_Forall (fun c => -128 <= c <= 255)). forall_list.
  - reflexivity.
  - exists wd'. split; [exact E|]. rewrite !Hm. vm_compute. split_and!; reflexivity.
Defined.

(** A mask of two by two with a padding byte after each row: the second row is
    read from the padding on. *)
Example alpha_mask_stride :
  exists wd', fillAlphaMaskImpl all_succeed [0; 0; -1; 0; 0; -1] 0 0 2 2 0 3 sample_world = Some wd' /\
    aget (w_pixels wd') 4 = Some (pack 255 200 100 50).
Proof. eexists. split; [vm_compute; reflexivity|vm_compute; reflexivity]. Qed.
