(* ===== verification/ColorConverterSpec.v ===== *)
(** * Correctness of the frame converters

    The tables are the formulas of their comments, the two clamping macros
    agree with saturation to 0..255, no table is read out of range, and the
    converters write exactly the pixels of the frame, each within a stated
    distance of the ITU-R BT.601 value. *)

From S2P Require Import Prelude PiscesBlit ColorConverter.

(** ** The tables in closed form *)

(** [(int)(x / 10^8 + 0.49999999)] of a number in units of 10^-8. *)
Definition rounded (x : Z) : Z := (x + 49999999) / 100000000.

Definition tYY (i : Z) : Z := rounded (i * 11644 * 2 * 10000).
Definition tRV (i : Z) : Z := rounded (i * 15966 * 2 * 10000).
Definition tGU (i : Z) : Z := rounded (1356352 * 2 * 10000 - i * 3920 * 2 * 10000).
Definition tGV (i : Z) : Z := rounded (i * 8132 * 2 * 10000).
Definition tBU (i : Z) : Z := rounded (i * 20184 * 2 * 10000).

(** Half of [s], saturated to a byte. *)
Definition clamp2 (s : Z) : Z := Z.max 0 (Z.min 255 (s / 2)).

Definition tabulate (f : Z -> Z) (n : Z) : list Z := f <$> seqZ 0 n.

Lemma tabulate_get f n i : 0 <= i < n -> aget (tabulate f n) i = Some (f i).
Proof.
  intros Hi. rewrite aget_lookup by lia. unfold tabulate. rewrite list_lookup_fmap, lookup_seqZ_lt by lia.
  cbn. f_equal. f_equal. lia.
Qed.

(** The literal tables of the source are the formulas of their comments. *)
Lemma tables_closed :
  color_tYY = tabulate tYY 256 /\ color_tRV = tabulate tRV 256 /\ color_tGU = tabulate tGU 256 /\
  color_tGV = tabulate tGV 256 /\ color_tBU = tabulate tBU 256 /\
  color_tClip = tabulate (fun i => clamp2 (i - 576)) 1664.
Proof. vm_compute. split_and!; reflexivity. Qed.

Lemma color_get i : is_byte i ->
  aget color_tYY i = Some (tYY i) /\ aget color_tRV i = Some (tRV i) /\ aget color_tGU i = Some (tGU i) /\
  aget color_tGV i = Some (tGV i) /\ aget color_tBU i = Some (tBU i).
Proof.
  unfold is_byte. intros Hi. destruct tables_closed as (-> & -> & -> & -> & -> & _).
  rewrite !tabulate_get by lia. done.
Qed.

(** ** Clamping *)

Lemma TCLAMP_ok v : -576 <= v < 1088 -> TCLAMP_U8 v = Some (clamp2 v).
Proof.
  intros Hv. unfold TCLAMP_U8. destruct tables_closed as (_ & _ & _ & _ & _ & ->).
  rewrite tabulate_get by lia. do 2 f_equal. lia.
Qed.

Lemma SCLAMP_ok v : - 2 ^ 31 + 510 <= v < 2 ^ 31 -> SCLAMP_U8 v = Some (clamp2 v).
Proof.
  intros Hv. unfold SCLAMP_U8, clamp2. f_equal.
  assert (E1 : v >> 31 = if v <? 0 then -1 else 0) by (rewrite shiftr_div by lia; case_bools; dlia).
  assert (E2 : (v - 0x1fe) >> 31 = if v <? 510 then -1 else 0) by (rewrite shiftr_div by lia; case_bools; dlia).
  rewrite E1, E2. destruct (Z.ltb_spec v 0), (Z.ltb_spec v 510); try lia.
  - change (Z.lnot (-1)) with 0. rewrite Z.land_0_r. unfold u8. rewrite Z.mod_0_l by lia.
    assert (v / 2 < 0) by dlia. lia.
  - change (Z.lnot (-1)) with 0. change (u32 0) with 0. rewrite Z.lor_0_r.
    change (u32 (Z.lnot 0)) with (Z.ones 32). rewrite Z.land_ones, shiftr_div by lia. unfold u32, u8.
    rewrite (Z.mod_small v) by lia. change (2 ^ 1) with 2. assert (0 <= v / 2 <= 254) by dlia.
    rewrite (Z.mod_small (v / 2) (2 ^ 32)), (Z.mod_small (v / 2) (2 ^ 8)) by lia. lia.
  - change (u32 (Z.lnot 0)) with (Z.ones 32). rewrite Z.land_ones by lia.
    assert (E3 : (u32 v >> 1) .| Z.ones 32 = Z.ones 32).
    { rewrite shiftr_div by lia. unfold u32. rewrite (Z.mod_small v) by lia. change (2 ^ 1) with 2.
      assert (0 < v / 2 < 2 ^ 32) by dlia.
      apply Z.lor_ones_low; [lia|apply Z.log2_lt_pow2; lia]. }
    rewrite E3. assert (255 <= v / 2) by dlia. change (u8 (Z.ones 32 mod 2 ^ 32)) with 255. lia.
Qed.

(** Twice the colour value that is clamped: no channel leaves the range of the
    saturation table. *)
Definition sum_red (Y V : Z) : Z := tYY Y + (tRV V - 446).
Definition sum_green (Y U V : Z) : Z := tYY Y + (tGU U - tGV V).
Definition sum_blue (Y U : Z) : Z := tYY Y + (tBU U - 554).

Lemma sums_range Y U V : is_byte Y -> is_byte U -> is_byte V ->
  -576 <= sum_red Y V < 1088 /\ -576 <= sum_green Y U V < 1088 /\ -576 <= sum_blue Y U < 1088.
Proof.
  unfold is_byte, sum_red, sum_green, sum_blue, tYY, tRV, tGU, tGV, tBU, rounded. intros. dlia.
Qed.

(** ** Accuracy *)

(** The ITU-R BT.601 values, in units of 1/10000. *)
Definition bt601_red (Y V : Z) : Z := 11644 * (Y - 16) + 15966 * (V - 128).
Definition bt601_green (Y U V : Z) : Z := 11644 * (Y - 16) - 3920 * (U - 128) - 8132 * (V - 128).
Definition bt601_blue (Y U : Z) : Z := 11644 * (Y - 16) + 20184 * (U - 128).

Definition saturate (x : Z) : Z := Z.max 0 (Z.min 2550000 x).

Lemma clamp2_accuracy s x e : 2 * x - e <= 10000 * s <= 2 * x + e -> 0 <= e ->
  2 * saturate x - e - 10000 <= 2 * (10000 * clamp2 s) <= 2 * saturate x + e.
Proof. unfold clamp2, saturate. intros H He. dlia. Qed.

(** The colour arithmetic of the converters: for every luma and chroma
    byte the tables are read in range and the clamped channels are within 1.25
    levels (red and blue: 1.015 levels) of the saturated ITU-R BT.601 value. *)
Theorem conversion_accuracy Y U V : is_byte Y -> is_byte U -> is_byte V ->
  exists r g b,
    (yy ← aget color_tYY Y; rv ← aget color_tRV V; TCLAMP_U8 (yy + (rv - RRi))) = Some r /\
    (yy ← aget color_tYY Y; gu ← aget color_tGU U; gv ← aget color_tGV V; TCLAMP_U8 (yy + (gu - gv))) = Some g /\
    (yy ← aget color_tYY Y; bu ← aget color_tBU U; SCLAMP_U8 (yy + (bu - BBi))) = Some b /\
    Z.abs (10000 * r - saturate (bt601_red Y V)) <= 10050 /\
    Z.abs (10000 * g - saturate (bt601_green Y U V)) <= 12500 /\
    Z.abs (10000 * b - saturate (bt601_blue Y U)) <= 10150.
Proof.
  intros HY HU HV. destruct (color_get Y HY) as (-> & _). destruct (color_get U HU) as (_ & _ & -> & _ & ->).
  destruct (color_get V HV) as (_ & -> & _ & -> & _). mred.
  destruct (sums_range Y U V HY HU HV) as (Sr & Sg & Sb). unfold RRi, BBi.
  rewrite (TCLAMP_ok (tYY Y + (tRV V - 446))), (TCLAMP_ok (tYY Y + (tGU U - tGV V))),
    (SCLAMP_ok (tYY Y + (tBU U - 554))) by (unfold sum_red, sum_green, sum_blue in *; lia).
  do 3 eexists. split_and!; [reflexivity..| | |].
  - pose proof (clamp2_accuracy (sum_red Y V) (bt601_red Y V) 10100) as H.
    unfold sum_red, bt601_red, tYY, tRV, rounded, is_byte in *. Z.div_mod_to_equations. lia.
  - pose proof (clamp2_accuracy (sum_green Y U V) (bt601_green Y U V) 15000) as H.
    unfold sum_green, bt601_green, tYY, tGU, tGV, rounded, is_byte in *. Z.div_mod_to_equations. lia.
  - pose proof (clamp2_accuracy (sum_blue Y U) (bt601_blue Y U) 10300) as H.
    unfold sum_blue, bt601_blue, tYY, tBU, rounded, is_byte in *. Z.div_mod_to_equations. lia.
Qed.

Lemma conversion_accuracy_witness :
  exists r, (yy ← aget color_tYY 81; rv ← aget color_tRV 240; TCLAMP_U8 (yy + (rv - RRi))) = Some r /\
    Z.abs (10000 * r - saturate (bt601_red 81 240)) <= 10050.
Proof.
  destruct (conversion_accuracy 81 90 240) as (r & g & b & Er & _ & _ & Hr & _); [unfold is_byte; lia..|].
  exists r. split; [exact Er|exact Hr].
Defined.

(** ** Pixels *)

(** Byte [k] of the BGRA pixel for the samples [Y], [U], [V] and alpha [A]. *)
Definition bgra_byte (Y U V A k : Z) : Z :=
  if k =? 0 then clamp2 (sum_blue Y U)
  else if k =? 1 then clamp2 (sum_green Y U V)
  else if k =? 2 then clamp2 (sum_red Y V)
  else A.

Lemma aset_pointwise (m : list Z) i v : 0 <= i < alen m ->
  exists m', aset m i v = Some m' /\ pointwise m m' (fun j w => if j =? i then v else w).
Proof.
  intros Hi. destruct (aset_ok m i v Hi) as (m' & E & H). exists m'. split; [done|].
  intros j. rewrite H. destruct (Z.eqb_spec j i) as [->|]; [|by destruct (aget m j)].
  destruct (aget_ex m i Hi) as [w ->]. done.
Qed.

(** The macros on a value in the range of the sums. *)
Definition clamps (f : Z -> option Z) : Prop := forall s, -576 <= s < 1088 -> f s = Some (clamp2 s).

Lemma TCLAMP_clamps : clamps TCLAMP_U8.
Proof. exact TCLAMP_ok. Qed.

Lemma SCLAMP_clamps : clamps SCLAMP_U8.
Proof. intros s Hs. apply SCLAMP_ok. lia. Qed.

(** The colour bytes of one pixel. *)
Definition color_fn (da Y U V j w : Z) : Z :=
  if (da <=? j) && (j <? da + 3) then bgra_byte Y U V 0 (j - da) else w.

Lemma put_color_ok green blue Y U V da m : clamps green -> clamps blue ->
  is_byte Y -> is_byte U -> is_byte V -> 0 <= da -> da + 3 <= alen m ->
  exists m', put_color green blue (tYY Y) (tRV V - RRi) (tGU U - tGV V) (tBU U - BBi) da m = Some m' /\
    pointwise m m' (color_fn da Y U V).
Proof.
  intros Hg Hb HY HU HV Hda Hlen. destruct (sums_range Y U V HY HU HV) as (Sr & Sg & Sb).
  unfold put_color, RRi, BBi. fold (sum_red Y V) (sum_green Y U V) (sum_blue Y U).
  rewrite TCLAMP_ok, Hg, Hb by done. mred.
  destruct (aset_pointwise m (da + 2) (clamp2 (sum_red Y V))) as (m1 & -> & H1); [lia|]. mred.
  destruct (aset_pointwise m1 (da + 1) (clamp2 (sum_green Y U V))) as (m2 & -> & H2);
    [rewrite (pointwise_alen _ _ _ H1); lia|]. mred.
  pose proof (pointwise_trans _ _ _ _ _ H1 H2) as H12.
  destruct (aset_pointwise m2 da (clamp2 (sum_blue Y U))) as (m3 & -> & H3);
    [rewrite (pointwise_alen _ _ _ H12); lia|].
  exists m3. split; [done|]. eapply pointwise_ext; [|exact (pointwise_trans _ _ _ _ _ H12 H3)].
  intros j w _. unfold color_fn, bgra_byte. case_bools; done.
Qed.

(** Four alpha bytes. *)
Lemma put_alpha_ok a1 a2 a3 a4 da1 da2 m : 0 <= da1 -> da1 + 8 <= da2 -> da2 + 8 <= alen m ->
  exists m', put_alpha (Some a1) (Some a2) (Some a3) (Some a4) da1 da2 m = Some m' /\
    pointwise m m' (fun j w => if j =? da1 + 3 then a1 else if j =? da1 + 7 then a2
                               else if j =? da2 + 3 then a3 else if j =? da2 + 7 then a4 else w).
Proof.
  intros H1 H2 H3. unfold put_alpha. mred.
  destruct (aset_pointwise m (da1 + 3) a1) as (m1 & -> & P1); [lia|]. mred.
  destruct (aset_pointwise m1 (da1 + 7) a2) as (m2 & -> & P2); [rewrite (pointwise_alen _ _ _ P1); lia|]. mred.
  pose proof (pointwise_trans _ _ _ _ _ P1 P2) as P12.
  destruct (aset_pointwise m2 (da2 + 3) a3) as (m3 & -> & P3); [rewrite (pointwise_alen _ _ _ P12); lia|]. mred.
  pose proof (pointwise_trans _ _ _ _ _ P12 P3) as P123.
  destruct (aset_pointwise m3 (da2 + 7) a4) as (m4 & -> & P4); [rewrite (pointwise_alen _ _ _ P123); lia|].
  exists m4. split; [done|]. eapply pointwise_ext; [|exact (pointwise_trans _ _ _ _ _ P123 P4)].
  intros j w _. cbv beta. case_bools; done.
Qed.

(** Samples of a plane, as the loops read them. *)
Definition sample (p : list Z) (i : Z) : Z := default 0 (aget p i).

Definition is_plane (p : list Z) : Prop := forall i x, aget p i = Some x -> is_byte x.

Lemma plane_sample p i : is_plane p -> 0 <= i < alen p -> aget p i = Some (sample p i) /\ is_byte (sample p i).
Proof. intros Hp Hi. unfold sample. destruct (aget_ex p i Hi) as [x Hx]. rewrite Hx. simpl. eauto. Qed.

Lemma luma_ok y i : is_plane y -> 0 <= i < alen y -> luma y i = Some (tYY (sample y i)).
Proof.
  intros Hy Hi. destruct (plane_sample y i Hy Hi) as [E B]. unfold luma. rewrite E. mred. apply (color_get _ B).
Qed.

Lemma chroma_ok u v i k : is_plane u -> is_plane v -> 0 <= i < alen u -> 0 <= k < alen v ->
  chroma u v i k = Some (tRV (sample v k) - RRi, tGU (sample u i) - tGV (sample v k), tBU (sample u i) - BBi).
Proof.
  intros Hu Hv Hi Hk. destruct (plane_sample u i Hu Hi) as [E B], (plane_sample v k Hv Hk) as [E' B'].
  unfold chroma. rewrite E, E'. mred. destruct (color_get _ B) as (_ & _ & -> & _ & ->).
  destruct (color_get _ B') as (_ & -> & _ & -> & _). done.
Qed.

(** Eight bytes of two adjacent pixels. *)
Definition pair_byte (Y0 Y1 U V A0 A1 k : Z) : Z :=
  if k <? 4 then bgra_byte Y0 U V A0 k else bgra_byte Y1 U V A1 (k - 4).

Lemma color_fn_out da Y U V j w : j < da \/ da + 3 <= j -> color_fn da Y U V j w = w.
Proof. intros. unfold color_fn. case_bools; done. Qed.

Lemma pair_fn da Y0 Y1 U V A0 A1 j w :
  (if j =? da + 3 then A0 else if j =? da + 7 then A1
   else color_fn (da + 4) Y1 U V j (color_fn da Y0 U V j w)) =
  span_fn da 8 (fun k _ => pair_byte Y0 Y1 U V A0 A1 k) j w.
Proof.
  unfold span_fn. destruct (Z.leb_spec da j), (Z.ltb_spec j (da + 8)); cbn [andb].
  2-4: rewrite !color_fn_out by lia; case_bools; done.
  unfold pair_byte, color_fn, bgra_byte.
  destruct (Z.eqb_spec j (da + 3)) as [->|]; [by case_bools|].
  destruct (Z.eqb_spec j (da + 7)) as [->|]; [by case_bools|].
  destruct (Z.ltb_spec (j - da) 4).
  - assert (E : (da + 4 <=? j) = false) by (apply Z.leb_gt; lia). rewrite E.
    assert (E' : (j <? da + 3) = true) by (apply Z.ltb_lt; lia). rewrite E'.
    assert (E'' : (da <=? j) = true) by (apply Z.leb_le; lia). rewrite E''. cbn [andb].
    destruct (Z.eqb_spec (j - da) 0), (Z.eqb_spec (j - da) 1), (Z.eqb_spec (j - da) 2); (done || lia).
  - assert (E : (da + 4 <=? j) = true) by (apply Z.leb_le; lia). rewrite E.
    assert (E' : (j <? da + 4 + 3) = true) by (apply Z.ltb_lt; lia). rewrite E'. cbn [andb].
    replace (j - (da + 4)) with (j - da - 4) by lia.
    destruct (Z.eqb_spec (j - da - 4) 0), (Z.eqb_spec (j - da - 4) 1), (Z.eqb_spec (j - da - 4) 2); (done || lia).
Qed.

(** A block of two by two pixels. *)
Lemma block_ok y u v say1 say2 sau sav da1 da2 a1 a2 a3 a4 m :
  is_plane y -> is_plane u -> is_plane v ->
  0 <= say1 -> say1 + 1 < alen y -> 0 <= say2 -> say2 + 1 < alen y -> 0 <= sau < alen u -> 0 <= sav < alen v ->
  0 <= da1 -> da1 + 8 <= da2 -> da2 + 8 <= alen m ->
  exists m1 m2, put_block y u v say1 say2 sau sav da1 da2 m = Some m1 /\
    put_alpha (Some a1) (Some a2) (Some a3) (Some a4) da1 da2 m1 = Some m2 /\
    pointwise m m2 (fun j w =>
      span_fn da2 8 (fun k _ => pair_byte (sample y say2) (sample y (say2 + 1)) (sample u sau) (sample v sav) a3 a4 k) j
        (span_fn da1 8 (fun k _ => pair_byte (sample y say1) (sample y (say1 + 1)) (sample u sau) (sample v sav) a1 a2 k) j w)).
Proof.
  intros Hy Hu Hv ? ? ? ? ? ? Hda1 Hda2 Hlen. unfold put_block.
  rewrite chroma_ok, !luma_ok by (done || lia). mred.
  destruct (plane_sample y say1 Hy) as [_ B1]; [lia|]. destruct (plane_sample y (say1 + 1) Hy) as [_ B3]; [lia|].
  destruct (plane_sample y say2 Hy) as [_ B2]; [lia|]. destruct (plane_sample y (say2 + 1) Hy) as [_ B4]; [lia|].
  destruct (plane_sample u sau Hu) as [_ BU]; [lia|]. destruct (plane_sample v sav Hv) as [_ BV]; [lia|].
  edestruct (put_color_ok TCLAMP_U8 SCLAMP_U8) as (m1 & -> & P1);
    [exact TCLAMP_clamps|exact SCLAMP_clamps|exact B1|exact BU|exact BV|lia| |]; [lia|]. mred.
  pose proof (pointwise_alen _ _ _ P1) as L1.
  edestruct (put_color_ok TCLAMP_U8 SCLAMP_U8) as (m2 & -> & P2);
    [exact TCLAMP_clamps|exact SCLAMP_clamps|exact B3|exact BU|exact BV| | |]; [lia..|]. mred.
  pose proof (pointwise_alen _ _ _ P2) as L2. pose proof (pointwise_trans _ _ _ _ _ P1 P2) as P12.
  edestruct (put_color_ok TCLAMP_U8 SCLAMP_U8) as (m3 & -> & P3);
    [exact TCLAMP_clamps|exact SCLAMP_clamps|exact B2|exact BU|exact BV| | |]; [lia..|]. mred.
  pose proof (pointwise_alen _ _ _ P3) as L3. pose proof (pointwise_trans _ _ _ _ _ P12 P3) as P123.
  edestruct (put_color_ok SCLAMP_U8 TCLAMP_U8) as (m4 & -> & P4);
    [exact SCLAMP_clamps|exact TCLAMP_clamps|exact B4|exact BU|exact BV| | |]; [lia..|].
  pose proof (pointwise_alen _ _ _ P4) as L4. pose proof (pointwise_trans _ _ _ _ _ P123 P4) as P1234.
  destruct (put_alpha_ok a1 a2 a3 a4 da1 da2 m4) as (m5 & E5 & P5); [lia..|].
  exists m4, m5. split_and!; [done|done|]. eapply pointwise_ext; [|exact (pointwise_trans _ _ _ _ _ P1234 P5)].
  intros j w _. cbv beta. rewrite <- !pair_fn.
  destruct (Z.lt_ge_cases j da2).
  - rewrite !(color_fn_out da2), !(color_fn_out (da2 + 4)) by lia. case_bools; done.
  - rewrite !(color_fn_out da1), !(color_fn_out (da1 + 4)) by lia. case_bools; done.
Qed.

(** ** The 4:2:0 loops *)

(** What the caller of the 4:2:0 converters provides: an even frame, strides
    that hold a row, planes and destination that hold the frame. *)
Record frame_420p (bgra_stride width height y_stride v_stride u_stride : Z) (y v u m : list Z) : Prop := {
  f4_width : 0 < width;
  f4_height : 0 < height;
  f4_even_w : width mod 2 = 0;
  f4_even_h : height mod 2 = 0;
  f4_stride : 4 * width <= bgra_stride;
  f4_ys : width <= y_stride;
  f4_us : width / 2 <= u_stride;
  f4_vs : width / 2 <= v_stride;
  f4_m : height * bgra_stride <= alen m;
  f4_y : height * y_stride <= alen y;
  f4_u : height / 2 * u_stride <= alen u;
  f4_v : height / 2 * v_stride <= alen v;
  f4_py : is_plane y;
  f4_pu : is_plane u;
  f4_pv : is_plane v
}.

(** Byte [off] of row [row] of the converted frame; [A] gives the alpha. *)
Definition frame_byte (y_stride v_stride u_stride : Z) (y v u : list Z) (A : Z -> Z -> Z) (row off : Z) : Z :=
  let col := off / 4 in
  bgra_byte (sample y (row * y_stride + col)) (sample u (row / 2 * u_stride + col / 2))
    (sample v (row / 2 * v_stride + col / 2)) (A row col) (off mod 4).

Lemma pair_byte_frame ys vs us y v u A row i k : 0 <= k < 8 -> 0 <= i ->
  pair_byte (sample y (row * ys + 2 * i)) (sample y (row * ys + 2 * i + 1)) (sample u (row / 2 * us + i))
    (sample v (row / 2 * vs + i)) (A row (2 * i)) (A row (2 * i + 1)) k =
  frame_byte ys vs us y v u A row (8 * i + k).
Proof.
  intros Hk Hi. unfold frame_byte, pair_byte. destruct (Z.ltb_spec k 4).
  - assert (E1 : (8 * i + k) / 4 = 2 * i) by dlia. assert (E2 : (8 * i + k) mod 4 = k) by dlia.
    assert (E3 : 2 * i / 2 = i) by dlia. by rewrite E1, E2, E3.
  - assert (E1 : (8 * i + k) / 4 = 2 * i + 1) by dlia. assert (E2 : (8 * i + k) mod 4 = k - 4) by dlia.
    assert (E3 : (2 * i + 1) / 2 = i) by dlia. rewrite E1, E2, E3. f_equal. f_equal. lia.
Qed.

(** Two rows of bytes extended by one block. *)
Lemma spans_step d1 d2 n c1 c2 f1 f2 j w : 0 <= n -> d1 + n + 8 <= d2 ->
  (forall k, 0 <= k < 8 -> f1 k = c1 (n + k)) -> (forall k, 0 <= k < 8 -> f2 k = c2 (n + k)) ->
  span_fn (d2 + n) 8 (fun k _ => f2 k) j (span_fn (d1 + n) 8 (fun k _ => f1 k) j
    (span_fn d2 n (fun k _ => c2 k) j (span_fn d1 n (fun k _ => c1 k) j w))) =
  span_fn d2 (n + 8) (fun k _ => c2 k) j (span_fn d1 (n + 8) (fun k _ => c1 k) j w).
Proof.
  intros Hn Hd H1 H2. unfold span_fn.
  destruct (Z.lt_ge_cases j d2).
  - rewrite !(proj2 (Z.leb_gt d2 j)), (proj2 (Z.leb_gt (d2 + n) j)) by lia. cbn [andb].
    case_bools; try done. rewrite H1 by lia. f_equal. lia.
  - replace (j <? d1 + n + 8) with false by (symmetry; apply Z.ltb_ge; lia).
    replace (j <? d1 + n) with false by (symmetry; apply Z.ltb_ge; lia).
    replace (j <? d1 + (n + 8)) with false by (symmetry; apply Z.ltb_ge; lia).
    rewrite !andb_false_r. case_bools; try done. rewrite H2 by lia. f_equal. lia.
Qed.

Section convert_420p.
Context (bgra_stride width height y_stride v_stride u_stride a_stride : Z) (y v u m0 : list Z).
Context (alpha : Z -> Z -> Z -> Z -> list Z -> option (list Z)) (A : Z -> Z -> Z).
Context (Hf : frame_420p bgra_stride width height y_stride v_stride u_stride y v u m0).
(** The alpha the body stores is [A] of row and column. *)
Context (Halpha : forall r i da1 da2 m, 0 <= r < height / 2 -> 0 <= i < width / 2 ->
  alpha (2 * r * a_stride + 2 * i) ((2 * r + 1) * a_stride + 2 * i) da1 da2 m =
  put_alpha (Some (A (2 * r) (2 * i))) (Some (A (2 * r) (2 * i + 1)))
    (Some (A (2 * r + 1) (2 * i))) (Some (A (2 * r + 1) (2 * i + 1))) da1 da2 m).

Definition byte_at : Z -> Z -> Z := frame_byte y_stride v_stride u_stride y v u A.

(** The first [n] bytes of rows [2 r] and [2 r + 1]. *)
Definition two_rows (r n j w : Z) : Z :=
  span_fn ((2 * r + 1) * bgra_stride) n (fun k _ => byte_at (2 * r + 1) k) j
    (span_fn (2 * r * bgra_stride) n (fun k _ => byte_at (2 * r) k) j w).

(** The block in column [i] of the pair of rows [r]. *)
Lemma frame_block_ok r i m : 0 <= r < height / 2 -> 0 <= i < width / 2 -> alen m = alen m0 ->
  exists m1 m2,
    put_block y u v (2 * r * y_stride + 2 * i) ((2 * r + 1) * y_stride + 2 * i) (r * u_stride + i) (r * v_stride + i)
      (2 * r * bgra_stride + 8 * i) ((2 * r + 1) * bgra_stride + 8 * i) m = Some m1 /\
    alpha (2 * r * a_stride + 2 * i) ((2 * r + 1) * a_stride + 2 * i)
      (2 * r * bgra_stride + 8 * i) ((2 * r + 1) * bgra_stride + 8 * i) m1 = Some m2 /\
    pointwise m m2 (fun j w =>
      span_fn ((2 * r + 1) * bgra_stride + 8 * i) 8 (fun k _ => byte_at (2 * r + 1) (8 * i + k)) j
        (span_fn (2 * r * bgra_stride + 8 * i) 8 (fun k _ => byte_at (2 * r) (8 * i + k)) j w)).
Proof using Hf Halpha.
  intros Hr Hi Hl. destruct Hf.
  assert (Hw : 2 * (width / 2) = width) by dlia. assert (Hh : 2 * (height / 2) = height) by dlia.
  assert ((2 * r + 2) * bgra_stride <= height * bgra_stride) by nia.
  assert ((2 * r + 2) * y_stride <= height * y_stride) by nia.
  assert ((r + 1) * u_stride <= height / 2 * u_stride) by nia.
  assert ((r + 1) * v_stride <= height / 2 * v_stride) by nia.
  assert (0 <= r * y_stride /\ 0 <= r * u_stride /\ 0 <= r * v_stride /\ 0 <= r * bgra_stride) by nia.
  destruct (block_ok y u v (2 * r * y_stride + 2 * i) ((2 * r + 1) * y_stride + 2 * i) (r * u_stride + i)
    (r * v_stride + i) (2 * r * bgra_stride + 8 * i) ((2 * r + 1) * bgra_stride + 8 * i)
    (A (2 * r) (2 * i)) (A (2 * r) (2 * i + 1)) (A (2 * r + 1) (2 * i)) (A (2 * r + 1) (2 * i + 1)) m)
    as (m1 & m2 & E1 & E2 & Hm); [done|done|done|lia..|].
  exists m1, m2. split; [done|]. rewrite Halpha by lia. split; [done|].
  assert (D0 : 2 * r / 2 = r) by dlia. assert (D1 : (2 * r + 1) / 2 = r) by dlia.
  eapply pointwise_ext; [|exact Hm]. intros j w _. unfold span_fn.
  destruct (_ && _) eqn:B1; [|destruct ((2 * r * bgra_stride + 8 * i <=? j) && _) eqn:B2; [|done]].
  - apply andb_true_iff in B1 as [?%Z.leb_le ?%Z.ltb_lt]. unfold byte_at; rewrite <- pair_byte_frame by lia. by rewrite D1.
  - apply andb_true_iff in B2 as [?%Z.leb_le ?%Z.ltb_lt]. unfold byte_at; rewrite <- pair_byte_frame by lia. by rewrite D0.
Qed.

Lemma row_420p_ok r m : 0 <= r < height / 2 -> alen m = alen m0 ->
  exists m', row_420p width y v u alpha (2 * r * y_stride) ((2 * r + 1) * y_stride) (r * u_stride) (r * v_stride)
      (2 * r * bgra_stride) ((2 * r + 1) * bgra_stride) (2 * r * a_stride) ((2 * r + 1) * a_stride) m = Some m' /\
    pointwise m m' (two_rows r (4 * width)).
Proof using Hf Halpha.
  intros Hr Hl. unfold row_420p. rewrite shiftr_div by lia. change (2 ^ 1) with 2.
  pose proof Hf as [? ? ? ? ? _ _ _ _ _ _ _ _ _ _]. assert (Hw : 2 * (width / 2) = width) by dlia.
  destruct (for_lt_inv (fun i '(say1, say2, sau, sav, da1, da2, a1, a2, m') =>
      (say1, say2, sau, sav, da1, da2, a1, a2) =
        (2 * r * y_stride + 2 * i, (2 * r + 1) * y_stride + 2 * i, r * u_stride + i, r * v_stride + i,
         2 * r * bgra_stride + 8 * i, (2 * r + 1) * bgra_stride + 8 * i,
         2 * r * a_stride + 2 * i, (2 * r + 1) * a_stride + 2 * i) /\ pointwise m m' (two_rows r (8 * i)))
      (width / 2)
      (fun _ '(say1, say2, sau, sav, da1, da2, a_col1, a_col2, m) =>
         m ← put_block y u v say1 say2 sau sav da1 da2 m;
         m ← alpha a_col1 a_col2 da1 da2 m;
         Some (say1 + 2, say2 + 2, sau + 1, sav + 1, da1 + 8, da2 + 8, a_col1 + 2, a_col2 + 2, m))
      (2 * r * y_stride, (2 * r + 1) * y_stride, r * u_stride, r * v_stride, 2 * r * bgra_stride,
       (2 * r + 1) * bgra_stride, 2 * r * a_stride, (2 * r + 1) * a_stride, m))
    as ([[[[[[[[? ?] ?] ?] ?] ?] ?] ?] m'] & -> & _ & Hm').
  - split; [rewrite !pair_equal_spec; split_and!; lia|]. eapply pointwise_ext; [|apply pointwise_refl].
    intros j w _. unfold two_rows. by rewrite !span_fn_0.
  - intros i [[[[[[[[? ?] ?] ?] ?] ?] ?] ?] m1] Hi [E Hm1]. simplify_eq.
    destruct (frame_block_ok r i m1 Hr Hi) as (m2 & m3 & -> & E3 & Hm3); [rewrite (pointwise_alen _ _ _ Hm1); lia|].
    mred. rewrite E3. mred. eexists; split; [done|]. split; [rewrite !pair_equal_spec; split_and!; lia|].
    eapply pointwise_ext; [|exact (pointwise_trans _ _ _ _ _ Hm1 Hm3)].
    intros j w _. unfold two_rows. replace (8 * (i + 1)) with (8 * i + 8) by lia.
    apply spans_step; [lia|nia|done|done].
  - mred. exists m'. split; [done|]. replace (Z.max 0 (width / 2)) with (width / 2) in Hm' by dlia.
    by replace (4 * width) with (8 * (width / 2)) by lia.
Qed.

(** The whole frame: [4 * width] bytes in each row of the destination. *)
Lemma convert_420p_ok :
  exists m', convert_420p bgra_stride width height y_stride v_stride u_stride a_stride y v u alpha m0 = Some m' /\
    pointwise m0 m' (rect_fn 0 bgra_stride (4 * width) height (fun row off _ => byte_at row off)).
Proof using Hf Halpha.
  unfold convert_420p. rewrite shiftr_div, shiftl_mul by lia. change (2 ^ 1) with 2.
  pose proof Hf as [? ? ? ? ? _ _ _ _ _ _ _ _ _ _]. assert (Hh : 2 * (height / 2) = height) by dlia.
  destruct (for_lt_inv (fun r '(sly1, sly2, slu, slv, dl1, dl2, a1, a2, m') =>
      (sly1, sly2, slu, slv, dl1, dl2, a1, a2) =
        (2 * r * y_stride, (2 * r + 1) * y_stride, r * u_stride, r * v_stride,
         2 * r * bgra_stride, (2 * r + 1) * bgra_stride, 2 * r * a_stride, (2 * r + 1) * a_stride) /\
      pointwise m0 m' (rect_fn 0 bgra_stride (4 * width) (2 * r) (fun row off _ => byte_at row off)))
      (height / 2)
      (fun _ '(sly1, sly2, slu, slv, dl1, dl2, a_row1, a_row2, m) =>
         m ← row_420p width y v u alpha sly1 sly2 slu slv dl1 dl2 a_row1 a_row2 m;
         Some (sly1 + 2 * y_stride, sly2 + 2 * y_stride, slu + u_stride, slv + v_stride,
               dl1 + 2 * bgra_stride, dl2 + 2 * bgra_stride,
               a_row1 + a_stride * 2, a_row2 + a_stride * 2, m))
      (0, y_stride, 0, 0, 0, bgra_stride, 0, a_stride, m0))
    as ([[[[[[[[? ?] ?] ?] ?] ?] ?] ?] m'] & -> & _ & Hm').
  - split; [rewrite !pair_equal_spec; split_and!; lia|]. eapply pointwise_ext; [|apply pointwise_refl].
    intros j w _. by rewrite rect_fn_0.
  - intros r [[[[[[[[? ?] ?] ?] ?] ?] ?] ?] m1] Hr [E Hm1]. simplify_eq.
    destruct (row_420p_ok r m1 Hr (pointwise_alen _ _ _ Hm1)) as (m2 & -> & Hm2).
    mred. eexists; split; [done|]. split; [rewrite !pair_equal_spec; split_and!; lia|].
    eapply pointwise_ext; [|exact (pointwise_trans _ _ _ _ _ Hm1 Hm2)].
    intros j w _. unfold two_rows. replace (2 * (r + 1)) with (2 * r + 1 + 1) by lia.
    rewrite <- (rect_fn_step 0 bgra_stride (4 * width) (2 * r + 1)), <- (rect_fn_step 0 bgra_stride (4 * width) (2 * r))
      by lia. by rewrite !Z.add_0_l.
  - mred. exists m'. split; [done|]. replace (Z.max 0 (height / 2)) with (height / 2) in Hm' by dlia.
    by rewrite Hh in Hm'.
Qed.
End convert_420p.

Lemma even_checks bs width height ys vs us y v u m : frame_420p bs width height ys vs us y v u m ->
  bad_420p width height = false.
Proof.
  intros []. unfold bad_420p. rewrite (proj2 (Z.leb_gt width 0)), (proj2 (Z.leb_gt height 0)) by done. cbn [orb].
  rewrite Z.land_lor_distr_l, ctrue_lor. rewrite !(land_mask _ 1) by (done || lia). change (2 ^ 1) with 2.
  by rewrite f4_even_w0, f4_even_h0.
Qed.

(** The plane [a], with stride [a_stride], holds the alpha of the frame. *)
Record alpha_420p (width height a_stride : Z) (a : list Z) : Prop := {
  al_stride : width <= a_stride;
  al_room : height * a_stride <= alen a
}.

Lemma alpha_block width height a_stride a r i da1 da2 m : alpha_420p width height a_stride a ->
  width mod 2 = 0 -> height mod 2 = 0 -> 0 <= r < height / 2 -> 0 <= i < width / 2 ->
  put_alpha (aget a (2 * r * a_stride + 2 * i)) (aget a (2 * r * a_stride + 2 * i + 1))
    (aget a ((2 * r + 1) * a_stride + 2 * i)) (aget a ((2 * r + 1) * a_stride + 2 * i + 1)) da1 da2 m =
  put_alpha (Some (sample a (2 * r * a_stride + 2 * i))) (Some (sample a (2 * r * a_stride + (2 * i + 1))))
    (Some (sample a ((2 * r + 1) * a_stride + 2 * i))) (Some (sample a ((2 * r + 1) * a_stride + (2 * i + 1)))) da1 da2 m.
Proof.
  intros [Hs Hl] Hw Hh Hr Hi. assert (2 * (width / 2) = width) by dlia. assert (2 * (height / 2) = height) by dlia.
  assert ((2 * r + 2) * a_stride <= height * a_stride) by nia. assert (0 <= r * a_stride) by nia.
  assert (G : forall i, 0 <= i < alen a -> aget a i = Some (sample a i)).
  { intros k Hk. unfold sample. by destruct (aget_ex a k Hk) as [x ->]. }
  rewrite !G by lia. by rewrite !Z.add_assoc.
Qed.

(** The 4:2:0 converter with an alpha plane stores the alpha samples; the colours
    are not multiplied by them. *)
Lemma YCbCr420p_to_BGRA32_spec bgra_stride width height y_stride v_stride u_stride a_stride y v u a m :
  frame_420p bgra_stride width height y_stride v_stride u_stride y v u m ->
  alpha_420p width height a_stride a ->
  exists m', ColorConvert_YCbCr420p_to_BGRA32 (Some m) bgra_stride width height (Some y) (Some v) (Some u) (Some a)
      y_stride v_stride u_stride a_stride = Some (0, Some m') /\
    pointwise m m' (rect_fn 0 bgra_stride (4 * width) height (fun row off _ =>
      frame_byte y_stride v_stride u_stride y v u (fun row col => sample a (row * a_stride + col)) row off)).
Proof.
  intros Hf Ha. unfold ColorConvert_YCbCr420p_to_BGRA32. rewrite (even_checks _ _ _ _ _ _ _ _ _ _ Hf).
  edestruct (convert_420p_ok bgra_stride width height y_stride v_stride u_stride a_stride y v u m
    (fun a_col1 a_col2 da1 da2 m => a ← Some a;
       put_alpha (aget a a_col1) (aget a (a_col1 + 1)) (aget a a_col2) (aget a (a_col2 + 1)) da1 da2 m)
    (fun row col => sample a (row * a_stride + col)) Hf) as (m' & -> & Hm').
  - intros r i da1 da2 m1 Hr Hi. mred. eapply alpha_block; [exact Ha|apply Hf|apply Hf|done|done].
  - mred. exists m'. split; [done|exact Hm'].
Qed.

(** C38: the 4:2:0 converter without an alpha plane: on an even frame whose planes
    and destination hold it, it returns 0 without reading or writing out of
    bounds; byte [off] of row [row] of the destination is the channel
    [off mod 4] of the pixel in column [off / 4], computed from its own luma
    sample and from the chroma sample it shares with its two by two block, with
    every pixel opaque, and the padding of the rows and everything behind the
    frame is kept. *)
Theorem YCbCr420p_to_BGRA32_no_alpha_spec bgra_stride width height y_stride v_stride u_stride y v u m :
  frame_420p bgra_stride width height y_stride v_stride u_stride y v u m ->
  exists m', ColorConvert_YCbCr420p_to_BGRA32_no_alpha (Some m) bgra_stride width height (Some y) (Some v) (Some u)
      y_stride v_stride u_stride = Some (0, Some m') /\
    pointwise m m' (rect_fn 0 bgra_stride (4 * width) height (fun row off _ =>
      frame_byte y_stride v_stride u_stride y v u (fun _ _ => 255) row off)).
Proof.
  intros Hf. unfold ColorConvert_YCbCr420p_to_BGRA32_no_alpha. rewrite (even_checks _ _ _ _ _ _ _ _ _ _ Hf).
  edestruct (convert_420p_ok bgra_stride width height y_stride v_stride u_stride 0 y v u m
    (fun _ _ da1 da2 m => put_alpha (Some 0xff) (Some 0xff) (Some 0xff) (Some 0xff) da1 da2 m)
    (fun _ _ => 255) Hf) as (m' & -> & Hm'); [done|].
  mred. exists m'. split; [done|exact Hm'].
Qed.

(** A frame of two by two pixels, rows of nine bytes. *)
Lemma sample_frame : frame_420p 9 2 2 2 1 1 [16; 81; 145; 235] [240] [90] (replicate 18 7).
Proof.
  split; try (vm_compute; repeat split; (discriminate || reflexivity)).
  all: intros i x; apply (aget_Forall is_byte); forall_list.
Qed.

Lemma YCbCr420p_to_BGRA32_spec_witness :
  exists m', ColorConvert_YCbCr420p_to_BGRA32 (Some (replicate 18 7)) 9 2 2 (Some [16; 81; 145; 235]) (Some [240])
      (Some [90]) (Some [1; 2; 3; 4]) 2 1 1 2 = Some (0, Some m') /\
    aget m' 6 = Some 254 /\ aget m' 7 = Some 2 /\ aget m' 8 = Some 7.
Proof.
  destruct (YCbCr420p_to_BGRA32_spec 9 2 2 2 1 1 2 [16; 81; 145; 235] [240] [90] [1; 2; 3; 4] (replicate 18 7)
    sample_frame) as (m' & E & Hm').
  - split; vm_compute; discriminate.
  - exists m'. split; [exact E|]. rewrite !Hm'. vm_compute. split_and!; reflexivity.
Defined.

Lemma YCbCr420p_to_BGRA32_no_alpha_spec_witness :
  exists m', ColorConvert_YCbCr420p_to_BGRA32_no_alpha (Some (replicate 18 7)) 9 2 2 (Some [16; 81; 145; 235])
      (Some [240]) (Some [90]) 2 1 1 = Some (0, Some m') /\
    aget m' 6 = Some 254 /\ aget m' 7 = Some 255 /\ aget m' 8 = Some 7.
Proof.
  destruct (YCbCr420p_to_BGRA32_no_alpha_spec 9 2 2 2 1 1 [16; 81; 145; 235] [240] [90] (replicate 18 7)
    sample_frame) as (m' & E & Hm').
  exists m'. split; [exact E|]. rewrite !Hm'. vm_compute. split_and!; reflexivity.
Defined.

(** ** The 4:2:2 converter *)

(** What its caller provides: [y], [u] and [v] are the packed frame from its
    first luma, first Cb and first Cr byte on. *)
Record frame_422p (bgra_stride width height y_stride uv_stride : Z) (y v u m : list Z) : Prop := {
  f2_width : 0 < width;
  f2_height : 0 < height;
  f2_even : width mod 2 = 0;
  f2_stride : 4 * width <= bgra_stride;
  f2_ys : 2 * width - 1 <= y_stride;
  f2_uvs : 2 * width - 3 <= uv_stride;
  f2_m : height * bgra_stride <= alen m;
  f2_y : (height - 1) * y_stride + 2 * width - 1 <= alen y;
  f2_u : (height - 1) * uv_stride + 2 * width - 3 <= alen u;
  f2_v : (height - 1) * uv_stride + 2 * width - 3 <= alen v;
  f2_py : is_plane y;
  f2_pu : is_plane u;
  f2_pv : is_plane v
}.

Definition packed_byte (y_stride uv_stride : Z) (y v u : list Z) (row off : Z) : Z :=
  let col := off / 4 in
  bgra_byte (sample y (row * y_stride + 2 * col)) (sample u (row * uv_stride + 4 * (col / 2)))
    (sample v (row * uv_stride + 4 * (col / 2))) 255 (off mod 4).

Lemma pair_byte_packed ys uvs y v u row i k : 0 <= k < 8 -> 0 <= i ->
  pair_byte (sample y (row * ys + 4 * i)) (sample y (row * ys + 4 * i + 2)) (sample u (row * uvs + 4 * i))
    (sample v (row * uvs + 4 * i)) 255 255 k = packed_byte ys uvs y v u row (8 * i + k).
Proof.
  intros Hk Hi. unfold packed_byte, pair_byte. destruct (Z.ltb_spec k 4).
  - assert (E1 : (8 * i + k) / 4 = 2 * i) by dlia. assert (E2 : (8 * i + k) mod 4 = k) by dlia.
    assert (E3 : 2 * i / 2 = i) by dlia. rewrite E1, E2, E3. do 2 f_equal. lia.
  - assert (E1 : (8 * i + k) / 4 = 2 * i + 1) by dlia. assert (E2 : (8 * i + k) mod 4 = k - 4) by dlia.
    assert (E3 : (2 * i + 1) / 2 = i) by dlia. rewrite E1, E2, E3. do 2 f_equal. lia.
Qed.

(** A pair of pixels. *)
Lemma pair_ok y u v say1 sau sav da1 m : is_plane y -> is_plane u -> is_plane v ->
  0 <= say1 -> say1 + 2 < alen y -> 0 <= sau < alen u -> 0 <= sav < alen v -> 0 <= da1 -> da1 + 8 <= alen m ->
  exists m', put_pair y u v say1 sau sav da1 m = Some m' /\
    pointwise m m' (span_fn da1 8 (fun k _ =>
      pair_byte (sample y say1) (sample y (say1 + 2)) (sample u sau) (sample v sav) 255 255 k)).
Proof.
  intros Hy Hu Hv ? ? ? ? Hda Hlen. unfold put_pair. rewrite chroma_ok, !luma_ok by (done || lia). mred.
  destruct (plane_sample y say1 Hy) as [_ B1]; [lia|]. destruct (plane_sample y (say1 + 2) Hy) as [_ B3]; [lia|].
  destruct (plane_sample u sau Hu) as [_ BU]; [lia|]. destruct (plane_sample v sav Hv) as [_ BV]; [lia|].
  edestruct (put_color_ok TCLAMP_U8 SCLAMP_U8) as (m1 & -> & P1);
    [exact TCLAMP_clamps|exact SCLAMP_clamps|exact B1|exact BU|exact BV| | |]; [lia..|]. mred.
  pose proof (pointwise_alen _ _ _ P1) as L1.
  edestruct (put_color_ok TCLAMP_U8 SCLAMP_U8) as (m2 & -> & P2);
    [exact TCLAMP_clamps|exact SCLAMP_clamps|exact B3|exact BU|exact BV| | |]; [lia..|]. mred.
  pose proof (pointwise_alen _ _ _ P2) as L2. pose proof (pointwise_trans _ _ _ _ _ P1 P2) as P12.
  destruct (aset_pointwise m2 (da1 + 7) 0xff) as (m3 & -> & P3); [lia|]. mred.
  pose proof (pointwise_alen _ _ _ P3) as L3. pose proof (pointwise_trans _ _ _ _ _ P12 P3) as P123.
  destruct (aset_pointwise m3 (da1 + 3) 0xff) as (m4 & -> & P4); [lia|].
  exists m4. split; [done|]. eapply pointwise_ext; [|exact (pointwise_trans _ _ _ _ _ P123 P4)].
  intros j w _. rewrite <- pair_fn. done.
Qed.

(** A span extended by eight bytes. *)
Lemma span_step8 d n c f j w : 0 <= n -> (forall k, 0 <= k < 8 -> f k = c (n + k)) ->
  span_fn (d + n) 8 (fun k _ => f k) j (span_fn d n (fun k _ => c k) j w) = span_fn d (n + 8) (fun k _ => c k) j w.
Proof.
  intros Hn H. unfold span_fn. case_bools; try done. rewrite H by lia. f_equal. lia.
Qed.

Section convert_422p.
Context (bgra_stride width height y_stride uv_stride : Z) (y v u m0 : list Z).
Context (Hf : frame_422p bgra_stride width height y_stride uv_stride y v u m0).

Lemma row_422p_ok r m : 0 <= r < height -> alen m = alen m0 ->
  exists m', row_422p width y v u (r * y_stride) (r * uv_stride) (r * uv_stride) (r * bgra_stride) m = Some m' /\
    pointwise m m' (span_fn (r * bgra_stride) (4 * width) (fun k _ => packed_byte y_stride uv_stride y v u r k)).
Proof using Hf.
  intros Hr Hl. unfold row_422p. rewrite shiftr_div by lia. change (2 ^ 1) with 2.
  pose proof Hf as []. assert (Hw : 2 * (width / 2) = width) by dlia.
  assert (0 <= r * bgra_stride) by nia. assert (0 <= r * y_stride <= (height - 1) * y_stride) by nia.
  assert (0 <= r * uv_stride \/ width / 2 = 1) by nia. assert (0 <= uv_stride) by lia.
  assert (0 <= r * uv_stride <= (height - 1) * uv_stride) by nia.
  assert ((r + 1) * bgra_stride <= height * bgra_stride) by nia.
  destruct (for_lt_inv (fun i '(say1, sau, sav, da1, m') =>
      (say1, sau, sav, da1) = (r * y_stride + 4 * i, r * uv_stride + 4 * i, r * uv_stride + 4 * i, r * bgra_stride + 8 * i) /\
      pointwise m m' (span_fn (r * bgra_stride) (8 * i) (fun k _ => packed_byte y_stride uv_stride y v u r k)))
      (width / 2)
      (fun _ '(say1, sau, sav, da1, m) =>
         m ← put_pair y u v say1 sau sav da1 m;
         Some (say1 + 4, sau + 4, sav + 4, da1 + 8, m))
      (r * y_stride, r * uv_stride, r * uv_stride, r * bgra_stride, m)) as ([[[[? ?] ?] ?] m'] & -> & _ & Hm').
  - split; [rewrite !pair_equal_spec; split_and!; lia|]. eapply pointwise_ext; [|apply pointwise_refl].
    intros j w _. by rewrite span_fn_0.
  - intros i [[[[? ?] ?] ?] m1] Hi [E Hm1]. simplify_eq.
    destruct (pair_ok y u v (r * y_stride + 4 * i) (r * uv_stride + 4 * i) (r * uv_stride + 4 * i)
      (r * bgra_stride + 8 * i) m1) as (m2 & -> & Hm2); try done; try lia.
    { rewrite (pointwise_alen _ _ _ Hm1). lia. }
    mred. eexists; split; [done|]. split; [rewrite !pair_equal_spec; split_and!; lia|].
    eapply pointwise_ext; [|exact (pointwise_trans _ _ _ _ _ Hm1 Hm2)].
    intros j w _. replace (8 * (i + 1)) with (8 * i + 8) by lia. apply span_step8; [lia|].
    intros k Hk. apply pair_byte_packed; lia.
  - mred. exists m'. split; [done|]. replace (Z.max 0 (width / 2)) with (width / 2) in Hm' by dlia.
    by replace (4 * width) with (8 * (width / 2)) by lia.
Qed.
End convert_422p.

(** The packed 4:2:2 converter: on a frame of even width whose buffers hold
    it, it returns 0 without reading or writing out of bounds and every byte of
    the destination's rows is the channel of its pixel, opaque, computed from
    the pixel's own luma byte and the chroma bytes it shares with its
    horizontal neighbour; all other bytes are kept. *)
Theorem YCbCr422p_to_BGRA32_no_alpha_spec bgra_stride width height y_stride uv_stride y v u m :
  frame_422p bgra_stride width height y_stride uv_stride y v u m ->
  exists m', ColorConvert_YCbCr422p_to_BGRA32_no_alpha (Some m) bgra_stride width height (Some y) (Some v) (Some u)
      y_stride uv_stride = Some (0, Some m') /\
    pointwise m m' (rect_fn 0 bgra_stride (4 * width) height (fun row off _ =>
      packed_byte y_stride uv_stride y v u row off)).
Proof.
  intros Hf. pose proof Hf as []. unfold ColorConvert_YCbCr422p_to_BGRA32_no_alpha.
  rewrite (proj2 (Z.leb_gt width 0)), (proj2 (Z.leb_gt height 0)), (land_mask width 1) by (done || lia).
  change (2 ^ 1) with 2. rewrite f2_even0. cbn [orb]. change (ctrue 0) with false. cbv iota.
  destruct (for_lt_inv (fun r '(sly1, slu, slv, dl1, m') =>
      (sly1, slu, slv, dl1) = (r * y_stride, r * uv_stride, r * uv_stride, r * bgra_stride) /\
      pointwise m m' (rect_fn 0 bgra_stride (4 * width) r (fun row off _ => packed_byte y_stride uv_stride y v u row off)))
      height
      (fun _ '(sly1, slu, slv, dl1, m) =>
         m ← row_422p width y v u sly1 slu slv dl1 m;
         Some (sly1 + y_stride, slu + uv_stride, slv + uv_stride, dl1 + bgra_stride, m))
      (0, 0, 0, 0, m)) as ([[[[? ?] ?] ?] m'] & -> & _ & Hm').
  - split; [rewrite !pair_equal_spec; split_and!; lia|]. eapply pointwise_ext; [|apply pointwise_refl].
    intros j w _. by rewrite rect_fn_0.
  - intros r [[[[? ?] ?] ?] m1] Hr [E Hm1]. simplify_eq.
    destruct (row_422p_ok bgra_stride width height y_stride uv_stride y v u m Hf r m1 Hr (pointwise_alen _ _ _ Hm1))
      as (m2 & -> & Hm2).
    mred. eexists; split; [done|]. split; [rewrite !pair_equal_spec; split_and!; lia|].
    eapply pointwise_ext; [|exact (pointwise_trans _ _ _ _ _ Hm1 Hm2)].
    intros j w _. rewrite <- (rect_fn_step 0 bgra_stride (4 * width) r) by lia. by rewrite Z.add_0_l.
  - mred. exists m'. split; [done|]. by replace (Z.max 0 height) with height in Hm' by lia.
Qed.

Lemma YCbCr422p_to_BGRA32_no_alpha_spec_witness :
  exists m', ColorConvert_YCbCr422p_to_BGRA32_no_alpha (Some (replicate 9 7)) 9 2 1 (Some [81; 240; 145])
      (Some [240; 145]) (Some [90; 81; 240; 145]) 4 4 = Some (0, Some m') /\
    aget m' 2 = Some 254 /\ aget m' 7 = Some 255 /\ aget m' 8 = Some 7.
Proof.
  destruct (YCbCr422p_to_BGRA32_no_alpha_spec 9 2 1 4 4 [81; 240; 145] [240; 145] [90; 81; 240; 145] (replicate 9 7))
    as (m' & E & Hm').
  - split; try (vm_compute; repeat split; (discriminate || reflexivity)).
    all: intros i x; apply (aget_Forall is_byte); forall_list.
  - exists m'. split; [exact E|]. rewrite !Hm'. vm_compute. split_and!; reflexivity.
Defined.
