(* ===== verification/ColorConverterSse.v ===== *)
(** * Conversion of video frames with SSE2

    jfxmedia/Utils/ColorConverter.c under [ENABLE_SIMD_SSE2]: the converters of
    planar 4:2:0 frames that x86 builds use.  They work on two rows at a time,
    16 pixels of each per step, with one step of 8, of 4 and of 2 pixels for the
    rest of the row.

    The four functions differ in the order of the bytes of a pixel, in whether
    there is an alpha plane (otherwise the register [x_aa] of ones takes the place
    of what is loaded from it) and in whether colours are multiplied by alpha.
    These differences are the record [pixel_format] and the plane [a]; the text
    the functions share is written once.  The order of independent register
    operations is not kept.

    A register is eight 16-bit words, the lowest first; the intrinsics are those
    of <emmintrin.h>.  A plane is its address and its bytes, because aligned loads
    and stores fault elsewhere than at multiples of 16.  [None] is such a fault or
    an access outside a plane.  Loads of 16 and 32 bits are little endian and not
    aligned; a 16-bit value shifted left by 16 wraps. *)

From S2P Require Import Prelude.

(** ** Registers *)

Inductive m128 : Type := M128 (w0 w1 w2 w3 w4 w5 w6 w7 : Z).

(** Bytes of a word. *)
Definition lo8 (w : Z) : Z := u8 w.
Definition hi8 (w : Z) : Z := u8 (w >> 8).
Definition word (l h : Z) : Z := l + 256 * h.

Definition u16 (x : Z) : Z := x mod 2 ^ 16.
Definition s16 (w : Z) : Z := (w + 2 ^ 15) mod 2 ^ 16 - 2 ^ 15.

(** Saturation of a signed word to a byte. *)
Definition saturate_u8 (x : Z) : Z := Z.max 0 (Z.min 255 x).
Definition sat8 (w : Z) : Z := saturate_u8 (s16 w).

Definition lanes (f : Z -> Z) (a : m128) : m128 :=
  let '(M128 a0 a1 a2 a3 a4 a5 a6 a7) := a in M128 (f a0) (f a1) (f a2) (f a3) (f a4) (f a5) (f a6) (f a7).

Definition lanes2 (f : Z -> Z -> Z) (a b : m128) : m128 :=
  let '(M128 a0 a1 a2 a3 a4 a5 a6 a7) := a in
  let '(M128 b0 b1 b2 b3 b4 b5 b6 b7) := b in
  M128 (f a0 b0) (f a1 b1) (f a2 b2) (f a3 b3) (f a4 b4) (f a5 b5) (f a6 b6) (f a7 b7).

Definition _mm_set1_epi16 (x : Z) : m128 :=
  let w := u16 x in M128 w w w w w w w w.
Definition _mm_set1_epi8 (x : Z) : m128 := _mm_set1_epi16 (word (u8 x) (u8 x)).
Definition _mm_setzero_si128 : m128 := M128 0 0 0 0 0 0 0 0.
Definition _mm_cvtsi32_si128 (x : Z) : m128 := M128 (u16 x) (u16 (x >> 16)) 0 0 0 0 0 0.

Definition _mm_add_epi16 : m128 -> m128 -> m128 := lanes2 (fun a b => u16 (a + b)).
Definition _mm_sub_epi16 : m128 -> m128 -> m128 := lanes2 (fun a b => u16 (a - b)).
Definition _mm_mullo_epi16 : m128 -> m128 -> m128 := lanes2 (fun a b => u16 (a * b)).
Definition _mm_mulhi_epu16 : m128 -> m128 -> m128 := lanes2 (fun a b => (a * b) >> 16).
Definition _mm_srai_epi16 (a : m128) (n : Z) : m128 := lanes (fun w => u16 (s16 w >> n)) a.
Definition _mm_srli_epi16 (a : m128) (n : Z) : m128 := lanes (fun w => w >> n) a.

(** [_mm_srli_si128(a, 8)]. *)
Definition _mm_srli_si128_8 (a : m128) : m128 :=
  let '(M128 _ _ _ _ a4 a5 a6 a7) := a in M128 a4 a5 a6 a7 0 0 0 0.

Definition _mm_unpacklo_epi8 (a b : m128) : m128 :=
  let '(M128 a0 a1 a2 a3 _ _ _ _) := a in
  let '(M128 b0 b1 b2 b3 _ _ _ _) := b in
  M128 (word (lo8 a0) (lo8 b0)) (word (hi8 a0) (hi8 b0)) (word (lo8 a1) (lo8 b1)) (word (hi8 a1) (hi8 b1))
       (word (lo8 a2) (lo8 b2)) (word (hi8 a2) (hi8 b2)) (word (lo8 a3) (lo8 b3)) (word (hi8 a3) (hi8 b3)).

Definition _mm_unpackhi_epi8 (a b : m128) : m128 :=
  let '(M128 _ _ _ _ a4 a5 a6 a7) := a in
  let '(M128 _ _ _ _ b4 b5 b6 b7) := b in
  M128 (word (lo8 a4) (lo8 b4)) (word (hi8 a4) (hi8 b4)) (word (lo8 a5) (lo8 b5)) (word (hi8 a5) (hi8 b5))
       (word (lo8 a6) (lo8 b6)) (word (hi8 a6) (hi8 b6)) (word (lo8 a7) (lo8 b7)) (word (hi8 a7) (hi8 b7)).

Definition _mm_unpacklo_epi16 (a b : m128) : m128 :=
  let '(M128 a0 a1 a2 a3 _ _ _ _) := a in
  let '(M128 b0 b1 b2 b3 _ _ _ _) := b in M128 a0 b0 a1 b1 a2 b2 a3 b3.

Definition _mm_unpackhi_epi16 (a b : m128) : m128 :=
  let '(M128 _ _ _ _ a4 a5 a6 a7) := a in
  let '(M128 _ _ _ _ b4 b5 b6 b7) := b in M128 a4 b4 a5 b5 a6 b6 a7 b7.

Definition _mm_unpacklo_epi32 (a b : m128) : m128 :=
  let '(M128 a0 a1 a2 a3 _ _ _ _) := a in
  let '(M128 b0 b1 b2 b3 _ _ _ _) := b in M128 a0 a1 b0 b1 a2 a3 b2 b3.

Definition _mm_unpackhi_epi32 (a b : m128) : m128 :=
  let '(M128 _ _ _ _ a4 a5 a6 a7) := a in
  let '(M128 _ _ _ _ b4 b5 b6 b7) := b in M128 a4 a5 b4 b5 a6 a7 b6 b7.

Definition _mm_unpacklo_epi64 (a b : m128) : m128 :=
  let '(M128 a0 a1 a2 a3 _ _ _ _) := a in
  let '(M128 b0 b1 b2 b3 _ _ _ _) := b in M128 a0 a1 a2 a3 b0 b1 b2 b3.

Definition _mm_unpackhi_epi64 (a b : m128) : m128 :=
  let '(M128 _ _ _ _ a4 a5 a6 a7) := a in
  let '(M128 _ _ _ _ b4 b5 b6 b7) := b in M128 a4 a5 a6 a7 b4 b5 b6 b7.

Definition _mm_packus_epi16 (a b : m128) : m128 :=
  let '(M128 a0 a1 a2 a3 a4 a5 a6 a7) := a in
  let '(M128 b0 b1 b2 b3 b4 b5 b6 b7) := b in
  M128 (word (sat8 a0) (sat8 a1)) (word (sat8 a2) (sat8 a3)) (word (sat8 a4) (sat8 a5)) (word (sat8 a6) (sat8 a7))
       (word (sat8 b0) (sat8 b1)) (word (sat8 b2) (sat8 b3)) (word (sat8 b4) (sat8 b5)) (word (sat8 b6) (sat8 b7)).

(** ** Memory *)

Record plane : Type := Plane { address : Z; data : list Z }.

(** [p % 16 != 0] for a pointer or a stride. *)
Definition misaligned (x : Z) : bool := negb (Z.rem x 16 =? 0).

Definition load_word (p : plane) (i : Z) : option Z :=
  l ← aget p.(data) i; h ← aget p.(data) (i + 1); Some (word l h).

(** [*((uint16_t * )p)] and [*((int32_t * )p)]. *)
Definition load_uint16 : plane -> Z -> option Z := load_word.
Definition load_int32 (p : plane) (i : Z) : option Z :=
  l ← load_word p i; h ← load_word p (i + 2); Some (i32 (l .| (h << 16))).

Definition _mm_loadl_epi64 (p : plane) (i : Z) : option m128 :=
  w0 ← load_word p i; w1 ← load_word p (i + 2); w2 ← load_word p (i + 4); w3 ← load_word p (i + 6);
  Some (M128 w0 w1 w2 w3 0 0 0 0).

Definition _mm_loadu_si128 (p : plane) (i : Z) : option m128 :=
  w0 ← load_word p i; w1 ← load_word p (i + 2); w2 ← load_word p (i + 4); w3 ← load_word p (i + 6);
  w4 ← load_word p (i + 8); w5 ← load_word p (i + 10); w6 ← load_word p (i + 12); w7 ← load_word p (i + 14);
  Some (M128 w0 w1 w2 w3 w4 w5 w6 w7).

Definition _mm_load_si128 (p : plane) (i : Z) : option m128 :=
  if misaligned (p.(address) + i) then None else _mm_loadu_si128 p i.

(** Storing bytes, lowest address first. *)
Fixpoint store_bytes (bytes : list Z) (i : Z) (m : list Z) : option (list Z) :=
  match bytes with
  | [] => Some m
  | b :: bytes => m ← aset m i b; store_bytes bytes (i + 1) m
  end.

Definition bytes_lo (x : m128) : list Z :=
  let '(M128 w0 w1 w2 w3 _ _ _ _) := x in [lo8 w0; hi8 w0; lo8 w1; hi8 w1; lo8 w2; hi8 w2; lo8 w3; hi8 w3].
Definition bytes_hi (x : m128) : list Z :=
  let '(M128 _ _ _ _ w4 w5 w6 w7) := x in [lo8 w4; hi8 w4; lo8 w5; hi8 w5; lo8 w6; hi8 w6; lo8 w7; hi8 w7].

(** The destination is at the address [d]. *)
Definition _mm_store_si128 (d i : Z) (x : m128) (m : list Z) : option (list Z) :=
  if misaligned (d + i) then None else store_bytes (bytes_lo x ++ bytes_hi x) i m.
Definition _mm_storel_epi64 (i : Z) (x : m128) (m : list Z) : option (list Z) := store_bytes (bytes_lo x) i m.
Definition _mm_storeh_epi64 (i : Z) (x_a : m128) (m : list Z) : option (list Z) :=
  let x_ra := _mm_srli_si128_8 x_a in _mm_storel_epi64 i x_ra m.

(** [SAVE_ARGB1], [SAVE_BGRA1]: store, and advance the pointer. *)
Definition SAVE_ARGB1 (d : Z) (argb : m128) (pd : Z) (m : list Z) : option (Z * list Z) :=
  m ← _mm_store_si128 d pd argb m; Some (pd + 16, m).

(** ** Constants of the conversion, times 8192 and times 32 *)
Definition x_c0 : m128 := _mm_set1_epi16 0x2543.
Definition x_c1 : m128 := _mm_set1_epi16 0x4097.
Definition ic1 : Z := 0x4097.
Definition x_c4 : m128 := _mm_set1_epi16 0xc8b.
Definition ic4 : Z := 0xc8b.
Definition x_c5 : m128 := _mm_set1_epi16 0x1a06.
Definition ic5 : Z := 0x1a06.
Definition x_c8 : m128 := _mm_set1_epi16 0x3317.
Definition ic8 : Z := 0x3317.
Definition x_coff0 : m128 := _mm_set1_epi16 0xdd60.
Definition icoff0 : Z := i32 0xffffdd60.
Definition x_coff1 : m128 := _mm_set1_epi16 0x10f4.
Definition icoff1 : Z := 0x10f4.
Definition x_coff2 : m128 := _mm_set1_epi16 0xe420.
Definition icoff2 : Z := i32 0xffffe420.
Definition x_zero : m128 := _mm_setzero_si128.
Definition x_aa : m128 := _mm_set1_epi8 0xff.
(** [x_one] of the converter to BGRA; the one to ARGB has 0xff in every byte and
    does not use it. *)
Definition x_one : m128 := _mm_set1_epi16 0x0001.

(** ** Colour arithmetic on registers *)

(** The part of blue, green and red that comes from the chroma words. *)
Definition precalc (x_u x_v : m128) : m128 * m128 * m128 :=
  let x_u0 := _mm_mulhi_epu16 x_u x_c1 in
  let x_b := _mm_add_epi16 x_u0 x_coff0 in
  let x_u1 := _mm_mulhi_epu16 x_u x_c4 in
  let x_v1 := _mm_mulhi_epu16 x_v x_c5 in
  let x_temp := _mm_add_epi16 x_u1 x_v1 in
  let x_g := _mm_sub_epi16 x_coff1 x_temp in
  let x_v2 := _mm_mulhi_epu16 x_v x_c8 in
  let x_r := _mm_add_epi16 x_v2 x_coff2 in
  (x_b, x_g, x_r).

(** One channel of eight by two pixels: [x_bak] has each chroma word twice. *)
Definition channel (x_y1 x_y2 x_bak : m128) : m128 :=
  let x_temp := _mm_unpacklo_epi32 x_bak x_bak in
  let x_b1 := _mm_add_epi16 x_y1 x_temp in
  let x_temp := _mm_unpackhi_epi32 x_bak x_bak in
  let x_b2 := _mm_add_epi16 x_y2 x_temp in
  let x_b1 := _mm_srai_epi16 x_b1 5 in
  let x_b2 := _mm_srai_epi16 x_b2 5 in
  _mm_packus_epi16 x_b1 x_b2.

(** One channel of four by two pixels. *)
Definition channel1 (x_y1 x_bak : m128) : m128 :=
  let x_temp := _mm_unpacklo_epi32 x_bak x_bak in
  let x_b1 := _mm_add_epi16 x_y1 x_temp in
  let x_b1 := _mm_srai_epi16 x_b1 5 in
  _mm_packus_epi16 x_b1 x_zero.

(** One channel of two by two pixels, from the part of the chroma samples. *)
Definition channel0 (x_y1 : m128) (ib : Z) : m128 :=
  let x_temp := _mm_set1_epi16 ib in
  let x_b1 := _mm_add_epi16 x_y1 x_temp in
  let x_b1 := _mm_srai_epi16 x_b1 5 in
  _mm_packus_epi16 x_b1 x_zero.

Definition PREMULTIPLY_ALPHA (cc aa : m128) : m128 :=
  let x_temp := _mm_unpacklo_epi8 cc x_zero in
  let x_temp1 := _mm_unpacklo_epi8 aa x_zero in
  let x_temp1 := _mm_add_epi16 x_temp1 x_one in
  let tt := _mm_mullo_epi16 x_temp x_temp1 in
  let tt := _mm_srli_epi16 tt 8 in
  let x_temp := _mm_unpackhi_epi8 cc x_zero in
  let x_temp1 := _mm_unpackhi_epi8 aa x_zero in
  let x_temp1 := _mm_add_epi16 x_temp1 x_one in
  let x_temp1 := _mm_mullo_epi16 x_temp x_temp1 in
  let x_temp1 := _mm_srli_epi16 x_temp1 8 in
  _mm_packus_epi16 tt x_temp1.

(** ** Formats *)

(** How colours are premultiplied, and the two halves of the pixels made of
    the low and of the high bytes of alpha, red, green and blue. *)
Record pixel_format : Type := PixelFormat {
  premultiply : m128 -> m128 -> m128;
  halves_lo : m128 -> m128 -> m128 -> m128 -> m128 * m128;
  halves_hi : m128 -> m128 -> m128 -> m128 -> m128 * m128
}.

(** [x_arl], [x_gbl] and [x_arh], [x_gbh]. *)
Definition argb_lo (x_a x_r x_g x_b : m128) : m128 * m128 := (_mm_unpacklo_epi8 x_a x_r, _mm_unpacklo_epi8 x_g x_b).
Definition argb_hi (x_a x_r x_g x_b : m128) : m128 * m128 := (_mm_unpackhi_epi8 x_a x_r, _mm_unpackhi_epi8 x_g x_b).

(** [x_bgl], [x_ral] and [x_bgh], [x_rah]. *)
Definition bgra_lo (x_a x_r x_g x_b : m128) : m128 * m128 := (_mm_unpacklo_epi8 x_b x_g, _mm_unpacklo_epi8 x_r x_a).
Definition bgra_hi (x_a x_r x_g x_b : m128) : m128 * m128 := (_mm_unpackhi_epi8 x_b x_g, _mm_unpackhi_epi8 x_r x_a).

Definition ARGB32 : pixel_format := PixelFormat (fun cc _ => cc) argb_lo argb_hi.
Definition BGRA32 : pixel_format := PixelFormat PREMULTIPLY_ALPHA bgra_lo bgra_hi.
Definition BGRA32_no_alpha : pixel_format := PixelFormat (fun cc _ => cc) bgra_lo bgra_hi.

(** Four pixels of the upper and four of the lower row. *)
Definition sequences (halves : m128 * m128) : m128 * m128 :=
  let '(x_arl, x_gbl) := halves in
  let x_argbl := _mm_unpacklo_epi16 x_arl x_gbl in
  let x_argbh := _mm_unpackhi_epi16 x_arl x_gbl in
  (_mm_unpacklo_epi64 x_argbl x_argbh, _mm_unpackhi_epi64 x_argbl x_argbh).

(** ** Steps along a pair of rows *)

(** The local variables of the loop over a pair of rows, and the destination. *)
Record row : Type := Row {
  px_y1 : Z; px_y2 : Z; pm_u : Z; pm_v : Z; px_a1 : Z; px_a2 : Z; pd1 : Z; pd2 : Z; iW : Z; argb : list Z
}.

Section steps.
Context (fmt : pixel_format) (d : Z) (y v u : plane) (a : option plane) (load_si128 : plane -> Z -> option m128).

(** Save a register in each row. *)
Definition save_rows (pix : m128 * m128) (pd1 pd2 : Z) (m : list Z) : option (Z * Z * list Z) :=
  '(pd1, m) ← SAVE_ARGB1 d (fst pix) pd1 m;
  '(pd2, m) ← SAVE_ARGB1 d (snd pix) pd2 m;
  Some (pd1, pd2, m).

(** Alpha words of two rows, from positions in the alpha plane. *)
Definition load_alpha16 (px_a1 px_a2 : Z) : option (m128 * m128) :=
  match a with
  | None => Some (x_aa, x_aa)
  | Some a =>
      x_temp ← load_si128 a px_a1;
      x_temp1 ← load_si128 a px_a2;
      Some (_mm_unpacklo_epi16 x_temp x_temp1, _mm_unpackhi_epi16 x_temp x_temp1)
  end.

Definition load_alpha8 (px_a1 px_a2 : Z) : option m128 :=
  match a with
  | None => Some x_aa
  | Some a =>
      x_temp ← _mm_loadl_epi64 a px_a1;
      x_temp1 ← _mm_loadl_epi64 a px_a2;
      Some (_mm_unpacklo_epi16 x_temp x_temp1)
  end.

Definition load_alpha4 (px_a1 px_a2 : Z) : option m128 :=
  match a with
  | None => Some x_aa
  | Some a =>
      iTemp ← load_int32 a px_a1;
      let x_temp := _mm_cvtsi32_si128 iTemp in
      iTemp ← load_int32 a px_a2;
      let x_temp1 := _mm_cvtsi32_si128 iTemp in
      Some (_mm_unpacklo_epi16 x_temp x_temp1)
  end.

(** [( *p1 & 0xffff) | ( *p2 << 16)] of two 16-bit values. *)
Definition load_pairs (p : plane) (i1 i2 : Z) : option Z :=
  w1 ← load_uint16 p i1; w2 ← load_uint16 p i2; Some (i32 ((w1 & 0xffff) .| (w2 << 16))).

Definition load_alpha2 (px_a1 px_a2 : Z) : option m128 :=
  match a with
  | None => Some x_aa
  | Some a => iTemp ← load_pairs a px_a1 px_a2; Some (_mm_cvtsi32_si128 iTemp)
  end.

(** 16 pixels of each row. *)
Definition step16 (s : row) : option row :=
  let '(Row px_y1 px_y2 pm_u pm_v px_a1 px_a2 pd1 pd2 iW m) := s in
  x_temp ← _mm_loadl_epi64 u pm_u;
  let x_u := _mm_unpacklo_epi8 x_zero x_temp in
  x_temp ← _mm_loadl_epi64 v pm_v;
  let x_v := _mm_unpacklo_epi8 x_zero x_temp in
  x_temp ← load_si128 y px_y1;
  x_temp1 ← load_si128 y px_y2;
  let x_out := _mm_unpacklo_epi16 x_temp x_temp1 in
  let x_y1 := _mm_unpacklo_epi8 x_zero x_out in
  let x_y2 := _mm_unpackhi_epi8 x_zero x_out in
  let x_out := _mm_unpackhi_epi16 x_temp x_temp1 in
  let x_y3 := _mm_unpacklo_epi8 x_zero x_out in
  let x_y4 := _mm_unpackhi_epi8 x_zero x_out in
  '(x_a1, x_a2) ← load_alpha16 px_a1 px_a2;
  let '(x_b, x_g, x_r) := precalc x_u x_v in
  let x_y1 := _mm_mulhi_epu16 x_y1 x_c0 in
  let x_y2 := _mm_mulhi_epu16 x_y2 x_c0 in
  let x_y3 := _mm_mulhi_epu16 x_y3 x_c0 in
  let x_y4 := _mm_mulhi_epu16 x_y4 x_c0 in
  let x_b1 := fmt.(premultiply) (channel x_y3 x_y4 (_mm_unpackhi_epi16 x_b x_b)) x_a2 in
  let x_b := fmt.(premultiply) (channel x_y1 x_y2 (_mm_unpacklo_epi16 x_b x_b)) x_a1 in
  let x_r1 := fmt.(premultiply) (channel x_y3 x_y4 (_mm_unpackhi_epi16 x_r x_r)) x_a2 in
  let x_r := fmt.(premultiply) (channel x_y1 x_y2 (_mm_unpacklo_epi16 x_r x_r)) x_a1 in
  let x_g1 := fmt.(premultiply) (channel x_y3 x_y4 (_mm_unpackhi_epi16 x_g x_g)) x_a2 in
  let x_g := fmt.(premultiply) (channel x_y1 x_y2 (_mm_unpacklo_epi16 x_g x_g)) x_a1 in
  '(pd1, pd2, m) ← save_rows (sequences (fmt.(halves_lo) x_a1 x_r x_g x_b)) pd1 pd2 m;
  '(pd1, pd2, m) ← save_rows (sequences (fmt.(halves_hi) x_a1 x_r x_g x_b)) pd1 pd2 m;
  '(pd1, pd2, m) ← save_rows (sequences (fmt.(halves_lo) x_a2 x_r1 x_g1 x_b1)) pd1 pd2 m;
  '(pd1, pd2, m) ← save_rows (sequences (fmt.(halves_hi) x_a2 x_r1 x_g1 x_b1)) pd1 pd2 m;
  Some (Row (px_y1 + 16) (px_y2 + 16) (pm_u + 8) (pm_v + 8) (px_a1 + 16) (px_a2 + 16) pd1 pd2 (iW + 16) m).

(** 8 pixels of each row. *)
Definition step8 (s : row) : option row :=
  let '(Row px_y1 px_y2 pm_u pm_v px_a1 px_a2 pd1 pd2 iW m) := s in
  iTemp ← load_int32 u pm_u;
  let x_temp := _mm_cvtsi32_si128 iTemp in
  let x_u := _mm_unpacklo_epi8 x_zero x_temp in
  iTemp ← load_int32 v pm_v;
  let x_temp := _mm_cvtsi32_si128 iTemp in
  let x_v := _mm_unpacklo_epi8 x_zero x_temp in
  x_temp ← _mm_loadl_epi64 y px_y1;
  x_temp1 ← _mm_loadl_epi64 y px_y2;
  let x_out := _mm_unpacklo_epi16 x_temp x_temp1 in
  let x_y1 := _mm_unpacklo_epi8 x_zero x_out in
  let x_y2 := _mm_unpackhi_epi8 x_zero x_out in
  x_a1 ← load_alpha8 px_a1 px_a2;
  let '(x_b, x_g, x_r) := precalc x_u x_v in
  let x_y1 := _mm_mulhi_epu16 x_y1 x_c0 in
  let x_y2 := _mm_mulhi_epu16 x_y2 x_c0 in
  let x_b := fmt.(premultiply) (channel x_y1 x_y2 (_mm_unpacklo_epi16 x_b x_b)) x_a1 in
  let x_r := fmt.(premultiply) (channel x_y1 x_y2 (_mm_unpacklo_epi16 x_r x_r)) x_a1 in
  let x_g := fmt.(premultiply) (channel x_y1 x_y2 (_mm_unpacklo_epi16 x_g x_g)) x_a1 in
  '(pd1, pd2, m) ← save_rows (sequences (fmt.(halves_lo) x_a1 x_r x_g x_b)) pd1 pd2 m;
  '(pd1, pd2, m) ← save_rows (sequences (fmt.(halves_hi) x_a1 x_r x_g x_b)) pd1 pd2 m;
  Some (Row (px_y1 + 8) (px_y2 + 8) (pm_u + 4) (pm_v + 4) (px_a1 + 8) (px_a2 + 8) pd1 pd2 (iW + 8) m).

(** 4 pixels of each row. *)
Definition step4 (s : row) : option row :=
  let '(Row px_y1 px_y2 pm_u pm_v px_a1 px_a2 pd1 pd2 iW m) := s in
  iTemp ← load_uint16 u pm_u;
  let x_temp := _mm_cvtsi32_si128 iTemp in
  let x_u := _mm_unpacklo_epi8 x_zero x_temp in
  iTemp ← load_uint16 v pm_v;
  let x_temp := _mm_cvtsi32_si128 iTemp in
  let x_v := _mm_unpacklo_epi8 x_zero x_temp in
  iTemp ← load_int32 y px_y1;
  let x_temp := _mm_cvtsi32_si128 iTemp in
  iTemp ← load_int32 y px_y2;
  let x_temp1 := _mm_cvtsi32_si128 iTemp in
  let x_out := _mm_unpacklo_epi16 x_temp x_temp1 in
  let x_y1 := _mm_unpacklo_epi8 x_zero x_out in
  x_a1 ← load_alpha4 px_a1 px_a2;
  let '(x_b, x_g, x_r) := precalc x_u x_v in
  let x_y1 := _mm_mulhi_epu16 x_y1 x_c0 in
  let x_b := fmt.(premultiply) (channel1 x_y1 (_mm_unpacklo_epi16 x_b x_b)) x_a1 in
  let x_r := fmt.(premultiply) (channel1 x_y1 (_mm_unpacklo_epi16 x_r x_r)) x_a1 in
  let x_g := fmt.(premultiply) (channel1 x_y1 (_mm_unpacklo_epi16 x_g x_g)) x_a1 in
  '(pd1, pd2, m) ← save_rows (sequences (fmt.(halves_lo) x_a1 x_r x_g x_b)) pd1 pd2 m;
  Some (Row (px_y1 + 4) (px_y2 + 4) (pm_u + 2) (pm_v + 2) (px_a1 + 4) (px_a2 + 4) pd1 pd2 (iW + 4) m).

(** 2 pixels of each row; [iW] is not advanced. *)
Definition step2 (s : row) : option row :=
  let '(Row px_y1 px_y2 pm_u pm_v px_a1 px_a2 pd1 pd2 iW m) := s in
  iu ← aget u.(data) pm_u;
  iv ← aget v.(data) pm_v;
  iTemp ← load_pairs y px_y1 px_y2;
  let x_temp := _mm_cvtsi32_si128 iTemp in
  let x_y1 := _mm_unpacklo_epi8 x_zero x_temp in
  x_a1 ← load_alpha2 px_a1 px_a2;
  let iu0 := (iu * ic1) >> 8 in
  let ib := icoff0 + iu0 in
  let iu1 := (iu * ic4) >> 8 in
  let iv1 := (iv * ic5) >> 8 in
  let iTemp := iu1 + iv1 in
  let ig := icoff1 - iTemp in
  let iv2 := (iv * ic8) >> 8 in
  let ir := iv2 + icoff2 in
  let x_y1 := _mm_mulhi_epu16 x_y1 x_c0 in
  let x_b := fmt.(premultiply) (channel0 x_y1 ib) x_a1 in
  let x_r := fmt.(premultiply) (channel0 x_y1 ir) x_a1 in
  let x_g := fmt.(premultiply) (channel0 x_y1 ig) x_a1 in
  let '(x_arl, x_gbl) := fmt.(halves_lo) x_a1 x_r x_g x_b in
  let x_argbl := _mm_unpacklo_epi16 x_arl x_gbl in
  m ← _mm_storel_epi64 pd1 x_argbl m;
  m ← _mm_storeh_epi64 pd2 x_argbl m;
  Some (Row (px_y1 + 2) (px_y2 + 2) (pm_u + 1) (pm_v + 1) (px_a1 + 2) (px_a2 + 2) (pd1 + 8) (pd2 + 8) iW m).

(** A pair of rows, from the positions of its first pixels. *)
Definition row_pair (width : Z) (s : row) : option row :=
  s ← while_fuel (Z.to_nat width) (fun s => s.(iW) <=? width - 16) step16 s;
  s ← (if s.(iW) <=? width - 8 then step8 s else Some s);
  s ← (if s.(iW) <=? width - 4 then step4 s else Some s);
  if s.(iW) <=? width - 2 then step2 s else Some s.
End steps.

(** ** The converters *)

Definition plane_misaligned (p : plane) (stride : Z) : bool := misaligned p.(address) || misaligned stride.

(** The body the four functions share: the choice of the load and the loop over
    pairs of rows.  The destination is at the address [d]; a null pointer is a
    plane without bytes. *)
Definition convert_sse2 (fmt : pixel_format) (d argb_stride width height : Z) (y v u : plane) (a : option plane)
    (y_stride v_stride u_stride a_stride : Z) (argb : list Z) : option (Z * list Z) :=
  let load_si128 :=
    if plane_misaligned y y_stride || plane_misaligned u u_stride || plane_misaligned v v_stride ||
       match a with Some a => plane_misaligned a a_stride | None => false end
    then _mm_loadu_si128 else _mm_load_si128 in
  '(_, _, _, _, _, _, _, _, m) ←
    for_lt (height >> 1)
      (fun _ '(pY1, pY2, pU, pV, pA1, pA2, pD1, pD2, m) =>
         s ← row_pair fmt d y v u a load_si128 width (Row pY1 pY2 pU pV pA1 pA2 pD1 pD2 0 m);
         Some (pY1 + 2 * y_stride, pY2 + 2 * y_stride, pU + u_stride, pV + v_stride,
               pA1 + 2 * a_stride, pA2 + 2 * a_stride, pD1 + 2 * argb_stride, pD2 + 2 * argb_stride, s.(ColorConverterSse.argb)))
      (0, y_stride, 0, 0, 0, a_stride, 0, argb_stride, argb);
  Some (0, m).

Definition ColorConvert_YCbCr420p_to_ARGB32_sse2 (d argb_stride width height : Z) (y v u a : plane)
    (y_stride v_stride u_stride a_stride : Z) (argb : list Z) : option (Z * list Z) :=
  convert_sse2 ARGB32 d argb_stride width height y v u (Some a) y_stride v_stride u_stride a_stride argb.

Definition ColorConvert_YCbCr420p_to_ARGB32_no_alpha_sse2 (d argb_stride width height : Z) (y v u : plane)
    (y_stride v_stride u_stride : Z) (argb : list Z) : option (Z * list Z) :=
  convert_sse2 ARGB32 d argb_stride width height y v u None y_stride v_stride u_stride 0 argb.

Definition ColorConvert_YCbCr420p_to_BGRA32_sse2 (d bgra_stride width height : Z) (y v u a : plane)
    (y_stride v_stride u_stride a_stride : Z) (bgra : list Z) : option (Z * list Z) :=
  convert_sse2 BGRA32 d bgra_stride width height y v u (Some a) y_stride v_stride u_stride a_stride bgra.

Definition ColorConvert_YCbCr420p_to_BGRA32_no_alpha_sse2 (d bgra_stride width height : Z) (y v u : plane)
    (y_stride v_stride u_stride : Z) (bgra : list Z) : option (Z * list Z) :=
  convert_sse2 BGRA32_no_alpha d bgra_stride width height y v u None y_stride v_stride u_stride 0 bgra.

(** ** The destination

    GstVideoFrame.cpp: [ConvertFromYCbCr420p] rounds the stride of the
    destination up to a multiple of 16 and allocates with [alloc_aligned_buffer],
    which asks the allocator for 16 bytes more and moves up to the next multiple
    of 16.  The 32-bit products of its caller are taken not to overflow. *)
Definition padded_stride (width : Z) : Z :=
  let stride := width * 4 in (stride + 15) & Z.lnot 15.

(** The size asked of the allocator, and the address of the data in the block
    it returns at [newData]. *)
Definition alloc_size (size : Z) : Z := size + 16.
Definition alignedData (newData : Z) : Z := (newData + 15) & Z.lnot 15.
