(* ===== verification/ColorConverterSseSpec.v ===== *)
(** * Correctness of the SSE2 frame converters

    What the registers hold along a step is described lane by lane: [breg f] is
    the register of the bytes [f 0], [f 1], ... and [wreg f] that of the words.
    Each intrinsic is an equation between such registers, each step extends the
    converted part of a pair of rows, and the converters write the pixels of the
    frame, computed from integer formulas whose distance to ITU-R BT.601 and to
    the portable converters is bounded. *)

From S2P Require Import Prelude PiscesBlit ColorConverter ColorConverterSpec ColorConverterSse.

(** ** Lanes *)

Definition breg (f : Z -> Z) : m128 :=
  M128 (word (f 0) (f 1)) (word (f 2) (f 3)) (word (f 4) (f 5)) (word (f 6) (f 7))
       (word (f 8) (f 9)) (word (f 10) (f 11)) (word (f 12) (f 13)) (word (f 14) (f 15)).

Definition wreg (f : Z -> Z) : m128 := M128 (f 0) (f 1) (f 2) (f 3) (f 4) (f 5) (f 6) (f 7).

Definition bytes (f : Z -> Z) : Prop := forall k, is_byte (f k).

Lemma lo8_word l h : is_byte l -> lo8 (word l h) = l.
Proof. unfold is_byte, lo8, word, u8. intros. dlia. Qed.

Lemma hi8_word l h : is_byte l -> is_byte h -> hi8 (word l h) = h.
Proof. unfold is_byte, hi8, word, u8. intros. rewrite shiftr_div by lia. dlia. Qed.

Lemma breg_ext f g : (forall k, 0 <= k < 16 -> f k = g k) -> breg f = breg g.
Proof. intros H. unfold breg. rewrite !H by lia. done. Qed.

Lemma wreg_ext f g : (forall k, 0 <= k < 8 -> f k = g k) -> wreg f = wreg g.
Proof. intros H. unfold wreg. rewrite !H by lia. done. Qed.

Ltac lanes_bytes := rewrite ?lo8_word, ?hi8_word by auto.

(** Interleaving bytes. *)
Lemma unpacklo8 f g : bytes f -> bytes g ->
  _mm_unpacklo_epi8 (breg f) (breg g) = wreg (fun k => word (f k) (g k)).
Proof. intros Hf Hg. unfold breg, wreg. cbn. lanes_bytes. done. Qed.

Lemma unpackhi8 f g : bytes f -> bytes g ->
  _mm_unpackhi_epi8 (breg f) (breg g) = wreg (fun k => word (f (8 + k)) (g (8 + k))).
Proof. intros Hf Hg. unfold breg, wreg. cbn. lanes_bytes. done. Qed.

Lemma x_zero_bytes : x_zero = breg (fun _ => 0).
Proof. reflexivity. Qed.

Lemma x_aa_bytes : x_aa = breg (fun _ => 255).
Proof. reflexivity. Qed.

Lemma const_bytes c : is_byte c -> bytes (fun _ => c).
Proof. intros H k. exact H. Qed.

(** The bytes of two rows, woven as [_mm_unpacklo_epi16] does: two of the upper
    row, two of the lower row. *)
Definition woven (t b : Z -> Z) (k : Z) : Z :=
  if k mod 4 <? 2 then t (2 * (k / 4) + k mod 4) else b (2 * (k / 4) + k mod 4 - 2).

Lemma unpacklo16 t b : _mm_unpacklo_epi16 (breg t) (breg b) = breg (woven t b).
Proof. reflexivity. Qed.

Lemma unpackhi16 t b : _mm_unpackhi_epi16 (breg t) (breg b) = breg (fun k => woven t b (16 + k)).
Proof. reflexivity. Qed.

Lemma woven_bytes t b : bytes t -> bytes b -> bytes (woven t b).
Proof. intros Ht Hb k. unfold woven. case_match; auto. Qed.

(** Lane [4 (c / 2) + c mod 2] holds column [c] of the upper row, the lane two
    further that of the lower row. *)
Definition upper (c : Z) : Z := 4 * (c / 2) + c mod 2.

Lemma woven_upper t b c : woven t b (upper c) = t c.
Proof.
  unfold woven, upper. assert (E : (4 * (c / 2) + c mod 2) mod 4 = c mod 2) by dlia.
  assert (E' : (4 * (c / 2) + c mod 2) / 4 = c / 2) by dlia. rewrite E, E'.
  rewrite (proj2 (Z.ltb_lt _ _)) by dlia. f_equal. dlia.
Qed.

Lemma woven_lower t b c : woven t b (upper c + 2) = b c.
Proof.
  unfold woven, upper. assert (E : (4 * (c / 2) + c mod 2 + 2) mod 4 = c mod 2 + 2) by dlia.
  assert (E' : (4 * (c / 2) + c mod 2 + 2) / 4 = c / 2) by dlia. rewrite E, E'.
  rewrite (proj2 (Z.ltb_ge _ _)) by dlia. f_equal. dlia.
Qed.

(** Both lanes of a column share its chroma lane. *)
Lemma upper_chroma c : upper c / 4 = c / 2 /\ (upper c + 2) / 4 = c / 2.
Proof. unfold upper. split; dlia. Qed.

(** ** The formulas *)

Definition luma_part (Y : Z) : Z := Y * 9539 / 256.
Definition blue_part (U : Z) : Z := U * 16535 / 256 - 8864.
Definition green_part (U V : Z) : Z := 4340 - (U * 3211 / 256 + V * 6662 / 256).
Definition red_part (V : Z) : Z := V * 13079 / 256 - 7136.

(** A channel from its luma and its chroma part. *)
Definition shade (y c : Z) : Z := saturate_u8 ((y + c) / 32).

Lemma shade_byte y c : is_byte (shade y c).
Proof. unfold is_byte, shade, saturate_u8. lia. Qed.

Lemma luma_part_range Y : is_byte Y -> 0 <= luma_part Y < 9539.
Proof. unfold is_byte, luma_part. dlia. Qed.

Lemma parts_range U V : is_byte U -> is_byte V ->
  -8864 <= blue_part U <= 7607 /\ -5500 <= green_part U V <= 4340 /\ -7136 <= red_part V <= 5900.
Proof. unfold is_byte, blue_part, green_part, red_part. intros. dlia. Qed.

(** No sum of a luma and a chroma part leaves a signed word. *)
Lemma part_sums Y U V : is_byte Y -> is_byte U -> is_byte V ->
  - 2 ^ 15 <= luma_part Y + blue_part U < 2 ^ 15 /\ - 2 ^ 15 <= luma_part Y + green_part U V < 2 ^ 15 /\
  - 2 ^ 15 <= luma_part Y + red_part V < 2 ^ 15.
Proof. intros HY HU HV. pose proof (luma_part_range Y HY). pose proof (parts_range U V HU HV). lia. Qed.

(** A word holds a number modulo 2^16. *)
Lemma sat8_shade y c : - 2 ^ 15 <= y + c < 2 ^ 15 ->
  sat8 (u16 (s16 (u16 (y + u16 c)) >> 5)) = shade y c.
Proof.
  intros H. unfold sat8, shade. rewrite shiftr_div by lia. change (2 ^ 5) with 32.
  assert (E : s16 (u16 (y + u16 c)) = y + c) by (unfold s16, u16; dlia). rewrite E.
  f_equal. unfold s16, u16. dlia.
Qed.

(** ** Registers of one channel *)

(** Bytes widened into the upper halves of words, as the luma and chroma are. *)
Definition widened (f : Z -> Z) : m128 := wreg (fun k => word 0 (f k)).

Lemma widen_lo f : bytes f -> _mm_unpacklo_epi8 x_zero (breg f) = widened f.
Proof. intros Hf. rewrite x_zero_bytes. apply unpacklo8; [apply const_bytes; unfold is_byte; lia|done]. Qed.

Lemma widen_hi f : bytes f -> _mm_unpackhi_epi8 x_zero (breg f) = widened (fun k => f (8 + k)).
Proof. intros Hf. rewrite x_zero_bytes. apply unpackhi8; [apply const_bytes; unfold is_byte; lia|done]. Qed.

(** The product of a widened byte by a constant. *)
Lemma scale_lanes f c : 0 <= c < 2 ^ 16 ->
  _mm_mulhi_epu16 (widened f) (_mm_set1_epi16 c) = wreg (fun k => f k * c / 256).
Proof.
  intros Hc. unfold _mm_mulhi_epu16, widened, wreg, _mm_set1_epi16, lanes2.
  assert (E : forall x, (word 0 x * u16 c) >> 16 = x * c / 256).
  { intros x. unfold word, u16. rewrite Z.mod_small, shiftr_div by lia. change (2 ^ 16) with (256 * 256).
    rewrite <- Z.div_div by lia. f_equal. rewrite Z.add_0_l, <- Z.mul_assoc, Z.mul_comm. by rewrite Z.div_mul by lia. }
  by rewrite !E.
Qed.

Lemma luma_lanes f : _mm_mulhi_epu16 (widened f) x_c0 = wreg (fun k => luma_part (f k)).
Proof. unfold x_c0. by rewrite scale_lanes by lia. Qed.

(** The chroma parts, modulo 2^16. *)
Lemma precalc_lanes u v :
  precalc (widened u) (widened v) =
  (wreg (fun k => u16 (blue_part (u k))), wreg (fun k => u16 (green_part (u k) (v k))), wreg (fun k => u16 (red_part (v k)))).
Proof.
  unfold precalc, x_c1, x_c4, x_c5, x_c8. rewrite !scale_lanes by lia.
  unfold x_coff0, x_coff1, x_coff2, _mm_set1_epi16, _mm_add_epi16, _mm_sub_epi16, lanes2, wreg.
  assert (Eb : forall x, u16 (x * 16535 / 256 + u16 56672) = u16 (blue_part x))
    by (intros; unfold blue_part, u16; dlia).
  assert (Er : forall x, u16 (x * 13079 / 256 + u16 58400) = u16 (red_part x))
    by (intros; unfold red_part, u16; dlia).
  assert (Eg : forall x z, u16 (u16 4340 - u16 (x * 3211 / 256 + z * 6662 / 256)) = u16 (green_part x z))
    by (intros; unfold green_part, u16; dlia).
  by rewrite !Eb, !Er, !Eg.
Qed.

(** Eight by two pixels of a channel: the lanes [o], ..., [o + 15] of two woven
    rows. *)
Section channel.
Context (y c : Z -> Z).
Context (Hr : forall k, - 2 ^ 15 <= y k + c (k / 4) < 2 ^ 15).

Lemma channel_lanes o bak : bak = wreg (fun k => u16 (c (o / 4 + k / 2))) -> o mod 4 = 0 ->
  channel (wreg (fun k => y (o + k))) (wreg (fun k => y (o + (8 + k)))) bak =
  breg (fun k => shade (y (o + k)) (c ((o + k) / 4))).
Proof.
  intros -> Ho. unfold channel, wreg. cbn [_mm_unpacklo_epi32 _mm_unpackhi_epi32].
  unfold _mm_add_epi16, _mm_srai_epi16, lanes2, lanes, _mm_packus_epi16, breg.
  assert (E : forall k j, (o + k) / 4 = o / 4 + j / 2 ->
    sat8 (u16 (s16 (u16 (y (o + k) + u16 (c (o / 4 + j / 2)))) >> 5)) = shade (y (o + k)) (c ((o + k) / 4))).
  { intros k j Ej. rewrite <- Ej. apply sat8_shade, Hr. }
  rewrite !(E _ _) by dlia. done.
Qed.
End channel.

(** The first [n] bytes of a register, the others zero. *)
Definition low (n : Z) (f : Z -> Z) (k : Z) : Z := if k <? n then f k else 0.

Lemma low_bytes n f : bytes f -> bytes (low n f).
Proof. intros Hf k. unfold low. case_match; [auto|unfold is_byte; lia]. Qed.

Lemma low_lt n f k : k < n -> low n f k = f k.
Proof. intros H. unfold low. by rewrite (proj2 (Z.ltb_lt _ _)). Qed.

(** Four by two pixels, and two by two with the same chroma part. *)
Lemma channel1_lanes y c : (forall k, - 2 ^ 15 <= y k + c (k / 4) < 2 ^ 15) ->
  channel1 (wreg y) (wreg (fun k => u16 (c (k / 2)))) = breg (low 8 (fun k => shade (y k) (c (k / 4)))).
Proof.
  intros Hr. unfold channel1, wreg. cbn [_mm_unpacklo_epi32].
  unfold _mm_add_epi16, _mm_srai_epi16, lanes2, lanes, _mm_packus_epi16, x_zero, _mm_setzero_si128, breg.
  assert (E : forall k j, k / 4 = j / 2 ->
    sat8 (u16 (s16 (u16 (y k + u16 (c (j / 2)))) >> 5)) = shade (y k) (c (k / 4))).
  { intros k j Ej. rewrite <- Ej. apply sat8_shade, Hr. }
  rewrite !(E _ _) by reflexivity. reflexivity.
Qed.

Lemma channel0_lanes y c : (forall k, - 2 ^ 15 <= y k + c < 2 ^ 15) ->
  channel0 (wreg y) c = breg (low 8 (fun k => shade (y k) c)).
Proof.
  intros Hr. unfold channel0, wreg, _mm_set1_epi16.
  unfold _mm_add_epi16, _mm_srai_epi16, lanes2, lanes, _mm_packus_epi16, x_zero, _mm_setzero_si128, breg.
  rewrite !sat8_shade by apply Hr. reflexivity.
Qed.

(** A colour scaled by alpha: never above alpha. *)
Definition scaled (c a : Z) : Z := c * (a + 1) / 256.

Lemma scaled_le c a : is_byte c -> is_byte a -> 0 <= scaled c a <= a.
Proof.
  unfold is_byte, scaled. intros. split; [apply Z.div_pos; nia|].
  assert (c * (a + 1) < (a + 1) * 256) by nia. pose proof (Z.div_lt_upper_bound (c * (a + 1)) 256 (a + 1)). lia.
Qed.

Lemma scaled_opaque c : scaled c 255 = c.
Proof. unfold scaled. change (255 + 1) with 256. by rewrite Z.div_mul by lia. Qed.

Lemma premultiply_word c a : is_byte c -> is_byte a ->
  sat8 (u16 (word c 0 * u16 (word a 0 + u16 1)) >> 8) = scaled c a.
Proof.
  intros Hc Ha. pose proof (scaled_le c a Hc Ha) as Hs. unfold is_byte in *.
  assert (E1 : word c 0 = c) by (unfold word; lia). assert (E2 : u16 (word a 0 + u16 1) = a + 1) by (unfold word, u16; dlia).
  rewrite E1, E2. assert (E3 : u16 (c * (a + 1)) = c * (a + 1)) by (unfold u16; apply Z.mod_small; nia).
  rewrite E3, shiftr_div by lia. change (2 ^ 8) with 256. fold (scaled c a).
  unfold sat8, saturate_u8, s16. dlia.
Qed.

Lemma premultiply_lanes c a : bytes c -> bytes a ->
  PREMULTIPLY_ALPHA (breg c) (breg a) = breg (fun k => scaled (c k) (a k)).
Proof.
  intros Hc Ha. unfold PREMULTIPLY_ALPHA. assert (H0 : bytes (fun _ => 0)) by (apply const_bytes; unfold is_byte; lia).
  rewrite x_zero_bytes, !unpacklo8, !unpackhi8 by done.
  unfold x_one, _mm_set1_epi16, _mm_add_epi16, _mm_mullo_epi16, _mm_srli_epi16, _mm_packus_epi16, wreg, lanes, lanes2.
  rewrite !premultiply_word by auto. reflexivity.
Qed.

(** ** Formats *)

(** A pixel as the four bytes at the address of its first. *)
Record pixel_spec : Type := PixelSpec {
  sp_scale : Z -> Z -> Z;               (* a colour, from the colour and alpha *)
  sp_place : Z -> Z -> Z -> Z -> Z -> Z (* byte [k], from alpha, red, green and blue *)
}.

(** Four pixels in a register: byte [k mod 4] of pixel [k / 4]. *)
Definition quad (p : Z -> Z -> Z) : m128 := breg (fun k => p (k / 4) (k mod 4)).

(** What a format promises to the steps: scaling is done byte by byte, and the
    sequences of a half hold the pixels of four columns of both rows. *)
Class FormatLaws (fmt : pixel_format) (sp : pixel_spec) : Prop := {
  premultiply_ok c a : bytes c -> bytes a ->
    fmt.(premultiply) (breg c) (breg a) = breg (fun k => sp.(sp_scale) (c k) (a k));
  scale_byte c a : is_byte c -> is_byte a -> is_byte (sp.(sp_scale) c a);
  lo_ok a r g b : bytes a -> bytes r -> bytes g -> bytes b ->
    sequences (fmt.(halves_lo) (breg a) (breg r) (breg g) (breg b)) =
    (quad (fun c => let k := upper c in sp.(sp_place) (a k) (r k) (g k) (b k)),
     quad (fun c => let k := upper c + 2 in sp.(sp_place) (a k) (r k) (g k) (b k)));
  hi_ok a r g b : bytes a -> bytes r -> bytes g -> bytes b ->
    sequences (fmt.(halves_hi) (breg a) (breg r) (breg g) (breg b)) =
    (quad (fun c => let k := 8 + upper c in sp.(sp_place) (a k) (r k) (g k) (b k)),
     quad (fun c => let k := 8 + upper c + 2 in sp.(sp_place) (a k) (r k) (g k) (b k)));
  lo_words_ok a r g b : bytes a -> bytes r -> bytes g -> bytes b ->
    (let '(x, z) := fmt.(halves_lo) (breg a) (breg r) (breg g) (breg b) in _mm_unpacklo_epi16 x z) =
    breg (fun j => let k := j / 4 in sp.(sp_place) (a k) (r k) (g k) (b k) (j mod 4));
  place_byte a r g b k : is_byte a -> is_byte r -> is_byte g -> is_byte b -> is_byte (sp.(sp_place) a r g b k)
}.

Definition argb_place (a r g b k : Z) : Z := if k =? 0 then a else if k =? 1 then r else if k =? 2 then g else b.
Definition bgra_place (a r g b k : Z) : Z := if k =? 0 then b else if k =? 1 then g else if k =? 2 then r else a.

Definition argb_spec : pixel_spec := PixelSpec (fun c _ => c) argb_place.
Definition bgra_spec : pixel_spec := PixelSpec scaled bgra_place.
Definition bgra_opaque_spec : pixel_spec := PixelSpec (fun c _ => c) bgra_place.

(** Interleaving the bytes of a format's halves. *)
Ltac halves :=
  cbv [premultiply halves_lo halves_hi sp_scale sp_place ARGB32 BGRA32 BGRA32_no_alpha argb_spec bgra_spec
       bgra_opaque_spec argb_lo argb_hi bgra_lo bgra_hi]; intros;
  rewrite ?unpacklo8, ?unpackhi8 by done; try reflexivity.

#[export] Instance ARGB32_laws : FormatLaws ARGB32 argb_spec.
Proof. split; halves; [done|]. unfold argb_place. repeat case_match; done. Qed.

#[export] Instance BGRA32_laws : FormatLaws BGRA32 bgra_spec.
Proof.
  split; halves.
  - by apply premultiply_lanes.
  - pose proof (scaled_le c a). unfold is_byte in *. lia.
  - unfold bgra_place. repeat case_match; done.
Qed.

#[export] Instance BGRA32_no_alpha_laws : FormatLaws BGRA32_no_alpha bgra_opaque_spec.
Proof. split; halves; [done|]. unfold bgra_place. repeat case_match; done. Qed.

(** ** Memory *)

Lemma load_word_ok p i : 0 <= i -> i + 2 <= alen p.(data) ->
  load_word p i = Some (word (sample p.(data) i) (sample p.(data) (i + 1))).
Proof.
  intros Hi Hl. unfold load_word, sample.
  destruct (aget_ex p.(data) i) as [l ->]; [lia|]. destruct (aget_ex p.(data) (i + 1)) as [h ->]; [lia|]. done.
Qed.

Lemma loadu_ok p i : 0 <= i -> i + 16 <= alen p.(data) ->
  _mm_loadu_si128 p i = Some (breg (fun k => sample p.(data) (i + k))).
Proof.
  intros Hi Hl. unfold _mm_loadu_si128. rewrite !load_word_ok by lia. mred.
  rewrite <- !Z.add_assoc. unfold breg. cbv beta. by rewrite Z.add_0_r.
Qed.

Lemma loadl_ok p i : 0 <= i -> i + 8 <= alen p.(data) ->
  _mm_loadl_epi64 p i = Some (breg (low 8 (fun k => sample p.(data) (i + k)))).
Proof.
  intros Hi Hl. unfold _mm_loadl_epi64. rewrite !load_word_ok by lia. mred.
  rewrite <- !Z.add_assoc. unfold breg, low. cbn [Z.ltb Z.compare Pos.compare Pos.compare_cont]. by rewrite Z.add_0_r.
Qed.

(** A register made of two words through an [int32_t]. *)
Definition is_word (w : Z) : Prop := 0 <= w < 2 ^ 16.

Lemma word_range l h : is_byte l -> is_byte h -> is_word (word l h).
Proof. unfold is_byte, is_word, word. lia. Qed.

Lemma cvt_words l h : is_word l -> is_word h ->
  _mm_cvtsi32_si128 (i32 (l .| (h << 16))) = M128 l h 0 0 0 0 0 0.
Proof.
  unfold is_word. intros Hl Hh. unfold _mm_cvtsi32_si128. rewrite Z.lor_comm, lor_shiftl_add by lia.
  rewrite !shiftr_div by lia. unfold i32, u16. f_equal; dlia.
Qed.

Section loads.
Context (p : plane) (i : Z) (Hp : is_plane p.(data)) (Hi : 0 <= i).

Lemma sample_bytes : bytes (fun k => sample p.(data) (i + k)).
Proof using Hp.
  intros k. unfold sample. destruct (aget p.(data) (i + k)) as [x|] eqn:E; [by eapply Hp|]. cbn. unfold is_byte. lia.
Qed.

Lemma load_int32_ok : i + 4 <= alen p.(data) ->
  exists x, load_int32 p i = Some x /\ _mm_cvtsi32_si128 x = breg (low 4 (fun k => sample p.(data) (i + k))).
Proof using Hp Hi.
  intros Hl. unfold load_int32. rewrite !load_word_ok by lia. mred. eexists; split; [reflexivity|].
  pose proof sample_bytes as Hs. pose proof (Hs 0). pose proof (Hs 1). pose proof (Hs 2). pose proof (Hs 3). cbv beta in *.
  rewrite Z.add_0_r in *. rewrite <- Z.add_assoc. rewrite cvt_words by (apply word_range; done).
  unfold breg, low. cbn [Z.ltb Z.compare Pos.compare Pos.compare_cont]. by rewrite Z.add_0_r.
Qed.

Lemma load_uint16_ok : i + 2 <= alen p.(data) ->
  exists x, load_uint16 p i = Some x /\ _mm_cvtsi32_si128 x = breg (low 2 (fun k => sample p.(data) (i + k))).
Proof using Hp Hi.
  intros Hl. unfold load_uint16. rewrite !load_word_ok by lia. eexists; split; [reflexivity|].
  pose proof sample_bytes as Hs. pose proof (Hs 0) as H0. pose proof (Hs 1) as H1. cbv beta in *. rewrite Z.add_0_r in *.
  pose proof (word_range _ _ H0 H1) as Hw. unfold is_word, _mm_cvtsi32_si128 in *. rewrite shiftr_div by lia.
  unfold breg, low. cbn [Z.ltb Z.compare Pos.compare Pos.compare_cont]. rewrite Z.add_0_r.
  set (w := word _ _) in *. f_equal; unfold u16; [apply Z.mod_small; lia|].
  rewrite (Z.div_small w) by lia. reflexivity.
Qed.

(** Two bytes of each row in one [int32_t]. *)
Lemma load_pairs_ok i2 : i + 2 <= alen p.(data) -> 0 <= i2 -> i2 + 2 <= alen p.(data) ->
  bytes (fun k => sample p.(data) (i2 + k)) ->
  exists x, load_pairs p i i2 = Some x /\
    _mm_cvtsi32_si128 x = breg (low 4 (woven (fun k => sample p.(data) (i + k)) (fun k => sample p.(data) (i2 + k)))).
Proof using Hp Hi.
  intros Hl Hi2 Hl2 Hs2. unfold load_pairs, load_uint16. rewrite !load_word_ok by lia. mred. eexists; split; [reflexivity|].
  pose proof sample_bytes as Hs. pose proof (Hs 0). pose proof (Hs 1). pose proof (Hs2 0). pose proof (Hs2 1).
  cbv beta in *. rewrite Z.add_0_r in *.
  assert (Hw : is_word (word (sample p.(data) i) (sample p.(data) (i + 1)))) by by apply word_range.
  change 0xffff with (Z.ones 16). rewrite Z.land_ones, Z.mod_small by (unfold is_word in *; lia).
  rewrite cvt_words by (apply word_range; done). unfold breg, low. cbn [Z.ltb Z.compare Pos.compare Pos.compare_cont]. unfold woven. cbn. by rewrite !Z.add_0_r.
Qed.
End loads.

Lemma store_bytes_ok l : forall i m, 0 <= i -> i + alen l <= alen m ->
  exists m', store_bytes l i m = Some m' /\ pointwise m m' (span_fn i (alen l) (fun k _ => sample l k)).
Proof.
  induction l as [|b l IH]; intros i m Hi Hl.
  - exists m. split; [done|]. eapply pointwise_ext; [|apply pointwise_refl]. intros j w _. by rewrite span_fn_0.
  - rewrite alen_cons in *. pose proof (alen_nonneg l). cbn [store_bytes].
    destruct (aset_pointwise m i b) as (m1 & -> & H1); [lia|]. mred.
    destruct (IH (i + 1) m1) as (m2 & -> & H2); [lia|rewrite (pointwise_alen _ _ _ H1); lia|].
    exists m2. split; [done|]. eapply pointwise_ext; [|exact (pointwise_trans _ _ _ _ _ H1 H2)].
    intros j w _. unfold span_fn, sample, aget.
    destruct (Z.eqb_spec j i) as [->|]; case_bools; try done.
    + by rewrite Z.sub_diag.
    + replace (Z.to_nat (j - i)) with (S (Z.to_nat (j - (i + 1)))) by lia. done.
Qed.

Lemma tabulate_alen f n : 0 <= n -> alen (tabulate f n) = n.
Proof. intros Hn. unfold alen, tabulate. rewrite length_fmap, length_seqZ. lia. Qed.

Lemma tabulate_sample f n k : 0 <= k < n -> sample (tabulate f n) k = f k.
Proof. intros Hk. unfold sample. by rewrite tabulate_get. Qed.

Lemma register_bytes f : bytes f -> bytes_lo (breg f) ++ bytes_hi (breg f) = tabulate f 16.
Proof. intros Hf. unfold bytes_lo, bytes_hi, breg. rewrite !lo8_word, !hi8_word by auto. done. Qed.

Lemma low_bytes_stored f : bytes f -> bytes_lo (breg f) = tabulate f 8.
Proof. intros Hf. unfold bytes_lo, breg. rewrite !lo8_word, !hi8_word by auto. done. Qed.

Lemma high_bytes_stored f : bytes f -> bytes_lo (_mm_srli_si128_8 (breg f)) = tabulate (fun k => f (8 + k)) 8.
Proof. intros Hf. unfold bytes_lo, _mm_srli_si128_8, breg. rewrite !lo8_word, !hi8_word by auto. done. Qed.

(** Storing consecutive bytes given by a function. *)
Lemma store_tabulate f n i m : 0 <= n -> 0 <= i -> i + n <= alen m ->
  exists m', store_bytes (tabulate f n) i m = Some m' /\ pointwise m m' (span_fn i n (fun k _ => f k)).
Proof.
  intros Hn Hi Hl. destruct (store_bytes_ok (tabulate f n) i m) as (m' & E & H); [done|by rewrite tabulate_alen|].
  exists m'. split; [done|]. rewrite tabulate_alen in H by done. eapply pointwise_ext; [|exact H].
  intros j w _. unfold span_fn. destruct (Z.leb_spec i j), (Z.ltb_spec j (i + n)); cbn [andb]; try done.
  apply tabulate_sample. lia.
Qed.

Lemma misaligned_mod x : x mod 16 = 0 -> misaligned x = false.
Proof. intros H. unfold misaligned. rewrite (proj2 (Z.rem_divide x 16 ltac:(lia))); [done|by apply Z.mod_divide]. Qed.

(** ** Rows *)

Lemma span_extend d n l c f j w : 0 <= n -> 0 <= l -> (forall k, 0 <= k < l -> f k = c (n + k)) ->
  span_fn (d + n) l (fun k _ => f k) j (span_fn d n (fun k _ => c k) j w) = span_fn d (n + l) (fun k _ => c k) j w.
Proof. intros Hn Hl H. unfold span_fn. case_bools; try done. rewrite H by lia. f_equal. lia. Qed.

Lemma span_swap d1 n1 d2 n2 f1 f2 j (w : Z) : d1 + n1 <= d2 ->
  span_fn d1 n1 (fun k _ => f1 k) j (span_fn d2 n2 (fun k _ => f2 k) j w) =
  span_fn d2 n2 (fun k _ => f2 k) j (span_fn d1 n1 (fun k _ => f1 k) j w).
Proof. intros H. unfold span_fn. case_bools; done. Qed.

(** Two rows of bytes, [n1] of the first and [n2] of the second written. *)
Definition rows_fn (D1 D2 : Z) (c1 c2 : Z -> Z) (n1 n2 j w : Z) : Z :=
  span_fn D2 n2 (fun k _ => c2 k) j (span_fn D1 n1 (fun k _ => c1 k) j w).

Lemma rows_extend1 D1 D2 c1 c2 n1 n2 l f j w : 0 <= n1 -> 0 <= l -> D1 + n1 + l <= D2 ->
  (forall k, 0 <= k < l -> f k = c1 (n1 + k)) ->
  span_fn (D1 + n1) l (fun k _ => f k) j (rows_fn D1 D2 c1 c2 n1 n2 j w) = rows_fn D1 D2 c1 c2 (n1 + l) n2 j w.
Proof. intros Hn Hl Hd H. unfold rows_fn. rewrite span_swap by lia. by rewrite span_extend. Qed.

Lemma rows_extend2 D1 D2 c1 c2 n1 n2 l f j w : 0 <= n2 -> 0 <= l ->
  (forall k, 0 <= k < l -> f k = c2 (n2 + k)) ->
  span_fn (D2 + n2) l (fun k _ => f k) j (rows_fn D1 D2 c1 c2 n1 n2 j w) = rows_fn D1 D2 c1 c2 n1 (n2 + l) j w.
Proof. intros Hn Hl H. unfold rows_fn. by rewrite span_extend. Qed.

(** Byte [k] of the pixel of the samples [Y], [U], [V] and alpha [A]. *)
Definition sse_byte (sp : pixel_spec) (Y U V A k : Z) : Z :=
  let y := luma_part Y in
  sp.(sp_place) A (sp.(sp_scale) (shade y (red_part V)) A) (sp.(sp_scale) (shade y (green_part U V)) A)
    (sp.(sp_scale) (shade y (blue_part U)) A) k.

(** A sample of the alpha plane, opaque where there is none. *)
Definition alpha_sample (a : option plane) (i : Z) : Z :=
  match a with Some p => sample p.(data) i | None => 255 end.

Lemma plane_sample_byte p i : is_plane p -> is_byte (sample p i).
Proof.
  intros Hp. unfold sample. destruct (aget p i) as [x|] eqn:E; [by eapply Hp|]. unfold is_byte. cbn. lia.
Qed.

Lemma column_byte i c j : i mod 4 = 0 -> 0 <= j < 4 ->
  (4 * (i + c) + j) / 4 = i + c /\ (4 * (i + c) + j) mod 4 = j /\ (i + c) / 2 = i / 2 + c / 2.
Proof. intros. split_and!; dlia. Qed.

Lemma alpha_sample_byte a k : (forall p, a = Some p -> is_plane p.(data)) -> is_byte (alpha_sample a k).
Proof. intros Pa. destruct a as [p|]; [by apply plane_sample_byte, Pa|]. unfold is_byte. cbn. lia. Qed.

(** Alpha of two rows, from [i1] and [i2] on: the lanes are woven as those of
    luma, and [n] of them are defined. *)
Section load_alpha.
Context (a : option plane) (i1 i2 : Z).

Definition alpha_lanes : Z -> Z := woven (fun k => alpha_sample a (i1 + k)) (fun k => alpha_sample a (i2 + k)).

Definition alpha_room (n : Z) : Prop := forall p, a = Some p ->
  is_plane p.(data) /\ 0 <= i1 /\ 0 <= i2 /\ i1 + n <= alen p.(data) /\ i2 + n <= alen p.(data).

Lemma load_alpha16_ok load_si128 : alpha_room 16 ->
  (forall p, a = Some p -> load_si128 p i1 = _mm_loadu_si128 p i1 /\ load_si128 p i2 = _mm_loadu_si128 p i2) ->
  load_alpha16 a load_si128 i1 i2 = Some (breg alpha_lanes, breg (fun k => alpha_lanes (16 + k))).
Proof using.
  unfold alpha_lanes, alpha_room. destruct a as [p|]; intros Hr Hl; [|reflexivity].
  destruct (Hr p eq_refl) as (Hp & ? & ? & ? & ?), (Hl p eq_refl) as (E1 & E2).
  cbn [load_alpha16]. rewrite E1, E2, !loadu_ok by lia. reflexivity.
Qed.

Lemma load_alpha8_ok : alpha_room 8 -> load_alpha8 a i1 i2 = Some (breg alpha_lanes).
Proof using.
  unfold alpha_lanes, alpha_room. destruct a as [p|]; intros Hr; [|reflexivity].
  destruct (Hr p eq_refl) as (Hp & ? & ? & ? & ?). cbn [load_alpha8]. rewrite !loadl_ok by lia. reflexivity.
Qed.

(** A register whose first [n] bytes are those of [f]. *)
Definition starts (n : Z) (f g : Z -> Z) : Prop := bytes g /\ forall k, 0 <= k < n -> g k = f k.

Lemma load_alpha4_ok : alpha_room 4 ->
  exists g, load_alpha4 a i1 i2 = Some (breg g) /\ starts 8 alpha_lanes g.
Proof using.
  unfold alpha_lanes, alpha_room. destruct a as [p|]; intros Hr; [|exists (fun _ => 255); split; [reflexivity|]].
  - destruct (Hr p eq_refl) as (Hp & ? & ? & ? & ?). cbn [load_alpha4].
    destruct (load_int32_ok p i1) as (x1 & -> & E1); [done..|]. destruct (load_int32_ok p i2) as (x2 & -> & E2); [done..|].
    mred. rewrite E1, E2, unpacklo16. eexists; split; [reflexivity|]. split; [|intros k Hk; unfold woven].
    + apply woven_bytes; apply low_bytes; by apply sample_bytes.
    + case_match; (rewrite low_lt by dlia; reflexivity).
  - split; [apply const_bytes; unfold is_byte; lia|]. intros k _. unfold woven. by case_match.
Qed.

Lemma load_alpha2_ok : alpha_room 2 ->
  exists g, load_alpha2 a i1 i2 = Some (breg g) /\ starts 4 alpha_lanes g.
Proof using.
  unfold alpha_lanes, alpha_room. destruct a as [p|]; intros Hr; [|exists (fun _ => 255); split; [reflexivity|]].
  - destruct (Hr p eq_refl) as (Hp & ? & ? & ? & ?). cbn [load_alpha2].
    destruct (load_pairs_ok p i1 Hp ltac:(done) i2 ltac:(done) ltac:(done) ltac:(done) (sample_bytes p i2 Hp)) as (x & -> & E).
    mred. rewrite E. eexists; split; [reflexivity|]. split; [by apply low_bytes, woven_bytes; apply sample_bytes|].
    intros k Hk. rewrite low_lt by lia. reflexivity.
  - split; [apply const_bytes; unfold is_byte; lia|]. intros k _. unfold woven. by case_match.
Qed.
End load_alpha.

Section row_pair.
Context (fmt : pixel_format) (sp : pixel_spec) `{!FormatLaws fmt sp}.
Context (d : Z) (y v u : plane) (a : option plane) (load_si128 : plane -> Z -> option m128).
Context (Y1 Y2 U V A1 A2 D1 D2 W : Z) (m0 : list Z).
Context (Py : is_plane y.(data)) (Pu : is_plane u.(data)) (Pv : is_plane v.(data)).
Context (Pa : forall p, a = Some p -> is_plane p.(data)).
Context (HY1 : 0 <= Y1) (HY2 : 0 <= Y2) (HU : 0 <= U) (HV : 0 <= V) (HD1 : 0 <= D1).
Context (LY1 : Y1 + W <= alen y.(data)) (LY2 : Y2 + W <= alen y.(data)).
Context (LU : U + W / 2 <= alen u.(data)) (LV : V + W / 2 <= alen v.(data)).
Context (HA : forall p, a = Some p -> 0 <= A1 /\ 0 <= A2 /\ A1 + W <= alen p.(data) /\ A2 + W <= alen p.(data)).
Context (HD : D1 + 4 * W <= D2) (LD : D2 + 4 * W <= alen m0).
Context (AD1 : (d + D1) mod 16 = 0) (AD2 : (d + D2) mod 16 = 0).
Context (Ly : forall i, i mod 16 = 0 ->
  load_si128 y (Y1 + i) = _mm_loadu_si128 y (Y1 + i) /\ load_si128 y (Y2 + i) = _mm_loadu_si128 y (Y2 + i)).
Context (La : forall p i, a = Some p -> i mod 16 = 0 ->
  load_si128 p (A1 + i) = _mm_loadu_si128 p (A1 + i) /\ load_si128 p (A2 + i) = _mm_loadu_si128 p (A2 + i)).

(** The bytes of the two rows. *)
Definition row_byte (Yr Ar k : Z) : Z :=
  let c := k / 4 in
  sse_byte sp (sample y.(data) (Yr + c)) (sample u.(data) (U + c / 2)) (sample v.(data) (V + c / 2))
    (alpha_sample a (Ar + c)) (k mod 4).

(** [m] is the destination with [n] pixels of both rows written. *)
Definition written (n : Z) (m : list Z) : Prop :=
  pointwise m0 m (rows_fn D1 D2 (row_byte Y1 A1) (row_byte Y2 A2) (4 * n) (4 * n)).

(** The cursors after [i] pixels. *)
Definition at_column (i : Z) (m : list Z) : row :=
  Row (Y1 + i) (Y2 + i) (U + i / 2) (V + i / 2) (A1 + i) (A2 + i) (D1 + 4 * i) (D2 + 4 * i) i m.

(** *** Saving *)

Lemma store_ok f i m : bytes f -> 0 <= i -> i + 16 <= alen m -> (d + i) mod 16 = 0 ->
  exists m', SAVE_ARGB1 d (breg f) i m = Some (i + 16, m') /\ pointwise m m' (span_fn i 16 (fun k _ => f k)).
Proof using.
  clear. intros Hf Hi Hl Ha. unfold SAVE_ARGB1, _mm_store_si128. rewrite misaligned_mod, register_bytes by done.
  destruct (store_tabulate f 16 i m) as (m' & -> & H); [lia..|]. mred. eauto.
Qed.

(** A register of four pixels saved in each row, at column [n]. *)
Lemma save_pixels n f1 f2 m : bytes f1 -> bytes f2 -> 0 <= n -> n mod 4 = 0 -> n + 4 <= W -> written n m ->
  (forall k, 0 <= k < 16 -> f1 k = row_byte Y1 A1 (4 * n + k)) ->
  (forall k, 0 <= k < 16 -> f2 k = row_byte Y2 A2 (4 * n + k)) ->
  exists m', save_rows d (breg f1, breg f2) (D1 + 4 * n) (D2 + 4 * n) m =
    Some (D1 + 4 * (n + 4), D2 + 4 * (n + 4), m') /\ written (n + 4) m'.
Proof using HD1 HD LD AD1 AD2.
  intros B1 B2 Hn Hn4 HW Hm H1 H2. unfold save_rows. cbn [fst snd].
  pose proof (pointwise_alen _ _ _ Hm) as Lm.
  destruct (store_ok f1 (D1 + 4 * n) m) as (m1 & -> & P1); [done|lia|lia|clear -AD1 Hn4; dlia|]. mred.
  pose proof (pointwise_alen _ _ _ P1) as Lm1.
  destruct (store_ok f2 (D2 + 4 * n) m1) as (m2 & -> & P2); [done|lia|lia|clear -AD2 Hn4; dlia|]. mred.
  exists m2. replace (4 * (n + 4)) with (4 * n + 16) by lia. rewrite !Z.add_assoc. split; [done|].
  unfold written. replace (4 * (n + 4)) with (4 * n + 16) by lia.
  eapply pointwise_ext; [|exact (pointwise_trans _ _ _ _ _ Hm (pointwise_trans _ _ _ _ _ P1 P2))].
  intros j w _. cbv beta. rewrite rows_extend1, rows_extend2 by (done || lia). done.
Qed.

Section column.
Context (i : Z) (Hi : 0 <= i) (Hi4 : i mod 4 = 0).

(** The lanes of the step at column [i]: luma and alpha of both rows woven,
    chroma. *)
Definition wy : Z -> Z := woven (fun k => sample y.(data) (Y1 + i + k)) (fun k => sample y.(data) (Y2 + i + k)).
Definition wa : Z -> Z := alpha_lanes a (A1 + i) (A2 + i).
Definition cu (k : Z) : Z := sample u.(data) (U + i / 2 + k).
Definition cv (k : Z) : Z := sample v.(data) (V + i / 2 + k).

Lemma wy_bytes : bytes wy.
Proof using Py. apply woven_bytes; intros k; by apply plane_sample_byte. Qed.

Lemma wa_bytes : bytes wa.
Proof using Pa. apply woven_bytes; intros k; cbv beta; by apply alpha_sample_byte. Qed.

Lemma cu_bytes : bytes cu.
Proof using Pu. intros k. by apply plane_sample_byte. Qed.

Lemma cv_bytes : bytes cv.
Proof using Pv. intros k. by apply plane_sample_byte. Qed.

(** Byte [j] of the pixel in lane [k]. *)
Definition lane_pixel (k j : Z) : Z := sse_byte sp (wy k) (cu (k / 4)) (cv (k / 4)) (wa k) j.

Lemma lane_pixel_upper c j : 0 <= j < 4 -> lane_pixel (upper c) j = row_byte Y1 A1 (4 * (i + c) + j).
Proof using Hi4.
  intros Hj. unfold lane_pixel, wy, wa, alpha_lanes, cu, cv, row_byte. rewrite !woven_upper, (proj1 (upper_chroma c)).
  destruct (column_byte i c j Hi4 Hj) as (-> & -> & ->). by rewrite !Z.add_assoc.
Qed.

Lemma lane_pixel_lower c j : 0 <= j < 4 -> lane_pixel (upper c + 2) j = row_byte Y2 A2 (4 * (i + c) + j).
Proof using Hi4.
  intros Hj. unfold lane_pixel, wy, wa, alpha_lanes, cu, cv, row_byte. rewrite !woven_lower, (proj2 (upper_chroma c)).
  destruct (column_byte i c j Hi4 Hj) as (-> & -> & ->). by rewrite !Z.add_assoc.
Qed.

(** Colours and scaled colours of the lanes. *)
Definition lane_colour (part : Z -> Z) (k : Z) : Z := shade (luma_part (wy k)) (part (k / 4)).
Definition lane_scaled (part : Z -> Z) (k : Z) : Z := sp.(sp_scale) (lane_colour part k) (wa k).

Lemma lane_scaled_bytes part : bytes (lane_scaled part).
Proof using FormatLaws0 Pa. intros k. apply scale_byte; [apply shade_byte|apply wa_bytes]. Qed.

(** The registers of a half of the lanes, saved: [o] is the first lane of the
    registers. *)
Lemma lanes_byte a' r' g' b' : bytes a' -> bytes r' -> bytes g' -> bytes b' ->
  forall h, bytes (fun k => let l := h (k / 4) in sp.(sp_place) (a' l) (r' l) (g' l) (b' l) (k mod 4)).
Proof using FormatLaws0. intros Ha Hr Hg Hb h k. apply place_byte; auto. Qed.

Definition lane_regs (o lo hi : Z) (a' r' g' b' : Z -> Z) : Prop :=
  bytes a' /\ bytes r' /\ bytes g' /\ bytes b' /\
  forall k, lo <= k < hi ->
    a' k = wa (o + k) /\ r' k = lane_scaled (fun j => red_part (cv j)) (o + k) /\
    g' k = lane_scaled (fun j => green_part (cu j) (cv j)) (o + k) /\
    b' k = lane_scaled (fun j => blue_part (cu j)) (o + k).

Lemma lane_regs_pixel o lo hi a' r' g' b' k j : lane_regs o lo hi a' r' g' b' -> lo <= k < hi ->
  sp.(sp_place) (a' k) (r' k) (g' k) (b' k) j = lane_pixel (o + k) j.
Proof using. intros (_ & _ & _ & _ & H) Hk. destruct (H k Hk) as (-> & -> & -> & ->). done. Qed.

Lemma save_lo o n a' r' g' b' m : lane_regs o 0 8 a' r' g' b' -> n = i + o / 2 -> 0 <= o -> o mod 8 = 0 ->
  n + 4 <= W -> written n m ->
  exists m', save_rows d (sequences (fmt.(halves_lo) (breg a') (breg r') (breg g') (breg b')))
      (D1 + 4 * n) (D2 + 4 * n) m = Some (D1 + 4 * (n + 4), D2 + 4 * (n + 4), m') /\ written (n + 4) m'.
Proof using FormatLaws0 HD1 HD LD AD1 AD2 Hi Hi4.
  intros Hl -> Ho Ho8 HW Hm. pose proof Hl as (Ba & Br & Bg & Bb & _). rewrite lo_ok by done. unfold quad.
  apply save_pixels; try done.
  - exact (lanes_byte a' r' g' b' Ba Br Bg Bb upper).
  - exact (lanes_byte a' r' g' b' Ba Br Bg Bb (fun c => upper c + 2)).
  - clear -Hi Ho. dlia.
  - clear -Hi4 Ho8. dlia.
  - intros k Hk. cbv zeta. erewrite lane_regs_pixel by (try done; unfold upper; clear -Hk; dlia).
    replace (o + upper (k / 4)) with (upper (o / 2 + k / 4)) by (unfold upper; clear -Ho8; dlia).
    rewrite lane_pixel_upper by (clear -Hk; dlia). f_equal. clear; dlia.
  - intros k Hk. cbv zeta. erewrite lane_regs_pixel by (try done; unfold upper; clear -Hk; dlia).
    replace (o + (upper (k / 4) + 2)) with (upper (o / 2 + k / 4) + 2) by (unfold upper; clear -Ho8; dlia).
    rewrite lane_pixel_lower by (clear -Hk; dlia). f_equal. clear; dlia.
Qed.

Lemma save_hi o n a' r' g' b' m : lane_regs o 8 16 a' r' g' b' -> n = i + o / 2 + 4 -> 0 <= o -> o mod 8 = 0 ->
  n + 4 <= W -> written n m ->
  exists m', save_rows d (sequences (fmt.(halves_hi) (breg a') (breg r') (breg g') (breg b')))
      (D1 + 4 * n) (D2 + 4 * n) m = Some (D1 + 4 * (n + 4), D2 + 4 * (n + 4), m') /\ written (n + 4) m'.
Proof using FormatLaws0 HD1 HD LD AD1 AD2 Hi Hi4.
  intros Hl -> Ho Ho8 HW Hm. pose proof Hl as (Ba & Br & Bg & Bb & _). rewrite hi_ok by done. unfold quad.
  apply save_pixels; try done.
  - exact (lanes_byte a' r' g' b' Ba Br Bg Bb (fun c => 8 + upper c)).
  - exact (lanes_byte a' r' g' b' Ba Br Bg Bb (fun c => 8 + upper c + 2)).
  - clear -Hi Ho. dlia.
  - clear -Hi4 Ho8. dlia.
  - intros k Hk. cbv zeta. erewrite lane_regs_pixel by (try done; unfold upper; clear -Hk; dlia).
    replace (o + (8 + upper (k / 4))) with (upper (o / 2 + 4 + k / 4)) by (unfold upper; clear -Ho8; dlia).
    rewrite lane_pixel_upper by (clear -Hk; dlia). f_equal. clear; dlia.
  - intros k Hk. cbv zeta. erewrite lane_regs_pixel by (try done; unfold upper; clear -Hk; dlia).
    replace (o + (8 + upper (k / 4) + 2)) with (upper (o / 2 + 4 + k / 4) + 2) by (unfold upper; clear -Ho8; dlia).
    rewrite lane_pixel_lower by (clear -Hk; dlia). f_equal. clear; dlia.
Qed.

(** *** The steps *)

Lemma alpha_room_at n : i + n <= W -> alpha_room a (A1 + i) (A2 + i) n.
Proof using HA Hi Pa. intros Hn p E. destruct (HA p E) as (? & ? & ? & ?). split_and!; [by apply Pa|lia..]. Qed.

(** A scaled channel of eight by two pixels. *)
Lemma scaled_channel o part bak : (forall k, - 2 ^ 15 <= luma_part (wy k) + part (k / 4) < 2 ^ 15) -> o mod 4 = 0 ->
  bak = wreg (fun k => u16 (part (o / 4 + k / 2))) ->
  fmt.(premultiply) (channel (wreg (fun k => luma_part (wy (o + k)))) (wreg (fun k => luma_part (wy (o + (8 + k))))) bak)
    (breg (fun k => wa (o + k))) = breg (fun k => lane_scaled part (o + k)).
Proof using FormatLaws0 Py Pa.
  intros Hr Ho ->. rewrite (channel_lanes (fun k => luma_part (wy k)) part) by done.
  rewrite premultiply_ok; [done|intros k; apply shade_byte|intros k; apply wa_bytes].
Qed.

Lemma lane_regs_scaled o lo hi : lane_regs o lo hi (fun k => wa (o + k)) (fun k => lane_scaled (fun j => red_part (cv j)) (o + k))
  (fun k => lane_scaled (fun j => green_part (cu j) (cv j)) (o + k)) (fun k => lane_scaled (fun j => blue_part (cu j)) (o + k)).
Proof using FormatLaws0 Pa.
  split_and!; try (intros k; apply lane_scaled_bytes); [intros k; apply wa_bytes|]. intros k _. done.
Qed.

(** The three channels of the lanes from [o] on. *)
Lemma scaled_channels o y1 y2 bu bg bv :
  y1 = wreg (fun k => luma_part (wy (o + k))) -> y2 = wreg (fun k => luma_part (wy (o + (8 + k)))) -> o mod 4 = 0 ->
  bu = wreg (fun k => u16 (blue_part (cu (o / 4 + k / 2)))) ->
  bg = wreg (fun k => u16 (green_part (cu (o / 4 + k / 2)) (cv (o / 4 + k / 2)))) ->
  bv = wreg (fun k => u16 (red_part (cv (o / 4 + k / 2)))) ->
  fmt.(premultiply) (channel y1 y2 bu) (breg (fun k => wa (o + k))) = breg (fun k => lane_scaled (fun j => blue_part (cu j)) (o + k)) /\
  fmt.(premultiply) (channel y1 y2 bg) (breg (fun k => wa (o + k))) = breg (fun k => lane_scaled (fun j => green_part (cu j) (cv j)) (o + k)) /\
  fmt.(premultiply) (channel y1 y2 bv) (breg (fun k => wa (o + k))) = breg (fun k => lane_scaled (fun j => red_part (cv j)) (o + k)).
Proof using FormatLaws0 Py Pu Pv Pa.
  intros -> -> Ho -> -> ->. split_and!; apply scaled_channel; try done; intros k; apply (part_sums _ (cu (k / 4)) (cv (k / 4))); apply wy_bytes || apply cu_bytes || apply cv_bytes.
Qed.

(** The same for the first lanes. *)
Lemma scaled_channels_lo y1 y2 bu bg bv :
  y1 = wreg (fun k => luma_part (wy k)) -> y2 = wreg (fun k => luma_part (wy (8 + k))) ->
  bu = wreg (fun k => u16 (blue_part (cu (k / 2)))) ->
  bg = wreg (fun k => u16 (green_part (cu (k / 2)) (cv (k / 2)))) ->
  bv = wreg (fun k => u16 (red_part (cv (k / 2)))) ->
  fmt.(premultiply) (channel y1 y2 bu) (breg wa) = breg (lane_scaled (fun j => blue_part (cu j))) /\
  fmt.(premultiply) (channel y1 y2 bg) (breg wa) = breg (lane_scaled (fun j => green_part (cu j) (cv j))) /\
  fmt.(premultiply) (channel y1 y2 bv) (breg wa) = breg (lane_scaled (fun j => red_part (cv j))).
Proof using FormatLaws0 Py Pu Pv Pa. intros Hy1 Hy2 Hu Hg Hv. exact (scaled_channels 0 _ _ _ _ _ Hy1 Hy2 eq_refl Hu Hg Hv). Qed.

(** Rewrite the scaled channels the goal saves first. *)
Local Ltac scale_channels lem :=
  match goal with
  | |- context [halves_lo _ _ (premultiply _ (channel ?y1 ?y2 ?br) _) (premultiply _ (channel _ _ ?bg) _)
                  (premultiply _ (channel _ _ ?bb) _)] =>
      let E1 := fresh in let E2 := fresh in let E3 := fresh in
      destruct (lem y1 y2 bb bg br) as (E1 & E2 & E3); [reflexivity..|];
      rewrite !E1, !E2, !E3; clear E1 E2 E3
  end.

Lemma lane_regs_first lo hi : lane_regs 0 lo hi wa (lane_scaled (fun j => red_part (cv j)))
  (lane_scaled (fun j => green_part (cu j) (cv j))) (lane_scaled (fun j => blue_part (cu j))).
Proof using FormatLaws0 Pa. exact (lane_regs_scaled 0 lo hi). Qed.

Local Ltac place := solve [done | lia | change (0 / 2) with 0; lia | change (16 / 2) with 8; lia].

Lemma widen_low n f : bytes f -> 8 <= n -> _mm_unpacklo_epi8 x_zero (breg (low n f)) = widened f.
Proof using. clear. intros Hf Hn. rewrite widen_lo by by apply low_bytes. apply wreg_ext. intros k Hk. by rewrite low_lt by lia. Qed.

Lemma step16_ok m : i mod 16 = 0 -> i + 16 <= W -> written i m ->
  exists m', step16 fmt d y v u a load_si128 (at_column i m) = Some (at_column (i + 16) m') /\ written (i + 16) m'.
Proof using FormatLaws0 Py Pu Pv Pa HY1 HY2 HU HV HD1 LY1 LY2 LU LV HA HD LD AD1 AD2 Ly La Hi Hi4.
  intros H16 HW Hm. unfold step16, at_column.
  assert (HW2 : i / 2 + 8 <= W / 2 /\ 0 <= i / 2 /\ (i + 16) / 2 = i / 2 + 8) by (clear -Hi HW; split_and!; dlia).
  destruct HW2 as (HW2 & Hi2 & Ei2). rewrite !loadl_ok by lia. mred.
  destruct (Ly i H16) as (E1 & E2). rewrite E1, E2, !loadu_ok by lia. mred.
  rewrite (load_alpha16_ok a (A1 + i) (A2 + i)); [|by apply alpha_room_at|intros p E; by apply La]. mred.
  rewrite !widen_low by (lia || apply cu_bytes || apply cv_bytes).
  fold cu cv. rewrite precalc_lanes. cbv iota beta.
  rewrite !unpacklo16, !unpackhi16. fold wy wa.
  rewrite !widen_lo, !widen_hi by (intros k; apply wy_bytes). rewrite !luma_lanes.
  scale_channels scaled_channels_lo. scale_channels (scaled_channels 16).
  destruct (save_lo 0 i _ _ _ _ m (lane_regs_first 0 8)) as (m1 & E3 & H1); [place..|].
  destruct (save_hi 0 (i + 4) _ _ _ _ m1 (lane_regs_first 8 16)) as (m2 & E4 & H2); [place..|].
  destruct (save_lo 16 (i + 4 + 4) _ _ _ _ m2 (lane_regs_scaled 16 0 8)) as (m3 & E5 & H3); [place..|].
  destruct (save_hi 16 (i + 4 + 4 + 4) _ _ _ _ m3 (lane_regs_scaled 16 8 16)) as (m4 & E6 & H4); [place..|].
  rewrite E3. mred. rewrite E4. mred. rewrite E5. mred. rewrite E6. mred.
  exists m4. replace (i + 16) with (i + 4 + 4 + 4 + 4) in * by lia. rewrite Ei2, !Z.add_assoc. split; [|done].
  do 2 f_equal; lia.
Qed.

(** The end of a row: [n] pixels after the last multiple of 16. *)
Lemma chroma_room n : n mod 2 = 0 -> i + n <= W -> 0 <= i / 2 /\ i / 2 + n / 2 <= W / 2 /\ (i + n) / 2 = i / 2 + n / 2.
Proof using Hi Hi4. clear -Hi Hi4. intros Hn HW. split_and!; dlia. Qed.

Lemma step8_ok m : i + 8 <= W -> written i m ->
  exists m', step8 fmt d y v u a (at_column i m) = Some (at_column (i + 8) m') /\ written (i + 8) m'.
Proof using FormatLaws0 Py Pu Pv Pa HY1 HY2 HU HV HD1 LY1 LY2 LU LV HA HD LD AD1 AD2 Hi Hi4.
  intros HW Hm. unfold step8, at_column. destruct (chroma_room 8 eq_refl HW) as (Hi2 & HW2 & Ei2).
  change (8 / 2) with 4 in *.
  destruct (load_int32_ok u (U + i / 2)) as (xu & -> & Eu); [done|lia|lia|]. mred.
  destruct (load_int32_ok v (V + i / 2)) as (xv & -> & Ev); [done|lia|lia|]. mred.
  rewrite !loadl_ok by lia. mred.
  rewrite (load_alpha8_ok a (A1 + i) (A2 + i)) by (by apply alpha_room_at). mred.
  rewrite Eu, Ev. fold cu cv. rewrite (widen_lo (low 4 cu)), (widen_lo (low 4 cv)), precalc_lanes
    by (apply low_bytes; apply cu_bytes || apply cv_bytes). cbv iota beta.
  rewrite !unpacklo16. change (breg (woven (low 8 ?t) (low 8 ?b))) with (breg (woven t b)). fold wy wa.
  rewrite !widen_lo, !widen_hi by (intros k; apply wy_bytes). rewrite !luma_lanes.
  scale_channels scaled_channels_lo.
  destruct (save_lo 0 i _ _ _ _ m (lane_regs_first 0 8)) as (m1 & E3 & H1); [place..|].
  destruct (save_hi 0 (i + 4) _ _ _ _ m1 (lane_regs_first 8 16)) as (m2 & E4 & H2); [place..|].
  rewrite E3. mred. rewrite E4. mred.
  exists m2. replace (i + 8) with (i + 4 + 4) in * by lia. rewrite Ei2, !Z.add_assoc. split; [|done].
  do 2 f_equal; lia.
Qed.

(** Four pixels of a channel: the lanes that have no pixel are not used. *)
Lemma scaled_channel1 part part' bak g : (forall k, - 2 ^ 15 <= luma_part (wy k) + part' (k / 4) < 2 ^ 15) ->
  bytes g -> bak = wreg (fun k => u16 (part' (k / 2))) -> (forall j, j < 2 -> part' j = part j) -> starts 8 wa g ->
  exists h, fmt.(premultiply) (channel1 (wreg (fun k => luma_part (wy k))) bak) (breg g) = breg h /\
    starts 8 (lane_scaled part) h.
Proof using FormatLaws0.
  intros Hr Hg -> Hp (_ & Hs). rewrite (channel1_lanes (fun k => luma_part (wy k)) part') by done.
  assert (Hb : bytes (low 8 (fun k => shade (luma_part (wy k)) (part' (k / 4))))).
  { apply low_bytes. intros k. apply shade_byte. }
  rewrite premultiply_ok by done. eexists. split; [done|]. split; [intros k; by apply scale_byte|].
  intros k Hk. cbv beta. rewrite low_lt, Hs by lia. unfold lane_scaled, lane_colour. rewrite Hp; [done|].
  clear -Hk. dlia.
Qed.

Lemma scaled_channel0 part c g : (forall k, - 2 ^ 15 <= luma_part (low 4 wy k) + c < 2 ^ 15) ->
  c = part 0 -> starts 4 wa g ->
  exists h, fmt.(premultiply) (channel0 (wreg (fun k => luma_part (low 4 wy k))) c) (breg g) = breg h /\
    starts 4 (lane_scaled part) h.
Proof using FormatLaws0.
  intros Hr -> (Hg & Hs). rewrite (channel0_lanes (fun k => luma_part (low 4 wy k)) (part 0)) by done.
  assert (Hb : bytes (low 8 (fun k => shade (luma_part (low 4 wy k)) (part 0)))).
  { apply low_bytes. intros k. apply shade_byte. }
  rewrite premultiply_ok by done. eexists. split; [done|]. split; [intros k; by apply scale_byte|].
  intros k Hk. cbv beta. rewrite !low_lt, Hs by lia. unfold lane_scaled, lane_colour. by rewrite (Z.div_small k 4) by lia.
Qed.

Lemma lane_regs_starts n g hr hg hb : starts n wa g -> starts n (lane_scaled (fun j => red_part (cv j))) hr ->
  starts n (lane_scaled (fun j => green_part (cu j) (cv j))) hg -> starts n (lane_scaled (fun j => blue_part (cu j))) hb ->
  lane_regs 0 0 n g hr hg hb.
Proof using. intros (? & Ha) (? & Hr) (? & Hg) (? & Hb). split_and!; try done. intros k Hk. by rewrite Ha, Hr, Hg, Hb. Qed.

Lemma step4_ok m : i + 4 <= W -> written i m ->
  exists m', step4 fmt d y v u a (at_column i m) = Some (at_column (i + 4) m') /\ written (i + 4) m'.
Proof using FormatLaws0 Py Pu Pv Pa HY1 HY2 HU HV HD1 LY1 LY2 LU LV HA HD LD AD1 AD2 Hi Hi4.
  intros HW Hm. unfold step4, at_column. destruct (chroma_room 4 eq_refl HW) as (Hi2 & HW2 & Ei2).
  change (4 / 2) with 2 in *.
  destruct (load_uint16_ok u (U + i / 2)) as (xu & -> & Eu); [done|lia|lia|]. mred.
  destruct (load_uint16_ok v (V + i / 2)) as (xv & -> & Ev); [done|lia|lia|]. mred.
  destruct (load_int32_ok y (Y1 + i)) as (x1 & -> & E1); [done|lia|lia|]. mred.
  destruct (load_int32_ok y (Y2 + i)) as (x2 & -> & E2); [done|lia|lia|]. mred.
  destruct (load_alpha4_ok a (A1 + i) (A2 + i)) as (g & -> & Hg); [by apply alpha_room_at|]. mred.
  rewrite Eu, Ev, E1, E2. fold cu cv. rewrite (widen_lo (low 2 cu)), (widen_lo (low 2 cv)), precalc_lanes
    by (apply low_bytes; apply cu_bytes || apply cv_bytes). cbv iota beta.
  rewrite !unpacklo16. change (breg (woven (low 4 ?t) (low 4 ?b))) with (breg (low 8 (woven t b))). fold wy.
  rewrite widen_low, luma_lanes by (done || apply wy_bytes).
  fold wa in Hg. pose proof (proj1 Hg) as Bg.
  assert (Hc : forall k, is_byte (low 2 cu k) /\ is_byte (low 2 cv k))
    by (split; apply low_bytes; apply cu_bytes || apply cv_bytes).
  destruct (scaled_channel1 (fun j => red_part (cv j)) (fun j => red_part (low 2 cv j))
    (_mm_unpacklo_epi16 (wreg (fun k => u16 (red_part (low 2 cv k)))) (wreg (fun k => u16 (red_part (low 2 cv k))))) g)
    as (hr & -> & Hr); [intros k; apply (part_sums _ _ _ (wy_bytes k) (proj1 (Hc (k / 4)))), Hc|done|done
    |intros j Hj; by rewrite !low_lt|done|].
  destruct (scaled_channel1 (fun j => green_part (cu j) (cv j)) (fun j => green_part (low 2 cu j) (low 2 cv j))
    (_mm_unpacklo_epi16 (wreg (fun k => u16 (green_part (low 2 cu k) (low 2 cv k))))
       (wreg (fun k => u16 (green_part (low 2 cu k) (low 2 cv k))))) g)
    as (hg & -> & Hgr); [intros k; apply (part_sums _ _ _ (wy_bytes k) (proj1 (Hc (k / 4)))), Hc|done|done
    |intros j Hj; by rewrite !low_lt|done|].
  destruct (scaled_channel1 (fun j => blue_part (cu j)) (fun j => blue_part (low 2 cu j))
    (_mm_unpacklo_epi16 (wreg (fun k => u16 (blue_part (low 2 cu k)))) (wreg (fun k => u16 (blue_part (low 2 cu k))))) g)
    as (hb & -> & Hb); [intros k; apply (part_sums _ _ _ (wy_bytes k) (proj1 (Hc (k / 4))) (proj2 (Hc (k / 4))))|done|done
    |intros j Hj; by rewrite !low_lt|done|].
  destruct (save_lo 0 i _ _ _ _ m (lane_regs_starts 8 g hr hg hb Hg Hr Hgr Hb)) as (m1 & E3 & H1); [place..|].
  rewrite E3. mred. exists m1. rewrite Ei2, !Z.add_assoc. done.
Qed.

(** Eight bytes in each row. *)
Lemma save_words g hr hg hb m : lane_regs 0 0 4 g hr hg hb -> i + 2 <= W -> written i m ->
  exists m1 m2,
    (let '(x, z) := fmt.(halves_lo) (breg g) (breg hr) (breg hg) (breg hb) in
     _mm_storel_epi64 (D1 + 4 * i) (_mm_unpacklo_epi16 x z) m = Some m1 /\
     _mm_storeh_epi64 (D2 + 4 * i) (_mm_unpacklo_epi16 x z) m1 = Some m2) /\ written (i + 2) m2.
Proof using FormatLaws0 HD1 HD LD Hi Hi4.
  intros Hl HW Hm. pose proof Hl as (Ba & Br & Bg & Bb & _). pose proof (lo_words_ok g hr hg hb Ba Br Bg Bb) as E.
  destruct (halves_lo fmt (breg g) (breg hr) (breg hg) (breg hb)) as [x z]. rewrite E. clear E.
  pose proof (lanes_byte g hr hg hb Ba Br Bg Bb (fun k => k)) as Bp. cbv zeta in *.
  unfold _mm_storeh_epi64, _mm_storel_epi64. rewrite low_bytes_stored, high_bytes_stored by exact Bp.
  pose proof (pointwise_alen _ _ _ Hm) as Lm.
  edestruct (store_tabulate (fun k => sp_place sp (g (k / 4)) (hr (k / 4)) (hg (k / 4)) (hb (k / 4)) (k mod 4)) 8
    (D1 + 4 * i) m) as (m1 & E1 & P1); [lia..|]. exists m1.
  pose proof (pointwise_alen _ _ _ P1) as Lm1.
  edestruct (store_tabulate (fun k => sp_place sp (g ((8 + k) / 4)) (hr ((8 + k) / 4)) (hg ((8 + k) / 4)) (hb ((8 + k) / 4))
    ((8 + k) mod 4)) 8 (D2 + 4 * i) m1) as (m2 & E2 & P2); [lia..|]. exists m2. split; [done|].
  unfold written. replace (4 * (i + 2)) with (4 * i + 8) by lia.
  eapply pointwise_ext; [|exact (pointwise_trans _ _ _ _ _ Hm (pointwise_trans _ _ _ _ _ P1 P2))].
  intros j w _. cbv beta. rewrite rows_extend1, rows_extend2; [done|lia..| |lia|lia|lia|].
  - intros k Hk. rewrite (lane_regs_pixel 0 0 4 g hr hg hb) by (done || clear -Hk; dlia).
    replace ((8 + k) / 4) with (upper (k / 4) + 2) by (unfold upper; clear -Hk; dlia).
    rewrite Z.add_0_l, lane_pixel_lower by (clear; dlia). f_equal. clear; dlia.
  - intros k Hk. rewrite (lane_regs_pixel 0 0 4 g hr hg hb) by (done || clear -Hk; dlia).
    replace (k / 4) with (upper (k / 4)) at 1 by (unfold upper; clear -Hk; dlia).
    rewrite Z.add_0_l, lane_pixel_upper by (clear; dlia). f_equal. clear; dlia.
Qed.

(** The last step leaves [iW] where it is. *)
Lemma step2_ok m : i + 2 <= W -> written i m ->
  exists s', step2 fmt y v u a (at_column i m) = Some s' /\ written (i + 2) s'.(argb).
Proof using FormatLaws0 Py Pu Pv Pa HY1 HY2 HU HV HD1 LY1 LY2 LU LV HA HD LD Hi Hi4.
  intros HW Hm. unfold step2, at_column. destruct (chroma_room 2 eq_refl HW) as (Hi2 & HW2 & _).
  change (2 / 2) with 1 in *.
  destruct (plane_sample u.(data) (U + i / 2) Pu) as (-> & Bu); [lia|].
  destruct (plane_sample v.(data) (V + i / 2) Pv) as (-> & Bv); [lia|]. mred.
  destruct (load_pairs_ok y (Y1 + i) Py ltac:(lia) (Y2 + i) ltac:(lia) ltac:(lia) ltac:(lia) (sample_bytes y (Y2 + i) Py))
    as (x & -> & E). mred.
  destruct (load_alpha2_ok a (A1 + i) (A2 + i)) as (g & -> & Hg); [by apply alpha_room_at|]. mred.
  rewrite E. fold wy. rewrite widen_lo, luma_lanes by (apply low_bytes, wy_bytes).
  fold wa in Hg. rewrite !(shiftr_div _ 8) by lia. change (2 ^ 8) with 256.
  assert (Bl : bytes (low 4 wy)) by (apply low_bytes, wy_bytes).
  destruct (scaled_channel0 (fun j => red_part (cv j)) (sample v.(data) (V + i / 2) * ic8 / 256 + icoff2) g)
    as (hr & -> & Hr); [|unfold cv; by rewrite Z.add_0_r|done|].
  { intros k. exact (proj2 (proj2 (part_sums _ _ _ (Bl k) Bu Bv))). }
  destruct (scaled_channel0 (fun j => green_part (cu j) (cv j))
    (icoff1 - (sample u.(data) (U + i / 2) * ic4 / 256 + sample v.(data) (V + i / 2) * ic5 / 256)) g)
    as (hg & -> & Hgr); [|unfold cu, cv; by rewrite !Z.add_0_r|done|].
  { intros k. exact (proj1 (proj2 (part_sums _ _ _ (Bl k) Bu Bv))). }
  destruct (scaled_channel0 (fun j => blue_part (cu j)) (icoff0 + sample u.(data) (U + i / 2) * ic1 / 256) g)
    as (hb & -> & Hb); [|unfold cu; rewrite Z.add_0_r; apply Z.add_comm|done|].
  { intros k. rewrite (Z.add_comm icoff0). exact (proj1 (part_sums _ _ _ (Bl k) Bu Bv)). }
  destruct (save_words g hr hg hb m (lane_regs_starts 4 g hr hg hb Hg Hr Hgr Hb) HW Hm) as (m1 & m2 & E1 & Hm2).
  destruct (halves_lo fmt (breg g) (breg hr) (breg hg) (breg hb)) as [p q]. destruct E1 as [-> E2]. mred.
  rewrite E2. mred. eexists. split; [reflexivity|exact Hm2].
Qed.
End column.

(** *** The loop *)

Lemma row_start : Row Y1 Y2 U V A1 A2 D1 D2 0 m0 = at_column 0 m0.
Proof using. unfold at_column. by rewrite !Z.add_0_r. Qed.

Lemma written_start : written 0 m0.
Proof using.
  eapply pointwise_ext; [|apply pointwise_refl]. intros j w _. unfold rows_fn. by rewrite !span_fn_0.
Qed.

Lemma loop16_ok width m : 0 <= width -> W = 2 * (width / 2) -> written 0 m ->
  exists i m', while_fuel (Z.to_nat width) (fun s => s.(iW) <=? width - 16) (step16 fmt d y v u a load_si128) (at_column 0 m) =
    Some (at_column i m') /\ written i m' /\ 0 <= i /\ i mod 16 = 0 /\ i <= W /\ W < i + 16.
Proof using FormatLaws0 Py Pu Pv Pa HY1 HY2 HU HV HD1 LY1 LY2 LU LV HA HD LD AD1 AD2 Ly La.
  intros Hw EW Hm. assert (EW' : width - 1 <= W <= width) by (clear -EW; dlia).
  destruct (while_fuel_inv
    (fun s => exists i m', s = at_column i m' /\ written i m' /\ 0 <= i /\ i mod 16 = 0 /\ i <= W)
    (fun s => Z.to_nat (width - s.(iW))) (fun s => s.(iW) <=? width - 16) (step16 fmt d y v u a load_si128)
    (Z.to_nat width) (at_column 0 m)) as (s & -> & (i & m' & -> & Hm' & Hi & H16 & HiW) & Hc).
  - exists 0, m. split_and!; (done || lia).
  - cbn [iW at_column]. lia.
  - intros s (i & m' & -> & Hm' & Hi & H16 & HiW) Hc. cbn [iW at_column] in *. apply Z.leb_le in Hc.
    assert (Hi4 : i mod 4 = 0) by (clear -H16; dlia). assert (HW : i + 16 <= W) by (clear -H16 EW Hc; dlia).
    destruct (step16_ok i Hi Hi4 m' H16 HW Hm') as (m2 & E & Hm2). exists (at_column (i + 16) m2). split; [done|].
    split; [|cbn [iW at_column]; lia]. exists (i + 16), m2. split_and!; try done; [lia|clear -H16; dlia].
  - exists i, m'. cbn [iW at_column] in Hc. apply Z.leb_gt in Hc. split_and!; try done.
    clear -Hc EW H16. dlia.
Qed.

Lemma row_pair_ok width m : 0 <= width -> W = 2 * (width / 2) -> written 0 m ->
  exists s', row_pair fmt d y v u a load_si128 width (at_column 0 m) = Some s' /\ written W s'.(argb).
Proof using FormatLaws0 Py Pu Pv Pa HY1 HY2 HU HV HD1 LY1 LY2 LU LV HA HD LD AD1 AD2 Ly La.
  intros Hw EW Hm. unfold row_pair.
  destruct (loop16_ok width m Hw EW Hm) as (i & m1 & -> & Hm1 & Hi & H16 & HiW & HiW'). mred.
  assert (HW : width - 1 <= W <= width /\ W mod 2 = 0) by (clear -EW; split; dlia). destruct HW as [HW HW2].
  cbn [iW at_column].
  assert (H8 : exists i2 m2, (if i <=? width - 8 then step8 fmt d y v u a (at_column i m1) else Some (at_column i m1)) =
      Some (at_column i2 m2) /\ written i2 m2 /\ 0 <= i2 /\ i2 mod 8 = 0 /\ i2 <= W /\ W < i2 + 8).
  { assert (Hi4 : i mod 4 = 0) by (clear -H16; dlia). destruct (Z.leb_spec i (width - 8)).
    - assert (HW8 : i + 8 <= W) by lia || (clear -H HW HW2 H16; dlia).
      destruct (step8_ok i Hi Hi4 m1 HW8 Hm1) as (m2 & -> & Hm2). exists (i + 8), m2.
      split_and!; (done || lia || (clear -H16; dlia)).
    - exists i, m1. split_and!; (done || lia || (clear -H16; dlia)). }
  destruct H8 as (i2 & m2 & -> & Hm2 & Hi2 & H8 & HiW2 & HiW2'). mred. cbn [iW at_column].
  assert (H4 : exists i3 m3, (if i2 <=? width - 4 then step4 fmt d y v u a (at_column i2 m2) else Some (at_column i2 m2)) =
      Some (at_column i3 m3) /\ written i3 m3 /\ 0 <= i3 /\ i3 mod 4 = 0 /\ i3 <= W /\ W < i3 + 4).
  { assert (Hi4 : i2 mod 4 = 0) by (clear -H8; dlia). destruct (Z.leb_spec i2 (width - 4)).
    - assert (HW4 : i2 + 4 <= W) by (clear -H HW HW2 H8; dlia).
      destruct (step4_ok i2 Hi2 Hi4 m2 HW4 Hm2) as (m3 & -> & Hm3). exists (i2 + 4), m3.
      split_and!; (done || lia || (clear -Hi4; dlia)).
    - exists i2, m2. split_and!; (done || lia). }
  destruct H4 as (i3 & m3 & -> & Hm3 & Hi3 & H4 & HiW3 & HiW3'). mred. cbn [iW at_column].
  destruct (Z.leb_spec i3 (width - 2)).
  - assert (HW2' : i3 + 2 = W) by (clear -H HW HW2 H4 HiW3'; dlia).
    destruct (step2_ok i3 Hi3 H4 m3 ltac:(lia) Hm3) as (s & -> & Hs). exists s. split; [done|]. by rewrite <- HW2'.
  - exists (at_column i3 m3). split; [done|]. cbn [argb at_column]. replace W with i3; [done|]. clear -H HW HW2 H4 HiW3. dlia.
Qed.
End row_pair.
