(* ===== verification/ColorConverterSseFrame.v ===== *)
(** * Frames converted with SSE2

    The four converters of ColorConverterSse.v on whole frames: which bytes they
    write and with what, how far the colours are from ITU-R BT.601, and how far
    from those of the portable converters of ColorConverter.v. *)

From S2P Require Import Prelude PiscesBlit PiscesSurface ColorConverter ColorConverterSpec ColorConverterSse ColorConverterSseSpec.

(** ** What the callers provide *)

(** The part of a side that is converted: an odd last column or row is not. *)
Definition even_part (n : Z) : Z := 2 * (n / 2).

(** A destination at a multiple of 16 with such a stride, and planes that hold
    the converted part of the frame, at any address. *)
Record frame_sse2 (d argb_stride width height y_stride v_stride u_stride : Z) (y v u : plane) (m : list Z) : Prop := {
  fs_width : 0 <= width;
  fs_height : 0 <= height;
  fs_address : d mod 16 = 0;
  fs_stride16 : argb_stride mod 16 = 0;
  fs_stride0 : 0 < argb_stride;
  fs_stride : 4 * even_part width <= argb_stride;
  fs_ys : even_part width <= y_stride;
  fs_us : width / 2 <= u_stride;
  fs_vs : width / 2 <= v_stride;
  fs_m : even_part height * argb_stride <= alen m;
  fs_y : even_part height * y_stride <= alen y.(data);
  fs_u : height / 2 * u_stride <= alen u.(data);
  fs_v : height / 2 * v_stride <= alen v.(data);
  fs_py : is_plane y.(data);
  fs_pu : is_plane u.(data);
  fs_pv : is_plane v.(data)
}.

Record alpha_sse2 (width height a_stride : Z) (p : plane) : Prop := {
  as_stride : even_part width <= a_stride;
  as_room : even_part height * a_stride <= alen p.(data);
  as_plane : is_plane p.(data)
}.

(** Byte [off] of row [row] of the converted frame. *)
Definition sse_frame_byte (sp : pixel_spec) (y_stride v_stride u_stride a_stride : Z) (y v u : plane) (a : option plane)
    (row off : Z) : Z :=
  let c := off / 4 in
  sse_byte sp (sample y.(data) (row * y_stride + c)) (sample u.(data) (row / 2 * u_stride + c / 2))
    (sample v.(data) (row / 2 * v_stride + c / 2)) (alpha_sample a (row * a_stride + c)) (off mod 4).

Lemma misaligned_false x : misaligned x = false -> x mod 16 = 0.
Proof.
  unfold misaligned. intros H. apply negb_false_iff, Z.eqb_eq in H. apply Z.mod_divide; [lia|].
  by apply Z.rem_divide.
Qed.

(** Where the aligned load is chosen, it does not fault. *)
Lemma aligned_row p stride k i : plane_misaligned p stride = false -> i mod 16 = 0 ->
  _mm_load_si128 p (k * stride + i) = _mm_loadu_si128 p (k * stride + i).
Proof.
  intros H Hi. apply orb_false_iff in H as [Hp%misaligned_false Hs%misaligned_false].
  unfold _mm_load_si128. rewrite misaligned_mod; [done|].
  rewrite Z.add_assoc, Z.add_mod, (Z.add_mod (address p)), Hp, Hi, Z.mul_mod, Hs, Z.mul_0_r by lia. done.
Qed.

Section frame.
Context (fmt : pixel_format) (sp : pixel_spec) `{!FormatLaws fmt sp}.
Context (d argb_stride width height y_stride v_stride u_stride a_stride : Z).
Context (y v u : plane) (a : option plane) (m0 : list Z).
Context (Hf : frame_sse2 d argb_stride width height y_stride v_stride u_stride y v u m0).
Context (Ha : forall p, a = Some p -> alpha_sse2 width height a_stride p).

Definition chosen_load : plane -> Z -> option m128 :=
  if plane_misaligned y y_stride || plane_misaligned u u_stride || plane_misaligned v v_stride ||
     match a with Some a => plane_misaligned a a_stride | None => false end
  then _mm_loadu_si128 else _mm_load_si128.

Lemma chosen_load_y k i : i mod 16 = 0 -> chosen_load y (k * y_stride + i) = _mm_loadu_si128 y (k * y_stride + i).
Proof using.
  clear. intros Hi. unfold chosen_load. destruct (plane_misaligned y y_stride) eqn:E; [done|].
  destruct (_ || _); [done|]. by apply aligned_row.
Qed.

Lemma chosen_load_a p k i : a = Some p -> i mod 16 = 0 ->
  chosen_load p (k * a_stride + i) = _mm_loadu_si128 p (k * a_stride + i).
Proof using.
  clear. unfold chosen_load. intros -> Hi. destruct (plane_misaligned p a_stride) eqn:E; [by rewrite orb_true_r|].
  destruct (_ || _); [done|]. by apply aligned_row.
Qed.

Definition byte_at (row off : Z) : Z := sse_frame_byte sp y_stride v_stride u_stride a_stride y v u a row off.

(** The pair of rows [r]. *)
Lemma frame_pair_ok r m : 0 <= r < height / 2 -> alen m = alen m0 ->
  exists s, row_pair fmt d y v u a chosen_load width
      (Row (2 * r * y_stride) ((2 * r + 1) * y_stride) (r * u_stride) (r * v_stride)
         (2 * r * a_stride) ((2 * r + 1) * a_stride) (2 * r * argb_stride) ((2 * r + 1) * argb_stride) 0 m) = Some s /\
    pointwise m s.(argb) (rows_fn (2 * r * argb_stride) ((2 * r + 1) * argb_stride) (byte_at (2 * r)) (byte_at (2 * r + 1))
      (4 * even_part width) (4 * even_part width)).
Proof using FormatLaws0 Hf Ha.
  intros Hr Hl. pose proof Hf as []. unfold even_part in *.
  assert (HW : 2 * (width / 2) / 2 = width / 2) by dlia. assert (HW0 : 0 <= width / 2) by dlia.
  assert ((2 * r + 2) * y_stride <= 2 * (height / 2) * y_stride) by nia.
  assert ((2 * r + 2) * argb_stride <= 2 * (height / 2) * argb_stride) by nia.
  assert ((r + 1) * u_stride <= height / 2 * u_stride) by nia.
  assert ((r + 1) * v_stride <= height / 2 * v_stride) by nia.
  assert (0 <= r * y_stride /\ 0 <= r * u_stride /\ 0 <= r * v_stride /\ 0 <= r * argb_stride) by nia.
  assert (Hal : forall k, (d + k * argb_stride) mod 16 = 0).
  { intros k. rewrite Z.add_mod, fs_address0, Z.mul_mod, (fs_stride16 _ _ _ _ _ _ _ _ _ _ _ Hf), Z.mul_0_r by lia. done. }
  rewrite (row_start (2 * r * y_stride) ((2 * r + 1) * y_stride)).
  edestruct (row_pair_ok fmt sp d y v u a chosen_load (2 * r * y_stride) ((2 * r + 1) * y_stride) (r * u_stride)
    (r * v_stride) (2 * r * a_stride) ((2 * r + 1) * a_stride) (2 * r * argb_stride) ((2 * r + 1) * argb_stride)
    (2 * (width / 2)) m) with (width := width) (m := m) as (s & E & Hs); try done; try (rewrite ?HW; lia).
  - intros p E. apply (Ha p E).
  - intros p E. destruct (Ha p E). unfold even_part in *.
    assert ((2 * r + 2) * a_stride <= 2 * (height / 2) * a_stride) by nia. assert (0 <= r * a_stride) by nia. lia.
  - intros i Hi. split; by apply chosen_load_y.
  - intros p i E Hi. split; by apply chosen_load_a.
  - apply written_start.
  - exists s. split; [exact E|]. eapply pointwise_ext; [|exact Hs]. intros j w _. unfold rows_fn.
    assert (E0 : 2 * r / 2 = r) by dlia. assert (E1 : (2 * r + 1) / 2 = r) by dlia.
    unfold byte_at, sse_frame_byte, row_byte. by rewrite E0, E1.
Qed.

(** The first [n] rows. *)
Definition rows_written (n : Z) (m : list Z) : Prop :=
  pointwise m0 m (rect_fn 0 argb_stride (4 * even_part width) n (fun row off _ => byte_at row off)).

Lemma convert_sse2_ok :
  exists m', convert_sse2 fmt d argb_stride width height y v u a y_stride v_stride u_stride a_stride m0 = Some (0, m') /\
    rows_written (even_part height) m'.
Proof using FormatLaws0 Hf Ha.
  unfold convert_sse2. fold chosen_load. rewrite shiftr_div by lia. change (2 ^ 1) with 2.
  pose proof Hf as [? ? _ _ ? ? _ _ _ _ _ _ _ _ _ _]. assert (Hh : 0 <= height / 2) by dlia.
  destruct (for_lt_inv (fun r '(pY1, pY2, pU, pV, pA1, pA2, pD1, pD2, m') =>
      (pY1, pY2, pU, pV, pA1, pA2, pD1, pD2) =
        (2 * r * y_stride, (2 * r + 1) * y_stride, r * u_stride, r * v_stride, 2 * r * a_stride, (2 * r + 1) * a_stride,
         2 * r * argb_stride, (2 * r + 1) * argb_stride) /\ rows_written (2 * r) m')
      (height / 2)
      (fun _ '(pY1, pY2, pU, pV, pA1, pA2, pD1, pD2, m) =>
         s ← row_pair fmt d y v u a chosen_load width (Row pY1 pY2 pU pV pA1 pA2 pD1 pD2 0 m);
         Some (pY1 + 2 * y_stride, pY2 + 2 * y_stride, pU + u_stride, pV + v_stride,
               pA1 + 2 * a_stride, pA2 + 2 * a_stride, pD1 + 2 * argb_stride, pD2 + 2 * argb_stride, s.(argb)))
      (0, y_stride, 0, 0, 0, a_stride, 0, argb_stride, m0)) as ([[[[[[[[? ?] ?] ?] ?] ?] ?] ?] m'] & -> & _ & Hm').
  - split; [rewrite !pair_equal_spec; split_and!; lia|]. eapply pointwise_ext; [|apply pointwise_refl].
    intros j w _. by rewrite rect_fn_0.
  - intros r [[[[[[[[? ?] ?] ?] ?] ?] ?] ?] m1] Hr [E Hm1]. simplify_eq.
    destruct (frame_pair_ok r m1 Hr (pointwise_alen _ _ _ Hm1)) as (s & -> & Hs).
    mred. eexists; split; [done|]. split; [rewrite !pair_equal_spec; split_and!; lia|].
    eapply pointwise_ext; [|exact (pointwise_trans _ _ _ _ _ Hm1 Hs)].
    intros j w _. unfold rows_fn. replace (2 * (r + 1)) with (2 * r + 1 + 1) by lia.
    rewrite <- (rect_fn_step 0 argb_stride (4 * even_part width) (2 * r + 1)),
      <- (rect_fn_step 0 argb_stride (4 * even_part width) (2 * r)) by lia. by rewrite !Z.add_0_l.
  - mred. exists m'. split; [done|]. replace (Z.max 0 (height / 2)) with (height / 2) in Hm' by lia. exact Hm'.
Qed.
End frame.

(** ** Accuracy *)

(** A channel before saturation, in units of 1/10000, against ITU-R BT.601. *)
Lemma red_accuracy Y V : is_byte Y -> is_byte V ->
  bt601_red Y V - 10700 <= 10000 * ((luma_part Y + red_part V) / 32) <= bt601_red Y V + 100.
Proof. unfold is_byte, bt601_red, luma_part, red_part. intros. dlia. Qed.

Lemma green_accuracy Y U V : is_byte Y -> is_byte U -> is_byte V ->
  bt601_green Y U V - 10400 <= 10000 * ((luma_part Y + green_part U V) / 32) <= bt601_green Y U V + 700.
Proof. unfold is_byte, bt601_green, luma_part, green_part. intros. dlia. Qed.

Lemma blue_accuracy Y U : is_byte Y -> is_byte U ->
  bt601_blue Y U - 10700 <= 10000 * ((luma_part Y + blue_part U) / 32) <= bt601_blue Y U + 100.
Proof. unfold is_byte, bt601_blue, luma_part, blue_part. intros. dlia. Qed.

Lemma shade_accuracy y c x lo hi : x - lo <= 10000 * ((y + c) / 32) <= x + hi -> 0 <= lo -> 0 <= hi ->
  saturate x - lo <= 10000 * shade y c <= saturate x + hi.
Proof. unfold shade, saturate_u8, saturate. lia. Qed.

(** The same for the portable converters. *)
Lemma portable_accuracy Y U V : is_byte Y -> is_byte U -> is_byte V ->
  2 * bt601_red Y V - 10100 <= 10000 * sum_red Y V <= 2 * bt601_red Y V + 10100 /\
  2 * bt601_green Y U V - 15000 <= 10000 * sum_green Y U V <= 2 * bt601_green Y U V + 15000 /\
  2 * bt601_blue Y U - 10300 <= 10000 * sum_blue Y U <= 2 * bt601_blue Y U + 10300.
Proof.
  unfold is_byte, sum_red, sum_green, sum_blue, bt601_red, bt601_green, bt601_blue, tYY, tRV, tGU, tGV, tBU, rounded.
  intros. split_and!; Z.div_mod_to_equations; lia.
Qed.

(** Two roundings of the same value are neighbours. *)
Lemma neighbours s y c x e lo hi : 2 * x - e <= 10000 * s <= 2 * x + e ->
  x - lo <= 10000 * ((y + c) / 32) <= x + hi -> 0 <= e <= 15000 -> 0 <= lo -> 0 <= hi -> e + 2 * lo < 40000 ->
  10000 + e + 2 * hi < 40000 -> Z.abs (clamp2 s - shade y c) <= 1.
Proof.
  unfold clamp2, shade, saturate_u8. set (q := (y + c) / 32). clearbody q. intros H1 H2 He Hl Hh He1 He2.
  assert (H : 2 * (s / 2) <= s <= 2 * (s / 2) + 1) by dlia. set (p := s / 2) in *. clearbody p.
  assert (p - q <= 1) by lia. assert (q - p <= 1) by lia. lia.
Qed.

Lemma channels_agree Y U V A k : is_byte Y -> is_byte U -> is_byte V -> 0 <= k < 4 ->
  Z.abs (bgra_byte Y U V A k - sse_byte bgra_opaque_spec Y U V A k) <= 1.
Proof.
  intros HY HU HV Hk. destruct (portable_accuracy Y U V HY HU HV) as (Pr & Pg & Pb).
  pose proof (red_accuracy Y V HY HV). pose proof (green_accuracy Y U V HY HU HV). pose proof (blue_accuracy Y U HY HU).
  unfold bgra_byte, sse_byte, bgra_opaque_spec, bgra_place. cbn [sp_place sp_scale].
  destruct (Z.eqb_spec k 0); [|destruct (Z.eqb_spec k 1); [|destruct (Z.eqb_spec k 2)]]; [eapply neighbours; (eassumption || lia)..|].
  rewrite Z.sub_diag. done.
Qed.

(** ** The converters *)

(** The destination after a conversion. *)
Definition frame_written (sp : pixel_spec) (argb_stride width height y_stride v_stride u_stride a_stride : Z)
    (y v u : plane) (a : option plane) (m m' : list Z) : Prop :=
  pointwise m m' (rect_fn 0 argb_stride (4 * even_part width) (even_part height) (fun row off _ =>
    sse_frame_byte sp y_stride v_stride u_stride a_stride y v u a row off)).

(** C10: the SSE2 converters of 4:2:0 frames: for a destination at a multiple of
    16 with such a stride and planes at any address that hold the frame, each of
    the four functions returns 0 without a fault and without an access outside
    its arrays, whatever the width and height; every pixel of the even part of
    the frame is, byte for byte, the integer formula of its own luma and alpha
    and the chroma it shares with its two by two block, in the order of the
    format, multiplied by alpha in the converter to BGRA with an alpha plane;
    every other byte of the destination is kept. *)
Theorem sse2_frames d argb_stride width height y_stride v_stride u_stride a_stride y v u a m :
  frame_sse2 d argb_stride width height y_stride v_stride u_stride y v u m -> alpha_sse2 width height a_stride a ->
  (exists m', ColorConvert_YCbCr420p_to_ARGB32_sse2 d argb_stride width height y v u a y_stride v_stride u_stride a_stride m =
     Some (0, m') /\
     frame_written argb_spec argb_stride width height y_stride v_stride u_stride a_stride y v u (Some a) m m') /\
  (exists m', ColorConvert_YCbCr420p_to_ARGB32_no_alpha_sse2 d argb_stride width height y v u y_stride v_stride u_stride m =
     Some (0, m') /\ frame_written argb_spec argb_stride width height y_stride v_stride u_stride 0 y v u None m m') /\
  (exists m', ColorConvert_YCbCr420p_to_BGRA32_sse2 d argb_stride width height y v u a y_stride v_stride u_stride a_stride m =
     Some (0, m') /\
     frame_written bgra_spec argb_stride width height y_stride v_stride u_stride a_stride y v u (Some a) m m') /\
  (exists m', ColorConvert_YCbCr420p_to_BGRA32_no_alpha_sse2 d argb_stride width height y v u y_stride v_stride u_stride m =
     Some (0, m') /\ frame_written bgra_opaque_spec argb_stride width height y_stride v_stride u_stride 0 y v u None m m').
Proof.
  intros Hf Ha. assert (HS : forall p, Some a = Some p -> alpha_sse2 width height a_stride p) by (intros p E; by simplify_eq).
  assert (HN : forall p, None = Some p -> alpha_sse2 width height 0 p) by done.
  split_and!.
  - exact (convert_sse2_ok ARGB32 argb_spec d argb_stride width height y_stride v_stride u_stride a_stride y v u (Some a) m Hf HS).
  - exact (convert_sse2_ok ARGB32 argb_spec d argb_stride width height y_stride v_stride u_stride 0 y v u None m Hf HN).
  - exact (convert_sse2_ok BGRA32 bgra_spec d argb_stride width height y_stride v_stride u_stride a_stride y v u (Some a) m Hf HS).
  - exact (convert_sse2_ok BGRA32_no_alpha bgra_opaque_spec d argb_stride width height y_stride v_stride u_stride 0 y v u None m Hf HN).
Qed.

Lemma is_plane_forallb p : forallb (fun x => (0 <=? x) && (x <=? 255)) p = true -> is_plane p.
Proof.
  intros H i x. apply (aget_Forall is_byte). rewrite forallb_forall in H. apply List.Forall_forall.
  intros z Hz. apply H, andb_true_iff in Hz as [?%Z.leb_le ?%Z.leb_le]. done.
Qed.

(** A frame of 30 by 2 pixels, which takes each of the four steps once. *)
Definition ramp (n k : Z) : list Z := (fun i => (k * i + 7) mod 256) <$> seqZ 0 n.

Lemma sample_frame_sse2 :
  frame_sse2 32 128 30 2 30 15 15 (Plane 5 (ramp 60 13)) (Plane 8 (ramp 15 29)) (Plane 16 (ramp 15 31)) (replicate 256 9) /\
  alpha_sse2 30 2 30 (Plane 0 (ramp 60 7)).
Proof.
  split; split; try (vm_compute; (done || split; discriminate || reflexivity));
    try (apply is_plane_forallb; vm_compute; reflexivity); vm_compute; discriminate.
Qed.

Lemma sse2_frames_witness :
  exists m', ColorConvert_YCbCr420p_to_BGRA32_sse2 32 128 30 2 (Plane 5 (ramp 60 13)) (Plane 8 (ramp 15 29))
      (Plane 16 (ramp 15 31)) (Plane 0 (ramp 60 7)) 30 15 15 30 (replicate 256 9) = Some (0, m') /\
    aget m' 28 = Some 8 /\ aget m' 31 = Some 56 /\ aget m' 119 = Some 210 /\ aget m' 120 = Some 9.
Proof.
  destruct sample_frame_sse2 as [Hf Ha].
  destruct (sse2_frames 32 128 30 2 30 15 15 30 _ _ _ (Plane 0 (ramp 60 7)) _ Hf Ha) as (_ & _ & (m' & E & Hm') & _).
  exists m'. split; [exact E|]. rewrite !Hm'. vm_compute. split_and!; reflexivity.
Defined.

(** ** The destination the media code allocates *)

Lemma round_up_16 x : (x + 15) & Z.lnot 15 = 16 * ((x + 15) / 16).
Proof.
  change (Z.land (x + 15) (Z.lnot 15)) with (Z.land (x + 15) (Z.lnot (Z.ones 4))).
  rewrite <- Z.ldiff_land, Z.ldiff_ones_r, shiftr_div, shiftl_mul by lia. change (2 ^ 4) with 16. lia.
Qed.

(** It lies in the block the allocator returned, at a multiple of 16, and its
    stride is a multiple of 16 that holds a row: every frame whose planes hold
    it has the destination the converters need. *)
Lemma allocated_frame newData width height ys vs us y v u m : 0 < width -> 0 <= height ->
  even_part width <= ys -> width / 2 <= us -> width / 2 <= vs ->
  even_part height * ys <= alen y.(data) -> height / 2 * us <= alen u.(data) -> height / 2 * vs <= alen v.(data) ->
  is_plane y.(data) -> is_plane u.(data) -> is_plane v.(data) -> alen m = padded_stride width * height ->
  newData <= alignedData newData /\
  alignedData newData + alen m <= newData + alloc_size (padded_stride width * height) /\
  frame_sse2 (alignedData newData) (padded_stride width) width height ys vs us y v u m.
Proof.
  intros Hw Hh ? ? ? ? ? ? ? ? ? Hm. unfold alignedData, alloc_size in *.
  assert (Hs : padded_stride width mod 16 = 0 /\ 4 * width <= padded_stride width)
    by (unfold padded_stride; rewrite round_up_16; split; dlia).
  rewrite round_up_16. destruct Hs as [Hs1 Hs2]. split_and!; [dlia|rewrite Hm; dlia|].
  assert (He : even_part width <= width /\ even_part height <= height) by (unfold even_part; split; dlia).
  split; try done; try lia; [|nia]. rewrite Z.mul_comm. apply Z.mod_mul. lia.
Qed.

(** ** Agreement with the portable converter *)

(** A frame the portable converter accepts, at suitable addresses. *)
Lemma frame_420p_sse2 d bs width height ys vs us y v u ay av au m :
  frame_420p bs width height ys vs us y v u m -> d mod 16 = 0 -> bs mod 16 = 0 ->
  even_part width = width /\ even_part height = height /\
  frame_sse2 d bs width height ys vs us (Plane ay y) (Plane av v) (Plane au u) m.
Proof.
  intros [] Hd Hb. unfold even_part in *.
  assert (Ew : 2 * (width / 2) = width) by dlia. assert (Eh : 2 * (height / 2) = height) by dlia.
  split_and!; [done..|]. split; cbn [data]; unfold even_part; rewrite ?Ew, ?Eh; try done; lia.
Qed.

(** A byte of a written rectangle, and one outside. *)
Lemma rect_fn_cases p stride n h i w : 0 < stride ->
  (exists r c, 0 <= r < h /\ 0 <= c < n /\ i = p + r * stride + c /\ forall f, rect_fn p stride n h f i w = f r c w) \/
  forall f, rect_fn p stride n h f i w = w.
Proof.
  intros Hs. unfold rect_fn. pose proof (Z.mod_pos_bound (i - p) stride Hs).
  pose proof (Z.div_mod (i - p) stride ltac:(lia)).
  set (q := (i - p) / stride) in *. set (c := (i - p) mod stride) in *.
  destruct (Z.leb_spec 0 q), (Z.ltb_spec q h), (Z.ltb_spec c n); cbn [andb]; try (by right).
  left. exists q, c. split_and!; (done || lia).
Qed.

(** C11: the SSE2 and the portable converter to opaque BGRA agree: on every even
    frame both accept, at a destination aligned to 16, both return 0, and no byte
    of the one result is more than one level from the same byte of the other. *)
Theorem sse2_agrees_portable d bs width height ys vs us y v u ay av au m :
  frame_420p bs width height ys vs us y v u m -> d mod 16 = 0 -> bs mod 16 = 0 ->
  exists m1 m2,
    ColorConvert_YCbCr420p_to_BGRA32_no_alpha (Some m) bs width height (Some y) (Some v) (Some u) ys vs us =
      Some (0, Some m1) /\
    ColorConvert_YCbCr420p_to_BGRA32_no_alpha_sse2 d bs width height (Plane ay y) (Plane av v) (Plane au u) ys vs us m =
      Some (0, m2) /\
    alen m1 = alen m2 /\ forall i x1 x2, aget m1 i = Some x1 -> aget m2 i = Some x2 -> Z.abs (x1 - x2) <= 1.
Proof.
  intros Hf Hd Hb. destruct (frame_420p_sse2 d bs width height ys vs us y v u ay av au m Hf Hd Hb) as (Ew & Eh & Hs).
  destruct (YCbCr420p_to_BGRA32_no_alpha_spec bs width height ys vs us y v u m Hf) as (m1 & E1 & H1).
  assert (HN : forall p, None = Some p -> alpha_sse2 width height 0 p) by done.
  destruct (convert_sse2_ok BGRA32_no_alpha bgra_opaque_spec d bs width height ys vs us 0 (Plane ay y) (Plane av v)
    (Plane au u) None m Hs HN) as (m2 & E2 & H2).
  exists m1, m2. split_and!; [done|exact E2|by rewrite (pointwise_alen _ _ _ H1), (pointwise_alen _ _ _ H2)|].
  unfold rows_written in H2. rewrite Ew, Eh in H2. intros i x1 x2. rewrite H1, H2. destruct (aget m i) as [w|]; [|done].
  cbn. intros [= <-] [= <-]. destruct Hf.
  destruct (rect_fn_cases 0 bs (4 * width) height i w) as [(r & c & Hr & Hc & _ & E)|E]; [lia| |].
  - rewrite !E. unfold byte_at, sse_frame_byte, frame_byte. cbn [data alpha_sample].
    apply channels_agree; try (by apply plane_sample_byte). apply Z.mod_pos_bound. lia.
  - by rewrite !E, Z.sub_diag.
Qed.

Lemma sse2_agrees_portable_witness :
  exists m1 m2,
    ColorConvert_YCbCr420p_to_BGRA32_no_alpha (Some (replicate 32 7)) 16 2 2 (Some [16; 81; 145; 235]) (Some [240])
      (Some [90]) 2 1 1 = Some (0, Some m1) /\
    ColorConvert_YCbCr420p_to_BGRA32_no_alpha_sse2 64 16 2 2 (Plane 1 [16; 81; 145; 235]) (Plane 2 [240]) (Plane 3 [90])
      2 1 1 (replicate 32 7) = Some (0, m2) /\
    alen m1 = alen m2 /\ forall i x1 x2, aget m1 i = Some x1 -> aget m2 i = Some x2 -> Z.abs (x1 - x2) <= 1.
Proof.
  apply (sse2_agrees_portable 64 16 2 2 2 1 1 [16; 81; 145; 235] [240] [90] 1 2 3 (replicate 32 7));
    [|reflexivity|reflexivity].
  split; try (apply is_plane_forallb; reflexivity); vm_compute; (discriminate || reflexivity).
Defined.

(** ** Premultiplied pixels *)

Lemma pointwise_Forall (P : Z -> Prop) m m' f : pointwise m m' f -> Forall P m ->
  (forall i x, P x -> P (f i x)) -> Forall P m'.
Proof.
  intros H Hm Hf. apply Forall_lookup. intros i x Hx.
  assert (E : aget m' (Z.of_nat i) = Some x) by (rewrite aget_lookup, Nat2Z.id by lia; done).
  rewrite H in E. apply fmap_Some in E as (w & Ew & ->). apply Hf. by eapply aget_Forall.
Qed.

(** C39: the converter to BGRA with an alpha plane produces what the type of its
    frames, BGRA_PRE, promises: the destination stays an array of bytes, and in
    every pixel it converts alpha is the sample of the alpha plane and no colour
    exceeds it. *)
Theorem bgra_premultiplied d bgra_stride width height y_stride v_stride u_stride a_stride y v u a m :
  frame_sse2 d bgra_stride width height y_stride v_stride u_stride y v u m -> alpha_sse2 width height a_stride a ->
  Forall is_byte m ->
  exists m', ColorConvert_YCbCr420p_to_BGRA32_sse2 d bgra_stride width height y v u a y_stride v_stride u_stride a_stride m =
      Some (0, m') /\ Forall is_byte m' /\
    forall row col, 0 <= row < even_part height -> 0 <= col < even_part width ->
      exists b g r, let p := row * bgra_stride + 4 * col in
        aget m' p = Some b /\ aget m' (p + 1) = Some g /\ aget m' (p + 2) = Some r /\
        aget m' (p + 3) = Some (sample a.(data) (row * a_stride + col)) /\
        Z.max b (Z.max g r) <= sample a.(data) (row * a_stride + col).
Proof.
  intros Hf Ha Hm.
  assert (HS : forall p, Some a = Some p -> alpha_sse2 width height a_stride p) by (intros p E; by simplify_eq).
  destruct (convert_sse2_ok BGRA32 bgra_spec d bgra_stride width height y_stride v_stride u_stride a_stride y v u
    (Some a) m Hf HS) as (m' & E & H). exists m'. split; [exact E|]. unfold rows_written in H.
  pose proof Hf as []. destruct Ha as [_ _ Pa].
  assert (Bs : forall Y U V c, is_byte (sample a.(data) c) -> forall k, is_byte (sse_byte bgra_spec Y U V (sample a.(data) c) k)).
  { intros Y U V c Hc k. apply (place_byte (fmt := BGRA32)); [done|apply (scale_byte (fmt := BGRA32)); [apply shade_byte|done]..]. }
  split.
  - apply (pointwise_Forall _ _ _ _ H Hm). intros i x Hx. destruct (rect_fn_cases 0 bgra_stride (4 * even_part width)
      (even_part height) i x) as [(r & c & _ & _ & _ & Ei)|Ei]; [lia| |]; rewrite Ei; [|done].
    by apply Bs, plane_sample_byte.
  - intros row col Hr Hc.
    assert (G : forall k, 0 <= k < 4 -> aget m' (row * bgra_stride + 4 * col + k) =
      Some (sse_byte bgra_spec (sample y.(data) (row * y_stride + col)) (sample u.(data) (row / 2 * u_stride + col / 2))
        (sample v.(data) (row / 2 * v_stride + col / 2)) (sample a.(data) (row * a_stride + col)) k)).
    { intros k Hk. rewrite H. assert (0 <= row * bgra_stride) by nia.
      assert ((row + 1) * bgra_stride <= even_part height * bgra_stride) by nia.
      destruct (aget_ex m (row * bgra_stride + 4 * col + k)) as [w ->]; [lia|]. cbn.
      replace (row * bgra_stride + 4 * col + k) with (0 + row * bgra_stride + (4 * col + k)) by lia.
      rewrite rect_fn_in by lia. unfold byte_at, sse_frame_byte. cbn [alpha_sample].
      assert (E1 : (4 * col + k) / 4 = col) by dlia. assert (E2 : (4 * col + k) mod 4 = k) by dlia. by rewrite E1, E2. }
    do 3 eexists. cbv zeta. rewrite <- (Z.add_0_r (row * bgra_stride + 4 * col)) at 1. rewrite !G by lia.
    split_and!; try reflexivity. cbn.
    pose proof (fun c => scaled_le c (sample a.(data) (row * a_stride + col))) as Hle.
    repeat apply Z.max_lub; apply Hle; (apply shade_byte || by apply plane_sample_byte).
Qed.

Lemma bgra_premultiplied_witness :
  exists m', ColorConvert_YCbCr420p_to_BGRA32_sse2 32 128 30 2 (Plane 5 (ramp 60 13)) (Plane 8 (ramp 15 29))
      (Plane 16 (ramp 15 31)) (Plane 0 (ramp 60 7)) 30 15 15 30 (replicate 256 9) = Some (0, m') /\ Forall is_byte m' /\
    exists b g r, aget m' 0 = Some b /\ aget m' 1 = Some g /\ aget m' 2 = Some r /\ aget m' 3 = Some 7 /\
      Z.max b (Z.max g r) <= 7.
Proof.
  destruct sample_frame_sse2 as [Hf Ha].
  destruct (bgra_premultiplied 32 128 30 2 30 15 15 30 _ _ _ (Plane 0 (ramp 60 7)) _ Hf Ha) as (m' & E & Hb & Hp).
  - apply Forall_replicate. unfold is_byte. lia.
  - exists m'. split; [exact E|]. split; [exact Hb|].
    assert (E0 : 0 <= 0 < even_part 2 /\ 0 <= 0 < even_part 30) by (clear; vm_compute; split; split; (discriminate || reflexivity)).
    pose proof (Hp 0 0 (proj1 E0) (proj2 E0)) as Hq. cbv zeta in Hq. destruct Hq as (b & g & r & H0 & H1 & H2 & H3 & H4).
    assert (Es : sample (data (Plane 0 (ramp 60 7))) (0 * 30 + 0) = 7) by (vm_compute; reflexivity).
    rewrite Es in H3, H4. exists b, g, r. split_and!; assumption.
Defined.

(** The portable converter to BGRA does not multiply: a transparent pixel keeps
    its colour, where the SSE2 converter gives black. *)
Example straight_alpha :
  ColorConvert_YCbCr420p_to_BGRA32 (Some (replicate 32 7)) 16 2 2 (Some [81; 81; 81; 81]) (Some [240]) (Some [90])
    (Some [0; 0; 0; 0]) 2 1 1 2 = Some (0, Some [0; 0; 254; 0; 0; 0; 254; 0; 7; 7; 7; 7; 7; 7; 7; 7;
                                                 0; 0; 254; 0; 0; 0; 254; 0; 7; 7; 7; 7; 7; 7; 7; 7]) /\
  ColorConvert_YCbCr420p_to_BGRA32_sse2 64 16 2 2 (Plane 0 [81; 81; 81; 81]) (Plane 0 [240]) (Plane 0 [90])
    (Plane 0 [0; 0; 0; 0]) 2 1 1 2 (replicate 32 7) = Some (0, [0; 0; 0; 0; 0; 0; 0; 0; 7; 7; 7; 7; 7; 7; 7; 7;
                                                                0; 0; 0; 0; 0; 0; 0; 0; 7; 7; 7; 7; 7; 7; 7; 7]).
Proof. vm_compute. split; reflexivity. Qed.

(** An odd row or column: the portable converter refuses the frame, the SSE2
    converter returns 0 and leaves it. *)
Example odd_frame :
  ColorConvert_YCbCr420p_to_BGRA32_no_alpha (Some (replicate 32 7)) 16 3 1 (Some [81; 81; 81]) (Some [240; 240])
    (Some [90; 90]) 3 2 2 = Some (1, Some (replicate 32 7)) /\
  ColorConvert_YCbCr420p_to_BGRA32_no_alpha_sse2 64 16 3 1 (Plane 0 [81; 81; 81]) (Plane 0 [240; 240]) (Plane 0 [90; 90])
    3 2 2 (replicate 32 7) = Some (0, replicate 32 7).
Proof. vm_compute. split; reflexivity. Qed.

(** A destination that is not at a multiple of 16 faults from a width of 4 on. *)
Example unaligned_destination :
  ColorConvert_YCbCr420p_to_BGRA32_no_alpha_sse2 8 16 4 2 (Plane 0 (replicate 8 81)) (Plane 0 [240; 240])
    (Plane 0 [90; 90]) 4 2 2 (replicate 32 7) = None.
Proof. reflexivity. Qed.
