(* ===== verification/GstModel.v ===== *)
(** * GStreamer as the media elements see it

    The values the elements of gstreamer/plugins exchange with the framework:
    buffers, segments, events, flow returns and bus messages, the effects of an
    element on the outside, and the monad in which the elements are written.
    The framework itself is not modelled: what it answers is an argument of the
    operations. *)

From stdpp Require Import strings.
From S2P Require Import Prelude Float32.

(** ** GStreamer values *)

(** [GstFlowReturn]: the values the sources name, and the others. *)
Inductive GstFlowReturn :=
  GST_FLOW_OK | GST_FLOW_NOT_LINKED | GST_FLOW_FLUSHING | GST_FLOW_EOS | GST_FLOW_NOT_NEGOTIATED
| GST_FLOW_ERROR | GST_FLOW_NOT_SUPPORTED.

#[global] Instance GstFlowReturn_eq_dec : EqDecision GstFlowReturn.
Proof. solve_decision. Defined.

(** A [GstBuffer]: [GST_BUFFER_OFFSET] and the bytes; the offset is a guint64. *)
Record GstBuffer := mkGstBuffer { GST_BUFFER_OFFSET : Z; buffer_data : list Z }.

Definition gst_buffer_get_size (b : GstBuffer) : Z := alen (buffer_data b).

Definition u64 (x : Z) : Z := x mod 2 ^ 64.

(** ** GStreamer segments, events and messages *)

Inductive GstFormat := GST_FORMAT_UNDEFINED | GST_FORMAT_DEFAULT | GST_FORMAT_BYTES | GST_FORMAT_TIME.

#[global] Instance GstFormat_eq_dec : EqDecision GstFormat.
Proof. solve_decision. Defined.

(** [GstSegment]: the fields the plugins use; positions are guint64. *)
Record GstSegment := mkGstSegment {
  seg_flags : Z; seg_rate : jdouble; seg_format : GstFormat;
  seg_start : Z; seg_stop : Z; seg_time : Z; seg_position : Z }.

Definition GST_SEGMENT_FLAG_UPDATE : Z := 128.
Definition GST_SEEK_FLAG_FLUSH : Z := 1.
Definition NONE64 : Z := 2 ^ 64 - 1.

Definition gst_segment_init (format : GstFormat) : GstSegment :=
  mkGstSegment 0 (double_of_int 1) format 0 NONE64 0 0.

Inductive GstSeekType := GST_SEEK_TYPE_NONE | GST_SEEK_TYPE_SET | GST_SEEK_TYPE_END.

#[global] Instance GstSeekType_eq_dec : EqDecision GstSeekType.
Proof. solve_decision. Defined.

Record GstSeek := mkGstSeek {
  seek_rate : jdouble; seek_format : GstFormat; seek_flags : Z;
  seek_start_type : GstSeekType; seek_start : Z; seek_stop_type : GstSeekType }.

#[global] Instance jdouble_eq_dec : EqDecision jdouble.
Proof. unfold jdouble. solve_decision. Defined.
#[global] Instance GstSeek_eq_dec : EqDecision GstSeek.
Proof. solve_decision. Defined.

(** Events; [EventOther serialized] stands for the types no source names. *)
Inductive GstEvent :=
| EventSegment (s : GstSegment)
| EventEos
| EventFlushStart
| EventFlushStop
| EventSeek (s : GstSeek)
| EventRangeReady
| EventStreamStart
| EventCaps (mimetype : string)
| EventOther (serialized : bool).

Definition GST_EVENT_IS_SERIALIZED (e : GstEvent) : bool :=
  match e with
  | EventFlushStart | EventSeek _ => false
  | EventOther s => s
  | _ => true
  end.

(** The scheduling mode of a pad. *)
Inductive pad_mode := GST_PAD_MODE_NONE | GST_PAD_MODE_PUSH | GST_PAD_MODE_PULL.

(** The errors the elements report. *)
Inductive error_code :=
  GST_STREAM_ERROR_FORMAT | GST_STREAM_ERROR_WRONG_TYPE | GST_RESOURCE_ERROR_OPEN_READ_WRITE.

(** Messages on the bus. *)
Inductive message :=
| PB_MESSAGE_BUFFERING (start position stop : Z) (eos : bool)
| PB_MESSAGE_UNDERRUN
| HLS_PB_MESSAGE_RESUME
| HLS_PB_MESSAGE_HLS_EOS
| HLS_PB_MESSAGE_FULL
| HLS_PB_MESSAGE_NOT_FULL
| MESSAGE_ERROR (code : error_code)
| MESSAGE_WARNING.

(** What an element does to the outside: pushes, messages, its task, its
    caches, the condition variables it signals; and the references it drops
    ([Drop_pending] is an event that was queued for downstream) or, where a
    pointer is overwritten, leaks.  [Set_discont] sets the flag
    GST_BUFFER_FLAG_DISCONT of the buffer that is pushed next. *)
Inductive out :=
| Push_buffer (b : GstBuffer)
| Drop_buffer (b : GstBuffer)
| Push_event (e : GstEvent)
| Drop_event (e : GstEvent)
| Drop_pending (e : GstEvent)
| Leak_event (e : GstEvent)
| Push_upstream (e : GstEvent)
| Set_discont
| Post_message (m : message)
| Signal
| Signal_del
| Create_cache
| Destroy_cache
| Add_srcpad
| Start_task
| Pause_task
| Stop_task.

(** ** Computations of an element

    A piece of code that runs under the element's lock takes the state to a
    value, the new state and the list of its effects, in order; [None] is
    undefined behaviour. *)
Definition act (S A : Type) : Type := S -> option (A * S * list out).

Section act.
Context {S : Type}.

#[global] Instance act_ret : MRet (act S) := fun A a s => Some (a, s, []).

#[global] Instance act_bind : MBind (act S) := fun A B k m s =>
  match m s with
  | Some (a, s1, o1) =>
      match k a s1 with Some (b, s2, o2) => Some (b, s2, o1 ++ o2) | None => None end
  | None => None
  end.

#[global] Instance act_fmap : FMap (act S) := fun A B f m => mbind (fun a => mret (f a)) m.

(** Reading the state, assigning to it, an effect, undefined behaviour. *)
Definition gets {A} (f : S -> A) : act S A := fun s => Some (f s, s, []).
Definition assign (f : S -> S) : act S unit := fun s => Some (tt, f s, []).
Definition emit (o : out) : act S unit := fun s => Some (tt, s, [o]).
Definition undefined {A} : act S A := fun _ => None.

(** [if (b) m;] *)
Definition when (b : bool) (m : act S unit) : act S unit := if b then m else mret tt.

(** Element [i] of an array. *)
Definition at_index {A} (l : list A) (i : Z) : act S A := match aget l i with Some a => mret a | None => undefined end.

(** Dereference a pointer. *)
Definition deref {A} (o : option A) : act S A := match o with Some a => mret a | None => undefined end.
End act.

(** Unfold a computation that returned and case on its branches. *)
Ltac act_run H :=
  cbv beta iota zeta delta [mbind act_bind mret act_ret gets assign emit when deref undefined id fmap act_fmap] in H;
  repeat case_match; simplify_eq.

(** ** Relations that hold across a computation *)

(** Wherever [m] returns, the state before and after are related. *)
Definition preserves {S A} (R : S -> S -> Prop) (m : act S A) : Prop :=
  forall s a s' o, m s = Some (a, s', o) -> R s s'.

Section preserves.
Context {S : Type} (R : S -> S -> Prop) `{!PreOrder R}.

Lemma preserves_ret {A} (a : A) : preserves R (mret a).
Proof. intros s a' s' o. unfold mret, act_ret. intros [= _ <- _]. reflexivity. Qed.

Lemma preserves_bind {A B} (m : act S A) (k : A -> act S B) :
  preserves R m -> (forall a, preserves R (k a)) -> preserves R (mbind k m).
Proof.
  intros Hm Hk s b s' o. unfold mbind, act_bind. destruct (m s) as [[[a s1] o1]|] eqn:E1; [|done].
  destruct (k a s1) as [[[b' s2] o2]|] eqn:E2; [|done]. intros [= _ <- _].
  transitivity s1; [by eapply Hm|by eapply Hk].
Qed.

Lemma preserves_gets {A} (f : S -> A) : preserves R (gets f).
Proof. intros s a s' o. unfold gets. intros [= _ <- _]. reflexivity. Qed.

Lemma preserves_assign f : (forall s, R s (f s)) -> preserves R (assign f).
Proof. intros Hf s a s' o. unfold assign. intros [= _ <- _]. apply Hf. Qed.

Lemma preserves_emit x : preserves R (emit x).
Proof. intros s a s' o. unfold emit. intros [= _ <- _]. reflexivity. Qed.

Lemma preserves_when b m : preserves R m -> preserves R (when b m).
Proof. destruct b; [done|]. intros _. apply preserves_ret. Qed.

Lemma preserves_deref {A} (x : option A) : preserves R (deref x).
Proof. destruct x; [apply preserves_ret|]. by intros s a s' o. Qed.

Lemma preserves_at {A} (l : list A) i : preserves R (at_index l i).
Proof. unfold at_index. destruct (aget l i); [apply preserves_ret|]. by intros s a s' o. Qed.

(** A field read and assigned from what was read. *)
Lemma preserves_update {A B} (f : S -> A) (g : A -> S -> S) (k : A -> act S B) :
  (forall s, R s (g (f s) s)) -> (forall a, preserves R (k a)) -> preserves R (a ← gets f; assign (g a);; k a).
Proof.
  intros Hg Hk s b s' o. unfold mbind, act_bind, gets, assign. destruct (k (f s) (g (f s) s)) as [[[b' s2] o2]|] eqn:E; [|done].
  intros [= _ <- _]. transitivity (g (f s) s); [apply Hg|by eapply Hk].
Qed.

Lemma preserves_undefined {A} : preserves R (undefined (A := A)).
Proof. by intros s a s' o. Qed.
End preserves.

(** Follow the structure of a computation down to its assignments. *)
Ltac preserve :=
  repeat match goal with
  | |- preserves _ (mbind _ _) => apply preserves_bind; [exact _| |intros ?]
  | |- preserves _ (mret _) => apply preserves_ret; exact _
  | |- preserves _ (gets _) => apply preserves_gets; exact _
  | |- preserves _ (emit _) => apply preserves_emit; exact _
  | |- preserves _ (when _ _) => apply preserves_when; [exact _|]
  | |- preserves _ (deref _) => apply preserves_deref; exact _
  | |- preserves _ (at_index _ _) => apply preserves_at; exact _
  | |- preserves _ undefined => apply preserves_undefined
  | |- preserves _ (match ?x with _ => _ end) => destruct x
  | |- preserves _ (let x := _ in _) => intros ?
  | |- preserves _ (assign _) => apply preserves_assign; intros ?
  end.
