(* ===== verification/MediaCache.v ===== *)
(** * The cache interface of the media buffers

    gstreamer/plugins/progressbuffer/cache.h: the operations that the progress
    buffer and the HLS progress buffer call, implemented once on POSIX files and
    once on Win32 files.  [CacheOps] is the header, [CacheLaws] what it promises:
    a cache is a growing window of bytes with a read position; the two file
    caches are instances, the buffers are verified against the class.

    What the operating system and the allocator do during a call is an argument,
    [io]; the hypotheses [posix] and [healthy] state the documented behaviour the
    theorems rely on. *)

From S2P Require Import Prelude GstModel.

(** ** The operating system during one call

    [io_write n] is what writing [n] bytes returns, [io_read n] what a read
    returns for which [n] bytes are requested and present; a negative number is
    a failure.  [io_malloc], [io_map] and [io_wrap] say whether
    [g_try_malloc], [gst_buffer_map] and [gst_buffer_new_wrapped_full] succeed. *)
Record io := mkIo {
  io_malloc : bool; io_map : bool; io_wrap : bool; io_write : Z -> Z; io_read : Z -> Z }.

(** read(2) and write(2): an error, or at most what was asked for. *)
Record posix (e : io) : Prop := {
  write_bound : forall n, 0 <= n -> -1 <= io_write e n <= n;
  read_bound : forall n, 0 <= n -> -1 <= io_read e n <= n }.

(** Nothing fails: writes are complete and a read of present bytes makes
    progress, though it may be short. *)
Record healthy (e : io) : Prop := {
  malloc_ok : io_malloc e = true;
  map_ok : io_map e = true;
  wrap_ok : io_wrap e = true;
  write_all : forall n, 0 <= n -> io_write e n = n;
  read_some : forall n, 0 < n -> 0 < io_read e n <= n;
  read_none : io_read e 0 = 0 }.

Lemma healthy_posix e : healthy e -> posix e.
Proof.
  intros H. split; intros n Hn.
  - rewrite (write_all e H n Hn). lia.
  - destruct (Z.eq_dec n 0) as [->|]; [rewrite (read_none e H); lia|].
    pose proof (read_some e H n). lia.
Qed.

Definition io_complete : io := mkIo true true true (fun n => n) (fun n => n).

Lemma io_complete_healthy : healthy io_complete.
Proof. split; try done; simpl; lia. Qed.

(** What happens while a cache is created: whether the allocation, the choice of
    a file name, the two opens and the unlink succeed. *)
Record creation := mkCreation {
  cr_malloc : bool; cr_name : bool; cr_open_write : bool; cr_open_read : bool; cr_unlink : bool }.

(** The resources of a cache, to account for what is acquired and released. *)
Inductive resource := CacheBlock | FileName | WriteHandle | ReadHandle.

#[global] Instance resource_eq_dec : EqDecision resource.
Proof. solve_decision. Defined.

Inductive resource_event := Acquire (r : resource) | Release (r : resource).

(** The resources acquired and not released by a sequence of events. *)
Fixpoint released (l : list resource_event) : list resource :=
  match l with
  | [] => []
  | Acquire _ :: l => released l
  | Release r :: l => r :: released l
  end.

Fixpoint held (l : list resource_event) : list resource :=
  match l with
  | [] => []
  | Acquire r :: l => if decide (r ∈ released l) then held l else r :: held l
  | Release _ :: l => held l
  end.

(** ** Files

    A file is the list of its bytes.  Writing past the end fills the hole with
    zeros, reading returns the bytes that are there. *)
Definition file_write (f : list Z) (off : Z) (data : list Z) : list Z :=
  take (Z.to_nat off) f ++ replicate (Z.to_nat off - length f) 0 ++ data
  ++ drop (Z.to_nat off + length data) f.

Definition file_read (f : list Z) (off n : Z) : list Z :=
  take (Z.to_nat n) (drop (Z.to_nat off) f).

(** Bytes [off], ..., [off + n - 1]. *)
Definition slice (l : list Z) (off n : Z) : list Z := take (Z.to_nat n) (drop (Z.to_nat off) l).

Lemma slice_file_read f off n : file_read f off n = slice f off n.
Proof. reflexivity. Qed.

Lemma aget_app (l k : list Z) i :
  aget (l ++ k) i = if i <? alen l then aget l i else aget k (i - alen l).
Proof.
  unfold aget, alen. destruct (Z.ltb_spec i 0), (Z.ltb_spec i (Z.of_nat (length l))),
    (Z.ltb_spec (i - Z.of_nat (length l)) 0); try lia; try done.
  - by rewrite lookup_app_l by lia.
  - rewrite lookup_app_r by lia. f_equal. lia.
Qed.

Lemma alen_take (l : list Z) n : 0 <= n -> alen (take (Z.to_nat n) l) = Z.min n (alen l).
Proof. intros. unfold alen. rewrite length_take. lia. Qed.

Lemma take_alen (l : list Z) n : alen l <= n -> take (Z.to_nat n) l = l.
Proof. intros. apply take_ge. unfold alen in *. lia. Qed.

Lemma slice_len l off n : 0 <= off -> 0 <= n -> off + n <= alen l -> alen (slice l off n) = n.
Proof. intros. unfold slice, alen in *. rewrite length_take, length_drop. lia. Qed.

Lemma slice_take l w off n :
  0 <= off -> 0 <= n -> off + n <= w -> slice (take (Z.to_nat w) l) off n = slice l off n.
Proof.
  intros. unfold slice. rewrite skipn_firstn_comm, take_take. f_equal. lia.
Qed.

Lemma slice_app_l l k off n :
  0 <= off -> 0 <= n -> off + n <= alen l -> slice (l ++ k) off n = slice l off n.
Proof.
  intros. rewrite <- (slice_take (l ++ k) (alen l)) by lia.
  unfold alen. rewrite Nat2Z.id, take_app_length. done.
Qed.

Lemma slice_get l off n i :
  0 <= off -> 0 <= i < n -> aget (slice l off n) i = aget l (off + i).
Proof.
  intros. unfold slice. rewrite !aget_lookup by lia.
  rewrite lookup_take_lt, lookup_drop by lia. f_equal. lia.
Qed.

(** Consecutive slices join. *)
Lemma slice_join l off n m :
  0 <= off -> 0 <= n -> 0 <= m -> slice l off n ++ slice l (off + n) m = slice l off (n + m).
Proof.
  intros. unfold slice. replace (Z.to_nat (off + n)) with (Z.to_nat off + Z.to_nat n)%nat by lia.
  rewrite <- drop_drop. replace (Z.to_nat (n + m)) with (Z.to_nat n + Z.to_nat m)%nat by lia.
  apply take_take_drop.
Qed.

Lemma slice_whole l n : alen l <= n -> slice l 0 n = l.
Proof. intros. unfold slice. simpl. rewrite drop_0. by apply take_alen. Qed.

Lemma slice_empty l off : slice l off 0 = [].
Proof. unfold slice. by rewrite take_0. Qed.

(** Writing at the end of the window [take off f] extends it by the data. *)
Lemma file_write_window f off d :
  0 <= off <= alen f ->
  take (Z.to_nat (off + alen d)) (file_write f off d) = take (Z.to_nat off) f ++ d /\
  off + alen d <= alen (file_write f off d).
Proof.
  intros H. unfold file_write, alen in *. rewrite Z2Nat.inj_add, Nat2Z.id by lia.
  replace (Z.to_nat off - length f)%nat with 0%nat by lia. simpl. split.
  - rewrite take_app_add' by (rewrite length_take; lia). by rewrite take_app_length.
  - rewrite !length_app, length_take. lia.
Qed.

(** ** The interface *)
Class CacheOps (Cache : Type) := {
  c_create : creation -> option Cache;
  c_write_buffer : io -> Cache -> GstBuffer -> Cache;
  c_read_buffer : io -> Cache -> Z * option GstBuffer * Cache;
  c_read_buffer_from_position : io -> Cache -> Z -> Z -> GstFlowReturn * option GstBuffer * Cache;
  c_set_write_position : Cache -> Z -> bool * Cache;
  c_set_read_position : Cache -> Z -> bool * Cache;
  c_has_enough_data : Cache -> bool }.

(** What a cache promises.  [window c] is what has been written since the write
    position was last set to 0, [rpos c] the read position. *)
Class CacheLaws (Cache : Type) `{CacheOps Cache} := {
  cache_ok : Cache -> Prop;
  window : Cache -> list Z;
  rpos : Cache -> Z;
  rpos_nonneg : forall c, cache_ok c -> 0 <= rpos c;
  law_create : forall cr c, c_create cr = Some c -> cache_ok c /\ window c = [] /\ rpos c = 0;
  law_write : forall e c b, healthy e -> cache_ok c ->
    gst_buffer_get_size b < 2 ^ 32 -> alen (window c) + gst_buffer_get_size b < 2 ^ 63 ->
    cache_ok (c_write_buffer e c b) /\
    window (c_write_buffer e c b) = window c ++ buffer_data b /\
    rpos (c_write_buffer e c b) = rpos c;
  law_has_data : forall c, cache_ok c -> c_has_enough_data c = (rpos c <? alen (window c));
  law_read : forall e c, healthy e -> cache_ok c -> rpos c < alen (window c) ->
    exists n c', c_read_buffer e c =
        (rpos c + n, Some (mkGstBuffer (rpos c) (slice (window c) (rpos c) n)), c') /\
      0 < n /\ rpos c + n <= alen (window c) /\
      cache_ok c' /\ window c' = window c /\ rpos c' = rpos c + n;
  law_read_at : forall e c start size, healthy e -> cache_ok c ->
    0 <= start -> 0 <= size < 2 ^ 32 -> start + size <= alen (window c) ->
    exists r b c', c_read_buffer_from_position e c start size = (r, b, c') /\
      cache_ok c' /\ window c' = window c /\ rpos c' <= start + size /\
      (r = GST_FLOW_OK -> b = Some (mkGstBuffer start (slice (window c) start size))) /\
      (r = GST_FLOW_OK \/ r = GST_FLOW_ERROR) /\
      (io_read e size = size -> r = GST_FLOW_OK);
  law_rewind : forall c, cache_ok c ->
    exists c', c_set_write_position c 0 = (true, c') /\ cache_ok c' /\ window c' = [] /\ rpos c' = rpos c;
  law_seek : forall c p, cache_ok c -> 0 <= p < 2 ^ 63 ->
    exists c', c_set_read_position c p = (true, c') /\ cache_ok c' /\ window c' = window c /\ rpos c' = p;
  law_seek_before : forall c p, cache_ok c -> - 2 ^ 63 <= p < 0 -> c_set_read_position c p = (false, c) }.

(** ** The abstract store and its refinement

    [store] is the specification of a cache: the bytes written since the last
    rewind and a read position.  A read returns the next bytes, at least one. *)
Record store := mkStore { st_window : list Z; st_rpos : Z }.

Inductive cache_cmd :=
  CmdWrite (b : GstBuffer) | CmdRead | CmdReadAt (start size : Z) | CmdSeek (p : Z) | CmdRewind.

Inductive cache_reply :=
  Done | Bytes (b : GstBuffer) (next : Z) | Slice (b : GstBuffer) | Bool (b : bool) | Failed.

Inductive store_step : store -> cache_cmd -> cache_reply -> store -> Prop :=
| StWrite w r b : store_step (mkStore w r) (CmdWrite b) Done (mkStore (w ++ buffer_data b) r)
| StRead w r n : 0 < n -> r + n <= alen w ->
    store_step (mkStore w r) CmdRead (Bytes (mkGstBuffer r (slice w r n)) (r + n)) (mkStore w (r + n))
| StReadAt w r r' start size :
    store_step (mkStore w r) (CmdReadAt start size) (Slice (mkGstBuffer start (slice w start size))) (mkStore w r')
| StReadAtShort w r r' start size : store_step (mkStore w r) (CmdReadAt start size) Failed (mkStore w r')
| StSeek w r p : 0 <= p -> store_step (mkStore w r) (CmdSeek p) (Bool true) (mkStore w p)
| StSeekBefore w r p : p < 0 -> store_step (mkStore w r) (CmdSeek p) (Bool false) (mkStore w r)
| StRewind w r : store_step (mkStore w r) CmdRewind (Bool true) (mkStore [] r).

Inductive store_run : store -> list cache_cmd -> list cache_reply -> store -> Prop :=
| StNil s : store_run s [] [] s
| StCons s c r s' cs rs s'' :
    store_step s c r s' -> store_run s' cs rs s'' -> store_run s (c :: cs) (r :: rs) s''.

(** A command is allowed when its arguments are in range and, for a read, when
    [cache_has_enough_data] says so: the callers check it. *)
Definition cmd_ok (s : store) (c : cache_cmd) : Prop :=
  match c with
  | CmdWrite b => gst_buffer_get_size b < 2 ^ 32 /\ alen (st_window s) + gst_buffer_get_size b < 2 ^ 63
  | CmdRead => st_rpos s < alen (st_window s)
  | CmdReadAt start size => 0 <= start /\ 0 <= size < 2 ^ 32 /\ start + size <= alen (st_window s)
  | CmdSeek p => in_i64 p
  | CmdRewind => True
  end.

Section refinement.
Context {Cache : Type} `{laws : CacheLaws Cache}.
Implicit Types c : Cache.

Definition view c : store := mkStore (window c) (rpos c).

Definition run_cmd (e : io) (c : Cache) (cmd : cache_cmd) : cache_reply * Cache :=
  match cmd with
  | CmdWrite b => (Done, c_write_buffer e c b)
  | CmdRead =>
      let '(p, b, c) := c_read_buffer e c in
      (match b with Some b => Bytes b p | None => Failed end, c)
  | CmdReadAt start size =>
      let '(r, b, c) := c_read_buffer_from_position e c start size in
      (match r, b with GST_FLOW_OK, Some b => Slice b | _, _ => Failed end, c)
  | CmdSeek p => let '(r, c) := c_set_read_position c p in (Bool r, c)
  | CmdRewind => let '(r, c) := c_set_write_position c 0 in (Bool r, c)
  end.

(** Commands allowed along a run of the cache, each with its own environment. *)
Fixpoint run_cmds (c : Cache) (cmds : list (io * cache_cmd)) : list cache_reply * Cache :=
  match cmds with
  | [] => ([], c)
  | (e, cmd) :: cmds =>
      let '(r, c) := run_cmd e c cmd in let '(rs, c) := run_cmds c cmds in (r :: rs, c)
  end.

Fixpoint cmds_ok (c : Cache) (cmds : list (io * cache_cmd)) : Prop :=
  match cmds with
  | [] => True
  | (e, cmd) :: cmds => healthy e /\ cmd_ok (view c) cmd /\ cmds_ok (snd (run_cmd e c cmd)) cmds
  end.

Lemma run_cmd_sim e c cmd : cache_ok c -> healthy e -> cmd_ok (view c) cmd ->
  cache_ok (snd (run_cmd e c cmd)) /\
  store_step (view c) cmd (fst (run_cmd e c cmd)) (view (snd (run_cmd e c cmd))).
Proof.
  intros Hc He Hk. destruct cmd as [b| |start size|p|]; simpl in Hk |- *.
  - destruct Hk as [Hz Hk]. destruct (law_write e c b He Hc Hz Hk) as (H1 & H2 & H3). split; [done|]. unfold view. rewrite H2, H3. constructor.
  - destruct (law_read e c He Hc Hk) as (n & c' & -> & Hn & Hb & H1 & H2 & H3). simpl. split; [done|].
    unfold view. rewrite H2, H3. by constructor.
  - destruct Hk as (Hs & Hz & Hb).
    destruct (law_read_at e c start size He Hc Hs Hz Hb) as (r & b & c' & -> & H1 & H2 & _ & H3 & H4 & _).
    simpl. split; [done|]. unfold view. rewrite H2.
    destruct H4 as [->| ->]; [rewrite (H3 eq_refl)|]; constructor.
  - destruct (Z.lt_ge_cases p 0) as [Hp|Hp]; unfold in_i64 in Hk.
    + rewrite (law_seek_before c p) by (done || lia). simpl. split; [done|]. by constructor.
    + destruct (law_seek c p Hc) as (c' & -> & H1 & H2 & H3); [lia|]. simpl. split; [done|].
      unfold view. rewrite H2, H3. by constructor.
  - destruct (law_rewind c Hc) as (c' & -> & H1 & H2 & H3). simpl. split; [done|].
    unfold view. rewrite H2, H3. constructor.
Qed.

Lemma run_cmds_sim c cmds : cache_ok c -> cmds_ok c cmds ->
  store_run (view c) (map snd cmds) (fst (run_cmds c cmds)) (view (snd (run_cmds c cmds))).
Proof.
  revert c. induction cmds as [|[e cmd] cmds IH]; intros c Hc Hk; simpl; [constructor|].
  destruct Hk as (He & Hk & Hks). destruct (run_cmd_sim e c cmd Hc He Hk) as [H1 H2].
  destruct (run_cmd e c cmd) as [r c1]; simpl in *. pose proof (IH c1 H1 Hks) as IH1.
  destruct (run_cmds c1 cmds) as [rs c2]; simpl in *. by econstructor.
Qed.
End refinement.
