(* ===== verification/CachePosix.v ===== *)
(** * The file cache on POSIX

    gstreamer/plugins/progressbuffer/posix/filecache.c.  A cache is a temporary
    file that is unlinked at once and open twice.  [file] is its bytes,
    [writeOffset] and [readOffset] the kernel's offsets of the two descriptors;
    [read_position] and [write_position] are the struct's own copies of them,
    which the code uses to decide whether to seek at all. *)

From S2P Require Import Prelude GstModel MediaCache.

Definition DEFAULT_BUFFER_SIZE : Z := 4096.

Record Cache := mkCache {
  file : list Z; writeOffset : Z; readOffset : Z; read_position : Z; write_position : Z }.

(** [create_cache]: the cache or [NULL], and what was acquired and released. *)
Definition create_cache (cr : creation) : option Cache * list resource_event :=
  if cr_malloc cr then
    let log := [Acquire CacheBlock] in
    if cr_name cr then
      let log := log ++ [Acquire FileName] in
      let log := if cr_open_write cr then log ++ [Acquire WriteHandle] else log in
      let log := if cr_open_read cr then log ++ [Acquire ReadHandle] else log in
      if negb (cr_open_write cr) || negb (cr_open_read cr) then (None, log ++ [Release CacheBlock])
      else if cr_unlink cr then (Some (mkCache [] 0 0 0 0), log)
      else (None, log ++ [Release WriteHandle; Release ReadHandle; Release CacheBlock])
    else (None, log ++ [Release CacheBlock])
  else (None, []).

Definition destroy_cache (instance : Cache) : list resource_event :=
  [Release WriteHandle; Release ReadHandle; Release FileName; Release CacheBlock].

(** write(2) on the write descriptor. *)
Definition write (e : io) (c : Cache) (data : list Z) : Z * Cache :=
  let n := io_write e (alen data) in
  if n >? 0 then
    (n, mkCache (file_write (file c) (writeOffset c) (take (Z.to_nat n) data))
          (writeOffset c + n) (readOffset c) (read_position c) (write_position c))
  else (n, c).

(** read(2) on the read descriptor: the count returned and the bytes read. *)
Definition read (e : io) (c : Cache) (size : Z) : Z * list Z * Cache :=
  let present := Z.min size (Z.max 0 (alen (file c) - readOffset c)) in
  let n := io_read e present in
  if n >? 0 then
    (n, file_read (file c) (readOffset c) n,
     mkCache (file c) (writeOffset c) (readOffset c + n) (read_position c) (write_position c))
  else (n, [], c).

Definition cache_write_buffer (e : io) (cache : Cache) (buffer : GstBuffer) : Cache :=
  if io_map e then
    let '(written, cache) := write e cache (buffer_data buffer) in
    if written >? 0 then
      mkCache (file cache) (writeOffset cache) (readOffset cache) (read_position cache)
        (i64 (write_position cache + written))
    else cache
  else cache.

Definition advance_read (cache : Cache) (n : Z) : Cache :=
  mkCache (file cache) (writeOffset cache) (readOffset cache) (i64 (read_position cache + n))
    (write_position cache).

Definition cache_read_buffer (e : io) (cache : Cache) : Z * option GstBuffer * Cache :=
  if io_malloc e then
    let ahead := i64 (write_position cache - read_position cache) in
    let size := if (ahead >? 0) && (ahead <? DEFAULT_BUFFER_SIZE) then ahead else DEFAULT_BUFFER_SIZE in
    let '(read_bytes, data, cache) := read e cache size in
    if read_bytes >? 0 then
      let buffer := if io_wrap e then Some (mkGstBuffer (u64 (read_position cache)) data) else None in
      let cache := advance_read cache read_bytes in
      (read_position cache, buffer, cache)
    else (0, None, cache)
  else (0, None, cache).

(** lseek(2) to an absolute position fails when the position is negative. *)
Definition cache_set_handler_position (position : Z) : bool := 0 <=? i64 (u64 position).

Definition cache_set_write_position (cache : Cache) (position : Z) : bool * Cache :=
  let result := position =? write_position cache in
  if negb result then
    let result := cache_set_handler_position position in
    if result then
      (result, mkCache (file cache) position (readOffset cache) (read_position cache) position)
    else (result, cache)
  else (result, cache).

Definition cache_set_read_position (cache : Cache) (position : Z) : bool * Cache :=
  let result := position =? read_position cache in
  if negb result then
    let result := cache_set_handler_position position in
    if result then
      (result, mkCache (file cache) (writeOffset cache) position position (write_position cache))
    else (result, cache)
  else (result, cache).

Definition cache_read_buffer_from_position (e : io) (cache : Cache) (start_position size : Z)
  : GstFlowReturn * option GstBuffer * Cache :=
  let '(found, cache) := cache_set_read_position cache start_position in
  if found then
    if io_malloc e then
      let '(read_bytes, data, cache) := read e cache size in
      let '(result, buffer) :=
        if read_bytes =? size then
          if io_wrap e then (GST_FLOW_OK, Some (mkGstBuffer (u64 (read_position cache)) data))
          else (GST_FLOW_ERROR, None)
        else (GST_FLOW_ERROR, None) in
      (result, buffer, advance_read cache read_bytes)
    else (GST_FLOW_ERROR, None, cache)
  else (GST_FLOW_ERROR, None, cache).

Definition cache_has_enough_data (cache : Cache) : bool := read_position cache <? write_position cache.

#[global] Instance posix_ops : CacheOps Cache := {
  c_create cr := fst (create_cache cr);
  c_write_buffer := cache_write_buffer;
  c_read_buffer := cache_read_buffer;
  c_read_buffer_from_position := cache_read_buffer_from_position;
  c_set_write_position := cache_set_write_position;
  c_set_read_position := cache_set_read_position;
  c_has_enough_data := cache_has_enough_data }.

(** ** The cache keeps what the interface promises *)

(** The struct's positions are those of the descriptors, and everything below
    the write position has been written. *)
Record in_step (c : Cache) : Prop := {
  step_write : writeOffset c = write_position c;
  step_read : readOffset c = read_position c;
  write_range : 0 <= write_position c < 2 ^ 63;
  read_range : 0 <= read_position c < 2 ^ 63;
  written : write_position c <= alen (file c) }.

Definition written_bytes (c : Cache) : list Z := take (Z.to_nat (write_position c)) (file c).

Lemma written_len c : in_step c -> alen (written_bytes c) = write_position c.
Proof. intros []. unfold written_bytes. rewrite alen_take; lia. Qed.

Lemma seek_ok p : 0 <= p < 2 ^ 63 -> cache_set_handler_position p = true.
Proof.
  intros. unfold cache_set_handler_position, u64. rewrite Z.mod_small by lia.
  rewrite i64_id by (unfold in_i64; lia). apply Z.leb_le; lia.
Qed.

Lemma seek_before p : - 2 ^ 63 <= p < 0 -> cache_set_handler_position p = false.
Proof.
  intros. unfold cache_set_handler_position, u64, i64. apply Z.leb_gt.
  rewrite Zplus_mod_idemp_l, Z.mod_small; lia.
Qed.

Lemma set_read_ok c p : in_step c -> 0 <= p < 2 ^ 63 ->
  exists c', cache_set_read_position c p = (true, c') /\ in_step c' /\
    written_bytes c' = written_bytes c /\ read_position c' = p /\ file c' = file c.
Proof.
  intros Hc Hp. unfold cache_set_read_position. destruct (Z.eqb_spec p (read_position c)) as [->|]; simpl.
  - by exists c.
  - rewrite seek_ok by done. eexists. split; [done|]. split_and!; [|done..]. by destruct Hc; split.
Qed.

(** What a write appends: the bytes the system took. *)
Definition taken (e : io) (b : GstBuffer) : Z :=
  if io_map e then Z.max 0 (io_write e (gst_buffer_get_size b)) else 0.

Lemma write_any e c b : posix e -> in_step c -> write_position c + gst_buffer_get_size b < 2 ^ 63 ->
  in_step (cache_write_buffer e c b) /\
  written_bytes (cache_write_buffer e c b) = written_bytes c ++ take (Z.to_nat (taken e b)) (buffer_data b) /\
  read_position (cache_write_buffer e c b) = read_position c.
Proof.
  intros He Hc Hb. pose proof Hc as [Hw Hr Hwr Hrr Hf].
  unfold cache_write_buffer, write, taken, gst_buffer_get_size in *.
  pose proof (write_bound e He (alen (buffer_data b)) (alen_nonneg _)) as Hn.
  destruct (io_map e); [|by rewrite take_0, app_nil_r].
  set (n := io_write e (alen (buffer_data b))) in *. destruct (n >? 0) eqn:E.
  - cbv beta iota. rewrite E. apply Z.gtb_lt in E. rewrite Z.max_r by lia.
    set (d := take (Z.to_nat n) (buffer_data b)).
    assert (Hd : alen d = n) by (unfold d; rewrite alen_take; lia).
    destruct (file_write_window (file c) (writeOffset c) d) as [W L]; [lia|].
    unfold written_bytes. simpl. rewrite i64_id by (unfold in_i64; lia).
    rewrite Hd, Hw in W, L. rewrite Hw. split_and!; [|done..]. split; simpl; lia.
  - cbv beta iota. rewrite E. rewrite Z.gtb_ltb in E. apply Z.ltb_ge in E.
    by rewrite Z.max_l, take_0, app_nil_r by lia.
Qed.

Lemma write_ok e c b : healthy e -> in_step c -> write_position c + gst_buffer_get_size b < 2 ^ 63 ->
  in_step (cache_write_buffer e c b) /\
  written_bytes (cache_write_buffer e c b) = written_bytes c ++ buffer_data b /\
  read_position (cache_write_buffer e c b) = read_position c.
Proof.
  intros He Hc Hb. pose proof (write_any e c b (healthy_posix e He) Hc Hb) as H. unfold taken in H.
  unfold gst_buffer_get_size in H. pose proof (alen_nonneg (buffer_data b)).
  by rewrite (map_ok e He), (write_all e He), Z.max_r, (take_alen _ (alen (buffer_data b))) in H by lia.
Qed.

(** The invariant when the read descriptor and its copy move on together. *)
Lemma advance_ok c n : in_step c -> 0 <= n -> read_position c + n < 2 ^ 63 ->
  let c' := advance_read (mkCache (file c) (writeOffset c) (readOffset c + n) (read_position c)
    (write_position c)) n in
  in_step c' /\ written_bytes c' = written_bytes c /\ read_position c' = read_position c + n.
Proof.
  intros [] Hn Hb. unfold advance_read; simpl. rewrite i64_id by (unfold in_i64; lia).
  split_and!; [|done..]. split; simpl; lia.
Qed.

Lemma read_any e c : posix e -> in_step c -> read_position c < write_position c ->
  exists size, 0 < size <= write_position c - read_position c /\
    let n := io_read e size in
    cache_read_buffer e c =
      (if io_malloc e && (n >? 0) then
         (read_position c + n,
          (if io_wrap e then Some (mkGstBuffer (read_position c) (slice (written_bytes c) (read_position c) n))
           else None),
          advance_read (mkCache (file c) (writeOffset c) (readOffset c + n) (read_position c) (write_position c)) n)
       else (0, None, c)).
Proof.
  intros He Hc Hd. pose proof Hc as [Hw Hr Hwr Hrr Hf]. unfold cache_read_buffer, read.
  rewrite (i64_id (write_position c - _)) by (unfold in_i64; lia). set (size := if _ && _ then _ else _).
  assert (Hs : 0 < size <= write_position c - read_position c).
  { unfold size, DEFAULT_BUFFER_SIZE. case_bools. }
  exists size. split; [done|]. cbv zeta. destruct (io_malloc e); [|done]. simpl andb.
  replace (Z.min size _) with size by lia.
  pose proof (read_bound e He size) as Hn. set (n := io_read e size) in *.
  destruct (n >? 0) eqn:E; cbv beta iota; rewrite E; [|done]. apply Z.gtb_lt in E.
  destruct (advance_ok c n) as (_ & _ & ->); [done|lia..|]. simpl.
  unfold u64. rewrite Z.mod_small, Hr, slice_file_read by lia.
  unfold written_bytes. by rewrite slice_take by lia.
Qed.

Lemma read_ok e c : healthy e -> in_step c -> read_position c < write_position c ->
  exists n c', cache_read_buffer e c =
      (read_position c + n,
       Some (mkGstBuffer (read_position c) (slice (written_bytes c) (read_position c) n)), c') /\
    0 < n /\ read_position c + n <= write_position c /\
    in_step c' /\ written_bytes c' = written_bytes c /\ read_position c' = read_position c + n.
Proof.
  intros He Hc Hd. destruct (read_any e c (healthy_posix e He) Hc Hd) as (size & Hs & ->). cbv zeta.
  pose proof (read_some e He size) as Hn. pose proof Hc as [_ _ ? _ _]. set (n := io_read e size) in *.
  rewrite (malloc_ok e He), (wrap_ok e He), Z.gtb_ltb, (proj2 (Z.ltb_lt 0 n)) by lia.
  destruct (advance_ok c n) as (Ha & Hb & Hp); [done|lia..|].
  eexists n, _. split; [reflexivity|]. split_and!; (done || lia).
Qed.

Lemma read_at_ok e c start size : healthy e -> in_step c ->
  0 <= start -> 0 <= size < 2 ^ 32 -> start + size <= write_position c ->
  exists r b c', cache_read_buffer_from_position e c start size = (r, b, c') /\
    in_step c' /\ written_bytes c' = written_bytes c /\ read_position c' <= start + size /\
    (r = GST_FLOW_OK -> b = Some (mkGstBuffer start (slice (written_bytes c) start size))) /\
    (r = GST_FLOW_OK \/ r = GST_FLOW_ERROR) /\ (io_read e size = size -> r = GST_FLOW_OK).
Proof.
  intros He Hc Hs Hz Hb. pose proof Hc as [_ _ Hwr _ _].
  destruct (set_read_ok c start Hc) as (c1 & E1 & Hc1 & W1 & <- & F1); [lia|].
  assert (write_position c1 = write_position c) as Ew.
  { apply (f_equal alen) in W1. by rewrite !written_len in W1. }
  unfold cache_read_buffer_from_position, read. rewrite E1, (malloc_ok e He), (wrap_ok e He).
  pose proof Hc1 as [H1 H2 H3 H4 H5]. replace (Z.min size _) with size by lia.
  assert (0 <= io_read e size <= size) as Hn.
  { destruct (Z.eq_dec size 0) as [->|]; [by rewrite (read_none e He)|]. pose proof (read_some e He size). lia. }
  set (n := io_read e size) in *. destruct (advance_ok c1 n) as (Ha & Hs1 & Hp); [done|lia..|].
  assert (U : u64 (read_position c1) = read_position c1) by (unfold u64; rewrite Z.mod_small; lia).
  rewrite !Z.gtb_ltb. destruct (Z.ltb_spec 0 n) as [Hn0|Hn0].
  - destruct (Z.eqb_spec n size) as [Es|]; eexists _, _, _; (split; [reflexivity|]);
      (split_and!; [exact Ha|by rewrite Hs1|rewrite Hp; lia| |by auto|done]); [|done].
    intros _. simpl. rewrite U, H2, slice_file_read, <- W1, Es. unfold written_bytes.
    by rewrite slice_take by lia.
  - assert (n = 0) as E0 by lia. rewrite E0 in *.
    assert (advance_read c1 0 = c1) as Ea.
    { unfold advance_read. rewrite Z.add_0_r, i64_id by (unfold in_i64; lia). by destruct c1. }
    rewrite Ea. destruct (Z.eqb_spec 0 size) as [<-|]; eexists _, _, _; (split; [reflexivity|]);
      (split_and!; [done|done|lia| |by auto|done]); [|done].
    intros _. by rewrite U, slice_empty.
Qed.

#[global] Program Instance posix_laws : CacheLaws Cache := {
  cache_ok := in_step; window := written_bytes; rpos := read_position }.
Next Obligation. intros c []. simpl. lia. Qed.
Next Obligation.
  intros cr c. simpl. unfold create_cache.
  destruct (cr_malloc cr), (cr_name cr), (cr_open_write cr), (cr_open_read cr), (cr_unlink cr); simpl; try done.
  intros [= <-]. split_and!; [|done..]. split; simpl; try done; unfold alen; simpl; lia.
Qed.
Next Obligation. intros e c b He Hc _. rewrite written_len by done. by apply write_ok. Qed.
Next Obligation. intros c Hc. by rewrite written_len. Qed.
Next Obligation. intros e c He Hc. rewrite written_len by done. by apply read_ok. Qed.
Next Obligation. intros e c start size He Hc. rewrite written_len by done. by apply read_at_ok. Qed.
Next Obligation.
  intros c Hc. pose proof Hc as []. simpl. unfold cache_set_write_position.
  destruct (Z.eqb_spec 0 (write_position c)) as [E|]; simpl.
  - exists c. unfold written_bytes. by rewrite <- E.
  - rewrite seek_ok by lia. eexists. split; [done|]. split_and!; [|done..].
    pose proof (alen_nonneg (file c)). split; simpl; (done || lia).
Qed.
Next Obligation. intros c p Hc Hp. destruct (set_read_ok c p Hc Hp) as (c' & ? & ? & ? & ? & _). by exists c'. Qed.
Next Obligation.
  intros c p Hc Hp. pose proof Hc as []. simpl. unfold cache_set_read_position.
  destruct (Z.eqb_spec p (read_position c)); [lia|]. simpl. by rewrite seek_before.
Qed.

(** C26: a POSIX cache refines the abstract byte store: from creation, whatever
    sequence of writes, reads, seeks and rewinds is made within the callers'
    preconditions, with short reads allowed, the replies are those of a run of
    the store that appends what is written, reads the next bytes or the bytes
    asked for, and forgets on rewind. *)
Theorem posix_cache_refines cr c cmds :
  c_create cr = Some c -> cmds_ok c cmds ->
  store_run (mkStore [] 0) (map snd cmds) (fst (run_cmds c cmds)) (view (snd (run_cmds c cmds))).
Proof.
  intros Hcr Hk. destruct (law_create cr c Hcr) as (Hc & Hw & Hr).
  pose proof (run_cmds_sim c cmds Hc Hk) as H. unfold view in H at 1. by rewrite Hw, Hr in H.
Qed.

Definition all_created : creation := mkCreation true true true true true.
Definition short_reads : io := mkIo true true true (fun n => n) (fun n => Z.min n 1).

Lemma short_reads_healthy : healthy short_reads.
Proof. split; try done; simpl; lia. Qed.

Lemma posix_cache_refines_witness :
  let c := mkCache [] 0 0 0 0 in
  let cmds := [(io_complete, CmdWrite (mkGstBuffer 0 [7; 8; 9])); (short_reads, CmdRead); (io_complete, CmdRead);
    (io_complete, CmdReadAt 1 2); (io_complete, CmdRewind); (io_complete, CmdSeek 0);
    (io_complete, CmdWrite (mkGstBuffer 0 [5]))] in
  store_run (mkStore [] 0) (map snd cmds)
    [Done; Bytes (mkGstBuffer 0 [7]) 1; Bytes (mkGstBuffer 1 [8; 9]) 3; Slice (mkGstBuffer 1 [8; 9]); Bool true;
     Bool true; Done] (mkStore [5] 0).
Proof.
  intros c cmds. apply (posix_cache_refines all_created c cmds); [reflexivity|].
  repeat (split; [first [exact io_complete_healthy | exact short_reads_healthy]|split; [compute_true|]]).
  exact I.
Defined.

(** ** What an I/O error leaves behind *)

(** C34: for every outcome POSIX allows, short and failed transfers included, the
    copies of the file positions stay true; a write appends exactly the bytes the
    system took, a read either fails, returns 0 and no buffer and moves nothing,
    or consumes the next [n] bytes of the window. *)
Theorem cache_error_paths e c b :
  posix e -> in_step c -> write_position c + gst_buffer_get_size b < 2 ^ 63 ->
  (exists n, 0 <= n <= gst_buffer_get_size b /\
     in_step (cache_write_buffer e c b) /\
     written_bytes (cache_write_buffer e c b) = written_bytes c ++ take (Z.to_nat n) (buffer_data b)) /\
  (read_position c < write_position c ->
   exists r ob c', cache_read_buffer e c = (r, ob, c') /\ in_step c' /\ written_bytes c' = written_bytes c /\
     ((r = 0 /\ ob = None /\ read_position c' = read_position c) \/
      exists n, 0 < n /\ r = read_position c + n /\ r <= write_position c /\ read_position c' = r /\
        (ob = None \/ ob = Some (mkGstBuffer (read_position c) (slice (written_bytes c) (read_position c) n))))).
Proof.
  intros He Hc Hb. split.
  - pose proof (write_any e c b He Hc Hb) as (H1 & H2 & _). exists (taken e b). split_and!; try done.
    + unfold taken. destruct (io_map e); lia.
    + pose proof (alen_nonneg (buffer_data b) : 0 <= gst_buffer_get_size b) as Hz.
      pose proof (write_bound e He _ Hz). unfold taken. destruct (io_map e); lia.
  - intros Hd. destruct (read_any e c He Hc Hd) as (size & Hs & ->). cbv zeta.
    pose proof (read_bound e He size) as Hn. pose proof Hc as [_ _ ? _ _]. set (n := io_read e size) in *.
    destruct (io_malloc e && (n >? 0)) eqn:E.
    + apply andb_true_iff in E as [_ E]. apply Z.gtb_lt in E.
      destruct (advance_ok c n) as (Ha & Hw & Hp); [done|lia..|].
      eexists _, _, _. split; [reflexivity|]. split_and!; [done..|]. right. exists n.
      split_and!; [lia..|done|]. destruct (io_wrap e); auto.
    + exists 0, None, c. split_and!; try done. by left.
Qed.

Definition disk_full : io := mkIo true true true (fun n => n / 2) (fun _ => -1).

Lemma disk_full_posix : posix disk_full.
Proof. split; simpl; intros; [dlia|lia]. Qed.

Lemma cache_error_paths_witness :
  let c := mkCache [1; 2; 3] 3 1 1 3 in
  posix disk_full /\ in_step c /\
  written_bytes (cache_write_buffer disk_full c (mkGstBuffer 3 [4; 5; 6; 7])) = [1; 2; 3; 4; 5] /\
  cache_read_buffer disk_full c = (0, None, c) /\
  in_step (cache_write_buffer disk_full c (mkGstBuffer 3 [4; 5; 6; 7])).
Proof.
  intros c. assert (in_step c) as Hc by (split; compute_true).
  split_and!; [exact disk_full_posix|exact Hc|reflexivity|reflexivity|].
  destruct (cache_error_paths disk_full c (mkGstBuffer 3 [4; 5; 6; 7]) disk_full_posix Hc) as [(n & _ & H & _) _];
    [compute_true|exact H].
Defined.

(** A failed [cache_read_buffer_from_position] is the exception: it adds the
    result -1 of read(2) to [read_position], so the copy is one less than the
    descriptor's offset and the next read that starts there skips a byte. *)
Example read_error_desync :
  let c := mkCache [10; 11; 12; 13] 4 0 0 4 in
  let c1 := snd (cache_read_buffer_from_position disk_full c 2 1) in
  in_step c /\ read_position c1 = 1 /\ readOffset c1 = 2 /\
  fst (cache_read_buffer_from_position io_complete c1 1 2) = (GST_FLOW_OK, Some (mkGstBuffer 1 [12; 13])).
Proof. split_and!; [split; compute_true|reflexivity..]. Qed.

(** ** Resources *)

(** A cache that was created holds its block, its file name and its two
    descriptors, and destroying it releases all of them. *)
Theorem create_destroy_balanced cr c log :
  create_cache cr = (Some c, log) ->
  held log = [CacheBlock; FileName; WriteHandle; ReadHandle] /\ held (log ++ destroy_cache c) = [].
Proof.
  unfold create_cache.
  destruct (cr_malloc cr), (cr_name cr), (cr_open_write cr), (cr_open_read cr), (cr_unlink cr); simpl; try done.
  by intros [= <- <-].
Qed.

Lemma create_destroy_balanced_witness :
  exists c log, create_cache all_created = (Some c, log) /\ held (log ++ destroy_cache c) = [].
Proof. eexists _, _. split; [reflexivity|]. refine (proj2 (create_destroy_balanced all_created _ _ eq_refl)). Defined.

(** On the error exits something stays behind: the file name always, and a
    descriptor when only one of the two opens failed. *)
Example create_error_leaks :
  let read_open_fails := mkCreation true true true false true in
  let unlink_fails := mkCreation true true true true false in
  (fst (create_cache read_open_fails) = None /\ held (snd (create_cache read_open_fails)) = [FileName; WriteHandle]) /\
  (fst (create_cache unlink_fails) = None /\ held (snd (create_cache unlink_fails)) = [FileName]).
Proof. done. Qed.
