(* ===== verification/CacheWin32.v ===== *)
(** * The file cache on Windows

    gstreamer/plugins/progressbuffer/win32/filecache.c.  The struct holds the same
    state as the POSIX one, so the record is shared; the calls differ: transfers
    report success and a count apart, a read of no bytes is a success, buffers
    are written with a 32-bit length, and nothing has to be unlinked.  Where no
    operation of the system fails the two implementations are the same function,
    and the laws of the interface carry over. *)

From S2P Require Import Prelude GstModel MediaCache CachePosix.

Definition create_cache (cr : creation) : option Cache * list resource_event :=
  if cr_malloc cr then
    let log := [Acquire CacheBlock] in
    if cr_name cr then
      let log := if cr_open_write cr then log ++ [Acquire WriteHandle] else log in
      let log := if cr_open_read cr then log ++ [Acquire ReadHandle] else log in
      if negb (cr_open_write cr) || negb (cr_open_read cr) then (None, log ++ [Release CacheBlock])
      else (Some (mkCache [] 0 0 0 0), log)
    else (None, log ++ [Release CacheBlock])
  else (None, []).

Definition destroy_cache (instance : Cache) : list resource_event :=
  [Release WriteHandle; Release ReadHandle; Release CacheBlock].

(** [WriteFile] and [ReadFile]: success, and the count they store. *)
Definition WriteFile (e : io) (c : Cache) (data : list Z) : bool * Z * Cache :=
  let '(n, c) := write e c data in (0 <=? n, Z.max 0 n, c).

Definition ReadFile (e : io) (c : Cache) (size : Z) : bool * Z * list Z * Cache :=
  let '(n, data, c) := read e c size in (0 <=? n, Z.max 0 n, data, c).

Definition cache_write_buffer (e : io) (cache : Cache) (buffer : GstBuffer) : Cache :=
  if io_map e then
    let '(ok, written, cache) :=
      WriteFile e cache (take (Z.to_nat (u32 (gst_buffer_get_size buffer))) (buffer_data buffer)) in
    if ok then
      mkCache (file cache) (writeOffset cache) (readOffset cache) (read_position cache)
        (i64 (write_position cache + written))
    else cache
  else cache.

Definition cache_read_buffer (e : io) (cache : Cache) : Z * option GstBuffer * Cache :=
  let ahead := i64 (write_position cache - read_position cache) in
  let size := if (ahead >? 0) && (ahead <? DEFAULT_BUFFER_SIZE) then ahead else DEFAULT_BUFFER_SIZE in
  if io_malloc e then
    let '(ok, read, data, cache) := ReadFile e cache size in
    if ok then
      let buffer := if io_wrap e then Some (mkGstBuffer (u64 (read_position cache)) data) else None in
      let cache := advance_read cache read in
      (read_position cache, buffer, cache)
    else (0, None, cache)
  else (0, None, cache).

(** [SetFilePointer] from the beginning fails when the position is negative. *)
Definition cache_set_handler_position (position : Z) : bool := 0 <=? i64 (u64 position).

Definition cache_set_write_position (cache : Cache) (position : Z) : bool * Cache :=
  let result := position =? write_position cache in
  if negb result then
    let result := cache_set_handler_position position in
    if result then
      (result, mkCache (file cache) position (readOffset cache) (read_position cache) position)
    else (result, cache)
  else (result, cache).

Definition cache_set_read_position (cache : Cache) (position : Z) : bool * Cache :=
  let result := position =? read_position cache in
  if negb result then
    let result := cache_set_handler_position position in
    if result then
      (result, mkCache (file cache) (writeOffset cache) position position (write_position cache))
    else (result, cache)
  else (result, cache).

Definition cache_read_buffer_from_position (e : io) (cache : Cache) (start_position size : Z)
  : GstFlowReturn * option GstBuffer * Cache :=
  let '(found, cache) := cache_set_read_position cache start_position in
  if found then
    if io_malloc e then
      let '(ok, read, data, cache) := ReadFile e cache size in
      if ok then
        let '(result, buffer) :=
          if read =? size then
            if io_wrap e then (GST_FLOW_OK, Some (mkGstBuffer (u64 (read_position cache)) data))
            else (GST_FLOW_ERROR, None)
          else (GST_FLOW_ERROR, None) in
        (result, buffer, advance_read cache read)
      else (GST_FLOW_ERROR, None, cache)
    else (GST_FLOW_ERROR, None, cache)
  else (GST_FLOW_ERROR, None, cache).

Definition cache_has_enough_data (cache : Cache) : bool := read_position cache <? write_position cache.

(** The operations, to be used in place of the POSIX ones. *)
Definition win32_ops : CacheOps Cache := {|
  c_create cr := fst (create_cache cr);
  c_write_buffer := cache_write_buffer;
  c_read_buffer := cache_read_buffer;
  c_read_buffer_from_position := cache_read_buffer_from_position;
  c_set_write_position := cache_set_write_position;
  c_set_read_position := cache_set_read_position;
  c_has_enough_data := cache_has_enough_data |}.

(** ** Agreement with the POSIX cache *)

Lemma write_agree e c b : healthy e -> in_step c -> gst_buffer_get_size b < 2 ^ 32 ->
  cache_write_buffer e c b = CachePosix.cache_write_buffer e c b.
Proof.
  intros He [] Hb. unfold cache_write_buffer, CachePosix.cache_write_buffer, WriteFile.
  pose proof (alen_nonneg (buffer_data b) : 0 <= gst_buffer_get_size b).
  unfold u32. rewrite (map_ok e He), Z.mod_small, take_alen by (done || lia).
  unfold write. rewrite (write_all e He) by (apply alen_nonneg). fold (gst_buffer_get_size b).
  set (n := gst_buffer_get_size b) in *. destruct (n >? 0) eqn:E; cbv beta iota zeta; rewrite E.
  - rewrite (proj2 (Z.leb_le 0 n)), Z.max_r by lia. done.
  - rewrite Z.gtb_ltb in E. apply Z.ltb_ge in E. rewrite (proj2 (Z.leb_le 0 n)), Z.max_r by lia.
    replace (write_position c + n) with (write_position c) by lia.
    rewrite i64_id by (unfold in_i64; lia). by destruct c.
Qed.

(** Where [ReadFile] succeeds it is [read]. *)
Lemma ReadFile_read e c size : healthy e -> 0 <= size ->
  ReadFile e c size = let '(n, data, c') := read e c size in (true, n, data, c').
Proof.
  intros He Hs. unfold ReadFile, read. set (k := Z.min size _).
  assert (0 <= io_read e k).
  { destruct (Z.eq_dec k 0) as [->|]; [by rewrite (read_none e He)|].
    pose proof (read_some e He k). lia. }
  destruct (_ >? 0); cbv beta iota; by rewrite (proj2 (Z.leb_le 0 _)), Z.max_r by lia.
Qed.

Lemma read_agree e c : healthy e -> in_step c -> read_position c < write_position c ->
  cache_read_buffer e c = CachePosix.cache_read_buffer e c.
Proof.
  intros He Hc Hd. pose proof Hc as []. unfold cache_read_buffer, CachePosix.cache_read_buffer.
  rewrite (malloc_ok e He), i64_id by (unfold in_i64; lia). cbv zeta. set (size := if _ && _ then _ else _).
  assert (0 < size <= write_position c - read_position c).
  { unfold size, DEFAULT_BUFFER_SIZE. case_bools. }
  clearbody size. rewrite ReadFile_read by (done || lia). unfold read.
  replace (Z.min size _) with size by lia. pose proof (read_some e He size).
  destruct (io_read e size >? 0) eqn:E; cbv beta iota; rewrite E; [done|]. lia.
Qed.

Lemma read_at_agree e c start size : healthy e -> 0 <= size ->
  cache_read_buffer_from_position e c start size = CachePosix.cache_read_buffer_from_position e c start size.
Proof.
  intros He Hs. unfold cache_read_buffer_from_position, CachePosix.cache_read_buffer_from_position.
  change (cache_set_read_position c start) with (CachePosix.cache_set_read_position c start).
  destruct (CachePosix.cache_set_read_position c start) as [found c1].
  destruct found, (io_malloc e); try done. rewrite ReadFile_read by done.
  by destruct (read e c1 size) as [[n data] c2].
Qed.

(** When no operation of the system fails, the Win32 cache and the POSIX
    cache are the same: writes of buffers below 4 GiB, reads when there is data
    and random reads give the same buffers and leave the same state. *)
Lemma win32_posix_equiv e c b start size :
  healthy e -> in_step c -> gst_buffer_get_size b < 2 ^ 32 -> 0 <= size ->
  cache_write_buffer e c b = CachePosix.cache_write_buffer e c b /\
  (cache_has_enough_data c = true -> cache_read_buffer e c = CachePosix.cache_read_buffer e c) /\
  cache_read_buffer_from_position e c start size = CachePosix.cache_read_buffer_from_position e c start size.
Proof.
  intros He Hc Hb Hs. split_and!; [by apply write_agree| |by apply read_at_agree].
  intros Hd. apply read_agree; [done|done|]. by apply Z.ltb_lt.
Qed.

Lemma win32_posix_equiv_witness :
  let c := mkCache [1; 2; 3] 3 1 1 3 in
  cache_read_buffer short_reads c = CachePosix.cache_read_buffer short_reads c /\
  cache_read_buffer short_reads c = (2, Some (mkGstBuffer 1 [2]), mkCache [1; 2; 3] 3 2 2 3).
Proof.
  intros c. split; [|reflexivity].
  apply (win32_posix_equiv short_reads c (mkGstBuffer 0 []) 0 0 short_reads_healthy);
    [split; compute_true|compute_true|done|reflexivity].
Defined.

Program Definition win32_laws : @CacheLaws Cache win32_ops :=
  @Build_CacheLaws Cache win32_ops in_step written_bytes read_position _ _ _ _ _ _ _ _ _.
Next Obligation. intros c []. lia. Qed.
Next Obligation.
  intros cr c. simpl. unfold create_cache.
  destruct (cr_malloc cr), (cr_name cr), (cr_open_write cr), (cr_open_read cr); simpl; try done.
  intros [= <-]. split_and!; [|done..]. split; simpl; try done; unfold alen; simpl; lia.
Qed.
Next Obligation.
  intros e c b He Hc Hz. simpl. rewrite written_len, write_agree by done. by apply write_ok.
Qed.
Next Obligation. intros c Hc. simpl. by rewrite written_len. Qed.
Next Obligation.
  intros e c He Hc. simpl. rewrite written_len by done. intros Hd. rewrite read_agree by done. by apply read_ok.
Qed.
Next Obligation.
  intros e c start size He Hc Hs Hz. simpl. rewrite written_len, read_at_agree by (done || lia). by apply read_at_ok.
Qed.
Next Obligation. exact (@law_rewind Cache posix_ops posix_laws). Qed.
Next Obligation. exact (@law_seek Cache posix_ops posix_laws). Qed.
Next Obligation. exact (@law_seek_before Cache posix_ops posix_laws). Qed.
