(* ===== verification/ProgressBuffer.v ===== *)
(** * The progress buffer

    gstreamer/plugins/progressbuffer/progressbuffer.c, built with
    [ENABLE_PULL_MODE] and [ENABLE_SOURCE_SEEKING] as on every platform: the
    element between the Java source and the demuxer.  Upstream data goes to the
    cache ([progress_buffer_chain]), a task of the source pad reads it back and
    pushes it downstream ([progress_buffer_loop]), or downstream pulls ranges
    ([progress_buffer_getrange]).

    The element's state is threaded through a small monad: a computation returns
    a value, the new state and what it did ([out]), or [None] for undefined
    behaviour (a null pointer dereferenced).  A function that releases the lock
    or blocks is split there, into the pieces that run under the lock. *)

From S2P Require Import Prelude Float32 GstModel MediaCache.

(** ** The element *)

Definition NO_RANGE_REQUEST : Z := -1.
Definition EOS_SIGNAL_LIMIT : Z := 1.

Record ProgressBuffer (Cache : Type) := mkProgressBuffer {
  srcpad : bool;
  cache : option Cache;
  pending_src_event : option GstEvent;
  cache_read_offset : Z;
  sink_segment : GstSegment;
  last_update : jdouble;
  threshold : jdouble;
  subtotal : Z;
  bandwidth : jdouble;
  prebuffer_time : jdouble;
  wait_tolerance : jdouble;
  unexpected : bool;
  srcresult : GstFlowReturn;
  eos : bool;
  signal_limit : Z;
  instant_seek : bool;
  is_source_seeking : bool;
  range_start : Z;
  range_stop : Z;
  monitor_thread : bool }.
Arguments mkProgressBuffer {_}. Arguments srcpad {_}. Arguments cache {_}. Arguments pending_src_event {_}.
Arguments cache_read_offset {_}. Arguments sink_segment {_}. Arguments last_update {_}. Arguments threshold {_}.
Arguments subtotal {_}. Arguments bandwidth {_}. Arguments prebuffer_time {_}. Arguments wait_tolerance {_}.
Arguments unexpected {_}. Arguments srcresult {_}. Arguments eos {_}. Arguments signal_limit {_}.
Arguments instant_seek {_}. Arguments is_source_seeking {_}. Arguments range_start {_}. Arguments range_stop {_}.
Arguments monitor_thread {_}.

Section assignments.
Context {Cache : Type}.
Abbreviation PB := (ProgressBuffer Cache).

Definition pb_eta (p : PB) : PB :=
  mkProgressBuffer (srcpad p) (cache p) (pending_src_event p) (cache_read_offset p) (sink_segment p)
    (last_update p) (threshold p) (subtotal p) (bandwidth p) (prebuffer_time p) (wait_tolerance p)
    (unexpected p) (srcresult p) (eos p) (signal_limit p) (instant_seek p) (is_source_seeking p)
    (range_start p) (range_stop p) (monitor_thread p).

(** [element->f = v]. *)
Ltac assign f :=
  let e := eval unfold pb_eta in pb_eta in
  let e' := eval pattern f in e in
  match e' with ?F f => exact (fun v => F (fun _ => v)) end.

Definition set_srcpad : bool -> PB -> PB := ltac:(assign (@srcpad Cache)).
Definition set_cache : option Cache -> PB -> PB := ltac:(assign (@cache Cache)).
Definition set_pending : option GstEvent -> PB -> PB := ltac:(assign (@pending_src_event Cache)).
Definition set_cache_read_offset : Z -> PB -> PB := ltac:(assign (@cache_read_offset Cache)).
Definition set_sink_segment : GstSegment -> PB -> PB := ltac:(assign (@sink_segment Cache)).
Definition set_last_update : jdouble -> PB -> PB := ltac:(assign (@last_update Cache)).
Definition set_subtotal : Z -> PB -> PB := ltac:(assign (@subtotal Cache)).
Definition set_bandwidth : jdouble -> PB -> PB := ltac:(assign (@bandwidth Cache)).
Definition set_unexpected : bool -> PB -> PB := ltac:(assign (@unexpected Cache)).
Definition set_srcresult : GstFlowReturn -> PB -> PB := ltac:(assign (@srcresult Cache)).
Definition set_eos : bool -> PB -> PB := ltac:(assign (@eos Cache)).
Definition set_signal_limit : Z -> PB -> PB := ltac:(assign (@signal_limit Cache)).
Definition set_instant_seek : bool -> PB -> PB := ltac:(assign (@instant_seek Cache)).
Definition set_is_source_seeking : bool -> PB -> PB := ltac:(assign (@is_source_seeking Cache)).
Definition set_range_start : Z -> PB -> PB := ltac:(assign (@range_start Cache)).
Definition set_range_stop : Z -> PB -> PB := ltac:(assign (@range_stop Cache)).
Definition set_monitor_thread : bool -> PB -> PB := ltac:(assign (@monitor_thread Cache)).
Definition set_threshold : jdouble -> PB -> PB := ltac:(assign (@threshold Cache)).
Definition set_prebuffer_time : jdouble -> PB -> PB := ltac:(assign (@prebuffer_time Cache)).
Definition set_wait_tolerance : jdouble -> PB -> PB := ltac:(assign (@wait_tolerance Cache)).
End assignments.

(** Segment fields assigned on their own. *)
Definition with_position (n : Z) (s : GstSegment) : GstSegment :=
  mkGstSegment (seg_flags s) (seg_rate s) (seg_format s) (seg_start s) (seg_stop s) (seg_time s) n.
Definition with_stop (n : Z) (s : GstSegment) : GstSegment :=
  mkGstSegment (seg_flags s) (seg_rate s) (seg_format s) (seg_start s) n (seg_time s) (seg_position s).

(** ** Operations *)

(** What the surroundings do during one call: the operating system, the elapsed
    time of the bandwidth timer, the creation of a cache. *)
Record surroundings := mkSurroundings { s_io : io; s_elapsed : jdouble; s_create : creation }.

(** What is handed to [progress_buffer_enqueue_item]. *)
Inductive item := ItemBuffer (b : GstBuffer) | ItemEvent (e : GstEvent).

(** Where an iteration of [progress_buffer_loop] goes after one item: it blocks
    in [g_cond_wait], it takes the next item, it has unlocked and pushes an event
    or a buffer, or it returns. *)
Inductive loop_next :=
| LoopWait
| LoopNext (skip : bool)
| LoopPushEvent (result : GstFlowReturn)
| LoopPushBuffer
| LoopReturn (result : GstFlowReturn).

Inductive src_action := PerformPushSeek (k : GstSeek) | Handled | DefaultHandler.

Section operations.
Context {Cache : Type} `{ops : CacheOps Cache}.
Abbreviation PB := (ProgressBuffer Cache).
Abbreviation A := (act PB).

Definition progress_buffer_set_pending_event (new_event : option GstEvent) : A unit :=
  old ← gets pending_src_event;
  (match old with Some e => emit (Drop_pending e) | None => mret tt end);;
  assign (set_pending new_event).

Definition reset_eos (clear_pending_event : bool) : A unit :=
  assign (set_eos false);;
  assign (set_signal_limit EOS_SIGNAL_LIMIT);;
  when clear_pending_event (progress_buffer_set_pending_event None).

Definition pending_eos : A bool :=
  eos ← gets eos; limit ← gets signal_limit;
  let result := eos && (limit >? 0) in
  when result (assign (set_signal_limit (limit - 1)));;
  mret result.

(** The cache is not freed and the pending event is overwritten: on a change to
    READY its reference is lost. *)
Definition progress_buffer_flush_data : A unit :=
  old ← gets pending_src_event;
  (match old with Some e => emit (Leak_event e) | None => mret tt end);;
  assign (set_last_update (double_of_int 0));;
  assign (set_bandwidth (double_of_int 0));;
  assign (set_subtotal 0);;
  assign (set_pending None);;
  assign (set_sink_segment (gst_segment_init GST_FORMAT_BYTES));;
  assign (set_range_start NO_RANGE_REQUEST);;
  assign (set_range_stop NO_RANGE_REQUEST).

Definition send_position_message (mandatory : bool) : A bool :=
  p ← gets id;
  let seg := sink_segment p in
  let percent := dmul (ddiv (double_of_int (seg_position seg)) (double_of_int (seg_stop seg))) (double_of_int 100) in
  let mandatory := mandatory || dlt (threshold p) (dsub percent (last_update p)) in
  when mandatory (
    emit (Post_message (PB_MESSAGE_BUFFERING (seg_start seg) (seg_position seg) (seg_stop seg) (eos p)));;
    assign (set_last_update percent));;
  mret mandatory.

Definition send_underrun_message : A unit := emit (Post_message PB_MESSAGE_UNDERRUN).

(** [GST_IS_BUFFER (item)]. *)
Definition enqueue_buffer (s : surroundings) (b : GstBuffer) : A GstFlowReturn :=
  seg ← gets sink_segment;
  let seg := with_position (u64 (GST_BUFFER_OFFSET b + gst_buffer_get_size b)) seg in
  assign (set_sink_segment seg);;
  if seg_stop seg <? seg_position seg then mret GST_FLOW_ERROR
  else
    c ← gets cache; c ← deref c;
    assign (set_cache (Some (c_write_buffer (s_io s) c b)));;
    total ← gets subtotal;
    assign (set_subtotal (u64 (total + gst_buffer_get_size b)));;
    when (dlt (double_of_int 1) (s_elapsed s)) (
      total ← gets subtotal;
      assign (set_bandwidth (ddiv (double_of_int total) (s_elapsed s)));;
      assign (set_subtotal 0));;
    signal ← send_position_message false;
    when signal (emit Signal);;
    mret GST_FLOW_OK.

Definition enqueue_eos : A GstFlowReturn :=
  assign (set_eos true);;
  seg ← gets sink_segment;
  when (seg_position seg <? seg_stop seg) (assign (set_sink_segment (with_stop (seg_position seg) seg)));;
  progress_buffer_set_pending_event None;;
  signal ← send_position_message true;
  emit (Drop_event EventEos);;
  when signal (emit Signal);;
  mret GST_FLOW_OK.

(** An error of a segment event: the message, and the event is dropped. *)
Definition segment_error (e : GstEvent) (code : error_code) : A GstFlowReturn :=
  emit (Post_message (MESSAGE_ERROR code));;
  emit (Drop_event e);;
  mret GST_FLOW_ERROR.

(** [segment.stop - segment.start <= 0] on guint64: the difference is 0. *)
Definition enqueue_segment (s : surroundings) (segment : GstSegment) : A GstFlowReturn :=
  let event := EventSegment segment in
  assign (set_unexpected false);;
  if negb (bool_decide (seg_format segment = GST_FORMAT_BYTES)) then segment_error event GST_STREAM_ERROR_FORMAT
  else if u64 (seg_stop segment - seg_start segment) <=? 0 then segment_error event GST_STREAM_ERROR_WRONG_TYPE
  else
    made ← (if (seg_flags segment & GST_SEGMENT_FLAG_UPDATE) =? GST_SEGMENT_FLAG_UPDATE then
      c ← gets cache;
      when (bool_decide (is_Some c)) (emit Destroy_cache);;
      let c := c_create (s_create s) in
      assign (set_cache c);;
      when (bool_decide (is_Some c)) (emit Create_cache);;
      mret (bool_decide (is_Some c))
    else
      c ← gets cache; c ← deref c;
      let c := snd (c_set_write_position c 0) in
      let c := snd (c_set_read_position c 0) in
      assign (set_cache (Some c));;
      assign (set_cache_read_offset (i64 (seg_start segment)));;
      mret true);
    if negb made then segment_error event GST_RESOURCE_ERROR_OPEN_READ_WRITE
    else
      assign (set_sink_segment segment);;
      progress_buffer_set_pending_event (Some event);;
      assign (set_instant_seek true);;
      signal ← send_position_message true;
      when signal (emit Signal);;
      mret GST_FLOW_OK.

Definition progress_buffer_enqueue_item (s : surroundings) (i : item) : A GstFlowReturn :=
  match i with
  | ItemBuffer b => enqueue_buffer s b
  | ItemEvent EventEos => enqueue_eos
  | ItemEvent (EventSegment segment) => enqueue_segment s segment
  | ItemEvent e => emit (Drop_event e);; mret GST_FLOW_OK
  end.

(** *** Pads *)

Definition progress_buffer_activatepush_src (active linked : bool) : A bool :=
  if active then
    assign (set_srcresult GST_FLOW_OK);;
    reset_eos false;;
    assign (set_unexpected false);;
    when linked (emit Start_task);;
    mret true
  else
    assign (set_srcresult GST_FLOW_FLUSHING);;
    emit Signal;;
    emit Stop_task;;
    mret true.

(** [created]: whether [g_thread_new] returned a thread. *)
Definition progress_buffer_activatepull_src (active created : bool) : A bool :=
  thread ← gets monitor_thread;
  if active then
    assign (set_srcresult GST_FLOW_OK);;
    reset_eos false;;
    assign (set_unexpected false);;
    when (negb thread) (assign (set_monitor_thread created));;
    gets monitor_thread
  else if negb active && thread then
    assign (set_srcresult GST_FLOW_FLUSHING);;
    emit Signal;;
    assign (set_monitor_thread false);;
    mret true
  else mret true.

Definition progress_buffer_activatemode (mode : pad_mode) (active started : bool) : A bool :=
  match mode with
  | GST_PAD_MODE_PUSH => progress_buffer_activatepush_src active started
  | GST_PAD_MODE_PULL => progress_buffer_activatepull_src active started
  | GST_PAD_MODE_NONE => mret false
  end.

(** The framework activates the new pad in [mode]. *)
Definition progress_buffer_create_sourcepad (mode : pad_mode) (started : bool) : A unit :=
  assign (set_srcpad true);;
  emit Add_srcpad;;
  progress_buffer_activatemode mode true started;;
  mret tt.

Definition progress_buffer_chain (s : surroundings) (mode : pad_mode) (started : bool) (data : GstBuffer)
  : A GstFlowReturn :=
  p ← gets id;
  result ← (if eos p || unexpected p then mret GST_FLOW_EOS
            else progress_buffer_enqueue_item s (ItemBuffer data));
  pad ← gets srcpad;
  when (negb (bool_decide (result = GST_FLOW_ERROR)) && negb pad)
    (progress_buffer_create_sourcepad mode started);;
  mret result.

(** [pushed]: what [gst_pad_push_event] answers for an event passed on. *)
Definition progress_buffer_sink_event (s : surroundings) (event : GstEvent) (pushed : bool) : A bool :=
  p ← gets id;
  let flush := match event with EventFlushStart | EventFlushStop => true | _ => false end in
  if is_source_seeking p && flush then emit (Drop_event event);; mret true
  else if GST_EVENT_IS_SERIALIZED event && negb (match event with EventFlushStop => true | _ => false end) then
    if eos p then emit (Drop_event event);; mret false
    else progress_buffer_enqueue_item s (ItemEvent event);; mret true
  else if srcpad p then emit (Push_event event);; mret pushed
  else undefined.

(** *** The task of the source pad *)

(** The condition of the wait loop. *)
Definition nothing_to_do : A bool :=
  p ← gets id;
  if bool_decide (srcresult p = GST_FLOW_OK) && bool_decide (pending_src_event p = None) then
    c ← deref (cache p);
    mret (negb (c_has_enough_data c) || negb (instant_seek p))
  else mret false.

(** A pending event: its reference moves to the caller of the push. *)
Definition loop_event (skip : bool) (event : GstEvent) : A loop_next :=
  assign (set_pending None);;
  match event with
  | EventEos => assign (set_srcresult GST_FLOW_EOS);; emit (Push_event event);; mret (LoopPushEvent GST_FLOW_EOS)
  | EventSegment _ => assign (set_srcresult GST_FLOW_OK);; emit (Push_event event);; mret (LoopPushEvent GST_FLOW_OK)
  | _ =>
      if skip then emit (Drop_pending event);; mret (LoopNext skip)
      else assign (set_srcresult GST_FLOW_OK);; emit (Push_event event);; mret (LoopPushEvent GST_FLOW_OK)
  end.

(** A buffer from the cache.  A failed read leaves a null buffer. *)
Definition loop_buffer (s : surroundings) (skip : bool) : A loop_next :=
  c ← gets cache; c ← deref c;
  let '(read_position, buffer, c) := c_read_buffer (s_io s) c in
  assign (set_cache (Some c));;
  offset ← gets cache_read_offset;
  let read_position := u64 (read_position + offset) in
  buffer ← deref buffer;
  let buffer := mkGstBuffer (u64 (read_position - gst_buffer_get_size buffer)) (buffer_data buffer) in
  seg ← gets sink_segment;
  when (read_position =? seg_stop seg) (progress_buffer_set_pending_event (Some EventEos));;
  if skip then emit (Drop_buffer buffer);; mret (LoopNext skip)
  else emit (Push_buffer buffer);; mret LoopPushBuffer.

(** From [next_item] to the next point where the lock is given up. *)
Definition loop_item (s : surroundings) (skip : bool) : A loop_next :=
  wait ← nothing_to_do;
  match wait with
  | true =>
    instant ← gets instant_seek;
    when instant send_underrun_message;;
    mret LoopWait
  | false =>
    result ← gets srcresult;
    if bool_decide (result = GST_FLOW_OK) then
      pending ← gets pending_src_event;
      match pending with
      | Some event => loop_event skip event
      | None => loop_buffer s skip
      end
    else
      when skip (assign (set_unexpected true));;
      mret (LoopReturn (if skip then GST_FLOW_OK else result))
  end.

(** After [gst_pad_push] has returned [result]. *)
Definition loop_pushed (result : GstFlowReturn) : A loop_next :=
  if bool_decide (result = GST_FLOW_EOS) then mret (LoopNext true)
  else assign (set_srcresult result);; mret (LoopReturn result).

(** The end of [progress_buffer_loop]. *)
Definition loop_return (result : GstFlowReturn) : A unit :=
  when (negb (bool_decide (result = GST_FLOW_OK))) (emit Pause_task).

(** *** Seeking in push mode

    [progress_buffer_perform_push_seek] runs in four pieces: before it has the
    stream lock, with both locks, around the push of the seek event upstream,
    and the end. *)
Definition seek_enter (k : GstSeek) : A bool :=
  if negb (bool_decide (seek_format k = GST_FORMAT_BYTES)) ||
     negb (bool_decide (seek_start_type k = GST_SEEK_TYPE_SET)) then mret false
  else if negb (bool_decide (seek_stop_type k = GST_SEEK_TYPE_NONE)) then
    emit (Post_message MESSAGE_WARNING);; mret false
  else
    when (ctrue (seek_flags k & GST_SEEK_FLAG_FLUSH)) (emit (Push_event EventFlushStart));;
    assign (set_srcresult GST_FLOW_FLUSHING);;
    emit Signal;;
    mret true.

(** Read from [position] on, after a segment event that says so. *)
Definition seek_cache (k : GstSeek) : A unit :=
  let position := seek_start k in
  c ← gets cache; c ← deref c;
  offset ← gets cache_read_offset;
  assign (set_cache (Some (snd (c_set_read_position c (i64 (position - offset))))));;
  seg ← gets sink_segment;
  progress_buffer_set_pending_event (Some (EventSegment
    (mkGstSegment 0 (seek_rate k) GST_FORMAT_BYTES (u64 position) (seg_stop seg) 0 (u64 position)))).

Definition seek_locked (k : GstSeek) : A unit :=
  let position := seek_start k in
  assign (set_srcresult GST_FLOW_OK);;
  p ← gets id;
  let seg := sink_segment p in
  let instant := (u64 position >=? seg_start seg) &&
    dle (double_of_int (i64 (position - i64 (seg_position seg)))) (dmul (bandwidth p) (wait_tolerance p)) in
  assign (set_instant_seek instant);;
  if instant then seek_cache k else reset_eos true.

(** The seek event for the source; returns whether one is sent. *)
Definition seek_source (k : GstSeek) : A bool :=
  instant ← gets instant_seek;
  when (negb instant) (
    assign (set_is_source_seeking true);;
    emit (Push_upstream (EventSeek
      (mkGstSeek (seek_rate k) GST_FORMAT_BYTES (seek_flags k) GST_SEEK_TYPE_SET (seek_start k) GST_SEEK_TYPE_NONE))));;
  mret (negb instant).

Definition seek_source_done (k : GstSeek) (accepted : bool) : A unit :=
  when (negb accepted) (assign (set_instant_seek true);; seek_cache k);;
  assign (set_is_source_seeking false).

Definition seek_exit (k : GstSeek) : A unit :=
  when (ctrue (seek_flags k & GST_SEEK_FLAG_FLUSH)) (emit (Push_event EventFlushStop));;
  emit Start_task.

(** [progress_buffer_src_event]: what happens to an event from downstream.  A seek
    in push mode goes on in [seek_enter]. *)
Definition progress_buffer_src_event (mode : pad_mode) (event : GstEvent) : A src_action :=
  match mode, event with
  | GST_PAD_MODE_PUSH, EventSeek k => mret (PerformPushSeek k)
  | GST_PAD_MODE_PULL, _ => emit (Drop_event event);; mret Handled
  | _, _ => mret DefaultHandler
  end.

(** *** Pull mode *)

Definition VALID_RANGE (value : Z) : bool := negb (value =? NO_RANGE_REQUEST).

Definition pending_range_start (p : PB) : bool :=
  VALID_RANGE (range_start p) && (seg_start (sink_segment p) >? u64 (range_start p)).

Definition pending_range_stop (p : PB) : bool :=
  VALID_RANGE (range_stop p) && (seg_position (sink_segment p) <? u64 (range_stop p)).

(** One check of [progress_buffer_range_monitor]: [None] to wait, [Some true]
    when RANGE_READY has been pushed and the check starts over, [Some false] when
    the thread ends. *)
Definition range_monitor_check : A (option bool) :=
  p ← gets id;
  signalled ← (if bool_decide (srcresult p = GST_FLOW_OK) then pending_eos else mret false);
  if bool_decide (srcresult p = GST_FLOW_OK) && negb signalled &&
     (pending_range_start p || pending_range_stop p ||
      (negb (VALID_RANGE (range_start p)) && negb (VALID_RANGE (range_stop p))))
  then mret None
  else if bool_decide (srcresult p = GST_FLOW_OK) && (VALID_RANGE (range_start p) || VALID_RANGE (range_stop p)) then
    assign (set_range_start NO_RANGE_REQUEST);;
    assign (set_range_stop NO_RANGE_REQUEST);;
    emit (Push_event EventRangeReady);;
    mret (Some true)
  else mret (Some false).

(** A range that is not there yet: note what is missing and whether the source
    has to seek. *)
Definition request_range (start_position end_position : Z) : A bool :=
  seg ← gets sink_segment;
  let needs_seeking := seg_start seg >? start_position in
  when needs_seeking (assign (set_range_start (i64 start_position));; reset_eos true);;
  p ← gets id;
  let seg := sink_segment p in
  if seg_position seg <? end_position then
    let stop := i64 (end_position + to_int64 (dmul (bandwidth p) (prebuffer_time p))) in
    assign (set_range_stop (if seg_stop seg <? u64 stop then i64 (seg_stop seg) else stop));;
    mret (dlt (double_of_int 0) (bandwidth p) &&
          dlt (dmul (bandwidth p) (wait_tolerance p)) (double_of_int (u64 (end_position - seg_position seg))))
  else mret needs_seeking.

Definition progress_buffer_getrange (s : surroundings) (start_position size : Z)
  : A (GstFlowReturn * option GstBuffer) :=
  let end_position := u64 (start_position + size) in
  seg ← gets sink_segment;
  if seg_stop seg <? end_position then mret (GST_FLOW_EOS, None)
  else if (seg_start seg <=? start_position) && (seg_position seg >=? end_position) then
    c ← gets cache; c ← deref c;
    let '(result, buffer, c) := c_read_buffer_from_position (s_io s) c (i64 start_position) size in
    assign (set_cache (Some c));;
    mret (result, buffer)
  else
    needs_seeking ← request_range start_position end_position;
    send_underrun_message;;
    when needs_seeking (
      seg ← gets sink_segment;
      emit (Push_upstream (EventSeek
        (mkGstSeek (seg_rate seg) GST_FORMAT_BYTES 0 GST_SEEK_TYPE_SET (i64 start_position) GST_SEEK_TYPE_NONE))));;
    mret (GST_FLOW_FLUSHING, None).

(** *** Life cycle *)

Definition progress_buffer_change_state (paused_to_ready parent_failed : bool) : A unit :=
  when (negb parent_failed && paused_to_ready) (
    assign (set_srcresult GST_FLOW_FLUSHING);;
    progress_buffer_flush_data;;
    emit Signal).

(** The zeroed object with its construction properties, then
    [progress_buffer_init]. *)
Definition progress_buffer_init (t pt wt : jdouble) : PB :=
  mkProgressBuffer false None None 0 (gst_segment_init GST_FORMAT_BYTES) (double_of_int 0) t 0 (double_of_int 0)
    pt wt false GST_FLOW_OK false 0 false false NO_RANGE_REQUEST NO_RANGE_REQUEST false.

Definition progress_buffer_finalize : A unit :=
  p ← gets id;
  (match pending_src_event p with Some e => emit (Drop_pending e) | None => mret tt end);;
  when (bool_decide (is_Some (cache p))) (emit Destroy_cache).

Inductive property := PROP_0 | PROP_THRESHOLD | PROP_BANDWIDTH | PROP_PREBUFFER_TIME | PROP_WAIT_TOLERANCE.

Definition progress_buffer_set_property (id : property) (value : jdouble) : A unit :=
  match id with
  | PROP_THRESHOLD => assign (set_threshold value)
  | PROP_PREBUFFER_TIME => assign (set_prebuffer_time value)
  | PROP_WAIT_TOLERANCE => assign (set_wait_tolerance value)
  | _ => mret tt
  end.

Definition progress_buffer_get_property (id : property) : A (option jdouble) :=
  match id with
  | PROP_THRESHOLD => Some <$> gets threshold
  | PROP_BANDWIDTH => Some <$> gets bandwidth
  | PROP_PREBUFFER_TIME => Some <$> gets prebuffer_time
  | PROP_WAIT_TOLERANCE => Some <$> gets wait_tolerance
  | PROP_0 => mret None
  end.
End operations.
