(* ===== verification/ProgressBufferSpec.v ===== *)
(** * Correctness of the progress buffer

    The threads that share the element run as an interleaving of their locked
    pieces ([step]): the upstream thread, the task of the source pad, a thread
    that seeks.  Whatever the interleaving, every buffer pushed downstream holds
    the bytes of the stream at its offset, and buffers follow one another without
    gap or overlap from the start of the last segment event on, the one downstream
    has got as long as none that was queued is dropped ([announced]). *)

From S2P Require Import Prelude Float32 GstModel MediaCache CachePosix ProgressBuffer.

(** ** The configuration of the threads *)

(** Where the holder of the source pad's stream lock is. *)
Inductive holder :=
| Idle
| Item (skip : bool)
| Waiting (skip : bool)
| Pushing
| Returning (result : GstFlowReturn)
| SeekHeld (k : GstSeek)
| SeekUpstream (k : GstSeek)
| SeekEnding (k : GstSeek).

Definition after (skip : bool) (n : loop_next) : holder :=
  match n with
  | LoopWait => Waiting skip
  | LoopNext k => Item k
  | LoopPushEvent r => Returning r
  | LoopPushBuffer => Pushing
  | LoopReturn r => Returning r
  end.

Section machine.
Context {Cache : Type} `{laws : CacheLaws Cache}.
Abbreviation PB := (ProgressBuffer Cache).
Implicit Types p q : PB.

(** [next] is the offset the next upstream buffer has to have, if one may come;
    [base] is the start of the last segment upstream sent. *)
Record conf := mkConf { el : PB; at_ : holder; trace : list out; next : option Z; base : Z }.

(** The stream: the byte at every offset. *)
Context (S : Z -> Z).

(** The buffer holds the bytes of the stream at its offset. *)
Definition carries (b : GstBuffer) : Prop :=
  forall i, 0 <= i < gst_buffer_get_size b -> aget (buffer_data b) i = Some (S (GST_BUFFER_OFFSET b + i)).

Record good (s : surroundings) : Prop := {
  good_io : healthy (s_io s);
  good_create : is_Some (c_create (s_create s) : option Cache) }.

(** What the source sends as a segment: bytes, not empty; updating segments
    start where the last segment did, and the first segment is updating. *)
Record segment_ok (c : conf) (seg : GstSegment) : Prop := {
  segment_bytes : seg_format seg = GST_FORMAT_BYTES;
  segment_range : 0 <= seg_start seg < seg_stop seg /\ seg_start seg < 2 ^ 63 /\ seg_stop seg < 2 ^ 64;
  segment_update : (seg_flags seg & GST_SEGMENT_FLAG_UPDATE) = GST_SEGMENT_FLAG_UPDATE -> seg_start seg = base c;
  segment_first : cache (el c) = None -> (seg_flags seg & GST_SEGMENT_FLAG_UPDATE) = GST_SEGMENT_FLAG_UPDATE }.

Record buffer_ok (c : conf) (b : GstBuffer) : Prop := {
  buffer_next : next c = Some (GST_BUFFER_OFFSET b);
  buffer_carries : carries b;
  buffer_small : gst_buffer_get_size b < 2 ^ 32;
  buffer_end : GST_BUFFER_OFFSET b + gst_buffer_get_size b < 2 ^ 63 }.

Definition moved (c : conf) (p : PB) (h : holder) (o : list out) : conf :=
  mkConf p h (trace c ++ o) (next c) (base c).

Inductive step : conf -> conf -> Prop :=
| StepChain c s mode started b r p o :
    good s -> buffer_ok c b -> progress_buffer_chain s mode started b (el c) = Some (r, p, o) ->
    step c (mkConf p (at_ c) (trace c ++ o)
      (if bool_decide (r = GST_FLOW_OK) then Some (GST_BUFFER_OFFSET b + gst_buffer_get_size b) else None) (base c))
| StepSegment c s seg pushed r p o :
    good s -> segment_ok c seg ->
    progress_buffer_sink_event s (EventSegment seg) pushed (el c) = Some (r, p, o) ->
    step c (mkConf p (at_ c) (trace c ++ o) (if r then Some (seg_start seg) else None)
      (if r then seg_start seg else base c))
| StepEos c s pushed r p o :
    progress_buffer_sink_event s EventEos pushed (el c) = Some (r, p, o) ->
    step c (mkConf p (at_ c) (trace c ++ o) None (base c))
| StepOther c s e pushed r p o :
    (forall seg, e <> EventSegment seg) -> e <> EventEos ->
    progress_buffer_sink_event s e pushed (el c) = Some (r, p, o) -> step c (moved c p (at_ c) o)
| StepActivate c active linked r p o :
    srcpad (el c) = true -> progress_buffer_activatepush_src active linked (el c) = Some (r, p, o) ->
    step c (moved c p (at_ c) o)
| StepLoop c : at_ c = Idle -> srcpad (el c) = true -> step c (moved c (el c) (Item false) [])
| StepItem c s skip n p o :
    good s -> at_ c = Item skip -> loop_item s skip (el c) = Some (n, p, o) -> step c (moved c p (after skip n) o)
| StepWake c skip : at_ c = Waiting skip -> step c (moved c (el c) (Item skip) [])
| StepPushed c result n p o :
    at_ c = Pushing -> loop_pushed result (el c) = Some (n, p, o) -> step c (moved c p (after false n) o)
| StepReturn c result u p o :
    at_ c = Returning result -> loop_return result (el c) = Some (u, p, o) -> step c (moved c p Idle o)
| StepSeekEnter c k r p o :
    srcpad (el c) = true -> seek_enter k (el c) = Some (r, p, o) -> step c (moved c p (at_ c) o)
| StepSeekLocked c k u p o :
    srcpad (el c) = true -> at_ c = Idle -> 0 <= seek_start k < 2 ^ 63 ->
    seek_locked k (el c) = Some (u, p, o) -> step c (moved c p (SeekHeld k) o)
| StepSeekSource c k sent p o :
    at_ c = SeekHeld k -> seek_source k (el c) = Some (sent, p, o) ->
    step c (moved c p (if sent then SeekUpstream k else SeekEnding k) o)
| StepSeekAnswer c k accepted u p o :
    at_ c = SeekUpstream k -> (accepted = false -> base c <= seek_start k) ->
    seek_source_done k accepted (el c) = Some (u, p, o) -> step c (moved c p (SeekEnding k) o)
| StepSeekExit c k u p o :
    at_ c = SeekEnding k -> seek_exit k (el c) = Some (u, p, o) -> step c (moved c p Idle o).

Inductive reachable : conf -> Prop :=
| ReachInit t pt wt : reachable (mkConf (progress_buffer_init t pt wt) Idle [] None 0)
| ReachStep c c' : reachable c -> step c c' -> reachable c'.

(** ** The order of what is pushed *)

(** Where the next buffer has to start, after one effect. *)
Definition advance (x : option Z) (o : out) : option Z :=
  match o with
  | Push_event (EventSegment s) | Drop_pending (EventSegment s) => Some (seg_start s)
  | Push_buffer b | Drop_buffer b => Some (GST_BUFFER_OFFSET b + gst_buffer_get_size b)
  | _ => x
  end.

Definition expected (x : option Z) (l : list out) : option Z := fold_left advance l x.

(** Every buffer starts where the one before it ended, or where the last segment
    event says. *)
Fixpoint ordered (x : option Z) (l : list out) : Prop :=
  match l with
  | [] => True
  | o :: l =>
      match o with
      | Push_buffer b | Drop_buffer b => x = Some (GST_BUFFER_OFFSET b)
      | _ => True
      end /\ ordered (advance x o) l
  end.

Lemma expected_app x l k : expected x (l ++ k) = expected (expected x l) k.
Proof. apply fold_left_app. Qed.

Lemma ordered_app x l k : ordered x (l ++ k) <-> ordered x l /\ ordered (expected x l) k.
Proof. revert x. induction l as [|o l IH]; intros x; simpl; [tauto|]. rewrite IH. tauto. Qed.

(** A segment event that was queued and is dropped counts in [ordered] for the
    place where the next buffer starts.  What downstream sees is this: every
    buffer starts where the one before it ended, or where the last segment event
    that was pushed says. *)
Definition heard (x : option Z) (o : out) : option Z :=
  match o with
  | Push_event (EventSegment s) => Some (seg_start s)
  | Push_buffer b | Drop_buffer b => Some (GST_BUFFER_OFFSET b + gst_buffer_get_size b)
  | _ => x
  end.

Fixpoint announced (x : option Z) (l : list out) : Prop :=
  match l with
  | [] => True
  | o :: l =>
      match o with
      | Push_buffer b | Drop_buffer b => x = Some (GST_BUFFER_OFFSET b)
      | _ => True
      end /\ announced (heard x o) l
  end.

Definition segment_lost (o : out) : bool := match o with Drop_pending (EventSegment _) => true | _ => false end.

Lemma ordered_announced l x : existsb segment_lost l = false -> ordered x l -> announced x l.
Proof.
  revert x. induction l as [|o l IH]; intros x; simpl; [done|]. intros [Ho Hl]%orb_false_iff [H1 H2]. split; [done|].
  apply IH; [done|]. replace (heard x o) with (advance x o); [done|]. destruct o; try done; by destruct e.
Qed.

(** Effects on buffers and segment events are those the invariant is about. *)
Definition silent (o : out) : bool :=
  match o with
  | Push_buffer _ | Drop_buffer _ | Push_event (EventSegment _) | Drop_pending (EventSegment _) => false
  | _ => true
  end.

Definition intact (o : out) : Prop :=
  match o with Push_buffer b | Drop_buffer b => carries b | _ => True end.

Lemma silent_expected x l : forallb silent l = true -> expected x l = x.
Proof.
  induction l as [|o l IH]; simpl; [done|]. intros [Ho Hl]%andb_true_iff. unfold expected in *. simpl.
  rewrite <- (IH Hl) at 2. f_equal. destruct o; try done; by destruct e.
Qed.

Lemma silent_ordered x l : forallb silent l = true -> ordered x l.
Proof.
  revert x. induction l as [|o l IH]; intros x; simpl; [done|]. intros [Ho Hl]%andb_true_iff. split; [|by apply IH].
  by destruct o.
Qed.

Lemma silent_intact l : forallb silent l = true -> Forall intact l.
Proof.
  induction l as [|o l IH]; simpl; [done|]. intros [Ho Hl]%andb_true_iff. constructor; [by destruct o|by apply IH].
Qed.

(** ** The invariant *)

(** The part of the element the invariant is about. *)
Definition core (p : PB) : option Cache * option GstEvent * Z * Z * bool :=
  (cache p, pending_src_event p, cache_read_offset p, seg_start (sink_segment p), instant_seek p).

Lemma core_same p q : core p = core q ->
  cache p = cache q /\ pending_src_event p = pending_src_event q /\ cache_read_offset p = cache_read_offset q /\
  seg_start (sink_segment p) = seg_start (sink_segment q) /\ instant_seek p = instant_seek q.
Proof. unfold core. by intros [= -> -> -> -> ->]. Qed.

(** The cache holds the stream from [from] on. *)
Record stored (from : Z) (ch : Cache) : Prop := {
  stored_ok : cache_ok ch;
  stored_from : 0 <= from;
  stored_end : from + alen (window ch) < 2 ^ 63;
  stored_read : from + rpos ch < 2 ^ 63;
  stored_bytes : forall i, 0 <= i < alen (window ch) -> aget (window ch) i = Some (S (from + i)) }.

(** The next thing to push fits what downstream has seen ([x]). *)
Definition in_order (x : option Z) (position : Z) (pending : option GstEvent) (instant : bool) : Prop :=
  match pending with
  | Some (EventSegment s) => seg_start s = position
  | _ => instant = true -> x = Some position
  end.

Record linked (c : conf) (ch : Cache) : Prop := {
  link_cache : cache (el c) = Some ch;
  link_stored : stored (base c) ch;
  link_offset : cache_read_offset (el c) = base c;
  link_start : seg_start (sink_segment (el c)) = base c;
  link_next : forall n, next c = Some n -> n = base c + alen (window ch);
  link_order : in_order (expected None (trace c)) (base c + rpos ch) (pending_src_event (el c)) (instant_seek (el c)) }.

(** Before the first segment. *)
Record unlinked (c : conf) : Prop := {
  un_core : core (el c) = (None, None, 0, 0, false);
  un_next : next c = None;
  un_base : base c = 0;
  un_pad : srcpad (el c) = false;
  un_idle : at_ c = Idle }.

(** A seek in progress has its position in range. *)
Definition holder_ok (h : holder) : Prop :=
  match h with SeekHeld k | SeekUpstream k => 0 <= seek_start k < 2 ^ 63 | _ => True end.

Record inv (c : conf) : Prop := {
  inv_intact : Forall intact (trace c);
  inv_ordered : ordered None (trace c);
  inv_seek : holder_ok (at_ c);
  inv_state : unlinked c \/ exists ch, linked c ch }.

(** Pieces that only post messages, move threads or change flags. *)
Lemma inv_quiet c p h o n :
  inv c -> core p = core (el c) -> forallb silent o = true -> n = next c \/ n = None ->
  (cache (el c) = None -> srcpad p = srcpad (el c) /\ h = at_ c) ->
  holder_ok h ->
  inv (mkConf p h (trace c ++ o) n (base c)).
Proof.
  intros [Hi Ho Hs Hst] Hc Hsil Hn Hp Hh. destruct (core_same _ _ Hc) as (E1 & E2 & E3 & E4 & E5).
  split; simpl; [by apply Forall_app; auto using silent_intact| |done|].
  { apply ordered_app. auto using silent_ordered. }
  destruct Hst as [[Hu Hun Hub Hup Hui]|(ch & [])]; [left|right].
  - assert (cache (el c) = None) as Ec by (unfold core in Hu; congruence).
    destruct (Hp Ec) as [Hp1 ->]. split; simpl; [by rewrite Hc|destruct Hn; congruence|done|congruence|done].
  - exists ch. split; simpl; try congruence.
    + intros m ->. destruct Hn as [Hn|]; [|done]. by apply link_next0.
    + rewrite expected_app, silent_expected by done. by rewrite E2, E5.
Qed.

(** Pieces that change the cache, the segment or what is pending. *)
Lemma inv_relink c p h o n b ch pending instant :
  inv c -> core p = (Some ch, pending, b, b, instant) -> stored b ch ->
  Forall intact o -> ordered (expected None (trace c)) o ->
  (forall m, n = Some m -> m = b + alen (window ch)) ->
  in_order (expected (expected None (trace c)) o) (b + rpos ch) pending instant ->
  holder_ok h -> inv (mkConf p h (trace c ++ o) n b).
Proof.
  intros [Hi Ho _ _] Hc Hsto Hint Hord Hn Hin Hh. unfold core in Hc. injection Hc as Q1 Q2 Q3 Q4 Q5.
  split; simpl; [by apply Forall_app|by apply ordered_app|done|].
  right. exists ch. split; simpl; try done. by rewrite expected_app, Q2, Q5.
Qed.

(** ** The pieces, one by one *)

Definition quiet (p p' : PB) (o : list out) : Prop :=
  core p' = core p /\ forallb silent o = true /\ srcpad p' = srcpad p.

Lemma position_message_runs m p : exists b q o, send_position_message m p = Some (b, q, o) /\
  (m = true -> b = true) /\ quiet p q o /\ sink_segment q = sink_segment p.
Proof.
  unfold send_position_message. cbv beta iota zeta delta [mbind act_bind mret act_ret gets assign emit when id].
  set (b := m || _). assert (m = true -> b = true) as Hb by (by intros ->).
  destruct b; eexists _, _, _; (split; [reflexivity|]); done.
Qed.

Lemma activate_quiet active lk p r p' o :
  progress_buffer_activatepush_src active lk p = Some (r, p', o) -> quiet p p' o.
Proof. unfold progress_buffer_activatepush_src, reset_eos. intros Hrun. act_run Hrun; done. Qed.

Lemma seek_enter_quiet k p r p' o : seek_enter k p = Some (r, p', o) -> quiet p p' o.
Proof. unfold seek_enter. intros Hrun. act_run Hrun; done. Qed.

Lemma seek_source_quiet k p r p' o : seek_source k p = Some (r, p', o) -> quiet p p' o.
Proof. unfold seek_source. intros Hrun. act_run Hrun; done. Qed.

Lemma seek_exit_quiet k p r p' o : seek_exit k p = Some (r, p', o) -> quiet p p' o.
Proof. unfold seek_exit. intros Hrun. act_run Hrun; done. Qed.

Lemma loop_pushed_quiet k p r p' o : loop_pushed k p = Some (r, p', o) -> quiet p p' o.
Proof. unfold loop_pushed. intros Hrun. act_run Hrun; done. Qed.

Lemma loop_return_quiet k p r p' o : loop_return k p = Some (r, p', o) -> quiet p p' o.
Proof. unfold loop_return. intros Hrun. act_run Hrun; done. Qed.

(** Events that are neither segments nor the end of the stream. *)
Lemma sink_other_quiet s e pushed p r p' o :
  (forall seg, e <> EventSegment seg) -> e <> EventEos ->
  progress_buffer_sink_event s e pushed p = Some (r, p', o) -> quiet p p' o.
Proof.
  unfold progress_buffer_sink_event. intros H1 H2 Hrun.
  destruct e as [seg| | | | | | | |[]]; [by destruct (H1 seg)|done|..];
    cbn [GST_EVENT_IS_SERIALIZED negb andb progress_buffer_enqueue_item] in Hrun; act_run Hrun; done.
Qed.

(** The source pad is created once there is something to push. *)
Lemma create_sourcepad_runs mode started p : exists q o,
  progress_buffer_create_sourcepad mode started p = Some (tt, q, o) /\ core q = core p /\ forallb silent o = true.
Proof.
  unfold progress_buffer_create_sourcepad, progress_buffer_activatemode, progress_buffer_activatepush_src,
    progress_buffer_activatepull_src, reset_eos.
  destruct mode, started; cbv beta iota zeta delta [mbind act_bind mret act_ret gets assign emit when];
    try (destruct (monitor_thread _); simpl); eexists _, _; (split; [reflexivity|]); done.
Qed.

(** The core after a buffer has been written to the cache. *)
Definition stored_core (p : PB) (ch : Cache) : option Cache * option GstEvent * Z * Z * bool :=
  (Some ch, pending_src_event p, cache_read_offset p, seg_start (sink_segment p), instant_seek p).

Lemma enqueue_buffer_runs s b p ch : cache p = Some ch ->
  exists r q o, enqueue_buffer s b p = Some (r, q, o) /\ forallb silent o = true /\ srcpad q = srcpad p /\
    if seg_stop (sink_segment p) <? u64 (GST_BUFFER_OFFSET b + gst_buffer_get_size b)
    then r = GST_FLOW_ERROR /\ core q = core p
    else r = GST_FLOW_OK /\ core q = stored_core p (c_write_buffer (s_io s) ch b).
Proof.
  intros Hc. unfold enqueue_buffer.
  cbv beta iota zeta delta [mbind act_bind mret act_ret gets assign emit when deref undefined]. cbn [seg_stop with_position seg_position].
  destruct (seg_stop _ <? _); [eexists _, _, _; split; [reflexivity|done]|].
  cbn [cache set_sink_segment]. rewrite Hc. cbn [subtotal set_cache set_sink_segment].
  destruct (dlt _ _); match goal with |- context [send_position_message false ?q] =>
    destruct (position_message_runs false q) as (m & q' & o & -> & _ & (Hq & Ho & Hp) & _) end;
    destruct m; eexists _, _, _; (split; [reflexivity|]); rewrite ?forallb_app; simpl; rewrite ?Ho, ?Hp, ?Hq; done.
Qed.

Lemma chain_runs s mode started b p ch : cache p = Some ch ->
  exists r q o, progress_buffer_chain s mode started b p = Some (r, q, o) /\ forallb silent o = true /\
    ((r <> GST_FLOW_OK /\ core q = core p) \/
     (r = GST_FLOW_OK /\ core q = stored_core p (c_write_buffer (s_io s) ch b))).
Proof.
  intros Hc. unfold progress_buffer_chain. cbn [progress_buffer_enqueue_item].
  assert (Hfirst : exists r q o,
    (if eos p || unexpected p then mret GST_FLOW_EOS else enqueue_buffer s b) p = Some (r, q, o) /\
    forallb silent o = true /\
    ((r <> GST_FLOW_OK /\ core q = core p) \/
     (r = GST_FLOW_OK /\ core q = stored_core p (c_write_buffer (s_io s) ch b)))).
  { destruct (eos p || unexpected p); [by eexists _, _, _; split; [reflexivity|]; auto|].
    destruct (enqueue_buffer_runs s b p ch Hc) as (r & q & o & E & Ho & _ & Hr). exists r, q, o.
    split_and!; [done..|]. destruct (_ <? _); destruct Hr as [-> Hr]; auto. }
  destruct Hfirst as (r & q & o & E & Ho & Hr).
  cbv beta iota zeta delta [mbind act_bind mret act_ret gets id when] in E |- *. rewrite E. cbv beta iota.
  destruct (_ && _).
  - destruct (create_sourcepad_runs mode started q) as (q' & o' & -> & Hq & Ho').
    eexists _, _, _. split; [reflexivity|]. rewrite !forallb_app, Ho, Ho', Hq. done.
  - eexists _, _, _. split; [reflexivity|]. rewrite !forallb_app, Ho. done.
Qed.

Lemma stored_write from ch e b :
  stored from ch -> healthy e -> carries b -> GST_BUFFER_OFFSET b = from + alen (window ch) ->
  gst_buffer_get_size b < 2 ^ 32 -> GST_BUFFER_OFFSET b + gst_buffer_get_size b < 2 ^ 63 ->
  stored from (c_write_buffer e ch b) /\ rpos (c_write_buffer e ch b) = rpos ch /\
  alen (window (c_write_buffer e ch b)) = alen (window ch) + gst_buffer_get_size b.
Proof.
  intros [Hok Hf He Hr Hb] Hh Hcar Hoff Hz Hend.
  destruct (law_write e ch b Hh Hok Hz) as (H1 & H2 & H3); [lia|].
  split_and!; [|done|by rewrite H2, alen_app]. split; rewrite ?H2, ?H3, ?alen_app; try done.
  - fold (gst_buffer_get_size b). lia.
  - fold (gst_buffer_get_size b). intros i Hi. pose proof (alen_nonneg (window ch)).
    rewrite aget_app. destruct (Z.ltb_spec i (alen (window ch))); [apply Hb; lia|].
    rewrite Hcar by lia. do 2 f_equal. lia.
Qed.

Lemma inv_chain c s mode started b r p o :
  inv c -> good s -> buffer_ok c b -> progress_buffer_chain s mode started b (el c) = Some (r, p, o) ->
  inv (mkConf p (at_ c) (trace c ++ o)
    (if bool_decide (r = GST_FLOW_OK) then Some (GST_BUFFER_OFFSET b + gst_buffer_get_size b) else None) (base c)).
Proof.
  intros Hinv [Hio _] [Hn Hcar Hz Hend] Hrun. pose proof Hinv as [Hi Ho Hs Hst].
  destruct Hst as [[]|(ch & Hl)]; [congruence|]. pose proof Hl as [Hc Hsto Hof Hsta Hnx Hor].
  destruct (chain_runs s mode started b (el c) ch Hc) as (r' & q & o' & E & Hsil & Hr).
  rewrite E in Hrun. injection Hrun as <- <- <-.
  destruct Hr as [[Hr Hq]|[-> Hq]].
  - rewrite bool_decide_eq_false_2 by done. apply inv_quiet; auto. rewrite Hc. done.
  - rewrite bool_decide_eq_true_2 by done.
    destruct (stored_write (base c) ch (s_io s) b) as (H1 & H2 & H3); auto.
    eapply inv_relink; [done| |exact H1| | | | |done]; auto using silent_intact, silent_ordered.
    + rewrite Hq. unfold stored_core. by rewrite Hof, Hsta.
    + intros n [= <-]. rewrite H3, (Hnx _ Hn). lia.
    + by rewrite silent_expected, H2.
Qed.

(** *** The end of the stream *)

Lemma pending_clear_runs e p : exists q,
  progress_buffer_set_pending_event e p =
    Some (tt, q, match pending_src_event p with Some d => [Drop_pending d] | None => [] end) /\
  q = set_pending e p.
Proof.
  unfold progress_buffer_set_pending_event. cbv beta iota zeta delta [mbind act_bind mret act_ret gets assign emit].
  destruct (pending_src_event p); eexists; (split; [reflexivity|done]).
Qed.

(** Dropping a pending event keeps the order: a segment event counts as seen. *)
Lemma drop_order x position pending instant :
  in_order x position pending instant ->
  in_order (expected x (match pending with Some d => [Drop_pending d] | None => [] end)) position None instant.
Proof. intros Ho Hi. destruct pending as [[]|]; simpl in *; auto. by rewrite Ho. Qed.

Lemma drop_ordered x (pending : option GstEvent) :
  ordered x (match pending with Some d => [Drop_pending d] | None => [] end).
Proof. by destruct pending. Qed.

Lemma drop_intact (pending : option GstEvent) :
  Forall intact (match pending with Some d => [Drop_pending d] | None => [] end).
Proof. destruct pending; repeat constructor. Qed.

Definition drops (p : PB) : list out :=
  match pending_src_event p with Some d => [Drop_pending d] | None => [] end.

(** The pending event is dropped, the rest is silent. *)
Lemma inv_cleared c p h o n instant :
  inv c -> core p = (cache (el c), None, cache_read_offset (el c), seg_start (sink_segment (el c)), instant) ->
  (instant = true -> instant_seek (el c) = true) -> forallb silent o = true -> n = next c \/ n = None ->
  (cache (el c) = None -> srcpad p = srcpad (el c) /\ h = at_ c /\ instant = false) -> holder_ok h ->
  inv (mkConf p h (trace c ++ drops (el c) ++ o) n (base c)).
Proof.
  intros Hinv Hc Hi Ho Hn Hp Hh. pose proof Hinv as [_ _ _ [[Hu Hun Hub Hup Hui]|(ch & [L1 L2 L3 L4 L5 L6])]].
  - unfold core in Hu. injection Hu as U1 U2 U3 U4 U5. destruct (Hp U1) as (P1 & -> & ->).
    unfold drops. rewrite U2. apply inv_quiet; auto. rewrite Hc. unfold core. by rewrite U2, U5.
  - eapply inv_relink; [done|by rewrite Hc, L1, L3, L4|done| | | | |done].
    + apply Forall_app. split; [apply drop_intact|by apply silent_intact].
    + apply ordered_app. split; [apply drop_ordered|by apply silent_ordered].
    + intros m ->. destruct Hn as [Hn|]; [auto|done].
    + rewrite expected_app, silent_expected by done. intros E. by apply (drop_order _ _ _ _ L6), Hi.
Qed.

Lemma enqueue_eos_runs p : exists q o, enqueue_eos p = Some (GST_FLOW_OK, q, drops p ++ o) /\
  forallb silent o = true /\ srcpad q = srcpad p /\
  core q = (cache p, None, cache_read_offset p, seg_start (sink_segment p), instant_seek p).
Proof.
  unfold enqueue_eos. cbv beta iota zeta delta [mbind act_bind mret act_ret gets assign emit when].
  destruct (_ <? _); match goal with |- context [progress_buffer_set_pending_event None ?r] =>
    destruct (pending_clear_runs None r) as (q & -> & ->) end; cbv beta iota;
  match goal with |- context [send_position_message true ?r] =>
    destruct (position_message_runs true r) as (b & q & o & -> & Hb & (Hq & Ho & Hp) & _) end;
  rewrite (Hb eq_refl); eexists _, _; (split; [rewrite ?app_nil_l; reflexivity|]);
  rewrite !forallb_app, Ho, Hp, Hq; done.
Qed.

Lemma inv_eos c s pushed r p o :
  inv c -> progress_buffer_sink_event s EventEos pushed (el c) = Some (r, p, o) ->
  inv (mkConf p (at_ c) (trace c ++ o) None (base c)).
Proof.
  intros Hinv Hrun. pose proof Hinv as [_ _ Hs _]. unfold progress_buffer_sink_event in Hrun.
  cbn [GST_EVENT_IS_SERIALIZED negb andb progress_buffer_enqueue_item] in Hrun.
  cbv beta iota zeta delta [mbind act_bind mret act_ret gets assign emit when id] in Hrun. rewrite andb_false_r in Hrun.
  destruct (eos (el c)).
  - simplify_eq. apply inv_quiet; auto.
  - destruct (enqueue_eos_runs (el c)) as (q & o' & E & Ho & Hp & Hq). rewrite E in Hrun. simplify_eq. simpl.
    rewrite app_nil_r. eapply inv_cleared; eauto. intros Hn. split_and!; try done.
    destruct Hinv as [_ _ _ [[Hu _ _ _ _]|(ch & [])]]; [unfold core in Hu|]; congruence.
Qed.

(** *** Segments *)

Definition bufferless (o : out) : bool := match o with Push_buffer _ | Drop_buffer _ => false | _ => true end.

Lemma bufferless_ordered x l : forallb bufferless l = true -> ordered x l.
Proof.
  revert x. induction l as [|o l IH]; intros x; simpl; [done|]. intros [Ho Hl]%andb_true_iff.
  split; [by destruct o|by apply IH].
Qed.

Lemma bufferless_intact l : forallb bufferless l = true -> Forall intact l.
Proof.
  induction l as [|o l IH]; simpl; [done|]. intros [Ho Hl]%andb_true_iff. constructor; [by destruct o|by apply IH].
Qed.

Lemma silent_bufferless l : forallb silent l = true -> forallb bufferless l = true.
Proof. induction l as [|o l IH]; simpl; [done|]. intros [Ho Hl]%andb_true_iff. rewrite IH by done. by destruct o. Qed.

Lemma drops_bufferless p : forallb bufferless (drops p) = true.
Proof. unfold drops. by destruct (pending_src_event p). Qed.

Definition updating (seg : GstSegment) : bool := (seg_flags seg & GST_SEGMENT_FLAG_UPDATE) =? GST_SEGMENT_FLAG_UPDATE.

(** The cache a segment starts with: a new one, or the old one rewound. *)
Definition segment_cache (s : surroundings) (seg : GstSegment) (old : option Cache) : option Cache :=
  if updating seg then c_create (s_create s)
  else (fun c => snd (c_set_read_position (snd (c_set_write_position c 0)) 0)) <$> old.

Lemma enqueue_segment_runs s seg p ch :
  seg_format seg = GST_FORMAT_BYTES -> 0 <= seg_start seg < seg_stop seg -> seg_stop seg < 2 ^ 64 ->
  segment_cache s seg (cache p) = Some ch ->
  exists q o, enqueue_segment s seg p = Some (GST_FLOW_OK, q, o) /\ forallb bufferless o = true /\
    srcpad q = srcpad p /\ sink_segment q = seg /\
    core q = (Some ch, Some (EventSegment seg),
              if updating seg then cache_read_offset p else i64 (seg_start seg), seg_start seg, true).
Proof.
  intros Hf Hr Hr' Hc. unfold enqueue_segment, segment_cache in *.
  rewrite bool_decide_eq_true_2 by done. cbn [negb]. unfold u64. rewrite Z.mod_small by lia.
  cbv beta iota zeta delta [mbind act_bind mret act_ret gets assign emit when].
  rewrite (proj2 (Z.leb_gt (seg_stop seg - seg_start seg) 0)) by lia.
  unfold updating in *. destruct (_ =? _).
  - rewrite Hc. rewrite (bool_decide_eq_true_2 (is_Some (Some ch))) by done. cbn [negb].
    destruct (bool_decide _); cbv beta iota delta [negb];
    match goal with |- context [progress_buffer_set_pending_event ?e ?r] =>
      destruct (pending_clear_runs e r) as (q & -> & ->) end; cbv beta iota;
    match goal with |- context [send_position_message true ?r] =>
      destruct (position_message_runs true r) as (b & q & o & -> & Hb & (Hq & Ho & Hp) & Hsg) end;
    rewrite (Hb eq_refl); eexists _, _; (split; [reflexivity|]); apply silent_bufferless in Ho;
    rewrite ?forallb_app; simpl; rewrite ?forallb_app, Ho, Hp, Hq, Hsg; (split_and!; [|done..]);
    destruct (pending_src_event p); done.
  - destruct (cache p) as [c|] eqn:Ec; [|done]. cbn [fmap option_fmap option_map] in Hc. injection Hc as Hc.
    cbn [cache set_unexpected]. rewrite Ec. cbv beta iota delta [deref mret act_ret]. cbn [negb].
    match goal with |- context [progress_buffer_set_pending_event ?e ?r] =>
      destruct (pending_clear_runs e r) as (q & -> & ->) end; cbv beta iota;
    match goal with |- context [send_position_message true ?r] =>
      destruct (position_message_runs true r) as (b & q & o & -> & Hb & (Hq & Ho & Hp) & Hsg) end.
    rewrite (Hb eq_refl). eexists _, _. split; [reflexivity|]. apply silent_bufferless in Ho.
    rewrite ?forallb_app; simpl; rewrite ?forallb_app, Ho, Hp, Hq, Hsg, Hc. split_and!; [|done..].
    destruct (pending_src_event p); done.
Qed.

Lemma segment_cache_ok s seg old ch :
  segment_cache s seg old = Some ch -> (forall c, old = Some c -> cache_ok c) ->
  cache_ok ch /\ window ch = [] /\ rpos ch = 0.
Proof.
  unfold segment_cache. destruct (updating seg); [intros Hc _; by eapply law_create|].
  destruct old as [c|]; [|done]. intros [= <-] Hold.
  destruct (law_rewind c) as (c1 & -> & H1 & H2 & H3); [auto|]. simpl.
  destruct (law_seek c1 0 H1) as (c2 & -> & H4 & H5 & H6); [lia|]. simpl. by rewrite H5.
Qed.

Lemma segment_cache_some c s seg :
  is_Some (c_create (s_create s) : option Cache) ->
  (cache (el c) = None -> (seg_flags seg & GST_SEGMENT_FLAG_UPDATE) = GST_SEGMENT_FLAG_UPDATE) ->
  exists ch, segment_cache s seg (cache (el c)) = Some ch.
Proof.
  intros Hcr Hfi. unfold segment_cache, updating.
  destruct (Z.eqb_spec (seg_flags seg & GST_SEGMENT_FLAG_UPDATE) GST_SEGMENT_FLAG_UPDATE); [exact Hcr|].
  destruct (cache (el c)); [eauto|]. by destruct n; apply Hfi.
Qed.

Lemma empty_stored from ch : cache_ok ch -> window ch = [] -> rpos ch = 0 -> 0 <= from < 2 ^ 63 -> stored from ch.
Proof. intros Hc Hw Hr Hf. split; rewrite ?Hw, ?Hr; unfold alen; simpl; try done; lia. Qed.

Lemma inv_segment c s seg pushed r p o :
  inv c -> good s -> segment_ok c seg ->
  progress_buffer_sink_event s (EventSegment seg) pushed (el c) = Some (r, p, o) ->
  inv (mkConf p (at_ c) (trace c ++ o) (if r then Some (seg_start seg) else None)
    (if r then seg_start seg else base c)).
Proof.
  intros Hinv [_ Hcr] [Hf (Hr & Hr1 & Hr2) Hu Hfi] Hrun. pose proof Hinv as [_ _ Hs Hst].
  unfold progress_buffer_sink_event in Hrun.
  cbn [GST_EVENT_IS_SERIALIZED negb andb progress_buffer_enqueue_item] in Hrun.
  cbv beta iota zeta delta [mbind act_bind mret act_ret gets assign emit when id] in Hrun. rewrite andb_false_r in Hrun.
  destruct (eos (el c)); [simplify_eq; by apply inv_quiet; auto|].
  destruct (segment_cache_some c s seg Hcr Hfi) as (ch & Ech).
  destruct (enqueue_segment_runs s seg (el c) ch Hf Hr Hr2 Ech) as (q & o' & E & Ho & _ & _ & Hq).
  rewrite E in Hrun. simplify_eq. simpl. rewrite app_nil_r.
  destruct (segment_cache_ok s seg _ ch Ech) as (H1 & H2 & H3).
  { intros c0 Ec. destruct Hst as [[Hun _ _ _ _]|(ch0 & [L1 L2 _ _ _ _])]; [unfold core in Hun; congruence|].
    destruct L2. congruence. }
  eapply inv_relink; [done| |apply empty_stored; (done || lia)|by apply bufferless_intact|by apply bufferless_ordered| | |done].
  - rewrite Hq. unfold updating. destruct (Z.eqb_spec (seg_flags seg & GST_SEGMENT_FLAG_UPDATE) GST_SEGMENT_FLAG_UPDATE) as [e|];
      [|by rewrite i64_id by (unfold in_i64; lia)].
    rewrite (Hu e). destruct Hst as [[Hun Hnx Hb _ _]|(ch0 & [])]; [|by rewrite link_offset0].
    unfold core in Hun. injection Hun as _ _ -> _ _. by rewrite Hb.
  - intros m [= <-]. rewrite H2. unfold alen. simpl. lia.
  - simpl. lia.
Qed.

(** *** The task of the source pad *)

Lemma slice_carries from ch n : stored from ch -> 0 <= n -> rpos ch + n <= alen (window ch) ->
  carries (mkGstBuffer (from + rpos ch) (slice (window ch) (rpos ch) n)).
Proof.
  intros [Hok _ _ _ Hb] Hn He. pose proof (rpos_nonneg ch Hok). intros i. unfold gst_buffer_get_size. simpl.
  rewrite slice_len by lia. intros Hi. rewrite slice_get, Hb by lia. do 2 f_equal. lia.
Qed.

(** One buffer read back: the bytes at the read position, and the end of the
    stream queued behind the last one. *)
Lemma loop_buffer_runs s skip p ch from :
  healthy (s_io s) -> cache p = Some ch -> cache_read_offset p = from -> stored from ch ->
  pending_src_event p = None -> rpos ch < alen (window ch) ->
  exists n ch' q, let b := mkGstBuffer (from + rpos ch) (slice (window ch) (rpos ch) n) in
    loop_buffer s skip p = Some (if skip then LoopNext skip else LoopPushBuffer, q,
      [if skip then Drop_buffer b else Push_buffer b]) /\
    0 < n /\ rpos ch + n <= alen (window ch) /\ carries b /\ gst_buffer_get_size b = n /\
    stored from ch' /\ window ch' = window ch /\ rpos ch' = rpos ch + n /\
    q = set_pending (if from + rpos ch + n =? seg_stop (sink_segment p) then Some EventEos else None)
          (set_cache (Some ch') p).
Proof.
  intros Hio Hc Hoff Hsto Hp Hd. pose proof Hsto as [Hok Hf He Hr Hb]. pose proof (rpos_nonneg ch Hok).
  destruct (law_read (s_io s) ch Hio Hok Hd) as (n & ch' & E & Hn & Hl & H1 & H2 & H3).
  exists n, ch'. unfold loop_buffer. cbv beta iota zeta delta [mbind act_bind mret act_ret gets assign emit when].
  rewrite Hc. cbv beta iota delta [deref mret act_ret]. rewrite E. cbv beta iota.
  cbn [cache_read_offset set_cache sink_segment]. rewrite Hoff.
  assert (Hsz : gst_buffer_get_size (mkGstBuffer (rpos ch) (slice (window ch) (rpos ch) n)) = n)
    by (apply slice_len; lia).
  rewrite Hsz. cbn [buffer_data]. unfold u64. rewrite !(Z.mod_small (_ + from)) by lia.
  replace (rpos ch + n + from - n) with (from + rpos ch) by lia. rewrite (Z.mod_small (from + rpos ch)) by lia.
  replace (rpos ch + n + from) with (from + rpos ch + n) by lia.
  assert (Eq : set_pending None (set_cache (Some ch') p) = set_cache (Some ch') p)
    by (destruct p; simpl in *; by subst).
  eexists. split; [|split_and!; [done|done| |done| |done|done|exact eq_refl]].
  - destruct (_ =? _), skip; unfold progress_buffer_set_pending_event;
      cbv beta iota zeta delta [mbind act_bind mret act_ret gets assign emit];
      cbn [pending_src_event set_cache]; rewrite ?Hp, ?Eq; reflexivity.
  - apply slice_carries; (done || lia).
  - split; rewrite ?H2, ?H3; (done || lia).
Qed.

(** One item by cases, when there is a cache. *)
Lemma loop_item_eq s skip p ch : cache p = Some ch ->
  loop_item s skip p =
    (if bool_decide (srcresult p = GST_FLOW_OK) then
       match pending_src_event p with
       | Some event => loop_event skip event p
       | None =>
           if c_has_enough_data ch && instant_seek p then loop_buffer s skip p
           else Some (LoopWait, p, if instant_seek p then [Post_message PB_MESSAGE_UNDERRUN] else [])
       end
     else Some (LoopReturn (if skip then GST_FLOW_OK else srcresult p),
                (if skip then set_unexpected true p else p), [])).
Proof.
  intros Hc. unfold loop_item, nothing_to_do, send_underrun_message.
  cbv beta iota zeta delta [mbind act_bind mret act_ret gets assign emit when id].
  destruct (decide (srcresult p = GST_FLOW_OK)) as [e|e];
    [|repeat (rewrite (bool_decide_eq_false_2 (srcresult p = GST_FLOW_OK)) by done; cbv beta iota delta [andb]);
      by destruct skip].
  pose proof (bool_decide_eq_true_2 (srcresult p = GST_FLOW_OK) e) as Eok. clear e.
  rewrite Eok. destruct (pending_src_event p) as [e|] eqn:Ep; cbv beta iota delta [andb].
  - rewrite bool_decide_eq_false_2 by done. cbv beta iota. rewrite Eok, Ep. cbv beta iota.
    by destruct (loop_event skip e p) as [[[? ?] ?]|].
  - rewrite bool_decide_eq_true_2, Hc by done. cbv beta iota delta [deref mret act_ret].
    destruct (c_has_enough_data ch), (instant_seek p) eqn:Ei; cbv beta iota delta [negb orb andb];
      rewrite ?Eok, ?Ei, ?Ep; cbv beta iota; try done.
    by destruct (loop_buffer s skip p) as [[[? ?] ?]|].
Qed.

Lemma loop_event_runs skip e p : exists n q o, loop_event skip e p = Some (n, q, o) /\
  core q = (cache p, None, cache_read_offset p, seg_start (sink_segment p), instant_seek p) /\
  match e with EventSegment _ => o = [Push_event e] | _ => forallb silent o = true end.
Proof.
  unfold loop_event. cbv beta iota zeta delta [mbind act_bind mret act_ret gets assign emit].
  destruct e, skip; eexists _, _, _; (split; [reflexivity|]); done.
Qed.

Lemma after_ok skip n : holder_ok (after skip n).
Proof. by destruct n. Qed.

Lemma inv_item c s skip n p o :
  inv c -> good s -> at_ c = Item skip -> loop_item s skip (el c) = Some (n, p, o) ->
  inv (moved c p (after skip n) o).
Proof.
  intros Hinv [Hio _] Hat Hrun. pose proof Hinv as [_ _ _ [[]|(ch & Hl)]]; [congruence|].
  pose proof Hl as [L1 L2 L3 L4 L5 L6]. pose proof (after_ok skip n) as Hh. unfold moved.
  assert (Hno : cache (el c) = None -> srcpad p = srcpad (el c) /\ after skip n = at_ c) by (by rewrite L1).
  rewrite (loop_item_eq s skip (el c) ch L1) in Hrun.
  destruct (bool_decide _); [|simplify_eq; apply inv_quiet; auto; by destruct skip].
  destruct (pending_src_event (el c)) as [e|] eqn:Ep.
  - destruct (loop_event_runs skip e (el c)) as (n' & q & o' & E & Hq & Ho). rewrite E in Hrun. simplify_eq.
    eapply inv_relink; [done|by rewrite Hq, L1, L3, L4|done| | |done| |done].
    + destruct e; [subst; repeat constructor|by apply silent_intact..].
    + destruct e; [subst; done|by apply silent_ordered..].
    + destruct e; [subst; intros _; simpl; by rewrite L6|rewrite silent_expected by done; exact L6..].
  - pose proof L2 as [Hok _ _ _ _]. rewrite law_has_data in Hrun by done.
    destruct (Z.ltb_spec (rpos ch) (alen (window ch))) as [Hd|_], (instant_seek (el c)) eqn:Ei; cbn [andb] in Hrun;
      [|simplify_eq; by apply inv_quiet; auto..].
    destruct (loop_buffer_runs s skip (el c) ch (base c) Hio L1 L3 L2 Ep Hd)
      as (m & ch' & q & E & Hm & Hme & Hcar & Hsz & Hsto & Hw & Hrp & ->).
    rewrite E in Hrun. simplify_eq. set (b := mkGstBuffer _ _) in *.
    assert (Hx : expected None (trace c) = Some (GST_BUFFER_OFFSET b)) by exact (L6 eq_refl).
    eapply inv_relink with (ch := ch') (instant := true); [done| |done| | | | |done].
    + unfold core. simpl. rewrite L4, L3, Ei. reflexivity.
    + destruct skip; repeat constructor; done.
    + destruct skip; simpl; by rewrite Hx.
    + intros k Hk. rewrite Hw. by apply L5.
    + assert (in_order (Some (base c + rpos ch')) (base c + rpos ch')
        (if base c + rpos ch + m =? seg_stop (sink_segment (el c)) then Some EventEos else None) true) as Hin
        by (by destruct (_ =? _)).
      rewrite Hrp, Z.add_assoc in Hin |- *. by destruct skip; unfold expected; simpl; rewrite Hsz.
Qed.

(** *** Seeks *)

Lemma seek_cache_runs k p ch from :
  cache p = Some ch -> cache_read_offset p = from -> stored from ch ->
  from <= seek_start k < 2 ^ 63 ->
  exists q ch', seek_cache k p = Some (tt, q, drops p) /\ stored from ch' /\ window ch' = window ch /\
    rpos ch' = seek_start k - from /\ srcpad q = srcpad p /\
    exists seg, seg_start seg = seek_start k /\
      core q = (Some ch', Some (EventSegment seg), from, seg_start (sink_segment p), instant_seek p).
Proof.
  intros Hc Hoff [Hok Hf He Hr Hb] Hk.
  destruct (law_seek ch (seek_start k - from) Hok) as (ch' & E & H1 & H2 & H3); [lia|].
  unfold seek_cache. cbv beta iota zeta delta [mbind act_bind mret act_ret gets assign emit].
  rewrite Hc. cbv beta iota delta [deref mret act_ret]. rewrite Hoff, i64_id by (unfold in_i64; lia). rewrite E.
  match goal with |- context [progress_buffer_set_pending_event ?e ?r] =>
    destruct (pending_clear_runs e r) as (q & -> & ->) end.
  eexists _, ch'. split; [reflexivity|]. split_and!; try done.
  - split; rewrite ?H2, ?H3; (done || lia).
  - unfold core. simpl. rewrite Hoff. eexists. split; [|done]. simpl. unfold u64. rewrite Z.mod_small; lia.
Qed.

(** A seek served from the cache. *)
Lemma inv_seek_cache c k p ch q o h :
  inv c -> linked c ch -> base c <= seek_start k < 2 ^ 63 -> holder_ok h ->
  cache p = Some ch -> pending_src_event p = pending_src_event (el c) ->
  cache_read_offset p = base c -> seg_start (sink_segment p) = base c -> instant_seek p = true ->
  seek_cache k p = Some (tt, q, o) -> inv (moved c q h o).
Proof.
  intros Hinv [L1 L2 L3 L4 L5 L6] Hk Hh P1 P2 P3 P4 P5 Hrun.
  destruct (seek_cache_runs k p ch (base c) P1 P3 L2 Hk) as (q' & ch' & E & Hs & Hw & Hr & _ & seg & Hg & Hq).
  rewrite E in Hrun. simplify_eq. rewrite P4, P5 in Hq.
  eapply inv_relink; [done|done|done| | | | |done].
  - apply bufferless_intact, drops_bufferless.
  - apply bufferless_ordered, drops_bufferless.
  - intros m Hm. rewrite Hw. by apply L5.
  - simpl. lia.
Qed.

Lemma reset_eos_runs p : exists q, reset_eos true p = Some (tt, q, drops p) /\ srcpad q = srcpad p /\
  core q = (cache p, None, cache_read_offset p, seg_start (sink_segment p), instant_seek p).
Proof.
  unfold reset_eos. cbv beta iota zeta delta [mbind act_bind mret act_ret gets assign emit when].
  match goal with |- context [progress_buffer_set_pending_event ?e ?r] =>
    destruct (pending_clear_runs e r) as (q & -> & ->) end.
  eexists. split; [reflexivity|done].
Qed.

(** Whether the seek is served from the cache. *)
Definition instant (k : GstSeek) (p : PB) : bool :=
  (u64 (seek_start k) >=? seg_start (sink_segment p)) &&
  dle (double_of_int (i64 (seek_start k - i64 (seg_position (sink_segment p)))))
    (dmul (bandwidth p) (wait_tolerance p)).

Lemma seek_locked_eq k p : seek_locked k p =
  (if instant k p then seek_cache k (set_instant_seek true (set_srcresult GST_FLOW_OK p))
   else reset_eos true (set_instant_seek false (set_srcresult GST_FLOW_OK p))).
Proof.
  unfold seek_locked. cbv beta iota zeta delta [mbind act_bind mret act_ret gets assign emit when id].
  change (_ && _) with (instant k p). destruct (instant k p).
  - by destruct (seek_cache k _) as [[[? ?] ?]|].
  - by destruct (reset_eos true _) as [[[? ?] ?]|].
Qed.

Lemma inv_seek_locked c k u p o :
  inv c -> srcpad (el c) = true -> 0 <= seek_start k < 2 ^ 63 -> seek_locked k (el c) = Some (u, p, o) ->
  inv (moved c p (SeekHeld k) o).
Proof.
  intros Hinv Hp Hk Hrun. pose proof Hinv as [_ _ _ [[]|(ch & Hl)]]; [congruence|].
  pose proof Hl as [L1 L2 L3 L4 _ _]. rewrite seek_locked_eq in Hrun. destruct u. destruct (instant k (el c)) eqn:Ei.
  - unfold instant in Ei. apply andb_true_iff in Ei as [Ei _].
    unfold u64 in Ei. rewrite Z.mod_small, Z.geb_leb, Z.leb_le in Ei by lia.
    eapply (inv_seek_cache c k); [done|done| |done|..|exact Hrun]; try done. lia.
  - match type of Hrun with reset_eos true ?r = _ => destruct (reset_eos_runs r) as (q & E & _ & Hq) end.
    rewrite E in Hrun. simplify_eq. rewrite <- (app_nil_r (drops _)).
    change (drops (set_instant_seek false _)) with (drops (el c)).
    apply (inv_cleared c p (SeekHeld k) [] (next c) false Hinv); [exact Hq|done|done|by left|by rewrite L1|done].
Qed.

Lemma inv_seek_answer c k accepted u p o :
  inv c -> at_ c = SeekUpstream k -> (accepted = false -> base c <= seek_start k) ->
  seek_source_done k accepted (el c) = Some (u, p, o) -> inv (moved c p (SeekEnding k) o).
Proof.
  intros Hinv Hat Hb Hrun. pose proof Hinv as [_ _ Hs [[]|(ch & Hl)]]; [congruence|]. rewrite Hat in Hs. simpl in Hs.
  pose proof Hl as [L1 L2 L3 L4 _ _]. unfold seek_source_done in Hrun.
  cbv beta iota zeta delta [mbind act_bind mret act_ret gets assign emit when] in Hrun. destruct accepted.
  - simpl in Hrun. simplify_eq. apply inv_quiet; [done|reflexivity|done|by left|by rewrite L1|done].
  - simpl in Hrun. destruct (seek_cache k _) as [[[v q] o']|] eqn:E; [|done]. destruct v. simplify_eq.
    assert (Hq : inv (moved c q (SeekEnding k) o')).
    { eapply (inv_seek_cache c k); [done|done| |done|..|exact E]; try done. specialize (Hb eq_refl). lia. }
    unfold moved in *. rewrite app_nil_r.
    pose proof (inv_quiet _ (set_is_source_seeking false q) (SeekEnding k) [] (next c) Hq) as Hfin. simpl in Hfin.
    rewrite app_nil_r in Hfin. apply Hfin; auto.
Qed.

Lemma step_inv c c' : inv c -> step c c' -> inv c'.
Proof.
  intros Hinv Hstep. pose proof Hinv as [_ _ Hs Hst].
  assert (Hpad : srcpad (el c) = true -> cache (el c) <> None).
  { intros Hp. destruct Hst as [[]|(ch & [])]; congruence. }
  assert (Hbusy : at_ c <> Idle -> cache (el c) <> None).
  { intros Hp. destruct Hst as [[]|(ch & [])]; congruence. }
  destruct Hstep; unfold moved.
  - by eapply inv_chain.
  - by eapply inv_segment.
  - by eapply inv_eos.
  - destruct (sink_other_quiet s e pushed (el c) r p o) as (? & ? & ?); auto. apply inv_quiet; auto using after_ok; try done.
  - destruct (activate_quiet active linked0 (el c) r p o) as (? & ? & ?); auto. apply inv_quiet; auto using after_ok; try done.
  - apply inv_quiet; auto using after_ok; try done. intros. by destruct Hpad.
  - by eapply inv_item.
  - apply inv_quiet; auto using after_ok; try done. intros. by destruct Hbusy; [congruence|].
  - destruct (loop_pushed_quiet result (el c) n p o) as (? & ? & ?); auto.
    apply inv_quiet; auto using after_ok; try done. intros. by destruct Hbusy; [congruence|].
  - destruct (loop_return_quiet result (el c) u p o) as (? & ? & ?); auto.
    apply inv_quiet; auto using after_ok; try done. intros. by destruct Hbusy; [congruence|].
  - destruct (seek_enter_quiet k (el c) r p o) as (? & ? & ?); auto. apply inv_quiet; auto using after_ok; try done.
  - by eapply inv_seek_locked.
  - destruct (seek_source_quiet k (el c) sent p o) as (? & ? & ?); auto. rewrite H0 in Hs.
    apply inv_quiet; auto using after_ok; try done; [|by destruct sent]. intros. by destruct Hbusy; [congruence|].
  - by eapply inv_seek_answer.
  - destruct (seek_exit_quiet k (el c) u p o) as (? & ? & ?); auto.
    apply inv_quiet; auto using after_ok; try done. intros. by destruct Hbusy; [congruence|].
Qed.

Lemma reachable_inv c : reachable c -> inv c.
Proof.
  induction 1; [|by eapply step_inv]. split; simpl; try done. left. by split.
Qed.

(** ** Safety *)

(** C15: whatever the interleaving of upstream, the task and seeks, every buffer
    pushed downstream holds the bytes of the stream at its offset. *)
Theorem pushed_bytes c b : reachable c -> In (Push_buffer b) (trace c) -> carries b.
Proof.
  intros Hr Hin. destruct (reachable_inv c Hr) as [Hi _ _ _].
  exact (proj1 (List.Forall_forall _ _) Hi (Push_buffer b) Hin).
Qed.


(** In every reachable state each piece a thread may run next returns. *)
Lemma pieces_total c s : reachable c -> good s ->
  (forall mode started b, buffer_ok c b -> is_Some (progress_buffer_chain s mode started b (el c))) /\
  (forall seg pushed, segment_ok c seg -> is_Some (progress_buffer_sink_event s (EventSegment seg) pushed (el c))) /\
  (forall skip, at_ c = Item skip -> is_Some (loop_item s skip (el c))) /\
  (forall k, srcpad (el c) = true -> 0 <= seek_start k < 2 ^ 63 -> is_Some (seek_locked k (el c))) /\
  (forall k accepted, at_ c = SeekUpstream k -> base c <= seek_start k ->
     is_Some (seek_source_done k accepted (el c))).
Proof.
  intros Hr [Hio Hcr]. destruct (reachable_inv c Hr) as [_ _ Hs Hst]. split_and!.
  - intros mode started b [Hn _ _ _]. destruct Hst as [[]|(ch & [L1 _ _ _ _ _])]; [congruence|].
    destruct (chain_runs s mode started b (el c) ch L1) as (r & q & o & -> & _). eauto.
  - intros seg pushed [Hf (Hg & _ & Hg2) _ Hfi]. unfold progress_buffer_sink_event.
    cbn [GST_EVENT_IS_SERIALIZED negb andb progress_buffer_enqueue_item].
    cbv beta iota zeta delta [mbind act_bind mret act_ret gets assign emit when id]. rewrite andb_false_r.
    destruct (eos (el c)); [by eexists|].
    destruct (segment_cache_some c s seg Hcr Hfi) as (ch & Ech).
    destruct (enqueue_segment_runs s seg (el c) ch Hf Hg Hg2 Ech) as (q & o & -> & _). by eexists.
  - intros skip Hat. destruct Hst as [[]|(ch & [L1 L2 L3 _ _ L6])]; [congruence|].
    rewrite (loop_item_eq s skip (el c) ch L1). destruct (bool_decide _); [|by eexists].
    destruct (pending_src_event (el c)) as [e|] eqn:Ep.
    + destruct (loop_event_runs skip e (el c)) as (n & q & o & -> & _). by eexists.
    + pose proof L2 as [Hok _ _ _ _]. rewrite law_has_data by done.
      destruct (Z.ltb_spec (rpos ch) (alen (window ch))) as [Hd|_], (instant_seek (el c)); try by eexists.
      destruct (loop_buffer_runs s skip (el c) ch (base c) Hio L1 L3 L2 Ep Hd) as (n & ch' & q & E & _).
      cbn [andb]. rewrite E. by eexists.
  - intros k Hp Hk. destruct Hst as [[]|(ch & [L1 L2 L3 L4 _ _])]; [congruence|].
    rewrite seek_locked_eq. destruct (instant k (el c)) eqn:Ei.
    + unfold instant in Ei. apply andb_true_iff in Ei as [Ei _].
      unfold u64 in Ei. rewrite Z.mod_small, Z.geb_leb, Z.leb_le in Ei by lia.
      match goal with |- is_Some (seek_cache k ?r) =>
        destruct (seek_cache_runs k r ch (base c) L1 L3 L2) as (q & ch' & -> & _) end; [lia|by eexists].
    + match goal with |- is_Some (reset_eos true ?r) => destruct (reset_eos_runs r) as (q & -> & _) end. by eexists.
  - intros k accepted Hat Hk. rewrite Hat in Hs. simpl in Hs.
    destruct Hst as [[]|(ch & [L1 L2 L3 L4 _ _])]; [congruence|]. unfold seek_source_done.
    cbv beta iota zeta delta [mbind act_bind mret act_ret gets assign emit when]. destruct accepted; [by eexists|].
    cbn [negb]. match goal with |- context [seek_cache k ?r] =>
      destruct (seek_cache_runs k r ch (base c) L1 L3 L2) as (q & ch' & -> & _) end; [lia|by eexists].
Qed.

End machine.
