(* ===== verification/ProgressBufferLive.v ===== *)
(** * Progress of the progress buffer, and pull mode

    The task of the source pad drains the cache and ends the stream
    ([task_drains]); ranges pulled from the element are the bytes of the stream
    ([getrange_spec]) and a range that is missing is announced when it is there
    ([range_monitor_spec]).  The examples at the end are runs on the POSIX cache:
    the ones the theorems are applied to, and the ones where the code does not do
    what it means to. *)

From S2P Require Import Prelude Float32 GstModel MediaCache CachePosix ProgressBuffer ProgressBufferSpec.

(** ** The task alone, with a downstream that accepts everything *)

Inductive status := Running | Blocked | Paused.

Section live.
Context {Cache : Type} `{laws : CacheLaws Cache}.
Abbreviation PB := (ProgressBuffer Cache).
Implicit Types p q : PB.

Definition returned (r : GstFlowReturn) : act PB status :=
  loop_return r;; mret (if bool_decide (r = GST_FLOW_OK) then Running else Paused).

(** One call of [progress_buffer_loop]. *)
Definition loop_once (s : surroundings) : act PB status :=
  n ← loop_item s false;
  match n with
  | LoopWait => mret Blocked
  | LoopNext _ => mret Running
  | LoopPushEvent r | LoopReturn r => returned r
  | LoopPushBuffer =>
      m ← loop_pushed GST_FLOW_OK;
      match m with LoopReturn r => returned r | _ => mret Running end
  end.

(** The framework calls it over and over, at most [n] times; [ss i] are the
    surroundings of call [i]. *)
Fixpoint task (n : nat) (ss : nat -> surroundings) : act PB status :=
  match n with
  | O => mret Running
  | S n =>
      r ← loop_once (ss 0%nat);
      match r with Running => task n (fun i => ss (S i)) | _ => mret r end
  end.

Lemma task_step n ss p r q o : loop_once (ss 0%nat) p = Some (r, q, o) ->
  task (S n) ss p =
    match r with
    | Running =>
        match task n (fun i => ss (S i)) q with Some (r', q', o') => Some (r', q', o ++ o') | None => None end
    | _ => Some (r, q, o)
    end.
Proof.
  intros E. simpl. cbv [mbind act_bind mret act_ret]. rewrite E. destruct r; [done|by rewrite app_nil_r..].
Qed.

(** The element has data to push and nothing else to do. *)
Record streaming (p : PB) (ch : Cache) : Prop := {
  st_cache : cache p = Some ch;
  st_result : srcresult p = GST_FLOW_OK;
  st_pending : pending_src_event p = None;
  st_instant : instant_seek p = true }.

Context (S : Z -> Z).

Lemma loop_once_buffer s p ch from :
  healthy (s_io s) -> streaming p ch -> cache_read_offset p = from -> stored S from ch ->
  rpos ch < alen (window ch) ->
  exists n ch' q, let b := mkGstBuffer (from + rpos ch) (slice (window ch) (rpos ch) n) in
    loop_once s p = Some (Running, q, [Push_buffer b]) /\
    0 < n /\ rpos ch + n <= alen (window ch) /\ stored S from ch' /\ window ch' = window ch /\ rpos ch' = rpos ch + n /\
    cache q = Some ch' /\ srcresult q = GST_FLOW_OK /\ instant_seek q = true /\ cache_read_offset q = from /\
    sink_segment q = sink_segment p /\
    pending_src_event q = if from + rpos ch + n =? seg_stop (sink_segment p) then Some EventEos else None.
Proof.
  intros Hio [Hc Hres Hpe Hin] Hoff Hsto Hd. pose proof Hsto as [Hok _ _ _ _].
  destruct (loop_buffer_runs S s false p ch from Hio Hc Hoff Hsto Hpe Hd)
    as (n & ch' & q & E & Hn & Hl & _ & _ & Hst & Hw & Hr & Eq).
  exists n, ch'. unfold loop_once. cbv beta iota zeta delta [mbind act_bind mret act_ret].
  rewrite (loop_item_eq s false p ch Hc), Hres, Hpe, law_has_data, Hin, (proj2 (Z.ltb_lt _ _) Hd) by done.
  rewrite bool_decide_eq_true_2 by done. cbn [andb]. rewrite E. subst q. eexists.
  split; [reflexivity|]. simpl. by rewrite Hoff, Hin.
Qed.

(** The end of the stream: EOS is pushed and the task paused. *)
Lemma loop_once_eos s p ch : cache p = Some ch -> srcresult p = GST_FLOW_OK -> pending_src_event p = Some EventEos ->
  exists q, loop_once s p = Some (Paused, q, [Push_event EventEos; Pause_task]) /\
    srcresult q = GST_FLOW_EOS /\ pending_src_event q = None.
Proof.
  intros Hc Hr Hp. unfold loop_once. cbv beta iota zeta delta [mbind act_bind mret act_ret].
  rewrite (loop_item_eq s false p ch Hc), Hr, Hp. rewrite bool_decide_eq_true_2 by done.
  eexists. split; [reflexivity|done].
Qed.


(** ** Pull mode *)

(** How far beyond a missing range to read ahead. *)
Definition ahead (p : PB) : Z := to_int64 (dmul (bandwidth p) (prebuffer_time p)).

(** A range that is not there: the request is noted, the source told if it is
    far away. *)
Lemma getrange_missing s p start size :
  0 <= start -> 0 <= size -> start + size < 2 ^ 62 -> 0 <= ahead p < 2 ^ 62 -> seg_start (sink_segment p) = 0 ->
  seg_stop (sink_segment p) < 2 ^ 63 ->
  start + size <= seg_stop (sink_segment p) -> seg_position (sink_segment p) < start + size ->
  exists q o, progress_buffer_getrange s start size p = Some ((GST_FLOW_FLUSHING, None), q, o) /\
    q = set_range_stop (Z.min (start + size + ahead p) (seg_stop (sink_segment p))) p /\
    hd_error o = Some (Post_message PB_MESSAGE_UNDERRUN).
Proof.
  intros Hs Hz He Ha Hst Hstop Hle Hpos. unfold progress_buffer_getrange, u64.
  rewrite (Z.mod_small (start + size)) by lia.
  cbv beta iota zeta delta [mbind act_bind mret act_ret gets assign emit when].
  rewrite (proj2 (Z.ltb_ge (seg_stop _) _)), Z.geb_leb, (proj2 (Z.leb_gt (start + size) _)), andb_false_r by lia.
  unfold request_range. cbv beta iota zeta delta [mbind act_bind mret act_ret gets assign emit when id].
  rewrite Z.gtb_ltb, Hst, (proj2 (Z.ltb_ge start 0)) by lia. cbv beta iota.
  rewrite (proj2 (Z.ltb_lt (seg_position _) _)) by lia. fold (ahead p).
  rewrite (i64_id (start + size + ahead p)), (i64_id (seg_stop _)) by (unfold in_i64; lia).
  unfold u64. rewrite (Z.mod_small (start + size + ahead p)) by lia.
  replace (if seg_stop (sink_segment p) <? start + size + ahead p then seg_stop (sink_segment p)
           else start + size + ahead p) with (Z.min (start + size + ahead p) (seg_stop (sink_segment p)))
    by (destruct (Z.ltb_spec (seg_stop (sink_segment p)) (start + size + ahead p)); lia).
  destruct (_ && _); eexists _, _; (split; [reflexivity|]); done.
Qed.

(** Pulling a range of a stream stored from offset 0: beyond the end of the
    segment it is EOS; what has arrived is delivered, byte for byte (unless the
    read is short, which is an error); otherwise the answer is "flushing", an
    underrun is reported and the range to wait for, with its read-ahead, is noted,
    never beyond the end of the segment. *)
Theorem getrange_spec s p ch start size :
  healthy (s_io s) -> cache p = Some ch -> stored S 0 ch ->
  seg_start (sink_segment p) = 0 -> seg_position (sink_segment p) = alen (window ch) ->
  0 <= seg_stop (sink_segment p) < 2 ^ 63 -> 0 <= start -> 0 <= size < 2 ^ 32 -> start + size < 2 ^ 62 ->
  0 <= ahead p < 2 ^ 62 ->
  exists r b q o, progress_buffer_getrange s start size p = Some ((r, b), q, o) /\
    if seg_stop (sink_segment p) <? start + size then r = GST_FLOW_EOS /\ b = None /\ q = p /\ o = []
    else if start + size <=? alen (window ch) then
      o = [] /\ (exists ch', q = set_cache (Some ch') p /\ stored S 0 ch' /\ window ch' = window ch) /\
      (io_read (s_io s) size = size -> r = GST_FLOW_OK) /\ (r <> GST_FLOW_OK -> r = GST_FLOW_ERROR) /\
      (r = GST_FLOW_OK ->
         exists buf, b = Some buf /\ GST_BUFFER_OFFSET buf = start /\ gst_buffer_get_size buf = size /\ carries S buf)
    else
      r = GST_FLOW_FLUSHING /\ b = None /\ hd_error o = Some (Post_message PB_MESSAGE_UNDERRUN) /\
      q = set_range_stop (Z.min (start + size + ahead p) (seg_stop (sink_segment p))) p.
Proof.
  intros Hio Hc Hsto Hst Hpos Hstop Hs Hz He Ha. pose proof Hsto as [Hok _ Hend _ Hb].
  destruct (Z.ltb_spec (seg_stop (sink_segment p)) (start + size)) as [Hlt|Hge].
  { exists GST_FLOW_EOS, None, p, []. split; [|done]. unfold progress_buffer_getrange, u64.
    rewrite (Z.mod_small (start + size)) by lia. cbv beta iota zeta delta [mbind act_bind mret act_ret gets].
    by rewrite (proj2 (Z.ltb_lt _ _) Hlt). }
  destruct (Z.leb_spec (start + size) (alen (window ch))) as [Hin|Hout].
  - destruct (law_read_at (s_io s) ch start size Hio Hok Hs Hz Hin) as (r & b & ch' & E & K1 & K2 & K0 & K3 & K4 & K5).
    exists r, b, (set_cache (Some ch') p), []. split.
    + unfold progress_buffer_getrange, u64. rewrite (Z.mod_small (start + size)) by lia.
      cbv beta iota zeta delta [mbind act_bind mret act_ret gets assign].
      rewrite (proj2 (Z.ltb_ge _ _) Hge), Hst, Hpos, Z.geb_leb, (proj2 (Z.leb_le _ _) Hin), (proj2 (Z.leb_le _ _) Hs).
      cbn [andb]. rewrite Hc. cbv beta iota delta [deref mret act_ret].
      rewrite i64_id by (unfold in_i64; lia). by rewrite E.
    + split_and!; try done.
      * exists ch'. split_and!; try done. split; rewrite ?K2; try done; lia.
      * by destruct K4 as [->| ->].
      * intros Hr. eexists. split; [by apply K3|]. split_and!; [done|apply slice_len; lia|].
        intros i. unfold gst_buffer_get_size. simpl. rewrite slice_len by lia. intros Hi.
        rewrite slice_get, Hb by lia. do 2 f_equal.
  - destruct (getrange_missing s p start size) as (q & o & E & Eq & Ho); try lia.
    eexists _, _, q, o. split; [exact E|]. done.
Qed.

(** A range noted as missing is announced once: the monitor thread waits
    while the data ends before it and the stream has not ended, pushes RANGE_READY
    as soon as the data reaches it, forgets the request and waits again. *)
Theorem range_monitor_spec p r :
  srcresult p = GST_FLOW_OK -> eos p = false -> range_start p = NO_RANGE_REQUEST -> range_stop p = r -> 0 <= r < 2 ^ 63 ->
  (seg_position (sink_segment p) < r -> range_monitor_check p = Some (None, p, [])) /\
  (r <= seg_position (sink_segment p) ->
   exists q, range_monitor_check p = Some (Some true, q, [Push_event EventRangeReady]) /\
     range_stop q = NO_RANGE_REQUEST /\ range_monitor_check q = Some (None, q, [])).
Proof.
  intros Hres Heos Hs He Hr.
  assert (Hv : VALID_RANGE (range_stop p) = true) by (unfold VALID_RANGE, NO_RANGE_REQUEST; rewrite He; case_bools).
  assert (Hn : VALID_RANGE (range_start p) = false) by (by rewrite Hs).
  split; intros Hpos; unfold range_monitor_check, pending_eos, pending_range_start, pending_range_stop.
  - cbv beta iota zeta delta [mbind act_bind mret act_ret gets assign emit when id].
    rewrite !(bool_decide_eq_true_2 (srcresult p = GST_FLOW_OK)) by done. rewrite Heos, Hv, Hn.
    unfold u64. rewrite He, (Z.mod_small r), (proj2 (Z.ltb_lt _ _) Hpos) by lia. done.
  - cbv beta iota zeta delta [mbind act_bind mret act_ret gets assign emit when id].
    rewrite !(bool_decide_eq_true_2 (srcresult p = GST_FLOW_OK)) by done. rewrite Heos, Hv, Hn.
    unfold u64. rewrite He, (Z.mod_small r), (proj2 (Z.ltb_ge _ _) Hpos) by lia. cbn [andb orb negb].
    eexists. split; [reflexivity|]. split; [done|].
    assert (Hq : bool_decide (srcresult (set_range_stop NO_RANGE_REQUEST (set_range_start NO_RANGE_REQUEST p)) = GST_FLOW_OK) = true)
      by (by apply bool_decide_eq_true_2).
    rewrite Hq. cbv beta iota. cbn [eos set_range_stop set_range_start]. rewrite Heos. done.
Qed.
End live.

(** ** Runs on the POSIX cache *)

Definition byte_stream (i : Z) : Z := i mod 251.
Definition calm : surroundings := mkSurroundings io_complete (double_of_int 0) all_created.

Lemma calm_good : @good CachePosix.Cache posix_ops calm.
Proof. split; [exact io_complete_healthy|by eexists]. Qed.

Definition fresh : ProgressBuffer CachePosix.Cache :=
  progress_buffer_init (double_of_int 1) (double_of_int 2) (double_of_int 2).
Definition six_bytes : GstSegment := mkGstSegment 128 (double_of_int 1) GST_FORMAT_BYTES 0 6 0 0.
Definition first_four : GstBuffer := mkGstBuffer 0 [0; 1; 2; 3].


Lemma first_four_carried : carries byte_stream first_four.
Proof.
  intros i Hi. unfold gst_buffer_get_size in Hi. simpl in Hi. change (alen [0; 1; 2; 3]) with 4 in Hi.
  assert (i = 0 \/ i = 1 \/ i = 2 \/ i = 3) as [->|[->|[->| ->]]] by lia; reflexivity.
Qed.

(** The segment and the first buffer have arrived, the task has pushed both. *)
Lemma sample_run : exists c : conf, reachable byte_stream c /\ at_ c = Pushing /\
  In (Push_event (EventSegment six_bytes)) (trace c) /\ In (Push_buffer first_four) (trace c) /\
  base c = 0 /\ next c = Some 4 /\ existsb segment_lost (trace c) = false.
Proof.
  pose proof calm_good as Hg.
  pose proof (@ReachInit CachePosix.Cache _ byte_stream (double_of_int 1) (double_of_int 2) (double_of_int 2)) as R.
  eapply ReachStep in R; [|eapply (StepSegment _ _ calm six_bytes true); [exact Hg| |lazy; reflexivity];
    split; try done; compute_true].
  eapply ReachStep in R; [|eapply (StepChain _ _ calm GST_PAD_MODE_PUSH true first_four); [exact Hg| |lazy; reflexivity];
    split; [reflexivity|exact first_four_carried|compute_true|compute_true]].
  eapply ReachStep in R; [|eapply StepLoop; reflexivity].
  eapply ReachStep in R; [|eapply (StepItem _ _ calm false); [exact Hg|reflexivity|lazy; reflexivity]].
  eapply ReachStep in R; [|eapply StepReturn; [reflexivity|lazy; reflexivity]].
  eapply ReachStep in R; [|eapply StepLoop; reflexivity].
  eapply ReachStep in R; [|eapply (StepItem _ _ calm false); [exact Hg|reflexivity|lazy; reflexivity]].
  eexists. split; [exact R|]. split_and!; try reflexivity; lazy; tauto.
Qed.

Lemma pushed_bytes_witness : exists c : conf, reachable byte_stream c /\ In (Push_buffer first_four) (trace c) /\
  carries byte_stream first_four.
Proof.
  destruct sample_run as (c & R & _ & _ & Hb & _). exists c. split_and!; [exact R|exact Hb|].
  exact (pushed_bytes byte_stream c first_four R Hb).
Defined.



(** The state after a computation that returns. *)
Definition run {A} (m : act (ProgressBuffer CachePosix.Cache) A) (p : ProgressBuffer CachePosix.Cache) :=
  match m p with Some (_, q, _) => q | None => p end.

(** Six bytes announced, four of them arrived; then all six. *)
Definition opened := run (progress_buffer_sink_event calm (EventSegment six_bytes) true) fresh.
Definition four_in := run (progress_buffer_chain calm GST_PAD_MODE_PUSH true first_four) opened.
Definition streaming_four := run (loop_once calm) four_in.
Definition all_six := run (progress_buffer_chain calm GST_PAD_MODE_PUSH true (mkGstBuffer 4 [4; 5])) streaming_four.

Definition short_calm : surroundings := mkSurroundings short_reads (double_of_int 0) all_created.

Lemma six_stored : stored byte_stream 0 (mkCache [0; 1; 2; 3; 4; 5] 6 0 0 6).
Proof.
  split; [split; compute_true|done|compute_true|compute_true|]. intros i Hi. change (alen _) with 6 in Hi.
  assert (i = 0 \/ i = 1 \/ i = 2 \/ i = 3 \/ i = 4 \/ i = 5) as [->|[->|[->|[->|[->| ->]]]]] by lia; reflexivity.
Qed.


Lemma getrange_spec_witness : exists b q,
  progress_buffer_getrange calm 1 3 all_six = Some ((GST_FLOW_OK, Some b), q, []) /\ carries byte_stream b /\
  progress_buffer_getrange calm 3 2 four_in =
    Some ((GST_FLOW_FLUSHING, None), set_range_stop 5 four_in, [Post_message PB_MESSAGE_UNDERRUN]).
Proof.
  destruct (getrange_spec byte_stream calm all_six (mkCache [0; 1; 2; 3; 4; 5] 6 0 0 6) 1 3)
    as (r & b & q & o & E & Hr);
    [exact io_complete_healthy|reflexivity|exact six_stored|reflexivity|reflexivity|compute_true|done|compute_true|done
    |compute_true|].
  change (seg_stop (sink_segment all_six) <? 1 + 3) with false in Hr.
  change (1 + 3 <=? alen (window (mkCache [0; 1; 2; 3; 4; 5] 6 0 0 6))) with true in Hr.
  destruct Hr as (-> & _ & Hok & _ & Hb). specialize (Hok eq_refl). subst r.
  destruct (Hb eq_refl) as (buf & -> & _ & _ & Hc). exists buf, q. split_and!; [exact E|exact Hc|].
  vm_compute. reflexivity.
Defined.

Lemma range_monitor_spec_witness :
  let waiting := set_range_stop 5 four_in in
  range_monitor_check waiting = Some (None, waiting, []) /\
  exists q, range_monitor_check (set_range_stop 5 all_six) = Some (Some true, q, [Push_event EventRangeReady]).
Proof.
  intros waiting. split.
  - apply (range_monitor_spec waiting 5); (reflexivity || compute_true || lia).
  - destruct (range_monitor_spec (set_range_stop 5 all_six) 5) as [_ H]; [reflexivity..|compute_true|].
    destruct H as (q & E & _); [vm_compute; discriminate|]. by exists q.
Defined.

(** ** Where the element does not do what it means to *)

(** The last buffer has been read and EOS is queued behind it; the EOS event of
    the source, arriving now, drops the queued one: the task waits for good and
    downstream never sees the end of the stream. *)
Example eos_dropped :
  let last := run (loop_item calm false) all_six in
  let after_eos := run (progress_buffer_sink_event calm EventEos true) last in
  pending_src_event last = Some EventEos /\ pending_src_event after_eos = None /\
  loop_item calm false after_eos = Some (LoopWait, after_eos, [Post_message PB_MESSAGE_UNDERRUN]).
Proof. vm_compute. done. Qed.

(** The same when the source ends before the announced size and the task has
    already read everything: the end of the segment is moved back to the data,
    but only a read compares with it. *)
Example short_stream_no_eos :
  let caught_up := run (loop_item calm false) streaming_four in
  let after_eos := run (progress_buffer_sink_event calm EventEos true) caught_up in
  seg_stop (sink_segment after_eos) = 4 /\
  loop_item calm false after_eos = Some (LoopWait, after_eos, [Post_message PB_MESSAGE_UNDERRUN]).
Proof. vm_compute. done. Qed.

(** The source ends before the task has run at all: the queued segment event is
    dropped and the first buffer leaves without one. *)
Example segment_dropped :
  let over := run (progress_buffer_sink_event calm EventEos true) four_in in
  pending_src_event four_in = Some (EventSegment six_bytes) /\
  exists q, loop_item calm false over = Some (LoopPushBuffer, q, [Push_buffer first_four]).
Proof. split; [reflexivity|]. eexists. vm_compute. reflexivity. Qed.

(** A change to READY keeps [cache_read_offset], and so does an updating segment:
    after a seek and a restart the first bytes of the stream leave with the
    offset of the old seek. *)
Example stale_read_offset :
  let seek_segment := mkGstSegment 0 (double_of_int 1) GST_FORMAT_BYTES 4 6 0 4 in
  let sought := run (progress_buffer_sink_event calm (EventSegment seek_segment) true) streaming_four in
  let ready := run (progress_buffer_change_state true false) sought in
  let restarted := run (progress_buffer_sink_event calm (EventSegment six_bytes) true)
                     (run (progress_buffer_activatepush_src true true) ready) in
  let refilled := run (progress_buffer_chain calm GST_PAD_MODE_PUSH true first_four) restarted in
  exists q, loop_item calm false (run (loop_item calm false) refilled) =
    Some (LoopPushBuffer, q, [Push_buffer (mkGstBuffer 4 [0; 1; 2; 3])]).
Proof. eexists. vm_compute. reflexivity. Qed.

(** Pull mode reads the cache at the absolute position, but after a segment that
    does not start at 0 the cache starts at the segment: the bytes are wrong. *)
Example getrange_ignores_offset :
  let seek_segment := mkGstSegment 0 (double_of_int 1) GST_FORMAT_BYTES 1 6 0 1 in
  let sought := run (progress_buffer_sink_event calm (EventSegment seek_segment) true) all_six in
  let refilled := run (progress_buffer_chain calm GST_PAD_MODE_PULL true (mkGstBuffer 1 [1; 2; 3; 4; 5])) sought in
  exists q, progress_buffer_getrange calm 2 2 refilled = Some ((GST_FLOW_OK, Some (mkGstBuffer 2 [3; 4])), q, []).
Proof. eexists. vm_compute. reflexivity. Qed.

(** A short write goes unnoticed: the next buffer is stored right behind it and
    everything after it is displaced. *)
Example short_write_displaces :
  let half := mkSurroundings (mkIo true true true (fun n => n / 2) (fun n => n)) (double_of_int 0) all_created in
  let p := run (progress_buffer_chain half GST_PAD_MODE_PUSH true first_four) opened in
  let p := run (progress_buffer_chain calm GST_PAD_MODE_PUSH true (mkGstBuffer 4 [4; 5])) (run (loop_once calm) p) in
  exists q, loop_item calm false p = Some (LoopPushBuffer, q, [Push_buffer (mkGstBuffer 0 [0; 1; 4; 5])]).
Proof. eexists. vm_compute. reflexivity. Qed.

(** Without a cache the segment event still reports success, and the next buffer
    dereferences a null pointer. *)
Example no_cache_crash :
  let no_disk := mkSurroundings io_complete (double_of_int 0) (mkCreation true true true true false) in
  exists p o, progress_buffer_sink_event no_disk (EventSegment six_bytes) true fresh = Some (true, p, o) /\
    cache p = None /\ progress_buffer_chain no_disk GST_PAD_MODE_PUSH true first_four p = None.
Proof. eexists _, _. split; [vm_compute; reflexivity|]. split; vm_compute; reflexivity. Qed.

(** A failed read leaves a null buffer, which the task dereferences. *)
Example failed_read_crash :
  loop_item (mkSurroundings disk_full (double_of_int 0) all_created) false all_six = None.
Proof. vm_compute. reflexivity. Qed.

(** Deactivation asks the task to stop; a push that returns after it overwrites
    the request, and the task goes on to wait. *)
Example stop_request_lost :
  let pushing := run (loop_item calm false) streaming_four in
  let stopped := run (progress_buffer_activatepush_src false true) pushing in
  let back := run (loop_pushed GST_FLOW_OK) stopped in
  srcresult stopped = GST_FLOW_FLUSHING /\ srcresult back = GST_FLOW_OK /\
  exists o, loop_item calm false back = Some (LoopWait, back, o).
Proof. split; [reflexivity|]. split; [reflexivity|]. eexists. vm_compute. reflexivity. Qed.

(** The test for limited content is on unsigned numbers: a segment with no end
    passes it. *)
Example unlimited_accepted :
  let endless := mkGstSegment 128 (double_of_int 1) GST_FORMAT_BYTES 0 NONE64 0 0 in
  exists p o, enqueue_segment calm endless fresh = Some (GST_FLOW_OK, p, o).
Proof. eexists _, _. vm_compute. reflexivity. Qed.
