(* ===== verification/HlsProgressBuffer.v ===== *)
(** * The HLS progress buffer

    gstreamer/plugins/progressbuffer/hlsprogressbuffer.c: a ring of three caches
    between the Java source and the demuxer, one per HLS media segment.  A SEGMENT
    event makes the next cache of the ring the one written to, waiting for it to
    be free; [hls_progress_buffer_chain] writes to it; the task of the source pad
    reads the caches in turn and frees each one when all of its bytes are read.

    As in the progress buffer a function is split where it gives up the lock: the
    handler of a SEGMENT event is five pieces, [segment_check], [segment_open],
    [segment_next], [segment_wait] and [segment_woken], between which the task may
    run.  What is done without the lock and touches no field, as posting a
    message, is part of the piece before or after it.  [segment_open] assigns to
    fields without the lock, so that it may run when the task holds it: the end of
    the stream, where the task pushes an event under the lock, is therefore a piece
    of its own ([hls_loop_eos]).  [hls_progress_buffer_chain]
    reads two flags before it takes the lock: [is_eos] is only assigned by the
    thread that calls it, [is_flushing] by a flush.  The field [set_src_caps],
    assigned once and never read, is left out. *)

From S2P Require Import Prelude Float32 GstModel MediaCache.

Definition NUM_OF_CACHED_SEGMENTS : Z := 3.

Record HLSProgressBuffer (Cache : Type) := mkHLS {
  caches : list (option Cache);
  cache_size : list Z;
  cache_write_ready : list bool;
  cache_write_index : Z;
  cache_read_index : Z;
  send_new_segment : bool;
  is_flushing : bool;
  is_eos : bool;
  hls_srcresult : GstFlowReturn }.
Arguments mkHLS {_}. Arguments caches {_}. Arguments cache_size {_}. Arguments cache_write_ready {_}.
Arguments cache_write_index {_}. Arguments cache_read_index {_}. Arguments send_new_segment {_}.
Arguments is_flushing {_}. Arguments is_eos {_}. Arguments hls_srcresult {_}.

Section assignments.
Context {Cache : Type}.
Abbreviation HLS := (HLSProgressBuffer Cache).

Definition hls_eta (p : HLS) : HLS :=
  mkHLS (caches p) (cache_size p) (cache_write_ready p) (cache_write_index p) (cache_read_index p)
    (send_new_segment p) (is_flushing p) (is_eos p) (hls_srcresult p).

(** [element->f = v]. *)
Ltac assign f :=
  let e := eval unfold hls_eta in hls_eta in
  let e' := eval pattern f in e in
  match e' with ?F f => exact (fun v => F (fun _ => v)) end.

Definition set_caches : list (option Cache) -> HLS -> HLS := ltac:(assign (@caches Cache)).
Definition set_cache_size : list Z -> HLS -> HLS := ltac:(assign (@cache_size Cache)).
Definition set_write_ready : list bool -> HLS -> HLS := ltac:(assign (@cache_write_ready Cache)).
Definition set_write_index : Z -> HLS -> HLS := ltac:(assign (@cache_write_index Cache)).
Definition set_read_index : Z -> HLS -> HLS := ltac:(assign (@cache_read_index Cache)).
Definition set_send_new_segment : bool -> HLS -> HLS := ltac:(assign (@send_new_segment Cache)).
Definition set_is_flushing : bool -> HLS -> HLS := ltac:(assign (@is_flushing Cache)).
Definition set_is_eos : bool -> HLS -> HLS := ltac:(assign (@is_eos Cache)).
Definition set_hls_srcresult : GstFlowReturn -> HLS -> HLS := ltac:(assign (@hls_srcresult Cache)).
End assignments.

(** Where the task goes after one item; in [HlsEos] it keeps the lock. *)
Inductive hls_loop := HlsWait | HlsPush | HlsEos | HlsReturn (result : GstFlowReturn).

(** Where the handler of an event stands after a piece: the function has
    returned; a SEGMENT event has passed the test of [srcresult]; it has told
    downstream, and will return [ret] once it has its cache; it has found the ring
    full and given up the lock to say so; it is in [g_cond_wait]; it has its cache;
    a flush has set [is_flushing]. *)
Inductive hls_sink :=
  SinkReturn (ret : bool) | SegmentChecked | SegmentOpened (ret : bool) | SegmentFull | SegmentWait | SegmentInstalled
| FlushStarted.

Section operations.
Context {Cache : Type} `{ops : CacheOps Cache}.
Abbreviation HLS := (HLSProgressBuffer Cache).
Abbreviation A := (act HLS).

(** [element->cache[i]], dereferenced. *)
Definition cache_at (i : Z) : A Cache := l ← gets caches; o ← at_index l i; deref o.

(** [element->a[i] = v] for an array [a]. *)
Definition store {B} (f : HLS -> list B) (set : list B -> HLS -> HLS) (i : Z) (v : B) : A unit :=
  l ← gets f;
  match aset l i v with Some l => assign (set l) | None => undefined end.

Definition hls_progress_buffer_init (crs : list creation) : HLS :=
  mkHLS (map c_create crs) (map (fun _ => 0) crs) (map (fun _ => true) crs) (-1) 0 true false false GST_FLOW_OK.

Definition hls_progress_buffer_finalize : A unit :=
  l ← gets caches;
  foldr (fun o k => when (bool_decide (is_Some o)) (emit Destroy_cache);; k) (mret tt) l.

Definition hls_progress_buffer_activatepush_src (active linked : bool) : A bool :=
  if active then
    assign (set_hls_srcresult GST_FLOW_OK);;
    when linked (emit Start_task);;
    mret true
  else
    assign (set_hls_srcresult GST_FLOW_FLUSHING);;
    emit Signal;;
    emit Signal_del;;
    emit Stop_task;;
    mret true.

Definition hls_progress_buffer_activatemode (push : bool) (active linked : bool) : A bool :=
  if push then hls_progress_buffer_activatepush_src active linked else mret false.

(** The body of the loop over the caches. *)
Definition flush_cache (i : Z) : A unit :=
  l ← gets caches; o ← at_index l i;
  match o with
  | Some c =>
      let c := snd (c_set_write_position c 0) in
      let c := snd (c_set_read_position c 0) in
      store caches set_caches i (Some c);;
      store cache_size set_cache_size i 0;;
      store cache_write_ready set_write_ready i true
  | None => mret tt
  end.

Definition hls_progress_buffer_flush_data : A unit :=
  assign (set_hls_srcresult GST_FLOW_FLUSHING);;
  emit Signal;;
  emit Signal_del;;
  assign (set_write_index (-1));;
  assign (set_read_index 0);;
  flush_cache 0;; flush_cache 1;; flush_cache 2.

Definition hls_progress_buffer_chain (e : io) (data : GstBuffer) : A GstFlowReturn :=
  p ← gets id;
  if is_flushing p || is_eos p then emit (Drop_buffer data);; mret GST_FLOW_FLUSHING
  else
    when (negb (bool_decide (hls_srcresult p = GST_FLOW_FLUSHING))) (
      let i := cache_write_index p in
      c ← cache_at i;
      store caches set_caches i (Some (c_write_buffer e c data));;
      emit Signal);;
    mret GST_FLOW_OK.

(** *** The task *)

(** All of the segment has been read: its cache is free again. *)
Definition release_cache : A unit :=
  i ← gets cache_read_index;
  store cache_write_ready set_write_ready i true;;
  assign (set_read_index (Z.rem (i + 1) NUM_OF_CACHED_SEGMENTS));;
  emit (Post_message HLS_PB_MESSAGE_NOT_FULL);;
  emit Signal_del.

Definition hls_read (e : io) : A hls_loop :=
  i ← gets cache_read_index;
  c ← cache_at i;
  let '(read_position, buffer, c) := c_read_buffer e c in
  store caches set_caches i (Some c);;
  sizes ← gets cache_size; size ← at_index sizes i;
  when (u64 read_position =? size) release_cache;;
  buffer ← deref buffer;
  emit (Push_buffer buffer);;
  mret HlsPush.

(** From the test of the wait loop to the point where the lock is given up. *)
Definition hls_loop_item (e : io) : A hls_loop :=
  p ← gets id;
  if bool_decide (hls_srcresult p = GST_FLOW_OK) then
    c ← cache_at (cache_read_index p);
    if c_has_enough_data c then hls_read e
    else if is_eos p then emit (Push_event EventEos);; mret HlsEos
    else mret HlsWait
  else mret (HlsReturn (hls_srcresult p)).

(** After the EOS event has been pushed. *)
Definition hls_loop_eos : A hls_loop :=
  assign (set_hls_srcresult GST_FLOW_FLUSHING);; mret (HlsReturn GST_FLOW_FLUSHING).

(** After [gst_pad_push] has returned [result]. *)
Definition hls_loop_pushed (result : GstFlowReturn) : A GstFlowReturn :=
  r ← gets hls_srcresult;
  if bool_decide (GST_FLOW_OK = r) || negb (bool_decide (GST_FLOW_OK = result)) then
    assign (set_hls_srcresult result);; mret result
  else mret r.

Definition hls_loop_return (result : GstFlowReturn) : A unit :=
  flushing ← gets is_flushing;
  when (negb (bool_decide (result = GST_FLOW_OK)) && negb flushing) (emit Pause_task).

(** *** Events from upstream *)

(** The segment the demuxer gets, in time. *)
Definition time_segment (segment : GstSegment) : GstSegment :=
  mkGstSegment (seg_flags segment) (seg_rate segment) GST_FORMAT_TIME 0 NONE64 (seg_position segment)
    (seg_position segment).

(** A SEGMENT event up to the first unlock. *)
Definition segment_check (segment : GstSegment) : A hls_sink :=
  r ← gets hls_srcresult;
  if negb (bool_decide (r = GST_FLOW_OK)) then emit (Drop_event (EventSegment segment));; mret (SinkReturn true)
  else mret SegmentChecked.

(** From there to the second lock; [pushed] is the answer of downstream to the
    segment it gets. *)
Definition segment_open (segment : GstSegment) (linked pushed : bool) : A hls_sink :=
  p ← gets id;
  when (is_eos p) (
    assign (set_is_eos false);;
    assign (set_hls_srcresult GST_FLOW_OK);;
    when linked (emit Start_task));;
  emit (Drop_event (EventSegment segment));;
  if u64 (seg_stop segment - seg_start segment) <=? 0 then
    emit (Post_message (MESSAGE_ERROR GST_STREAM_ERROR_WRONG_TYPE));; mret (SinkReturn true)
  else
    when (send_new_segment p) (
      assign (set_send_new_segment false);;
      emit (Push_event (EventSegment (time_segment segment))));;
    mret (SegmentOpened (if send_new_segment p then pushed else true)).

(** One test of the wait loop, and what follows it when there is nothing to wait for. *)
Definition segment_slot (segment : GstSegment) : A hls_sink :=
  p ← gets id;
  let i := cache_write_index p in
  ready ← at_index (cache_write_ready p) i;
  if bool_decide (hls_srcresult p = GST_FLOW_OK) && negb ready then mret SegmentFull
  else
    store cache_size set_cache_size i (u32 (seg_stop segment));;
    store cache_write_ready set_write_ready i false;;
    c ← cache_at i;
    let c := snd (c_set_write_position c 0) in
    let c := snd (c_set_read_position c 0) in
    store caches set_caches i (Some c);;
    emit (Post_message HLS_PB_MESSAGE_RESUME);;
    mret SegmentInstalled.

(** From the second lock on. *)
Definition segment_next (segment : GstSegment) : A hls_sink :=
  i ← gets cache_write_index;
  assign (set_write_index (Z.rem (i + 1) NUM_OF_CACHED_SEGMENTS));;
  segment_slot segment.

(** The body of the wait loop up to [g_cond_wait], which is entered whatever has
    happened since the lock was given up. *)
Definition segment_wait : A hls_sink :=
  emit (Post_message HLS_PB_MESSAGE_FULL);; mret SegmentWait.

(** After [g_cond_wait]. *)
Definition segment_woken (segment : GstSegment) : A hls_sink :=
  r ← gets hls_srcresult;
  if negb (bool_decide (r = GST_FLOW_OK)) then mret (SinkReturn true) else segment_slot segment.

(** A FLUSH_START event after [is_flushing] has been set; [pushed] is the answer
    of downstream to the event. *)
Definition flush_started (linked pushed : bool) : A hls_sink :=
  emit (Push_event EventFlushStart);;
  hls_progress_buffer_flush_data;;
  when linked (emit Pause_task);;
  mret (SinkReturn pushed).

(** The handler up to the first point where it gives up the lock and goes on;
    [pushed] is the answer of downstream to an event passed on. *)
Definition hls_progress_buffer_sink_event (event : GstEvent) (linked pushed : bool) : A hls_sink :=
  match event with
  | EventSegment segment => segment_check segment
  | EventFlushStart => assign (set_is_flushing true);; mret FlushStarted
  | EventFlushStop =>
      emit (Push_event event);;
      assign (set_send_new_segment true);;
      assign (set_is_flushing false);;
      assign (set_hls_srcresult GST_FLOW_OK);;
      eos ← gets is_eos;
      when (negb eos && linked) (emit Start_task);;
      mret (SinkReturn pushed)
  | EventEos =>
      emit (Post_message HLS_PB_MESSAGE_HLS_EOS);;
      assign (set_is_eos true);;
      emit Signal;;
      emit (Drop_event event);;
      mret (SinkReturn true)
  | _ => emit (Push_event event);; mret (SinkReturn pushed)
  end.

Definition hls_progress_buffer_change_state (paused_to_ready : bool) : A unit :=
  when paused_to_ready hls_progress_buffer_flush_data.
End operations.
