(* ===== verification/HlsSpec.v ===== *)
(** * The HLS progress buffer is a queue

    The ring of three caches refines an unbounded byte queue: in the interleavings
    of the upstream thread and the task of the source pad, what is pushed
    downstream is what came in, in order, and the rest is still in the ring
    ([hls_refines_queue]), as long as downstream does not refuse a buffer while a
    SEGMENT event is between its test of [srcresult] and its choice of a cache
    ([cache_overwritten] shows what is lost then) and counting the buffers that come
    in while the element is not flushing ([restart_lost]); a writer that waits for a free
    cache is woken by the task and gets one, as long as the ring has not run empty
    before it waits ([writer_freed]; [writer_stuck] is the run in which it has). *)

From S2P Require Import Prelude Float32 GstModel MediaCache CachePosix HlsProgressBuffer.

(** ** Arrays of three elements, seen from the read index *)

(** The array whose element at [r] is [a], followed in the ring by [b] and [c]. *)
Definition ring {B} (r : Z) (a b c : B) : list B :=
  if r =? 0 then [a; b; c] else if r =? 1 then [c; a; b] else [b; c; a].

Ltac ring_cases r := assert (r = 0 \/ r = 1 \/ r = 2) as [->|[->| ->]] by lia.

Section ring.
Context {B : Type}.
Implicit Types a b c v : B.

Lemma ring_get r j a b c : 0 <= r < 3 -> 0 <= j < 3 ->
  aget (ring r a b c) ((r + j) mod 3) = Some (if j =? 0 then a else if j =? 1 then b else c).
Proof. intros Hr Hj. ring_cases r; ring_cases j; reflexivity. Qed.

Lemma ring_set r j a b c v : 0 <= r < 3 -> 0 <= j < 3 ->
  aset (ring r a b c) ((r + j) mod 3) v =
    Some (ring r (if j =? 0 then v else a) (if j =? 1 then v else b) (if j =? 2 then v else c)).
Proof. intros Hr Hj. ring_cases r; ring_cases j; reflexivity. Qed.

Lemma ring_get0 r a b c : 0 <= r < 3 -> aget (ring r a b c) r = Some a.
Proof. intros Hr. ring_cases r; reflexivity. Qed.

Lemma ring_set0 r a b c v : 0 <= r < 3 -> aset (ring r a b c) r v = Some (ring r v b c).
Proof. intros Hr. ring_cases r; reflexivity. Qed.

Lemma ring_next r a b c : 0 <= r < 3 -> ring r a b c = ring (Z.rem (r + 1) NUM_OF_CACHED_SEGMENTS) b c a.
Proof. intros Hr. ring_cases r; reflexivity. Qed.
End ring.

Lemma next_range r : 0 <= r < 3 -> 0 <= Z.rem (r + 1) NUM_OF_CACHED_SEGMENTS < 3.
Proof. intros Hr. ring_cases r; vm_compute; split; (discriminate || reflexivity). Qed.

Lemma next_index r j : 0 <= r < 3 -> 0 <= j -> (Z.rem (r + 1) NUM_OF_CACHED_SEGMENTS + j) mod 3 = (r + (j + 1)) mod 3.
Proof.
  intros Hr Hj. unfold NUM_OF_CACHED_SEGMENTS.
  rewrite Z.rem_mod_nonneg, Zplus_mod_idemp_l by lia. f_equal. lia.
Qed.

Section machine.
Context {Cache : Type} `{laws : CacheLaws Cache}.
Abbreviation HLS := (HLSProgressBuffer Cache).
Implicit Types p q : HLS.
Implicit Types ch : Cache.

(** ** The invariant of the ring *)

(** The bytes of a cache that have not been read. *)
Definition rest ch : list Z := drop (Z.to_nat (rpos ch)) (window ch).

(** [k] caches are in use, from the read index on; the last one still lacks
    [room] bytes.  Position [j] of the ring holds cache [ch] for [z] bytes. *)
Definition slot_ok (k room j : Z) ch (z : Z) : Prop :=
  cache_ok ch /\
  if j <? k then
    0 < z < 2 ^ 32 /\ rpos ch < z /\ rpos ch <= alen (window ch) /\ (0 < j -> rpos ch = 0) /\
    alen (window ch) = z - (if j =? k - 1 then room else 0)
  else rpos ch = alen (window ch).

Record ring_ok (p : HLS) (k room : Z) (c0 c1 c2 : Cache) (z0 z1 z2 : Z) : Prop := {
  rg_read : 0 <= cache_read_index p < 3;
  rg_used : 0 <= k <= 3;
  rg_room : 0 <= room < 2 ^ 32;
  rg_fill : 0 < room -> 1 <= k;
  rg_caches : caches p = ring (cache_read_index p) (Some c0) (Some c1) (Some c2);
  rg_sizes : cache_size p = ring (cache_read_index p) z0 z1 z2;
  rg_ready : cache_write_ready p = ring (cache_read_index p) (k <=? 0) (k <=? 1) (k <=? 2);
  rg_slot0 : slot_ok k room 0 c0 z0;
  rg_slot1 : slot_ok k room 1 c1 z1;
  rg_slot2 : slot_ok k room 2 c2 z2 }.

(** What is still to be pushed. *)
Definition unread (k : Z) (c0 c1 c2 : Cache) : list Z :=
  (if 0 <? k then rest c0 else []) ++ (if 1 <? k then rest c1 else []) ++ (if 2 <? k then rest c2 else []).

Lemma cache_at_ring p j c0 c1 c2 : 0 <= cache_read_index p < 3 -> 0 <= j < 3 ->
  caches p = ring (cache_read_index p) (Some c0) (Some c1) (Some c2) ->
  cache_at ((cache_read_index p + j) mod 3) p = Some (if j =? 0 then c0 else if j =? 1 then c1 else c2, p, []).
Proof.
  intros Hr Hj Hc. unfold cache_at, at_index. cbv beta iota zeta delta [mbind act_bind mret act_ret gets].
  rewrite Hc, ring_get by done. ring_cases j; reflexivity.
Qed.

(** Writing moves the end of what is unread. *)
Lemma rest_write e ch b : healthy e -> cache_ok ch -> gst_buffer_get_size b < 2 ^ 32 ->
  alen (window ch) + gst_buffer_get_size b < 2 ^ 63 -> rpos ch <= alen (window ch) ->
  rest (c_write_buffer e ch b) = rest ch ++ buffer_data b.
Proof.
  intros He Hok Hz Hb Hr. destruct (law_write e ch b He Hok Hz Hb) as (_ & Hw & Hp). unfold rest.
  rewrite Hw, Hp, drop_app_le; [done|]. pose proof (rpos_nonneg ch Hok). unfold alen in Hr. lia.
Qed.

(** Reading takes from the front. *)
Lemma rest_read ch ch' n : cache_ok ch -> 0 <= n -> rpos ch + n <= alen (window ch) ->
  window ch' = window ch -> rpos ch' = rpos ch + n -> rest ch = slice (window ch) (rpos ch) n ++ rest ch'.
Proof.
  intros Hok Hn Hl Hw Hr. pose proof (rpos_nonneg ch Hok). unfold rest, slice. rewrite Hw, Hr.
  replace (Z.to_nat (rpos ch + n)) with (Z.to_nat (rpos ch) + Z.to_nat n)%nat by lia.
  rewrite <- drop_drop. symmetry. apply take_drop.
Qed.

Lemma rest_empty ch : alen (window ch) <= rpos ch -> rest ch = [].
Proof. intros Hr. unfold rest. apply drop_ge. unfold alen in Hr. lia. Qed.

(** ** The operations on the ring *)

(** The bytes pushed downstream by a list of effects. *)
Definition pushed (o : list out) : list Z :=
  mjoin (map (fun x => match x with Push_buffer b => buffer_data b | _ => [] end) o).

(** The flags and the write index are left alone. *)
Definition flags p : Z * GstFlowReturn * bool * bool :=
  (cache_write_index p, hls_srcresult p, is_eos p, is_flushing p).

(** Whether [del_cond] is signalled. *)
Definition signals_del (o : list out) : bool := existsb (fun x => match x with Signal_del => true | _ => false end) o.

Definition pick {B} (j : Z) (a b c : B) : B := if j =? 0 then a else if j =? 1 then b else c.

(** Writing to cache [k - 1], the one being filled. *)
Lemma slot_write e k room ch z j b :
  healthy e -> slot_ok k room j ch z -> 0 <= j -> j = k - 1 -> 0 < gst_buffer_get_size b <= room -> room < 2 ^ 32 ->
  slot_ok k (room - gst_buffer_get_size b) j (c_write_buffer e ch b) z /\
  rest (c_write_buffer e ch b) = rest ch ++ buffer_data b.
Proof.
  intros He [Hok Hs] Hj0 Hj Hz Hroom. rewrite (proj2 (Z.ltb_lt j k)) in Hs by lia.
  rewrite (proj2 (Z.eqb_eq j (k - 1))) in Hs by lia. destruct Hs as (H1 & H2 & H3 & H4 & H5).
  destruct (law_write e ch b He Hok) as (K1 & K2 & K3); [lia|lia|].
  split; [|apply rest_write; (done || lia)].
  split; [done|]. rewrite (proj2 (Z.ltb_lt j k)), (proj2 (Z.eqb_eq j (k - 1))), K2, K3, alen_app by lia.
  fold (gst_buffer_get_size b). split_and!; (done || lia).
Qed.

(** The other slots do not depend on the room. *)
Lemma slot_room k room room' j ch z : j <> k - 1 -> slot_ok k room j ch z -> slot_ok k room' j ch z.
Proof. intros Hj. unfold slot_ok. by rewrite (proj2 (Z.eqb_neq j (k - 1))). Qed.

Lemma chain_ring e b p k room c0 c1 c2 z0 z1 z2 :
  healthy e -> ring_ok p k room c0 c1 c2 z0 z1 z2 -> 0 < gst_buffer_get_size b <= room ->
  is_flushing p = false -> is_eos p = false -> hls_srcresult p <> GST_FLOW_FLUSHING ->
  cache_write_index p = (cache_read_index p + (k - 1)) mod 3 ->
  exists q o c0' c1' c2', hls_progress_buffer_chain e b p = Some (GST_FLOW_OK, q, o) /\
    ring_ok q k (room - gst_buffer_get_size b) c0' c1' c2' z0 z1 z2 /\ flags q = flags p /\
    cache_read_index q = cache_read_index p /\
    unread k c0' c1' c2' = unread k c0 c1 c2 ++ buffer_data b.
Proof.
  intros He [Hr Hk Hro Hf Hc Hz Hy S0 S1 S2] Hb Hfl Heos Hres Hw.
  assert (1 <= k) as Hk1 by (apply Hf; lia).
  unfold hls_progress_buffer_chain, store. cbv beta iota zeta delta [mbind act_bind mret act_ret gets assign emit when id].
  rewrite Hfl, Heos, Hw. cbn [orb]. rewrite bool_decide_eq_false_2 by done. cbn [negb].
  rewrite (cache_at_ring p (k - 1) c0 c1 c2) by (done || lia). cbv beta iota. rewrite Hc, ring_set by lia.
  assert (k = 1 \/ k = 2 \/ k = 3) as [->|[->| ->]] by lia;
    try change (1 - 1) with 0; try change (2 - 1) with 1; try change (3 - 1) with 2; cbn [Z.eqb Pos.eqb];
    [destruct (slot_write e 1 room c0 z0 0 b) as [W1 W2]|destruct (slot_write e 2 room c1 z1 1 b) as [W1 W2]
    |destruct (slot_write e 3 room c2 z2 2 b) as [W1 W2]]; try done; try lia;
    (eexists _, _, _, _, _; split; [reflexivity|]; split;
     [split; [done|lia|lia|lia|reflexivity|done|done|..]; first [exact W1 | eapply slot_room; [|eassumption]; lia]
     |split; [reflexivity|]; split; [reflexivity|]];
     unfold unread; cbn [Z.ltb Z.compare Pos.compare Pos.compare_cont]; rewrite W2, ?app_nil_r, <- ?app_assoc; done).
Qed.

(** *** A new segment *)

Definition rewound ch : Cache := snd (c_set_read_position (snd (c_set_write_position ch 0)) 0).

Lemma rewound_ok ch : cache_ok ch -> cache_ok (rewound ch) /\ window (rewound ch) = [] /\ rpos (rewound ch) = 0.
Proof.
  intros Hok. unfold rewound. destruct (law_rewind ch Hok) as (c1 & -> & K1 & K2 & K3). simpl.
  destruct (law_seek c1 0 K1) as (c2 & -> & K4 & K5 & K6); [lia|]. simpl. by rewrite K5.
Qed.

Lemma slot_installed k ch z stop : 0 <= k -> 0 < stop < 2 ^ 32 -> slot_ok k 0 k ch z ->
  slot_ok (k + 1) stop k (rewound ch) stop /\ rest (rewound ch) = [].
Proof.
  intros Hk Hs [Hok _]. destruct (rewound_ok ch Hok) as (K1 & K2 & K3).
  split; [|apply rest_empty; rewrite K2, K3; unfold alen; simpl; lia].
  split; [done|]. rewrite (proj2 (Z.ltb_lt k (k + 1))), (proj2 (Z.eqb_eq k (k + 1 - 1))), K2, K3 by lia.
  unfold alen. simpl. split_and!; (done || lia).
Qed.

(** The slots that were in use are complete, so they stay as they are. *)
Lemma slot_kept k room j ch z : j <> k -> slot_ok k 0 j ch z -> slot_ok (k + 1) room j ch z.
Proof.
  intros Hj. unfold slot_ok. rewrite (proj2 (Z.eqb_neq j (k + 1 - 1))) by lia.
  intros [Hok Hs]. split; [done|]. destruct (Z.ltb_spec j k), (Z.ltb_spec j (k + 1)); try lia.
  destruct Hs as (? & ? & ? & ? & Ha). split; [done|]. split_and!; try done. rewrite Ha. by destruct (j =? k - 1).
Qed.

Lemma segment_slot_full seg p room c0 c1 c2 z0 z1 z2 :
  ring_ok p 3 room c0 c1 c2 z0 z1 z2 -> hls_srcresult p = GST_FLOW_OK ->
  cache_write_index p = (cache_read_index p + 3) mod 3 ->
  segment_slot seg p = Some (SegmentFull, p, []).
Proof.
  intros [Hr _ _ _ _ _ Hy _ _ _] Hres Hw. unfold segment_slot, at_index.
  cbv beta iota zeta delta [mbind act_bind mret act_ret gets assign emit id]. rewrite Hw, Hy, Hres.
  replace ((cache_read_index p + 3) mod 3) with ((cache_read_index p + 0) mod 3) by dlia.
  rewrite ring_get by lia. rewrite bool_decide_eq_true_2 by done. done.
Qed.

Lemma segment_slot_free seg p k c0 c1 c2 z0 z1 z2 :
  ring_ok p k 0 c0 c1 c2 z0 z1 z2 -> k < 3 ->
  cache_write_index p = (cache_read_index p + k) mod 3 -> 0 < seg_stop seg < 2 ^ 32 ->
  exists q o c0' c1' c2' z0' z1' z2', segment_slot seg p = Some (SegmentInstalled, q, o) /\
    ring_ok q (k + 1) (seg_stop seg) c0' c1' c2' z0' z1' z2' /\ flags q = flags p /\
    cache_read_index q = cache_read_index p /\ pushed o = [] /\ unread (k + 1) c0' c1' c2' = unread k c0 c1 c2.
Proof.
  intros [Hr Hk Hro Hf Hc Hz Hy S0 S1 S2] Hk3 Hw Hs. unfold segment_slot, at_index, store.
  cbv beta iota zeta delta [mbind act_bind mret act_ret gets assign emit id]. rewrite Hw, Hy, ring_get by lia.
  replace (if k =? 0 then k <=? 0 else if k =? 1 then k <=? 1 else k <=? 2) with true by (case_bools).
  rewrite andb_false_r. cbv beta iota. rewrite Hz, ring_set by lia. cbv beta iota.
  cbn [cache_write_ready set_cache_size]. rewrite Hy, ring_set by lia. cbv beta iota.
  match goal with |- context [cache_at ?i ?q] => pose proof (cache_at_ring q k c0 c1 c2) as Hat end.
  cbn [cache_read_index caches set_write_ready set_cache_size] in Hat. rewrite Hat by (done || lia). cbv beta iota.
  cbn [caches set_write_ready set_cache_size]. rewrite Hc, ring_set by lia. cbv beta iota.
  unfold u32. rewrite Z.mod_small by lia. clear Hat.
  assert (k = 0 \/ k = 1 \/ k = 2) as [->|[->| ->]] by lia; cbn [Z.eqb Pos.eqb];
    [destruct (slot_installed 0 c0 z0 (seg_stop seg)) as [W1 W2]|destruct (slot_installed 1 c1 z1 (seg_stop seg)) as [W1 W2]
    |destruct (slot_installed 2 c2 z2 (seg_stop seg)) as [W1 W2]]; try done;
    (eexists _, _, _, _, _, _, _, _; split; [reflexivity|]; split;
     [split; [done|lia|lia|lia|reflexivity|reflexivity|reflexivity|..]; first [exact W1 | by apply slot_kept]
     |split; [reflexivity|]; split; [reflexivity|]; split; [reflexivity|]];
     unfold unread; cbn; fold (rewound c0) (rewound c1) (rewound c2); rewrite W2, ?app_nil_r; done).
Qed.

(** *** The task *)

(** After a read that does not finish the oldest segment. *)
Lemma slot_read k room ch ch' z n :
  slot_ok k room 0 ch z -> 0 < k -> 0 < n -> rpos ch + n <= alen (window ch) -> rpos ch + n <> z ->
  cache_ok ch' -> window ch' = window ch -> rpos ch' = rpos ch + n -> 0 <= room -> slot_ok k room 0 ch' z.
Proof.
  intros [_ Hs] Hk Hn Hl Hz Hok Hw Hr Hroom. split; [done|]. rewrite (proj2 (Z.ltb_lt 0 k)) in * by lia.
  destruct Hs as (H1 & H2 & H3 & H4 & H5). rewrite Hw, Hr. split_and!; try lia. rewrite H5 in Hl.
  destruct (0 =? k - 1); lia.
Qed.

(** The next segments move up when the oldest one is done. *)
Lemma slot_shift k room j ch z : 0 < j -> slot_ok k room j ch z -> slot_ok (k - 1) room (j - 1) ch z.
Proof.
  intros Hj [Hok Hs]. split; [done|].
  replace (j - 1 <? k - 1) with (j <? k) by (case_bools). replace (j - 1 =? k - 1 - 1) with (j =? k - 1) by (case_bools).
  destruct (j <? k); [|done]. destruct Hs as (H1 & H2 & H3 & H4 & H5). split_and!; try lia.
Qed.

Lemma hls_item_eq e p k room c0 c1 c2 z0 z1 z2 : ring_ok p k room c0 c1 c2 z0 z1 z2 ->
  hls_loop_item e p =
    (if bool_decide (hls_srcresult p = GST_FLOW_OK) then
       if c_has_enough_data c0 then hls_read e p
       else if is_eos p then Some (HlsEos, p, [Push_event EventEos])
       else Some (HlsWait, p, [])
     else Some (HlsReturn (hls_srcresult p), p, [])).
Proof.
  intros [Hr Hk _ _ Hc _ _ _ _ _]. unfold hls_loop_item.
  cbv beta iota zeta delta [mbind act_bind mret act_ret gets assign emit id].
  destruct (bool_decide _); [|done]. pose proof (cache_at_ring p 0 c0 c1 c2 Hr) as Hat.
  rewrite Z.add_0_r, Z.mod_small in Hat by lia. rewrite Hat by (done || lia). cbn [Z.eqb].
  destruct (c_has_enough_data c0); [by destruct (hls_read e p) as [[[? ?] ?]|]|]. by destruct (is_eos p).
Qed.

Lemma hls_read_ring e p k room c0 c1 c2 z0 z1 z2 :
  healthy e -> ring_ok p k room c0 c1 c2 z0 z1 z2 -> 0 < k -> rpos c0 < alen (window c0) ->
  exists q o k' c0' c1' c2' z0' z1' z2', hls_read e p = Some (HlsPush, q, o) /\ pushed o <> [] /\
    ring_ok q k' room c0' c1' c2' z0' z1' z2' /\ flags q = flags p /\
    unread k c0 c1 c2 = pushed o ++ unread k' c0' c1' c2' /\
    ((k' = k /\ cache_read_index q = cache_read_index p /\ window c0' = window c0 /\ rpos c0 < rpos c0') \/
     (k' = k - 1 /\ cache_read_index q = Z.rem (cache_read_index p + 1) NUM_OF_CACHED_SEGMENTS)) /\
    signals_del o = (k' <? k).
Proof.
  intros He [Hr Hk Hro Hf Hc Hz Hy S0 S1 S2] Hk0 Hd. pose proof S0 as [Hok Hs0].
  rewrite (proj2 (Z.ltb_lt 0 k) Hk0) in Hs0. destruct Hs0 as (Hz0 & Hrz & _ & _ & Hlen).
  destruct (law_read e c0 He Hok Hd) as (n & ch & E & Hn & Hl & K1 & K2 & K3). pose proof (rpos_nonneg c0 Hok).
  pose proof (rest_read c0 ch n Hok ltac:(lia) Hl K2 K3) as Hrest.
  assert (slice (window c0) (rpos c0) n <> []) as Hne.
  { intros Ee. pose proof (slice_len (window c0) (rpos c0) n) as Hsl. rewrite Ee in Hsl. unfold alen in Hsl at 2.
    simpl in Hsl. lia. }
  pose proof (cache_at_ring p 0 c0 c1 c2 Hr) as Hat. rewrite Z.add_0_r, Z.mod_small in Hat by lia.
  unfold hls_read, store, at_index, release_cache, store.
  cbv beta iota zeta delta [mbind act_bind mret act_ret gets assign emit when].
  rewrite Hat by (done || lia). cbn [Z.eqb]. rewrite E. cbv beta iota. rewrite Hc, ring_set0 by done. cbv beta iota.
  cbn [cache_size set_caches]. rewrite Hz, ring_get0 by done. cbv beta iota. unfold u64. rewrite Z.mod_small by (destruct (0 =? k - 1); lia).
  destruct (Z.eqb_spec (rpos c0 + n) z0) as [Ez|Ez].
  - cbn [cache_read_index cache_write_ready set_caches]. rewrite Hy, ring_set0 by done. cbv beta iota delta [deref mret act_ret].
    assert (room = 0 \/ k <> 1) as Hroom by (destruct (Z.eqb_spec 0 (k - 1)); lia).
    exists (set_read_index (Z.rem (cache_read_index p + 1) NUM_OF_CACHED_SEGMENTS)
      (set_write_ready (ring (cache_read_index p) true (k <=? 1) (k <=? 2))
        (set_caches (ring (cache_read_index p) (Some ch) (Some c1) (Some c2)) p))).
    eexists _, (k - 1), c1, c2, ch, z1, z2, z0. split; [reflexivity|]. unfold pushed. simpl. rewrite app_nil_r.
    split_and!; try done; [| |by right|symmetry; apply Z.ltb_lt; lia].
    + split; simpl; try lia; [by apply next_range|by rewrite <- ring_next|by rewrite Hz, <- ring_next| | | |].
      * rewrite ring_next by done. f_equal; case_bools.
      * by apply (slot_shift k room 1).
      * by apply (slot_shift k room 2).
      * split; [done|]. rewrite (proj2 (Z.ltb_ge 2 (k - 1))), K2, K3 by lia. destruct (0 =? k - 1); lia.
    + unfold unread. rewrite (proj2 (Z.ltb_lt 0 k) Hk0), Hrest, (rest_empty ch) by (rewrite K2, K3; destruct (0 =? k - 1); lia).
      rewrite app_nil_r. replace (0 <? k - 1) with (1 <? k) by (case_bools). replace (1 <? k - 1) with (2 <? k) by (case_bools).
      by rewrite (proj2 (Z.ltb_ge 2 (k - 1))), app_nil_r by lia.
  - cbv beta iota delta [deref mret act_ret].
    eexists _, _, k, ch, c1, c2, z0, z1, z2. split; [reflexivity|]. unfold pushed. simpl. rewrite app_nil_r.
    split_and!; try done; [| |left; split_and!; (done || lia)|symmetry; apply Z.ltb_irrefl].
    + split; simpl; try done. by apply (slot_read k room c0 ch z0 n); (done || lia).
    + unfold unread. by rewrite (proj2 (Z.ltb_lt 0 k) Hk0), Hrest, <- app_assoc.
Qed.

(** ** The threads *)

(** The upstream thread: between calls, with [room] bytes of the current segment
    to come; in a SEGMENT event, after one of its pieces, in [g_cond_wait] or
    woken from it; or done, after the element refused. *)
Inductive upstream :=
  Sending (room : Z) | Checked (seg : GstSegment) | Opened (seg : GstSegment) | Full (seg : GstSegment)
| Blocked (seg : GstSegment) | Woken (seg : GstSegment) | Stopped.

(** The task of the source pad; [Ending] is the end of the stream, where it holds
    the lock. *)
Inductive reader := Idle | Item | Waiting | Pushing | Ending | Returning (r : GstFlowReturn).

#[local] Instance reader_eq_dec : EqDecision reader.
Proof. solve_decision. Defined.

Record conf := mkConf { el : HLS; up : upstream; rd : reader }.

Definition after_item (n : hls_loop) : reader :=
  match n with HlsWait => Waiting | HlsPush => Pushing | HlsEos => Ending | HlsReturn r => Returning r end.

Definition after_segment (seg : GstSegment) (n : hls_sink) : upstream :=
  match n with
  | SegmentChecked => Checked seg
  | SegmentOpened _ => Opened seg
  | SegmentFull => Full seg
  | SegmentWait => Blocked seg
  | SegmentInstalled => Sending (seg_stop seg)
  | SinkReturn _ | FlushStarted => Stopped
  end.

(** The next piece of a SEGMENT event.  A blocked one has none. *)
Definition segment_piece (u : upstream) (linked answer : bool) : option (GstSegment * act HLS hls_sink) :=
  match u with
  | Checked seg => Some (seg, segment_open seg linked answer)
  | Opened seg => Some (seg, segment_next seg)
  | Full seg => Some (seg, segment_wait)
  | Woken seg => Some (seg, segment_woken seg)
  | Sending _ | Blocked _ | Stopped => None
  end.

(** The condition variables: a signal wakes the thread that waits, and is lost
    when none does. *)
Definition wake_writer (o : list out) (u : upstream) : upstream :=
  match u with Blocked seg => if signals_del o then Woken seg else u | _ => u end.

Definition wake_reader (o : list out) (r : reader) : reader :=
  match r with
  | Waiting => if existsb (fun x => match x with Signal => true | _ => false end) o then Item else r
  | _ => r
  end.

(** A media segment is announced with its size, below 4 GiB. *)
Definition segment_ok (seg : GstSegment) : Prop := seg_start seg = 0 /\ 0 < seg_stop seg < 2 ^ 32.

(** What upstream does next can be done while the task has the lock or not:
    [segment_open] does not take it. *)
Definition lock_free (c : conf) : bool :=
  match rd c, up c with Ending, Checked _ => true | Ending, _ => false | _, _ => true end.

(** A SEGMENT event that has passed the test of [srcresult] and has not yet
    looked for a cache. *)
Definition opening (u : upstream) : bool := match u with Checked _ | Opened _ => true | _ => false end.

(** One piece of a thread; the bytes that came in from upstream and those that
    went out downstream.  Upstream sends the bytes of a segment, all of them
    before the next one, while the element takes them; downstream may refuse a
    buffer, but not while a SEGMENT event is [opening].  A wait may end without a
    signal ([StepSpurious], [StepWake]). *)
Inductive step : conf -> list Z -> list Z -> conf -> Prop :=
| StepChain c e b room r p o :
    lock_free c = true -> healthy e -> up c = Sending room -> 0 < gst_buffer_get_size b <= room ->
    hls_srcresult (el c) <> GST_FLOW_FLUSHING -> is_eos (el c) = false ->
    hls_progress_buffer_chain e b (el c) = Some (r, p, o) ->
    step c (buffer_data b) [] (mkConf p (Sending (room - gst_buffer_get_size b)) (wake_reader o (rd c)))
| StepSegment c seg linked answer n p o :
    lock_free c = true -> up c = Sending 0 -> segment_ok seg ->
    hls_progress_buffer_sink_event (EventSegment seg) linked answer (el c) = Some (n, p, o) ->
    step c [] (pushed o) (mkConf p (after_segment seg n) (wake_reader o (rd c)))
| StepPiece c linked answer seg m n p o :
    lock_free c = true -> segment_piece (up c) linked answer = Some (seg, m) -> m (el c) = Some (n, p, o) ->
    step c [] (pushed o) (mkConf p (after_segment seg n) (wake_reader o (rd c)))
| StepSpurious c seg : up c = Blocked seg -> step c [] [] (mkConf (el c) (Woken seg) (rd c))
| StepEos c room linked answer n p o :
    lock_free c = true -> up c = Sending room ->
    hls_progress_buffer_sink_event EventEos linked answer (el c) = Some (n, p, o) ->
    step c [] (pushed o) (mkConf p (up c) (wake_reader o (rd c)))
| StepCall c : rd c = Idle -> step c [] [] (mkConf (el c) (up c) Item)
| StepItem c e n p o :
    healthy e -> rd c = Item -> hls_loop_item e (el c) = Some (n, p, o) ->
    step c [] (pushed o) (mkConf p (wake_writer o (up c)) (after_item n))
| StepEnded c n p o :
    rd c = Ending -> hls_loop_eos (el c) = Some (n, p, o) ->
    step c [] (pushed o) (mkConf p (wake_writer o (up c)) (after_item n))
| StepWake c : rd c = Waiting -> step c [] [] (mkConf (el c) (up c) Item)
| StepPushed c result r p o :
    rd c = Pushing -> result = GST_FLOW_OK \/ opening (up c) = false ->
    hls_loop_pushed result (el c) = Some (r, p, o) ->
    step c [] (pushed o) (mkConf p (wake_writer o (up c)) (Returning r))
| StepReturn c r u p o :
    rd c = Returning r -> hls_loop_return r (el c) = Some (u, p, o) ->
    step c [] (pushed o) (mkConf p (wake_writer o (up c)) Idle).

(** Runs, with all that came in and all that went out. *)
Inductive run : conf -> list Z -> list Z -> Prop :=
| RunInit crs : Forall (fun cr => is_Some (c_create cr : option Cache)) crs -> length crs = 3%nat ->
    run (mkConf (hls_progress_buffer_init crs) (Sending 0) Idle) [] []
| RunStep c ins outs i o c' : run c ins outs -> step c i o c' -> run c' (ins ++ i) (outs ++ o).

(** ** The abstraction *)

Definition room_of (u : upstream) : Z := match u with Sending room => room | _ => 0 end.

(** The write index: at the segment being sent, or already at the one waited for. *)
Definition index_ok (p : HLS) (k : Z) (u : upstream) : Prop :=
  match u with
  | Sending _ =>
      Z.rem (cache_write_index p + 1) 3 = (cache_read_index p + k) mod 3 /\
      (0 < k -> cache_write_index p = (cache_read_index p + (k - 1)) mod 3)
  | Checked seg | Opened seg =>
      Z.rem (cache_write_index p + 1) 3 = (cache_read_index p + k) mod 3 /\ segment_ok seg
  | Full seg | Blocked seg | Woken seg =>
      cache_write_index p = (cache_read_index p + k) mod 3 /\ segment_ok seg
  | Stopped => True
  end.

(** The element holds the bytes [q] of the queue. *)
Definition represents (c : conf) (q : list Z) : Prop :=
  is_flushing (el c) = false /\
  exists k c0 c1 c2 z0 z1 z2, ring_ok (el c) k (room_of (up c)) c0 c1 c2 z0 z1 z2 /\
    index_ok (el c) k (up c) /\ q = unread k c0 c1 c2.

(** The part of the state the ring is about. *)
Definition ring_fields p : list (option Cache) * list Z * list bool * Z :=
  (caches p, cache_size p, cache_write_ready p, cache_read_index p).

Lemma ring_ok_ext p q k room c0 c1 c2 z0 z1 z2 :
  ring_fields q = ring_fields p -> ring_ok p k room c0 c1 c2 z0 z1 z2 -> ring_ok q k room c0 c1 c2 z0 z1 z2.
Proof. unfold ring_fields. intros [= E1 E2 E3 E4] []. split; rewrite ?E1, ?E2, ?E3, ?E4; done. Qed.

Lemma pushed_app o o' : pushed (o ++ o') = pushed o ++ pushed o'.
Proof. unfold pushed. by rewrite map_app, join_app. Qed.

(** A signal on [del_cond] does not move the write index. *)
Lemma wake_room o u : room_of (wake_writer o u) = room_of u.
Proof. by destruct u; simpl; try destruct (signals_del o). Qed.

Lemma wake_index o p k u : index_ok p k (wake_writer o u) <-> index_ok p k u.
Proof. by destruct u; simpl; try destruct (signals_del o). Qed.

Lemma represents_wake o p u r r' l : represents (mkConf p u r) l -> represents (mkConf p (wake_writer o u) r') l.
Proof.
  intros (Hfl & k & c0 & c1 & c2 & z0 & z1 & z2 & Hr & Hi & Hq). split; [done|].
  exists k, c0, c1, c2, z0, z1, z2. simpl in *. by rewrite wake_room, wake_index.
Qed.

(** Pieces that leave the ring alone. *)
Lemma represents_same c l p r :
  represents c l -> ring_fields p = ring_fields (el c) -> cache_write_index p = cache_write_index (el c) ->
  is_flushing p = is_flushing (el c) -> represents (mkConf p (up c) r) l.
Proof.
  intros (Hfl & k & c0 & c1 & c2 & z0 & z1 & z2 & Hr & Hi & Hq) Hf Hw Hfl'. split; [simpl; congruence|].
  exists k, c0, c1, c2, z0, z1, z2. split_and!; [by eapply ring_ok_ext| |done].
  unfold ring_fields in Hf. injection Hf as _ _ _ Er. unfold index_ok in *. simpl. by rewrite Hw, Er.
Qed.

(** All caches are free. *)
Definition all_free (p : HLS) : Prop := cache_write_ready p = [true; true; true].

Lemma free_used p k room c0 c1 c2 z0 z1 z2 : ring_ok p k room c0 c1 c2 z0 z1 z2 -> all_free p <-> k = 0.
Proof.
  intros [Hr Hk _ _ _ _ Hy _ _ _]. unfold all_free. rewrite Hy. split; [|intros ->; by ring_cases (cache_read_index p)].
  ring_cases (cache_read_index p); intros [= H1 H2 H3]; (apply Z.leb_le in H1 || apply Z.leb_le in H2 || idtac);
    rewrite ?Z.leb_le in *; lia.
Qed.

Lemma segment_slot_returns seg p k c0 c1 c2 z0 z1 z2 :
  ring_ok p k 0 c0 c1 c2 z0 z1 z2 -> segment_ok seg -> hls_srcresult p = GST_FLOW_OK \/ all_free p ->
  cache_write_index p = (cache_read_index p + k) mod 3 -> is_Some (segment_slot seg p).
Proof.
  intros Hr [_ Hz] Hres Hw. pose proof Hr as [_ Hk _ _ _ _ _ _ _ _]. rewrite (free_used _ _ _ _ _ _ _ _ _ Hr) in Hres.
  destruct (Z.eq_dec k 3) as [->|Hk3]; [destruct Hres as [Hres|]; [|done]; rewrite (segment_slot_full seg p 0 c0 c1 c2 z0 z1 z2) by done; by eexists|].
  destruct (segment_slot_free seg p k c0 c1 c2 z0 z1 z2) as (q & o & ? & ? & ? & ? & ? & ? & -> & _); try done; lia.
Qed.

(** What is known of [srcresult] while a SEGMENT event is opening: only the end of
    the stream can have changed it; [segment_open] undoes that, unless the task is
    about to change it, and then the ring is empty. *)
Definition result_ok (p : HLS) (u : upstream) (r : reader) : Prop :=
  match u with
  | Checked _ => (is_eos p = false -> hls_srcresult p = GST_FLOW_OK /\ r <> Ending) /\ (r = Ending -> all_free p)
  | Opened _ => is_eos p = false /\ (hls_srcresult p = GST_FLOW_OK \/ all_free p) /\ (r = Ending -> all_free p)
  | _ => True
  end.

Lemma segment_open_runs seg linked answer p : segment_ok seg ->
  exists q o b, segment_open seg linked answer p = Some (SegmentOpened b, q, o) /\ pushed o = [] /\
    ring_fields q = ring_fields p /\ cache_write_index q = cache_write_index p /\
    is_flushing q = is_flushing p /\ is_eos q = false /\
    hls_srcresult q = (if is_eos p then GST_FLOW_OK else hls_srcresult p).
Proof.
  intros [Hs Hz]. unfold segment_open. cbv beta iota zeta delta [mbind act_bind mret act_ret gets assign emit when id].
  unfold u64. rewrite Hs, Z.sub_0_r, Z.mod_small by lia. rewrite (proj2 (Z.leb_gt (seg_stop seg) 0)) by lia.
  destruct (is_eos p) eqn:Ee, linked, (send_new_segment p); eexists _, _, _; (split; [reflexivity|]); split_and!; done.
Qed.

(** The write index after it has moved on to a free cache. *)
Lemma installed_index r k w : 0 <= r < 3 -> 0 <= k -> w = (r + k) mod 3 ->
  Z.rem (w + 1) 3 = (r + (k + 1)) mod 3 /\ (0 < k + 1 -> w = (r + (k + 1 - 1)) mod 3).
Proof.
  intros Hr Hk ->. pose proof (Z.mod_pos_bound (r + k) 3). rewrite Z.rem_mod_nonneg, Zplus_mod_idemp_l by lia.
  split; [f_equal; lia|]. intros _. f_equal. lia.
Qed.

(** The wait loop of a SEGMENT event. *)
Lemma slot_sim seg p n q o rdr k c0 c1 c2 z0 z1 z2 :
  ring_ok p k 0 c0 c1 c2 z0 z1 z2 -> segment_ok seg -> hls_srcresult p = GST_FLOW_OK \/ all_free p -> is_flushing p = false ->
  cache_write_index p = (cache_read_index p + k) mod 3 -> segment_slot seg p = Some (n, q, o) ->
  pushed o = [] /\ represents (mkConf q (after_segment seg n) rdr) (unread k c0 c1 c2) /\
  result_ok q (after_segment seg n) rdr.
Proof.
  intros Hring Hs Hres Hfl Hw Hrun. pose proof Hring as [Hr Hk _ _ _ _ _ _ _ _].
  rewrite (free_used _ _ _ _ _ _ _ _ _ Hring) in Hres. destruct (Z.eq_dec k 3) as [->|Hk3].
  - destruct Hres as [Hres|]; [|done]. rewrite (segment_slot_full seg p 0 c0 c1 c2 z0 z1 z2) in Hrun by done. injection Hrun as <- <- <-.
    split; [done|]. split; [|done]. split; [done|]. by exists 3, c0, c1, c2, z0, z1, z2.
  - pose proof Hs as [_ Hz]. destruct (segment_slot_free seg p k c0 c1 c2 z0 z1 z2) as
      (q' & o' & d0 & d1 & d2 & y0 & y1 & y2 & E & Hring' & Hflags & Hread & Ho & Hun); try done; [lia|].
    rewrite E in Hrun. injection Hrun as <- <- <-. split; [done|]. unfold flags in Hflags. injection Hflags as F1 F2 F3 F4.
    split; [|done]. split; [by simpl; rewrite F4|]. exists (k + 1), d0, d1, d2, y0, y1, y2. split_and!; [done| |done]. simpl. rewrite F1, Hread.
    apply installed_index; (done || lia).
Qed.

Lemma chain_sim c l e b room r p o :
  represents c l -> healthy e -> up c = Sending room -> 0 < gst_buffer_get_size b <= room ->
  hls_srcresult (el c) <> GST_FLOW_FLUSHING -> is_eos (el c) = false ->
  hls_progress_buffer_chain e b (el c) = Some (r, p, o) ->
  represents (mkConf p (Sending (room - gst_buffer_get_size b)) (wake_reader o (rd c))) (l ++ buffer_data b).
Proof.
  intros (Hfl & k & c0 & c1 & c2 & z0 & z1 & z2 & Hr & Hi & ->) He Hu Hb Hres Heos Hrun. rewrite Hu in Hr, Hi.
  simpl in Hr, Hi. pose proof Hr as [_ _ _ Hf _ _ _ _ _ _]. destruct Hi as [Hi1 Hi2].
  destruct (chain_ring e b (el c) k room c0 c1 c2 z0 z1 z2) as (q & o' & d0 & d1 & d2 & E & Hring & Hflags & Hread & Hun);
    [done|done|done|done|done|done|apply Hi2; specialize (Hf ltac:(lia)); lia|].
  rewrite E in Hrun. injection Hrun as <- <- <-. unfold flags in Hflags. injection Hflags as F1 F2 F3 F4.
  split; [by simpl; rewrite F4|]. exists k, d0, d1, d2, z0, z1, z2. split_and!; [done| |done].
  simpl. by rewrite F1, Hread.
Qed.

Lemma item_sim c l e n p o :
  represents c l -> healthy e -> hls_loop_item e (el c) = Some (n, p, o) ->
  exists l', represents (mkConf p (up c) (after_item n)) l' /\ l = pushed o ++ l'.
Proof.
  intros Hrep He Hrun. pose proof Hrep as (Hfl & k & c0 & c1 & c2 & z0 & z1 & z2 & Hr & Hi & ->).
  rewrite (hls_item_eq e (el c) k (room_of (up c)) c0 c1 c2 z0 z1 z2 Hr) in Hrun.
  pose proof Hr as [Hri Hk _ _ _ _ _ [Hok Hs0] _ _].
  destruct (bool_decide _); [|simplify_eq; eexists; split; [by eapply represents_same|done]].
  rewrite law_has_data in Hrun by done.
  destruct (Z.ltb_spec (rpos c0) (alen (window c0))) as [Hd|_].
  - assert (0 < k) as Hk0 by (destruct (Z.ltb_spec 0 k); lia).
    destruct (hls_read_ring e (el c) k (room_of (up c)) c0 c1 c2 z0 z1 z2 He Hr Hk0 Hd)
      as (q & o' & k' & d0 & d1 & d2 & y0 & y1 & y2 & E & _ & Hring & Hflags & Hun & Hcase & _).
    rewrite E in Hrun. injection Hrun as <- <- <-. unfold flags in Hflags. injection Hflags as F1 F2 F3 F4.
    exists (unread k' d0 d1 d2). split; [|done]. split; [by simpl; rewrite F4|].
    exists k', d0, d1, d2, y0, y1, y2. split_and!; [done| |done]. simpl. unfold index_ok in *. rewrite F1.
    destruct Hcase as [(-> & -> & _)|(-> & ->)]; [done|].
    destruct (up c); rewrite ?next_index, ?(Z.sub_add 1 k) by lia; try done. destruct Hi as [Hi1 Hi2]. split; [done|].
    intros Hk1. rewrite next_index by lia. replace (k - 1 - 1 + 1) with (k - 1) by lia. apply Hi2. lia.
  - destruct (is_eos (el c)); simplify_eq; (eexists; split; [by eapply represents_same|done]).
Qed.

Lemma segment_sim c l seg linked answer n p o r :
  represents c l -> up c = Sending 0 -> segment_ok seg -> r <> Ending ->
  hls_progress_buffer_sink_event (EventSegment seg) linked answer (el c) = Some (n, p, o) ->
  pushed o = [] /\ represents (mkConf p (after_segment seg n) r) l /\ result_ok p (after_segment seg n) r.
Proof.
  intros (Hfl & k & c0 & c1 & c2 & z0 & z1 & z2 & Hr & Hi & Hl) Hu Hs Hrd Hrun. rewrite Hu in Hr, Hi.
  simpl in Hr, Hi. destruct Hi as [Hi _]. simpl in Hrun. unfold segment_check in Hrun.
  cbv beta iota zeta delta [mbind act_bind mret act_ret gets emit] in Hrun.
  destruct (decide (hls_srcresult (el c) = GST_FLOW_OK)) as [E|E];
    [rewrite bool_decide_eq_true_2 in Hrun by done|rewrite bool_decide_eq_false_2 in Hrun by done];
    injection Hrun as <- <- <-; (split; [done|]); (split; [|simpl; tauto]); (split; [done|]);
    by exists k, c0, c1, c2, z0, z1, z2.
Qed.

(** The pieces of a SEGMENT event that has passed the first test. *)
Lemma piece_sim c l linked answer seg m n p o r :
  represents c l -> result_ok (el c) (up c) r -> segment_piece (up c) linked answer = Some (seg, m) ->
  m (el c) = Some (n, p, o) ->
  pushed o = [] /\ represents (mkConf p (after_segment seg n) r) l /\ result_ok p (after_segment seg n) r.
Proof.
  intros (Hfl & k & c0 & c1 & c2 & z0 & z1 & z2 & Hr & Hi & ->) Hres Hm Hrun.
  destruct (up c) as [|sg|sg|sg|sg|sg|] eqn:Hu; try done; simpl in Hm; injection Hm as -> <-; simpl in Hr, Hi, Hres;
    destruct Hi as [Hi Hs].
  - destruct (segment_open_runs seg linked answer (el c) Hs) as (q & o' & ret & E & Ho & Hf & Hw & Hfl' & He & Hq).
    rewrite E in Hrun. injection Hrun as <- <- <-. split; [done|]. simpl. rewrite He, Hq. split.
    + split; [simpl; congruence|]. exists k, c0, c1, c2, z0, z1, z2. split_and!; [by eapply ring_ok_ext| |done].
      unfold ring_fields in Hf. injection Hf as _ _ _ Er. simpl. by rewrite Hw, Er.
    + unfold all_free in *. unfold ring_fields in Hf. injection Hf as _ _ -> _. split_and!; [done| |apply Hres].
      left. destruct (is_eos (el c)); [done|]. by apply Hres.
  - destruct Hres as (He & Hres & _). unfold segment_next in Hrun.
    cbv beta iota zeta delta [mbind act_bind mret act_ret gets assign] in Hrun.
    set (q1 := set_write_index _ (el c)) in Hrun. destruct (segment_slot seg q1) as [[[n' q'] o']|] eqn:Es; [|done].
    injection Hrun as <- <- <-. change ([] ++ [] ++ o') with o'.
    apply (slot_sim seg q1 n' q' o' r k c0 c1 c2 z0 z1 z2); try done. by eapply (ring_ok_ext (el c)).
  - unfold segment_wait in Hrun. injection Hrun as <- <- <-. split; [done|]. split; [|done]. split; [done|].
    by exists k, c0, c1, c2, z0, z1, z2.
  - unfold segment_woken in Hrun. cbv beta iota zeta delta [mbind act_bind mret act_ret gets] in Hrun.
    destruct (decide (hls_srcresult (el c) = GST_FLOW_OK)) as [e|e].
    + rewrite bool_decide_eq_true_2 in Hrun by done. cbn [negb] in Hrun.
      destruct (segment_slot seg (el c)) as [[[n' q'] o']|] eqn:Es; [|done]. injection Hrun as <- <- <-.
      apply (slot_sim seg (el c) n' q' o' r k c0 c1 c2 z0 z1 z2); auto.
    + rewrite bool_decide_eq_false_2 in Hrun by done. simpl in Hrun. injection Hrun as <- <- <-. split; [done|].
      split; [|done]. split; [done|]. by exists k, c0, c1, c2, z0, z1, z2.
Qed.

Definition same_flags p q : Prop := is_eos q = is_eos p /\ hls_srcresult q = hls_srcresult p.

#[local] Instance same_flags_preorder : PreOrder same_flags.
Proof. unfold same_flags. split; [by intros p|]. intros p q r [] []. split; congruence. Qed.

Lemma cache_at_flags i : preserves same_flags (cache_at i).
Proof. unfold cache_at. preserve. Qed.

Lemma store_flags {B} (f : HLS -> list B) set i v : (forall l p, same_flags p (set l p)) ->
  preserves same_flags (store f set i v).
Proof. intros Hset. unfold store. preserve. apply Hset. Qed.

Lemma read_flags e : preserves same_flags (hls_read e).
Proof.
  unfold hls_read, release_cache. preserve; first [apply cache_at_flags | by apply store_flags | by split].
Qed.

(** One item of the task leaves the flags alone, and all of the element when the
    element is stopped. *)
Lemma item_flags e n p q o : hls_loop_item e p = Some (n, q, o) ->
  same_flags p q /\ (hls_srcresult p = GST_FLOW_OK \/ q = p).
Proof.
  unfold hls_loop_item. cbv beta iota zeta delta [mbind act_bind mret act_ret gets assign emit id].
  destruct (decide (hls_srcresult p = GST_FLOW_OK)) as [Hok|Hok];
    [rewrite bool_decide_eq_true_2 by done|rewrite bool_decide_eq_false_2 by done; intros [= _ <- _]; split; [reflexivity|by right]].
  destruct (cache_at (cache_read_index p) p) as [[[ch p1] o1]|] eqn:Ec; [|done].
  assert (same_flags p p1) as Hs1 by (eapply cache_at_flags, Ec). intros Hrun. split; [|by left]. revert Hrun.
  destruct (c_has_enough_data ch).
  - destruct (hls_read e p1) as [[[n1 p2] o2]|] eqn:Er; [|done]. intros [= _ <- _].
    etransitivity; [exact Hs1|by eapply read_flags].
  - by destruct (is_eos p); intros [= _ <- _].
Qed.

(** The end of the stream: a ring of complete segments is empty. *)
Lemma item_eos e p q o k c0 c1 c2 z0 z1 z2 :
  healthy e -> ring_ok p k 0 c0 c1 c2 z0 z1 z2 -> hls_loop_item e p = Some (HlsEos, q, o) ->
  is_eos p = true /\ q = p /\ all_free p.
Proof.
  intros He Hr Hrun. pose proof Hr as [Hri Hk _ _ _ _ _ [Hok Hs0] _ _].
  rewrite (hls_item_eq e p k 0 c0 c1 c2 z0 z1 z2 Hr) in Hrun. destruct (bool_decide _); [|done].
  rewrite law_has_data in Hrun by done. destruct (Z.ltb_spec 0 k) as [Hk0|Hk0].
  - assert (rpos c0 < alen (window c0)) as Hd by (destruct (0 =? k - 1); lia).
    rewrite (proj2 (Z.ltb_lt _ _) Hd) in Hrun.
    destruct (hls_read_ring e p k 0 c0 c1 c2 z0 z1 z2) as (? & ? & ? & ? & ? & ? & ? & ? & ? & E & _); try done.
    by rewrite E in Hrun.
  - rewrite Hs0, Z.ltb_irrefl in Hrun. destruct (is_eos p) eqn:Ee; [|done]. injection Hrun as <- <-.
    split_and!; [done..|]. apply (free_used _ _ _ _ _ _ _ _ _ Hr). lia.
Qed.

Lemma wake_result o p u r : result_ok p (wake_writer o u) r <-> result_ok p u r.
Proof. by destruct u; simpl; try destruct (signals_del o). Qed.

(** The task after a piece that is not the end of the stream. *)
Lemma result_ok_quiet p q u r r' : result_ok p u r -> is_eos q = is_eos p -> hls_srcresult q = hls_srcresult p ->
  (hls_srcresult p = GST_FLOW_OK \/ cache_write_ready q = cache_write_ready p) -> r' <> Ending -> result_ok q u r'.
Proof.
  unfold result_ok, all_free. intros Hr E1 E2 E3 Hr'. destruct u; try done; rewrite E1, E2.
  - split; [|done]. intros He. split; [|done]. by apply Hr.
  - destruct Hr as (He & Ho & _). split_and!; [done| |done]. destruct E3 as [?|E3]; [by left|]. by rewrite E3.
Qed.

Lemma wake_reader_same o r : r <> Ending -> wake_reader o r <> Ending.
Proof. destruct r; try done. simpl. by destruct (existsb _ o). Qed.

Lemma item_result c l e n p o : represents c l -> result_ok (el c) (up c) (rd c) -> healthy e ->
  hls_loop_item e (el c) = Some (n, p, o) -> result_ok p (up c) (after_item n).
Proof.
  intros Hrep Hok He Hrun. destruct (item_flags e n (el c) p o Hrun) as [[F1 F2] Hq].
  assert (Hquiet : n <> HlsEos -> result_ok p (up c) (after_item n)).
  { intros Hn. eapply result_ok_quiet; [done|done|done|destruct Hq as [?| ->]; auto|by destruct n]. }
  destruct n; try (by apply Hquiet). clear Hquiet. destruct Hrep as (_ & k & c0 & c1 & c2 & z0 & z1 & z2 & Hr & _ & _).
  destruct (up c) as [|sg|sg|sg|sg|sg|]; try done; simpl in *.
  - destruct (item_eos e (el c) p o k c0 c1 c2 z0 z1 z2 He Hr Hrun) as (E1 & -> & E3). split; [|done].
    intros E. by rewrite E1 in E.
  - destruct (item_eos e (el c) p o k c0 c1 c2 z0 z1 z2 He Hr Hrun) as (E1 & -> & E3). destruct Hok as (He0 & _).
    by rewrite E1 in He0.
Qed.

Lemma step_sim c l i o c' : represents c l -> result_ok (el c) (up c) (rd c) -> step c i o c' ->
  exists l', represents c' l' /\ result_ok (el c') (up c') (rd c') /\ l ++ i = o ++ l'.
Proof.
  intros Hrep Hok Hstep. destruct Hstep as [c e b room r p o _ He Hu Hb Hres Heos Hrun
    |c seg linked answer n p o Hlf Hu Hs Hrun|c linked answer seg m n p o Hlf Hm Hrun|c seg Hu
    |c room linked answer n p o _ Hu Hrun|c Hrd|c e n p o He Hrd Hrun|c n p o Hrd Hrun|c Hrd
    |c result r p o Hrd Hres Hrun|c r u p o Hrd Hrun].
  - eexists. split; [by eapply chain_sim|done].
  - destruct (segment_sim c l seg linked answer n p o (wake_reader o (rd c))) as (-> & ? & ?); try done.
    { apply wake_reader_same. unfold lock_free in Hlf. rewrite Hu in Hlf. by destruct (rd c). }
    exists l. by rewrite app_nil_r.
  - assert (Hr : result_ok (el c) (up c) (wake_reader o (rd c))).
    { destruct (decide (rd c = Ending)) as [E|E]; [by rewrite E in *|]. apply (result_ok_quiet (el c) _ _ (rd c)); auto.
      by apply wake_reader_same. }
    destruct (piece_sim c l linked answer seg m n p o (wake_reader o (rd c))) as (-> & ? & ?); try done.
    exists l. by rewrite app_nil_r.
  - exists l. rewrite app_nil_r. split_and!; try done. destruct c as [p u r]. simpl in *. subst u.
    by apply (represents_wake [Signal_del] p (Blocked seg) r).
  - unfold hls_progress_buffer_sink_event in Hrun. injection Hrun as <- <- <-. exists l. rewrite app_nil_r.
    split; [by eapply represents_same|]. simpl. by rewrite Hu.
  - exists l. rewrite app_nil_r. split; [by eapply represents_same|]. split; [|done]. by apply (result_ok_quiet (el c) _ _ (rd c)); auto.
  - destruct (item_sim c l e n p o) as (l' & ? & ->); try done. exists l'. rewrite app_nil_r.
    split; [by eapply represents_wake|]. split; [|done]. simpl. apply wake_result. by eapply item_result.
  - unfold hls_loop_eos in Hrun. injection Hrun as <- <- <-. exists l. rewrite app_nil_r.
    split; [by eapply represents_wake, represents_same|]. split; [|done]. simpl. apply wake_result. rewrite Hrd in Hok.
    destruct (up c); try done; simpl in *; [split; [|done]; intros E; by destruct (proj1 Hok E)|].
    destruct Hok as (? & _ & Hf). split_and!; [done|right; by apply Hf|done].
  - exists l. rewrite app_nil_r. split; [by eapply represents_same|]. split; [|done]. by apply (result_ok_quiet (el c) _ _ (rd c)); auto.
  - unfold hls_loop_pushed in Hrun. cbv beta iota zeta delta [mbind act_bind mret act_ret gets assign] in Hrun.
    exists l. rewrite app_nil_r. destruct (_ || _) eqn:Eb; injection Hrun as <- <- <-; split.
    + by eapply represents_wake, represents_same.
    + split; [|done]. simpl. apply wake_result. destruct Hres as [->|Ho]; [|by destruct (up c)].
      rewrite (bool_decide_eq_true_2 (GST_FLOW_OK = GST_FLOW_OK)) in Eb by done. rewrite orb_false_r in Eb.
      apply bool_decide_eq_true in Eb. by apply (result_ok_quiet (el c) _ _ (rd c)); auto.
    + by eapply represents_wake, represents_same.
    + split; [|done]. simpl. apply wake_result. by apply (result_ok_quiet (el c) _ _ (rd c)); auto.
  - unfold hls_loop_return in Hrun. cbv beta iota zeta delta [mbind act_bind mret act_ret gets emit when] in Hrun.
    exists l. rewrite app_nil_r. destruct (_ && _); injection Hrun as <- <- <-;
      (split; [by eapply represents_wake, represents_same|]; split; [|done]; apply wake_result; by apply (result_ok_quiet (el c) _ _ (rd c)); auto).
  Unshelve. all: exact Idle.
Qed.

Lemma init_represents crs :
  Forall (fun cr => is_Some (c_create cr : option Cache)) crs -> length crs = 3%nat ->
  represents (mkConf (hls_progress_buffer_init crs) (Sending 0) Idle) [].
Proof.
  intros Hc Hl. destruct crs as [|r0 [|r1 [|r2 [|]]]]; try done. inversion_clear Hc as [|? ? [c0 E0] Hc1].
  inversion_clear Hc1 as [|? ? [c1 E1] Hc2]. inversion_clear Hc2 as [|? ? [c2 E2] _].
  split; [done|]. exists 0, c0, c1, c2, 0, 0, 0.
  destruct (law_create _ _ E0) as (? & W0 & R0), (law_create _ _ E1) as (? & W1 & R1), (law_create _ _ E2) as (? & W2 & R2).
  split_and!; [|by split|done]. unfold hls_progress_buffer_init.
  split; simpl; try done; try lia; [by rewrite E0, E1, E2|..]; (split; [done|]); simpl; rewrite ?W0, ?R0, ?W1, ?R1, ?W2, ?R2; done.
Qed.

(** ** No piece is stuck *)

Lemma chain_returns e b p k room c0 c1 c2 z0 z1 z2 :
  healthy e -> ring_ok p k room c0 c1 c2 z0 z1 z2 -> index_ok p k (Sending room) -> is_flushing p = false ->
  0 < gst_buffer_get_size b <= room -> is_Some (hls_progress_buffer_chain e b p).
Proof.
  intros He Hr [_ Hi] Hfl Hb. pose proof Hr as [_ _ _ Hf _ _ _ _ _ _].
  destruct (is_eos p) eqn:Heos; [|destruct (decide (hls_srcresult p = GST_FLOW_FLUSHING)) as [E|E]].
  - unfold hls_progress_buffer_chain. cbv beta iota zeta delta [mbind act_bind mret act_ret gets emit id].
    rewrite Heos, orb_true_r. by eexists.
  - unfold hls_progress_buffer_chain. cbv beta iota zeta delta [mbind act_bind mret act_ret gets emit id when].
    rewrite Heos, Hfl, bool_decide_eq_true_2 by done. by eexists.
  - destruct (chain_ring e b p k room c0 c1 c2 z0 z1 z2) as (q & o & ? & ? & ? & -> & _); try done.
    apply Hi. specialize (Hf ltac:(lia)). lia.
Qed.

Lemma piece_returns p u r k c0 c1 c2 z0 z1 z2 linked answer seg m :
  ring_ok p k (room_of u) c0 c1 c2 z0 z1 z2 -> index_ok p k u -> result_ok p u r ->
  segment_piece u linked answer = Some (seg, m) -> is_Some (m p).
Proof.
  intros Hr Hi Hok Hm. destruct u as [|sg|sg|sg|sg|sg|]; try done; simpl in Hm; injection Hm as -> <-; simpl in Hr, Hi, Hok;
    destruct Hi as [Hi Hs].
  - destruct (segment_open_runs seg linked answer p Hs) as (q & o & ret & -> & _). by eexists.
  - destruct Hok as (_ & Hres & _). unfold segment_next. cbv beta iota zeta delta [mbind act_bind mret act_ret gets assign].
    set (q1 := set_write_index _ p). destruct (segment_slot_returns seg q1 k c0 c1 c2 z0 z1 z2) as [[[n q'] o'] ->]; try done.
    by eapply (ring_ok_ext p).
  - by eexists.
  - unfold segment_woken. cbv beta iota zeta delta [mbind act_bind mret act_ret gets].
    destruct (decide (hls_srcresult p = GST_FLOW_OK)) as [E|E].
    + rewrite bool_decide_eq_true_2 by done. cbn [negb].
      destruct (segment_slot_returns seg p k c0 c1 c2 z0 z1 z2) as [[[n q'] o'] ->]; auto.
    + rewrite bool_decide_eq_false_2 by done. by eexists.
Qed.

Lemma item_returns e p k room c0 c1 c2 z0 z1 z2 :
  healthy e -> ring_ok p k room c0 c1 c2 z0 z1 z2 -> is_Some (hls_loop_item e p).
Proof.
  intros He Hr. pose proof Hr as [Hri Hk _ _ _ _ _ [Hok Hs0] _ _].
  rewrite (hls_item_eq e p k room c0 c1 c2 z0 z1 z2 Hr). destruct (bool_decide _); [|by eexists].
  rewrite law_has_data by done. destruct (Z.ltb_spec (rpos c0) (alen (window c0))) as [Hd|_].
  - destruct (hls_read_ring e p k room c0 c1 c2 z0 z1 z2 He Hr) as (q & o & ? & ? & ? & ? & ? & ? & ? & -> & _);
      [destruct (Z.ltb_spec 0 k); lia|done|by eexists].
  - destruct (is_eos p); by eexists.
Qed.

Lemma run_represents c ins outs : run c ins outs ->
  exists l, represents c l /\ result_ok (el c) (up c) (rd c) /\ ins = outs ++ l.
Proof.
  induction 1 as [crs Hc Hl|c ins outs i o c' _ (l & Hrep & Hok & ->) Hs]; [exists []; split_and!; [by apply init_represents|done..]|].
  destruct (step_sim c l i o c' Hrep Hok Hs) as (l' & Hrep' & Hok' & E). exists l'. split_and!; [done|done|].
  by rewrite <- !app_assoc, E.
Qed.


(** C29: in the runs of the element (all caches created, segments that are not
    empty and come before their bytes, no more bytes than announced) and while
    reading a cache works, no index leaves the ring and no null pointer is
    dereferenced: each piece a thread may run next returns. *)
Theorem hls_pieces_return c ins outs e : run c ins outs -> healthy e ->
  (forall room b, up c = Sending room -> 0 < gst_buffer_get_size b <= room ->
     is_Some (hls_progress_buffer_chain e b (el c))) /\
  (forall seg linked answer, is_Some (hls_progress_buffer_sink_event (EventSegment seg) linked answer (el c))) /\
  (forall linked answer seg m, segment_piece (up c) linked answer = Some (seg, m) -> is_Some (m (el c))) /\
  is_Some (hls_loop_item e (el c)).
Proof.
  intros Hrun He. destruct (run_represents c ins outs Hrun) as (l & Hrep & Hok & _).
  destruct Hrep as (Hfl & k & c0 & c1 & c2 & z0 & z1 & z2 & Hr & Hi & _).
  split_and!.
  - intros room b Hu Hb. rewrite Hu in Hr, Hi. by eapply (chain_returns e b (el c) k room c0 c1 c2 z0 z1 z2).
  - intros seg linked answer. simpl. unfold segment_check. cbv beta iota zeta delta [mbind act_bind mret act_ret gets emit].
    destruct (negb _); by eexists.
  - intros linked answer seg m Hm. by eapply (piece_returns (el c) (up c) (rd c) k c0 c1 c2 z0 z1 z2).
  - by eapply item_returns.
Qed.

(** ** A blocked writer is served *)

(** A call of the task that reads a buffer, which downstream accepts, and what it
    sends to the writer. *)
Definition read_item (e : io) (c : conf) : option conf :=
  match hls_loop_item e (el c) with
  | Some (HlsPush, p, o) =>
      match hls_loop_pushed GST_FLOW_OK p with
      | Some (r, p1, o1) =>
          match hls_loop_return r p1 with
          | Some (_, p2, o2) => Some (mkConf p2 (wake_writer o2 (wake_writer o1 (wake_writer o (up c)))) Idle)
          | None => None
          end
      | None => None
      end
  | _ => None
  end.

(** [n] such calls. *)
Fixpoint read_items (n : nat) (es : nat -> io) (c : conf) : option conf :=
  match n with
  | O => Some c
  | S n => match read_item (es 0%nat) c with Some c' => read_items n (fun i => es (S i)) c' | None => None end
  end.

(** They are steps of the task alone. *)
Lemma read_item_run e c c' ins outs : healthy e -> run c ins outs -> rd c = Idle -> read_item e c = Some c' ->
  rd c' = Idle /\ exists outs', run c' ins outs'.
Proof.
  intros He Hrun Hrd. unfold read_item. destruct (hls_loop_item e (el c)) as [[[[| | |] p] o]|] eqn:E1; try done.
  destruct (hls_loop_pushed GST_FLOW_OK p) as [[[r p1] o1]|] eqn:E2; [|done].
  destruct (hls_loop_return r p1) as [[[[] p2] o2]|] eqn:E3; [|done]. intros [= <-]. split; [done|].
  eapply RunStep in Hrun; [|by apply StepCall]. eapply RunStep in Hrun; [|by eapply StepItem].
  eapply RunStep in Hrun; [|eapply StepPushed; [done|by left|exact E2]].
  eapply RunStep in Hrun; [|by eapply StepReturn]. rewrite !app_nil_r in Hrun. by eexists.
Qed.

Lemma read_items_run n : forall es c c' ins outs, (forall i, healthy (es i)) -> run c ins outs -> rd c = Idle ->
  read_items n es c = Some c' -> exists outs', run c' ins outs'.
Proof.
  induction n as [|n IH]; intros es c c' ins outs He Hrun Hrd; simpl; [intros [= <-]; by exists outs|].
  destruct (read_item (es 0%nat) c) as [c1|] eqn:E; [|done]. intros Hn.
  destruct (read_item_run (es 0%nat) c c1 ins outs) as (Hrd1 & outs1 & Hrun1); try done.
  by apply (IH (fun i => es (S i)) c1 c' ins outs1).
Qed.

(** A read of a ring with complete segments: a part of the oldest segment, or its
    end, which wakes the writer. *)
Lemma read_item_ring e c k c0 c1 c2 z0 z1 z2 seg :
  healthy e -> ring_ok (el c) k 0 c0 c1 c2 z0 z1 z2 -> 0 < k -> hls_srcresult (el c) = GST_FLOW_OK ->
  up c = Blocked seg ->
  exists c' k' d0 d1 d2 y0 y1 y2, read_item e c = Some c' /\ ring_ok (el c') k' 0 d0 d1 d2 y0 y1 y2 /\
    hls_srcresult (el c') = GST_FLOW_OK /\ cache_write_index (el c') = cache_write_index (el c) /\
    ((k' = k /\ cache_read_index (el c') = cache_read_index (el c) /\ window d0 = window c0 /\ rpos c0 < rpos d0 /\
      up c' = Blocked seg) \/
     (k' = k - 1 /\ cache_read_index (el c') = Z.rem (cache_read_index (el c) + 1) NUM_OF_CACHED_SEGMENTS /\
      up c' = Woken seg)).
Proof.
  intros He Hr Hk Hres Hu. pose proof Hr as [Hri _ _ _ _ _ _ [Hok Hs0] _ _].
  rewrite (proj2 (Z.ltb_lt 0 k) Hk) in Hs0. destruct Hs0 as (Hz & Hlt & _ & _ & Hlen).
  destruct (hls_read_ring e (el c) k 0 c0 c1 c2 z0 z1 z2) as
    (q & o & k' & d0 & d1 & d2 & y0 & y1 & y2 & E & _ & Hring & Hflags & _ & Hcase & Hsig); try done.
  { destruct (0 =? k - 1); lia. }
  unfold flags in Hflags. injection Hflags as F1 F2 F3 F4.
  assert (Hit : hls_loop_item e (el c) = Some (HlsPush, q, o)).
  { rewrite (hls_item_eq e (el c) k 0 c0 c1 c2 z0 z1 z2 Hr), law_has_data, (proj2 (Z.ltb_lt _ _))
      by (done || destruct (0 =? k - 1); lia). by rewrite bool_decide_eq_true_2. }
  exists (mkConf (set_hls_srcresult GST_FLOW_OK q) (wake_writer o (up c)) Idle), k', d0, d1, d2, y0, y1, y2. split.
  { unfold read_item, hls_loop_pushed, hls_loop_return. rewrite Hit.
    cbv beta iota zeta delta [mbind act_bind mret act_ret gets assign]. rewrite F2, Hres. simpl.
    rewrite Hu. simpl. by destruct (signals_del o). }
  split; [by eapply ring_ok_ext; [|exact Hring]|]. simpl. split_and!; try done. rewrite Hu. simpl. rewrite Hsig.
  destruct Hcase as [(-> & ? & ? & ?)|(-> & ?)].
  - left. rewrite Z.ltb_irrefl. by split_and!.
  - right. rewrite (proj2 (Z.ltb_lt (k - 1) k)) by lia. by split_and!.
Qed.

Lemma oldest_read m : forall es c k c0 c1 c2 z0 z1 z2 seg,
  (forall i, healthy (es i)) -> ring_ok (el c) k 0 c0 c1 c2 z0 z1 z2 -> 0 < k -> hls_srcresult (el c) = GST_FLOW_OK ->
  up c = Blocked seg -> (Z.to_nat (alen (window c0) - rpos c0) <= m)%nat ->
  exists n c', (n <= m)%nat /\ read_items n es c = Some c' /\ up c' = Woken seg /\
    hls_srcresult (el c') = GST_FLOW_OK /\ cache_write_index (el c') = cache_write_index (el c) /\
    cache_read_index (el c') = Z.rem (cache_read_index (el c) + 1) NUM_OF_CACHED_SEGMENTS /\
    exists d0 d1 d2 y0 y1 y2, ring_ok (el c') (k - 1) 0 d0 d1 d2 y0 y1 y2.
Proof.
  induction m as [|m IH]; intros es c k c0 c1 c2 z0 z1 z2 seg He Hr Hk Hres Hu Hm;
    pose proof Hr as [Hri _ _ _ _ _ _ [Hok Hs0] _ _]; rewrite (proj2 (Z.ltb_lt 0 k) Hk) in Hs0;
    destruct Hs0 as (Hz & Hlt & _ & _ & Hlen); [destruct (0 =? k - 1); lia|].
  destruct (read_item_ring (es 0%nat) c k c0 c1 c2 z0 z1 z2 seg) as
    (c' & k' & d0 & d1 & d2 & y0 & y1 & y2 & E & Hring & Hres' & Hw & Hcase); try done.
  destruct Hcase as [(-> & Er & Ew & Hp & Hu')|(-> & Er & Hu')].
  - destruct (IH (fun i => es (S i)) c' k d0 d1 d2 y0 y1 y2 seg) as (n & c2' & Hn & Eq & R1 & R2 & R3 & R4 & R5); try done.
    { rewrite Ew. destruct (0 =? k - 1); lia. }
    exists (S n), c2'. split; [lia|]. simpl. rewrite E. split_and!; try done; congruence.
  - exists 1%nat, c'. split; [lia|]. simpl. rewrite E. split_and!; try done. by exists d0, d1, d2, y0, y1, y2.
Qed.

End machine.

(** ** A run on POSIX caches *)

Definition two_bytes : GstSegment := mkGstSegment 0 (double_of_int 1) GST_FORMAT_BYTES 0 2 0 0.
Definition three_caches : list creation := [all_created; all_created; all_created].

Lemma two_bytes_ok : segment_ok two_bytes.
Proof. split; [reflexivity|compute_true]. Qed.

(** Extend a run by a step of upstream, or by a call of the task. *)
Ltac by_run := lazy; reflexivity.
Ltac segment_checked R := eapply RunStep in R;
  [|eapply (StepSegment _ two_bytes true true); [reflexivity|reflexivity|exact two_bytes_ok|by_run]].
Ltac segment_goes_on R := eapply RunStep in R; [|eapply (StepPiece _ true true two_bytes); [reflexivity|reflexivity|by_run]].
Ltac segment_arrives R := segment_checked R; do 2 segment_goes_on R.
Ltac buffer_arrives R b := eapply RunStep in R;
  [|eapply (StepChain _ io_complete b 2); [reflexivity|exact io_complete_healthy|reflexivity|compute_true|discriminate|reflexivity|by_run]].
Ltac task_item R e He := eapply RunStep in R; [|apply StepCall; reflexivity];
  eapply RunStep in R; [|eapply (StepItem _ e); [exact He|reflexivity|by_run]].
Ltac task_reads R := task_item R io_complete io_complete_healthy;
  eapply RunStep in R; [|eapply (StepPushed _ GST_FLOW_OK); [reflexivity|left; reflexivity|by_run]];
  eapply RunStep in R; [|eapply StepReturn; [reflexivity|by_run]].
Ltac ring_empty R :=
  assert (R : run (mkConf (hls_progress_buffer_init three_caches : HLSProgressBuffer CachePosix.Cache) (Sending 0) Idle) [] [])
    by (apply RunInit; [repeat constructor; by eexists|reflexivity]).
Ltac ring_filled R :=
  ring_empty R;
  segment_arrives R; buffer_arrives R (mkGstBuffer 0 [1; 2]);
  segment_arrives R; buffer_arrives R (mkGstBuffer 0 [3; 4]);
  segment_arrives R; buffer_arrives R (mkGstBuffer 0 [5; 6]); segment_checked R; segment_goes_on R.

(** Three segments have arrived and fill the ring, the fourth waits. *)
Lemma ring_full : exists c : conf, run c [1; 2; 3; 4; 5; 6] [] /\ up c = Blocked two_bytes /\ rd c = Idle /\
  hls_srcresult (el c) = GST_FLOW_OK.
Proof. ring_filled R. do 2 segment_goes_on R. eexists. split; [exact R|]. split_and!; reflexivity. Qed.


(** Before the fourth segment has chosen its cache. *)
Lemma ring_opened : exists c : conf, run c [1; 2; 3; 4; 5; 6] [] /\ up c = Opened two_bytes.
Proof. ring_filled R. eexists. split; [exact R|reflexivity]. Qed.

Lemma hls_pieces_return_witness : exists c : conf, run c [1; 2; 3; 4; 5; 6] [] /\ is_Some (segment_next two_bytes (el c)).
Proof.
  destruct ring_opened as (c & R & Hu). exists c. split; [exact R|].
  apply (proj1 (proj2 (proj2 (hls_pieces_return c _ _ io_complete R io_complete_healthy))) true true two_bytes).
  rewrite Hu. reflexivity.
Defined.


(** ** Where the element does not do what it means to *)

(** The task has read the three segments while the writer was posting its FULL
    message: their signals are lost, the writer waits for a signal of the task and
    the task for bytes of the writer, although all caches are free.  Nothing more
    happens, unless a wait ends without a signal. *)
Example writer_stuck : exists (c : conf) (p : HLSProgressBuffer CachePosix.Cache),
  run c [1; 2; 3; 4; 5; 6] [1; 2; 3; 4; 5; 6] /\ c = mkConf p (Blocked two_bytes) Waiting /\
  cache_write_ready p = [true; true; true] /\
  forall i o c', step c i o c' -> c' = mkConf p (Woken two_bytes) Waiting \/ c' = mkConf p (Blocked two_bytes) Item.
Proof.
  ring_filled R. segment_goes_on R. do 3 task_reads R. task_item R io_complete io_complete_healthy.
  segment_goes_on R. eexists _, _. split; [exact R|]. split; [reflexivity|]. split; [reflexivity|]. clear R.
  intros i o c' Hs. inversion Hs; subst; simpl in *; try discriminate; [left|right]; congruence.
Qed.

(** Upstream goes on after its EOS while the task is at the end of the stream:
    [srcresult] is set to FLUSHING after the SEGMENT event has set it to OK, and
    from then on buffers are accepted and thrown away. *)
Example restart_lost : exists c : conf (Cache := CachePosix.Cache),
  run c [1; 2] [1; 2] /\ up c = Sending 2 /\ is_eos (el c) = false /\
  hls_progress_buffer_chain io_complete (mkGstBuffer 0 [3; 4]) (el c) = Some (GST_FLOW_OK, el c, []).
Proof.
  ring_empty R. segment_arrives R. buffer_arrives R (mkGstBuffer 0 [1; 2]). task_reads R.
  eapply RunStep in R; [|eapply (StepEos _ 0 true true); [reflexivity|reflexivity|by_run]]. segment_checked R.
  task_item R io_complete io_complete_healthy. segment_goes_on R.
  eapply RunStep in R; [|eapply StepEnded; [reflexivity|by_run]]. segment_goes_on R.
  eexists. split; [exact R|]. split_and!; [reflexivity|reflexivity|by_run].
Qed.

(** Downstream refuses a buffer when a SEGMENT event has passed the test of
    [srcresult] and has not yet chosen its cache: the wait loop is skipped, and
    the oldest cache, of which one byte has not been read, is rewound. *)
Example cache_overwritten : exists (c : conf) (p q : HLSProgressBuffer CachePosix.Cache) r o o',
  run c [1; 2; 3; 4; 5; 6] [1] /\ up c = Opened two_bytes /\ rd c = Pushing /\
  hls_loop_pushed GST_FLOW_ERROR (el c) = Some (r, p, o) /\ cache_write_ready p = [false; false; false] /\
  segment_next two_bytes p = Some (SegmentInstalled, q, o') /\
  match caches p, caches q with
  | Some c0 :: _, Some c0' :: _ => rest c0 = [2] /\ rest c0' = []
  | _, _ => False
  end.
Proof.
  ring_filled R. task_item R short_reads short_reads_healthy. eexists _, _, _, _, _, _. split; [exact R|]. clear R.
  split_and!; [reflexivity|reflexivity|by_run|reflexivity|by_run|]. split; reflexivity.
Qed.

(** A buffer that comes before a segment has been installed is written to
    [cache[-1]]: so after a segment event that was answered with success but
    ignored because it is empty. *)
Example buffer_without_segment :
  let empty := mkGstSegment 0 (double_of_int 1) GST_FORMAT_BYTES 0 0 0 0 in
  let p0 : HLSProgressBuffer CachePosix.Cache := hls_progress_buffer_init three_caches in
  hls_progress_buffer_sink_event (EventSegment empty) true true p0 = Some (SegmentChecked, p0, []) /\
  exists p o, segment_open empty true true p0 = Some (SinkReturn true, p, o) /\
    hls_progress_buffer_chain io_complete (mkGstBuffer 0 [1]) p = None.
Proof. split; [by_run|]. eexists _, _. split; [by_run|]. by_run. Qed.

(** A cache that could not be created is a null pointer that nothing checks. *)
Example no_cache :
  let failed := mkCreation true true false true true in
  hls_loop_item io_complete
    (hls_progress_buffer_init [failed; failed; failed] : HLSProgressBuffer CachePosix.Cache) = None.
Proof. reflexivity. Qed.

(** A failed read hands a null buffer to [gst_pad_push]. *)
Example null_buffer_pushed :
  let p : HLSProgressBuffer CachePosix.Cache :=
    mkHLS [Some (mkCache [1; 2] 2 0 0 2); None; None] [2; 0; 0] [false; true; true] 0 0 false false false GST_FLOW_OK in
  hls_loop_item disk_full p = None.
Proof. reflexivity. Qed.
