(* ===== verification/StreamCallbacks.v ===== *)
(** * Where the Java source gets its data from

    jfxmedia/Locator/LocatorStream.h declares [CStreamCallbacks], the operations
    the signals of the source element end in; jni/JavaInputStreamCallbacks.cpp
    implements them by calls to a Java [ConnectionHolder]; the holders of
    ConnectionHolder.java read from memory, a file or an HTTP connection.
    [StreamCallbacks] is the interface, [StreamLaws] what its comments promise;
    the file and HTTP holders satisfy it, seen through the JNI layer. *)

From S2P Require Import Prelude GstModel MediaCache.

Definition EOS_CODE : Z := -1.
Definition OTHER_ERROR_CODE : Z := -2.

(** ** The interface *)

(** [CStreamCallbacks].  [CopyBlock c n] is what the destination of [n] bytes holds
    afterwards, [None] when bytes are read outside the Java buffer or left
    uninitialised. *)
Class StreamCallbacks (C : Type) := {
  NeedBuffer : C -> bool;
  ReadNextBlock : C -> Z * C;
  ReadBlock : C -> Z -> Z -> Z * C;
  CopyBlock : C -> Z -> option (list Z);
  IsSeekable : C -> bool;
  IsRandomAccess : C -> bool;
  Seek : C -> Z -> Z * C;
  CloseConnection : C -> C;
  Property : C -> Z -> Z -> Z * C;
  GetStreamSize : C -> Z * C }.

(** What a connection promises.  It carries [content]; [at_offset] is how far it
    has been read.  A block read is the next bytes; a connection either seeks to
    every offset of its content or to none, and a seek that is refused leaves it
    where it was.  A [reliable] connection yields data until its end. *)
Class StreamLaws (C : Type) `{StreamCallbacks C} := {
  is_open : C -> Prop;
  reliable : C -> Prop;
  content : C -> list Z;
  at_offset : C -> Z;
  seeks : C -> bool;
  stream_offset : forall c, is_open c -> 0 <= at_offset c <= alen (content c);
  stream_next : forall c n c', is_open c -> ReadNextBlock c = (n, c') ->
    is_open c' /\ content c' = content c /\ seeks c' = seeks c /\
    if 0 <? n then n < 2 ^ 31 /\ at_offset c' = at_offset c + n /\
      at_offset c + n <= alen (content c) /\ CopyBlock c' n = Some (slice (content c) (at_offset c) n)
    else at_offset c' = at_offset c;
  stream_seek : forall c pos n c', is_open c -> 0 <= pos < alen (content c) -> pos < 2 ^ 63 -> Seek c pos = (n, c') ->
    is_open c' /\ content c' = content c /\ seeks c' = seeks c /\
    if seeks c then n = pos /\ at_offset c' = pos else n = -1 /\ at_offset c' = at_offset c;
  stream_reliable : forall c n c', is_open c -> reliable c -> ReadNextBlock c = (n, c') ->
    reliable c' /\ if at_offset c <? alen (content c) then 0 < n else n = EOS_CODE }.

(** What a random access connection promises of [ReadBlock]: inside the content some
    of the bytes asked for, at its end nothing or EOS. *)
Class BlockLaws (C : Type) `{StreamCallbacks C} := {
  blocks_open : C -> Prop;
  block_content : C -> list Z;
  block_read : forall c pos n r c', blocks_open c -> 0 <= pos < 2 ^ 31 -> 0 < n < 2 ^ 31 -> ReadBlock c pos n = (r, c') ->
    blocks_open c' /\ block_content c' = block_content c /\
    if pos <? alen (block_content c) then 0 < r <= n /\ pos + r <= alen (block_content c) /\
      CopyBlock c' r = Some (slice (block_content c) pos r)
    else r = EOS_CODE \/ r = 0 /\ CopyBlock c' 0 = Some [] }.

(** Documented of [readBlock]: at the end of the stream it returns -1. *)
Definition ends_with_eos {C} `{BlockLaws C} (c : C) : Prop :=
  forall pos n, alen (block_content c) <= pos < 2 ^ 31 -> 0 < n < 2 ^ 31 -> fst (ReadBlock c pos n) = EOS_CODE.

(** ** The JNI layer *)

(** A Java method returns or throws. *)
Inductive java (A : Type) := Returns (a : A) | Throws.
Arguments Returns {A} _.
Arguments Throws {A}.

(** The methods of [ConnectionHolder]; [buffer] is what is found from the
    address of its direct byte buffer on. *)
Class ConnectionHolder (H : Type) := {
  buffer : H -> list Z;
  needBuffer : H -> bool;
  isSeekable : H -> bool;
  isRandomAccess : H -> bool;
  readNextBlock : H -> java Z * H;
  readBlock : H -> Z -> Z -> java Z * H;
  seek : H -> Z -> java Z * H;
  closeConnection : H -> java unit * H;
  property : H -> Z -> Z -> java Z * H;
  getStreamSize : H -> java Z * H }.

Section jni.
Context {H : Type} `{ConnectionHolder H}.

(** [m_ConnectionHolder] is the global reference; [env] says whether the thread
    has a JNI environment, [ref] whether a local reference can be made, [pending]
    is what a call returns when an exception is pending, which JNI leaves open. *)
Record CJavaInputStreamCallbacks := mkCallbacks {
  m_ConnectionHolder : option H; env : bool; ref : bool; pending : Z }.

Definition with_holder (cb : CJavaInputStreamCallbacks) (h : H) : CJavaInputStreamCallbacks :=
  mkCallbacks (Some h) (env cb) (ref cb) (pending cb).

(** [NewLocalRef (m_ConnectionHolder)]. *)
Definition connection (cb : CJavaInputStreamCallbacks) : option H :=
  if env cb && ref cb then m_ConnectionHolder cb else None.

(** The shape of the calls: [none] without an environment or a connection, [thrown]
    after an exception. *)
Definition call {A} (cb : CJavaInputStreamCallbacks) (m : H -> java A * H) (none thrown : A)
  : A * CJavaInputStreamCallbacks :=
  match connection cb with
  | Some h =>
      match m h with
      | (Returns a, h) => (a, with_holder cb h)
      | (Throws, h) => (thrown, with_holder cb h)
      end
  | None => (none, cb)
  end.

Definition CJ_NeedBuffer cb : bool := fst (call cb (fun h => (Returns (needBuffer h), h)) false false).
Definition CJ_IsSeekable cb : bool := fst (call cb (fun h => (Returns (isSeekable h), h)) false false).
Definition CJ_IsRandomAccess cb : bool := fst (call cb (fun h => (Returns (isRandomAccess h), h)) false false).
Definition CJ_ReadNextBlock cb : Z * CJavaInputStreamCallbacks := call cb readNextBlock (-1) (-2).
Definition CJ_ReadBlock cb (position size : Z) : Z * CJavaInputStreamCallbacks :=
  call cb (fun h => readBlock h (i64 position) (i32 size)) (-1) (-2).
Definition CJ_Seek cb (position : Z) : Z * CJavaInputStreamCallbacks :=
  call cb (fun h => seek h (i64 position)) (-1) (pending cb).
Definition CJ_Property cb (prop value : Z) : Z * CJavaInputStreamCallbacks :=
  call cb (fun h => property h prop value) 0 (pending cb).
Definition CJ_GetStreamSize cb : Z * CJavaInputStreamCallbacks := call cb getStreamSize 0 (pending cb).

(** [memcpy (destination, data, size)]. *)
Definition CJ_CopyBlock cb (size : Z) : option (list Z) :=
  h ← connection cb;
  if (0 <=? size) && (size <=? alen (buffer h)) then Some (slice (buffer h) 0 size) else None.

Definition CJ_CloseConnection cb : CJavaInputStreamCallbacks :=
  let '(_, cb') := call cb closeConnection tt tt in
  if env cb then mkCallbacks None (env cb) (ref cb) (pending cb) else cb'.

#[global] Instance CJava : StreamCallbacks CJavaInputStreamCallbacks := {|
  NeedBuffer := CJ_NeedBuffer; ReadNextBlock := CJ_ReadNextBlock; ReadBlock := CJ_ReadBlock; CopyBlock := CJ_CopyBlock;
  IsSeekable := CJ_IsSeekable; IsRandomAccess := CJ_IsRandomAccess; Seek := CJ_Seek;
  CloseConnection := CJ_CloseConnection; Property := CJ_Property; GetStreamSize := CJ_GetStreamSize |}.
End jni.

Arguments CJavaInputStreamCallbacks : clear implicits.
