(* ===== verification/ConnectionHolders.v ===== *)
(** * The connection holders

    locator/ConnectionHolder.java: the holders that read a file, a block of memory
    and an HTTP connection.  The bytes behind a channel are a list; [share n] is
    how many of [n] bytes one read transfers.  A direct byte buffer is the list of
    the bytes from its address on. *)

From S2P Require Import Prelude GstModel MediaCache StreamCallbacks.

Definition DEFAULT_BUFFER_SIZE : Z := 4096.

(** [n] bytes put at the start of a byte buffer. *)
Definition put_bytes (bytes buf : list Z) : list Z := bytes ++ drop (length bytes) buf.

(** ** A channel of bytes and the buffer of the base class

    [channel] is the position of the open channel, [None] after it was closed. *)
Record Channel := mkChannel { data : list Z; channel : option Z; bytebuffer : list Z; share : Z -> Z }.

Definition with_channel (ch : option Z) (c : Channel) : Channel := mkChannel (data c) ch (bytebuffer c) (share c).
Definition with_buffer (b : list Z) (c : Channel) : Channel := mkChannel (data c) (channel c) b (share c).

(** [ReadableByteChannel.read (buffer)], [n] bytes of the buffer being free: the
    bytes at the position, -1 at the end. *)
Definition channel_read (c : Channel) (pos n : Z) : Z * Channel :=
  if alen (data c) <=? pos then (-1, c)
  else
    let k := share c (Z.min n (alen (data c) - pos)) in
    (k, with_buffer (put_bytes (slice (data c) pos k) (bytebuffer c)) c).

(** [ConnectionHolder.readNextBlock]. *)
Definition base_readNextBlock (c : Channel) : java Z * Channel :=
  match channel c with
  | None => (Throws, c)
  | Some pos =>
      let '(n, c) := channel_read c pos (alen (bytebuffer c)) in
      (Returns n, with_channel (Some (pos + Z.max n 0)) c)
  end.

(** ** FileConnectionHolder *)

Record FileHolder := mkFileHolder { file_channel : Channel }.

Definition FileHolder_open (bytes : list Z) (sh : Z -> Z) : FileHolder :=
  mkFileHolder (mkChannel bytes (Some 0) (replicate (Z.to_nat DEFAULT_BUFFER_SIZE) 0) sh).

(** [FileChannel.position] rejects negative positions; a closed holder has a null
    channel. *)
Definition file_seek (h : FileHolder) (position : Z) : java Z * FileHolder :=
  match channel (file_channel h) with
  | None => (Throws, h)
  | Some _ =>
      if position <? 0 then (Throws, h)
      else (Returns position, mkFileHolder (with_channel (Some position) (file_channel h)))
  end.

Definition file_readBlock (h : FileHolder) (position size : Z) : java Z * FileHolder :=
  let c := file_channel h in
  match channel c with
  | None => (Throws, h)
  | Some _ =>
      let c := if alen (bytebuffer c) <? size then with_buffer (replicate (Z.to_nat size) 0) c else c in
      if (size <? 0) || (position <? 0) then (Throws, mkFileHolder c)
      else let '(n, c) := channel_read c position size in (Returns n, mkFileHolder c)
  end.

#[global] Instance FileConnectionHolder : ConnectionHolder FileHolder := {|
  buffer h := bytebuffer (file_channel h);
  needBuffer _ := false; isSeekable _ := true; isRandomAccess _ := true;
  readNextBlock h := let '(r, c) := base_readNextBlock (file_channel h) in (r, mkFileHolder c);
  readBlock := file_readBlock;
  seek := file_seek;
  closeConnection h := (Returns tt, mkFileHolder (with_channel None (file_channel h)));
  property h _ _ := (Returns 0, h);
  getStreamSize h := (Returns (-1), h) |}.

(** ** URIConnectionHolder over HTTP

    [partial]: the server answers a range request with 206; [reopens]: the stream
    of the new connection can be opened.  A range that starts at or beyond the end
    is not satisfiable. *)
Record HttpHolder := mkHttpHolder { http_channel : Channel; partial : bool; reopens : bool }.

Definition HttpHolder_open (bytes : list Z) (sh : Z -> Z) (partial : bool) : HttpHolder :=
  mkHttpHolder (mkChannel bytes (Some 0) (replicate (Z.to_nat DEFAULT_BUFFER_SIZE) 0) sh) partial true.

Definition http_seek (h : HttpHolder) (position : Z) : java Z * HttpHolder :=
  let c := http_channel h in
  if partial h && (0 <=? position) && (position <? alen (data c)) then
    if reopens h then (Returns position, mkHttpHolder (with_channel (Some position) c) (partial h) (reopens h))
    else (Returns (-1), mkHttpHolder (with_channel None c) (partial h) (reopens h))
  else (Returns (-1), h).

#[global] Instance URIConnectionHolder : ConnectionHolder HttpHolder := {|
  buffer h := bytebuffer (http_channel h);
  needBuffer _ := true; isSeekable _ := true; isRandomAccess _ := false;
  readNextBlock h := let '(r, c) := base_readNextBlock (http_channel h) in (r, mkHttpHolder c (partial h) (reopens h));
  readBlock h _ _ := (Throws, h);
  seek := http_seek;
  closeConnection h := (Returns tt, mkHttpHolder (with_channel None (http_channel h)) (partial h) (reopens h));
  property h _ _ := (Returns 0, h);
  getStreamSize h := (Returns (-1), h) |}.

(** ** MemoryConnectionHolder

    [backing] is the memory; [position] and [limit] are those of the backing
    buffer, whose capacity is its length. *)
Record MemoryHolder := mkMemoryHolder {
  backing : list Z; position : Z; limit : Z; slice_buffer : list Z; mem_open : bool }.

Definition MemoryHolder_open (bytes : list Z) : MemoryHolder :=
  mkMemoryHolder bytes 0 (alen bytes) (replicate (Z.to_nat DEFAULT_BUFFER_SIZE) 0) true.

(** [backingBuffer.slice ()] when its position is [p]. *)
Definition backing_slice (h : MemoryHolder) (p : Z) : list Z := slice (backing h) p (limit h - p).

(** The channel of the constructor: the buffer it is handed is the holder's own. *)
Definition memory_readNextBlock (h : MemoryHolder) : java Z * MemoryHolder :=
  if negb (mem_open h) then (Throws, h)
  else
    let remaining := limit h - position h in
    if remaining <=? 0 then (Returns (-1), h)
    else
      let actual := Z.min DEFAULT_BUFFER_SIZE remaining in
      (Returns actual, mkMemoryHolder (backing h) (position h) (limit h) (backing_slice h (position h)) (mem_open h)).

Definition memory_readBlock (h : MemoryHolder) (pos size : Z) : java Z * MemoryHolder :=
  if negb (mem_open h) then (Throws, h)
  else if i32 pos >? alen (backing h) then (Returns (-1), h)
  else if (i32 pos <? 0) || (i32 pos >? limit h) then (Throws, h)
  else
    let b := backing_slice h (i32 pos) in
    let actual := Z.min (limit h - i32 pos) size in
    if actual <? 0 then (Throws, mkMemoryHolder (backing h) (i32 pos) (limit h) b (mem_open h))
    else (Returns actual, mkMemoryHolder (backing h) (i32 pos + actual) (limit h) b (mem_open h)).

Definition memory_seek (h : MemoryHolder) (pos : Z) : java Z * MemoryHolder :=
  if i32 pos <? alen (backing h) then
    if i32 pos <? 0 then (Throws, mkMemoryHolder (backing h) (position h) (alen (backing h)) (slice_buffer h) (mem_open h))
    else (Returns pos, mkMemoryHolder (backing h) (i32 pos) (alen (backing h)) (slice_buffer h) (mem_open h))
  else (Returns (-1), h).

#[global] Instance MemoryConnectionHolder : ConnectionHolder MemoryHolder := {|
  buffer := slice_buffer;
  needBuffer _ := false; isSeekable _ := true; isRandomAccess _ := true;
  readNextBlock := memory_readNextBlock;
  readBlock := memory_readBlock;
  seek := memory_seek;
  closeConnection h := (Returns tt, mkMemoryHolder (backing h) (position h) (limit h) (slice_buffer h) false);
  property h _ _ := (Returns 0, h);
  getStreamSize h := (Returns (-1), h) |}.

(** ** The laws, for the holders that read a channel *)

Lemma put_bytes_slice bytes buf n :
  alen bytes = n -> n <= alen buf -> slice (put_bytes bytes buf) 0 n = bytes /\ alen (put_bytes bytes buf) = alen buf.
Proof.
  unfold put_bytes, slice, alen. intros <- Hn. rewrite drop_0, Nat2Z.id, take_app_length. split; [done|].
  rewrite length_app, length_drop. lia.
Qed.

Record channel_ok (c : Channel) (pos : Z) : Prop := {
  ok_channel : channel c = Some pos;
  ok_pos : 0 <= pos <= alen (data c);
  ok_buffer : 0 < alen (bytebuffer c) < 2 ^ 31;
  ok_share : forall n, 0 <= n -> 0 <= share c n <= n }.

(** One block: the next bytes of the channel, at the start of the buffer. *)
Lemma base_next c pos : channel_ok c pos ->
  exists n c', base_readNextBlock c = (Returns n, c') /\ data c' = data c /\ share c' = share c /\
    channel_ok c' (pos + Z.max n 0) /\ n < 2 ^ 31 /\
    (if pos <? alen (data c) then n = share c (Z.min (alen (bytebuffer c)) (alen (data c) - pos)) else n = -1) /\
    (0 < n -> n <= alen (bytebuffer c') /\ slice (bytebuffer c') 0 n = slice (data c) pos n).
Proof.
  intros [Hc Hp Hb Hs]. unfold base_readNextBlock, channel_read. rewrite Hc.
  destruct (Z.leb_spec (alen (data c)) pos) as [Hend|Hmore].
  - eexists _, _. split; [reflexivity|]. rewrite (proj2 (Z.ltb_ge _ _)) by lia.
    repeat split; cbn; try lia; try done; try apply Hs; try lia.
  - pose proof (Hs (Z.min (alen (bytebuffer c)) (alen (data c) - pos)) ltac:(lia)) as Hk.
    set (k := share c _) in *. eexists _, _. split; [reflexivity|]. rewrite (proj2 (Z.ltb_lt _ _)) by lia.
    destruct (put_bytes_slice (slice (data c) pos k) (bytebuffer c) k) as [E1 E2]; [apply slice_len; lia|lia|].
    repeat split; cbn; rewrite ?E2; try lia; try done; try apply Hs; try lia.
Qed.

Section channel_laws.
Context {H : Type} `{ConnectionHolder H} (chan : H -> Channel) (ranges : H -> bool).

(** A connection through the JNI layer whose holder reads [chan h]. *)
Definition connected (cb : CJavaInputStreamCallbacks H) (P : H -> Prop) : Prop :=
  env cb = true /\ ref cb = true /\ exists h pos, m_ConnectionHolder cb = Some h /\ channel_ok (chan h) pos /\ P h.

Definition holder_at {A} (f : H -> A) (none : A) (cb : CJavaInputStreamCallbacks H) : A :=
  match m_ConnectionHolder cb with Some h => f h | None => none end.

Definition cb_content : CJavaInputStreamCallbacks H -> list Z := holder_at (fun h => data (chan h)) [].
Definition cb_offset : CJavaInputStreamCallbacks H -> Z := holder_at (fun h => default 0 (channel (chan h))) 0.
Definition cb_seeks : CJavaInputStreamCallbacks H -> bool := holder_at ranges false.
Definition cb_reliable (cb : CJavaInputStreamCallbacks H) : Prop :=
  forall n, 0 < n -> 0 < holder_at (fun h => share (chan h)) (fun _ => 0) cb n.

Context (P : H -> Prop).
Hypothesis next_chan : forall h, exists f, readNextBlock h = (fst (base_readNextBlock (chan h)), f) /\
  chan f = snd (base_readNextBlock (chan h)) /\ ranges f = ranges h /\ (P h -> P f) /\ buffer f = bytebuffer (chan f).
Hypothesis seek_chan : forall h pos q, channel_ok (chan h) q -> P h -> 0 <= pos < alen (data (chan h)) ->
  exists f, seek h pos = (Returns (if ranges h then pos else -1), f) /\ P f /\ ranges f = ranges h /\
    chan f = if ranges h then with_channel (Some pos) (chan h) else chan h.

Lemma channel_next cb n cb' : connected cb P -> CJ_ReadNextBlock cb = (n, cb') ->
  connected cb' P /\ cb_content cb' = cb_content cb /\ cb_seeks cb' = cb_seeks cb /\
  (if 0 <? n then n < 2 ^ 31 /\ cb_offset cb' = cb_offset cb + n /\ cb_offset cb + n <= alen (cb_content cb) /\
     CJ_CopyBlock cb' n = Some (slice (cb_content cb) (cb_offset cb) n)
   else cb_offset cb' = cb_offset cb) /\
  (cb_reliable cb -> cb_reliable cb' /\ if cb_offset cb <? alen (cb_content cb) then 0 < n else n = EOS_CODE).
Proof.
  intros (He & Hr & h & pos & Hh & Hok & HP). destruct (next_chan h) as (f & Ef & Ec & Er & HPf & Eb).
  destruct (base_next _ _ Hok) as (k & c' & E & Ed & Es & Hok' & Hk & Hn & Hcopy). rewrite E in Ef, Ec. cbn in Ef, Ec. subst c'.
  unfold CJ_ReadNextBlock, call, connection. rewrite He, Hr, Hh. cbn [andb]. rewrite Ef. intros [= <- <-].
  unfold cb_content, cb_seeks, cb_offset, cb_reliable, holder_at, CJ_CopyBlock, connection. cbn. rewrite Hh, Ed, He, Hr, Es.
  cbn. rewrite (ok_channel _ _ Hok), (ok_channel _ _ Hok'). cbn.
  split; [|split; [done|split; [done|split]]].
  - split; [done|split; [done|]]. exists f, (pos + Z.max k 0). auto.
  - pose proof (ok_pos _ _ Hok') as Hp. rewrite Ed in Hp. destruct (Z.ltb_spec 0 k); [|lia].
    destruct Hcopy as [Hl Hcp]; [done|]. rewrite Eb, (proj2 (Z.leb_le 0 k)), (proj2 (Z.leb_le _ _) Hl), Hcp by lia. repeat split; try lia.
  - intros Hrel. split; [done|]. destruct (Z.ltb_spec pos (alen (data (chan h)))); [|done].
    subst k. apply Hrel. pose proof (ok_buffer _ _ Hok). lia.
Qed.

Lemma channel_seek cb pos n cb' : connected cb P -> 0 <= pos < alen (cb_content cb) -> pos < 2 ^ 63 -> CJ_Seek cb pos = (n, cb') ->
  connected cb' P /\ cb_content cb' = cb_content cb /\ cb_seeks cb' = cb_seeks cb /\
  if cb_seeks cb then n = pos /\ cb_offset cb' = pos else n = -1 /\ cb_offset cb' = cb_offset cb.
Proof.
  intros (He & Hr & h & q & Hh & Hok & HP) Hpos Hb.
  unfold cb_content, cb_seeks, cb_offset, holder_at, CJ_Seek, call, connection in *. rewrite Hh in Hpos.
  rewrite He, Hr, Hh, (i64_id pos) by (unfold in_i64; lia). cbn [andb].
  destruct (seek_chan h pos q Hok HP Hpos) as (f & Ef & HPf & Er & Ec). rewrite Ef. intros [= <- <-]. cbn. rewrite Er, Ec.
  destruct (ranges h); cbn; (split; [|done]); (split; [done|split; [done|]]).
  - exists f, pos. split; [done|]. split; [|done]. rewrite Ec. destruct Hok. split; cbn; auto; lia.
  - exists f, q. by rewrite Ec.
Qed.
End channel_laws.

(** ** Instances *)

Lemma file_next (h : FileHolder) : exists f, readNextBlock h = (fst (base_readNextBlock (file_channel h)), f) /\
  file_channel f = snd (base_readNextBlock (file_channel h)) /\ true = true /\ (True -> True) /\
  buffer f = bytebuffer (file_channel f).
Proof. cbn. destruct (base_readNextBlock _) as [r c]. by exists (mkFileHolder c). Qed.

Lemma file_seek_chan (h : FileHolder) pos q :
  channel_ok (file_channel h) q -> True -> 0 <= pos < alen (data (file_channel h)) ->
  exists f, seek h pos = (Returns pos, f) /\ True /\ true = true /\ file_channel f = with_channel (Some pos) (file_channel h).
Proof.
  intros Hok _ Hpos. cbn. unfold file_seek. rewrite (ok_channel _ _ Hok), (proj2 (Z.ltb_ge _ _)) by lia.
  by eexists.
Qed.

Lemma http_next (h : HttpHolder) : exists f, readNextBlock h = (fst (base_readNextBlock (http_channel h)), f) /\
  http_channel f = snd (base_readNextBlock (http_channel h)) /\ partial f = partial h /\
  (reopens h = true -> reopens f = true) /\ buffer f = bytebuffer (http_channel f).
Proof. cbn. destruct (base_readNextBlock _) as [r c]. by exists (mkHttpHolder c (partial h) (reopens h)). Qed.

Lemma http_seek_chan (h : HttpHolder) pos q :
  channel_ok (http_channel h) q -> reopens h = true -> 0 <= pos < alen (data (http_channel h)) ->
  exists f, seek h pos = (Returns (if partial h then pos else -1), f) /\ reopens f = true /\ partial f = partial h /\
    http_channel f = if partial h then with_channel (Some pos) (http_channel h) else http_channel h.
Proof.
  intros Hok Hr Hpos. cbn. unfold http_seek. rewrite Hr, (proj2 (Z.leb_le _ _)), (proj2 (Z.ltb_lt _ _)) by lia.
  destruct (partial h) eqn:Hp; cbn [andb]; eexists; (split; [reflexivity|]); by rewrite ?Hp.
Qed.

Lemma connected_offset {H : Type} (chan : H -> Channel) (P : H -> Prop) cb : connected chan cb P ->
  0 <= cb_offset chan cb <= alen (cb_content chan cb).
Proof.
  intros (_ & _ & h & pos & Hh & Hok & _). unfold cb_offset, cb_content, holder_at. rewrite Hh, (ok_channel _ _ Hok).
  exact (ok_pos _ _ Hok).
Qed.

(** A file and an HTTP connection keep the promises of the interface; HTTP seeks
    when the server serves ranges. *)
#[global, program] Instance file_laws : StreamLaws (CJavaInputStreamCallbacks FileHolder) := {|
  is_open cb := connected file_channel cb (fun _ => True);
  reliable := cb_reliable file_channel;
  content := cb_content file_channel;
  at_offset := cb_offset file_channel;
  seeks := cb_seeks (fun _ => true) |}.
Next Obligation. intros cb. apply connected_offset. Qed.
Next Obligation.
  intros c n c' Ho E. pose proof (channel_next file_channel (fun _ => true) _ file_next c n c' Ho E) as Hn. tauto.
Qed.
Next Obligation. exact (channel_seek file_channel (fun _ => true) _ file_seek_chan). Qed.
Next Obligation.
  intros c n c' Ho Hr E. pose proof (channel_next file_channel (fun _ => true) _ file_next c n c' Ho E) as Hn. tauto.
Qed.

#[global, program] Instance http_laws : StreamLaws (CJavaInputStreamCallbacks HttpHolder) := {|
  is_open cb := connected http_channel cb (fun h => reopens h = true);
  reliable := cb_reliable http_channel;
  content := cb_content http_channel;
  at_offset := cb_offset http_channel;
  seeks := cb_seeks partial |}.
Next Obligation. intros cb. apply connected_offset. Qed.
Next Obligation.
  intros c n c' Ho E. pose proof (channel_next http_channel partial _ http_next c n c' Ho E) as Hn. tauto.
Qed.
Next Obligation. exact (channel_seek http_channel partial _ http_seek_chan). Qed.
Next Obligation.
  intros c n c' Ho Hr E. pose proof (channel_next http_channel partial _ http_next c n c' Ho E) as Hn. tauto.
Qed.

(** ** Random access *)

Record file_blocks (cb : CJavaInputStreamCallbacks FileHolder) : Prop := {
  fb_env : env cb = true;
  fb_ref : ref cb = true;
  fb_holder : exists h pos, m_ConnectionHolder cb = Some h /\ channel (file_channel h) = Some pos /\
    forall n, 0 < n -> 0 < share (file_channel h) n <= n }.

Lemma file_block h pos n q : channel (file_channel h) = Some q -> 0 <= pos -> 0 < n ->
  (forall n, 0 < n -> 0 < share (file_channel h) n <= n) ->
  exists r h', file_readBlock h pos n = (Returns r, h') /\ data (file_channel h') = data (file_channel h) /\
    channel (file_channel h') = Some q /\ share (file_channel h') = share (file_channel h) /\
    if pos <? alen (data (file_channel h)) then 0 < r <= n /\ pos + r <= alen (data (file_channel h)) /\
      r <= alen (bytebuffer (file_channel h')) /\
      slice (bytebuffer (file_channel h')) 0 r = slice (data (file_channel h)) pos r
    else r = -1.
Proof.
  intros Hq Hp Hn Hs. unfold file_readBlock. rewrite Hq, (proj2 (Z.ltb_ge n 0)), (proj2 (Z.ltb_ge pos 0)) by lia.
  set (c := if _ <? n then _ else _). assert (Hc : data c = data (file_channel h) /\ channel c = Some q /\
    share c = share (file_channel h) /\ n <= alen (bytebuffer c)).
  { unfold c. destruct (Z.ltb_spec (alen (bytebuffer (file_channel h))) n); [|auto].
    cbn. rewrite Hq. unfold alen. rewrite length_replicate. split_and!; try done. lia. }
  destruct Hc as (E1 & E2 & E3 & Hb). cbn [orb]. unfold channel_read. rewrite E1, E3. destruct (Z.leb_spec (alen (data (file_channel h))) pos).
  - eexists _, _. split; [reflexivity|]. rewrite (proj2 (Z.ltb_ge _ _)) by lia. by cbn.
  - specialize (Hs (Z.min n (alen (data (file_channel h)) - pos)) ltac:(lia)). set (k := share _ _) in *.
    destruct (put_bytes_slice (slice (data (file_channel h)) pos k) (bytebuffer c) k) as [P1 P2]; [apply slice_len; lia|lia|].
    eexists _, _. split; [reflexivity|]. rewrite (proj2 (Z.ltb_lt _ _)) by lia. cbn. rewrite P2. split_and!; try done; lia.
Qed.

#[global, program] Instance file_block_laws : BlockLaws (CJavaInputStreamCallbacks FileHolder) := {|
  blocks_open := file_blocks;
  block_content := cb_content file_channel |}.
Next Obligation.
  intros cb pos n r cb' [He Hr (h & q & Hh & Hq & Hs)] Hp Hn. cbn [ReadBlock CopyBlock CJava].
  unfold CJ_ReadBlock, CJ_CopyBlock, call, connection, cb_content, holder_at. rewrite He, Hr, Hh. cbn [andb readBlock FileConnectionHolder].
  rewrite (i64_id pos), (i32_id n) by (unfold in_i64, in_i32; lia).
  destruct (file_block h pos n q Hq ltac:(lia) ltac:(lia) Hs) as (k & h' & -> & Ed & Eq & Es & Hk). intros [= <- <-].
  cbn [m_ConnectionHolder with_holder env ref]. rewrite He, Hr, Ed. cbn [andb mbind option_bind buffer FileConnectionHolder].
  split; [|split; [done|]].
  - split; [done|done|]. exists h', q. by rewrite Es.
  - destruct (pos <? _); [|auto]. destruct Hk as (Hk & Hend & Hl & ->).
    rewrite (proj2 (Z.leb_le 0 k)), (proj2 (Z.leb_le k _)) by lia. auto.
Qed.

Lemma file_ends_with_eos cb : file_blocks cb -> ends_with_eos cb.
Proof.
  intros [He Hr (h & q & Hh & Hq & Hs)] pos n Hp Hn. cbn [ReadBlock CJava block_content file_block_laws] in *.
  unfold cb_content, holder_at in Hp. unfold CJ_ReadBlock, call, connection. rewrite Hh in Hp. rewrite He, Hr, Hh.
  cbn [andb readBlock FileConnectionHolder]. assert (0 <= pos) by (unfold alen in Hp; lia).
  rewrite (i64_id pos), (i32_id n) by (unfold in_i64, in_i32; lia).
  destruct (file_block h pos n q Hq ltac:(lia) ltac:(lia) Hs) as (k & h' & -> & _ & _ & _ & Hk).
  rewrite (proj2 (Z.ltb_ge pos _)) in Hk by lia. by rewrite Hk.
Qed.

Record memory_blocks (cb : CJavaInputStreamCallbacks MemoryHolder) : Prop := {
  mb_env : env cb = true;
  mb_ref : ref cb = true;
  mb_holder : exists h, m_ConnectionHolder cb = Some h /\ mem_open h = true /\ limit h = alen (backing h) }.

#[global, program] Instance memory_block_laws : BlockLaws (CJavaInputStreamCallbacks MemoryHolder) := {|
  blocks_open := memory_blocks;
  block_content := holder_at backing [] |}.
Next Obligation.
  intros cb pos n r cb' [He Hr (h & Hh & Ho & Hl)] Hp Hn. cbn [ReadBlock CopyBlock CJava].
  unfold CJ_ReadBlock, CJ_CopyBlock, call, connection, holder_at. rewrite He, Hr, Hh. cbn [andb readBlock MemoryConnectionHolder].
  rewrite (i64_id pos), (i32_id n) by (unfold in_i64, in_i32; lia).
  unfold memory_readBlock. rewrite Ho, Hl, (i32_id pos) by (unfold in_i32; lia). cbn [negb].
  destruct (Z.gtb_spec pos (alen (backing h))) as [Hgt|Hle].
  - intros [= <- <-]. cbn [with_holder m_ConnectionHolder env ref]. rewrite He, Hr, (proj2 (Z.ltb_ge _ _)) by lia.
    split; [|auto]. split; [done|done|]. by exists h.
  - rewrite (proj2 (Z.ltb_ge pos 0)) by lia. cbn [orb].
    rewrite (proj2 (Z.ltb_ge (Z.min _ _) 0)) by lia. intros [= <- <-].
    cbn [with_holder m_ConnectionHolder env ref backing]. rewrite He, Hr. cbn [andb mbind option_bind buffer MemoryConnectionHolder slice_buffer].
    split; [split; [done|done|]; by eexists|split; [done|]].
    unfold backing_slice. rewrite Hl. destruct (Z.ltb_spec pos (alen (backing h))).
    + rewrite slice_len by lia. rewrite !(proj2 (Z.leb_le _ _)) by lia. split; [lia|split; [lia|]]. f_equal.
      unfold slice at 1. rewrite drop_0. unfold slice. rewrite take_take. f_equal. lia.
    + right. split; [lia|]. rewrite slice_len, slice_empty by lia. rewrite !(proj2 (Z.leb_le _ _)) by lia. done.
Qed.
