(* ===== verification/JavaSource.v ===== *)
(** * The Java source

    gstreamer/plugins/javasource/javasource.c: the element at the head of a
    pipeline.  A task on its source pad reads blocks through the signals of the
    element, that is from [StreamCallbacks], and pushes them with the events around
    them; in pull mode downstream reads ranges.

    The signal handlers are part of the element's state ([callbacks], [None] once
    they are disconnected: a signal without a handler leaves the variable for its
    result as it is).  A function is split where it pushes or gives up a lock, as
    in the buffers. *)

From stdpp Require Import strings.
From S2P Require Import Prelude Float32 GstModel StreamCallbacks.

Definition HLS_PROP_GET_DURATION : Z := 1.
Definition HLS_VALUE_FLOAT_MULTIPLIER : Z := 1000.
Definition GST_SECOND : Z := 1000000000.

(** From GstPipelineFactory.cpp. *)
Definition HLS_PROP_GET_HLS_MODE : Z := 2.
Definition HLS_PROP_GET_MIMETYPE : Z := 3.
Definition HLS_VALUE_MIMETYPE_MP2T : Z := 1.
Definition HLS_VALUE_MIMETYPE_MP3 : Z := 2.
Definition CONTENT_TYPE_MP2T : string := "video/MP2T".
Definition CONTENT_TYPE_MPA : string := "audio/mpeg".

Definition MODE_DEFAULT : Z := 1.
Definition MODE_HLS : Z := 2.
Definition MODE_HLS_LIVE : Z := 4.

(** The values of [pending_event]. *)
Inductive pending_type := GST_EVENT_UNKNOWN | GST_EVENT_STREAM_START | GST_EVENT_SEGMENT | GST_EVENT_EOS.

#[global] Instance pending_type_eq_dec : EqDecision pending_type.
Proof. solve_decision. Defined.

Record JavaSource (C : Type) := mkJavaSource {
  srcresult : GstFlowReturn;
  pending_event : pending_type;
  position : Z;
  position_time : Z;
  size : Z;
  is_seekable : bool;
  is_random_access : bool;
  update : bool;
  discont : bool;
  mode : Z;
  stop_on_pause : bool;
  location : option string;
  mimetype : option string;
  rate : jdouble;
  callbacks : option C
}.
Arguments mkJavaSource {C}.
Arguments srcresult {C}. Arguments pending_event {C}. Arguments position {C}. Arguments position_time {C}.
Arguments size {C}. Arguments is_seekable {C}. Arguments is_random_access {C}. Arguments update {C}.
Arguments discont {C}. Arguments mode {C}. Arguments stop_on_pause {C}. Arguments location {C}.
Arguments mimetype {C}. Arguments rate {C}. Arguments callbacks {C}.

Section assignments.
Context {C : Type}.
Abbreviation JS := (JavaSource C).

Definition js_eta (s : JS) : JS :=
  mkJavaSource (srcresult s) (pending_event s) (position s) (position_time s) (size s) (is_seekable s)
    (is_random_access s) (update s) (discont s) (mode s) (stop_on_pause s) (location s) (mimetype s) (rate s)
    (callbacks s).

(** [element->f = v]. *)
Ltac assign f :=
  let e := eval unfold js_eta in js_eta in
  let e' := eval pattern f in e in
  match e' with ?F f => exact (fun v => F (fun _ => v)) end.

Definition set_srcresult : GstFlowReturn -> JS -> JS := ltac:(assign (@srcresult C)).
Definition set_pending_event : pending_type -> JS -> JS := ltac:(assign (@pending_event C)).
Definition set_position : Z -> JS -> JS := ltac:(assign (@position C)).
Definition set_position_time : Z -> JS -> JS := ltac:(assign (@position_time C)).
Definition set_size : Z -> JS -> JS := ltac:(assign (@size C)).
Definition set_is_seekable : bool -> JS -> JS := ltac:(assign (@is_seekable C)).
Definition set_is_random_access : bool -> JS -> JS := ltac:(assign (@is_random_access C)).
Definition set_update : bool -> JS -> JS := ltac:(assign (@update C)).
Definition set_discont : bool -> JS -> JS := ltac:(assign (@discont C)).
Definition set_mode : Z -> JS -> JS := ltac:(assign (@mode C)).
Definition set_stop_on_pause : bool -> JS -> JS := ltac:(assign (@stop_on_pause C)).
Definition set_location : option string -> JS -> JS := ltac:(assign (@location C)).
Definition set_mimetype : option string -> JS -> JS := ltac:(assign (@mimetype C)).
Definition set_rate : jdouble -> JS -> JS := ltac:(assign (@rate C)).
Definition set_callbacks : option C -> JS -> JS := ltac:(assign (@callbacks C)).
End assignments.

(** [(mode & m) == m]. *)
Definition in_mode (m mode : Z) : bool := (mode & m) =? m.

(** Where an iteration of [java_source_loop] goes: it has pushed and waits for the
    answer, it goes to [next_event], or to the end of the function. *)
Inductive loop_at :=
| PushedStreamStart
| PushedSegment
| PushedEos
| PushedCaps (b : GstBuffer)
| PushedBuffer (b : GstBuffer)
| NextEvent
| LoopEnd (result : GstFlowReturn).

(** The outcome of the allocation of a buffer: whether [gst_buffer_new_allocate]
    and [gst_buffer_map] succeed. *)
Record allocation := mkAllocation { allocated : bool; mapped : bool }.

(** What a query asks and is answered. *)
Inductive query :=
| GST_QUERY_DURATION (format : GstFormat)
| GST_QUERY_SCHEDULING
| GST_QUERY_SEEKING (format : GstFormat)
| QueryOther.

Inductive answer :=
| Duration (format : GstFormat) (duration : Z)
| Scheduling (pull : bool)
| Seeking (format : GstFormat) (seekable : bool) (start stop : Z)
| QueryFails
| QueryDefault.

(** What is to be done with an event from downstream. *)
Inductive source_action := PerformSeek (k : GstSeek) | DefaultEvent.

Inductive transition :=
  GST_STATE_CHANGE_NULL_TO_READY | GST_STATE_CHANGE_READY_TO_PAUSED | GST_STATE_CHANGE_PAUSED_TO_PLAYING
| GST_STATE_CHANGE_PLAYING_TO_PAUSED | GST_STATE_CHANGE_PAUSED_TO_READY | GST_STATE_CHANGE_READY_TO_NULL.

Section operations.
Context {C : Type} `{cbs : StreamCallbacks C}.
Abbreviation JS := (JavaSource C).
Abbreviation A := (act JS).

(** [g_signal_emit] into a variable that holds [initial], if it is initialised. *)
Definition signal (f : C -> Z * C) (initial : option Z) : A Z :=
  cb ← gets callbacks;
  match cb with
  | Some c => let '(n, c) := f c in assign (set_callbacks (Some c));; mret n
  | None => deref initial
  end.

(** SIGNAL_COPY_BLOCK into [n] fresh bytes. *)
Definition copy_block (n : Z) : A (list Z) :=
  cb ← gets callbacks; c ← deref cb; deref (CopyBlock c n).

(** *** Life cycle *)

(** The zeroed object with its construction properties, then [java_source_init]. *)
Definition java_source_init : JS :=
  mkJavaSource GST_FLOW_OK GST_EVENT_UNKNOWN 0 0 (-1) false false false false MODE_DEFAULT true None None
    (double_of_int 1) None.

Inductive js_property :=
| PROP_SIZE (v : Z) | PROP_IS_SEEKABLE (v : bool) | PROP_IS_RANDOM_ACCESS (v : bool) | PROP_STOP_ON_PAUSE (v : bool)
| PROP_LOCATION (v : option string) | PROP_MIMETYPE (v : option string) | PROP_HLS_MODE (v : bool) | PROP_OTHER.

Definition java_source_set_property (prop : js_property) : A unit :=
  match prop with
  | PROP_SIZE v => assign (set_size v)
  | PROP_IS_SEEKABLE v => assign (set_is_seekable v)
  | PROP_IS_RANDOM_ACCESS v => assign (set_is_random_access v)
  | PROP_STOP_ON_PAUSE v => assign (set_stop_on_pause v)
  | PROP_LOCATION v => assign (set_location v)
  | PROP_HLS_MODE v => assign (set_mode (if v then MODE_HLS else MODE_DEFAULT))
  | PROP_MIMETYPE v => assign (set_mimetype v)
  | PROP_OTHER => mret tt
  end.

(** [linked]: whether the pad has a peer; [done]: the answer of the task function. *)
Definition java_source_activatemode (m : pad_mode) (active linked done : bool) : A bool :=
  match m with
  | GST_PAD_MODE_PUSH =>
      if active then
        assign (set_srcresult GST_FLOW_OK);;
        if linked then emit Start_task;; mret done else mret true
      else
        assign (set_srcresult GST_FLOW_FLUSHING);;
        emit Stop_task;;
        mret done
  | GST_PAD_MODE_PULL => mret true
  | GST_PAD_MODE_NONE => mret false
  end.

(** Before the change of the parent class. *)
Definition change_state_up (t : transition) : A unit :=
  match t with
  | GST_STATE_CHANGE_READY_TO_PAUSED =>
      m ← gets mode;
      assign (set_pending_event GST_EVENT_STREAM_START);;
      assign (set_position 0);;
      assign (set_position_time 0);;
      assign (set_discont false);;
      assign (set_update (negb (in_mode MODE_HLS m)));;
      assign (set_srcresult GST_FLOW_OK)
  | GST_STATE_CHANGE_PAUSED_TO_PLAYING =>
      stop ← gets stop_on_pause;
      when stop (assign (set_srcresult GST_FLOW_OK))
  | _ => mret tt
  end.

(** After it; the handler of SIGNAL_CLOSE_CONNECTION closes the connection,
    disconnects all handlers and deletes the callbacks. *)
Definition change_state_down (t : transition) : A unit :=
  match t with
  | GST_STATE_CHANGE_PLAYING_TO_PAUSED =>
      stop ← gets stop_on_pause;
      when stop (assign (set_srcresult GST_FLOW_FLUSHING))
  | GST_STATE_CHANGE_READY_TO_NULL =>
      stop ← gets stop_on_pause;
      when (negb stop) (assign (set_srcresult GST_FLOW_FLUSHING));;
      assign (set_size (-1));;
      assign (set_callbacks None)
  | _ => mret tt
  end.

Definition java_source_change_state (t : transition) (parent_failed : bool) : A unit :=
  change_state_up t;;
  if parent_failed then mret tt else change_state_down t.

(** *** The task *)

Definition loop_enter : A loop_at :=
  result ← gets srcresult;
  mret (if bool_decide (result = GST_FLOW_OK) then NextEvent else LoopEnd result).

Definition segment_flags (p : JS) : Z := if update p then GST_SEGMENT_FLAG_UPDATE else 0.

(** GST_EVENT_SEGMENT in HLS mode: the size of the next media segment, negative
    when there is a discontinuity, -1 at the end. *)
Definition segment_hls : A loop_at :=
  result ← signal GetStreamSize (Some 0);
  state ← gets srcresult;
  if bool_decide (state = GST_FLOW_FLUSHING) then mret (LoopEnd GST_FLOW_OK)
  else if result =? -1 then assign (set_pending_event GST_EVENT_EOS);; mret NextEvent
  else
    when (result <? 0) (assign (set_discont true));;
    let result := if result <? 0 then i32 (-1 * result) else result in
    p ← gets id;
    let time := u64 (position_time p) in
    emit (Push_event (EventSegment
      (mkGstSegment (segment_flags p) (rate p) GST_FORMAT_BYTES 0 (u64 result) time time)));;
    mret PushedSegment.

Definition segment_default : A loop_at :=
  p ← gets id;
  let start := u64 (position p) in
  emit (Push_event (EventSegment
    (mkGstSegment (segment_flags p) (rate p) GST_FORMAT_BYTES start (u64 (size p)) 0 start)));;
  mret PushedSegment.

(** GST_EVENT_UNKNOWN: the next block.  When the buffer cannot be allocated the
    block is skipped. *)
Definition next_block (a : allocation) : A loop_at :=
  n ← signal ReadNextBlock None;
  m ← gets mode;
  if 0 <? n then
    if negb (allocated a) then mret (LoopEnd GST_FLOW_OK)
    else if negb (mapped a) then mret (LoopEnd GST_FLOW_ERROR)
    else
      pos ← gets position;
      bytes ← copy_block n;
      let b := mkGstBuffer (u64 pos) bytes in
      d ← gets discont;
      when d (emit Set_discont;; assign (set_discont false));;
      mime ← gets mimetype;
      match mime with
      | Some name => emit (Push_event (EventCaps name));; mret (PushedCaps b)
      | None => emit (Push_buffer b);; mret (PushedBuffer b)
      end
  else if in_mode MODE_DEFAULT m && (n =? EOS_CODE) then
    assign (set_pending_event GST_EVENT_EOS);; mret NextEvent
  else if in_mode MODE_HLS m && (n =? EOS_CODE) then
    assign (set_pending_event GST_EVENT_SEGMENT);; mret NextEvent
  else mret (LoopEnd (if n =? OTHER_ERROR_CODE then GST_FLOW_FLUSHING else GST_FLOW_OK)).

(** From the label [next_event] to the next push or to the end. *)
Definition next_event (a : allocation) : A loop_at :=
  e ← gets pending_event;
  match e with
  | GST_EVENT_STREAM_START => emit (Push_event EventStreamStart);; mret PushedStreamStart
  | GST_EVENT_SEGMENT =>
      m ← gets mode;
      if in_mode MODE_HLS m then segment_hls else segment_default
  | GST_EVENT_EOS => emit (Push_event EventEos);; mret PushedEos
  | GST_EVENT_UNKNOWN => next_block a
  end.

Definition event_result (pushed : bool) : GstFlowReturn := if pushed then GST_FLOW_OK else GST_FLOW_FLUSHING.

(** After [gst_pad_push] of the buffer has returned [result]. *)
Definition buffer_pushed (b : GstBuffer) (result : GstFlowReturn) : A loop_at :=
  p ← gets id;
  when (negb (bool_decide (pending_event p = GST_EVENT_SEGMENT)))
    (assign (set_position (i64 (position p + gst_buffer_get_size b))));;
  if bool_decide (result = GST_FLOW_EOS) then assign (set_pending_event GST_EVENT_EOS);; mret NextEvent
  else mret (LoopEnd result).

(** One piece of [java_source_loop]; [pushed] and [result] are the answers of
    downstream to the event or the buffer pushed last. *)
Definition loop_resume (at_ : loop_at) (a : allocation) (pushed : bool) (result : GstFlowReturn) : A loop_at :=
  match at_ with
  | NextEvent => next_event a
  | PushedStreamStart => assign (set_pending_event GST_EVENT_SEGMENT);; mret (LoopEnd (event_result pushed))
  | PushedSegment => assign (set_pending_event GST_EVENT_UNKNOWN);; mret (LoopEnd (event_result pushed))
  | PushedEos => mret (LoopEnd GST_FLOW_EOS)
  | PushedCaps b => assign (set_mimetype None);; emit (Push_buffer b);; mret (PushedBuffer b)
  | PushedBuffer b => buffer_pushed b result
  | LoopEnd r => mret (LoopEnd r)
  end.

(** The end of the function. *)
Definition loop_end (result : GstFlowReturn) : A unit :=
  state ← gets srcresult;
  result ← (if bool_decide (state = GST_FLOW_OK) || negb (bool_decide (result = GST_FLOW_OK)) then
              assign (set_srcresult result);; mret result
            else mret state);
  when (negb (bool_decide (result = GST_FLOW_OK))) (emit Pause_task).

(** *** Seeking

    [java_source_perform_seek]: what is done at once, the request to the
    connection, and the rest.  The stream lock is taken before the request, for a
    live stream after it.  [hls_eos] is never set. *)
Definition seek_begin (k : GstSeek) : A bool :=
  m ← gets mode;
  if negb (bool_decide (seek_format k = GST_FORMAT_BYTES)) && in_mode MODE_DEFAULT m then mret false
  else if negb (bool_decide (seek_format k = GST_FORMAT_TIME)) && in_mode MODE_HLS m then mret false
  else
    when (ctrue (seek_flags k & GST_SEEK_FLAG_FLUSH)) (emit (Push_event EventFlushStart));;
    assign (set_srcresult GST_FLOW_FLUSHING);;
    mret true.

Definition seek_position (m : Z) (k : GstSeek) : Z :=
  if in_mode MODE_HLS m then Z.quot (seek_start k) GST_SECOND else seek_start k.

Definition seek_data (k : GstSeek) : A Z :=
  m ← gets mode;
  signal (fun c => Seek c (seek_position m k)) None.

Definition seek_apply (k : GstSeek) (new_position : Z) : A bool :=
  m ← gets mode;
  when (0 <=? new_position) (
    assign (set_rate (seek_rate k));;
    assign (set_pending_event GST_EVENT_SEGMENT);;
    (if in_mode MODE_HLS m then
       assign (set_position 0);;
       assign (set_position_time (Z.quot (i64 (new_position * GST_SECOND)) HLS_VALUE_FLOAT_MULTIPLIER))
     else
       assign (set_position (seek_position m k));;
       assign (set_position_time 0));;
    assign (set_discont true);;
    assign (set_update false));;
  assign (set_srcresult GST_FLOW_OK);;
  when (ctrue (seek_flags k & GST_SEEK_FLAG_FLUSH)) (emit (Push_event EventFlushStop));;
  emit Start_task;;
  emit (Drop_event (EventSeek k));;
  mret (0 <=? new_position).

Definition java_source_event (e : GstEvent) : A source_action :=
  p ← gets id;
  mret (match e with
        | EventSeek k => if is_seekable p then PerformSeek k else DefaultEvent
        | _ => DefaultEvent
        end).

(** *** Queries and pull mode *)

Definition java_source_query (q : query) : A answer :=
  p ← gets id;
  match q with
  | GST_QUERY_DURATION format =>
      if in_mode MODE_HLS (mode p) then
        if negb (bool_decide (format = GST_FORMAT_TIME)) then mret QueryFails
        else
          duration ← signal (fun c => Property c HLS_PROP_GET_DURATION 0) (Some 0);
          when (duration <? 0) (assign (set_mode (mode p .| MODE_HLS_LIVE)));;
          mret (Duration GST_FORMAT_TIME (Z.quot (i64 (duration * GST_SECOND)) HLS_VALUE_FLOAT_MULTIPLIER))
      else if negb (bool_decide (format = GST_FORMAT_BYTES)) then mret QueryFails
      else mret (Duration GST_FORMAT_BYTES (size p))
  | GST_QUERY_SCHEDULING => mret (Scheduling (is_random_access p))
  | GST_QUERY_SEEKING format =>
      if negb (bool_decide (format = GST_FORMAT_BYTES)) || negb (is_seekable p) then mret QueryFails
      else mret (Seeking GST_FORMAT_BYTES true 0 (size p))
  | QueryOther => mret QueryDefault
  end.

(** [size <= length] compares as unsigned numbers. *)
Definition java_source_getrange (a : allocation) (offset length : Z) : A (GstFlowReturn * option GstBuffer) :=
  n ← signal (fun c => ReadBlock c offset length) (Some 0);
  if (0 <? n) || (n mod 2 ^ 32 <=? length) then
    if allocated a && mapped a then
      bytes ← copy_block n;
      mret (GST_FLOW_OK, Some (mkGstBuffer offset bytes))
    else mret (GST_FLOW_ERROR, None)
  else mret (if n =? EOS_CODE then GST_FLOW_EOS else GST_FLOW_ERROR, None).

(** *** Set-up

    [CGstPipelineFactory::CreateSourceElement], where all elements can be made: the
    configured source and the buffer it is linked to, if any.  The handler of
    read-block is only connected for a random access source. *)
Inductive buffer_element := progressbuffer | hlsprogressbuffer.

Definition CreateSourceElement (cb : C) (size_hint : Z) (where_ : string) : JS * option buffer_element :=
  let random := IsRandomAccess cb in
  let '(hlsMode, cb) := Property cb HLS_PROP_GET_HLS_MODE 0 in
  let '(streamMimeType, cb) := Property cb HLS_PROP_GET_MIMETYPE 0 in
  let s := set_callbacks (Some cb) java_source_init in
  let s := if hlsMode =? 1 then set_mode MODE_HLS s else s in
  let s := if streamMimeType =? HLS_VALUE_MIMETYPE_MP2T then set_mimetype (Some CONTENT_TYPE_MP2T) s
           else if streamMimeType =? HLS_VALUE_MIMETYPE_MP3 then set_mimetype (Some CONTENT_TYPE_MPA) s else s in
  let s := set_location (Some where_) (set_is_random_access random (set_is_seekable (IsSeekable cb) (set_size size_hint s))) in
  if NeedBuffer cb then
    (set_stop_on_pause false s, Some (if hlsMode =? 1 then hlsprogressbuffer else progressbuffer))
  else (s, None).

End operations.
