(* ===== verification/JavaSourceSpec.v ===== *)
(** * Correctness of the Java source

    One call of the task function is a bounded number of pieces, whatever
    downstream answers ([source_call_returns]); with a downstream that accepts
    everything the task pushes the events and exactly the bytes of the connection
    from the current position to the end and pauses ([source_delivers]); a range
    pulled from a random access connection is the bytes of the content
    ([source_getrange_spec]).  The examples are runs where the source does not do
    what it means to. *)

From stdpp Require Import strings.
From S2P Require Import Prelude Float32 GstModel MediaCache StreamCallbacks ConnectionHolders JavaSource.

Ltac js_eval := cbv beta iota zeta delta [mbind act_bind mret act_ret gets assign emit when deref undefined id signal copy_block].

Lemma ok_decided : bool_decide (GST_FLOW_OK = GST_FLOW_OK) = true.
Proof. reflexivity. Qed.

Lemma eos_decided : bool_decide (GST_FLOW_EOS = GST_FLOW_OK) = false.
Proof. reflexivity. Qed.

(** Reduce tests of constant flow returns. *)
Ltac flow_tests := repeat (rewrite ?ok_decided, ?eos_decided; cbv beta iota delta [orb negb andb]).

Section calls.
Context {C : Type} `{streams : StreamLaws C}.
Abbreviation JS := (JavaSource C).
Implicit Types s : JS.

(** ** Whole calls of the task function *)

(** [answer] is what downstream says to the push a piece ends with. *)
Fixpoint pieces (al : allocation) (answer : loop_at -> bool * GstFlowReturn) (fuel : nat) (a : loop_at)
  : act JS GstFlowReturn :=
  match a with
  | LoopEnd r => mret r
  | _ =>
      match fuel with
      | O => undefined
      | S fuel => a' ← loop_resume a al (fst (answer a)) (snd (answer a)); pieces al answer fuel a'
      end
  end.

(** The longest call takes a block, is told EOS, and pushes that. *)
Definition max_pieces : nat := 5.

Definition java_source_loop (al : allocation) (answer : loop_at -> bool * GstFlowReturn) : act JS unit :=
  a ← loop_enter; r ← pieces al answer max_pieces a; loop_end r.

Definition accept (_ : loop_at) : bool * GstFlowReturn := (true, GST_FLOW_OK).
Definition allocates : allocation := mkAllocation true true.

(** The task calls it again and again. *)
Fixpoint calls (n : nat) : act JS unit :=
  match n with O => mret tt | S n => java_source_loop allocates accept;; calls n end.

(** ** A call returns *)

Lemma pieces_end al answer n r s : pieces al answer n (LoopEnd r) s = Some (r, s, []).
Proof. by destruct n. Qed.

Lemma pieces_step al answer n a s : (forall r, a <> LoopEnd r) ->
  pieces al answer (S n) a s =
    match loop_resume a al (fst (answer a)) (snd (answer a)) s with
    | Some (a', s1, o1) =>
        match pieces al answer n a' s1 with Some (r, s2, o2) => Some (r, s2, o1 ++ o2) | None => None end
    | None => None
    end.
Proof. destruct a; try done. intros Hr. by destruct (Hr result). Qed.

Lemma pieces_eos al answer n s : pending_event s = GST_EVENT_EOS ->
  pieces al answer (S (S n)) NextEvent s = Some (GST_FLOW_EOS, s, [Push_event EventEos]).
Proof.
  intros Hp. rewrite pieces_step by done. cbn [loop_resume]. unfold next_event. js_eval. rewrite Hp.
  rewrite pieces_step by done. cbn [loop_resume]. js_eval. by rewrite pieces_end.
Qed.

Lemma pieces_pushed al answer n a s : a = PushedStreamStart \/ a = PushedSegment ->
  is_Some (pieces al answer (S n) a s).
Proof. intros [-> | ->]; rewrite pieces_step by done; cbn [loop_resume]; js_eval; rewrite pieces_end; by eexists. Qed.

Lemma pieces_buffer al answer n b s : is_Some (pieces al answer (S (S (S n))) (PushedBuffer b) s).
Proof.
  rewrite pieces_step by done. cbn [loop_resume]. unfold buffer_pushed. js_eval.
  destruct (negb _), (bool_decide (snd _ = _)); cbv beta iota; first [rewrite pieces_end|rewrite pieces_eos by done]; by eexists.
Qed.

Lemma pieces_segment al answer n s : (forall r, pending_event s = r -> r = GST_EVENT_SEGMENT) ->
  is_Some (pieces al answer (S (S (S n))) NextEvent s).
Proof.
  intros Hp. rewrite pieces_step by done. cbn [loop_resume]. unfold next_event. js_eval. rewrite (Hp _ eq_refl).
  destruct (in_mode MODE_HLS (mode s)).
  - unfold segment_hls. js_eval.
    assert (Hseg : forall o1 z s1, is_Some (pieces al answer (S (S n)) z s1) -> is_Some
      (match pieces al answer (S (S n)) z s1 with Some (r, s2, o2) => Some (r, s2, o1 ++ o2) | None => None end))
      by (intros o1 z s1 [[[? ?] ?] ->]; by eexists).
    destruct (callbacks s) as [cb|]; [destruct (GetStreamSize cb) as [z cb']|];
      destruct (bool_decide _); cbv beta iota; rewrite ?pieces_end; try (by eexists).
    destruct (z =? -1); cbv beta iota; [by rewrite pieces_eos by done; eexists|].
    destruct (z <? 0); cbv beta iota; apply Hseg, pieces_pushed; auto.
  - unfold segment_default. js_eval. destruct (pieces_pushed al answer (S n) PushedSegment s) as [[[r s'] o] E]; [auto|].
    rewrite E. by eexists.
Qed.

(** From a block on. *)
Lemma pieces_block al answer s cb : callbacks s = Some cb -> is_open cb -> pending_event s = GST_EVENT_UNKNOWN ->
  is_Some (pieces al answer 5 NextEvent s).
Proof.
  intros Hcb Hop Hp. rewrite pieces_step by done. cbn [loop_resume]. unfold next_event, next_block. js_eval.
  rewrite Hp, Hcb. destruct (ReadNextBlock cb) as [n cb'] eqn:En.
  destruct (stream_next cb n cb' Hop En) as (_ & _ & _ & Hn).
  assert (Hgo : forall o1 z s1, is_Some (pieces al answer 4 z s1) -> is_Some
    (match pieces al answer 4 z s1 with Some (r, s2, o2) => Some (r, s2, o1 ++ o2) | None => None end))
    by (intros o1 z s1 [[[? ?] ?] ->]; by eexists).
  destruct (0 <? n).
  - destruct Hn as (_ & _ & _ & Hcopy). destruct (allocated al), (mapped al); cbv beta iota delta [negb];
      rewrite ?pieces_end; try (by eexists).
    cbn [callbacks set_callbacks]. rewrite Hcopy. cbn [discont mimetype set_callbacks set_discont].
    destruct (discont s); cbv beta iota; cbn [mimetype set_callbacks set_discont]; destruct (mimetype s); apply Hgo;
      try apply pieces_buffer; rewrite pieces_step by done; cbn [loop_resume]; js_eval;
      match goal with |- context [pieces al answer 3 (PushedBuffer ?b) ?s1] =>
        destruct (pieces_buffer al answer 0 b s1) as [[[r s2] o2] E]; rewrite E; by eexists end.
  - destruct (_ && (n =? EOS_CODE)); cbv beta iota; [apply Hgo; by rewrite pieces_eos by done; eexists|].
    destruct (_ && (n =? EOS_CODE)); cbv beta iota; [apply Hgo, pieces_segment; by intros r <-|].
    rewrite pieces_end. by eexists.
Qed.

(** C30: one call of the task function returns: the jumps back to [next_event] end
    after a few pieces, whatever the connection delivers, whether or not buffers
    can be allocated, and whatever downstream answers, in both modes. *)
Theorem source_call_returns s cb al answer :
  callbacks s = Some cb -> is_open cb -> is_Some (java_source_loop al answer s).
Proof.
  intros Hcb Hop. unfold java_source_loop, loop_enter. js_eval.
  assert (Hend : forall r s1, is_Some (loop_end r s1)).
  { intros r s1. unfold loop_end. js_eval. destruct (_ || _); cbv beta iota; destruct (negb _); by eexists. }
  assert (Hp : is_Some (pieces al answer max_pieces
    (if bool_decide (srcresult s = GST_FLOW_OK) then NextEvent else LoopEnd (srcresult s)) s)).
  { case_bool_decide; [|rewrite pieces_end; by eexists]. unfold max_pieces.
    destruct (pending_event s) eqn:Ep; [|..|by rewrite pieces_eos by done; eexists].
    - by eapply pieces_block.
    - rewrite pieces_step by done. cbn [loop_resume]. unfold next_event. js_eval. rewrite Ep.
      destruct (pieces_pushed al answer 3 PushedStreamStart s) as [[[r s'] o] E]; [auto|]. rewrite E. by eexists.
    - apply pieces_segment. by intros r <-. }
  destruct Hp as [[[r s1] o1] ->]. destruct (Hend r s1) as [[[u s2] o2] ->]. by eexists.
Qed.

(** ** The stream is delivered *)

Definition is_push (x : out) : bool := match x with Push_buffer _ | Push_event _ => true | _ => false end.

(** What downstream gets, in order. *)
Definition pushes (o : list out) : list out := List.filter is_push o.

(** Each buffer starts where the one before it ended. *)
Fixpoint consecutive (q : Z) (bs : list GstBuffer) : Prop :=
  match bs with
  | [] => True
  | b :: bs => GST_BUFFER_OFFSET b = q /\ consecutive (q + gst_buffer_get_size b) bs
  end.

(** A plain source at offset [q] of the content [L]. *)
Record flowing (s : JS) (cb : C) (L : list Z) (q : Z) : Prop := {
  fl_result : srcresult s = GST_FLOW_OK;
  fl_callbacks : callbacks s = Some cb;
  fl_open : is_open cb;
  fl_reliable : reliable cb;
  fl_content : content cb = L;
  fl_offset : at_offset cb = q;
  fl_position : position s = q;
  fl_mode : mode s = MODE_DEFAULT;
  fl_mime : mimetype s = None;
  fl_small : alen L < 2 ^ 63 }.

Lemma flowing_range s cb L q : flowing s cb L q -> 0 <= q <= alen L /\ u64 q = q.
Proof.
  intros [_ _ Ho _ Hc Hof _ _ _ Hs]. pose proof (stream_offset cb Ho) as Hr. rewrite Hc, Hof in Hr.
  split; [done|]. apply Z.mod_small. lia.
Qed.

(** A call that ends well: what the pieces do is what the call does. *)
Lemma call_ok s s1 o : srcresult s = GST_FLOW_OK -> srcresult s1 = GST_FLOW_OK ->
  pieces allocates accept max_pieces NextEvent s = Some (GST_FLOW_OK, s1, o) ->
  exists s', java_source_loop allocates accept s = Some (tt, s', o) /\ s' = set_srcresult GST_FLOW_OK s1.
Proof.
  intros Hs Hs1 Hp. unfold java_source_loop, loop_enter. js_eval. rewrite Hs.
  flow_tests. rewrite Hp. unfold loop_end. js_eval.
  rewrite Hs1. eexists. split; [|reflexivity]. flow_tests. by rewrite ?app_nil_r.
Qed.

Lemma call_event s cb L q : flowing s cb L q -> pending_event s = GST_EVENT_STREAM_START \/ pending_event s = GST_EVENT_SEGMENT ->
  exists s', java_source_loop allocates accept s = Some (tt, s',
      [Push_event match pending_event s with
        | GST_EVENT_STREAM_START => EventStreamStart
        | _ => EventSegment (mkGstSegment (segment_flags s) (rate s) GST_FORMAT_BYTES q (u64 (size s)) 0 q) end]) /\
    flowing s' cb L q /\ segment_flags s' = segment_flags s /\ rate s' = rate s /\ size s' = size s /\
    pending_event s' = match pending_event s with GST_EVENT_STREAM_START => GST_EVENT_SEGMENT | _ => GST_EVENT_UNKNOWN end.
Proof.
  intros Hf Hp. destruct (flowing_range _ _ _ _ Hf) as [_ Hu]. pose proof Hf as [Hr _ _ _ _ _ Hq Hm _ _].
  assert (Hrun : exists s1, pieces allocates accept max_pieces NextEvent s = Some (GST_FLOW_OK, s1,
      [Push_event match pending_event s with
        | GST_EVENT_STREAM_START => EventStreamStart
        | _ => EventSegment (mkGstSegment (segment_flags s) (rate s) GST_FORMAT_BYTES q (u64 (size s)) 0 q) end]) /\
      s1 = set_pending_event (match pending_event s with GST_EVENT_STREAM_START => GST_EVENT_SEGMENT | _ => GST_EVENT_UNKNOWN end) s).
  { unfold max_pieces. eexists. split; [|reflexivity]. rewrite pieces_step by done. cbn [loop_resume].
    unfold next_event, segment_default. js_eval. destruct Hp as [Hp|Hp]; rewrite Hp; [done|].
    rewrite Hm. change (in_mode MODE_HLS MODE_DEFAULT) with false. cbv beta iota. by rewrite Hq, Hu. }
  destruct Hrun as (s1 & Hrun & Es1). edestruct (call_ok s s1) as (s' & E & ->); [exact Hr|by rewrite Es1|exact Hrun|].
  eexists. split; [exact E|]. rewrite Es1. cbn. destruct Hf. by repeat split.
Qed.

Lemma call_block s cb L q : flowing s cb L q -> pending_event s = GST_EVENT_UNKNOWN -> q < alen L ->
  exists n s' cb' o, java_source_loop allocates accept s = Some (tt, s', o) /\
    pushes o = [Push_buffer (mkGstBuffer q (slice L q n))] /\ 0 < n /\ q + n <= alen L /\
    flowing s' cb' L (q + n) /\ pending_event s' = GST_EVENT_UNKNOWN.
Proof.
  intros Hf Hp Hq. destruct (flowing_range _ _ _ _ Hf) as [Hrg Hu]. destruct Hf as [Hr Hcb Hop Hrel Hco Hof Hpos Hm Hmi Hsm].
  destruct (ReadNextBlock cb) as [n cb'] eqn:En.
  destruct (stream_next cb n cb' Hop En) as (Hop' & Hco' & _ & Hn). destruct (stream_reliable cb n cb' Hop Hrel En) as [Hrel' Hn0].
  rewrite Hof, Hco in *. rewrite (proj2 (Z.ltb_lt _ _) Hq) in Hn0. rewrite (proj2 (Z.ltb_lt _ _) Hn0) in Hn.
  destruct Hn as (Hn31 & Hof' & Hend & Hcopy).
  assert (Hrun : exists s1 o, pieces allocates accept max_pieces NextEvent s = Some (GST_FLOW_OK, s1, o) /\
    pushes o = [Push_buffer (mkGstBuffer q (slice L q n))] /\ s1 = set_position (i64 (q + alen (slice L q n))) (set_discont false (set_callbacks (Some cb') s))).
  { unfold max_pieces. rewrite pieces_step by done. cbn [loop_resume]. unfold next_event, next_block. js_eval.
    rewrite Hp, Hcb, En, (proj2 (Z.ltb_lt _ _) Hn0). cbn [allocated mapped allocates negb callbacks set_callbacks].
    rewrite Hcopy. cbn [discont mimetype position set_callbacks set_discont]. rewrite Hpos, Hu.
    destruct (discont s) eqn:Hd; cbv beta iota; cbn [mimetype set_callbacks set_discont]; rewrite Hmi;
      rewrite pieces_step by done; cbn [loop_resume]; unfold buffer_pushed; js_eval;
      cbn [pending_event set_callbacks set_discont]; rewrite Hp; cbn [accept fst snd];
      rewrite (bool_decide_eq_false_2 (GST_EVENT_UNKNOWN = GST_EVENT_SEGMENT)), (bool_decide_eq_false_2 (GST_FLOW_OK = GST_FLOW_EOS)) by done;
      cbv beta iota delta [negb]; rewrite pieces_end; cbn [app];
      eexists _, _; (split; [reflexivity|]); cbn; rewrite ?Hpos; (split; [done|]); [done|].
    unfold set_discont, set_callbacks, set_position. cbn. by rewrite <- Hd. }
  destruct Hrun as (s1 & o & Hrun & Ho & Es1). rewrite slice_len in Es1 by lia.
  rewrite i64_id in Es1 by (unfold in_i64; lia).
  edestruct (call_ok s s1) as (s' & E & ->); [exact Hr|by rewrite Es1|exact Hrun|].
  eexists n, _, cb', o. split; [exact E|]. rewrite Es1. cbn. split_and!; try done.
Qed.

Lemma call_eos s cb L : flowing s cb L (alen L) -> pending_event s = GST_EVENT_UNKNOWN ->
  exists s', java_source_loop allocates accept s = Some (tt, s', [Push_event EventEos; Pause_task]) /\
    srcresult s' = GST_FLOW_EOS.
Proof.
  intros [Hr Hcb Hop Hrel Hco Hof Hpos Hm Hmi Hsm] Hp.
  destruct (ReadNextBlock cb) as [n cb'] eqn:En. destruct (stream_reliable cb n cb' Hop Hrel En) as [_ Hn].
  rewrite Hof, Hco, Z.ltb_irrefl in Hn. subst n.
  unfold java_source_loop, loop_enter. js_eval. rewrite Hr. unfold max_pieces.
  flow_tests.
  rewrite pieces_step by done. cbn [loop_resume]. unfold next_event, next_block. js_eval. rewrite Hp, Hcb, En.
  cbn [mode set_callbacks]. rewrite Hm. cbn [EOS_CODE Z.ltb Z.compare]. change (in_mode MODE_DEFAULT MODE_DEFAULT && (EOS_CODE =? EOS_CODE)) with true.
  cbv beta iota. rewrite pieces_eos by done. unfold loop_end. js_eval. flow_tests.
  match goal with |- context [if bool_decide ?b then true else true] => destruct (bool_decide b) end; flow_tests; by eexists.
Qed.

Lemma calls_step n s s1 o1 : java_source_loop allocates accept s = Some (tt, s1, o1) ->
  calls (S n) s = match calls n s1 with Some (u, s2, o2) => Some (u, s2, o1 ++ o2) | None => None end.
Proof. intros E. cbn [calls]. unfold mbind, act_bind. by rewrite E. Qed.

Lemma pushes_app o1 o2 : pushes (o1 ++ o2) = pushes o1 ++ pushes o2.
Proof. apply List.filter_app. Qed.

(** From the first block to the end. *)
Lemma blocks_delivered (k : nat) : forall s cb L q, flowing s cb L q -> pending_event s = GST_EVENT_UNKNOWN ->
  alen L - q = Z.of_nat k ->
  exists n bs s' o, (n <= k + 1)%nat /\ calls n s = Some (tt, s', o ++ [Pause_task]) /\
    pushes o = map Push_buffer bs ++ [Push_event EventEos] /\ consecutive q bs /\
    mjoin (map buffer_data bs) = slice L q (alen L - q) /\ srcresult s' = GST_FLOW_EOS.
Proof.
  induction (lt_wf k) as [k _ IH]. intros s cb L q Hf Hp Hk. pose proof (flowing_range _ _ _ _ Hf) as [Hrg _].
  destruct (decide (q = alen L)) as [->|Hne].
  - destruct (call_eos s cb L Hf Hp) as (s' & E & Hr). exists 1%nat, [], s', [Push_event EventEos].
    rewrite (calls_step 0 s s' _ E), Z.sub_diag, slice_empty. repeat split; done || lia.
  - destruct (call_block s cb L q Hf Hp) as (n & s1 & cb1 & o1 & E & Ho & Hn & Hend & Hf1 & Hp1); [lia|].
    destruct (IH (Z.to_nat (alen L - (q + n))) ltac:(lia) s1 cb1 L (q + n) Hf1 Hp1 ltac:(lia))
      as (m & bs & s' & o & Hm & Ec & Ho' & Hcs & Hj & Hr).
    exists (S m), (mkGstBuffer q (slice L q n) :: bs), s', (o1 ++ o).
    assert (Hsz : gst_buffer_get_size (mkGstBuffer q (slice L q n)) = n) by (apply slice_len; lia).
    rewrite (calls_step m s s1 _ E), Ec, pushes_app, Ho, Ho', app_assoc. split_and!; try done; [lia|..].
    + cbn [consecutive]. by rewrite Hsz.
    + change (slice L q n ++ mjoin (map buffer_data bs) = slice L q (alen L - q)). rewrite Hj, slice_join by lia. f_equal. lia.
Qed.

(** C24: the source delivers the stream: when a plain source is about to push its
    segment (after the change to PAUSED, or after a seek) at offset [q] of a
    connection that does not fail, and downstream accepts what it gets, then within
    one call of the task function per byte left and a few more it pushes the events
    that are due, a segment that starts at [q], buffers that follow one another and
    carry exactly the bytes from [q] to the end, then EOS, and pauses. *)
Theorem source_delivers s cb L q : flowing s cb L q ->
  pending_event s = GST_EVENT_STREAM_START \/ pending_event s = GST_EVENT_SEGMENT ->
  exists n bs s' o, (n <= Z.to_nat (alen L - q) + 3)%nat /\ calls n s = Some (tt, s', o ++ [Pause_task]) /\
    pushes o = match pending_event s with GST_EVENT_STREAM_START => [Push_event EventStreamStart] | _ => [] end ++
      [Push_event (EventSegment (mkGstSegment (segment_flags s) (rate s) GST_FORMAT_BYTES q (u64 (size s)) 0 q))] ++
      map Push_buffer bs ++ [Push_event EventEos] /\
    consecutive q bs /\ mjoin (map buffer_data bs) = slice L q (alen L - q) /\ srcresult s' = GST_FLOW_EOS.
Proof.
  assert (Hseg : forall s, flowing s cb L q -> pending_event s = GST_EVENT_SEGMENT ->
    exists n bs s' o, (n <= Z.to_nat (alen L - q) + 2)%nat /\ calls n s = Some (tt, s', o ++ [Pause_task]) /\
      pushes o = Push_event (EventSegment (mkGstSegment (segment_flags s) (rate s) GST_FORMAT_BYTES q (u64 (size s)) 0 q)) ::
        map Push_buffer bs ++ [Push_event EventEos] /\
      consecutive q bs /\ mjoin (map buffer_data bs) = slice L q (alen L - q) /\ srcresult s' = GST_FLOW_EOS).
  { clear s. intros s Hf Hp. pose proof (flowing_range _ _ _ _ Hf) as [Hrg _].
    destruct (call_event s cb L q Hf) as (s1 & E & Hf1 & _ & _ & _ & Hp1); [auto|]. rewrite Hp in E, Hp1.
    destruct (blocks_delivered (Z.to_nat (alen L - q)) s1 cb L q Hf1 Hp1) as (n & bs & s' & o & Hn & Ec & Ho & Hcs & Hj & Hr); [lia|].
    eexists (S n), bs, s', (_ :: o). rewrite (calls_step n s s1 _ E), Ec. split_and!; [lia|reflexivity| |done..].
    cbn. f_equal. exact Ho. }
  intros Hf [Hp|Hp]; rewrite Hp.
  - destruct (call_event s cb L q Hf) as (s1 & E & Hf1 & Efl & Er & Esz & Hp1); [auto|]. rewrite Hp in E, Hp1.
    destruct (Hseg s1 Hf1 Hp1) as (n & bs & s' & o & Hn & Ec & Ho & Hcs & Hj & Hr).
    eexists (S n), bs, s', (_ :: o). rewrite (calls_step n s s1 _ E), Ec. split_and!; [lia|reflexivity| |done..].
    rewrite Efl, Er, Esz in Ho. cbn. f_equal. exact Ho.
  - destruct (Hseg s Hf Hp) as (n & bs & s' & o & Hn & Ec & Ho & Hcs & Hj & Hr).
    exists n, bs, s', o. split_and!; try done. lia.
Qed.
End calls.

(** ** Pull mode *)

Section pull.
Context {C : Type} `{blocks : BlockLaws C}.

(** C31: a range pulled from a random access connection: inside the content the
    buffer carries the bytes at its offset, at least one and at most as many as
    asked for; at the end and beyond, on a connection that answers -1 there, the
    answer is EOS and no buffer; and the connection is as good as before for the
    next range. *)
Theorem source_getrange_spec (s : JavaSource C) cb offset length :
  callbacks s = Some cb -> blocks_open cb -> 0 <= offset < 2 ^ 31 -> 0 < length < 2 ^ 31 ->
  exists r b s' cb', java_source_getrange allocates offset length s = Some ((r, b), s', []) /\
    callbacks s' = Some cb' /\ blocks_open cb' /\ block_content cb' = block_content cb /\
    if offset <? alen (block_content cb) then
      exists n, r = GST_FLOW_OK /\ 0 < n <= length /\ offset + n <= alen (block_content cb) /\
        b = Some (mkGstBuffer offset (slice (block_content cb) offset n))
    else ends_with_eos cb -> r = GST_FLOW_EOS /\ b = None.
Proof.
  intros Hcb Hop Ho Hl. unfold java_source_getrange. js_eval. rewrite Hcb.
  destruct (ReadBlock cb offset length) as [n cb'] eqn:En.
  destruct (block_read cb offset length n cb' Hop Ho Hl En) as (Hop' & Hco & Hn). cbn [callbacks set_callbacks allocates allocated mapped andb].
  destruct (Z.ltb_spec offset (alen (block_content cb))) as [Hin|Hin].
  - destruct Hn as (Hn & Hend & Hcopy). rewrite (proj2 (Z.ltb_lt 0 n)) by lia. cbn [orb]. cbv beta iota. cbn [callbacks set_callbacks]. rewrite Hcopy.
    eexists _, _, _, cb'. split; [reflexivity|]. split_and!; [done..|]. by exists n.
  - destruct Hn as [-> |[-> Hcopy]].
    + change (0 <? EOS_CODE) with false. cbn [orb]. change (EOS_CODE mod 2 ^ 32) with (2 ^ 32 - 1).
      rewrite (proj2 (Z.leb_gt _ length)) by lia. eexists _, _, _, cb'. split; [reflexivity|]. by split_and!.
    + change (0 <? 0) with false. cbn [orb]. change (0 mod 2 ^ 32) with 0. rewrite (proj2 (Z.leb_le 0 length)) by lia.
      cbv beta iota. cbn [callbacks set_callbacks]. rewrite Hcopy. eexists _, _, _, cb'. split; [reflexivity|]. split_and!; [done..|].
      intros Heos. specialize (Heos offset length ltac:(lia) Hl). by rewrite En in Heos.
Qed.
End pull.

(** ** Runs *)

Definition seven : list Z := [1; 2; 3; 4; 5; 6; 7].
Definition on_file : CJavaInputStreamCallbacks FileHolder :=
  mkCallbacks (Some (FileHolder_open seven (fun n => Z.min n 4))) true true 0.
Definition in_memory : CJavaInputStreamCallbacks MemoryHolder := mkCallbacks (Some (MemoryHolder_open seven)) true true 0.

Definition state_after {C A} (m : act (JavaSource C) A) (s : JavaSource C) : JavaSource C :=
  match m s with Some (_, s, _) => s | None => s end.

Definition effects {C A} (m : act (JavaSource C) A) (s : JavaSource C) : option (list out) := snd <$> m s.

(** The source on a connection, as it is set up and after the change to PAUSED. *)
Definition configured {C} `{StreamCallbacks C} (cb : C) : JavaSource C := fst (CreateSourceElement cb 7 "file:/seven.mp3"%string).
Definition in_paused {C} `{StreamCallbacks C} (cb : C) : JavaSource C :=
  state_after (java_source_change_state GST_STATE_CHANGE_READY_TO_PAUSED false) (configured cb).

Lemma on_file_open : is_open on_file.
Proof.
  split; [done|split; [done|]]. eexists _, 0. split; [reflexivity|]. split; [|done].
  split; [done|compute_true|compute_true|]. cbn. lia.
Qed.

Lemma on_file_reliable : reliable on_file.
Proof. intros n Hn. cbn. lia. Qed.

Lemma source_call_returns_witness :
  is_open on_file /\ is_Some (java_source_loop (mkAllocation false true) (fun _ => (false, GST_FLOW_EOS)) (in_paused on_file)).
Proof.
  split; [exact on_file_open|].
  exact (source_call_returns (in_paused on_file) on_file _ _ eq_refl on_file_open).
Defined.

Lemma source_delivers_witness : exists n bs s' o, (n <= 10)%nat /\
  calls n (in_paused on_file) = Some (tt, s', o ++ [Pause_task]) /\ consecutive 0 bs /\
  mjoin (map buffer_data bs) = seven.
Proof.
  destruct (source_delivers (in_paused on_file) on_file seven 0) as (n & bs & s' & o & Hn & E & _ & Hc & Hj & _);
    [split; try reflexivity; [exact on_file_open|exact on_file_reliable]|left; reflexivity|].
  exists n, bs, s', o. split; [exact Hn|]. split; [exact E|]. split; [exact Hc|exact Hj].
Defined.

Lemma source_getrange_spec_witness :
  (exists b s', java_source_getrange allocates 5 10 (in_paused in_memory) = Some ((GST_FLOW_OK, Some b), s', []) /\
    GST_BUFFER_OFFSET b = 5) /\
  (exists s', java_source_getrange allocates 7 10 (in_paused on_file) = Some ((GST_FLOW_EOS, None), s', [])).
Proof.
  assert (Hb : file_blocks on_file).
  { split; [done|done|]. eexists _, 0. split_and!; [reflexivity|reflexivity|]. cbn. lia. }
  split; [|destruct (source_getrange_spec (in_paused on_file) on_file 7 10) as (r & b & s' & cb' & E & _ & _ & _ & Hr);
    [reflexivity|exact Hb|lia|lia|]; destruct (Hr (file_ends_with_eos on_file Hb)) as [-> ->]; by exists s'].
  destruct (source_getrange_spec (in_paused in_memory) in_memory 5 10) as (r & b & s' & cb' & E & _ & _ & _ & Hr);
    [reflexivity|split; [done|done|]; by eexists|lia|lia|].
  destruct Hr as (n & -> & _ & _ & ->). eexists _, s'. split; [exact E|reflexivity].
Defined.

(** *** Where the code does not do what it means to *)

(** At the end of a memory block [readBlock] returns 0, not -1 as documented: the
    source answers with an empty buffer and no EOS. *)
Example memory_end_not_eos :
  option_map (fun x => fst (fst x)) (java_source_getrange allocates 7 4 (in_paused in_memory)) =
    Some (GST_FLOW_OK, Some (mkGstBuffer 7 [])) /\
  option_map (fun x => fst (fst x)) (java_source_getrange allocates 7 4 (in_paused on_file)) = Some (GST_FLOW_EOS, None).
Proof. by vm_compute. Qed.

(** Reading a memory block in sequence never gets past the first block. *)
Example memory_next_repeats :
  let '(n, c) := ReadNextBlock in_memory in let '(m, c') := ReadNextBlock c in
  n = 7 /\ m = 7 /\ CopyBlock c' 7 = CopyBlock c 7.
Proof. by vm_compute. Qed.

(** With [stop_on_pause], the task of a source that was paused while playing stops
    and is not started again by the change back to PLAYING. *)
Example paused_for_good :
  let s := state_after (java_source_change_state GST_STATE_CHANGE_PLAYING_TO_PAUSED false) (in_paused on_file) in
  stop_on_pause s = true /\
  effects (java_source_loop allocates accept) s = Some [Pause_task] /\
  effects (java_source_change_state GST_STATE_CHANGE_PAUSED_TO_PLAYING false)
    (state_after (java_source_loop allocates accept) s) = Some [].
Proof. by vm_compute. Qed.

(** A seek that throws: the value of the call is not defined, and where it is 0 the
    source takes it for success. *)
Example thrown_seek_accepted :
  let closed := mkCallbacks (Some (mkFileHolder (with_channel None (file_channel (FileHolder_open seven id))))) true true 0 in
  let k := mkGstSeek (double_of_int 1) GST_FORMAT_BYTES 0 GST_SEEK_TYPE_SET 3 GST_SEEK_TYPE_NONE in
  let s := state_after (n ← seek_data k; seek_apply k n) (in_paused closed) in
  pending_event s = GST_EVENT_SEGMENT /\ position s = 3.
Proof. by vm_compute. Qed.

(** A block for which no buffer can be allocated is lost without an error: the
    next buffer has its offset and the bytes after it. *)
Example block_lost :
  let s := state_after (java_source_loop allocates accept;; java_source_loop allocates accept) (in_paused on_file) in
  let s := state_after (java_source_loop (mkAllocation false true) accept) s in
  effects (java_source_loop allocates accept) s = Some [Push_buffer (mkGstBuffer 0 [5; 6; 7])].
Proof. by vm_compute. Qed.
