(* ===== verification/MediaPipeline.v ===== *)
(** * The Java source and the progress buffer together

    GstPipelineFactory.cpp links the Java source to a progress buffer when the
    connection needs buffering.  The two elements run as one machine: the task of
    the source pushes into the buffer, whose own threads run in between; a seek of
    the buffer is a request to the source.  The source keeps the contract the
    buffer relies on, so every run of the pair is a run of the buffer's machine
    ([pipeline_refines]), and what leaves the buffer is the content of the
    connection ([pipeline_bytes]). *)

From S2P Require Import Prelude Float32 GstModel MediaCache CachePosix ProgressBuffer ProgressBufferSpec.
From S2P Require Import StreamCallbacks ConnectionHolders JavaSource.

(** ** The machine *)

(** The task of the source: between two calls, inside a call with the answer to
    the last push, or pushing. *)
Inductive upstream :=
| UIdle
| URun (a : loop_at) (pushed : bool) (result : GstFlowReturn)
| UPush (x : out) (a : loop_at).

(** The seek event at the source. *)
Inductive seeking := NoSeek | Begun (k : GstSeek) | Answered (k : GstSeek) (accepted : bool).

Section pipeline.
Context {Cache : Type} `{laws : CacheLaws Cache} {C : Type} `{streams : StreamLaws C}.
Abbreviation PB := (ProgressBuffer Cache).
Abbreviation JS := (JavaSource C).

Record pipe := mkPipe { src : JS; task : upstream; sought : seeking; buf : conf (Cache := Cache) }.

(** Does the piece end with a push? *)
Definition await (a : loop_at) (o : list out) : upstream :=
  match rev o with
  | Push_event e :: _ => UPush (Push_event e) a
  | Push_buffer b :: _ => UPush (Push_buffer b) a
  | _ => URun a true GST_FLOW_OK
  end.

(** The event a seek of the buffer sends to the source. *)
Definition forwarded (k : GstSeek) : GstSeek :=
  mkGstSeek (seek_rate k) GST_FORMAT_BYTES (seek_flags k) GST_SEEK_TYPE_SET (seek_start k) GST_SEEK_TYPE_NONE.

(** The buffer's configuration after it has answered [r] to an event. *)
Definition received (e : GstEvent) (r : bool) (p : PB) (o : list out) (c : conf (Cache := Cache)) : conf :=
  match e with
  | EventSegment seg =>
      mkConf p (at_ c) (trace c ++ o) (if r then Some (seg_start seg) else None) (if r then seg_start seg else base c)
  | EventEos => mkConf p (at_ c) (trace c ++ o) None (base c)
  | _ => moved c p (at_ c) o
  end.

(** The events among [o] delivered one after the other; they are flushes. *)
Inductive deliver : list out -> conf -> conf -> Prop :=
| DeliverNil c : deliver [] c c
| DeliverEvent c s e pushed r p o l c' :
    progress_buffer_sink_event s e pushed (el c) = Some (r, p, o) ->
    deliver l (received e r p o c) c' -> deliver (Push_event e :: l) c c'
| DeliverSkip c x l c' : (forall e, x <> Push_event e) -> deliver l c c' -> deliver (x :: l) c c'.

(** [L] is the content of the connection, downstream seeks within it. *)
Context (L : list Z).

(** The steps of the buffer's own threads. *)
Inductive local : conf (Cache := Cache) -> conf -> Prop :=
| LocalActivate c active linked r p o :
    srcpad (el c) = true -> progress_buffer_activatepush_src active linked (el c) = Some (r, p, o) ->
    local c (moved c p (at_ c) o)
| LocalLoop c : at_ c = Idle -> srcpad (el c) = true -> local c (moved c (el c) (Item false) [])
| LocalItem c s skip n p o :
    good (Cache := Cache) s -> at_ c = Item skip -> loop_item s skip (el c) = Some (n, p, o) -> local c (moved c p (after skip n) o)
| LocalWake c skip : at_ c = Waiting skip -> local c (moved c (el c) (Item skip) [])
| LocalPushed c result n p o :
    at_ c = Pushing -> loop_pushed result (el c) = Some (n, p, o) -> local c (moved c p (after false n) o)
| LocalReturn c result u p o :
    at_ c = Returning result -> loop_return result (el c) = Some (u, p, o) -> local c (moved c p Idle o)
| LocalSeekEnter c k r p o :
    srcpad (el c) = true -> seek_enter k (el c) = Some (r, p, o) -> local c (moved c p (at_ c) o)
| LocalSeekLocked c k u p o :
    srcpad (el c) = true -> at_ c = Idle -> 0 <= seek_start k < alen L -> alen L < 2 ^ 63 ->
    seek_locked k (el c) = Some (u, p, o) -> local c (moved c p (SeekHeld k) o)
| LocalSeekSource c k sent p o :
    at_ c = SeekHeld k -> seek_source k (el c) = Some (sent, p, o) ->
    local c (moved c p (if sent then SeekUpstream k else SeekEnding k) o)
| LocalSeekExit c k u p o :
    at_ c = SeekEnding k -> seek_exit k (el c) = Some (u, p, o) -> local c (moved c p Idle o).

Inductive pstep : pipe -> pipe -> Prop :=
| PLocal s t k c c' : local c c' -> pstep (mkPipe s t k c) (mkPipe s t k c')
| PEnter s k c a s' o :
    loop_enter s = Some (a, s', o) -> pstep (mkPipe s UIdle k c) (mkPipe s' (URun a true GST_FLOW_OK) k c)
| PPiece s k c a al pushed r a' s' o :
    allocated al = true -> mapped al = true -> (forall r', a <> LoopEnd r') ->
    loop_resume a al pushed r s = Some (a', s', o) -> pstep (mkPipe s (URun a pushed r) k c) (mkPipe s' (await a' o) k c)
| PEvent s k c e a sr pushed r p o :
    good (Cache := Cache) sr -> progress_buffer_sink_event sr e pushed (el c) = Some (r, p, o) ->
    pstep (mkPipe s (UPush (Push_event e) a) k c) (mkPipe s (URun a r GST_FLOW_OK) k (received e r p o c))
| PBuffer s k c b a sr m started r p o :
    good (Cache := Cache) sr -> progress_buffer_chain sr m started b (el c) = Some (r, p, o) ->
    pstep (mkPipe s (UPush (Push_buffer b) a) k c)
      (mkPipe s (URun a true r) k (mkConf p (at_ c) (trace c ++ o)
         (if bool_decide (r = GST_FLOW_OK) then Some (GST_BUFFER_OFFSET b + gst_buffer_get_size b) else None) (base c)))
| PEnd s k c r pushed r0 u s' o :
    loop_end r s = Some (u, s', o) -> pstep (mkPipe s (URun (LoopEnd r) pushed r0) k c) (mkPipe s' UIdle k c)
| PSeekBegin s t c k ok s' o c' :
    at_ c = SeekUpstream k -> is_seekable s = true -> seek_begin (forwarded k) s = Some (ok, s', o) -> deliver o c c' ->
    pstep (mkPipe s t NoSeek c) (mkPipe s' t (if ok then Begun k else Answered k false) c')
| PSeekSource s c k n s1 o1 ok s2 o2 c' :
    seek_data (forwarded k) s = Some (n, s1, o1) -> seek_apply (forwarded k) n s1 = Some (ok, s2, o2) -> deliver o2 c c' ->
    pstep (mkPipe s UIdle (Begun k) c) (mkPipe s2 UIdle (Answered k ok) c')
| PSeekAnswer s t c k accepted u p o :
    at_ c = SeekUpstream k -> seek_source_done k accepted (el c) = Some (u, p, o) ->
    pstep (mkPipe s t (Answered k accepted) c) (mkPipe s t NoSeek (moved c p (SeekEnding k) o)).

(** From the set-up of the two elements on a connection that carries [L], through
    the change to PAUSED. *)
Inductive preachable : pipe -> Prop :=
| PInit c0 size_hint where_ s cb u s' o t pt wt :
    CreateSourceElement c0 size_hint where_ = (s, Some progressbuffer) -> size_hint = alen L \/ size_hint = -1 ->
    callbacks s = Some cb -> is_open cb -> content cb = L -> at_offset cb = 0 ->
    java_source_change_state GST_STATE_CHANGE_READY_TO_PAUSED false s = Some (u, s', o) ->
    preachable (mkPipe s' UIdle NoSeek (mkConf (progress_buffer_init t pt wt) Idle [] None 0))
| PStep p p' : preachable p -> pstep p p' -> preachable p'.

(** ** What the buffer's threads leave alone *)

(** The part of the buffer the source's progress depends on. *)
Definition keeps (p q : PB) : Prop :=
  seg_stop (sink_segment q) = seg_stop (sink_segment p) /\ (eos p = false -> eos q = false) /\ (is_Some (cache p) -> is_Some (cache q)).

#[local] Instance keeps_preorder : PreOrder keeps.
Proof. split; unfold keeps; [by intros p|]. intros p q r (-> & He & Hc) (-> & He' & Hc'). auto. Qed.

Lemma item_keeps s skip : preserves keeps (loop_item s skip).
Proof.
  unfold loop_item, nothing_to_do, loop_event, loop_buffer, progress_buffer_set_pending_event, send_underrun_message.
  preserve; unfold keeps; cbn; eauto.
Qed.

Lemma seek_locked_keeps k : preserves keeps (seek_locked k).
Proof. unfold seek_locked, seek_cache, reset_eos, progress_buffer_set_pending_event. preserve; unfold keeps; cbn; eauto. Qed.

Lemma seek_done_keeps k a : preserves keeps (seek_source_done k a).
Proof. unfold seek_source_done, seek_cache, progress_buffer_set_pending_event. preserve; unfold keeps; cbn; eauto. Qed.

Lemma flags_keep :
  (forall active linked, preserves keeps (progress_buffer_activatepush_src active linked)) /\
  (forall r, preserves keeps (loop_pushed r)) /\ (forall r, preserves keeps (loop_return r)) /\
  (forall k, preserves keeps (seek_enter k)) /\ (forall k, preserves keeps (seek_source k)) /\
  (forall k, preserves keeps (seek_exit k)).
Proof.
  unfold progress_buffer_activatepush_src, reset_eos, loop_pushed, loop_return, seek_enter, seek_source, seek_exit,
    progress_buffer_set_pending_event.
  split_and!; intros; preserve; unfold keeps; cbn; eauto.
Qed.

(** Events other than segments and EOS. *)
Lemma other_keeps s e pushed : (forall seg, e <> EventSegment seg) -> e <> EventEos ->
  preserves keeps (progress_buffer_sink_event s e pushed).
Proof.
  intros H1 H2. unfold progress_buffer_sink_event, progress_buffer_enqueue_item.
  destruct e; try congruence; preserve; try done.
Qed.

(** What the source sees of a configuration only moves on. *)
Definition onward (c c' : conf (Cache := Cache)) : Prop :=
  next c' = next c /\ base c' = base c /\ keeps (el c) (el c').

Lemma local_onward c c' : local c c' -> onward c c'.
Proof.
  destruct flags_keep as (F1 & F2 & F3 & F4 & F5 & F6).
  destruct 1; (split; [done|split; [done|]]); cbn [el moved]; try reflexivity;
    try (by eapply F1); try (by eapply F2); try (by eapply F3); try (by eapply F4); try (by eapply F5); try (by eapply F6).
  - by eapply item_keeps.
  - by eapply seek_locked_keeps.
Qed.

(** ** What the buffer answers *)

Lemma enqueue_buffer_keeps s b : preserves keeps (enqueue_buffer s b).
Proof.
  unfold enqueue_buffer, send_position_message. cbv zeta.
  apply (preserves_update _ sink_segment (fun seg => set_sink_segment (with_position _ seg))); [done|].
  intros seg. preserve; unfold keeps; cbn; eauto.
Qed.

Lemma chain_keeps s m started b : preserves keeps (progress_buffer_chain s m started b).
Proof.
  unfold progress_buffer_chain. cbn [progress_buffer_enqueue_item]. unfold progress_buffer_create_sourcepad,
    progress_buffer_activatemode, progress_buffer_activatepush_src, progress_buffer_activatepull_src, reset_eos,
    progress_buffer_set_pending_event.
  preserve; try apply enqueue_buffer_keeps; unfold keeps; cbn; eauto.
Qed.

Lemma chain_answer s m started b p ch r q o : cache p = Some ch ->
  progress_buffer_chain s m started b p = Some (r, q, o) ->
  GST_BUFFER_OFFSET b + gst_buffer_get_size b <= seg_stop (sink_segment p) ->
  0 <= GST_BUFFER_OFFSET b + gst_buffer_get_size b < 2 ^ 64 -> r = GST_FLOW_OK \/ r = GST_FLOW_EOS.
Proof.
  intros Hc Hrun Hstop Hb. unfold progress_buffer_chain in Hrun. cbn [progress_buffer_enqueue_item] in Hrun.
  cbv beta iota zeta delta [mbind act_bind mret act_ret gets id when] in Hrun.
  destruct (eos p || unexpected p); [repeat case_match; simplify_eq; auto|].
  destruct (enqueue_buffer_runs s b p ch Hc) as (r' & q' & o' & E & _ & _ & Hr). rewrite E in Hrun.
  unfold u64 in Hr. rewrite Z.mod_small, (proj2 (Z.ltb_ge _ _)) in Hr by lia. destruct Hr as [-> _].
  repeat case_match; simplify_eq; auto.
Qed.

Lemma segment_answer s seg pushed c r q o : good (Cache := Cache) s -> segment_ok c seg ->
  progress_buffer_sink_event s (EventSegment seg) pushed (el c) = Some (r, q, o) ->
  r = negb (eos (el c)) /\ (r = true -> sink_segment q = seg).
Proof.
  intros [_ Hcr] [Hf (Hr & _ & Hr2) _ Hfi] Hrun. unfold progress_buffer_sink_event in Hrun.
  cbn [GST_EVENT_IS_SERIALIZED negb andb progress_buffer_enqueue_item] in Hrun.
  cbv beta iota zeta delta [mbind act_bind mret act_ret gets assign emit when id] in Hrun. rewrite andb_false_r in Hrun.
  destruct (eos (el c)); [by simplify_eq|]. destruct (segment_cache_some c s seg Hcr Hfi) as (ch & Ech).
  destruct (enqueue_segment_runs s seg (el c) ch Hf Hr Hr2 Ech) as (q' & o' & E & _ & _ & Hq & _).
  rewrite E in Hrun. by simplify_eq.
Qed.

(** ** The invariant *)

(** A stream that starts with the content. *)
Context (stream : Z -> Z) (Hstream : forall i v, aget L i = Some v -> stream i = v).

(** The element as CreateSourceElement sets it up, on an open connection. *)
Record sane (s : JS) (cb : C) : Prop := {
  sane_callbacks : callbacks s = Some cb;
  sane_open : is_open cb;
  sane_content : content cb = L;
  sane_mode : mode s = MODE_DEFAULT;
  sane_size : size s = alen L \/ size s = -1;
  sane_position : 0 <= position s <= alen L }.

(** Before a segment event: the connection is where the segment will start. *)
Record ready (s : JS) (cb : C) (c : conf (Cache := Cache)) : Prop := {
  ready_offset : at_offset cb = position s;
  ready_inside : position s < alen L;
  ready_update : if update s then position s = 0 /\ base c = 0 else is_Some (cache (el c));
  ready_fixed : seeks cb = false -> position s = 0 /\ eos (el c) = false }.

(** Between buffers: the buffer expects the bytes at [n], the connection is there. *)
Record synced (s : JS) (cb : C) (c : conf (Cache := Cache)) (n : Z) : Prop := {
  synced_next : next c = Some n;
  synced_offset : at_offset cb = n;
  synced_stop : seg_stop (sink_segment (el c)) = u64 (size s) }.

(** A block read and not yet received. *)
Record inflight (s : JS) (cb : C) (c : conf (Cache := Cache)) (b : GstBuffer) : Prop := {
  flight_buffer : b = mkGstBuffer (position s) (slice L (position s) (gst_buffer_get_size b));
  flight_size : 0 < gst_buffer_get_size b < 2 ^ 31;
  flight_end : position s + gst_buffer_get_size b <= alen L;
  flight_offset : at_offset cb = position s + gst_buffer_get_size b;
  flight_next : next c = Some (position s);
  flight_stop : seg_stop (sink_segment (el c)) = u64 (size s) }.

(** What holds where [pending_event] decides what comes next; [dead] is the
    condition under which no block is pushed although none is due. *)
Definition phase (s : JS) (cb : C) (c : conf) (dead : Prop) : Prop :=
  match pending_event s with
  | GST_EVENT_STREAM_START | GST_EVENT_SEGMENT => ready s cb c
  | GST_EVENT_EOS => True
  | GST_EVENT_UNKNOWN => synced s cb c (position s) \/ dead /\ seeks cb = true
  end.

Definition default_segment (s : JS) : GstSegment :=
  mkGstSegment (segment_flags s) (rate s) GST_FORMAT_BYTES (position s) (u64 (size s)) 0 (position s).

Definition task_ok (s : JS) (cb : C) (c : conf) (t : upstream) : Prop :=
  match t with
  | UIdle => phase s cb c (JavaSource.srcresult s <> GST_FLOW_OK)
  | URun NextEvent _ _ => phase s cb c False
  | URun (LoopEnd r) _ _ => phase s cb c (r <> GST_FLOW_OK)
  | UPush (Push_event EventStreamStart) PushedStreamStart | URun PushedStreamStart _ _ =>
      pending_event s = GST_EVENT_STREAM_START /\ ready s cb c
  | UPush (Push_event (EventSegment seg)) PushedSegment =>
      pending_event s = GST_EVENT_SEGMENT /\ ready s cb c /\ seg = default_segment s
  | URun PushedSegment pushed _ =>
      pending_event s = GST_EVENT_SEGMENT /\ if pushed then synced s cb c (position s) else seeks cb = true
  | UPush (Push_event EventEos) PushedEos | URun PushedEos _ _ => pending_event s = GST_EVENT_EOS
  | UPush (Push_event (EventCaps _)) (PushedCaps b) | URun (PushedCaps b) _ _ =>
      pending_event s = GST_EVENT_UNKNOWN /\ inflight s cb c b
  | UPush (Push_buffer b) (PushedBuffer b') => b = b' /\ pending_event s = GST_EVENT_UNKNOWN /\ inflight s cb c b
  | URun (PushedBuffer b) _ r =>
      pending_event s = GST_EVENT_UNKNOWN /\ position s + gst_buffer_get_size b <= alen L /\ 
      (r = GST_FLOW_OK /\ synced s cb c (position s + gst_buffer_get_size b) \/ r = GST_FLOW_EOS)
  | _ => False
  end.

(** A seek keeps the buffer's source pad busy until it is answered. *)
Definition seeking_ok (cb : C) (h : holder) (k : seeking) : Prop :=
  match k with
  | NoSeek => True
  | Begun k => h = SeekUpstream k
  | Answered k a => h = SeekUpstream k /\ (a = false -> seeks cb = false)
  end.

Definition seek_inside (h : holder) : Prop :=
  match h with SeekHeld k | SeekUpstream k => 0 <= seek_start k < alen L | _ => True end.

Record pinv (p : pipe) (cb : C) : Prop := {
  p_sane : sane (src p) cb;
  p_reach : reachable stream (buf p);
  p_inside : seek_inside (at_ (buf p));
  p_seeking : seeking_ok cb (at_ (buf p)) (sought p);
  p_base : seeks cb = false -> base (buf p) = 0;
  p_task : task_ok (src p) cb (buf p) (task p) }.

(** The invariant depends on the buffer through what its threads keep. *)
Lemma task_onward s cb c c' t : onward c c' -> task_ok s cb c t -> task_ok s cb c' t.
Proof.
  intros (Hn & Hb & Hk & He & Hc).
  assert (Hready : ready s cb c -> ready s cb c').
  { intros [H1 H2 H3 H4]. split; auto; [destruct (update s); [by rewrite Hb|auto]|]. intros Hs. destruct (H4 Hs); auto. }
  assert (Hsync : forall n, synced s cb c n -> synced s cb c' n).
  { intros n [H1 H2 H3]. split; [congruence|done|congruence]. }
  assert (Hfl : forall b, inflight s cb c b -> inflight s cb c' b).
  { intros b [H1 H2 H3 H4 H5 H6]. split; try done; congruence. }
  assert (Hph : forall d, phase s cb c d -> phase s cb c' d).
  { intros d. unfold phase. destruct (pending_event s); auto. intros [|]; auto. }
  clear Hn Hb Hk He Hc. destruct t as [|a pushed r|x a]; simpl; [auto| |].
  - destruct a; auto; [intros []; auto| | |]; intros (? & Ha); (split; [done|]); auto; [by destruct pushed; auto|].
    destruct Ha as (? & [[]|]); auto.
  - destruct x; try done; [|destruct e; try done]; destruct a; try done; intros Ha; decompose [and] Ha; auto.
Qed.

(** ** The source's pieces *)

Context (HL : alen L < 2 ^ 63).

Ltac js_run H := cbv beta iota zeta delta [mbind act_bind mret act_ret gets assign emit when deref undefined id signal copy_block] in H.

Lemma enter_ok s cb c a s' o : task_ok s cb c UIdle -> loop_enter s = Some (a, s', o) ->
  s' = s /\ task_ok s cb c (URun a true GST_FLOW_OK).
Proof.
  simpl. intros Ht Hrun. unfold loop_enter in Hrun. js_run Hrun.
  assert (s' = s /\ a = (if bool_decide (JavaSource.srcresult s = GST_FLOW_OK) then NextEvent
    else LoopEnd (JavaSource.srcresult s))) as [-> ->] by (by simplify_eq). split; [done|].
  case_bool_decide; [|exact Ht]. unfold phase in *. destruct (pending_event s); auto.
  destruct Ht as [|[]]; auto.
Qed.

Lemma end_ok s cb c r u s' o pushed r0 : sane s cb -> task_ok s cb c (URun (LoopEnd r) pushed r0) ->
  loop_end r s = Some (u, s', o) -> sane s' cb /\ task_ok s' cb c UIdle.
Proof.
  intros [] Ht Hrun.
  assert (s' = s \/ s' = JavaSource.set_srcresult r s) as Hs
    by (unfold loop_end in Hrun; js_run Hrun; repeat case_match; simplify_eq; auto).
  assert (Hd : r <> GST_FLOW_OK -> JavaSource.srcresult s' = r).
  { intros Hr. unfold loop_end in Hrun. js_run Hrun. rewrite (bool_decide_eq_false_2 (r = _)) in Hrun by done.
    rewrite orb_true_r in Hrun. repeat case_match; by simplify_eq. }
  split; [by destruct Hs as [-> | ->]|].
  unfold task_ok, phase in *. replace (pending_event s') with (pending_event s) by (by destruct Hs as [-> | ->]).
  destruct (pending_event s); [|destruct Hs as [-> | ->]; destruct Ht; by split..|done].
  destruct Ht as [Ht|[Hr Hk]]; [left; destruct Hs as [-> | ->]; destruct Ht; by split|right].
  by rewrite Hd.
Qed.

Lemma sane_u64 s cb : sane s cb -> u64 (position s) = position s.
Proof. intros [? ? ? ? ? Hp]. unfold u64. apply Z.mod_small. lia. Qed.

(** Reading a block: the bytes after the ones the buffer has. *)
Lemma next_block_ok s cb c al a s' o : sane s cb -> pending_event s = GST_EVENT_UNKNOWN -> synced s cb c (position s) ->
  allocated al = true -> mapped al = true -> next_block al s = Some (a, s', o) ->
  exists cb', sane s' cb' /\ seeks cb' = seeks cb /\ task_ok s' cb' c (await a o).
Proof.
  intros Hs Hp [Hn Ho Hst] Hal Hma Hrun. pose proof (sane_u64 _ _ Hs) as Hu. destruct Hs as [Hcb Hop Hco Hm Hsz Hpos].
  unfold next_block in Hrun. js_run Hrun. rewrite Hcb in Hrun.
  destruct (ReadNextBlock cb) as [n cb'] eqn:En.
  destruct (stream_next cb n cb' Hop En) as (Hop' & Hco' & Hse & Hn').
  exists cb'. assert (Hs' : sane (JavaSource.set_callbacks (Some cb') s) cb') by (split; cbn; congruence || done).
  cbn [mode JavaSource.set_callbacks] in Hrun. rewrite Hal, Hma, Hm in Hrun. cbn [negb] in Hrun.
  destruct (Z.ltb_spec 0 n) as [Hpn|Hpn].
  - destruct Hn' as (Hn31 & Hoff & Hend & Hcopy). rewrite Hco, Ho in *.
    cbn [callbacks JavaSource.set_callbacks JavaSource.position] in Hrun. rewrite Hcopy, Hu in Hrun.
    cbn [discont mimetype JavaSource.set_callbacks JavaSource.set_discont] in Hrun.
    assert (Hb : gst_buffer_get_size (mkGstBuffer (position s) (slice L (position s) n)) = n) by (apply slice_len; lia).
    destruct (discont s); cbn in Hrun; destruct (mimetype s); injection Hrun as <- <- <-;
      (split; [by destruct Hs'; split|split; [done|]]); cbn; (split_and!; try done);
      split; cbn; unfold gst_buffer_get_size in *; cbn [buffer_data] in *; rewrite ?Hb; done.
  - destruct (n =? EOS_CODE); [|destruct (n =? OTHER_ERROR_CODE)]; cbn in Hrun; injection Hrun as <- <- <-;
      (split; [by destruct Hs'; split|split; [done|]]); cbn; unfold phase; cbn; rewrite ?Hp; try done;
      left; by split; cbn; rewrite ?Hn'.
Qed.

Lemma event_ok s cb c al a s' o : sane s cb -> phase s cb c False -> allocated al = true -> mapped al = true ->
  next_event al s = Some (a, s', o) -> exists cb', sane s' cb' /\ seeks cb' = seeks cb /\ task_ok s' cb' c (await a o).
Proof.
  intros Hs Hph Hal Hma Hrun. unfold next_event in Hrun. unfold phase in Hph. pose proof (sane_u64 _ _ Hs) as Hu.
  assert (Hgo : (match pending_event s with
    | GST_EVENT_STREAM_START => (emit (Push_event EventStreamStart);; mret PushedStreamStart) s
    | GST_EVENT_SEGMENT => if in_mode MODE_HLS (mode s) then segment_hls s else segment_default s
    | GST_EVENT_EOS => (emit (Push_event EventEos);; mret PushedEos) s
    | GST_EVENT_UNKNOWN => next_block al s end) = Some (a, s', o)).
  { js_run Hrun. destruct (pending_event s); [|done|destruct (in_mode _ _)|done]; cbn [app] in Hrun;
      repeat case_match; simplify_eq; done. }
  clear Hrun. destruct (pending_event s) eqn:Ep.
  - destruct Hph as [Hph|[[] _]]. by eapply next_block_ok.
  - js_run Hgo. injection Hgo as <- <- <-. by exists cb.
  - rewrite (sane_mode _ _ Hs) in Hgo. cbn in Hgo. unfold segment_default in Hgo. js_run Hgo. injection Hgo as <- <- <-.
    exists cb. cbn. rewrite Hu. done.
  - js_run Hgo. injection Hgo as <- <- <-. by exists cb.
Qed.

Lemma piece_ok s cb c a al pushed r a' s' o : sane s cb -> task_ok s cb c (URun a pushed r) ->
  allocated al = true -> mapped al = true -> (forall r', a <> LoopEnd r') ->
  loop_resume a al pushed r s = Some (a', s', o) ->
  exists cb', sane s' cb' /\ seeks cb' = seeks cb /\ task_ok s' cb' c (await a' o).
Proof.
  intros Hs Ht Hal Hma Hne Hrun. pose proof (sane_u64 _ _ Hs) as Hu.
  destruct a as [| | |b|b| |r']; cbn [loop_resume task_ok] in *; [| | | | |by eapply event_ok|by destruct (Hne r')].
  - js_run Hrun. injection Hrun as <- <- <-. exists cb. destruct Hs, Ht as [_ []]. split; [by split|split; [done|]].
    by split.
  - js_run Hrun. injection Hrun as <- <- <-. exists cb. destruct Hs, Ht as [_ Ht]. split; [by split|split; [done|]].
    cbn. unfold phase. cbn. destruct pushed; [left; by destruct Ht|by right].
  - js_run Hrun. injection Hrun as <- <- <-. exists cb. split; [done|split; [done|]]. cbn. unfold phase. by rewrite Ht.
  - js_run Hrun. injection Hrun as <- <- <-. exists cb. destruct Hs, Ht as [Hp []]. split; [by split|split; [done|]].
    cbn. split_and!; try done; by split.
  - destruct Ht as (Hp & He & Ht). unfold buffer_pushed in Hrun. js_run Hrun.
    rewrite Hp, (bool_decide_eq_false_2 (GST_EVENT_UNKNOWN = _)) in Hrun by done. cbn [negb] in Hrun.
    assert (0 <= gst_buffer_get_size b) by (unfold gst_buffer_get_size, alen; lia).
    pose proof (sane_position _ _ Hs). rewrite i64_id in Hrun by (unfold in_i64; lia).
    exists cb. destruct Hs. destruct Ht as [[-> Hsy] | ->]; cbn in Hrun; injection Hrun as <- <- <-;
      (split; [split; cbn; done || lia|split; [done|]]); cbn; unfold phase; cbn; rewrite ?Hp; [|done].
    left. by destruct Hsy.
Qed.

(** ** Seeks *)

Definition flushes (o : list out) : Prop :=
  Forall (fun x => match x with Push_event e => e = EventFlushStart \/ e = EventFlushStop | _ => True end) o.

Lemma onward_trans c c' c'' : onward c c' -> onward c' c'' -> onward c c''.
Proof.
  intros (E1 & E2 & H1) (E3 & E4 & H2). split; [congruence|split; [congruence|]].
  exact (transitivity H1 H2).
Qed.

Lemma flush_delivered s e pushed c r p o : e = EventFlushStart \/ e = EventFlushStop ->
  progress_buffer_sink_event s e pushed (el c) = Some (r, p, o) ->
  received e r p o c = moved c p (at_ c) o /\ onward c (moved c p (at_ c) o) /\ step stream c (moved c p (at_ c) o).
Proof.
  intros He Hrun. assert (H1 : forall seg, e <> EventSegment seg) by (by destruct He; subst).
  assert (H2 : e <> EventEos) by (by destruct He; subst). split_and!; [by destruct He; subst| |by eapply StepOther].
  split; [done|split; [done|]]. by eapply other_keeps.
Qed.

Lemma deliver_ok o c c' : deliver o c c' -> flushes o -> reachable stream c ->
  onward c c' /\ at_ c' = at_ c /\ reachable stream c'.
Proof.
  induction 1 as [c|c s e pushed r p o l c' Hrun Hd IH|c x l c' Hx Hd IH]; intros Hf Hr.
  - split; [by repeat split; auto|done].
  - inversion Hf as [|? ? He Hf']; subst. destruct (flush_delivered s e pushed c r p o He Hrun) as (Erec & Ho & Hst).
    rewrite Erec in *. destruct IH as (Ho' & Ha & Hr'); [done|by eapply ReachStep|]. split; [by eapply onward_trans|]. by rewrite Ha.
  - inversion Hf; subst. auto.
Qed.

Lemma seek_begin_ok s cb k ok s' o : sane s cb -> seek_begin (forwarded k) s = Some (ok, s', o) ->
  ok = true /\ s' = JavaSource.set_srcresult GST_FLOW_FLUSHING s /\ flushes o.
Proof.
  intros [_ _ _ Hm _ _] Hrun. unfold seek_begin in Hrun. js_run Hrun. rewrite Hm in Hrun. cbn in Hrun.
  destruct (ctrue _); injection Hrun as <- <- <-; (split; [done|split; [done|]]); repeat constructor.
Qed.

(** The state a seek leaves behind, when the connection has moved to the position. *)
Definition sought_to (k : GstSeek) (cb : C) (s : JS) : JS :=
  mkJavaSource GST_FLOW_OK GST_EVENT_SEGMENT (seek_start k) 0 (size s) (is_seekable s) (is_random_access s) false true
    (mode s) (stop_on_pause s) (location s) (mimetype s) (seek_rate k) (Some cb).

Lemma seek_source_runs s cb k n s1 o1 ok s2 o2 : sane s cb -> 0 <= seek_start k < alen L ->
  seek_data (forwarded k) s = Some (n, s1, o1) -> seek_apply (forwarded k) n s1 = Some (ok, s2, o2) ->
  exists cb', is_open cb' /\ content cb' = L /\ seeks cb' = seeks cb /\ flushes o2 /\
    if seeks cb then ok = true /\ at_offset cb' = seek_start k /\ s2 = sought_to k cb' s
    else ok = false /\ at_offset cb' = at_offset cb /\
      s2 = JavaSource.set_srcresult GST_FLOW_OK (JavaSource.set_callbacks (Some cb') s).
Proof.
  intros [Hcb Hop Hco Hm Hsz Hpos] Hk Hd Ha. unfold seek_data in Hd. js_run Hd. rewrite Hm, Hcb in Hd.
  change (seek_position MODE_DEFAULT (forwarded k)) with (seek_start k) in Hd.
  destruct (Seek cb (seek_start k)) as [n' cb'] eqn:Es.
  destruct (stream_seek cb (seek_start k) n' cb' Hop) as (Hop' & Hco' & Hse & Hn); [by rewrite Hco|lia|done|].
  injection Hd as -> <- <-. exists cb'. rewrite Hco', Hco. do 3 (split; [done|]).
  unfold seek_apply in Ha. js_run Ha. cbn [mode JavaSource.set_callbacks] in Ha. rewrite Hm in Ha.
  destruct (seeks cb); destruct Hn as [-> Hoff]; [rewrite (proj2 (Z.leb_le 0 _)) in Ha by lia|]; cbn in Ha;
    destruct (ctrue _); injection Ha as <- <- <-; rewrite Hoff; (split; [by repeat apply Forall_cons_2; auto|done]).
Qed.

(** ** The machine keeps the invariant *)

Lemma local_step c c' : local c c' -> step stream c c'.
Proof.
  destruct 1; [eapply StepActivate|eapply StepLoop|eapply StepItem|eapply StepWake|eapply StepPushed|eapply StepReturn
    |eapply StepSeekEnter|eapply StepSeekLocked|eapply StepSeekSource|eapply StepSeekExit]; eauto; lia.
Qed.

Lemma local_holder c c' : local c c' -> seek_inside (at_ c) ->
  seek_inside (at_ c') /\ (forall k, at_ c = SeekUpstream k -> at_ c' = SeekUpstream k).
Proof.
  assert (Ha : forall skip n, seek_inside (after skip n)) by (by intros skip []).
  destruct 1; intros Hi; cbn; (split; [auto|congruence]); try done.
  rewrite H1 in Hi. by destruct sent.
Qed.

Lemma segment_contract s cb c : sane s cb -> 0 < alen L -> ready s cb c -> segment_ok c (default_segment s).
Proof.
  intros [_ _ _ _ Hsz Hpos] HL0 [_ Hin Hup _]. split; cbn [default_segment seg_format seg_start seg_stop seg_flags].
  - done.
  - unfold u64. destruct Hsz as [-> | ->]; [rewrite Z.mod_small by lia; lia|].
    change (-1 mod 2 ^ 64) with (2 ^ 64 - 1). lia.
  - unfold segment_flags. destruct (update s); [|done]. by destruct Hup as [-> ->].
  - unfold segment_flags. destruct (update s); [done|]. intros E. rewrite E in Hup. by destruct Hup.
Qed.

Lemma buffer_contract s cb c b : sane s cb -> inflight s cb c b -> buffer_ok stream c b.
Proof.
  intros [_ _ _ _ _ Hpos] [Hb Hn He _ Hnx _]. split; try lia.
  - by rewrite Hnx, Hb.
  - intros i Hi. assert (GST_BUFFER_OFFSET b = position s) as -> by (by rewrite Hb).
    assert (buffer_data b = slice L (position s) (gst_buffer_get_size b)) as -> by (by rewrite Hb at 1).
    rewrite slice_get by lia.
    destruct (aget_ex L (position s + i)) as [v Hv]; [lia|]. by rewrite Hv, (Hstream _ _ Hv).
  - assert (GST_BUFFER_OFFSET b = position s) as -> by (by rewrite Hb). lia.
Qed.

(** The source only touches its result before it has the stream lock. *)
Lemma task_flushing s cb c t : sane s cb -> task_ok s cb c t ->
  sane (JavaSource.set_srcresult GST_FLOW_FLUSHING s) cb /\ task_ok (JavaSource.set_srcresult GST_FLOW_FLUSHING s) cb c t.
Proof.
  intros [] Ht. split; [by split|].
  assert (Hr : ready s cb c -> ready (JavaSource.set_srcresult GST_FLOW_FLUSHING s) cb c) by (by intros []; split).
  assert (Hy : forall n, synced s cb c n -> synced (JavaSource.set_srcresult GST_FLOW_FLUSHING s) cb c n)
    by (by intros n []; split).
  assert (Hf : forall b, inflight s cb c b -> inflight (JavaSource.set_srcresult GST_FLOW_FLUSHING s) cb c b)
    by (by intros b []; split).
  assert (Hp : forall d d' : Prop, (d -> d') -> phase s cb c d -> phase (JavaSource.set_srcresult GST_FLOW_FLUSHING s) cb c d').
  { intros d d' Hd. unfold phase. cbn. destruct (pending_event s); auto. intros [|[]]; auto. }
  destruct t as [|a pushed r|x a]; cbn in *; [by eapply Hp; [|exact Ht]| |].
  - destruct a; cbn in *; eauto; try (destruct Ht as (? & Ht); split; [done|]); auto; [by destruct pushed; auto|].
    destruct Ht as (? & [[]|]); auto.
  - destruct x; try done; [|destruct e; try done]; destruct a; try done; decompose [and] Ht; auto.
Qed.

Definition moves_on (p' : pipe) : Prop := exists cb, pinv p' cb.

Lemma inv_event s k c cb e a sr pushed r p o : 0 < alen L -> pinv (mkPipe s (UPush (Push_event e) a) k c) cb ->
  good (Cache := Cache) sr -> progress_buffer_sink_event sr e pushed (el c) = Some (r, p, o) ->
  moves_on (mkPipe s (URun a r GST_FLOW_OK) k (received e r p o c)).
Proof.
  intros HL0 [Hs Hr Hi Hk Hb Ht] Hg Hrun. cbn [src task sought buf] in *. exists cb.
  assert (Hother : (forall seg, e <> EventSegment seg) -> e <> EventEos -> task_ok s cb (moved c p (at_ c) o) (URun a r GST_FLOW_OK) ->
    pinv (mkPipe s (URun a r GST_FLOW_OK) k (moved c p (at_ c) o)) cb).
  { intros H1 H2 H3. split; try done. cbn. eapply ReachStep; [done|]. by eapply StepOther. }
  assert (Hon : (forall seg, e <> EventSegment seg) -> e <> EventEos -> onward c (moved c p (at_ c) o)).
  { intros H1 H2. split; [done|split; [done|]]. by eapply other_keeps. }
  destruct e as [seg| | | | | |  |name|]; try done; destruct a; try done; cbn [received].
  - destruct Ht as (Hp & Hrd & ->). pose proof (segment_contract s cb c Hs HL0 Hrd) as Hok.
    destruct (segment_answer sr _ pushed c r p o Hg Hok Hrun) as [Er Hseg].
    split; try done; cbn.
    + eapply ReachStep; [done|]. by eapply (StepSegment stream c sr (default_segment s)).
    + intros Hsk. destruct (ready_fixed _ _ _ Hrd Hsk) as [E1 E2]. rewrite Er, E2. done.
    + split; [done|]. destruct r.
      * split; cbn; [done|apply Hrd|by rewrite (Hseg eq_refl)].
      * destruct (seeks cb) eqn:Esk; [done|]. destruct (ready_fixed _ _ _ Hrd Esk) as [_ E2]. by rewrite E2 in Er.
  - split; try done; cbn. eapply ReachStep; [done|]. by eapply StepEos.
  - apply Hother; try done. exact (task_onward s cb c _ (URun PushedStreamStart r GST_FLOW_OK) (Hon ltac:(done) ltac:(done)) Ht).
  - apply Hother; try done. exact (task_onward s cb c _ (URun (PushedCaps b) r GST_FLOW_OK) (Hon ltac:(done) ltac:(done)) Ht).
Qed.

Lemma inv_buffer s k c cb b a sr m started r p o : pinv (mkPipe s (UPush (Push_buffer b) a) k c) cb ->
  good (Cache := Cache) sr -> progress_buffer_chain sr m started b (el c) = Some (r, p, o) ->
  moves_on (mkPipe s (URun a true r) k (mkConf p (at_ c) (trace c ++ o)
    (if bool_decide (r = GST_FLOW_OK) then Some (GST_BUFFER_OFFSET b + gst_buffer_get_size b) else None) (base c))).
Proof.
  intros [Hs Hr Hi Hk Hb Ht] Hg Hrun. cbn [src task sought buf] in *. exists cb. destruct a; try done.
  destruct Ht as (<- & Hp & Hfl). pose proof (buffer_contract s cb c b Hs Hfl) as Hok.
  split; try done; cbn.
  { eapply ReachStep; [done|]. by eapply (StepChain stream c sr m started b). }
  pose proof Hfl as [Eb Hsz He Hof Hnx Hst]. pose proof (sane_position _ _ Hs).
  assert (Eo : GST_BUFFER_OFFSET b = position s) by (by rewrite Eb).
  destruct (inv_state _ _ (reachable_inv _ _ Hr)) as [[_ Hun _ _ _]|(ch & [Hch _ _ _ _ _])]; [congruence|].
  assert (Hstop : position s + gst_buffer_get_size b <= seg_stop (sink_segment (el c))).
  { rewrite Hst. unfold u64. destruct (sane_size _ _ Hs) as [-> | ->]; [rewrite Z.mod_small by lia; lia|].
    change (-1 mod 2 ^ 64) with (2 ^ 64 - 1). lia. }
  split; [done|split; [done|]].
  destruct (chain_answer sr m started b (el c) ch r p o Hch Hrun) as [-> | ->]; rewrite ?Eo; [lia|lia| |by right].
  left. split; [done|]. rewrite bool_decide_eq_true_2 by done. split; cbn; [done|done|].
  rewrite <- Hst. exact (proj1 (chain_keeps sr m started b _ _ _ _ Hrun)).
Qed.

Lemma inv_seek_source s c cb k n s1 o1 ok s2 o2 c' : pinv (mkPipe s UIdle (Begun k) c) cb ->
  seek_data (forwarded k) s = Some (n, s1, o1) -> seek_apply (forwarded k) n s1 = Some (ok, s2, o2) -> deliver o2 c c' ->
  moves_on (mkPipe s2 UIdle (Answered k ok) c').
Proof.
  intros [Hs Hr Hi Hk Hb Ht] Hd Ha Hdel. cbn [src task sought buf seeking_ok] in *.
  rewrite Hk in Hi. cbn in Hi.
  destruct (seek_source_runs s cb k n s1 o1 ok s2 o2 Hs Hi Hd Ha) as (cb' & Hop & Hco & Hse & Hfl & Hres).
  destruct (deliver_ok _ _ _ Hdel Hfl Hr) as (Hon & Hat & Hr'). pose proof Hon as (Hnx & Hba & _).
  exists cb'. split; cbn [src task sought buf seeking_ok]; try done.
  - destruct Hs, (seeks cb); destruct Hres as (_ & _ & ->); split; cbn; done || lia.
  - by rewrite Hat, Hk.
  - rewrite Hat, Hk, Hse. split; [done|]. destruct (seeks cb); [by destruct Hres as [-> _]|done].
  - by rewrite Hse, Hba.
  - destruct (seeks cb) eqn:Esk; destruct Hres as (_ & Hof & ->).
    + destruct (inv_state _ _ (reachable_inv _ _ Hr')) as [[_ _ _ _ Hidle]|(ch & [Hch _ _ _ _ _])]; [congruence|].
      split; cbn; rewrite ?Hch, ?Hse; try done; lia.
    + pose proof (task_onward _ _ _ _ UIdle Hon Ht) as Ht'. cbn in Ht' |- *. unfold phase in *. cbn.
      destruct (pending_event s); [|destruct Ht'; split; cbn; first [congruence|done|by auto]..|done].
      destruct Ht' as [[]|[_ ?]]; [left; split; cbn; first [congruence|done]|congruence].
Qed.

(** Every step of the pair keeps the invariant. *)
Lemma pstep_inv p p' cb : 0 < alen L -> pinv p cb -> pstep p p' -> moves_on p'.
Proof.
  intros HL0 Hinv Hstep. destruct Hstep.
  - destruct Hinv as [Hs Hr Hi Hk Hb Ht]. cbn in *. exists cb. destruct (local_holder c c' ltac:(done) Hi) as [Hi' Hup].
    pose proof (local_onward c c' ltac:(done)) as Hon. pose proof Hon as (_ & Hba & _).
    split; cbn; try done; [|destruct k as [|k|k a]; cbn in *; auto; destruct Hk; auto|by rewrite Hba|by eapply task_onward].
    eapply ReachStep; [done|]. by apply local_step.
  - destruct Hinv as [Hs Hr Hi Hk Hb Ht]. cbn [src task sought buf] in *.
    destruct (enter_ok s cb c a s' o Ht) as [-> Ht']; [done|]. by exists cb.
  - destruct Hinv as [Hs Hr Hi Hk Hb Ht]. cbn [src task sought buf] in *.
    destruct (piece_ok s cb c a al pushed r a' s' o) as (cb' & Hs' & Hse & Ht'); try done. exists cb'.
    split; cbn [src task sought buf]; try done; rewrite ?Hse; try done. by destruct k; cbn in *; rewrite ?Hse.
  - by eapply inv_event.
  - by eapply inv_buffer.
  - destruct Hinv as [Hs Hr Hi Hk Hb Ht]. cbn [src task sought buf] in *.
    destruct (end_ok s cb c r u s' o pushed r0 Hs Ht) as [Hs' Ht']; [done|]. by exists cb.
  - destruct Hinv as [Hs Hr Hi Hk Hb Ht]. cbn [src task sought buf] in *.
    destruct (seek_begin_ok s cb k ok s' o Hs) as (-> & -> & Hfl); [done|].
    destruct (deliver_ok o c c') as (Hon & Hat & Hr'); [done..|]. pose proof Hon as (_ & Hba & _).
    destruct (task_flushing s cb c t Hs Ht) as [Hs' Ht']. exists cb.
    split; cbn [src task sought buf seeking_ok]; try done; rewrite ?Hat, ?Hba; try done. by eapply task_onward.
  - by eapply inv_seek_source.
  - destruct Hinv as [Hs Hr Hi Hk Hb Ht]. cbn [src task sought buf seeking_ok] in *. exists cb.
    split; cbn [src task sought buf seeking_ok]; try done.
    + eapply ReachStep; [done|]. eapply (StepSeekAnswer stream c k accepted); [done| |done].
      intros ->. destruct Hk as [Ek Hsk]. rewrite Hb by auto. rewrite Ek in Hi. cbn in Hi. lia.
    + eapply task_onward; [|exact Ht]. split; [done|split; [done|]]. by eapply seek_done_keeps.
Qed.

(** The source as it is set up for a plain progress buffer. *)
Lemma create_plain c0 size_hint where_ s : CreateSourceElement c0 size_hint where_ = (s, Some progressbuffer) ->
  mode s = MODE_DEFAULT /\ size s = size_hint.
Proof.
  unfold CreateSourceElement. destruct (Property c0 _ _) as [hls c1], (Property c1 _ _) as [mime c2].
  destruct (NeedBuffer c2), (hls =? 1), (mime =? HLS_VALUE_MIMETYPE_MP2T), (mime =? HLS_VALUE_MIMETYPE_MP3);
    intros [= <-]; done.
Qed.

Lemma preachable_inv p : 0 < alen L -> preachable p -> moves_on p.
Proof.
  intros HL0. induction 1 as [c0 size_hint where_ s cb u s' o t pt wt Hc Hsz Hcb Hop Hco Hof Hst|p p' _ [cb IH] Hstep];
    [|by eapply pstep_inv].
  destruct (create_plain _ _ _ _ Hc) as [Hm Hs]. exists cb.
  unfold java_source_change_state, change_state_up, change_state_down in Hst. js_run Hst. cbn in Hst.
  injection Hst as _ <- _. rewrite Hm. split; cbn; try done.
  - split; cbn; try done; [by rewrite Hs|lia].
  - apply ReachInit.
Qed.

(** ** Nothing is undefined *)

Lemma next_event_returns s cb al : sane s cb -> is_Some (next_event al s).
Proof.
  intros [Hcb Hop _ Hm _ _]. unfold next_event, segment_hls, segment_default, next_block.
  cbv beta iota zeta delta [mbind act_bind mret act_ret gets assign emit when deref undefined id signal copy_block].
  destruct (pending_event s); [|by eexists|rewrite Hm; by eexists|by eexists]. rewrite Hcb.
  destruct (ReadNextBlock cb) as [n cb'] eqn:En. destruct (stream_next cb n cb' Hop En) as (_ & _ & _ & Hn).
  cbn [mode JavaSource.set_callbacks]. rewrite Hm. destruct (0 <? n).
  - destruct Hn as (_ & _ & _ & Hcopy). destruct (allocated al), (mapped al); cbn [negb]; try by eexists.
    cbn [callbacks JavaSource.set_callbacks]. rewrite Hcopy. cbn [discont mimetype JavaSource.set_callbacks].
    destruct (discont s); cbn; destruct (mimetype s); by eexists.
  - destruct (n =? EOS_CODE); by eexists.
Qed.

Lemma resume_returns s cb a al pushed r : sane s cb -> is_Some (loop_resume a al pushed r s).
Proof.
  intros Hs. destruct a; cbn [loop_resume]; try (by eexists); [|by eapply next_event_returns].
  unfold buffer_pushed.
  cbv beta iota zeta delta [mbind act_bind mret act_ret gets assign emit when id].
  destruct (negb _), (bool_decide (r = _)); by eexists.
Qed.

Lemma loop_end_returns r (s : JS) : is_Some (loop_end r s).
Proof.
  unfold loop_end. cbv beta iota zeta delta [mbind act_bind mret act_ret gets assign emit when id].
  destruct (_ || _); cbv beta iota; destruct (negb _); by eexists.
Qed.

Lemma serialized_returns s e pushed (q : PB) : (forall seg, e <> EventSegment seg) -> GST_EVENT_IS_SERIALIZED e = true ->
  e <> EventFlushStop -> is_Some (progress_buffer_sink_event s e pushed q).
Proof.
  intros H1 H2 H3. unfold progress_buffer_sink_event. rewrite H2.
  cbv beta iota zeta delta [mbind act_bind mret act_ret gets assign emit when id].
  destruct e; try done; try (by destruct (H1 s0)); rewrite ?andb_false_r; cbn [negb andb]; destruct (eos q); try by eexists.
  cbn [progress_buffer_enqueue_item]. destruct (enqueue_eos_runs q) as (q' & o & -> & _). by eexists.
Qed.

(** What the source's task does next returns. *)
Definition task_returns (sr : surroundings) (al : allocation) (p : pipe) : Prop :=
  match task p with
  | UIdle => is_Some (loop_enter (src p))
  | URun (LoopEnd r) _ _ => is_Some (loop_end r (src p))
  | URun a pushed r => is_Some (loop_resume a al pushed r (src p))
  | UPush (Push_event e) _ => forall pushed, is_Some (progress_buffer_sink_event sr e pushed (el (buf p)))
  | UPush (Push_buffer b) _ => forall m started, is_Some (progress_buffer_chain sr m started b (el (buf p)))
  | UPush _ _ => False
  end.

Lemma inv_task_returns p cb sr al : 0 < alen L -> pinv p cb -> good (Cache := Cache) sr -> task_returns sr al p.
Proof.
  intros HL0 [Hs Hr _ _ _ Ht] Hg. unfold task_returns. destruct (pieces_total _ _ sr Hr Hg) as (Hch & Hse & _).
  destruct (task p) as [|a pushed r|x a]; [by eexists|destruct a; try (by eapply resume_returns); apply loop_end_returns|].
  destruct x as [b| |e| | | | | | | | | | | | | |]; try done.
  - destruct a; try done. destruct Ht as (<- & _ & Hfl). intros m started. apply Hch. by eapply buffer_contract.
  - intros pushed. destruct e; try done; try (by apply serialized_returns); destruct a; try done.
    destruct Ht as (_ & Hrd & ->). apply Hse. by eapply segment_contract.
Qed.

(** C27: nothing undefined happens between the two elements: in every state the pair
    reaches, whatever the source's task does next (the piece of the loop after an
    answer, the push of an event or of a buffer into the progress buffer) returns,
    the copy out of the Java buffer stays inside it and the buffer's cache exists. *)
Theorem pipeline_returns p sr al : 0 < alen L -> preachable p -> good (Cache := Cache) sr -> task_returns sr al p.
Proof. intros HL0 Hp Hg. destruct (preachable_inv p HL0 Hp) as [cb Hinv]. by eapply inv_task_returns. Qed.

(** C17: the pair refines the progress buffer's machine: the Java source keeps the
    contract that machine asks of upstream.  From set-up on, whatever the
    interleaving of the source's task, the buffer's task and seeks, the buffer's
    configuration is one that machine reaches, for any stream that starts with the
    content of the connection. *)
Theorem pipeline_refines p : 0 < alen L -> preachable p -> reachable stream (buf p).
Proof. intros HL0 Hp. destruct (preachable_inv p HL0 Hp) as [cb []]. done. Qed.
End pipeline.

Section end_to_end.
Context {Cache : Type} `{laws : CacheLaws Cache} {C : Type} `{streams : StreamLaws C}.
Context (L : list Z) (HL0 : 0 < alen L) (HL : alen L < 2 ^ 63).
Implicit Types p : pipe (Cache := Cache) (C := C).

(** The content, continued by a constant. *)
Definition continued (d : Z) (i : Z) : Z := default d (aget L i).

Lemma preachable_reachable d p : preachable L p -> reachable (continued d) (buf p).
Proof.
  intros Hp. assert (Hd : forall i v, aget L i = Some v -> continued d i = v) by (by unfold continued; intros i v ->).
  by destruct (preachable_inv L (continued d) Hd HL p HL0 Hp) as [cb []].
Qed.

(** C16: end to end, every buffer that leaves the progress buffer holds the bytes of
    the connection at its offset, no buffer reaches beyond the content, and they
    leave in order, in every interleaving of the two tasks and of seeks; in order
    of the segment events downstream has got, as long as none that was queued is
    dropped. *)
Theorem pipeline_bytes p : preachable L p ->
  ordered None (trace (buf p)) /\ (existsb segment_lost (trace (buf p)) = false -> announced None (trace (buf p))) /\
  forall b, In (Push_buffer b) (trace (buf p)) ->
    buffer_data b = slice L (GST_BUFFER_OFFSET b) (gst_buffer_get_size b) /\
    forall i, 0 <= i < gst_buffer_get_size b -> 0 <= GST_BUFFER_OFFSET b + i < alen L.
Proof.
  intros Hp. pose proof (fun d => reachable_inv _ _ (preachable_reachable d p Hp)) as Hinv.
  split; [apply (Hinv 0)|]. split; [intros Hl; apply ordered_announced; [done|apply (Hinv 0)]|]. intros b Hb.
  assert (Hc : forall d i, 0 <= i < gst_buffer_get_size b ->
    aget (buffer_data b) i = Some (continued d (GST_BUFFER_OFFSET b + i))).
  { intros d. exact (proj1 (List.Forall_forall _ _) (inv_intact _ _ (Hinv d)) (Push_buffer b) Hb). }
  assert (Hin : forall i, 0 <= i < gst_buffer_get_size b -> 0 <= GST_BUFFER_OFFSET b + i < alen L).
  { intros i Hi. apply aget_is_Some. pose proof (Hc 0 i Hi) as H1. rewrite (Hc 1 i Hi) in H1. unfold continued in H1.
    destruct (aget L _); [by eexists|]. by cbn in H1. }
  split; [|exact Hin]. apply aget_ext. intros i.
  destruct (decide (0 <= i < gst_buffer_get_size b)) as [Hi|Hi].
  - pose proof (Hin 0 ltac:(lia)). rewrite slice_get by lia. rewrite (Hc 0 i Hi). unfold continued.
    destruct (aget_ex L (GST_BUFFER_OFFSET b + i)) as [v ->]; [by apply Hin|done].
  - rewrite !aget_None; [done| |done]. unfold slice, alen. rewrite length_take. lia.
Qed.
End end_to_end.
