(* ===== verification/MediaPipelineRuns.v ===== *)
(** * Runs of the Java source with the progress buffer

    An executable scheduler of the machine of MediaPipeline.v, sound for its step
    relation: the theorems are applied to runs it computes, over an HTTP
    connection and the POSIX cache; the other runs show what happens outside their
    assumptions. *)

From stdpp Require Import strings.
From S2P Require Import Prelude Float32 GstModel MediaCache CachePosix ProgressBuffer ProgressBufferSpec ProgressBufferLive.
From S2P Require Import StreamCallbacks ConnectionHolders JavaSource MediaPipeline.

Abbreviation Http := (CJavaInputStreamCallbacks HttpHolder).
Abbreviation Pair := (pipe (Cache := CachePosix.Cache) (C := Http)).
Abbreviation Conf := (conf (Cache := CachePosix.Cache)).

(** ** The scheduler *)

(** What is scheduled next: pieces of the source's task, then pieces of the
    buffer's threads, then the pieces of a seek. *)
Inductive move :=
| Enter | Piece | Deliver | End
| Loop | TakeItem | Wake | Pushed (r : GstFlowReturn) | Return
| SeekEnter (k : GstSeek) | SeekLock (k : GstSeek) | SeekSource | SeekBegin | SeekData | SeekAnswer | SeekExit.

Definition fine : allocation := mkAllocation true true.

(** The flush events of a seek, delivered. *)
Fixpoint deliver_run (o : list out) (c : Conf) : option Conf :=
  match o with
  | [] => Some c
  | Push_event e :: o =>
      '(r, p, l) ← progress_buffer_sink_event calm e true (el c);
      deliver_run o (received e r p l c)
  | _ :: o => deliver_run o c
  end.

Definition locally {A} (p : Pair) (m : act (ProgressBuffer CachePosix.Cache) A) (h : A -> holder) : option Pair :=
  '(a, q, o) ← m (el (buf p));
  Some (mkPipe (src p) (task p) (sought p) (moved (buf p) q (h a) o)).

Definition source_move (al : allocation) (m : move) (p : Pair) : option Pair :=
  let '(mkPipe s t k c) := p in
  match m, t with
  | Enter, UIdle => '(a, s, _) ← loop_enter s; Some (mkPipe s (URun a true GST_FLOW_OK) k c)
  | End, URun (LoopEnd r) _ _ => '(_, s, _) ← loop_end r s; Some (mkPipe s UIdle k c)
  | Piece, URun (LoopEnd _) _ _ => None
  | Piece, URun a pushed r => '(a, s, o) ← loop_resume a al pushed r s; Some (mkPipe s (await a o) k c)
  | Deliver, UPush (Push_event e) a =>
      '(r, q, o) ← progress_buffer_sink_event calm e true (el c);
      Some (mkPipe s (URun a r GST_FLOW_OK) k (received e r q o c))
  | Deliver, UPush (Push_buffer b) a =>
      '(r, q, o) ← progress_buffer_chain calm GST_PAD_MODE_PUSH true b (el c);
      Some (mkPipe s (URun a true r) k (mkConf q (at_ c) (trace c ++ o)
        (if bool_decide (r = GST_FLOW_OK) then Some (GST_BUFFER_OFFSET b + gst_buffer_get_size b) else None) (base c)))
  | _, _ => None
  end.

Definition buffer_move (L : list Z) (m : move) (p : Pair) : option Pair :=
  let c := buf p in
  match m, at_ c with
  | Loop, Idle => if srcpad (el c) then locally p (mret tt) (fun _ => Item false) else None
  | TakeItem, Item skip => locally p (loop_item calm skip) (after skip)
  | Wake, Waiting skip => locally p (mret tt) (fun _ => Item skip)
  | Pushed r, Pushing => locally p (loop_pushed r) (after false)
  | Return, Returning r => locally p (loop_return r) (fun _ => Idle)
  | SeekEnter k, h => if srcpad (el c) then locally p (seek_enter k) (fun _ => h) else None
  | SeekLock k, Idle =>
      if srcpad (el c) && (0 <=? seek_start k) && (seek_start k <? alen L) && (alen L <? 2 ^ 63)
      then locally p (seek_locked k) (fun _ => SeekHeld k) else None
  | SeekSource, SeekHeld k =>
      locally p (seek_source k) (fun sent => match sent with true => SeekUpstream k | false => SeekEnding k end)
  | SeekExit, SeekEnding k => locally p (seek_exit k) (fun _ => Idle)
  | _, _ => None
  end.

Definition seek_move (m : move) (p : Pair) : option Pair :=
  let '(mkPipe s t k c) := p in
  match m, k, at_ c, t with
  | SeekBegin, NoSeek, SeekUpstream k, _ =>
      if is_seekable s then
        '(ok, s, o) ← seek_begin (forwarded k) s; c ← deliver_run o c;
        Some (mkPipe s t (if ok : bool then Begun k else Answered k false) c)
      else None
  | SeekData, Begun k, _, UIdle =>
      '(n, s, _) ← seek_data (forwarded k) s; '(ok, s, o) ← seek_apply (forwarded k) n s; c ← deliver_run o c;
      Some (mkPipe s t (Answered k ok) c)
  | SeekAnswer, Answered k accepted, SeekUpstream k', _ =>
      if bool_decide (k' = k) then
        '(_, q, o) ← seek_source_done k accepted (el c); Some (mkPipe s t NoSeek (moved c q (SeekEnding k) o))
      else None
  | _, _, _, _ => None
  end.

Definition schedule (L : list Z) (al : allocation) (m : move) (p : Pair) : option Pair :=
  match source_move al m p with
  | Some p' => Some p'
  | None => match buffer_move L m p with Some p' => Some p' | None => seek_move m p end
  end.

Fixpoint run_moves (L : list Z) (al : allocation) (l : list move) (p : Pair) : option Pair :=
  match l with [] => Some p | m :: l => p ← schedule L al m p; run_moves L al l p end.

(** ** It is sound *)

Lemma source_move_sound L m p p' : source_move fine m p = Some p' -> pstep L p p'.
Proof.
  destruct p as [s t k c]. unfold source_move. destruct m; try done; destruct t as [|a pushed r|x a]; try done.
  - destruct (loop_enter s) as [[[a s'] o]|] eqn:E; [|done]. intros [= <-]. by eapply PEnter.
  - destruct a as [| | |b|b| |r0]; try done;
      match goal with |- context [loop_resume ?a ?al ?q ?f ?st] =>
        destruct (loop_resume a al q f st) as [[[a' s'] o]|] eqn:E end; try done;
      cbn [mbind option_bind]; intros [= <-]; (eapply PPiece; [| | |exact E]; done).
  - destruct x; try done.
    + destruct (progress_buffer_chain _ _ _ _ _) as [[[r q] o]|] eqn:E; [|done]. cbn [mbind option_bind]. intros [= <-].
      eapply PBuffer; [exact calm_good|exact E].
    + destruct (progress_buffer_sink_event _ _ _ _) as [[[r q] o]|] eqn:E; [|done]. cbn [mbind option_bind]. intros [= <-].
      eapply PEvent; [exact calm_good|exact E].
  - destruct a; try done. destruct (loop_end result s) as [[[a s'] o]|] eqn:E; [|done]. intros [= <-]. by eapply PEnd.
Qed.

Lemma locally_sound {A} L p (m : act _ A) h p' : locally p m h = Some p' ->
  (forall a q o, m (el (buf p)) = Some (a, q, o) -> local L (buf p) (moved (buf p) q (h a) o)) -> pstep L p p'.
Proof.
  unfold locally. destruct (m (el (buf p))) as [[[a q] o]|] eqn:E; [|done]. cbn [mbind option_bind]. intros [= <-] Hl.
  destruct p as [s t k c]. apply PLocal. by apply Hl.
Qed.

Lemma buffer_move_sound L m p p' : buffer_move L m p = Some p' -> pstep L p p'.
Proof.
  unfold buffer_move. destruct m; try done; destruct (at_ (buf p)) eqn:Eh; try done;
    repeat match goal with |- context [if ?b then _ else None] => destruct b eqn:?; [|done] end;
    intros Hl; eapply (locally_sound L); try exact Hl; intros a q o Hrun; cbv beta;
    try (injection Hrun as _ <- <-; first [by eapply LocalLoop|by eapply LocalWake]);
    try (rewrite <- Eh; by eapply LocalSeekEnter);
    try first [by eapply LocalItem; [exact calm_good|done..]|by eapply LocalPushed|by eapply LocalReturn|by eapply LocalSeekExit].
  - repeat match goal with H : _ && _ = true |- _ => apply andb_true_iff in H as [H ?] end.
    eapply LocalSeekLocked; [done|done| | |done]; lia.
  - pose proof (LocalSeekSource L (buf p) k a q o Eh Hrun) as Hs. by destruct a.
Qed.

Lemma deliver_run_sound o c c' : deliver_run o c = Some c' -> deliver o c c'.
Proof.
  revert c. induction o as [|x o IH]; intros c; cbn [deliver_run]; [intros [= <-]; constructor|].
  destruct x; try (intros Hr; apply DeliverSkip; [done|by apply IH]).
  destruct (progress_buffer_sink_event _ _ _ _) as [[[r q] l]|] eqn:E; [|done]. cbn [mbind option_bind]. intros Hr.
  eapply DeliverEvent; [exact E|by apply IH].
Qed.

Lemma seek_move_sound L m p p' : seek_move m p = Some p' -> pstep L p p'.
Proof.
  destruct p as [s t k c]. unfold seek_move. destruct m; try done; destruct k as [|k|k a]; try done.
  - destruct (at_ c) eqn:Eh; try done. destruct (is_seekable s) eqn:Es; [|done].
    destruct (seek_begin _ _) as [[[ok s'] o]|] eqn:E; [|done]. cbn [mbind option_bind].
    destruct (deliver_run o c) as [c'|] eqn:Ed; [|done]. cbn [mbind option_bind]. intros [= <-].
    eapply PSeekBegin; [done|done|exact E|by apply deliver_run_sound].
  - destruct t; try (by destruct (at_ c)). intros Hrun.
    assert (Hr : ('(n, s, _) ← seek_data (forwarded k) s; '(ok, s, o) ← seek_apply (forwarded k) n s; c ← deliver_run o c;
      Some (mkPipe s UIdle (Answered k ok) c)) = Some p') by (by destruct (at_ c)). clear Hrun.
    destruct (seek_data _ _) as [[[n s1] o1]|] eqn:E1; [|done]. cbn [mbind option_bind] in Hr.
    destruct (seek_apply _ _ _) as [[[ok s2] o2]|] eqn:E2; [|done]. cbn [mbind option_bind] in Hr.
    destruct (deliver_run o2 c) as [c'|] eqn:Ed; [|done]. cbn [mbind option_bind] in Hr. injection Hr as <-.
    eapply PSeekSource; [exact E1|exact E2|by apply deliver_run_sound].
  - destruct (at_ c) as [| | | | | |k'|] eqn:Eh; try done. case_bool_decide; [|done]. subst k'.
    destruct (seek_source_done _ _ _) as [[[u q] o]|] eqn:E; [|done]. cbn [mbind option_bind]. intros [= <-].
    by eapply PSeekAnswer.
Qed.

Lemma run_moves_sound L l p p' : preachable L p -> run_moves L fine l p = Some p' -> preachable L p'.
Proof.
  revert p. induction l as [|m l IH]; intros p Hp; cbn [run_moves]; [by intros [= <-]|].
  destruct (schedule L fine m p) as [q|] eqn:E; [|done]. cbn [mbind option_bind]. apply IH.
  eapply PStep; [exact Hp|]. unfold schedule in E.
  destruct (source_move fine m p) eqn:E1; [injection E as <-; by eapply source_move_sound|].
  destruct (buffer_move L m p) eqn:E2; [injection E as <-; by eapply buffer_move_sound|by eapply seek_move_sound].
Qed.

(** ** An HTTP connection *)

Definition five : list Z := [10; 11; 12; 13; 14].

(** Blocks of three bytes; [ranges] says whether the server serves ranges. *)
Definition server (ranges : bool) : Http :=
  mkCallbacks (Some (HttpHolder_open five (fun n => Z.min n 3) ranges)) true true 0.

Definition paused (cb : Http) : Pair :=
  let s := fst (CreateSourceElement cb 5 "http://host/five.mp3"%string) in
  mkPipe (match java_source_change_state GST_STATE_CHANGE_READY_TO_PAUSED false s with Some (_, s, _) => s | None => s end)
    UIdle NoSeek (mkConf fresh Idle [] None 0).

Lemma server_open ranges : is_open (server ranges) /\ content (server ranges) = five /\ at_offset (server ranges) = 0.
Proof.
  split; [|done]. split; [done|split; [done|]]. eexists _, 0. split; [reflexivity|]. split; [|done].
  split; [done|compute_true|compute_true|]. cbn. lia.
Qed.

Lemma paused_reachable ranges : preachable five (paused (server ranges)).
Proof.
  destruct (server_open ranges) as (Ho & Hc & Ha).
  eapply (PInit five (server ranges) 5 "http://host/five.mp3"%string); [reflexivity|by left|reflexivity|done..|reflexivity].
Qed.

(** One call of the source's task that pushes once, and two of the buffer's task. *)
Definition call_source : list move := [Enter; Piece; Deliver; Piece; End].
Definition push_event_on : list move := [Loop; TakeItem; Return].
Definition push_buffer_on : list move := [Loop; TakeItem; Pushed GST_FLOW_OK; Return].

Definition to_last : GstSeek :=
  mkGstSeek (double_of_int 1) GST_FORMAT_BYTES 1 GST_SEEK_TYPE_SET 4 GST_SEEK_TYPE_NONE.

(** The segment and the first block pass through; a seek to the last byte, which
    the source serves; the new segment and the byte pass through. *)
Definition play_and_seek : list move :=
  call_source ++ call_source ++ call_source ++ push_event_on ++ push_buffer_on ++
  [SeekEnter to_last; SeekLock to_last; SeekSource; SeekBegin; SeekData; SeekAnswer; SeekExit] ++
  call_source ++ call_source ++ push_event_on ++ push_buffer_on.

Definition pushed_buffers (l : list out) : list GstBuffer :=
  omap (fun x => match x with Push_buffer b => Some b | _ => None end) l.

Lemma option_map_inv {A B} (f : A -> B) (x : option A) y : option_map f x = Some y -> exists a, x = Some a /\ f a = y.
Proof. destruct x as [a|]; [|done]. intros [= <-]. by exists a. Qed.

Lemma play_and_seek_runs : exists p, run_moves five fine play_and_seek (paused (server true)) = Some p /\
  (pushed_buffers (trace (buf p)), task p) = ([mkGstBuffer 0 [10; 11; 12]; mkGstBuffer 4 [14]], UIdle).
Proof. apply option_map_inv. vm_compute. reflexivity. Qed.

Lemma pushed_buffers_in b l : In b (pushed_buffers l) -> In (Push_buffer b) l.
Proof.
  induction l as [|x l IH]; [done|]. unfold pushed_buffers. cbn [omap list_omap].
  destruct x; try (intros Hin; right; by apply IH). intros [->|Hin]; [by left|right; by apply IH].
Qed.

Lemma pipeline_refines_witness : exists p : Pair,
  preachable five p /\ task p = UIdle /\ reachable (continued five 0) (buf p).
Proof.
  destruct play_and_seek_runs as (p & E & [= _ Ht]). pose proof (run_moves_sound five _ _ p (paused_reachable true) E) as Hp.
  exists p. split; [exact Hp|]. split; [exact Ht|].
  refine (pipeline_refines five (continued five 0) _ _ p _ Hp); [|reflexivity|reflexivity].
  unfold continued. by intros i v ->.
Defined.

Lemma pipeline_bytes_witness : exists p : Pair, preachable five p /\
  In (Push_buffer (mkGstBuffer 4 [14])) (trace (buf p)) /\ [14] = slice five 4 1 /\ ordered None (trace (buf p)).
Proof.
  destruct play_and_seek_runs as (p & E & [= Hb _]). pose proof (run_moves_sound five _ _ p (paused_reachable true) E) as Hp.
  assert (Hin : In (Push_buffer (mkGstBuffer 4 [14])) (trace (buf p))).
  { apply pushed_buffers_in. rewrite Hb. right. by left. }
  destruct (pipeline_bytes five ltac:(reflexivity) ltac:(reflexivity) p Hp) as (Ho & _ & Hbs).
  exists p. split; [exact Hp|]. split; [exact Hin|]. split; [|exact Ho].
  exact (proj1 (Hbs (mkGstBuffer 4 [14]) Hin)).
Defined.

Lemma pipeline_returns_witness : exists p : Pair, preachable five p /\ task_returns calm fine p.
Proof.
  destruct play_and_seek_runs as (p & E & [= _ Ht]). pose proof (run_moves_sound five _ _ p (paused_reachable true) E) as Hp.
  exists p. split; [exact Hp|].
  refine (pipeline_returns five (continued five 0) _ _ p calm fine _ Hp calm_good); [|reflexivity|reflexivity].
  unfold continued. by intros i v ->.
Defined.

(** ** Outside the assumptions *)

Definition to_first : GstSeek :=
  mkGstSeek (double_of_int 1) GST_FORMAT_BYTES 1 GST_SEEK_TYPE_SET 0 GST_SEEK_TYPE_NONE.

(** The source is about to push EOS when downstream seeks: the buffer has reset its
    end of stream, EOS arrives, and only then the source seeks. *)
Definition eos_during_seek : list move :=
  play_and_seek ++ [Enter; Piece; Piece; SeekEnter to_first; SeekLock to_first; SeekSource; SeekBegin;
    Deliver; Piece; End; SeekData; SeekAnswer; SeekExit].

(** The seek succeeds, but the segment after it is refused, the source stops with
    FLUSHING and nothing is pending: no data comes any more. *)
Example seek_race_stalls :
  option_map (fun p => (next (buf p), eos (el (buf p)), JavaSource.srcresult (src p), pending_event (src p), at_ (buf p)))
    (run_moves five fine (eos_during_seek ++ call_source ++ [Enter; End; Loop; TakeItem]) (paused (server true))) =
  Some (None, true, GST_FLOW_FLUSHING, GST_EVENT_UNKNOWN, Waiting false).
Proof. vm_compute. reflexivity. Qed.
