(* ===== verification/GlTrace.v ===== *)
(** * The trace file of the OpenGL tracer

    tools/gltrace/iolib.c: the library preloaded into a program records its GL
    calls into a file, the replayer reads them back.  The file grows by chunks of
    one megabyte that are mapped into memory one at a time; values are stored
    through [curPtr], which moves from [filePtr] to [endPtr].  Threads record
    under a recursive mutex, and what a recorded call itself calls is not
    recorded ([reentrance]).

    Pointers into the mapping are addresses, a value of type [float] is its bit
    pattern, [int] is 32 bits and pointers are 64 bits wide, least significant
    byte first.  What is behind a pointer argument is an argument: [None] for
    NULL, the bytes up to the terminator for a string. *)

From S2P Require Import Prelude.

(** ** Outcomes: a result, [exit(1)], or undefined behaviour. *)
Inductive outcome (A : Type) :=
| Done (a : A)
| Exited
| Undefined.

Arguments Done {_} _.
Arguments Exited {_}.
Arguments Undefined {_}.

#[global] Instance outcome_ret : MRet outcome := fun A a => Done a.
#[global] Instance outcome_bind : MBind outcome := fun A B k m =>
  match m with Done a => k a | Exited => Exited | Undefined => Undefined end.

(** ** Words in memory *)
Fixpoint le (n : nat) (v : Z) : list Z :=
  match n with O => [] | S n => v mod 256 :: le n (v / 256) end.

Fixpoint of_le (l : list Z) : Z :=
  match l with [] => 0 | b :: l => b + 256 * of_le l end.

Definition u64 (x : Z) : Z := x mod 2 ^ 64.

(** ** The file

    The bytes at its beginning; the rest, up to its size, are zeros. *)
Record tfile := mkFile { fbytes : list Z; fsize : Z }.

Definition file_contents (f : tfile) : list Z :=
  take (Z.to_nat (fsize f)) (fbytes f ++ replicate (Z.to_nat (fsize f - alen (fbytes f))) 0).

(** A byte stored at offset [off]. *)
Definition file_poke (f : tfile) (off b : Z) : tfile :=
  mkFile (take (Z.to_nat off) (fbytes f) ++ replicate (Z.to_nat (off - alen (fbytes f))) 0
          ++ b :: drop (S (Z.to_nat off)) (fbytes f))
         (MAX (fsize f) (off + 1)).

(** [pwrite] of a zero byte at [off]: beyond what was written it only extends
    the file. *)
Definition file_pwrite_zero (f : tfile) (off : Z) : tfile :=
  if alen (fbytes f) <=? off then mkFile (fbytes f) (MAX (fsize f) (off + 1)) else file_poke f off 0.

Definition file_truncate (f : tfile) (n : Z) : tfile := mkFile (take (Z.to_nat n) (fbytes f)) n.

(** ** Constants of iolib.c and iolib.h *)
Definition CHUNKSZ : Z := 1048576.
Definition MARKER : Z := 3735928493.
Definition VERSION_MAJOR : Z := 1.
Definition VERSION_MINOR : Z := 0.
Definition VERSION_REV : Z := 0.
Definition OPC_NONE : Z := 0.
Definition OPC_VERSION : Z := 3740256799.
Definition OPC_MARK : Z := 1.
Definition OPC_THREAD : Z := 2.
Definition OPC_EOF : Z := 4294967295.
Definition IO_WRITE : Z := 0.
Definition IO_READ : Z := 1.

(** [(float)MARKER]: the bits of the nearest binary32 number; it is neither a
    zero nor a NaN, so that it equals only itself. *)
Definition MARKERF : Z := 1331604927.

(** [val == 0.] on the bits of a [float]: both zeros. *)
Definition float_is_zero (b : Z) : bool := (b =? 0) || (b =? 2147483648).

(** The static variables of the recorder, with the file they write. *)
Record Trace := mkTrace {
  t_file : tfile;
  filePtr : Z; endPtr : Z; curPtr : Z;
  fileSize : Z; fileOffset : Z;
  memlock : option (Z * Z);
  curThread : Z;
  reentrance : Z }.

Definition with_lock (t : Trace) (l : option (Z * Z)) (r : Z) : Trace :=
  mkTrace (t_file t) (filePtr t) (endPtr t) (curPtr t) (fileSize t) (fileOffset t) l (curThread t) r.

Definition with_thread (t : Trace) (thr : Z) : Trace :=
  mkTrace (t_file t) (filePtr t) (endPtr t) (curPtr t) (fileSize t) (fileOffset t) (memlock t) thr
          (reentrance t).

(** ** Recording

    [sys off] is what opening, extending and mapping the chunk at [off] gives:
    the address of the mapping, or [None] when one of the three calls fails. *)
Section recorder.
Context (sys : Z -> option Z).

Definition enlarge (t : Trace) : outcome Trace :=
  match sys (fileOffset t) with
  | None => Exited
  | Some p =>
      Done (mkTrace (file_pwrite_zero (t_file t) (fileOffset t + CHUNKSZ - 1))
                    p (p + CHUNKSZ) p CHUNKSZ (fileOffset t + CHUNKSZ)
                    (memlock t) (curThread t) (reentrance t))
  end.

(** [*curPtr++ = b], inside the mapping of the last chunk. *)
Definition store (t : Trace) (b : Z) : outcome Trace :=
  if (filePtr t <=? curPtr t) && (curPtr t <? filePtr t + fileSize t) then
    Done (mkTrace (file_poke (t_file t) (fileOffset t - fileSize t + (curPtr t - filePtr t)) b)
                  (filePtr t) (endPtr t) (curPtr t + 1) (fileSize t) (fileOffset t)
                  (memlock t) (curThread t) (reentrance t))
  else Undefined.

Fixpoint stores (t : Trace) (l : list Z) : outcome Trace :=
  match l with
  | [] => Done t
  | b :: l => t ← store t b; stores t l
  end.

(** [if (curPtr >= endPtr) enlarge();] *)
Definition room (t : Trace) : outcome Trace :=
  if curPtr t >=? endPtr t then enlarge t else Done t.

Definition putInt (arg : Z) (t : Trace) : outcome Trace :=
  if reentrance t >? 1 then Done t else
  t ← room t;
  stores t (le 4 arg).

Definition putIntPtr (arg : option Z) (t : Trace) : outcome Trace :=
  if reentrance t >? 1 then Done t else
  t ← room t;
  match arg with
  | Some v =>
      if u32 v =? MARKER then
        t ← stores t (le 4 MARKER); t ← room t; stores t (le 4 MARKER)
      else stores t (le 4 v)
  | None => t ← stores t (le 4 MARKER); t ← room t; stores t (le 4 0)
  end.

Definition putFloat (arg : Z) (t : Trace) : outcome Trace :=
  if reentrance t >? 1 then Done t else
  t ← room t;
  stores t (le 4 arg).

Definition putFloatPtr (arg : option Z) (t : Trace) : outcome Trace :=
  if reentrance t >? 1 then Done t else
  t ← room t;
  match arg with
  | Some v =>
      if v =? MARKERF then
        t ← stores t (le 4 MARKERF); t ← room t; stores t (le 4 MARKERF)
      else stores t (le 4 v)
  | None => t ← stores t (le 4 MARKERF); t ← room t; stores t (le 4 0)
  end.

(** The loop that copies the bytes [s] across chunks.  [left] is their number;
    one round ends the copy or fills a chunk.  A negative [avail] would make
    [while (avail--)] run out of the mapping. *)
Fixpoint copy_loop (fuel : nat) (s : list Z) (t : Trace) : outcome Trace :=
  if 0 <? alen s then
    match fuel with
    | O => Undefined
    | S fuel =>
        let avail := endPtr t - curPtr t in
        if alen s <=? avail then stores t s
        else if avail <? 0 then Undefined
        else t ← stores t (take (Z.to_nat avail) s);
             t ← enlarge t;
             copy_loop fuel (drop (Z.to_nat avail) s) t
    end
  else Done t.

Definition copy (s : list Z) (t : Trace) : outcome Trace := copy_loop (length s + 2) s t.

(** [while ((long)curPtr & (sizeof(int)-1)) *curPtr++ = (char)0;] *)
Fixpoint align_loop (fuel : nat) (t : Trace) : outcome Trace :=
  if negb (curPtr t & 3 =? 0) then
    match fuel with
    | O => Undefined
    | S fuel => t ← store t 0; align_loop fuel t
    end
  else Done t.

Definition align (t : Trace) : outcome Trace := align_loop 4 t.

Definition putLongLong (arg : Z) (t : Trace) : outcome Trace :=
  if reentrance t >? 1 then Done t else copy (le 8 arg) t.

Definition putPtr (arg : Z) (t : Trace) : outcome Trace :=
  if reentrance t >? 1 then Done t else copy (le 8 arg) t.

Definition putString (str : option (list Z)) (t : Trace) : outcome Trace :=
  if reentrance t >? 1 then Done t else
  match str with
  | None => putInt 0 t
  | Some s =>
      let left := i32 (alen s + 1) in
      t ← copy (take (Z.to_nat left) (s ++ [0])) t;
      align t
  end.

(** [data] is the memory behind the pointer: reading more than it holds is
    undefined. *)
Definition putBytes (data : option (list Z)) (size : Z) (t : Trace) : outcome Trace :=
  if reentrance t >? 1 then Done t else
  match data with
  | None => t ← putInt 0 t; align t
  | Some d =>
      t ← putInt size t;
      if alen d <? size then Undefined
      else t ← copy (take (Z.to_nat size) d) t; align t
  end.

(** The mutex is recursive: [None], or the owner and how often it locked. *)
Definition lock_free (thr : Z) (t : Trace) : bool :=
  match memlock t with None => true | Some (o, _) => o =? thr end.

(** [putCmd] by thread [thr], once the lock can be taken. *)
Definition putCmd (thr cmd : Z) (t : Trace) : outcome Trace :=
  let n := match memlock t with None => 0 | Some (_, n) => n end in
  let t := with_lock t (Some (thr, n + 1)) (i32 (reentrance t + 1)) in
  if reentrance t >? 1 then Done t else
  t ← (if negb (thr =? curThread t) then
         t ← putInt OPC_THREAD t;
         t ← putPtr thr t;
         Done (with_thread t thr)
       else Done t);
  putInt cmd t.

Definition endCmd (t : Trace) : Trace :=
  with_lock t
    (match memlock t with
     | Some (o, n) => if n =? 1 then None else Some (o, n - 1)
     | None => None
     end)
    (i32 (reentrance t - 1)).

Definition putTime (bgn fin : Z) (t : Trace) : outcome Trace :=
  t ← putLongLong bgn t;
  t ← putLongLong fin t;
  Done (endCmd t).

(** [iolib_init(IO_WRITE, ..)]: [created] says whether the file can be created
    or emptied.  [filePtr] is [MAP_FAILED]. *)
Definition iolib_init_write (created : bool) : outcome Trace :=
  if negb created then Exited else
  t ← putInt OPC_VERSION (mkTrace (mkFile [] 0) (-1) 0 0 0 0 None 0 0);
  t ← putInt VERSION_MAJOR t;
  t ← putInt VERSION_MINOR t;
  t ← putInt VERSION_REV t;
  putInt 8 t.

(** [iolib_fini()] of the recorder: the file it leaves. *)
Definition iolib_fini_write (t : Trace) : tfile :=
  if curPtr t <? endPtr t then file_truncate (t_file t) (fileOffset t - (endPtr t - curPtr t))
  else t_file t.
End recorder.

(** ** Reading

    The whole file is mapped; a pointer is its offset from [filePtr], so that
    [endPtr] is the size.  A result of type [const int *] or [const char *] is
    what it points to, [None] for NULL. *)
Record Reader := mkReader { rfile : list Z; rcur : Z; wsize : Z }.

Definition advance (r : Reader) (n : Z) : Reader := mkReader (rfile r) (rcur r + n) (wsize r).

Definition get (A : Type) : Type := Reader -> outcome (A * Reader).

#[global] Instance get_ret : MRet get := fun A a r => Done (a, r).
#[global] Instance get_bind : MBind get := fun A B k m r =>
  match m r with Done (a, r) => k a r | Exited => Exited | Undefined => Undefined end.

(** [n] bytes at [curPtr]; outside the mapping the access is undefined. *)
Definition load (n : Z) : get (list Z) := fun r =>
  if (0 <=? rcur r) && (rcur r + n <=? alen (rfile r)) then
    Done (take (Z.to_nat n) (drop (Z.to_nat (rcur r)) (rfile r)), r)
  else Undefined.

Definition skip (n : Z) : get unit := fun r => Done (tt, advance r n).

(** [if (curPtr + n > endPtr) return dflt;] before the rest of a function. *)
Definition guarded {A} (n : Z) (dflt : A) (m : get A) : get A := fun r =>
  if rcur r + n >? alen (rfile r) then Done (dflt, r) else m r.

Definition getCmd : get Z :=
  guarded 4 (i32 OPC_EOF) (l ← load 4; _ ← skip 4; mret (i32 (of_le l))).

Definition getInt : get Z :=
  guarded 4 0 (l ← load 4; _ ← skip 4; mret (i32 (of_le l))).

Definition getIntPtr : get (option Z) :=
  guarded 4 None
    (l ← load 4; _ ← skip 4;
     if of_le l =? MARKER then
       l ← load 4; _ ← skip 4;
       if of_le l =? 0 then mret None else mret (Some (i32 (of_le l)))
     else mret (Some (i32 (of_le l)))).

Definition getFloat : get Z :=
  guarded 4 0 (l ← load 4; _ ← skip 4; mret (of_le l)).

(** The second word of an escaped value is read but not passed over. *)
Definition getFloatPtr : get (option Z) :=
  guarded 4 None
    (l ← load 4; _ ← skip 4;
     if of_le l =? MARKERF then
       l ← load 4;
       if float_is_zero (of_le l) then mret None else mret (Some (of_le l))
     else mret (Some (of_le l))).

Definition getLongLong : get Z :=
  guarded 8 0 (l ← load 8; _ ← skip 8; mret (i64 (of_le l))).

Definition getPtr : get Z := fun r =>
  guarded (wsize r) 0
    (v ← (if wsize r =? 4 then l ← load 4; mret (u64 (i32 (of_le l)))
          else l ← load 8; mret (of_le l));
     _ ← skip (wsize r); mret v) r.

(** The bytes before the first zero. *)
Fixpoint strlen (l : list Z) : option Z :=
  match l with
  | [] => None
  | b :: l => if b =? 0 then Some 0 else n ← strlen l; Some (n + 1)
  end.

(** [len += 3; len -= len % 4] *)
Definition round4 (len : Z) : Z := i32 (i32 (len + 3) - i32 (len + 3) mod 4).

Definition getString : get (option (list Z)) := fun r =>
  if (0 <=? rcur r) && (rcur r <=? alen (rfile r)) then
    match strlen (drop (Z.to_nat (rcur r)) (rfile r)) with
    | None => Undefined
    | Some n =>
        let len := i32 (n + 1) in
        guarded len None
          (s ← load n; _ ← skip (round4 len); mret (Some s)) r
    end
  else Undefined.

(** NULL, or the data up to the end of the mapping's copy: [size] bytes. *)
Definition getBytes : get (option (list Z)) :=
  guarded 4 None
    (l ← load 4; _ ← skip 4;
     let size := i32 (of_le l) in
     if size <=? 0 then mret None else
     guarded size None (d ← load size; _ ← skip (round4 size); mret (Some d))).

Definition getTime : get (Z * Z) :=
  bgn ← getLongLong; fin ← getLongLong; mret (u64 bgn, u64 fin).

(** [iolib_init(IO_READ, ..)] on a file of the given contents; a file that
    cannot be opened or mapped, like an empty one, ends the program.  The second
    result says whether the version mismatch is reported; the program goes on. *)
Definition iolib_init_read (opened mapped : bool) (contents : list Z) : outcome (Reader * bool) :=
  if negb opened then Exited else
  if negb (mapped && (0 <? alen contents)) then Exited else
  let r := mkReader contents 0 0 in
  '(version, r) ← getInt r;
  if negb (u32 version =? OPC_VERSION) then Exited else
  '(major, r) ← getInt r;
  '(minor, r) ← getInt r;
  '(rev, r) ← getInt r;
  let mismatch := negb (major =? VERSION_MAJOR) || (minor >? VERSION_MINOR) in
  '(w, r) ← getInt r;
  Done (mkReader (rfile r) (rcur r) w, mismatch).
