(* ===== verification/GlTraceSpec.v ===== *)
(** * What the tracer's file holds, and reading it back

    [recording t l]: the recorder is between two stores and the bytes it stored
    are [l].  Each [put] function appends the encoding of its argument, across
    chunks; each [get] function reads that encoding ([reads]). *)

From S2P Require Import Prelude MediaCache Float32 GlTrace.
From Stdlib Require Import SpecFloat.

(** [(float)MARKER] is 14593471 * 2^8. *)
Example marker_float :
  of_int MARKER = S754_finite false 14593471 8 /\ (8 + 150) * 2 ^ 23 + (14593471 - 2 ^ 23) = MARKERF.
Proof. split; reflexivity. Qed.

(** ** Words *)
Lemma le_length n v : length (le n v) = n.
Proof. revert v. induction n as [|n IH]; intros v; [done|]. simpl. by rewrite IH. Qed.

Lemma alen_le n v : alen (le n v) = Z.of_nat n.
Proof. unfold alen. by rewrite le_length. Qed.

Lemma of_le_le n v : of_le (le n v) = v mod 256 ^ Z.of_nat n.
Proof.
  revert v. induction n as [|n IH]; intros v; [by rewrite Z.mod_1_r|].
  cbn [le of_le]. rewrite IH, Nat2Z.inj_succ, Z.pow_succ_r by lia.
  rewrite Z.rem_mul_r by lia. lia.
Qed.

Lemma of_le_4 v : of_le (le 4 v) = u32 v.
Proof. apply (of_le_le 4). Qed.

Lemma of_le_8 v : of_le (le 8 v) = u64 v.
Proof. apply (of_le_le 8). Qed.

Lemma i32_u32 v : i32 (u32 v) = i32 v.
Proof.
  unfold i32, u32. rewrite Zplus_mod_idemp_l. done.
Qed.

Lemma u32_i32 v : u32 (i32 v) = u32 v.
Proof. unfold i32, u32. rewrite Zminus_mod_idemp_l. f_equal. lia. Qed.

Lemma i64_u64 v : i64 (u64 v) = i64 v.
Proof. unfold i64, u64. rewrite Zplus_mod_idemp_l. done. Qed.

Lemma u64_i64 v : u64 (i64 v) = u64 v.
Proof. unfold i64, u64. rewrite Zminus_mod_idemp_l. f_equal. lia. Qed.

(** ** Encodings

    What each [put] function appends at an aligned position. *)

(** Zeros up to a multiple of four. *)
Definition padding (l : list Z) : list Z := replicate (Z.to_nat ((- alen l) mod 4)) 0.

Lemma alen_padding l : alen (padding l) = (- alen l) mod 4.
Proof. unfold padding, alen at 1. rewrite length_replicate. dlia. Qed.

Definition pad4 (l : list Z) : list Z := l ++ padding l.

Lemma alen_pad4 l : alen (pad4 l) mod 4 = 0.
Proof. unfold pad4. rewrite alen_app, alen_padding. dlia. Qed.

Lemma padding_app pre l : alen pre mod 4 = 0 -> padding (pre ++ l) = padding l.
Proof. intros H. unfold padding. rewrite alen_app. do 2 f_equal. clear -H. dlia. Qed.

Inductive item :=
| IInt (v : Z) | IIntPtr (p : option Z) | IFloat (b : Z) | IFloatPtr (p : option Z)
| ILongLong (v : Z) | IPtr (v : Z) | IString (s : option (list Z)) | IBytes (d : option (list Z)) (size : Z).

Definition enc_item (i : item) : list Z :=
  match i with
  | IInt v | IFloat v => le 4 v
  | IIntPtr None => le 4 MARKER ++ le 4 0
  | IIntPtr (Some v) => if u32 v =? MARKER then le 4 MARKER ++ le 4 MARKER else le 4 v
  | IFloatPtr None => le 4 MARKERF ++ le 4 0
  | IFloatPtr (Some v) => if v =? MARKERF then le 4 MARKERF ++ le 4 MARKERF else le 4 v
  | ILongLong v | IPtr v => le 8 v
  | IString None => le 4 0
  | IString (Some s) => pad4 (s ++ [0])
  | IBytes None _ => le 4 0
  | IBytes (Some d) size => le 4 size ++ pad4 (take (Z.to_nat size) d)
  end.

(** A string whose length is an [int], and data that is there. *)
Definition item_ok (i : item) : Prop :=
  match i with
  | IString (Some s) => alen s + 1 < 2 ^ 31
  | IBytes (Some d) size => size <= alen d
  | _ => True
  end.

Lemma alen_enc_item i : alen (enc_item i) mod 4 = 0.
Proof.
  destruct i as [v|[v|]|b|[v|]|v|v|[s|]|[d|] size]; cbn [enc_item]; try done;
    rewrite ?alen_pad4; try done.
  1, 2: by destruct (_ =? _).
  rewrite alen_app, alen_le, Z.add_mod, alen_pad4 by done. done.
Qed.

(** What stores do not touch. *)
Definition same_lock (t t' : Trace) : Prop :=
  memlock t' = memlock t /\ curThread t' = curThread t /\ reentrance t' = reentrance t.

Lemma same_lock_trans t1 t2 t3 : same_lock t1 t2 -> same_lock t2 t3 -> same_lock t1 t3.
Proof. intros (?&?&?) (?&?&?). repeat split; congruence. Qed.

Lemma not_nested t : reentrance t <= 1 -> (reentrance t >? 1) = false.
Proof. rewrite Z.gtb_ltb. intros. by apply Z.ltb_ge. Qed.

Lemma same_lock_reentrance t t' : same_lock t t' -> reentrance t' = reentrance t.
Proof. intros (?&?&?). done. Qed.

(** ** The recorder

    Hypothesis on the system: every chunk can be mapped, at a page boundary. *)
Section recorder.
Context (sys : Z -> option Z).

Definition maps_chunks : Prop := forall off, 0 <= off -> exists p, sys off = Some p /\ 0 < p /\ p mod 4096 = 0.

(** The offset in the file that [curPtr] stands for. *)
Definition position (t : Trace) : Z := fileOffset t - (endPtr t - curPtr t).

(** Either no chunk was mapped yet, or the last chunk is the end of the file. *)
Definition mapped (t : Trace) : Prop :=
  (filePtr t = -1 /\ endPtr t = 0 /\ curPtr t = 0 /\ fileSize t = 0 /\ fileOffset t = 0) \/
  (fileSize t = CHUNKSZ /\ endPtr t = filePtr t + CHUNKSZ /\ filePtr t <= curPtr t <= endPtr t /\
   filePtr t mod 4 = 0 /\ CHUNKSZ <= fileOffset t /\ fileOffset t mod 4 = 0).

Record recording (t : Trace) (l : list Z) : Prop := {
  rec_mapped : mapped t;
  rec_bytes : fbytes (t_file t) = l;
  rec_position : alen l = position t;
  rec_size : fsize (t_file t) = fileOffset t }.

(** [m] ends and appends [l]. *)
Definition writes (m : Trace -> outcome Trace) (t : Trace) (l : list Z) : Prop :=
  forall pre, recording t pre -> exists t', m t = Done t' /\ recording t' (pre ++ l) /\ same_lock t t'.

Lemma file_poke_end f off b : alen (fbytes f) = off -> file_poke f off b = mkFile (fbytes f ++ [b]) (MAX (fsize f) (off + 1)).
Proof.
  intros H. unfold file_poke. rewrite H, Z.sub_diag, take_ge, drop_ge by (unfold alen in H; lia).
  done.
Qed.

Lemma stores_ok l t pre :
  recording t pre -> curPtr t + alen l <= endPtr t ->
  exists t', stores t l = Done t' /\ recording t' (pre ++ l) /\ same_lock t t' /\
    curPtr t' = curPtr t + alen l /\ endPtr t' = endPtr t.
Proof.
  revert t pre. induction l as [|b l IH]; intros t pre [Hm Hb Hp Hs] Hroom.
  - exists t. rewrite app_nil_r, Z.add_0_r. done.
  - rewrite alen_cons in Hroom |- *. pose proof (alen_nonneg l) as Hl.
    destruct Hm as [(?&?&?&?&?)|(Hsz & He & Hc & Hal & Ho & Ho4)]; [lia|].
    unfold position in Hp.
    set (t1 := mkTrace (mkFile (pre ++ [b]) (fileOffset t)) (filePtr t) (endPtr t) (curPtr t + 1)
                 (fileSize t) (fileOffset t) (memlock t) (curThread t) (reentrance t)).
    assert (E : store t b = Done t1).
    { unfold store, t1. rewrite (proj2 (Z.leb_le _ _)), (proj2 (Z.ltb_lt _ _)) by lia. cbn [andb].
      rewrite file_poke_end, Hb, Hs, MAX_spec, Z.max_l by (rewrite ?Hb; lia). done. }
    destruct (IH t1 (pre ++ [b])) as (t' & E' & Hr & Hk & Hc' & He').
    + split; [|done| |done].
      * right. simpl. repeat split; try done; lia.
      * unfold position, t1. simpl. rewrite alen_app, Hp. change (alen [b]) with 1. lia.
    + simpl. lia.
    + exists t'. cbn [stores]. rewrite E. cbn [mbind outcome_bind]. rewrite <- app_assoc in Hr.
      cbn [curPtr endPtr t1] in Hc', He'. split; [done|]. split; [done|]. split; [exact Hk|]. split; [lia|done].
Qed.

Lemma enlarge_ok t pre :
  maps_chunks -> recording t pre -> curPtr t = endPtr t ->
  exists t', enlarge sys t = Done t' /\ recording t' pre /\ same_lock t t' /\
    endPtr t' = curPtr t' + CHUNKSZ.
Proof.
  intros Hsys [Hm Hb Hp Hs] Hfull.
  assert (Ho : 0 <= fileOffset t /\ fileOffset t mod 4 = 0).
  { destruct Hm as [(?&?&?&?&Ho)|(?&?&?&?&?&?)]; [by rewrite Ho|unfold CHUNKSZ in *; lia]. }
  destruct (Hsys (fileOffset t)) as (p & Ep & Hp0 & Hp4); [lia|].
  eexists. unfold enlarge. rewrite Ep. split; [reflexivity|].
  assert (Hp' : p mod 4 = 0) by (clear -Hp4; dlia).
  unfold position in Hp.
  assert (Hf : file_pwrite_zero (t_file t) (fileOffset t + CHUNKSZ - 1) = mkFile pre (fileOffset t + CHUNKSZ)).
  { unfold file_pwrite_zero. rewrite Hb, (proj2 (Z.leb_le _ _)) by (unfold CHUNKSZ; lia).
    rewrite MAX_spec, Hs. f_equal. unfold CHUNKSZ. lia. }
  rewrite Hf. split; [|repeat split].
  split; [|done| |done]; unfold mapped, position; cbn [t_file filePtr endPtr curPtr fileSize fileOffset].
  - right. unfold CHUNKSZ in *. repeat split; try lia.
    clear -Ho. destruct Ho as [_ Ho]. dlia.
  - lia.
Qed.

(** Room for a word at an aligned position. *)
Lemma room_ok t pre :
  maps_chunks -> recording t pre -> alen pre mod 4 = 0 ->
  exists t', room sys t = Done t' /\ recording t' pre /\ same_lock t t' /\ curPtr t' + 4 <= endPtr t'.
Proof.
  intros Hsys Hr Hal. unfold room.
  destruct (Z.geb_spec (curPtr t) (endPtr t)) as [Hge|Hlt].
  - assert (curPtr t = endPtr t).
    { destruct Hr as [[(?&?&?&?&?)|(?&?&?&?&?&?)] _ _ _]; lia. }
    destruct (enlarge_ok t pre) as (t' & E & Hr' & Hk & He); try done.
    exists t'. split; [done|]. split; [done|]. split; [done|]. unfold CHUNKSZ in He. lia.
  - exists t. split; [done|]. split; [done|]. split; [repeat split|].
    destruct Hr as [[(?&?&?&?&?)|(?&?&?&?&?&Ho)] _ Hp _]; [lia|].
    unfold position in Hp. rewrite Hp in Hal. unfold CHUNKSZ in *.
    clear -Hal Hlt Ho. dlia.
Qed.

(** A word is stored. *)
Lemma word_ok t pre l :
  maps_chunks -> recording t pre -> alen pre mod 4 = 0 -> alen l = 4 ->
  exists t', (t ← room sys t; stores t l) = Done t' /\ recording t' (pre ++ l) /\ same_lock t t'.
Proof.
  intros Hsys Hr Hal Hl.
  destruct (room_ok t pre) as (t1 & E1 & Hr1 & Hk1 & Hroom); try done.
  destruct (stores_ok l t1 pre) as (t2 & E2 & Hr2 & Hk2 & _); [done|lia|].
  exists t2. rewrite E1. cbn [mbind outcome_bind]. split; [done|]. split; [done|].
  by apply (same_lock_trans t t1 t2).
Qed.

(** Bytes are copied across any number of chunks. *)
Lemma copy_loop_ok fuel s t pre :
  maps_chunks -> recording t pre -> (length s + (if (curPtr t =? endPtr t)%Z then 1 else 0) < fuel)%nat ->
  exists t', copy_loop sys fuel s t = Done t' /\ recording t' (pre ++ s) /\ same_lock t t'.
Proof.
  intros Hsys. revert s t pre. induction fuel as [|fuel IH]; intros s t pre Hr Hf; [lia|].
  cbn [copy_loop]. destruct (Z.ltb_spec 0 (alen s)) as [Hpos|Hz]; cycle 1.
  { assert (s = []) as -> by (destruct s; [done|rewrite alen_cons in Hz; pose proof (alen_nonneg s); lia]).
    exists t. by rewrite app_nil_r. }
  destruct (Z.leb_spec (alen s) (endPtr t - curPtr t)) as [Hle|Hgt].
  { destruct (stores_ok s t pre) as (t' & E & Hr' & Hk & _); [done|lia|]. by exists t'. }
  assert (Hc : 0 <= endPtr t - curPtr t).
  { destruct Hr as [[(?&?&?&?&?)|(?&?&?&?&?&?)] _ _ _]; lia. }
  destruct (Z.ltb_spec (endPtr t - curPtr t) 0); [lia|].
  set (n := endPtr t - curPtr t) in *.
  assert (Hn : alen (take (Z.to_nat n) s) = n) by (rewrite alen_take; lia).
  destruct (stores_ok (take (Z.to_nat n) s) t pre) as (t1 & E1 & Hr1 & Hk1 & Hc1 & He1); [done|lia|].
  destruct (enlarge_ok t1 _ Hsys Hr1) as (t2 & E2 & Hr2 & Hk2 & He2); [lia|].
  destruct (IH (drop (Z.to_nat n) s) t2 _ Hr2) as (t3 & E3 & Hr3 & Hk3).
  - rewrite length_drop. unfold alen in *.
    destruct (Z.eqb_spec (curPtr t2) (endPtr t2)); [unfold CHUNKSZ in He2; lia|].
    destruct (Z.eqb_spec (curPtr t) (endPtr t)); lia.
  - exists t3. rewrite E1. cbn [mbind outcome_bind]. rewrite E2. cbn [mbind outcome_bind].
    rewrite <- app_assoc, take_drop in Hr3. split; [done|]. split; [done|].
    by apply (same_lock_trans t t1 t3), (same_lock_trans t1 t2 t3).
Qed.

Lemma copy_ok s t : maps_chunks -> writes (copy sys s) t s.
Proof.
  intros Hsys pre Hr. apply copy_loop_ok; [done..|].
  destruct (curPtr t =? endPtr t); lia.
Qed.

Lemma cur_align t pre : recording t pre -> curPtr t mod 4 = alen pre mod 4.
Proof.
  intros [[(?&?&?&?&?)|(?&?&?&?&?&?)] _ Hp _]; unfold position in Hp.
  - f_equal. lia.
  - unfold CHUNKSZ in *. clear -Hp H0 H2 H4. dlia.
Qed.

Lemma align_loop_ok fuel t pre :
  recording t pre -> ((- alen pre) mod 4 <= Z.of_nat fuel) ->
  exists t', align_loop fuel t = Done t' /\ recording t' (pre ++ padding pre) /\ same_lock t t'.
Proof.
  revert t pre. induction fuel as [|fuel IH]; intros t pre Hr Hf;
    cbn [align_loop]; rewrite (land_mask _ 2) by done; change (2 ^ 2) with 4;
    rewrite (cur_align t pre Hr); destruct (Z.eqb_spec (alen pre mod 4) 0) as [Hz|Hnz]; cbn [negb].
  1, 3: (exists t; replace (padding pre) with (@nil Z)
    by (unfold padding; replace ((- alen pre) mod 4) with 0 by dlia; done);
    by rewrite app_nil_r).
  - exfalso. clear -Hf Hnz. dlia.
  - destruct (stores_ok [0] t pre Hr) as (t1 & E1 & Hr1 & Hk1 & _).
    { change (alen [0]) with 1.
      destruct Hr as [[(?&?&?&?&?)|(?&?&?&?&?&?)] _ Hp _]; unfold position in Hp;
        [rewrite Hp in Hnz; replace (fileOffset t - _) with 0 in Hnz by lia; done|].
      destruct (Z.eq_dec (curPtr t) (endPtr t)); [|lia].
      exfalso. apply Hnz. rewrite Hp. clear -H4 e. dlia. }
    cbn [stores] in E1. destruct (store t 0) as [t1'| |]; [|done..].
    cbn [mbind outcome_bind] in E1 |- *. injection E1 as ->.
    destruct (IH t1 (pre ++ [0])) as (t2 & E2 & Hr2 & Hk2).
    + done.
    + rewrite alen_app. change (alen [0]) with 1. clear -Hf Hnz. dlia.
    + exists t2. split; [done|].
      replace (pre ++ padding pre) with ((pre ++ [0]) ++ padding (pre ++ [0])).
      { split; [done|]. by apply (same_lock_trans t t1 t2). }
      rewrite <- app_assoc. f_equal. unfold padding. rewrite alen_app. change (alen [0]) with 1.
      replace (Z.to_nat ((- alen pre) mod 4)) with (S (Z.to_nat ((- (alen pre + 1)) mod 4)))
        by (clear -Hnz; dlia).
      done.
Qed.

Lemma align_ok t pre :
  recording t pre ->
  exists t', align t = Done t' /\ recording t' (pre ++ padding pre) /\ same_lock t t'.
Proof. intros Hr. apply align_loop_ok; [done|]. clear. dlia. Qed.

(** ** The functions append the encodings. *)
Definition put_item (i : item) : Trace -> outcome Trace :=
  match i with
  | IInt v => putInt sys v
  | IIntPtr p => putIntPtr sys p
  | IFloat b => putFloat sys b
  | IFloatPtr p => putFloatPtr sys p
  | ILongLong v => putLongLong sys v
  | IPtr v => putPtr sys v
  | IString s => putString sys s
  | IBytes d size => putBytes sys d size
  end.

Section writing.
Hypothesis (Hsys : maps_chunks).
Context (t : Trace) (pre : list Z).
Hypotheses (Hr : recording t pre) (Hal : alen pre mod 4 = 0) (Hd : reentrance t <= 1).

Lemma putInt_ok v :
  exists t', putInt sys v t = Done t' /\ recording t' (pre ++ le 4 v) /\ same_lock t t'.
Proof. unfold putInt. rewrite (not_nested t Hd). by apply word_ok. Qed.

Lemma put8_ok v :
  exists t', copy sys (le 8 v) t = Done t' /\ recording t' (pre ++ le 8 v) /\ same_lock t t'.
Proof. by apply copy_ok. Qed.

(** The escapes of [putIntPtr] and [putFloatPtr]: two words. *)
Lemma two_words_ok v w :
  exists t', (t ← room sys t; t ← stores t (le 4 v); t ← room sys t; stores t (le 4 w)) = Done t' /\
    recording t' (pre ++ le 4 v ++ le 4 w) /\ same_lock t t'.
Proof.
  destruct (word_ok t pre (le 4 v)) as (t1 & E1 & Hr1 & Hk1); try done.
  destruct (room sys t) as [t0| |]; try done. cbn [mbind outcome_bind] in E1 |- *.
  rewrite E1. cbn [mbind outcome_bind].
  destruct (word_ok t1 (pre ++ le 4 v) (le 4 w)) as (t2 & E2 & Hr2 & Hk2); try done.
  { rewrite alen_app, alen_le. clear -Hal. dlia. }
  exists t2. rewrite <- app_assoc in Hr2. split; [done|]. split; [done|].
  by apply (same_lock_trans t t1 t2).
Qed.

Lemma putIntPtr_ok p :
  exists t', putIntPtr sys p t = Done t' /\ recording t' (pre ++ enc_item (IIntPtr p)) /\ same_lock t t'.
Proof.
  unfold putIntPtr. rewrite (not_nested t Hd). cbn [enc_item].
  destruct p as [v|]; [destruct (u32 v =? MARKER)|]; [apply two_words_ok|by apply word_ok|apply two_words_ok].
Qed.

Lemma putFloatPtr_ok p :
  exists t', putFloatPtr sys p t = Done t' /\ recording t' (pre ++ enc_item (IFloatPtr p)) /\ same_lock t t'.
Proof.
  unfold putFloatPtr. rewrite (not_nested t Hd). cbn [enc_item].
  destruct p as [v|]; [destruct (v =? MARKERF)|]; [apply two_words_ok|by apply word_ok|apply two_words_ok].
Qed.

(** Bytes with their padding. *)
Lemma padded_ok l :
  exists t', (t ← copy sys l t; align t) = Done t' /\ recording t' (pre ++ pad4 l) /\ same_lock t t'.
Proof.
  destruct (copy_ok l t Hsys pre Hr) as (t1 & E1 & Hr1 & Hk1).
  destruct (align_ok t1 _ Hr1) as (t2 & E2 & Hr2 & Hk2).
  exists t2. rewrite E1. cbn [mbind outcome_bind].
  rewrite <- app_assoc, padding_app in Hr2 by done. split; [done|]. split; [done|].
  by apply (same_lock_trans t t1 t2).
Qed.

Lemma putString_ok s :
  item_ok (IString s) ->
  exists t', putString sys s t = Done t' /\ recording t' (pre ++ enc_item (IString s)) /\ same_lock t t'.
Proof.
  intros Hs. unfold putString. rewrite (not_nested t Hd).
  destruct s as [s|]; [|apply putInt_ok]. cbn [item_ok enc_item] in Hs |- *.
  pose proof (alen_nonneg s).
  rewrite i32_id by (unfold in_i32; lia).
  rewrite take_alen by (rewrite alen_app; change (alen [0]) with 1; lia). apply padded_ok.
Qed.
End writing.

Lemma putBytes_ok t pre d size :
  maps_chunks -> recording t pre -> alen pre mod 4 = 0 -> reentrance t <= 1 -> item_ok (IBytes d size) ->
  exists t', putBytes sys d size t = Done t' /\ recording t' (pre ++ enc_item (IBytes d size)) /\ same_lock t t'.
Proof.
  intros Hsys Hr Hal Hd Hs. unfold putBytes. rewrite (not_nested t Hd).
  set (v := if d is Some _ then size else 0).
  destruct (putInt_ok Hsys t pre Hr Hal Hd v) as (t1 & E1 & Hr1 & Hk1).
  assert (Hal1 : alen (pre ++ le 4 v) mod 4 = 0) by (rewrite alen_app, alen_le; clear -Hal; dlia).
  destruct (padded_ok Hsys t1 _ Hr1 Hal1 (if d is Some d then take (Z.to_nat size) d else []))
    as (t2 & E2 & Hr2 & Hk2).
  exists t2. destruct d as [d|]; subst v; rewrite E1; cbn [mbind outcome_bind enc_item item_ok] in *.
  - destruct (Z.ltb_spec (alen d) size); [lia|]. rewrite <- app_assoc in Hr2.
    split; [done|]. split; [done|]. by apply (same_lock_trans t t1 t2).
  - cbn in E2. rewrite app_nil_r in Hr2. split; [done|]. split; [done|]. by apply (same_lock_trans t t1 t2).
Qed.

Lemma put_item_ok i t pre :
  maps_chunks -> recording t pre -> alen pre mod 4 = 0 -> reentrance t <= 1 -> item_ok i ->
  exists t', put_item i t = Done t' /\ recording t' (pre ++ enc_item i) /\ same_lock t t'.
Proof.
  intros Hsys Hr Hal Hd Hi. destruct i; cbn [put_item].
  - by apply putInt_ok.
  - by apply putIntPtr_ok.
  - by apply (putInt_ok Hsys t pre Hr Hal Hd b).
  - by apply putFloatPtr_ok.
  - unfold putLongLong. rewrite (not_nested t Hd). by apply put8_ok.
  - unfold putPtr. rewrite (not_nested t Hd). by apply put8_ok.
  - by apply putString_ok.
  - by apply putBytes_ok.
Qed.

(** Inside a recorded call nothing is written. *)
Lemma put_item_nested i t : 1 < reentrance t -> put_item i t = Done t.
Proof.
  intros H. assert (E : (reentrance t >? 1) = true) by (rewrite Z.gtb_ltb; by apply Z.ltb_lt).
  destruct i; cbn [put_item];
    unfold putInt, putIntPtr, putFloat, putFloatPtr, putLongLong, putPtr, putString, putBytes; by rewrite E.
Qed.
End recorder.
