(* ===== verification/GlTraceThreads.v ===== *)
(** * Threads that record at the same time

    Every intercepted function of gles.c and egl.c records one call: [putCmd],
    its arguments, the original function, its results, [putTime].  The original
    function may itself call intercepted functions.  The threads of the traced
    program take these steps in any order, [putCmd] only when the mutex is free
    or their own; the file receives whole calls, in the order in which they took
    the mutex, and only the outermost ones. *)

From stdpp Require Import gmap.
From S2P Require Import Prelude MediaCache GlTrace GlTraceSpec.

(** ** The steps of a thread *)
Inductive action := ACmd (cmd : Z) | AItem (i : item) | ATime (bgn fin : Z).

Definition act (sys : Z -> option Z) (thr : Z) (a : action) (t : Trace) : outcome Trace :=
  match a with
  | ACmd cmd => putCmd sys thr cmd t
  | AItem i => put_item sys i t
  | ATime bgn fin => putTime sys bgn fin t
  end.

(** A recorded call: what is between its [putCmd] and its [putTime]. *)
Record call := mkCall { c_cmd : Z; c_body : list action; c_bgn : Z; c_fin : Z }.

Definition actions (c : call) : list action := ACmd (c_cmd c) :: c_body c ++ [ATime (c_bgn c) (c_fin c)].

(** The calls inside [l], entered at depth [d], are whole. *)
Fixpoint inner (d : Z) (l : list action) : bool :=
  match l with
  | [] => d =? 0
  | ACmd _ :: l => inner (d + 1) l
  | AItem _ :: l => inner d l
  | ATime _ _ :: l => (0 <? d) && inner (d - 1) l
  end.

(** The arguments that belong to the outer call. *)
Fixpoint top_items (d : Z) (l : list action) : list item :=
  match l with
  | [] => []
  | ACmd _ :: l => top_items (d + 1) l
  | AItem i :: l => if d =? 0 then i :: top_items d l else top_items d l
  | ATime _ _ :: l => top_items (d - 1) l
  end.

Definition items (c : call) : list item := top_items 0 (c_body c).

(** [reentrance] is an [int]: the depth stays below its maximum. *)
Record call_ok (c : call) : Prop := {
  ok_inner : inner 0 (c_body c) = true;
  ok_depth : alen (c_body c) < 2 ^ 31 - 2;
  ok_items : Forall item_ok (items c) }.

(** ** The traced program: the recorder and what each thread has still to do *)
Definition system : Type := Trace * gmap Z (list action).

Definition enabled (thr : Z) (a : action) (t : Trace) : bool :=
  match a with ACmd _ => lock_free thr t | _ => true end.

Definition sched_step (sys : Z -> option Z) (thr : Z) (s : system) : outcome system :=
  match s.2 !! thr with
  | Some (a :: l) =>
      if enabled thr a s.1 then t ← act sys thr a s.1; Done (t, <[thr := l]> s.2) else Done s
  | _ => Done s
  end.

Fixpoint sched_run (sys : Z -> option Z) (sched : list Z) (s : system) : outcome system :=
  match sched with
  | [] => Done s
  | thr :: sched => s ← sched_step sys thr s; sched_run sys sched s
  end.

Definition start (sys : Z -> option Z) (p : gmap Z (list call)) : outcome system :=
  t ← iolib_init_write sys true; Done (t, (fun cs => cs ≫= actions) <$> p).

Definition finished (s : system) : Prop := map_Forall (fun _ l => l = []) s.2.

Definition can_step (s : system) : Prop :=
  exists thr a l, s.2 !! thr = Some (a :: l) /\ enabled thr a s.1 = true.

(** ** What the file should hold *)
Definition cmd_bytes (thr cur cmd : Z) : list Z :=
  (if thr =? cur then [] else le 4 OPC_THREAD ++ le 8 thr) ++ le 4 cmd.

Definition call_bytes (c : call) : list Z :=
  (items c ≫= enc_item) ++ le 8 (c_bgn c) ++ le 8 (c_fin c).

Definition log : Type := list (Z * call).

Fixpoint log_bytes (cur : Z) (l : log) : list Z :=
  match l with
  | [] => []
  | (thr, c) :: l => cmd_bytes thr cur (c_cmd c) ++ call_bytes c ++ log_bytes thr l
  end.

Fixpoint last_thread (cur : Z) (l : log) : Z :=
  match l with [] => cur | (thr, _) :: l => last_thread thr l end.

Definition header : list Z := le 4 OPC_VERSION ++ le 4 1 ++ le 4 0 ++ le 4 0 ++ le 4 8.

Fixpoint calls_of (thr : Z) (l : log) : list call :=
  match l with
  | [] => []
  | (thr', c) :: l => if thr' =? thr then c :: calls_of thr l else calls_of thr l
  end.

(** The log is an interleaving of the threads' calls. *)
Definition interleaving (p : gmap Z (list call)) (l : log) : Prop :=
  Forall (fun x => is_Some (p !! x.1)) l /\ map_Forall (fun thr cs => calls_of thr l = cs) p.

(** ** Lemmas on logs *)
Lemma log_bytes_app cur l thr c :
  log_bytes cur (l ++ [(thr, c)]) =
  log_bytes cur l ++ cmd_bytes thr (last_thread cur l) (c_cmd c) ++ call_bytes c.
Proof.
  revert cur. induction l as [|[thr' c'] l IH]; intros cur; simpl; [by rewrite app_nil_r|].
  rewrite IH, <- !app_assoc. done.
Qed.

Lemma last_thread_app cur l thr c : last_thread cur (l ++ [(thr, c)]) = thr.
Proof. revert cur. by induction l as [|[??] l IH]; intros cur; simpl. Qed.

Lemma calls_of_app thr l thr' c :
  calls_of thr (l ++ [(thr', c)]) = calls_of thr l ++ (if thr' =? thr then [c] else []).
Proof.
  induction l as [|[thr'' c'] l IH]; simpl; [done|].
  rewrite IH. by destruct (thr'' =? thr).
Qed.

Lemma alen_cmd_bytes thr cur cmd : alen (cmd_bytes thr cur cmd) mod 4 = 0.
Proof. unfold cmd_bytes. by destruct (thr =? cur). Qed.

Lemma alen_items l : alen (l ≫= enc_item) mod 4 = 0.
Proof.
  induction l as [|i l IH]; [done|]. cbn [mbind list_bind].
  rewrite alen_app. pose proof (alen_enc_item i). clear -IH H. dlia.
Qed.

Lemma alen_log_bytes cur l : alen (log_bytes cur l) mod 4 = 0.
Proof.
  revert cur. induction l as [|[thr c] l IH]; intros cur; [done|]. simpl.
  unfold call_bytes. rewrite !alen_app, !alen_le.
  pose proof (alen_cmd_bytes thr cur (c_cmd c)). pose proof (alen_items (items c)). specialize (IH thr).
  clear -IH H H0. dlia.
Qed.

(** Every call takes at least a word. *)
Lemma log_bytes_long cur l : (length l <= length (log_bytes cur l))%nat.
Proof.
  revert cur. induction l as [|[thr c] l IH]; intros cur; [done|]. cbn [log_bytes length].
  unfold call_bytes. rewrite !length_app, !le_length. specialize (IH thr). lia.
Qed.

Lemma sched_run_app sys sched more s :
  sched_run sys (sched ++ more) s = (s ← sched_run sys sched s; sched_run sys more s).
Proof.
  revert s. induction sched as [|thr sched IH]; intros s; [done|]. cbn [app sched_run].
  destruct (sched_step sys thr s); cbn [mbind outcome_bind]; [apply IH|done..].
Qed.

(** ** Single steps *)
Section steps.
Context (sys : Z -> option Z) (Hsys : maps_chunks sys).

(** The recorder in the middle of a call of [thr], [d] calls deep inside it. *)
Record in_call (t : Trace) (thr d : Z) (pre : list Z) : Prop := {
  call_lock : memlock t = Some (thr, d + 1);
  call_depth : reentrance t = d + 1;
  call_thread : curThread t = thr;
  call_bytes_ok : recording t pre;
  call_aligned : alen pre mod 4 = 0 }.

Record between_calls (t : Trace) (thr : Z) (pre : list Z) : Prop := {
  idle_lock : memlock t = None;
  idle_depth : reentrance t = 0;
  idle_thread : curThread t = thr;
  idle_bytes : recording t pre;
  idle_aligned : alen pre mod 4 = 0 }.

Lemma recording_lock t l r pre : recording t pre -> recording (with_lock t l r) pre.
Proof. intros [H1 H2 H3 H4]. split; [exact H1|exact H2|exact H3|exact H4]. Qed.

Lemma recording_thread t thr pre : recording t pre -> recording (with_thread t thr) pre.
Proof. intros [H1 H2 H3 H4]. split; [exact H1|exact H2|exact H3|exact H4]. Qed.

Lemma outer_cmd t cur pre thr cmd :
  between_calls t cur pre ->
  exists t', putCmd sys thr cmd t = Done t' /\ in_call t' thr 0 (pre ++ cmd_bytes thr cur cmd).
Proof.
  intros [Hl Hd Ht Hr Hal]. unfold putCmd. rewrite Hl, Hd.
  change (i32 (0 + 1)) with 1. cbn [with_lock reentrance].
  set (t0 := with_lock t (Some (thr, 0 + 1)) 1).
  assert (Hr0 : recording t0 pre) by by apply recording_lock.
  change (curThread t0) with (curThread t). rewrite Ht. unfold cmd_bytes.
  destruct (Z.eqb_spec thr cur) as [->|Hne]; cbn [negb].
  - cbn [mbind outcome_bind]. destruct (putInt_ok sys Hsys t0 pre Hr0 Hal (ltac:(done)) cmd)
      as (t1 & E & Hr1 & Hk). rewrite E. exists t1. split; [done|].
    destruct Hk as (Hk1 & Hk2 & Hk3).
    split; [by rewrite Hk1|by rewrite Hk3|by rewrite Hk2|done|].
    rewrite alen_app. cbn [app]. rewrite alen_le. clear -Hal. dlia.
  - destruct (putInt_ok sys Hsys t0 pre Hr0 Hal (ltac:(done)) OPC_THREAD) as (t1 & E1 & Hr1 & Hk1).
    rewrite E1. cbn [mbind outcome_bind].
    assert (Hd1 : reentrance t1 <= 1) by (destruct Hk1 as (?&?&->); done).
    assert (Hal1 : alen (pre ++ le 4 OPC_THREAD) mod 4 = 0) by (rewrite alen_app, alen_le; clear -Hal; dlia).
    unfold putPtr at 1. rewrite (not_nested t1 Hd1).
    destruct (put8_ok sys Hsys t1 _ Hr1 thr) as (t2 & E2 & Hr2 & Hk2).
    rewrite E2. cbn [mbind outcome_bind].
    assert (Hd2 : reentrance (with_thread t2 thr) <= 1) by (destruct Hk2 as (?&?&E); simpl; lia).
    assert (Hal2 : alen ((pre ++ le 4 OPC_THREAD) ++ le 8 thr) mod 4 = 0)
      by (rewrite alen_app, alen_le; clear -Hal1; dlia).
    destruct (putInt_ok sys Hsys (with_thread t2 thr) _ (recording_thread _ _ _ Hr2) Hal2 Hd2 cmd)
      as (t3 & E3 & Hr3 & Hk3).
    exists t3. split; [done|]. rewrite <- !app_assoc in Hr3.
    destruct Hk1 as (Hk1 & _ & Hk1'), Hk2 as (Hk2 & _ & Hk2'), Hk3 as (Hk3 & Hk3' & Hk3'').
    split; [by rewrite Hk3; simpl; rewrite Hk2, Hk1|by rewrite Hk3''; simpl; rewrite Hk2', Hk1'
           |by rewrite Hk3'|by rewrite <- !app_assoc|].
    rewrite !alen_app, !alen_le. rewrite !alen_app, !alen_le in Hal2. clear -Hal2. dlia.
Qed.

Lemma inner_cmd t thr d pre cmd :
  in_call t thr d pre -> 0 <= d < 2 ^ 31 - 2 ->
  exists t', putCmd sys thr cmd t = Done t' /\ in_call t' thr (d + 1) pre.
Proof.
  intros [Hl Hd Ht Hr Hal] Hb. unfold putCmd. rewrite Hl, Hd, i32_id by (unfold in_i32; lia).
  cbn [with_lock reentrance]. rewrite (proj2 (Z.gtb_lt _ _)) by lia.
  eexists. split; [reflexivity|]. split; [done..|by apply recording_lock|done].
Qed.

Lemma call_item t thr d pre i :
  in_call t thr d pre -> 0 <= d -> (d = 0 -> item_ok i) ->
  exists t', put_item sys i t = Done t' /\ in_call t' thr d (pre ++ (if d =? 0 then enc_item i else [])).
Proof.
  intros [Hl Hd Ht Hr Hal] Hb Hi. destruct (Z.eqb_spec d 0) as [->|Hn].
  - destruct (put_item_ok sys i t pre Hsys Hr Hal) as (t' & E & Hr' & (Hk1 & Hk2 & Hk3)); [lia|auto|].
    exists t'. split; [done|]. split; [by rewrite Hk1|by rewrite Hk3|by rewrite Hk2|done|].
    rewrite alen_app. pose proof (alen_enc_item i) as H. clear -H Hal. dlia.
  - exists t. rewrite app_nil_r, put_item_nested by lia. split; [done|]. by split.
Qed.

Lemma inner_time t thr d pre bgn fin :
  in_call t thr d pre -> 0 < d < 2 ^ 31 - 2 ->
  exists t', putTime sys bgn fin t = Done t' /\ in_call t' thr (d - 1) pre.
Proof.
  intros [Hl Hd Ht Hr Hal] Hb. unfold putTime, putLongLong.
  rewrite (proj2 (Z.gtb_lt (reentrance t) 1)) by lia. cbn [mbind outcome_bind].
  rewrite (proj2 (Z.gtb_lt (reentrance t) 1)) by lia. cbn [mbind outcome_bind].
  eexists. split; [reflexivity|]. unfold endCmd. rewrite Hl, Hd, (proj2 (Z.eqb_neq _ _)) by lia.
  rewrite i32_id by (unfold in_i32; lia).
  split; [simpl; do 2 f_equal; lia|simpl; lia|done|by apply recording_lock|done].
Qed.

Lemma outer_time t thr pre bgn fin :
  in_call t thr 0 pre ->
  exists t', putTime sys bgn fin t = Done t' /\ between_calls t' thr (pre ++ le 8 bgn ++ le 8 fin).
Proof.
  intros [Hl Hd Ht Hr Hal]. unfold putTime, putLongLong. rewrite not_nested by lia.
  destruct (put8_ok sys Hsys t _ Hr bgn) as (t1 & E1 & Hr1 & (Hk1 & Hk1' & Hk1'')).
  rewrite E1. cbn [mbind outcome_bind]. rewrite not_nested by lia.
  destruct (put8_ok sys Hsys t1 _ Hr1 fin) as (t2 & E2 & Hr2 & (Hk2 & Hk2' & Hk2'')).
  rewrite E2. cbn [mbind outcome_bind]. eexists. split; [reflexivity|].
  rewrite <- app_assoc in Hr2. unfold endCmd. rewrite Hk2, Hk1, Hl, Hk2'', Hk1'', Hd.
  split; [done..|simpl; congruence|by apply recording_lock|].
  rewrite !alen_app, !alen_le. clear -Hal. dlia.
Qed.

Lemma init_ok : exists t, iolib_init_write sys true = Done t /\ between_calls t 0 header.
Proof.
  unfold iolib_init_write. cbn [negb].
  assert (Hr0 : recording (mkTrace (mkFile [] 0) (-1) 0 0 0 0 None 0 0) []).
  { split; [left|..]; done. }
  destruct (putInt_ok sys Hsys _ _ Hr0 (ltac:(done)) (ltac:(done)) OPC_VERSION) as (t1 & -> & Hr1 & K1).
  cbn [mbind outcome_bind].
  destruct (putInt_ok sys Hsys _ _ Hr1 (ltac:(done)) (ltac:(by destruct K1 as (?&?&->))) VERSION_MAJOR)
    as (t2 & -> & Hr2 & K2). apply (same_lock_trans _ _ _ K1) in K2. cbn [mbind outcome_bind].
  destruct (putInt_ok sys Hsys _ _ Hr2 (ltac:(done)) (ltac:(by destruct K2 as (?&?&->))) VERSION_MINOR)
    as (t3 & -> & Hr3 & K3). apply (same_lock_trans _ _ _ K2) in K3. cbn [mbind outcome_bind].
  destruct (putInt_ok sys Hsys _ _ Hr3 (ltac:(done)) (ltac:(by destruct K3 as (?&?&->))) VERSION_REV)
    as (t4 & -> & Hr4 & K4). apply (same_lock_trans _ _ _ K3) in K4. cbn [mbind outcome_bind].
  destruct (putInt_ok sys Hsys _ _ Hr4 (ltac:(done)) (ltac:(by destruct K4 as (?&?&->))) 8)
    as (t5 & -> & Hr5 & K5). apply (same_lock_trans _ _ _ K4) in K5.
  exists t5. split; [done|]. destruct K5 as (Ha & Hb & Hc). split; [exact Ha|exact Hc|exact Hb|exact Hr5|done].
Qed.
End steps.

(** ** The invariant of the traced program

    Either no thread holds the mutex and the file is the log, or one thread is in
    the middle of a call, of which the file has the items recorded so far. *)
Section system.
Context (sys : Z -> option Z) (Hsys : maps_chunks sys) (p : gmap Z (list call))
  (Hp : map_Forall (fun _ cs => Forall call_ok cs) p).

(** What thread [thr] still has to do after the calls of [l]; [busy] is the call
    it is in and what is left of it. *)
Definition todo (l : log) (th : gmap Z (list action)) (thr : Z) (busy : option (call * list action)) : Prop :=
  match p !! thr with
  | None => th !! thr = None
  | Some cs => exists rs,
      match busy with
      | None => cs = calls_of thr l ++ rs /\ th !! thr = Some (rs ≫= actions)
      | Some (c, rest) =>
          cs = calls_of thr l ++ c :: rs /\
          th !! thr = Some (rest ++ ATime (c_bgn c) (c_fin c) :: (rs ≫= actions))
      end
  end.

Inductive reached : system -> log -> Prop :=
| reached_idle t th l :
    between_calls t (last_thread 0 l) (header ++ log_bytes 0 l) ->
    (forall thr, todo l th thr None) ->
    Forall (fun x => is_Some (p !! x.1)) l ->
    reached (t, th) l
| reached_busy t th l thr c rest d written :
    in_call t thr d (header ++ log_bytes 0 l ++ cmd_bytes thr (last_thread 0 l) (c_cmd c)
                     ++ (written ≫= enc_item)) ->
    written ++ top_items d rest = items c -> inner d rest = true ->
    0 <= d -> d + alen rest < 2 ^ 31 - 2 -> is_Some (p !! thr) -> call_ok c ->
    (forall thr', todo l th thr' (if thr' =? thr then Some (c, rest) else None)) ->
    Forall (fun x => is_Some (p !! x.1)) l ->
    reached (t, th) l.

Lemma todo_insert l th thr x thr' busy : thr' <> thr -> todo l th thr' busy -> todo l (<[thr := x]> th) thr' busy.
Proof. intros Hne. unfold todo. by rewrite lookup_insert_ne by done. Qed.

(** A thread whose head was consumed. *)
Lemma todo_step l th thr c rest rest' :
  (forall thr', todo l th thr' (if thr' =? thr then Some (c, rest) else None)) ->
  forall rs, p !! thr = Some (calls_of thr l ++ c :: rs) ->
  forall thr', todo l (<[thr := rest' ++ ATime (c_bgn c) (c_fin c) :: (rs ≫= actions)]> th) thr'
    (if thr' =? thr then Some (c, rest') else None).
Proof.
  intros H rs E thr'. specialize (H thr'). destruct (Z.eqb_spec thr' thr) as [Heq|Hne]; [subst thr'|].
  - unfold todo. rewrite E, lookup_insert_eq. by exists rs.
  - by apply todo_insert.
Qed.

Lemma todo_log l th thr c thr' :
  thr' <> thr -> todo l th thr' None -> todo (l ++ [(thr, c)]) th thr' None.
Proof.
  intros Hne. unfold todo. destruct (p !! thr') as [cs|]; [|done].
  rewrite calls_of_app, (proj2 (Z.eqb_neq _ _)), app_nil_r by congruence. done.
Qed.

(** A thread that holds the mutex keeps the others from recording. *)
Lemma idle_head l th thr a k : todo l th thr None -> th !! thr = Some (a :: k) ->
  exists c rs, p !! thr = Some (calls_of thr l ++ c :: rs) /\ a = ACmd (c_cmd c) /\
    k = c_body c ++ ATime (c_bgn c) (c_fin c) :: (rs ≫= actions) /\ call_ok c.
Proof.
  unfold todo. intros H E. destruct (p !! thr) as [cs|] eqn:Ecs; [|congruence].
  destruct H as ([|c rs] & -> & H); rewrite H in E; [done|].
  cbn [mbind list_bind actions app] in E. rewrite <- app_assoc in E. injection E as <- <-.
  exists c, rs. split; [done|]. split; [done|]. split; [done|].
  pose proof (Hp _ _ Ecs) as Hok. cbv beta in Hok. apply Forall_app in Hok as [_ Hok].
  by inversion Hok.
Qed.

Lemma step_idle t th l thr :
  between_calls t (last_thread 0 l) (header ++ log_bytes 0 l) ->
  (forall thr, todo l th thr None) -> Forall (fun x => is_Some (p !! x.1)) l ->
  exists s' l', sched_step sys thr (t, th) = Done s' /\ reached s' l'.
Proof.
  intros Ht Htodo Hl. unfold sched_step. cbn [fst snd].
  destruct (th !! thr) as [[|a k]|] eqn:E; [by exists (t, th), l; split; [|apply reached_idle]| |
    by exists (t, th), l; split; [|apply reached_idle]].
  destruct (idle_head l th thr a k (Htodo thr) E) as (c & rs & Ep & -> & -> & Hc).
  cbn [enabled fst]. unfold lock_free. rewrite (idle_lock _ _ _ Ht).
  destruct (outer_cmd sys Hsys t _ _ thr (c_cmd c) Ht) as (t' & E' & Hin).
  cbn [act]. rewrite E'. cbn [mbind outcome_bind]. eexists _, l. split; [reflexivity|].
  apply (reached_busy _ _ l thr c (c_body c) 0 []); try apply Hc; try done.
  - rewrite app_nil_r. by rewrite <- app_assoc in Hin.
  - intros thr'. destruct (Z.eqb_spec thr' thr) as [->|Hne]; [|by apply todo_insert].
    unfold todo. rewrite Ep, lookup_insert_eq. by exists rs.
Qed.

Lemma step_owner t th l thr c rest d written :
  in_call t thr d (header ++ log_bytes 0 l ++ cmd_bytes thr (last_thread 0 l) (c_cmd c)
                   ++ (written ≫= enc_item)) ->
  written ++ top_items d rest = items c -> inner d rest = true ->
  0 <= d -> d + alen rest < 2 ^ 31 - 2 -> is_Some (p !! thr) -> call_ok c ->
  (forall thr', todo l th thr' (if thr' =? thr then Some (c, rest) else None)) ->
  Forall (fun x => is_Some (p !! x.1)) l ->
  exists s' l', sched_step sys thr (t, th) = Done s' /\ reached s' l'.
Proof.
  intros Hin Hit Hinner Hd Hb Hthr Hc Htodo Hl.
  pose proof (Htodo thr) as Hme. rewrite Z.eqb_refl in Hme. unfold todo in Hme.
  destruct Hthr as [cs Ecs]. rewrite Ecs in Hme. destruct Hme as (rs & -> & Eth).
  unfold sched_step. cbn [fst snd]. rewrite Eth.
  assert (Hlock : lock_free thr t = true) by (unfold lock_free; rewrite (call_lock _ _ _ _ Hin); apply Z.eqb_refl).
  destruct rest as [|a rest]; cbn [app].
  - cbn [inner] in Hinner. apply Z.eqb_eq in Hinner as ->. cbn [enabled act].
    destruct (outer_time sys Hsys t thr _ (c_bgn c) (c_fin c) Hin) as (t' & E' & Hout).
    rewrite E'. cbn [mbind outcome_bind]. eexists _, (l ++ [(thr, c)]). split; [reflexivity|].
    cbn [top_items] in Hit. rewrite app_nil_r in Hit. rewrite Hit in Hout.
    apply reached_idle.
    + rewrite last_thread_app, log_bytes_app. unfold call_bytes. by rewrite <- !app_assoc in Hout.
    + intros thr'. destruct (Z.eq_dec thr' thr) as [->|Hne].
      * unfold todo. rewrite Ecs, lookup_insert_eq, calls_of_app, Z.eqb_refl. exists rs.
        by rewrite <- app_assoc.
      * apply todo_log, todo_insert; try done. specialize (Htodo thr').
        by rewrite (proj2 (Z.eqb_neq _ _)) in Htodo by done.
    + apply Forall_app. split; [done|]. apply Forall_singleton. cbn [fst]. by rewrite Ecs.
  - rewrite alen_cons in Hb. pose proof (alen_nonneg rest) as Hrest. destruct a as [cmd|i|bgn fin].
    + cbn [enabled act]. rewrite Hlock.
      destruct (inner_cmd sys t thr d _ cmd Hin) as (t' & E' & Hin'); [lia|].
      rewrite E'. cbn [mbind outcome_bind]. eexists _, l. split; [reflexivity|].
      apply (reached_busy _ _ l thr c rest (d + 1) written); try done; try lia.
      by apply (todo_step l th thr c (ACmd cmd :: rest)).
    + cbn [enabled act].
      destruct (call_item sys Hsys t thr d _ i Hin Hd) as (t' & E' & Hin').
      { intros ->. pose proof (ok_items c Hc) as Hi. rewrite <- Hit in Hi. cbn [top_items] in Hi.
        apply Forall_app in Hi as [_ Hi]. by inversion Hi. }
      rewrite E'. cbn [mbind outcome_bind]. eexists _, l. split; [reflexivity|].
      apply (reached_busy _ _ l thr c rest d (written ++ (if d =? 0 then [i] else []))); try done; try lia.
      * rewrite bind_app. rewrite <- !app_assoc in Hin'. destruct (d =? 0); cbn; by rewrite ?app_nil_r in *.
      * cbn [top_items] in Hit. destruct (d =? 0); rewrite <- app_assoc; done.
      * by apply (todo_step l th thr c (AItem i :: rest)).
    + cbn [enabled act inner] in *. apply andb_true_iff in Hinner as [Hd0 Hinner].
      apply Z.ltb_lt in Hd0.
      destruct (inner_time sys t thr d _ bgn fin Hin) as (t' & E' & Hin'); [lia|].
      rewrite E'. cbn [mbind outcome_bind]. eexists _, l. split; [reflexivity|].
      apply (reached_busy _ _ l thr c rest (d - 1) written); try done; try lia.
      by apply (todo_step l th thr c (ATime bgn fin :: rest)).
Qed.

Lemma step_reached s l thr : reached s l -> exists s' l', sched_step sys thr s = Done s' /\ reached s' l'.
Proof.
  intros H. destruct H as [t th l Ht Htodo Hl|t th l thr0 c rest d written Hin Hit Hinner Hd Hb Hthr Hc Htodo Hl].
  - by apply step_idle with (l := l).
  - destruct (Z.eq_dec thr thr0) as [->|Hne]; [by apply (step_owner t th l thr0 c rest d written)|].
    exists (t, th), l. split; [|by apply (reached_busy t th l thr0 c rest d written)].
    unfold sched_step. cbn [fst snd]. destruct (th !! thr) as [[|a k]|] eqn:E; [done| |done].
    specialize (Htodo thr). rewrite (proj2 (Z.eqb_neq _ _)) in Htodo by done.
    destruct (idle_head l th thr a k Htodo E) as (c' & rs & _ & -> & _).
    cbn [enabled fst]. unfold lock_free. by rewrite (call_lock _ _ _ _ Hin), (proj2 (Z.eqb_neq _ _)) by done.
Qed.

Lemma run_reached sched s l : reached s l -> exists s' l', sched_run sys sched s = Done s' /\ reached s' l'.
Proof.
  revert s l. induction sched as [|thr sched IH]; intros s l H; [by exists s, l|].
  destruct (step_reached s l thr H) as (s1 & l1 & E & H1). cbn [sched_run]. rewrite E.
  cbn [mbind outcome_bind]. by apply (IH s1 l1).
Qed.

Lemma start_reached : exists s, start sys p = Done s /\ reached s [].
Proof.
  destruct (init_ok sys Hsys) as (t & E & Ht). unfold start. rewrite E. cbn [mbind outcome_bind].
  eexists. split; [reflexivity|]. apply reached_idle; [|intros thr|constructor].
  - exact Ht.
  - unfold todo. rewrite lookup_fmap. destruct (p !! thr) as [cs|] eqn:E1; cbn; [by exists cs|done].
Qed.

(** Where nothing is left to do every call is in the log. *)
Lemma reached_finished t th l :
  reached (t, th) l -> finished (t, th) ->
  between_calls t (last_thread 0 l) (header ++ log_bytes 0 l) /\ interleaving p l.
Proof.
  intros H Hf. unfold finished in Hf. cbn [snd] in Hf.
  inversion_clear H as [? ? ? Ht Htodo Hl|? ? ? thr c rest d written Hin Hit Hinner Hd Hb Hthr Hc Htodo Hl].
  - split; [done|]. split; [done|]. intros thr cs E. specialize (Htodo thr). unfold todo in Htodo.
    rewrite E in Htodo. destruct Htodo as ([|c rs] & -> & Eth); [by rewrite app_nil_r|].
    by specialize (Hf _ _ Eth).
  - exfalso. specialize (Htodo thr). rewrite Z.eqb_refl in Htodo. unfold todo in Htodo.
    destruct Hthr as [cs Ecs]. rewrite Ecs in Htodo. destruct Htodo as (rs & _ & Eth).
    specialize (Hf _ _ Eth). by destruct rest.
Qed.

(** No deadlock. *)
Lemma reached_progress s l : reached s l -> finished s \/ can_step s.
Proof.
  intros [t th l' Ht Htodo Hl|t th l' thr c rest d written Hin Hit Hinner Hd Hb Hthr Hc Htodo Hl].
  - destruct (decide (finished (t, th))) as [|Hn]; [by left|right].
    unfold finished in Hn. apply map_not_Forall in Hn as (thr & k & E & Hk); [|apply _].
    destruct k as [|a k]; [done|]. exists thr, a, k. split; [done|].
    destruct (idle_head _ _ _ _ _ (Htodo thr) E) as (c & rs & _ & -> & _).
    cbn [enabled fst]. unfold lock_free. by rewrite (idle_lock _ _ _ Ht).
  - right. specialize (Htodo thr). rewrite Z.eqb_refl in Htodo. unfold todo in Htodo.
    destruct Hthr as [cs Ecs]. rewrite Ecs in Htodo. destruct Htodo as (rs & _ & Eth).
    destruct rest as [|a rest]; [by eexists thr, _, _|]. exists thr, a. eexists. split; [done|].
    destruct a; try done. cbn [enabled fst]. unfold lock_free. by rewrite (call_lock _ _ _ _ Hin), Z.eqb_refl.
Qed.
End system.

(** [iolib_fini] cuts the file after the last byte. *)
Lemma fini_contents t thr pre : between_calls t thr pre -> file_contents (iolib_fini_write t) = pre.
Proof.
  intros [_ _ _ [Hm Hb Hpos Hs] _]. unfold iolib_fini_write, file_contents.
  unfold position in Hpos.
  destruct (Z.ltb_spec (curPtr t) (endPtr t)) as [Hlt|Hge].
  - cbn [file_truncate fbytes fsize]. rewrite <- Hpos, Hb, (take_alen pre (alen pre)) by lia.
    rewrite Z.sub_diag. cbn [Z.to_nat replicate]. rewrite app_nil_r. by apply take_alen.
  - assert (curPtr t = endPtr t) by (destruct Hm as [(?&?&?&?&?)|(?&?&?&?&?&?)]; lia).
    rewrite Hb, Hs. replace (fileOffset t) with (alen pre) by lia.
    rewrite Z.sub_diag. cbn [Z.to_nat replicate]. rewrite app_nil_r. by apply take_alen.
Qed.
