(* ===== verification/GlTraceRead.v ===== *)
(** * Reading a trace back

    [reads m l a]: wherever the bytes [l] come next, [m] returns [a] and stops
    behind them.  Every [get] function of iolib.c reads what its [put] function
    wrote; the exceptions are in the statements: NULL strings come back empty,
    empty data comes back as NULL, and a [float] that has to be escaped is not
    read back ([getFloatPtr] does not pass over its second word). *)

From S2P Require Import Prelude MediaCache GlTrace GlTraceSpec.

Create HintDb trace.

Definition ahead (r : Reader) (l : list Z) : Prop :=
  0 <= rcur r <= alen (rfile r) /\ drop (Z.to_nat (rcur r)) (rfile r) = l.

Definition reads {A} (m : get A) (l : list Z) (a : A) : Prop :=
  forall r rest, wsize r = 8 -> ahead r (l ++ rest) -> m r = Done (a, advance r (alen l)).

Lemma ahead_advance r l rest : ahead r (l ++ rest) -> ahead (advance r (alen l)) rest.
Proof.
  intros [Hr E]. pose proof (f_equal length E) as Hlen. rewrite length_drop, length_app in Hlen.
  split.
  - simpl. unfold alen in *. lia.
  - simpl. rewrite Z2Nat.inj_add, <- drop_drop, E by (unfold alen; lia).
    unfold alen. rewrite Nat2Z.id. apply drop_app_length.
Qed.

Lemma advance_advance r n m : advance (advance r n) m = advance r (n + m).
Proof. unfold advance. simpl. by rewrite Z.add_assoc. Qed.

Lemma ahead_room r l rest : ahead r (l ++ rest) -> rcur r + alen l <= alen (rfile r).
Proof.
  intros [Hr E]. apply (f_equal length) in E. rewrite length_drop, length_app in E.
  unfold alen in *. lia.
Qed.

Lemma reads_ret {A} (a : A) : reads (mret a) [] a.
Proof. intros [f c w] rest _ _. unfold advance. simpl. by rewrite Z.add_0_r. Qed.

Lemma reads_bind {A B} (m : get A) (k : A -> get B) l1 l2 a b :
  reads m l1 a -> reads (k a) l2 b -> reads (m ≫= k) (l1 ++ l2) b.
Proof.
  intros H1 H2 r rest Hw Ha. rewrite <- app_assoc in Ha.
  unfold mbind, get_bind. rewrite (H1 r _ Hw Ha).
  rewrite (H2 (advance r (alen l1)) rest); [|done|by apply ahead_advance].
  by rewrite advance_advance, alen_app.
Qed.

(** The last step of a function. *)
Lemma reads_map {A B} (m : get A) (f : A -> B) l a :
  reads m l a -> reads (x ← m; mret (f x)) l (f a).
Proof.
  intros H. rewrite <- (app_nil_r l). apply (reads_bind m _ l [] a); [done|]. apply reads_ret.
Qed.

(** ** Words *)
Lemma load_ahead r l rest : ahead r (l ++ rest) -> load (alen l) r = Done (l, r).
Proof.
  intros Ha. pose proof (ahead_room _ _ _ Ha) as Hroom. destruct Ha as [Hr E]. unfold load.
  rewrite (proj2 (Z.leb_le _ _)), (proj2 (Z.leb_le _ _)) by lia. cbn [andb]. rewrite E.
  unfold alen. rewrite Nat2Z.id, take_app_length. done.
Qed.

Lemma guarded_ahead {A} r l rest (d : A) m : ahead r (l ++ rest) -> guarded (alen l) d m r = m r.
Proof.
  intros Ha. pose proof (ahead_room _ _ _ Ha) as Hroom. unfold guarded.
  rewrite Z.gtb_ltb, (proj2 (Z.ltb_ge _ _)) by lia. done.
Qed.

(** [load], [skip] and the result, behind their guard. *)
Lemma reads_word {A} (n : Z) (d : A) (f : list Z -> A) l :
  alen l = n -> reads (guarded n d (x ← load n; _ ← skip n; mret (f x))) l (f l).
Proof.
  intros <- r rest Hw Ha. rewrite (guarded_ahead r l rest) by done.
  unfold mbind, get_bind. rewrite (load_ahead r l rest) by done. done.
Qed.

Lemma getInt_reads v : reads getInt (le 4 v) (i32 v).
Proof.
  rewrite <- i32_u32, <- of_le_4. apply (reads_word 4 0 (fun l => i32 (of_le l))), alen_le.
Qed.

Lemma getCmd_reads v : reads getCmd (le 4 v) (i32 v).
Proof.
  rewrite <- i32_u32, <- of_le_4. apply (reads_word 4 _ (fun l => i32 (of_le l))), alen_le.
Qed.

Lemma getFloat_reads b : reads getFloat (le 4 b) (u32 b).
Proof. rewrite <- of_le_4. apply (reads_word 4 0 of_le), alen_le. Qed.

Lemma getLongLong_reads v : reads getLongLong (le 8 v) (i64 v).
Proof.
  rewrite <- i64_u64, <- of_le_8. apply (reads_word 8 0 (fun l => i64 (of_le l))), alen_le.
Qed.

Lemma getPtr_reads v : reads getPtr (le 8 v) (u64 v).
Proof.
  intros r rest Hw Ha. unfold getPtr. rewrite Hw. change (8 =? 4) with false. cbv iota.
  change 8 with (alen (le 8 v)) at 1. rewrite (guarded_ahead r _ rest) by done.
  unfold mbind, get_bind. change (load 8 r) with (load (alen (le 8 v)) r).
  rewrite (load_ahead r _ rest) by done. cbn [mret get_ret skip]. by rewrite of_le_8.
Qed.

Lemma getTime_reads bgn fin : reads getTime (le 8 bgn ++ le 8 fin) (u64 bgn, u64 fin).
Proof.
  unfold getTime. rewrite <- (u64_i64 bgn), <- (u64_i64 fin).
  eapply reads_bind; [apply getLongLong_reads|]. apply (reads_map _ (fun x => (_, u64 x))), getLongLong_reads.
Qed.

(** An escaped [int]. *)
Lemma getIntPtr_reads p : reads getIntPtr (enc_item (IIntPtr p)) (i32 <$> p).
Proof.
  assert (H2 : forall w, reads getIntPtr (le 4 MARKER ++ le 4 w) (if u32 w =? 0 then None else Some (i32 w))).
  { intros w r rest Hw Ha. unfold getIntPtr. rewrite <- app_assoc in Ha.
    change 4 with (alen (le 4 MARKER)) at 1. rewrite (guarded_ahead r _ (le 4 w ++ rest)) by done.
    unfold mbind, get_bind. change (load 4 r) with (load (alen (le 4 MARKER)) r).
    rewrite (load_ahead r _ (le 4 w ++ rest)) by done. cbn [skip].
    change (of_le (le 4 MARKER) =? MARKER) with true. cbv iota.
    pose proof (ahead_advance _ _ _ Ha) as Ha'. change (alen (le 4 MARKER)) with 4 in *.
    cbv beta. change (load 4 (advance r 4)) with (load (alen (le 4 w)) (advance r 4)).
    rewrite (load_ahead _ _ rest) by done. rewrite of_le_4, advance_advance, i32_u32.
    by destruct (u32 w =? 0). }
  destruct p as [v|]; cbn [enc_item fmap option_fmap option_map]; [|apply (H2 0)].
  destruct (Z.eqb_spec (u32 v) MARKER) as [E|Hne].
  - rewrite <- (i32_u32 v), E. apply (H2 MARKER).
  - intros r rest Hw Ha. unfold getIntPtr. change 4 with (alen (le 4 v)) at 1.
    rewrite (guarded_ahead r _ rest) by done.
    unfold mbind, get_bind. change (load 4 r) with (load (alen (le 4 v)) r).
    rewrite (load_ahead r _ rest) by done. cbn [skip]. rewrite of_le_4, i32_u32.
    by rewrite (proj2 (Z.eqb_neq _ _)).
Qed.

(** A [float] that is not the marker. *)
Lemma getFloatPtr_reads v :
  0 <= v < 2 ^ 32 -> v <> MARKERF -> reads getFloatPtr (enc_item (IFloatPtr (Some v))) (Some v).
Proof.
  intros Hv Hne. cbn [enc_item]. rewrite (proj2 (Z.eqb_neq _ _)) by done.
  intros r rest Hw Ha. unfold getFloatPtr. change 4 with (alen (le 4 v)) at 1.
  rewrite (guarded_ahead r _ rest) by done.
  unfold mbind, get_bind. change (load 4 r) with (load (alen (le 4 v)) r).
  rewrite (load_ahead r _ rest) by done. cbn [skip].
  rewrite of_le_4. unfold u32. rewrite Z.mod_small, (proj2 (Z.eqb_neq _ _)) by done. done.
Qed.

(** ** Strings and data *)
Lemma round4_pad n : 0 <= n < 2 ^ 31 - 3 -> round4 n = n + (- n) mod 4.
Proof.
  intros H. unfold round4. rewrite (i32_id (n + 3)) by (unfold in_i32; lia).
  rewrite i32_id by (unfold in_i32; clear -H; dlia). clear -H. dlia.
Qed.

Lemma strlen_terminated s l : Forall (fun b => b <> 0) s -> strlen (s ++ 0 :: l) = Some (alen s).
Proof.
  induction 1 as [|b s Hb Hs IH]; [done|]. cbn [app strlen]. rewrite (proj2 (Z.eqb_neq _ _)), IH by done.
  simpl. by rewrite alen_cons.
Qed.

Definition c_string (s : list Z) : Prop := Forall (fun b => b <> 0) s /\ alen s < 2 ^ 31 - 4.

Lemma getString_reads s : c_string s -> reads getString (enc_item (IString (Some s))) (Some s).
Proof.
  intros [Hs Hlen] r rest Hw Ha. cbn [enc_item] in *. unfold pad4 in *.
  pose proof (alen_nonneg s).
  assert (Hn : alen (s ++ [0]) = alen s + 1) by (by rewrite alen_app).
  rewrite <- (app_assoc (s ++ [0])) in Ha.
  pose proof (ahead_room _ _ _ Ha) as Hroom. rewrite Hn in Hroom.
  unfold getString. destruct Ha as [Hr E].
  rewrite (proj2 (Z.leb_le _ _)), (proj2 (Z.leb_le _ _)) by lia. cbn [andb].
  assert (Ha' : ahead r (s ++ 0 :: padding (s ++ [0]) ++ rest)) by (split; [done|by rewrite E, <- app_assoc]).
  rewrite (proj2 Ha'), strlen_terminated by done.
  rewrite i32_id by (unfold in_i32; lia). unfold guarded.
  rewrite Z.gtb_ltb, (proj2 (Z.ltb_ge _ _)) by lia.
  unfold mbind, get_bind. rewrite (load_ahead r s _ Ha').
  cbn [skip mret get_ret]. rewrite round4_pad by lia. do 3 f_equal.
  rewrite alen_app, alen_padding, Hn. done.
Qed.

Lemma getString_null : reads getString (enc_item (IString None)) (Some []).
Proof. apply (getString_reads []). split; [constructor|done]. Qed.

(** What [getBytes] returns for the data and the size given to [putBytes]. *)
Definition data_back (d : option (list Z)) (size : Z) : option (list Z) :=
  match d with
  | None => None
  | Some d => if size <=? 0 then None else Some (take (Z.to_nat size) d)
  end.

Lemma alen_le_4 v : 4 = alen (le 4 v).
Proof. by rewrite alen_le. Qed.

Lemma getBytes_reads d size :
  item_ok (IBytes d size) -> - 2 ^ 31 <= size < 2 ^ 31 - 3 ->
  reads getBytes (enc_item (IBytes d size)) (data_back d size).
Proof.
  intros Hok Hs.
  assert (H0 : forall n, - 2 ^ 31 <= n <= 0 -> reads getBytes (le 4 n) None).
  { intros n Hn r rest Hw Ha. unfold getBytes. rewrite (alen_le_4 n) at 1.
    rewrite (guarded_ahead r _ rest) by done. unfold mbind, get_bind.
    rewrite (alen_le_4 n) at 1. rewrite (load_ahead r _ rest) by done. cbn [skip].
    rewrite of_le_4, i32_u32, i32_id by (unfold in_i32; lia).
    by rewrite (proj2 (Z.leb_le _ _)) by lia. }
  destruct d as [d|]; [|by apply (H0 0)]. cbn [item_ok enc_item data_back] in *.
  destruct (Z.leb_spec size 0) as [Hle|Hpos].
  { replace (take (Z.to_nat size) d) with (@nil Z) by (by replace (Z.to_nat size) with 0%nat by lia).
    rewrite app_nil_r. apply H0. lia. }
  set (x := take (Z.to_nat size) d).
  assert (Hx : alen x = size) by (unfold x; rewrite alen_take; lia).
  intros r rest Hw Ha. unfold pad4 in Ha |- *. rewrite <- !app_assoc in Ha.
  unfold getBytes. rewrite (alen_le_4 size) at 1.
  rewrite (guarded_ahead r _ _ _ _ Ha). unfold mbind, get_bind.
  rewrite (alen_le_4 size) at 1. rewrite (load_ahead r _ _ Ha). cbn [skip].
  rewrite of_le_4, i32_u32, i32_id by (unfold in_i32; lia).
  rewrite (proj2 (Z.leb_gt _ _)) by lia.
  pose proof (ahead_advance _ _ _ Ha) as Ha'. rewrite alen_le in Ha'. change (Z.of_nat 4) with 4 in Ha'.
  rewrite <- Hx at 1. rewrite (guarded_ahead _ _ _ _ _ Ha'). unfold mbind, get_bind.
  rewrite <- Hx at 1. rewrite (load_ahead _ _ _ Ha'). cbn [skip mret get_ret].
  rewrite advance_advance, round4_pad by lia. unfold mret, get_ret. do 3 f_equal.
  rewrite !alen_app, alen_padding, alen_le, Hx. lia.
Qed.

#[export] Hint Resolve reads_ret : trace.
