(* ===== verification/GlMap.v ===== *)
(** * The object maps of the replayer

    tools/gltrace/map.c: handles recorded in a trace are not the handles of the
    replay; tables of at most sixteen keys, all in one static array, translate
    them.  A table is the index of its first word, NULL is 0. *)

From S2P Require Import Prelude GlTrace.

Definition MAXMAPS : Z := 16.
Definition MAXKEYS : Z := 16.

Record maps := mkMaps { mapSpace : list Z; lastMap : Z }.

Definition no_maps : maps := mkMaps (replicate 512 0) (-1).

Definition createMap (m : maps) : outcome (Z * maps) :=
  let last := lastMap m + 1 in
  if last >=? MAXMAPS then Exited
  else Done (last * MAXKEYS * 2, mkMaps (mapSpace m) last).

Definition word (sp : list Z) (i : Z) : outcome Z :=
  match aget sp i with Some v => Done v | None => Undefined end.

Definition set_word (sp : list Z) (i v : Z) : outcome (list Z) :=
  match aset sp i v with Some sp => Done sp | None => Undefined end.

(** [n] keys are left, the next is number [i]. *)
Fixpoint putMap_loop (n : nat) (i : Z) (map key val : Z) (sp : list Z) : outcome (list Z) :=
  match n with
  | O => Exited
  | S n =>
      k ← word sp (map + 2 * i);
      if k =? 0 then
        sp ← set_word sp (map + 2 * i) key;
        set_word sp (map + 2 * i + 1) val
      else if k =? key then set_word sp (map + 2 * i + 1) val
      else putMap_loop n (i + 1) map key val sp
  end.

Definition putMap (map key val : Z) (m : maps) : outcome maps :=
  sp ← putMap_loop (Z.to_nat MAXKEYS) 0 map key val (mapSpace m);
  Done (mkMaps sp (lastMap m)).

Fixpoint getMap_loop (n : nat) (i : Z) (map key : Z) (sp : list Z) : outcome Z :=
  match n with
  | O => Done 0
  | S n =>
      k ← word sp (map + 2 * i);
      if k =? 0 then Done 0
      else if k =? key then word sp (map + 2 * i + 1)
      else getMap_loop n (i + 1) map key sp
  end.

(** Through a NULL table the access is undefined. *)
Definition getMap (map : option Z) (key : Z) (m : maps) : outcome Z :=
  match map with
  | None => Undefined
  | Some map => getMap_loop (Z.to_nat MAXKEYS) 0 map key (mapSpace m)
  end.

(** ** What the tables hold

    The array is sixteen blocks of sixteen pairs; the used slots of a block come
    first, unused ones are zero.  A table then is a list of pairs with keys that
    are not NULL. *)
Fixpoint pairs (l : list (Z * Z)) : list Z :=
  match l with [] => [] | (k, v) :: l => k :: v :: pairs l end.

Definition block (l : list (Z * Z)) : list Z := pairs l ++ replicate (2 * (16 - length l)) 0.

Definition tab_ok (l : list (Z * Z)) : Prop := (length l <= 16)%nat /\ Forall (fun k => k <> 0) (fst <$> l).

Record maps_are (m : maps) (tabs : list (list (Z * Z))) : Prop := {
  are_space : mapSpace m = tabs ≫= block;
  are_number : length tabs = 16%nat;
  are_tabs : Forall tab_ok tabs;
  are_last : -1 <= lastMap m < 16;
  are_unused : forall i, lastMap m < Z.of_nat i < 16 -> tabs !! i = Some [] }.

Fixpoint lookup (l : list (Z * Z)) (k : Z) : Z :=
  match l with [] => 0 | (k', v) :: l => if k' =? k then v else lookup l k end.

Fixpoint update (l : list (Z * Z)) (k v : Z) : list (Z * Z) :=
  match l with
  | [] => [(k, v)]
  | (k', v') :: l => if k' =? k then (k', v) :: l else (k', v') :: update l k v
  end.

Lemma alen_pairs l : alen (pairs l) = 2 * Z.of_nat (length l).
Proof.
  induction l as [|[k v] l IH]; [done|]. cbn [pairs length]. rewrite !alen_cons, IH. lia.
Qed.

Lemma word_at pre x l : word (pre ++ x :: l) (alen pre) = Done x.
Proof.
  unfold word, aget, alen. rewrite (proj2 (Z.ltb_ge _ _)), Nat2Z.id by lia.
  by rewrite list_lookup_middle.
Qed.

Lemma set_word_at pre x l v : set_word (pre ++ x :: l) (alen pre) v = Done (pre ++ v :: l).
Proof.
  unfold set_word, aset, alen. rewrite length_app. cbn [length].
  rewrite (proj2 (Z.leb_le _ _)), (proj2 (Z.ltb_lt _ _)) by lia. cbn [andb].
  rewrite Nat2Z.id. by rewrite insert_app_r_alt, Nat.sub_diag by lia.
Qed.

Lemma alen_snoc2 (pre : list Z) a b : alen (pre ++ [a; b]) = alen pre + 2.
Proof. by rewrite alen_app. Qed.

(** The loops walk over the used slots. *)
Lemma getMap_loop_ok l n i map key sp pre post :
  (length l <= n)%nat -> Forall (fun k => k <> 0) (fst <$> l) ->
  sp = pre ++ pairs l ++ replicate (2 * (n - length l)) 0 ++ post -> alen pre = map + 2 * i ->
  getMap_loop n i map key sp = Done (lookup l key).
Proof.
  revert n i pre. induction l as [|[k v] l IH]; intros n i pre Hn Hnz Hsp Hpre.
  - destruct n as [|n]; [done|]. cbn [getMap_loop]. rewrite Hsp, <- Hpre.
    cbn [length]. replace (2 * (S n - 0))%nat with (S (S (2 * n))) by lia. cbn [replicate app pairs].
    by rewrite word_at.
  - destruct n as [|n]; cbn [length] in Hn; [lia|]. cbn [getMap_loop].
    assert (E : word sp (map + 2 * i) = Done k) by (rewrite Hsp, <- Hpre; apply word_at).
    rewrite E. cbn [mbind outcome_bind lookup].
    cbn [fmap list_fmap fst] in Hnz. inversion_clear Hnz as [|? ? Hk Hnz'].
    rewrite (proj2 (Z.eqb_neq k 0)) by done. destruct (Z.eqb_spec k key) as [->|Hne].
    + rewrite Hsp, <- Hpre. replace (alen pre + 1) with (alen (pre ++ [key])) by by rewrite alen_app.
      cbn [pairs app]. rewrite (cons_middle key), app_assoc. by rewrite word_at.
    + apply (IH n (i + 1) (pre ++ [k; v])); [lia|done| |rewrite alen_snoc2; lia].
      rewrite <- app_assoc. done.
Qed.

Lemma putMap_loop_ok l n i map key v sp pre post :
  (length l <= n)%nat -> Forall (fun k => k <> 0) (fst <$> l) -> key <> 0 ->
  sp = pre ++ pairs l ++ replicate (2 * (n - length l)) 0 ++ post -> alen pre = map + 2 * i ->
  putMap_loop n i map key v sp =
  (if (length (update l key v) <=? n)%nat
   then Done (pre ++ pairs (update l key v) ++ replicate (2 * (n - length (update l key v))) 0 ++ post)
   else Exited).
Proof.
  intros Hn Hnz Hkey. revert n i pre Hn Hnz. induction l as [|[k w] l IH]; intros n i pre Hn Hnz Hsp Hpre.
  - destruct n as [|n]; [done|]. cbn [putMap_loop]. rewrite Hsp, <- Hpre.
    cbn [length update]. replace (2 * (S n - 0))%nat with (S (S (2 * n))) by lia.
    cbn [replicate app pairs Nat.leb]. rewrite word_at. cbn [mbind outcome_bind Z.eqb].
    rewrite set_word_at. cbn [mbind outcome_bind].
    replace (alen pre + 1) with (alen (pre ++ [key])) by by rewrite alen_app.
    rewrite (cons_middle key), app_assoc, set_word_at, <- app_assoc. do 4 f_equal.
    replace (2 * (S n - 1))%nat with (2 * n)%nat by lia. done.
  - destruct n as [|n]; cbn [length] in Hn; [lia|]. cbn [putMap_loop].
    assert (E : word sp (map + 2 * i) = Done k) by (rewrite Hsp, <- Hpre; apply word_at).
    rewrite E. cbn [mbind outcome_bind update].
    cbn [fmap list_fmap fst] in Hnz. inversion_clear Hnz as [|? ? Hk Hnz'].
    rewrite (proj2 (Z.eqb_neq k 0)) by done. destruct (Z.eqb_spec k key) as [->|Hne].
    + rewrite Hsp, <- Hpre. replace (alen pre + 1) with (alen (pre ++ [key])) by by rewrite alen_app.
      cbn [pairs app]. rewrite (cons_middle key), app_assoc, set_word_at, <- app_assoc. cbn [length].
      rewrite (proj2 (Nat.leb_le _ _)) by lia. done.
    + rewrite (IH n (i + 1) (pre ++ [k; w])); [|lia|done| |rewrite alen_snoc2; lia].
      * cbn [length Nat.leb Nat.sub pairs]. by rewrite <- app_assoc.
      * rewrite <- app_assoc. done.
Qed.

Lemma lookup_update l k v k' : lookup (update l k v) k' = if k =? k' then v else lookup l k'.
Proof.
  induction l as [|[k0 v0] l IH]; cbn [update lookup]; [done|].
  destruct (Z.eqb_spec k0 k) as [->|Hne]; cbn [lookup].
  - by destruct (k =? k').
  - rewrite IH. destruct (Z.eqb_spec k0 k'), (Z.eqb_spec k k'); congruence.
Qed.

Lemma update_keys l k v x : x ∈ (update l k v).*1 <-> x = k \/ x ∈ l.*1.
Proof.
  induction l as [|[k0 v0] l IH]; cbn [update].
  - cbn. rewrite list_elem_of_singleton. split; [tauto|]. intros [|Hx]; [done|]. by apply not_elem_of_nil in Hx.
  - destruct (Z.eqb_spec k0 k) as [->|Hne]; cbn; rewrite !elem_of_cons; [|rewrite IH]; tauto.
Qed.

Lemma alen_block l : (length l <= 16)%nat -> alen (block l) = 32.
Proof.
  intros H. unfold block. rewrite alen_app, alen_pairs. unfold alen. rewrite length_replicate. lia.
Qed.

Lemma alen_blocks tabs : Forall tab_ok tabs -> alen (tabs ≫= block) = 32 * Z.of_nat (length tabs).
Proof.
  induction 1 as [|l tabs Hl Htabs IH]; [done|]. cbn [mbind list_bind length] in *.
  rewrite alen_app, IH, alen_block by apply Hl. lia.
Qed.

(** The array around one table. *)
Lemma blocks_split tabs i l :
  Forall tab_ok tabs -> tabs !! i = Some l ->
  exists pre post, alen pre = 32 * Z.of_nat i /\ tab_ok l /\
    forall l', <[i := l']> tabs ≫= block = pre ++ block l' ++ post.
Proof.
  intros Hok E. exists (take i tabs ≫= block), (drop (S i) tabs ≫= block).
  pose proof (lookup_lt_Some _ _ _ E) as Hlt.
  split; [|split].
  - rewrite alen_blocks by by apply Forall_take. rewrite length_take. lia.
  - by eapply Forall_lookup in Hok.
  - intros l'. rewrite insert_take_drop, bind_app by done. done.
Qed.

Lemma space_split m tabs i l :
  maps_are m tabs -> tabs !! i = Some l ->
  exists pre post, alen pre = 32 * Z.of_nat i /\ tab_ok l /\ mapSpace m = pre ++ block l ++ post /\
    forall l', <[i := l']> tabs ≫= block = pre ++ block l' ++ post.
Proof.
  intros [Hsp Hn Hok _ _] E. destruct (blocks_split tabs i l Hok E) as (pre & post & Hpre & Hl & H).
  exists pre, post. split; [done|]. split; [done|]. split; [|done].
  by rewrite Hsp, <- H, list_insert_id.
Qed.

(** A table is a finite map: [getMap] looks up, [putMap] updates and leaves the
    other tables alone, and fails exactly when a seventeenth key comes. *)
Lemma getMap_spec m tabs i l key :
  maps_are m tabs -> tabs !! i = Some l -> getMap (Some (32 * Z.of_nat i)) key m = Done (lookup l key).
Proof.
  intros Hm E. destruct (space_split m tabs i l Hm E) as (pre & post & Hpre & [Hlen Hnz] & Hsp & _).
  unfold getMap. apply (getMap_loop_ok l _ 0 _ key _ pre post); try done.
  - by rewrite Hsp; unfold block; rewrite <- app_assoc.
  - lia.
Qed.

Lemma putMap_spec m tabs i l key v :
  maps_are m tabs -> tabs !! i = Some l -> Z.of_nat i <= lastMap m -> key <> 0 ->
  putMap (32 * Z.of_nat i) key v m =
    (if (length (update l key v) <=? 16)%nat
     then Done (mkMaps (<[i := update l key v]> tabs ≫= block) (lastMap m)) else Exited) /\
  ((length (update l key v) <= 16)%nat ->
   maps_are (mkMaps (<[i := update l key v]> tabs ≫= block) (lastMap m)) (<[i := update l key v]> tabs)).
Proof.
  intros Hm E Hi Hkey. destruct (space_split m tabs i l Hm E) as (pre & post & Hpre & [Hlen Hnz] & Hsp & Hins).
  split.
  - unfold putMap. rewrite (putMap_loop_ok l _ 0 _ key v _ pre post); try done.
    + change (Z.to_nat MAXKEYS) with 16%nat. destruct (_ <=? _)%nat; [|done].
      cbn [mbind outcome_bind]. rewrite Hins. unfold block. by rewrite <- app_assoc.
    + by rewrite Hsp; unfold block; rewrite <- app_assoc.
    + lia.
  - intros Hlen'. destruct Hm as [_ Hn Hok Hlast Hun]. split; cbn [mapSpace lastMap].
    + done.
    + by rewrite length_insert.
    + apply Forall_insert; [done|]. split; [done|]. apply list.Forall_forall. intros x Hx.
      apply update_keys in Hx as [->|Hx]; [done|]. by eapply list.Forall_forall in Hnz.
    + done.
    + intros j Hj. rewrite list_lookup_insert_ne by lia. by apply Hun.
Qed.

Lemma createMap_spec m tabs :
  maps_are m tabs -> lastMap m < 15 ->
  let i := Z.to_nat (lastMap m + 1) in
  createMap m = Done (32 * Z.of_nat i, mkMaps (mapSpace m) (Z.of_nat i)) /\
  maps_are (mkMaps (mapSpace m) (Z.of_nat i)) tabs /\ tabs !! i = Some [].
Proof.
  intros [Hsp Hn Hok Hlast Hun] Hlt i. unfold createMap, MAXMAPS, MAXKEYS.
  rewrite Z.geb_leb, (proj2 (Z.leb_gt _ _)) by lia.
  assert (Ei : Z.of_nat i = lastMap m + 1) by lia. rewrite Ei. split; [do 2 f_equal; lia|].
  split; [|apply Hun; lia].
  split; cbn [mapSpace lastMap]; [done..|lia|]. intros j Hj. apply Hun. lia.
Qed.

Lemma no_maps_are : maps_are no_maps (replicate 16 []).
Proof.
  split; [reflexivity|reflexivity|repeat constructor; cbn; lia|cbn; lia|].
  intros i Hi. apply lookup_replicate_2. lia.
Qed.
