(* ===== verification/GlCalls.v ===== *)
(** * What the intercepted GL and EGL functions record

    tools/gltrace/gles.c and egl.c, built for Linux: one function for every GL ES
    2.0 and EGL function that the tracer implements (the others end the traced
    program).  Each is a [putCmd], the arguments, the original function, its
    results and a [putTime]; [put_f] gives what is put before and after the
    original.

    [gl_call] is a call with the memory its arguments point to after it returned:
    an array has at least the number of elements the call says, [res] is the
    result.  The tracer keeps some state of its own, [gles_state]: which buffers
    are bound and how the vertex attributes are laid out, because attributes in
    client memory are recorded when they are drawn. *)

From S2P Require Import Prelude MediaCache GlTrace GlTraceSpec.

(** ** Constants of the GL and EGL headers *)
Definition GL_BYTE : Z := 5120.
Definition GL_UNSIGNED_BYTE : Z := 5121.
Definition GL_SHORT : Z := 5122.
Definition GL_UNSIGNED_SHORT : Z := 5123.
Definition GL_INT : Z := 5124.
Definition GL_UNSIGNED_INT : Z := 5125.
Definition GL_FLOAT : Z := 5126.
Definition GL_ALPHA : Z := 6406.
Definition GL_RGB : Z := 6407.
Definition GL_RGBA : Z := 6408.
Definition GL_LUMINANCE : Z := 6409.
Definition GL_LUMINANCE_ALPHA : Z := 6410.
Definition GL_BGRA : Z := 32993.
Definition GL_UNSIGNED_SHORT_4_4_4_4 : Z := 32819.
Definition GL_UNSIGNED_SHORT_5_5_5_1 : Z := 32820.
Definition GL_UNSIGNED_SHORT_5_6_5 : Z := 33635.
Definition GL_ARRAY_BUFFER : Z := 34962.
Definition GL_ELEMENT_ARRAY_BUFFER : Z := 34963.
Definition EGL_NONE : Z := 12344.

(** ** The command codes of iolib.h *)
Definition OPC_glActiveTexture : Z := 100.
Definition OPC_glAttachShader : Z := 101.
Definition OPC_glBindAttribLocation : Z := 102.
Definition OPC_glBindBuffer : Z := 103.
Definition OPC_glBindFramebuffer : Z := 104.
Definition OPC_glBindRenderbuffer : Z := 105.
Definition OPC_glBindTexture : Z := 106.
Definition OPC_glBlendColor : Z := 107.
Definition OPC_glBlendEquation : Z := 108.
Definition OPC_glBlendEquationSeparate : Z := 109.
Definition OPC_glBlendFunc : Z := 110.
Definition OPC_glBlendFuncSeparate : Z := 111.
Definition OPC_glBufferData : Z := 112.
Definition OPC_glBufferSubData : Z := 113.
Definition OPC_glCheckFramebufferStatus : Z := 114.
Definition OPC_glClear : Z := 115.
Definition OPC_glClearColor : Z := 116.
Definition OPC_glClearDepthf : Z := 117.
Definition OPC_glClearStencil : Z := 118.
Definition OPC_glColorMask : Z := 119.
Definition OPC_glCompileShader : Z := 120.
Definition OPC_glCompressedTexImage2D : Z := 121.
Definition OPC_glCompressedTexSubImage2D : Z := 122.
Definition OPC_glCopyTexImage2D : Z := 123.
Definition OPC_glCopyTexSubImage2D : Z := 124.
Definition OPC_glCreateProgram : Z := 125.
Definition OPC_glCreateShader : Z := 126.
Definition OPC_glCullFace : Z := 127.
Definition OPC_glDeleteBuffers : Z := 128.
Definition OPC_glDeleteFramebuffers : Z := 129.
Definition OPC_glDeleteProgram : Z := 130.
Definition OPC_glDeleteRenderbuffers : Z := 131.
Definition OPC_glDeleteShader : Z := 132.
Definition OPC_glDeleteTextures : Z := 133.
Definition OPC_glDepthFunc : Z := 134.
Definition OPC_glDepthMask : Z := 135.
Definition OPC_glDepthRangef : Z := 136.
Definition OPC_glDetachShader : Z := 137.
Definition OPC_glDisable : Z := 138.
Definition OPC_glDisableVertexAttribArray : Z := 139.
Definition OPC_glDrawArrays : Z := 140.
Definition OPC_glDrawElements : Z := 141.
Definition OPC_glEnable : Z := 142.
Definition OPC_glEnableVertexAttribArray : Z := 143.
Definition OPC_glFinish : Z := 144.
Definition OPC_glFlush : Z := 145.
Definition OPC_glFramebufferRenderbuffer : Z := 146.
Definition OPC_glFramebufferTexture2D : Z := 147.
Definition OPC_glFrontFace : Z := 148.
Definition OPC_glGenBuffers : Z := 149.
Definition OPC_glGenerateMipmap : Z := 150.
Definition OPC_glGenFramebuffers : Z := 151.
Definition OPC_glGenRenderbuffers : Z := 152.
Definition OPC_glGenTextures : Z := 153.
Definition OPC_glGetActiveUniform : Z := 155.
Definition OPC_glGetAttachedShaders : Z := 156.
Definition OPC_glGetAttribLocation : Z := 157.
Definition OPC_glGetBooleanv : Z := 158.
Definition OPC_glGetError : Z := 160.
Definition OPC_glGetFloatv : Z := 161.
Definition OPC_glGetFramebufferAttachmentParameteriv : Z := 162.
Definition OPC_glGetIntegerv : Z := 163.
Definition OPC_glGetProgramiv : Z := 164.
Definition OPC_glGetRenderbufferParameteriv : Z := 166.
Definition OPC_glGetShaderiv : Z := 167.
Definition OPC_glGetString : Z := 171.
Definition OPC_glGetUniformLocation : Z := 176.
Definition OPC_glLinkProgram : Z := 189.
Definition OPC_glPixelStorei : Z := 190.
Definition OPC_glPolygonOffset : Z := 191.
Definition OPC_glRenderbufferStorage : Z := 194.
Definition OPC_glScissor : Z := 196.
Definition OPC_glShaderSource : Z := 198.
Definition OPC_glTexImage2D : Z := 205.
Definition OPC_glTexParameteri : Z := 208.
Definition OPC_glTexSubImage2D : Z := 210.
Definition OPC_glUniform1f : Z := 211.
Definition OPC_glUniform1fv : Z := 212.
Definition OPC_glUniform1i : Z := 213.
Definition OPC_glUniform2f : Z := 215.
Definition OPC_glUniform2i : Z := 217.
Definition OPC_glUniform3f : Z := 219.
Definition OPC_glUniform3i : Z := 221.
Definition OPC_glUniform4f : Z := 223.
Definition OPC_glUniform4fv : Z := 224.
Definition OPC_glUniform4i : Z := 225.
Definition OPC_glUniform4iv : Z := 226.
Definition OPC_glUniformMatrix2fv : Z := 227.
Definition OPC_glUniformMatrix3fv : Z := 228.
Definition OPC_glUniformMatrix4fv : Z := 229.
Definition OPC_glUseProgram : Z := 230.
Definition OPC_glValidateProgram : Z := 231.
Definition OPC_glVertexAttribPointer : Z := 240.
Definition OPC_glViewport : Z := 241.
Definition OPC_eglGetDisplay : Z := 701.
Definition OPC_eglInitialize : Z := 702.
Definition OPC_eglTerminate : Z := 703.
Definition OPC_eglQueryString : Z := 704.
Definition OPC_eglGetConfigAttrib : Z := 707.
Definition OPC_eglCreateWindowSurface : Z := 708.
Definition OPC_eglBindAPI : Z := 713.
Definition OPC_eglSurfaceAttrib : Z := 718.
Definition OPC_eglCreateContext : Z := 721.
Definition OPC_eglDestroyContext : Z := 722.
Definition OPC_eglMakeCurrent : Z := 723.
Definition OPC_eglSwapBuffers : Z := 730.
Definition OPC_eglChooseConfig : Z := 706.

(** ** The calls *)
Inductive gl_call :=
| glMark (str : option (list Z))
| glActiveTexture (texture : Z)
| glAttachShader (program shader : Z)
| glBindAttribLocation (program index : Z) (name : option (list Z))
| glBindBuffer (target buffer : Z)
| glBindFramebuffer (target framebuffer : Z)
| glBindRenderbuffer (target renderbuffer : Z)
| glBindTexture (target texture : Z)
| glBlendColor (red green blue alpha : Z)
| glBlendEquation (mode : Z)
| glBlendEquationSeparate (modeRGB modeAlpha : Z)
| glBlendFunc (sfactor dfactor : Z)
| glBlendFuncSeparate (srcRGB dstRGB srcAlpha dstAlpha : Z)
| glBufferData (target size : Z) (data : option (list Z)) (usage : Z)
| glBufferSubData (target offset size : Z) (data : option (list Z))
| glCheckFramebufferStatus (target res : Z)
| glClear (mask : Z)
| glClearColor (red green blue alpha : Z)
| glClearDepthf (depth : Z)
| glClearStencil (s : Z)
| glColorMask (red green blue alpha : Z)
| glCompileShader (shader : Z)
| glCompressedTexImage2D (target level internalformat width height border imageSize : Z)
    (data : option (list Z))
| glCompressedTexSubImage2D (target level xoffset yoffset width height format imageSize : Z)
    (data : option (list Z))
| glCopyTexImage2D (target level internalformat x y width height border : Z)
| glCopyTexSubImage2D (target level xoffset yoffset x y width height : Z)
| glCreateProgram (res : Z)
| glCreateShader (type_ res : Z)
| glCullFace (mode : Z)
| glDeleteBuffers (n : Z) (buffers : list Z)
| glDeleteFramebuffers (n : Z) (framebuffers : list Z)
| glDeleteProgram (program : Z)
| glDeleteRenderbuffers (n : Z) (renderbuffers : list Z)
| glDeleteShader (shader : Z)
| glDeleteTextures (n : Z) (textures : list Z)
| glDepthFunc (func : Z)
| glDepthMask (flag : Z)
| glDepthRangef (zNear zFar : Z)
| glDetachShader (program shader : Z)
| glDisable (cap : Z)
| glDisableVertexAttribArray (index : Z)
| glDrawArrays (mode first count : Z)
| glDrawElements (mode count type_ indices : Z) (idata : option (list Z)) (client : list (list Z))
| glEnable (cap : Z)
| glEnableVertexAttribArray (index : Z)
| glFinish
| glFlush
| glFramebufferRenderbuffer (target attachment renderbuffertarget renderbuffer : Z)
| glFramebufferTexture2D (target attachment textarget texture level : Z)
| glFrontFace (mode : Z)
| glGenBuffers (n : Z) (buffers : list Z)
| glGenerateMipmap (target : Z)
| glGenFramebuffers (n : Z) (framebuffers : list Z)
| glGenRenderbuffers (n : Z) (renderbuffers : list Z)
| glGenTextures (n : Z) (textures : list Z)
| glGetActiveUniform (program index bufsize lengthPtr length sizePtr size typePtr type_ namePtr : Z)
    (name : option (list Z))
| glGetAttachedShaders (program maxcount countPtr count shadersPtr : Z) (shaders : list Z)
| glGetAttribLocation (program : Z) (name : option (list Z)) (res : Z)
| glGetBooleanv (pname : Z) (params : option Z)
| glGetError (res : Z)
| glGetFloatv (pname : Z) (params : option Z)
| glGetFramebufferAttachmentParameteriv (target attachment pname : Z) (params : option Z)
| glGetIntegerv (pname : Z) (params : option Z)
| glGetProgramiv (program pname : Z) (params : option Z)
| glGetRenderbufferParameteriv (target pname : Z) (params : option Z)
| glGetShaderiv (shader pname : Z) (params : option Z)
| glGetString (name : Z) (res : option (list Z))
| glGetUniformLocation (program : Z) (name : option (list Z)) (res : Z)
| glLinkProgram (program : Z)
| glPixelStorei (pname param : Z)
| glPolygonOffset (factor units : Z)
| glRenderbufferStorage (target internalformat width height : Z)
| glScissor (x y width height : Z)
| glShaderSource (shader count : Z) (string : list (option (list Z))) (length_ : option (list Z))
| glTexImage2D (target level internalformat width height border format type_ : Z)
    (pixels : option (list Z))
| glTexParameteri (target pname param : Z)
| glTexSubImage2D (target level xoffset yoffset width height format type_ : Z)
    (pixels : option (list Z))
| glUniform1f (location x : Z)
| glUniform1fv (location count : Z) (v : option (list Z))
| glUniform1i (location x : Z)
| glUniform2f (location x y : Z)
| glUniform2i (location x y : Z)
| glUniform3f (location x y z : Z)
| glUniform3i (location x y z : Z)
| glUniform4f (location x y z w : Z)
| glUniform4fv (location count : Z) (v : option (list Z))
| glUniform4i (location x y z w : Z)
| glUniform4iv (location count : Z) (v : option (list Z))
| glUniformMatrix2fv (location count transpose : Z) (value : option (list Z))
| glUniformMatrix3fv (location count transpose : Z) (value : option (list Z))
| glUniformMatrix4fv (location count transpose : Z) (value : option (list Z))
| glUseProgram (program : Z)
| glValidateProgram (program : Z)
| glVertexAttribPointer (indx size type_ normalized stride ptr : Z)
| glViewport (x y width height : Z)
| eglGetDisplay (display_id res : Z)
| eglInitialize (dpy : Z) (major minor : option Z) (res : Z)
| eglTerminate (dpy res : Z)
| eglQueryString (dpy name : Z) (res : option (list Z))
| eglGetConfigAttrib (dpy config attribute value res : Z)
| eglCreateWindowSurface (dpy config win : Z) (attrib_list : option (list Z)) (res : Z)
| eglBindAPI (api res : Z)
| eglSurfaceAttrib (dpy surface attribute value res : Z)
| eglCreateContext (dpy config share_context : Z) (attrib_list : option (list Z)) (res : Z)
| eglDestroyContext (dpy ctx res : Z)
| eglMakeCurrent (dpy draw read ctx res : Z)
| eglSwapBuffers (dpy surface res : Z)
| eglChooseConfig (dpy : Z) (attrib_list : option (list Z)) (configs : option (list Z))
    (config_size num_config res : Z).

(** What a call records: its code, the items before the original function and
    the items after it. *)
Record recorded := mkRecorded { rc_cmd : Z; rc_before : list item; rc_after : list item }.

(** [for (i=0; i<n; ++i) putInt(a[i]);] *)
Definition ints (n : Z) (a : list Z) : list item := IInt <$> take (Z.to_nat n) a.

(** ** Functions of gles.c and egl.c that only put their arguments *)
Definition put_glActiveTexture (texture : Z) : recorded :=
  mkRecorded OPC_glActiveTexture [IInt texture] [].

Definition put_glAttachShader (program shader : Z) : recorded :=
  mkRecorded OPC_glAttachShader [IInt program; IInt shader] [].

Definition put_glBindAttribLocation (program index : Z) (name : option (list Z)) : recorded :=
  mkRecorded OPC_glBindAttribLocation [IInt program; IInt index; IString name] [].

Definition put_glBindBuffer (target buffer : Z) : recorded :=
  mkRecorded OPC_glBindBuffer [IInt target; IInt buffer] [].

Definition put_glBindFramebuffer (target framebuffer : Z) : recorded :=
  mkRecorded OPC_glBindFramebuffer [IInt target; IInt framebuffer] [].

Definition put_glBindRenderbuffer (target renderbuffer : Z) : recorded :=
  mkRecorded OPC_glBindRenderbuffer [IInt target; IInt renderbuffer] [].

Definition put_glBindTexture (target texture : Z) : recorded :=
  mkRecorded OPC_glBindTexture [IInt target; IInt texture] [].

Definition put_glBlendColor (red green blue alpha : Z) : recorded :=
  mkRecorded OPC_glBlendColor [IFloat red; IFloat green; IFloat blue; IFloat alpha] [].

Definition put_glBlendEquation (mode : Z) : recorded :=
  mkRecorded OPC_glBlendEquation [IInt mode] [].

Definition put_glBlendEquationSeparate (modeRGB modeAlpha : Z) : recorded :=
  mkRecorded OPC_glBlendEquationSeparate [IInt modeRGB; IInt modeAlpha] [].

Definition put_glBlendFunc (sfactor dfactor : Z) : recorded :=
  mkRecorded OPC_glBlendFunc [IInt sfactor; IInt dfactor] [].

Definition put_glBlendFuncSeparate (srcRGB dstRGB srcAlpha dstAlpha : Z) : recorded :=
  mkRecorded OPC_glBlendFuncSeparate [IInt srcRGB; IInt dstRGB; IInt srcAlpha;
      IInt dstAlpha] [].

Definition put_glBufferData (target size : Z) (data : option (list Z)) (usage : Z) : recorded :=
  mkRecorded OPC_glBufferData [IInt target; IInt size; IBytes data size; IInt usage] [].

Definition put_glBufferSubData (target offset size : Z) (data : option (list Z)) : recorded :=
  mkRecorded OPC_glBufferSubData [IInt target; IInt offset; IInt size; IBytes data size] [].

Definition put_glCheckFramebufferStatus (target res : Z) : recorded :=
  mkRecorded OPC_glCheckFramebufferStatus [IInt target] ([IInt res]).

Definition put_glClear (mask : Z) : recorded :=
  mkRecorded OPC_glClear [IInt mask] [].

Definition put_glClearColor (red green blue alpha : Z) : recorded :=
  mkRecorded OPC_glClearColor [IFloat red; IFloat green; IFloat blue; IFloat alpha] [].

Definition put_glClearDepthf (depth : Z) : recorded :=
  mkRecorded OPC_glClearDepthf [IFloat depth] [].

Definition put_glClearStencil (s : Z) : recorded :=
  mkRecorded OPC_glClearStencil [IInt s] [].

Definition put_glColorMask (red green blue alpha : Z) : recorded :=
  mkRecorded OPC_glColorMask [IInt red; IInt green; IInt blue; IInt alpha] [].

Definition put_glCompileShader (shader : Z) : recorded :=
  mkRecorded OPC_glCompileShader [IInt shader] [].

Definition put_glCompressedTexImage2D (target level internalformat width height border
    imageSize : Z) (data : option (list Z)) : recorded :=
  mkRecorded OPC_glCompressedTexImage2D [IInt target; IInt level; IInt internalformat;
      IInt width; IInt height; IInt border; IInt imageSize; IBytes data imageSize] [].

Definition put_glCompressedTexSubImage2D (target level xoffset yoffset width height format
    imageSize : Z) (data : option (list Z)) : recorded :=
  mkRecorded OPC_glCompressedTexSubImage2D [IInt target; IInt level; IInt xoffset; IInt yoffset;
      IInt width; IInt height; IInt format; IInt imageSize; IBytes data imageSize] [].

Definition put_glCopyTexImage2D (target level internalformat x y width height border : Z) : recorded
    :=
  mkRecorded OPC_glCopyTexImage2D [IInt target; IInt level; IInt internalformat; IInt x; IInt y;
      IInt width; IInt height; IInt border] [].

Definition put_glCopyTexSubImage2D (target level xoffset yoffset x y width height : Z) : recorded :=
  mkRecorded OPC_glCopyTexSubImage2D [IInt target; IInt level; IInt xoffset; IInt yoffset;
      IInt x; IInt y; IInt width; IInt height] [].

Definition put_glCreateProgram (res : Z) : recorded :=
  mkRecorded OPC_glCreateProgram [] ([IInt res]).

Definition put_glCreateShader (type_ res : Z) : recorded :=
  mkRecorded OPC_glCreateShader [IInt type_] ([IInt res]).

Definition put_glCullFace (mode : Z) : recorded :=
  mkRecorded OPC_glCullFace [IInt mode] [].

Definition put_glDeleteBuffers (n : Z) (buffers : list Z) : recorded :=
  mkRecorded OPC_glDeleteBuffers ([IInt n] ++ ints n buffers) [].

Definition put_glDeleteFramebuffers (n : Z) (framebuffers : list Z) : recorded :=
  mkRecorded OPC_glDeleteFramebuffers ([IInt n] ++ ints n framebuffers) [].

Definition put_glDeleteProgram (program : Z) : recorded :=
  mkRecorded OPC_glDeleteProgram [IInt program] [].

Definition put_glDeleteRenderbuffers (n : Z) (renderbuffers : list Z) : recorded :=
  mkRecorded OPC_glDeleteRenderbuffers ([IInt n] ++ ints n renderbuffers) [].

Definition put_glDeleteShader (shader : Z) : recorded :=
  mkRecorded OPC_glDeleteShader [IInt shader] [].

Definition put_glDeleteTextures (n : Z) (textures : list Z) : recorded :=
  mkRecorded OPC_glDeleteTextures ([IInt n] ++ ints n textures) [].

Definition put_glDepthFunc (func : Z) : recorded :=
  mkRecorded OPC_glDepthFunc [IInt func] [].

Definition put_glDepthMask (flag : Z) : recorded :=
  mkRecorded OPC_glDepthMask [IInt flag] [].

Definition put_glDepthRangef (zNear zFar : Z) : recorded :=
  mkRecorded OPC_glDepthRangef [IFloat zNear; IFloat zFar] [].

Definition put_glDetachShader (program shader : Z) : recorded :=
  mkRecorded OPC_glDetachShader [IInt program; IInt shader] [].

Definition put_glDisable (cap : Z) : recorded :=
  mkRecorded OPC_glDisable [IInt cap] [].

Definition put_glDisableVertexAttribArray (index : Z) : recorded :=
  mkRecorded OPC_glDisableVertexAttribArray [IInt index] [].

Definition put_glDrawArrays (mode first count : Z) : recorded :=
  mkRecorded OPC_glDrawArrays [IInt mode; IInt first; IInt count] [].

Definition put_glEnable (cap : Z) : recorded :=
  mkRecorded OPC_glEnable [IInt cap] [].

Definition put_glEnableVertexAttribArray (index : Z) : recorded :=
  mkRecorded OPC_glEnableVertexAttribArray [IInt index] [].

Definition put_glFinish : recorded :=
  mkRecorded OPC_glFinish [] [].

Definition put_glFlush : recorded :=
  mkRecorded OPC_glFlush [] [].

Definition put_glFramebufferRenderbuffer (target attachment renderbuffertarget renderbuffer : Z) :
    recorded :=
  mkRecorded OPC_glFramebufferRenderbuffer [IInt target; IInt attachment;
      IInt renderbuffertarget; IInt renderbuffer] [].

Definition put_glFramebufferTexture2D (target attachment textarget texture level : Z) : recorded :=
  mkRecorded OPC_glFramebufferTexture2D [IInt target; IInt attachment; IInt textarget;
      IInt texture; IInt level] [].

Definition put_glFrontFace (mode : Z) : recorded :=
  mkRecorded OPC_glFrontFace [IInt mode] [].

Definition put_glGenBuffers (n : Z) (buffers : list Z) : recorded :=
  mkRecorded OPC_glGenBuffers [IInt n] (ints n buffers).

Definition put_glGenerateMipmap (target : Z) : recorded :=
  mkRecorded OPC_glGenerateMipmap [IInt target] [].

Definition put_glGenFramebuffers (n : Z) (framebuffers : list Z) : recorded :=
  mkRecorded OPC_glGenFramebuffers [IInt n] (ints n framebuffers).

Definition put_glGenRenderbuffers (n : Z) (renderbuffers : list Z) : recorded :=
  mkRecorded OPC_glGenRenderbuffers [IInt n] (ints n renderbuffers).

Definition put_glGenTextures (n : Z) (textures : list Z) : recorded :=
  mkRecorded OPC_glGenTextures [IInt n] (ints n textures).

Definition put_glGetAttribLocation (program : Z) (name : option (list Z)) (res : Z) : recorded :=
  mkRecorded OPC_glGetAttribLocation [IInt program; IString name] ([IInt res]).

Definition put_glGetBooleanv (pname : Z) (params : option Z) : recorded :=
  mkRecorded OPC_glGetBooleanv [IInt pname] ([IInt (default 0 params)]).

Definition put_glGetError (res : Z) : recorded :=
  mkRecorded OPC_glGetError [] ([IInt res]).

Definition put_glGetFloatv (pname : Z) (params : option Z) : recorded :=
  mkRecorded OPC_glGetFloatv [IInt pname] ([IFloatPtr params]).

Definition put_glGetFramebufferAttachmentParameteriv (target attachment pname : Z) (params : option
    Z) : recorded :=
  mkRecorded OPC_glGetFramebufferAttachmentParameteriv [IInt target; IInt attachment;
      IInt pname] ([IInt (default 0 params)]).

Definition put_glGetIntegerv (pname : Z) (params : option Z) : recorded :=
  mkRecorded OPC_glGetIntegerv [IInt pname] ([IIntPtr params]).

Definition put_glGetProgramiv (program pname : Z) (params : option Z) : recorded :=
  mkRecorded OPC_glGetProgramiv [IInt program; IInt pname] ([IInt (default 0 params)]).

Definition put_glGetRenderbufferParameteriv (target pname : Z) (params : option Z) : recorded :=
  mkRecorded OPC_glGetRenderbufferParameteriv [IInt target;
      IInt pname] ([IInt (default 0 params)]).

Definition put_glGetShaderiv (shader pname : Z) (params : option Z) : recorded :=
  mkRecorded OPC_glGetShaderiv [IInt shader; IInt pname] ([IInt (default 0 params)]).

Definition put_glGetString (name : Z) (res : option (list Z)) : recorded :=
  mkRecorded OPC_glGetString [IInt name] ([IString res]).

Definition put_glGetUniformLocation (program : Z) (name : option (list Z)) (res : Z) : recorded :=
  mkRecorded OPC_glGetUniformLocation [IInt program; IString name] ([IInt res]).

Definition put_glLinkProgram (program : Z) : recorded :=
  mkRecorded OPC_glLinkProgram [IInt program] [].

Definition put_glPixelStorei (pname param : Z) : recorded :=
  mkRecorded OPC_glPixelStorei [IInt pname; IInt param] [].

Definition put_glPolygonOffset (factor units : Z) : recorded :=
  mkRecorded OPC_glPolygonOffset [IFloat factor; IFloat units] [].

Definition put_glRenderbufferStorage (target internalformat width height : Z) : recorded :=
  mkRecorded OPC_glRenderbufferStorage [IInt target; IInt internalformat; IInt width;
      IInt height] [].

Definition put_glScissor (x y width height : Z) : recorded :=
  mkRecorded OPC_glScissor [IInt x; IInt y; IInt width; IInt height] [].

Definition put_glTexParameteri (target pname param : Z) : recorded :=
  mkRecorded OPC_glTexParameteri [IInt target; IInt pname; IInt param] [].

Definition put_glUniform1f (location x : Z) : recorded :=
  mkRecorded OPC_glUniform1f [IInt location; IFloat x] [].

Definition put_glUniform1fv (location count : Z) (v : option (list Z)) : recorded :=
  mkRecorded OPC_glUniform1fv [IInt location; IInt count; IBytes v (i32 (count * 4))] [].

Definition put_glUniform1i (location x : Z) : recorded :=
  mkRecorded OPC_glUniform1i [IInt location; IInt x] [].

Definition put_glUniform2f (location x y : Z) : recorded :=
  mkRecorded OPC_glUniform2f [IInt location; IFloat x; IFloat y] [].

Definition put_glUniform2i (location x y : Z) : recorded :=
  mkRecorded OPC_glUniform2i [IInt location; IInt x; IInt y] [].

Definition put_glUniform3f (location x y z : Z) : recorded :=
  mkRecorded OPC_glUniform3f [IInt location; IFloat x; IFloat y; IFloat z] [].

Definition put_glUniform3i (location x y z : Z) : recorded :=
  mkRecorded OPC_glUniform3i [IInt location; IInt x; IInt y; IInt z] [].

Definition put_glUniform4f (location x y z w : Z) : recorded :=
  mkRecorded OPC_glUniform4f [IInt location; IFloat x; IFloat y; IFloat z; IFloat w] [].

Definition put_glUniform4fv (location count : Z) (v : option (list Z)) : recorded :=
  mkRecorded OPC_glUniform4fv [IInt location; IInt count; IBytes v (i32 (count * 4))] [].

Definition put_glUniform4i (location x y z w : Z) : recorded :=
  mkRecorded OPC_glUniform4i [IInt location; IInt x; IInt y; IInt z; IInt w] [].

Definition put_glUniform4iv (location count : Z) (v : option (list Z)) : recorded :=
  mkRecorded OPC_glUniform4iv [IInt location; IInt count; IBytes v (i32 (count * 4))] [].

Definition put_glUniformMatrix2fv (location count transpose : Z) (value : option (list Z)) :
    recorded :=
  mkRecorded OPC_glUniformMatrix2fv [IInt location; IInt count; IInt transpose;
      IBytes value (i32 (4 * count * 4))] [].

Definition put_glUniformMatrix3fv (location count transpose : Z) (value : option (list Z)) :
    recorded :=
  mkRecorded OPC_glUniformMatrix3fv [IInt location; IInt count; IInt transpose;
      IBytes value (i32 (9 * count * 4))] [].

Definition put_glUniformMatrix4fv (location count transpose : Z) (value : option (list Z)) :
    recorded :=
  mkRecorded OPC_glUniformMatrix4fv [IInt location; IInt count; IInt transpose;
      IBytes value (i32 (count * 4 * 16))] [].

Definition put_glUseProgram (program : Z) : recorded :=
  mkRecorded OPC_glUseProgram [IInt program] [].

Definition put_glValidateProgram (program : Z) : recorded :=
  mkRecorded OPC_glValidateProgram [IInt program] [].

Definition put_glVertexAttribPointer (indx size type_ normalized stride ptr : Z) : recorded :=
  mkRecorded OPC_glVertexAttribPointer [IInt indx; IInt size; IInt type_; IInt normalized;
      IInt stride; IPtr ptr] [].

Definition put_glViewport (x y width height : Z) : recorded :=
  mkRecorded OPC_glViewport [IInt x; IInt y; IInt width; IInt height] [].

Definition put_eglGetDisplay (display_id res : Z) : recorded :=
  mkRecorded OPC_eglGetDisplay [IPtr display_id] ([IPtr res]).

Definition put_eglInitialize (dpy : Z) (major minor : option Z) (res : Z) : recorded :=
  mkRecorded OPC_eglInitialize [IPtr dpy] ([IIntPtr major; IIntPtr minor; IInt res]).

Definition put_eglTerminate (dpy res : Z) : recorded :=
  mkRecorded OPC_eglTerminate [IPtr dpy] ([IInt res]).

Definition put_eglQueryString (dpy name : Z) (res : option (list Z)) : recorded :=
  mkRecorded OPC_eglQueryString [IPtr dpy; IInt name] ([IString res]).

Definition put_eglGetConfigAttrib (dpy config attribute value res : Z) : recorded :=
  mkRecorded OPC_eglGetConfigAttrib [IPtr dpy; IPtr config; IInt attribute] ([IInt value;
      IInt res]).

Definition put_eglBindAPI (api res : Z) : recorded :=
  mkRecorded OPC_eglBindAPI [IInt api] ([IInt res]).

Definition put_eglSurfaceAttrib (dpy surface attribute value res : Z) : recorded :=
  mkRecorded OPC_eglSurfaceAttrib [IPtr dpy; IPtr surface; IInt attribute;
      IInt value] ([IInt res]).

Definition put_eglDestroyContext (dpy ctx res : Z) : recorded :=
  mkRecorded OPC_eglDestroyContext [IPtr dpy; IPtr ctx] ([IInt res]).

Definition put_eglMakeCurrent (dpy draw read ctx res : Z) : recorded :=
  mkRecorded OPC_eglMakeCurrent [IPtr dpy; IPtr draw; IPtr read; IPtr ctx] ([IInt res]).

Definition put_eglSwapBuffers (dpy surface res : Z) : recorded :=
  mkRecorded OPC_eglSwapBuffers [IPtr dpy; IPtr surface] ([IInt res]).

(** [gltrace_putMark] of agent.c. *)
Definition put_glMark (str : option (list Z)) : recorded := mkRecorded OPC_MARK [IString str] [].

(** ** Functions with more to them *)
Definition put_glGetActiveUniform
    (program index bufsize lengthPtr length sizePtr size typePtr type_ namePtr : Z)
    (name : option (list Z)) : recorded :=
  mkRecorded OPC_glGetActiveUniform
    [IInt program; IInt index; IInt bufsize; IPtr lengthPtr; IPtr sizePtr; IPtr typePtr; IPtr namePtr]
    ((if ctrue lengthPtr then [IInt length] else []) ++ (if ctrue sizePtr then [IInt size] else []) ++
     (if ctrue typePtr then [IInt type_] else []) ++ (if ctrue namePtr then [IString name] else [])).

Definition put_glGetAttachedShaders (program maxcount countPtr count shadersPtr : Z) (shaders : list Z)
    : recorded :=
  mkRecorded OPC_glGetAttachedShaders
    [IInt program; IInt maxcount; IPtr countPtr; IPtr shadersPtr]
    (if ctrue countPtr then IInt count :: (if ctrue shadersPtr then ints count shaders else []) else []).

(** The sources: with a positive length as data, else as a string. *)
Definition put_source (string : option (list Z)) (len : Z) : list item :=
  [IInt len; if len >? 0 then IBytes string len else IString string].

Fixpoint put_sources (string : list (option (list Z))) (length_ : list Z) : list item :=
  match string, length_ with
  | s :: string, len :: length_ => put_source s len ++ put_sources string length_
  | _, _ => []
  end.

(** [int len = length == NULL ? 0 : length[i]] *)
Definition source_lengths (count : Z) (length_ : option (list Z)) : list Z :=
  match length_ with None => replicate (Z.to_nat count) 0 | Some l => take (Z.to_nat count) l end.

Definition put_glShaderSource (shader count : Z) (string : list (option (list Z)))
    (length_ : option (list Z)) : recorded :=
  mkRecorded OPC_glShaderSource
    ([IInt shader; IInt count] ++ put_sources (take (Z.to_nat count) string) (source_lengths count length_))
    [].

(** [glElementSize]: [exit(1)] for combinations it does not know. *)
Definition glElementSize (format type_ : Z) : outcome Z :=
  if type_ =? GL_UNSIGNED_BYTE then
    if format =? GL_ALPHA then Done 1
    else if format =? GL_RGB then Done 3
    else if (format =? GL_RGBA) || (format =? GL_BGRA) then Done 4
    else if format =? GL_LUMINANCE then Done 1
    else if format =? GL_LUMINANCE_ALPHA then Done 2
    else Exited
  else if (type_ =? GL_UNSIGNED_SHORT_4_4_4_4) || (type_ =? GL_UNSIGNED_SHORT_5_5_5_1)
       || (type_ =? GL_UNSIGNED_SHORT_5_6_5) then Done 2
  else Exited.

Definition put_glTexImage2D (target level internalformat width height border format type_ : Z)
    (pixels : option (list Z)) : outcome recorded :=
  sz ← glElementSize format type_;
  Done (mkRecorded OPC_glTexImage2D
    [IInt target; IInt level; IInt internalformat; IInt width; IInt height; IInt border; IInt format;
     IInt type_; IBytes pixels (i32 (width * height * sz))] []).

Definition put_glTexSubImage2D (target level xoffset yoffset width height format type_ : Z)
    (pixels : option (list Z)) : outcome recorded :=
  sz ← glElementSize format type_;
  Done (mkRecorded OPC_glTexSubImage2D
    [IInt target; IInt level; IInt xoffset; IInt yoffset; IInt width; IInt height; IInt format;
     IInt type_; IBytes pixels (i32 (width * height * sz))] []).

(** ** Vertex attributes *)
Definition MAX_VERTEX_ATTRIBS : Z := 128.

(** [struct VertexAttrib_t]; what [pointer] points to is an argument of the call
    that draws. *)
Record VertexAttrib_t := mkAttrib {
  va_enabled : bool; va_size : Z; va_type : Z; va_normalized : Z; va_stride : Z }.

Record gles_state := mkGles {
  arrayBufferBinding : Z; elementArrayBufferBinding : Z; vertexAttrib : list VertexAttrib_t }.

Definition gles_start : gles_state :=
  mkGles 0 0 (replicate (Z.to_nat MAX_VERTEX_ATTRIBS) (mkAttrib false 0 0 0 0)).

Definition glSizeof (type_ : Z) : outcome Z :=
  if type_ =? GL_BYTE then Done 1
  else if type_ =? GL_UNSIGNED_BYTE then Done 1
  else if type_ =? GL_SHORT then Done 2
  else if type_ =? GL_UNSIGNED_SHORT then Done 2
  else if type_ =? GL_INT then Done 4
  else if type_ =? GL_UNSIGNED_INT then Done 4
  else if type_ =? GL_FLOAT then Done 4
  else Exited.

(** As built, without [MT_BUFFER_DATA_FIXED]: six indices are one quad. *)
Definition getVertexCount (count : Z) : Z := i32 (Z.quot count 6 * 4).

(** [count] elements of [elemsz] bytes, [stride] apart or next to each other, are
    copied out of [mem]. *)
Fixpoint gather (count : nat) (src elemsz stride : Z) (mem : list Z) : outcome (list Z) :=
  match count with
  | O => Done []
  | S count =>
      if (elemsz <=? 0) || ((0 <=? src) && (src + elemsz <=? alen mem)) then
        l ← gather count (src + elemsz + (if stride >? 0 then stride - elemsz else 0)) elemsz stride mem;
        Done (slice mem src elemsz ++ l)
      else Undefined
  end.

(** The size of the buffer that [putVertexAttrib] allocates: its first loop. *)
Fixpoint buffer_size (count maxsz : Z) (l : list VertexAttrib_t) : outcome Z :=
  match l with
  | [] => Done maxsz
  | a :: l =>
      if va_enabled a then
        n ← glSizeof (va_type a);
        let sz := i32 (i32 (n * va_size a) * count) in
        buffer_size count (if maxsz <? sz then sz else maxsz) l
      else buffer_size count maxsz l
  end.

(** Its second loop, over the attributes from number [i] on; more bytes than
    [maxsz] would overrun the buffer. *)
Fixpoint pack_attribs (i count maxsz : Z) (l : list VertexAttrib_t) (client : list (list Z))
    : outcome (list (Z * list Z)) :=
  match l with
  | [] => Done []
  | a :: l =>
      if va_enabled a then
        n ← glSizeof (va_type a);
        b ← gather (Z.to_nat count) 0 (i32 (n * va_size a)) (va_stride a) (default [] (aget client i));
        if maxsz <? alen b then Undefined else
        rest ← pack_attribs (i + 1) count maxsz l client;
        Done ((i, b) :: rest)
      else pack_attribs (i + 1) count maxsz l client
  end.

Definition packed (s : gles_state) (count : Z) (client : list (list Z)) : outcome (list (Z * list Z)) :=
  let count := getVertexCount count in
  maxsz ← buffer_size count 0 (vertexAttrib s);
  pack_attribs 0 count maxsz (vertexAttrib s) client.

Definition putVertexAttrib (s : gles_state) (count : Z) (client : list (list Z)) : outcome (list item) :=
  l ← packed s count client;
  Done (map (fun b : Z * list Z => IBytes (Some b.2) (alen b.2)) l).

(** [client] is, for every attribute, the memory its pointer points to; [idata]
    what [indices] points to when no element array is bound. *)
Definition put_glDrawElements (s : gles_state) (mode count type_ indices : Z) (idata : option (list Z))
    (client : list (list Z)) : outcome recorded :=
  idx ← (if ctrue (elementArrayBufferBinding s) then Done (IPtr indices)
         else sz ← glSizeof type_; Done (IBytes idata (i32 (count * sz))));
  va ← (if negb (ctrue (arrayBufferBinding s)) then putVertexAttrib s count client else Done []);
  Done (mkRecorded OPC_glDrawElements ([IInt mode; IInt count; IInt type_] ++ idx :: va) []).

(** What a call changes of the tracer's state; an attribute beyond the array is
    an access outside it. *)
Definition set_attrib (s : gles_state) (i : Z) (f : VertexAttrib_t -> VertexAttrib_t) : outcome gles_state :=
  match aupd (vertexAttrib s) i (fun a => Some (f a)) with
  | Some l => Done (mkGles (arrayBufferBinding s) (elementArrayBufferBinding s) l)
  | None => Undefined
  end.

Definition gles_after (s : gles_state) (g : gl_call) : outcome gles_state :=
  match g with
  | glBindBuffer target buffer =>
      Done (if target =? GL_ARRAY_BUFFER then mkGles buffer (elementArrayBufferBinding s) (vertexAttrib s)
            else if target =? GL_ELEMENT_ARRAY_BUFFER then mkGles (arrayBufferBinding s) buffer (vertexAttrib s)
            else s)
  | glEnableVertexAttribArray index =>
      set_attrib s index (fun a => mkAttrib true (va_size a) (va_type a) (va_normalized a) (va_stride a))
  | glDisableVertexAttribArray index =>
      set_attrib s index (fun a => mkAttrib false (va_size a) (va_type a) (va_normalized a) (va_stride a))
  | glVertexAttribPointer indx size type_ normalized stride _ =>
      set_attrib s indx (fun a => mkAttrib (va_enabled a) size type_ normalized stride)
  | _ => Done s
  end.

(** ** EGL functions with attribute lists *)

(** [for (;ptr && *ptr != EGL_NONE; ptr += 2)], and the [EGL_NONE] after it; a
    list without one is read beyond its end. *)
Fixpoint attribs (l : list Z) : outcome (list Z) :=
  match l with
  | a :: l =>
      if a =? EGL_NONE then Done [EGL_NONE]
      else match l with
           | v :: l => rest ← attribs l; Done (a :: v :: rest)
           | [] => Undefined
           end
  | [] => Undefined
  end.

Definition put_attribs (attrib_list : option (list Z)) : outcome (list item) :=
  match attrib_list with
  | None => Done [IInt EGL_NONE]
  | Some l => l ← attribs l; Done (map IInt l)
  end.

Definition put_eglChooseConfig (dpy : Z) (attrib_list configs : option (list Z))
    (config_size num_config res : Z) : outcome recorded :=
  a ← put_attribs attrib_list;
  c ← (let n := MIN num_config config_size in
       match configs with
       | None => if 0 <? n then Undefined else Done []
       | Some l => Done (map IPtr (take (Z.to_nat n) l))
       end);
  Done (mkRecorded OPC_eglChooseConfig
          (IPtr dpy :: a ++ [IInt (match configs with None => 0 | Some _ => config_size end)])
          (IInt num_config :: c ++ [IInt res])).

Definition put_eglCreateWindowSurface (dpy config win : Z) (attrib_list : option (list Z)) (res : Z)
    : outcome recorded :=
  a ← put_attribs attrib_list;
  Done (mkRecorded OPC_eglCreateWindowSurface (IPtr dpy :: IPtr config :: IPtr win :: a) [IPtr res]).

Definition put_eglCreateContext (dpy config share_context : Z) (attrib_list : option (list Z)) (res : Z)
    : outcome recorded :=
  a ← put_attribs attrib_list;
  Done (mkRecorded OPC_eglCreateContext (IPtr dpy :: IPtr config :: IPtr share_context :: a) [IPtr res]).

(** ** One function for all *)
Definition record (s : gles_state) (g : gl_call) : outcome recorded :=
  match g with
  | glMark str => Done (put_glMark str)
  | glActiveTexture texture => Done (put_glActiveTexture texture)
  | glAttachShader program shader => Done (put_glAttachShader program shader)
  | glBindAttribLocation program index name => Done (put_glBindAttribLocation program index name)
  | glBindBuffer target buffer => Done (put_glBindBuffer target buffer)
  | glBindFramebuffer target framebuffer => Done (put_glBindFramebuffer target framebuffer)
  | glBindRenderbuffer target renderbuffer => Done (put_glBindRenderbuffer target renderbuffer)
  | glBindTexture target texture => Done (put_glBindTexture target texture)
  | glBlendColor red green blue alpha => Done (put_glBlendColor red green blue alpha)
  | glBlendEquation mode => Done (put_glBlendEquation mode)
  | glBlendEquationSeparate modeRGB modeAlpha => Done (put_glBlendEquationSeparate modeRGB modeAlpha)
  | glBlendFunc sfactor dfactor => Done (put_glBlendFunc sfactor dfactor)
  | glBlendFuncSeparate srcRGB dstRGB srcAlpha dstAlpha => Done (put_glBlendFuncSeparate srcRGB dstRGB
      srcAlpha dstAlpha)
  | glBufferData target size data usage => Done (put_glBufferData target size data usage)
  | glBufferSubData target offset size data => Done (put_glBufferSubData target offset size data)
  | glCheckFramebufferStatus target res => Done (put_glCheckFramebufferStatus target res)
  | glClear mask => Done (put_glClear mask)
  | glClearColor red green blue alpha => Done (put_glClearColor red green blue alpha)
  | glClearDepthf depth => Done (put_glClearDepthf depth)
  | glClearStencil s => Done (put_glClearStencil s)
  | glColorMask red green blue alpha => Done (put_glColorMask red green blue alpha)
  | glCompileShader shader => Done (put_glCompileShader shader)
  | glCompressedTexImage2D target level internalformat width height border imageSize data => Done
      (put_glCompressedTexImage2D target level internalformat width height border imageSize data)
  | glCompressedTexSubImage2D target level xoffset yoffset width height format imageSize data => Done
      (put_glCompressedTexSubImage2D target level xoffset yoffset width height format imageSize
      data)
  | glCopyTexImage2D target level internalformat x y width height border => Done (put_glCopyTexImage2D
      target level internalformat x y width height border)
  | glCopyTexSubImage2D target level xoffset yoffset x y width height => Done (put_glCopyTexSubImage2D
      target level xoffset yoffset x y width height)
  | glCreateProgram res => Done (put_glCreateProgram res)
  | glCreateShader type_ res => Done (put_glCreateShader type_ res)
  | glCullFace mode => Done (put_glCullFace mode)
  | glDeleteBuffers n buffers => Done (put_glDeleteBuffers n buffers)
  | glDeleteFramebuffers n framebuffers => Done (put_glDeleteFramebuffers n framebuffers)
  | glDeleteProgram program => Done (put_glDeleteProgram program)
  | glDeleteRenderbuffers n renderbuffers => Done (put_glDeleteRenderbuffers n renderbuffers)
  | glDeleteShader shader => Done (put_glDeleteShader shader)
  | glDeleteTextures n textures => Done (put_glDeleteTextures n textures)
  | glDepthFunc func => Done (put_glDepthFunc func)
  | glDepthMask flag => Done (put_glDepthMask flag)
  | glDepthRangef zNear zFar => Done (put_glDepthRangef zNear zFar)
  | glDetachShader program shader => Done (put_glDetachShader program shader)
  | glDisable cap => Done (put_glDisable cap)
  | glDisableVertexAttribArray index => Done (put_glDisableVertexAttribArray index)
  | glDrawArrays mode first count => Done (put_glDrawArrays mode first count)
  | glDrawElements mode count type_ indices idata client => put_glDrawElements s mode count type_
      indices idata client
  | glEnable cap => Done (put_glEnable cap)
  | glEnableVertexAttribArray index => Done (put_glEnableVertexAttribArray index)
  | glFinish => Done (put_glFinish)
  | glFlush => Done (put_glFlush)
  | glFramebufferRenderbuffer target attachment renderbuffertarget renderbuffer => Done
      (put_glFramebufferRenderbuffer target attachment renderbuffertarget renderbuffer)
  | glFramebufferTexture2D target attachment textarget texture level => Done
      (put_glFramebufferTexture2D target attachment textarget texture level)
  | glFrontFace mode => Done (put_glFrontFace mode)
  | glGenBuffers n buffers => Done (put_glGenBuffers n buffers)
  | glGenerateMipmap target => Done (put_glGenerateMipmap target)
  | glGenFramebuffers n framebuffers => Done (put_glGenFramebuffers n framebuffers)
  | glGenRenderbuffers n renderbuffers => Done (put_glGenRenderbuffers n renderbuffers)
  | glGenTextures n textures => Done (put_glGenTextures n textures)
  | glGetActiveUniform program index bufsize lengthPtr length sizePtr size typePtr type_ namePtr name
      => Done (put_glGetActiveUniform program index bufsize lengthPtr length sizePtr size typePtr
      type_ namePtr name)
  | glGetAttachedShaders program maxcount countPtr count shadersPtr shaders => Done
      (put_glGetAttachedShaders program maxcount countPtr count shadersPtr shaders)
  | glGetAttribLocation program name res => Done (put_glGetAttribLocation program name res)
  | glGetBooleanv pname params => Done (put_glGetBooleanv pname params)
  | glGetError res => Done (put_glGetError res)
  | glGetFloatv pname params => Done (put_glGetFloatv pname params)
  | glGetFramebufferAttachmentParameteriv target attachment pname params => Done
      (put_glGetFramebufferAttachmentParameteriv target attachment pname params)
  | glGetIntegerv pname params => Done (put_glGetIntegerv pname params)
  | glGetProgramiv program pname params => Done (put_glGetProgramiv program pname params)
  | glGetRenderbufferParameteriv target pname params => Done (put_glGetRenderbufferParameteriv target
      pname params)
  | glGetShaderiv shader pname params => Done (put_glGetShaderiv shader pname params)
  | glGetString name res => Done (put_glGetString name res)
  | glGetUniformLocation program name res => Done (put_glGetUniformLocation program name res)
  | glLinkProgram program => Done (put_glLinkProgram program)
  | glPixelStorei pname param => Done (put_glPixelStorei pname param)
  | glPolygonOffset factor units => Done (put_glPolygonOffset factor units)
  | glRenderbufferStorage target internalformat width height => Done (put_glRenderbufferStorage target
      internalformat width height)
  | glScissor x y width height => Done (put_glScissor x y width height)
  | glShaderSource shader count string length_ => Done (put_glShaderSource shader count string
      length_)
  | glTexImage2D target level internalformat width height border format type_ pixels =>
      put_glTexImage2D target level internalformat width height border format type_ pixels
  | glTexParameteri target pname param => Done (put_glTexParameteri target pname param)
  | glTexSubImage2D target level xoffset yoffset width height format type_ pixels =>
      put_glTexSubImage2D target level xoffset yoffset width height format type_ pixels
  | glUniform1f location x => Done (put_glUniform1f location x)
  | glUniform1fv location count v => Done (put_glUniform1fv location count v)
  | glUniform1i location x => Done (put_glUniform1i location x)
  | glUniform2f location x y => Done (put_glUniform2f location x y)
  | glUniform2i location x y => Done (put_glUniform2i location x y)
  | glUniform3f location x y z => Done (put_glUniform3f location x y z)
  | glUniform3i location x y z => Done (put_glUniform3i location x y z)
  | glUniform4f location x y z w => Done (put_glUniform4f location x y z w)
  | glUniform4fv location count v => Done (put_glUniform4fv location count v)
  | glUniform4i location x y z w => Done (put_glUniform4i location x y z w)
  | glUniform4iv location count v => Done (put_glUniform4iv location count v)
  | glUniformMatrix2fv location count transpose value => Done (put_glUniformMatrix2fv location count
      transpose value)
  | glUniformMatrix3fv location count transpose value => Done (put_glUniformMatrix3fv location count
      transpose value)
  | glUniformMatrix4fv location count transpose value => Done (put_glUniformMatrix4fv location count
      transpose value)
  | glUseProgram program => Done (put_glUseProgram program)
  | glValidateProgram program => Done (put_glValidateProgram program)
  | glVertexAttribPointer indx size type_ normalized stride ptr => Done (put_glVertexAttribPointer
      indx size type_ normalized stride ptr)
  | glViewport x y width height => Done (put_glViewport x y width height)
  | eglGetDisplay display_id res => Done (put_eglGetDisplay display_id res)
  | eglInitialize dpy major minor res => Done (put_eglInitialize dpy major minor res)
  | eglTerminate dpy res => Done (put_eglTerminate dpy res)
  | eglQueryString dpy name res => Done (put_eglQueryString dpy name res)
  | eglGetConfigAttrib dpy config attribute value res => Done (put_eglGetConfigAttrib dpy config
      attribute value res)
  | eglCreateWindowSurface dpy config win attrib_list res => put_eglCreateWindowSurface dpy config win
      attrib_list res
  | eglBindAPI api res => Done (put_eglBindAPI api res)
  | eglSurfaceAttrib dpy surface attribute value res => Done (put_eglSurfaceAttrib dpy surface
      attribute value res)
  | eglCreateContext dpy config share_context attrib_list res => put_eglCreateContext dpy config
      share_context attrib_list res
  | eglDestroyContext dpy ctx res => Done (put_eglDestroyContext dpy ctx res)
  | eglMakeCurrent dpy draw read ctx res => Done (put_eglMakeCurrent dpy draw read ctx res)
  | eglSwapBuffers dpy surface res => Done (put_eglSwapBuffers dpy surface res)
  | eglChooseConfig dpy attrib_list configs config_size num_config res => put_eglChooseConfig dpy
      attrib_list configs config_size num_config res
  end.
