(* ===== verification/GlReplay.v ===== *)
(** * The replayer

    tools/gltrace/retrace.c: [process] reads a trace command by command, calls a
    function of its own per command ([proc_f]), which prints the call or makes
    it, and checks or ignores the recorded result.  The model gives the calls in
    order, with their arguments ([event]); what [proc_f] does with them is
    printing or the GL driver.  [exec] is [execFlag]; then handles of EGL objects
    are translated through two maps, whose new values the driver returns. *)

From S2P Require Import Prelude MediaCache GlTrace GlTraceSpec GlMap GlCalls.

(** A call as [proc_f] gets it, with the recorded result.  Elements come either
    from a buffer or from the trace; attributes in client memory come packed;
    a source is its length and text, -1 for a terminated string. *)
Inductive event :=
| Ev (g : gl_call)
| EvDraw (mode count type_ : Z) (indices : Z + option (list Z)) (arrays : list (Z * option (list Z)))
| EvSource (shader count : Z) (sources : list (Z * option (list Z))).

(** ** Conversions at the call sites *)

(** [GLenum x = getInt();] *)
Definition getUInt : get Z := v ← getInt; mret (u32 v).

(** [GLboolean x = getInt();] *)
Definition getBoolean : get Z := v ← getInt; mret (u8 v).

(** [for (i=0; i<n; ++i) a[i] = getInt();] into an array of [GLuint]. *)
Fixpoint get_ints (n : nat) : get (list Z) :=
  match n with O => mret [] | S n => v ← getUInt; l ← get_ints n; mret (v :: l) end.

Definition get_exit {A} : get A := fun _ => Exited.

Definition lift {A} (m : outcome A) : get A := fun r => a ← m; Done (a, r).

(** ** The cases of the switch that read arguments and call [proc_f] *)
Definition case_glActiveTexture : get event :=
  texture ← getUInt; mret (Ev (glActiveTexture texture)).

Definition case_glAttachShader : get event :=
  program ← getUInt; shader ← getUInt; mret (Ev (glAttachShader program shader)).

Definition case_glBindAttribLocation : get event :=
  program ← getUInt; index ← getUInt; name ← getString;
  mret (Ev (glBindAttribLocation program index name)).

Definition case_glBindBuffer : get event :=
  target ← getUInt; buffer ← getUInt; mret (Ev (glBindBuffer target buffer)).

Definition case_glBindFramebuffer : get event :=
  target ← getUInt; framebuffer ← getUInt; mret (Ev (glBindFramebuffer target framebuffer)).

Definition case_glBindRenderbuffer : get event :=
  target ← getUInt; renderbuffer ← getUInt; mret (Ev (glBindRenderbuffer target renderbuffer)).

Definition case_glBindTexture : get event :=
  target ← getUInt; texture ← getUInt; mret (Ev (glBindTexture target texture)).

Definition case_glBlendEquation : get event :=
  mode ← getUInt; mret (Ev (glBlendEquation mode)).

Definition case_glBlendEquationSeparate : get event :=
  modeRGB ← getUInt; modeAlpha ← getUInt; mret (Ev (glBlendEquationSeparate modeRGB modeAlpha)).

Definition case_glBlendFunc : get event :=
  sfactor ← getUInt; dfactor ← getUInt; mret (Ev (glBlendFunc sfactor dfactor)).

Definition case_glBlendFuncSeparate : get event :=
  srcRGB ← getUInt; dstRGB ← getUInt; srcAlpha ← getUInt; dstAlpha ← getUInt;
  mret (Ev (glBlendFuncSeparate srcRGB dstRGB srcAlpha dstAlpha)).

Definition case_glBufferData : get event :=
  target ← getUInt; size ← getInt; data ← getBytes; usage ← getUInt;
  mret (Ev (glBufferData target size data usage)).

Definition case_glBufferSubData : get event :=
  target ← getUInt; offset ← getInt; size ← getInt; data ← getBytes;
  mret (Ev (glBufferSubData target offset size data)).

Definition case_glCheckFramebufferStatus : get event :=
  target ← getUInt; res ← getUInt; mret (Ev (glCheckFramebufferStatus target res)).

Definition case_glClear : get event :=
  mask ← getUInt; mret (Ev (glClear mask)).

Definition case_glClearColor : get event :=
  red ← getFloat; green ← getFloat; blue ← getFloat; alpha ← getFloat;
  mret (Ev (glClearColor red green blue alpha)).

Definition case_glClearDepthf : get event :=
  depth ← getFloat; mret (Ev (glClearDepthf depth)).

Definition case_glClearStencil : get event :=
  s ← getInt; mret (Ev (glClearStencil s)).

Definition case_glColorMask : get event :=
  red ← getBoolean; green ← getBoolean; blue ← getBoolean; alpha ← getBoolean;
  mret (Ev (glColorMask red green blue alpha)).

Definition case_glCompileShader : get event :=
  shader ← getUInt; mret (Ev (glCompileShader shader)).

Definition case_glCompressedTexImage2D : get event :=
  target ← getUInt; level ← getInt; internalformat ← getUInt; width ← getInt; height ← getInt;
  border ← getInt; imageSize ← getInt; data ← getBytes;
  mret (Ev (glCompressedTexImage2D target level internalformat width height border imageSize data)).

Definition case_glCompressedTexSubImage2D : get event :=
  target ← getUInt; level ← getInt; xoffset ← getInt; yoffset ← getInt; width ← getInt;
  height ← getInt; format ← getUInt; imageSize ← getInt; data ← getBytes;
  mret (Ev (glCompressedTexSubImage2D target level xoffset yoffset width height format imageSize data)).

Definition case_glCopyTexImage2D : get event :=
  target ← getUInt; level ← getInt; internalformat ← getUInt; x ← getInt; y ← getInt;
  width ← getInt; height ← getInt; border ← getInt;
  mret (Ev (glCopyTexImage2D target level internalformat x y width height border)).

Definition case_glCopyTexSubImage2D : get event :=
  target ← getUInt; level ← getInt; xoffset ← getInt; yoffset ← getInt; x ← getInt; y ← getInt;
  width ← getInt; height ← getInt;
  mret (Ev (glCopyTexSubImage2D target level xoffset yoffset x y width height)).

Definition case_glCreateProgram : get event :=
  res ← getUInt; mret (Ev (glCreateProgram res)).

Definition case_glCreateShader : get event :=
  type_ ← getUInt; res ← getUInt; mret (Ev (glCreateShader type_ res)).

Definition case_glCullFace : get event :=
  mode ← getUInt; mret (Ev (glCullFace mode)).

Definition case_glDeleteBuffers : get event :=
  n ← getInt; buffers ← get_ints (Z.to_nat n); mret (Ev (glDeleteBuffers n buffers)).

Definition case_glDeleteFramebuffers : get event :=
  n ← getInt; framebuffers ← get_ints (Z.to_nat n);
  mret (Ev (glDeleteFramebuffers n framebuffers)).

Definition case_glDeleteProgram : get event :=
  program ← getUInt; mret (Ev (glDeleteProgram program)).

Definition case_glDeleteRenderbuffers : get event :=
  n ← getInt; renderbuffers ← get_ints (Z.to_nat n);
  mret (Ev (glDeleteRenderbuffers n renderbuffers)).

Definition case_glDeleteShader : get event :=
  shader ← getUInt; mret (Ev (glDeleteShader shader)).

Definition case_glDeleteTextures : get event :=
  n ← getInt; textures ← get_ints (Z.to_nat n); mret (Ev (glDeleteTextures n textures)).

Definition case_glDepthFunc : get event :=
  func ← getUInt; mret (Ev (glDepthFunc func)).

Definition case_glDepthMask : get event :=
  flag ← getBoolean; mret (Ev (glDepthMask flag)).

Definition case_glDepthRangef : get event :=
  zNear ← getFloat; zFar ← getFloat; mret (Ev (glDepthRangef zNear zFar)).

Definition case_glDetachShader : get event :=
  program ← getUInt; shader ← getUInt; mret (Ev (glDetachShader program shader)).

Definition case_glDisable : get event :=
  cap ← getUInt; mret (Ev (glDisable cap)).

Definition case_glDisableVertexAttribArray : get event :=
  index ← getUInt; mret (Ev (glDisableVertexAttribArray index)).

Definition case_glDrawArrays : get event :=
  mode ← getUInt; first ← getInt; count ← getInt; mret (Ev (glDrawArrays mode first count)).

Definition case_glEnable : get event :=
  cap ← getUInt; mret (Ev (glEnable cap)).

Definition case_glEnableVertexAttribArray : get event :=
  index ← getUInt; mret (Ev (glEnableVertexAttribArray index)).

Definition case_glFinish : get event :=
mret (Ev glFinish).

Definition case_glFlush : get event :=
mret (Ev glFlush).

Definition case_glFramebufferRenderbuffer : get event :=
  target ← getUInt; attachment ← getUInt; renderbuffertarget ← getUInt; renderbuffer ← getUInt;
  mret (Ev (glFramebufferRenderbuffer target attachment renderbuffertarget renderbuffer)).

Definition case_glFramebufferTexture2D : get event :=
  target ← getUInt; attachment ← getUInt; textarget ← getUInt; texture ← getUInt; level ← getInt;
  mret (Ev (glFramebufferTexture2D target attachment textarget texture level)).

Definition case_glFrontFace : get event :=
  mode ← getUInt; mret (Ev (glFrontFace mode)).

Definition case_glGenBuffers : get event :=
  n ← getInt; buffers ← get_ints (Z.to_nat n); mret (Ev (glGenBuffers n buffers)).

Definition case_glGenerateMipmap : get event :=
  target ← getUInt; mret (Ev (glGenerateMipmap target)).

Definition case_glGenFramebuffers : get event :=
  n ← getInt; framebuffers ← get_ints (Z.to_nat n); mret (Ev (glGenFramebuffers n framebuffers)).

Definition case_glGenRenderbuffers : get event :=
  n ← getInt; renderbuffers ← get_ints (Z.to_nat n);
  mret (Ev (glGenRenderbuffers n renderbuffers)).

Definition case_glGenTextures : get event :=
  n ← getInt; textures ← get_ints (Z.to_nat n); mret (Ev (glGenTextures n textures)).

Definition case_glGetAttribLocation : get event :=
  program ← getUInt; name ← getString; res ← getInt;
  mret (Ev (glGetAttribLocation program name res)).

Definition case_glGetBooleanv : get event :=
  pname ← getUInt; params ← getBoolean; mret (Ev (glGetBooleanv pname (Some params))).

Definition case_glGetError : get event :=
  res ← getUInt; mret (Ev (glGetError res)).

Definition case_glGetFloatv : get event :=
  pname ← getUInt; params ← getFloatPtr; mret (Ev (glGetFloatv pname params)).

Definition case_glGetFramebufferAttachmentParameteriv : get event :=
  target ← getUInt; attachment ← getUInt; pname ← getUInt; params ← getInt;
  mret (Ev (glGetFramebufferAttachmentParameteriv target attachment pname (Some params))).

Definition case_glGetIntegerv : get event :=
  pname ← getUInt; params ← getIntPtr; mret (Ev (glGetIntegerv pname params)).

Definition case_glGetProgramiv : get event :=
  program ← getUInt; pname ← getUInt; params ← getInt;
  mret (Ev (glGetProgramiv program pname (Some params))).

Definition case_glGetRenderbufferParameteriv : get event :=
  target ← getUInt; pname ← getUInt; params ← getInt;
  mret (Ev (glGetRenderbufferParameteriv target pname (Some params))).

Definition case_glGetShaderiv : get event :=
  shader ← getUInt; pname ← getUInt; params ← getInt;
  mret (Ev (glGetShaderiv shader pname (Some params))).

Definition case_glGetString : get event :=
  name ← getUInt; res ← getString; mret (Ev (glGetString name res)).

Definition case_glGetUniformLocation : get event :=
  program ← getUInt; name ← getString; res ← getInt;
  mret (Ev (glGetUniformLocation program name res)).

Definition case_glLinkProgram : get event :=
  program ← getUInt; mret (Ev (glLinkProgram program)).

Definition case_glPixelStorei : get event :=
  pname ← getUInt; param ← getInt; mret (Ev (glPixelStorei pname param)).

Definition case_glPolygonOffset : get event :=
  factor ← getFloat; units ← getFloat; mret (Ev (glPolygonOffset factor units)).

Definition case_glRenderbufferStorage : get event :=
  target ← getUInt; internalformat ← getUInt; width ← getInt; height ← getInt;
  mret (Ev (glRenderbufferStorage target internalformat width height)).

Definition case_glScissor : get event :=
  x ← getInt; y ← getInt; width ← getInt; height ← getInt; mret (Ev (glScissor x y width height)).

Definition case_glTexParameteri : get event :=
  target ← getUInt; pname ← getUInt; param ← getInt;
  mret (Ev (glTexParameteri target pname param)).

Definition case_glUniform1f : get event :=
  location ← getInt; x ← getFloat; mret (Ev (glUniform1f location x)).

Definition case_glUniform1fv : get event :=
  location ← getInt; count ← getInt; v ← getBytes; mret (Ev (glUniform1fv location count v)).

Definition case_glUniform1i : get event :=
  location ← getInt; x ← getInt; mret (Ev (glUniform1i location x)).

Definition case_glUniform2f : get event :=
  location ← getInt; x ← getFloat; y ← getFloat; mret (Ev (glUniform2f location x y)).

Definition case_glUniform3f : get event :=
  location ← getInt; x ← getFloat; y ← getFloat; z ← getFloat;
  mret (Ev (glUniform3f location x y z)).

Definition case_glUniform4f : get event :=
  location ← getInt; x ← getFloat; y ← getFloat; z ← getFloat; w ← getFloat;
  mret (Ev (glUniform4f location x y z w)).

Definition case_glUniform4fv : get event :=
  location ← getInt; count ← getInt; v ← getBytes; mret (Ev (glUniform4fv location count v)).

Definition case_glUniformMatrix2fv : get event :=
  location ← getInt; count ← getInt; transpose ← getBoolean; value ← getBytes;
  mret (Ev (glUniformMatrix2fv location count transpose value)).

Definition case_glUniformMatrix3fv : get event :=
  location ← getInt; count ← getInt; transpose ← getBoolean; value ← getBytes;
  mret (Ev (glUniformMatrix3fv location count transpose value)).

Definition case_glUniformMatrix4fv : get event :=
  location ← getInt; count ← getInt; transpose ← getBoolean; value ← getBytes;
  mret (Ev (glUniformMatrix4fv location count transpose value)).

Definition case_glUseProgram : get event :=
  program ← getUInt; mret (Ev (glUseProgram program)).

Definition case_glValidateProgram : get event :=
  program ← getUInt; mret (Ev (glValidateProgram program)).

Definition case_glVertexAttribPointer : get event :=
  indx ← getUInt; size ← getInt; type_ ← getUInt; normalized ← getBoolean; stride ← getInt;
  ptr ← getPtr; mret (Ev (glVertexAttribPointer indx size type_ normalized stride ptr)).

Definition case_glViewport : get event :=
  x ← getInt; y ← getInt; width ← getInt; height ← getInt;
  mret (Ev (glViewport x y width height)).

(** ** Cases with more to them *)
Definition case_glMark : get event := str ← getString; mret (Ev (glMark str)).

Definition case_glGetActiveUniform : get event :=
  program ← getUInt; index ← getUInt; bufsize ← getInt;
  lengthPtr ← getPtr; sizePtr ← getPtr; typePtr ← getPtr; namePtr ← getPtr;
  length ← (if ctrue lengthPtr then getInt else mret 0);
  size ← (if ctrue sizePtr then getInt else mret 0);
  type_ ← (if ctrue typePtr then getUInt else mret 0);
  name ← (if ctrue namePtr then getString else mret None);
  mret (Ev (glGetActiveUniform program index bufsize lengthPtr length sizePtr size typePtr type_
              namePtr name)).

(** The shaders are read, to be compared, only when the calls are made. *)
Definition case_glGetAttachedShaders (exec : bool) : get event :=
  program ← getUInt; maxcount ← getUInt; countPtr ← getPtr; shadersPtr ← getPtr;
  count ← (if ctrue countPtr then getInt else mret 0);
  shaders ← (if exec && ctrue countPtr && ctrue shadersPtr then get_ints (Z.to_nat count) else mret []);
  mret (Ev (glGetAttachedShaders program maxcount countPtr count shadersPtr shaders)).

Fixpoint get_sources (n : nat) : get (list (Z * option (list Z))) :=
  match n with
  | O => mret []
  | S n =>
      len ← getInt;
      s ← (if len >? 0 then d ← getBytes; mret (len, d) else str ← getString; mret (-1, str));
      l ← get_sources n; mret (s :: l)
  end.

Definition case_glShaderSource : get event :=
  shader ← getUInt; count ← getInt; sources ← get_sources (Z.to_nat count);
  mret (EvSource shader count sources).

Definition case_glTexImage2D : get event :=
  target ← getUInt; level ← getInt; internalformat ← getInt; width ← getInt; height ← getInt;
  border ← getInt; format ← getUInt; type_ ← getUInt; pixels ← getBytes;
  mret (Ev (glTexImage2D target level internalformat width height border format type_ pixels)).

Definition case_glTexSubImage2D : get event :=
  target ← getUInt; level ← getInt; xoffset ← getInt; yoffset ← getInt; width ← getInt;
  height ← getInt; format ← getUInt; type_ ← getUInt; pixels ← getBytes;
  mret (Ev (glTexSubImage2D target level xoffset yoffset width height format type_ pixels)).

(** The static variables of the replayer.  Of [vertexAttrib] only [enabled]
    decides what is read. *)
Record replayer := mkReplayer {
  rt_arrayBufferBinding : Z; rt_elementArrayBufferBinding : Z; rt_enabled : list bool;
  rt_maps : maps; eglSurfaceMap : option Z; eglContextMap : option Z; rt_curThread : Z }.

Definition replayer_start : replayer :=
  mkReplayer 0 0 (replicate (Z.to_nat MAX_VERTEX_ATTRIBS) false) no_maps None None 0.

(** The loop over the enabled attributes, from number [i] on. *)
Fixpoint get_arrays (i : Z) (enabled : list bool) : get (list (Z * option (list Z))) :=
  match enabled with
  | [] => mret []
  | e :: enabled =>
      if (e : bool) then b ← getBytes; l ← get_arrays (i + 1) enabled; mret ((i, b) :: l)
      else get_arrays (i + 1) enabled
  end.

Definition case_glDrawElements (st : replayer) : get event :=
  mode ← getUInt; count ← getInt; type_ ← getUInt;
  indices ← (if ctrue (rt_elementArrayBufferBinding st) then p ← getPtr; mret (inl p)
             else b ← getBytes; mret (inr b));
  arrays ← (if negb (ctrue (rt_arrayBufferBinding st)) then get_arrays 0 (rt_enabled st) else mret []);
  mret (EvDraw mode count type_ indices arrays).

(** ** EGL *)

(** [if (execFlag) h = getMap(map, h);] *)
Definition translate (exec : bool) (map : option Z) (st : replayer) (h : Z) : get Z :=
  if exec then lift (getMap map h (rt_maps st)) else mret h.

Definition case_eglGetDisplay : get event :=
  display_id ← getPtr; res ← getPtr; mret (Ev (eglGetDisplay display_id res)).

Definition case_eglInitialize : get event :=
  dpy ← getPtr; major ← getIntPtr; minor ← getIntPtr; res ← getUInt;
  mret (Ev (eglInitialize dpy major minor res)).

Definition case_eglQueryString : get event :=
  dpy ← getPtr; name ← getInt; res ← getString; mret (Ev (eglQueryString dpy name res)).

(** [attrib_list] has 64 elements, of which [i] are filled. *)
Fixpoint get_attribs (n : nat) : get (list Z) :=
  match n with
  | O => get_exit
  | S n =>
      a ← getInt;
      if a =? EGL_NONE then mret [a]
      else v ← getInt; l ← get_attribs n; mret (a :: v :: l)
  end.

Fixpoint get_ptrs (n : nat) : get (list Z) :=
  match n with O => mret [] | S n => v ← getPtr; l ← get_ptrs n; mret (v :: l) end.

Definition case_eglChooseConfig : get event :=
  dpy ← getPtr; attrib_list ← get_attribs 32; config_size ← getInt; num_config ← getInt;
  configs ← get_ptrs (Z.to_nat (MIN num_config config_size)); res ← getUInt;
  mret (Ev (eglChooseConfig dpy (Some attrib_list) (Some configs) config_size num_config res)).

(** [proc_eglGetConfigAttrib((EGLDisplay)getPtr(), (EGLConfig)getPtr(), getInt(),
    getInt())]: the order of the four calls is the compiler's; [ltr] is left to
    right, else right to left. *)
Definition case_eglGetConfigAttrib (ltr : bool) : get event :=
  if ltr then
    dpy ← getPtr; config ← getPtr; attribute ← getInt; value ← getInt; res ← getUInt;
    mret (Ev (eglGetConfigAttrib dpy config attribute value res))
  else
    value ← getInt; attribute ← getInt; config ← getPtr; dpy ← getPtr; res ← getUInt;
    mret (Ev (eglGetConfigAttrib dpy config attribute value res)).

Definition case_eglCreateWindowSurface : get event :=
  dpy ← getPtr; config ← getPtr; win ← getPtr; attrib_list ← get_attribs 32; res ← getPtr;
  mret (Ev (eglCreateWindowSurface dpy config win (Some attrib_list) res)).

Definition case_eglBindAPI : get event :=
  api ← getUInt; res ← getUInt; mret (Ev (eglBindAPI api res)).

Definition case_eglSurfaceAttrib (exec : bool) (st : replayer) : get event :=
  dpy ← getPtr; surface ← getPtr; surface ← translate exec (eglSurfaceMap st) st surface;
  attribute ← getInt; value ← getInt; res ← getUInt;
  mret (Ev (eglSurfaceAttrib dpy surface attribute value res)).

Definition case_eglCreateContext (exec : bool) (st : replayer) : get event :=
  dpy ← getPtr; config ← getPtr; context ← getPtr;
  context ← translate (exec && ctrue context) (eglContextMap st) st context;
  attrib_list ← get_attribs 32; res ← getPtr;
  mret (Ev (eglCreateContext dpy config context (Some attrib_list) res)).

Definition case_eglDestroyContext (exec : bool) (st : replayer) : get event :=
  dpy ← getPtr; context ← getPtr; context ← translate exec (eglContextMap st) st context;
  res ← getUInt; mret (Ev (eglDestroyContext dpy context res)).

Definition case_eglMakeCurrent (exec : bool) (st : replayer) : get event :=
  dpy ← getPtr;
  draw ← getPtr; draw ← translate exec (eglSurfaceMap st) st draw;
  read ← getPtr; read ← translate exec (eglSurfaceMap st) st read;
  ctx ← getPtr; ctx ← translate exec (eglContextMap st) st ctx;
  res ← getUInt; mret (Ev (eglMakeCurrent dpy draw read ctx res)).

Definition case_eglSwapBuffers (exec : bool) (st : replayer) : get event :=
  dpy ← getPtr; surface ← getPtr; surface ← translate exec (eglSurfaceMap st) st surface;
  res ← getUInt; mret (Ev (eglSwapBuffers dpy surface res)).

(** ** The switch, and the loop

    A command without a case is not implemented: [process] reports it and
    returns. *)

(** The GL driver, where the calls are made: from the calls so far, the handle
    that the last one returned, the names that it stored and whether the string
    it answered is not NULL; and what [createNativeWindow] returns. *)
Record gl_driver := mkDriver {
  returned : list event -> Z; generated : list event -> list Z; answered : list event -> bool;
  native_window : Z }.

(** The loop of [proc_glGenBuffers] and its likes over [n] names. *)
Definition same_names (n : Z) (a b : list Z) : bool :=
  bool_decide (take (Z.to_nat n) a = take (Z.to_nat n) b).

Section process.
Context (exec ltr : bool) (driver : gl_driver).

Definition cases (st : replayer) : list (Z * get event) :=
  [(OPC_MARK, case_glMark);
   (OPC_glActiveTexture, case_glActiveTexture);
   (OPC_glAttachShader, case_glAttachShader);
   (OPC_glBindAttribLocation, case_glBindAttribLocation);
   (OPC_glBindBuffer, case_glBindBuffer);
   (OPC_glBindFramebuffer, case_glBindFramebuffer);
   (OPC_glBindRenderbuffer, case_glBindRenderbuffer);
   (OPC_glBindTexture, case_glBindTexture);
   (OPC_glBlendEquation, case_glBlendEquation);
   (OPC_glBlendEquationSeparate, case_glBlendEquationSeparate);
   (OPC_glBlendFunc, case_glBlendFunc);
   (OPC_glBlendFuncSeparate, case_glBlendFuncSeparate);
   (OPC_glBufferData, case_glBufferData);
   (OPC_glBufferSubData, case_glBufferSubData);
   (OPC_glCheckFramebufferStatus, case_glCheckFramebufferStatus);
   (OPC_glClear, case_glClear);
   (OPC_glClearColor, case_glClearColor);
   (OPC_glClearDepthf, case_glClearDepthf);
   (OPC_glClearStencil, case_glClearStencil);
   (OPC_glColorMask, case_glColorMask);
   (OPC_glCompileShader, case_glCompileShader);
   (OPC_glCompressedTexImage2D, case_glCompressedTexImage2D);
   (OPC_glCompressedTexSubImage2D, case_glCompressedTexSubImage2D);
   (OPC_glCopyTexImage2D, case_glCopyTexImage2D);
   (OPC_glCopyTexSubImage2D, case_glCopyTexSubImage2D);
   (OPC_glCreateProgram, case_glCreateProgram);
   (OPC_glCreateShader, case_glCreateShader);
   (OPC_glCullFace, case_glCullFace);
   (OPC_glDeleteBuffers, case_glDeleteBuffers);
   (OPC_glDeleteFramebuffers, case_glDeleteFramebuffers);
   (OPC_glDeleteProgram, case_glDeleteProgram);
   (OPC_glDeleteRenderbuffers, case_glDeleteRenderbuffers);
   (OPC_glDeleteShader, case_glDeleteShader);
   (OPC_glDeleteTextures, case_glDeleteTextures);
   (OPC_glDepthFunc, case_glDepthFunc);
   (OPC_glDepthMask, case_glDepthMask);
   (OPC_glDepthRangef, case_glDepthRangef);
   (OPC_glDetachShader, case_glDetachShader);
   (OPC_glDisable, case_glDisable);
   (OPC_glDisableVertexAttribArray, case_glDisableVertexAttribArray);
   (OPC_glDrawArrays, case_glDrawArrays);
   (OPC_glDrawElements, case_glDrawElements st);
   (OPC_glEnable, case_glEnable);
   (OPC_glEnableVertexAttribArray, case_glEnableVertexAttribArray);
   (OPC_glFinish, case_glFinish);
   (OPC_glFlush, case_glFlush);
   (OPC_glFramebufferRenderbuffer, case_glFramebufferRenderbuffer);
   (OPC_glFramebufferTexture2D, case_glFramebufferTexture2D);
   (OPC_glFrontFace, case_glFrontFace);
   (OPC_glGenBuffers, case_glGenBuffers);
   (OPC_glGenerateMipmap, case_glGenerateMipmap);
   (OPC_glGenFramebuffers, case_glGenFramebuffers);
   (OPC_glGenRenderbuffers, case_glGenRenderbuffers);
   (OPC_glGenTextures, case_glGenTextures);
   (OPC_glGetActiveUniform, case_glGetActiveUniform);
   (OPC_glGetAttachedShaders, case_glGetAttachedShaders exec);
   (OPC_glGetAttribLocation, case_glGetAttribLocation);
   (OPC_glGetBooleanv, case_glGetBooleanv);
   (OPC_glGetError, case_glGetError);
   (OPC_glGetFloatv, case_glGetFloatv);
   (OPC_glGetFramebufferAttachmentParameteriv, case_glGetFramebufferAttachmentParameteriv);
   (OPC_glGetIntegerv, case_glGetIntegerv);
   (OPC_glGetProgramiv, case_glGetProgramiv);
   (OPC_glGetRenderbufferParameteriv, case_glGetRenderbufferParameteriv);
   (OPC_glGetShaderiv, case_glGetShaderiv);
   (OPC_glGetString, case_glGetString);
   (OPC_glGetUniformLocation, case_glGetUniformLocation);
   (OPC_glLinkProgram, case_glLinkProgram);
   (OPC_glPixelStorei, case_glPixelStorei);
   (OPC_glPolygonOffset, case_glPolygonOffset);
   (OPC_glRenderbufferStorage, case_glRenderbufferStorage);
   (OPC_glScissor, case_glScissor);
   (OPC_glShaderSource, case_glShaderSource);
   (OPC_glTexImage2D, case_glTexImage2D);
   (OPC_glTexParameteri, case_glTexParameteri);
   (OPC_glTexSubImage2D, case_glTexSubImage2D);
   (OPC_glUniform1f, case_glUniform1f);
   (OPC_glUniform1fv, case_glUniform1fv);
   (OPC_glUniform1i, case_glUniform1i);
   (OPC_glUniform2f, case_glUniform2f);
   (OPC_glUniform3f, case_glUniform3f);
   (OPC_glUniform4f, case_glUniform4f);
   (OPC_glUniform4fv, case_glUniform4fv);
   (OPC_glUniformMatrix2fv, case_glUniformMatrix2fv);
   (OPC_glUniformMatrix3fv, case_glUniformMatrix3fv);
   (OPC_glUniformMatrix4fv, case_glUniformMatrix4fv);
   (OPC_glUseProgram, case_glUseProgram);
   (OPC_glValidateProgram, case_glValidateProgram);
   (OPC_glVertexAttribPointer, case_glVertexAttribPointer);
   (OPC_glViewport, case_glViewport);
   (OPC_eglGetDisplay, case_eglGetDisplay);
   (OPC_eglInitialize, case_eglInitialize);
   (OPC_eglQueryString, case_eglQueryString);
   (OPC_eglChooseConfig, case_eglChooseConfig);
   (OPC_eglGetConfigAttrib, case_eglGetConfigAttrib ltr);
   (OPC_eglCreateWindowSurface, case_eglCreateWindowSurface);
   (OPC_eglBindAPI, case_eglBindAPI);
   (OPC_eglSurfaceAttrib, case_eglSurfaceAttrib exec st);
   (OPC_eglCreateContext, case_eglCreateContext exec st);
   (OPC_eglDestroyContext, case_eglDestroyContext exec st);
   (OPC_eglMakeCurrent, case_eglMakeCurrent exec st);
   (OPC_eglSwapBuffers, case_eglSwapBuffers exec st)].

Fixpoint find_case (l : list (Z * get event)) (cmd : Z) : option (get event) :=
  match l with
  | [] => None
  | (c, m) :: l => if c =? cmd then Some m else find_case l cmd
  end.

(** [if (map == NULL) map = createMap(); putMap(map, oldVal, curVal);] *)
Definition new_handle (map : option Z) (old cur : Z) (m : maps) : outcome (option Z * maps) :=
  '(map, m) ← match map with Some map => Done (map, m) | None => createMap m end;
  m ← putMap map old cur m;
  Done (Some map, m).

Definition set_enabled (st : replayer) (i : Z) (b : bool) : outcome replayer :=
  match aset (rt_enabled st) i b with
  | Some l => Done (mkReplayer (rt_arrayBufferBinding st) (rt_elementArrayBufferBinding st) l (rt_maps st)
                      (eglSurfaceMap st) (eglContextMap st) (rt_curThread st))
  | None => Undefined
  end.

(** Other names than the recorded ones end the program. *)
Definition check_names (st : replayer) (done : list event) (n : Z) (names : list Z) : outcome replayer :=
  if exec && negb (same_names n names (generated driver done)) then Exited else Done st.

(** The call a [proc_] function makes of its arguments: a surface is created for
    a window of its own. *)
Definition made (e : event) : event :=
  match e with
  | Ev (eglCreateWindowSurface dpy config win attrib_list res) =>
      if exec then Ev (eglCreateWindowSurface dpy config (native_window driver) attrib_list res) else e
  | _ => e
  end.

(** [strcmp] with what the driver answered to a query. *)
Definition check_string (st : replayer) (done : list event) : outcome replayer :=
  if exec && negb (answered driver done) then Undefined else Done st.

(** What a case does after its call: [done] are the calls so far, this one last.
    [strcmp] of a NULL string is not defined, nor are the parameters that a query
    is compared with when the recorded pointer was NULL. *)
Definition after_event (st : replayer) (done : list event) (e : event) : outcome replayer :=
  match e with
  | Ev (glBindBuffer target buffer) =>
      Done (mkReplayer (if target =? GL_ARRAY_BUFFER then buffer else rt_arrayBufferBinding st)
              (if target =? GL_ELEMENT_ARRAY_BUFFER then buffer else rt_elementArrayBufferBinding st)
              (rt_enabled st) (rt_maps st) (eglSurfaceMap st) (eglContextMap st) (rt_curThread st))
  | Ev (glEnableVertexAttribArray index) => set_enabled st index true
  | Ev (glDisableVertexAttribArray index) => set_enabled st index false
  | Ev (eglCreateWindowSurface _ _ _ _ res) =>
      if exec then
        '(map, m) ← new_handle (eglSurfaceMap st) res (returned driver done) (rt_maps st);
        Done (mkReplayer (rt_arrayBufferBinding st) (rt_elementArrayBufferBinding st) (rt_enabled st) m
                map (eglContextMap st) (rt_curThread st))
      else Done st
  | Ev (eglCreateContext _ _ _ _ res) =>
      if exec then
        '(map, m) ← new_handle (eglContextMap st) res (returned driver done) (rt_maps st);
        Done (mkReplayer (rt_arrayBufferBinding st) (rt_elementArrayBufferBinding st) (rt_enabled st) m
                (eglSurfaceMap st) map (rt_curThread st))
      else Done st
  | Ev (glGenBuffers n names) => check_names st done n names
  | Ev (glGenFramebuffers n names) => check_names st done n names
  | Ev (glGenRenderbuffers n names) => check_names st done n names
  | Ev (glGenTextures n names) => check_names st done n names
  | Ev (glGetActiveUniform _ _ _ _ _ _ _ _ _ _ None) => if exec then Undefined else Done st
  | Ev (glGetIntegerv _ None) | Ev (glGetFloatv _ None) => if exec then Undefined else Done st
  | Ev (glGetString _ _) | Ev (eglQueryString _ _ _) => check_string st done
  | _ => Done st
  end.

Definition with_rt_thread (st : replayer) (thr : Z) : replayer :=
  mkReplayer (rt_arrayBufferBinding st) (rt_elementArrayBufferBinding st) (rt_enabled st) (rt_maps st)
    (eglSurfaceMap st) (eglContextMap st) thr.

(** Why [process] returns: the trace ends, a command is not implemented, or the
    number of frames is reached. *)
Inductive stop := EndOfTrace | NotImplemented (cmd : Z) | AllFrames.

(** A call with its thread and times. *)
Definition entry : Type := Z * event * Z * Z.

(** The prefix that changes the thread. *)
Definition prefix (st : replayer) : get (Z * replayer) :=
  cmd ← getCmd;
  if cmd =? OPC_THREAD then thr ← getPtr; cmd ← getCmd; mret (cmd, with_rt_thread st thr)
  else mret (cmd, st).

(** [frames] of -1 is all of them; each round takes at least one word. *)
Fixpoint process (fuel : nat) (frames : Z) (st : replayer) (log : list entry) (r : Reader)
    : outcome (stop * replayer * list entry * Reader) :=
  if frames =? 0 then Done (AllFrames, st, log, r) else
  match fuel with
  | O => Undefined
  | S fuel =>
      '(cmd, st, r) ← prefix st r;
      if (cmd =? OPC_NONE) || (cmd =? i32 OPC_EOF) then Done (EndOfTrace, st, log, r) else
      match find_case (cases st) cmd with
      | None => Done (NotImplemented cmd, st, log, r)
      | Some case =>
          '(e, r) ← case r;
          let e := made e in
          st ← after_event st (log.*1.*1.*2 ++ [e]) e;
          '(bgn, fin, r) ← getTime r;
          process fuel (if cmd =? OPC_eglSwapBuffers then i32 (frames - 1) else frames) st
            (log ++ [(rt_curThread st, e, bgn, fin)]) r
      end
  end.
End process.

(** Opening a trace and processing all of it. *)
Definition replay (exec ltr : bool) (driver : gl_driver) (contents : list Z)
    : outcome (stop * replayer * list entry * Reader) :=
  '(r, _) ← iolib_init_read true true contents;
  process exec ltr driver (S (length contents)) (-1) replayer_start [] r.
