(* ===== verification/GlReplaySpec.v ===== *)
(** * Replaying a trace

    [replayable s g]: the replayer has a case for [g] and gets it whole: the
    arguments are in the ranges of their types, strings are not NULL, data is
    NULL or not empty.  Then reading what [g] recorded gives [expected s g], the
    call with its arguments.  [translated] says how the handles of EGL objects
    change when the calls are made again. *)

From S2P Require Import Prelude MediaCache GlTrace GlTraceSpec GlTraceThreads GlTraceRead GlMap GlCalls GlReplay.

(** ** Ranges *)
Definition uintb (x : Z) : bool := (0 <=? x) && (x <? 2 ^ 32).
Definition intb (x : Z) : bool := (- 2 ^ 31 <=? x) && (x <? 2 ^ 31).
Definition boolb (x : Z) : bool := (0 <=? x) && (x <? 2 ^ 8).
Definition ptrb (x : Z) : bool := (0 <=? x) && (x <? 2 ^ 64).
Definition stringb (s : option (list Z)) : bool :=
  match s with Some s => forallb (fun b => negb (b =? 0)) s && (alen s <? 2 ^ 31 - 4) | None => false end.
Definition datab (d : option (list Z)) (size : Z) : bool :=
  match d with Some d => (0 <? size) && (size <? 2 ^ 31 - 3) && (alen d =? size) | None => true end.
Definition arrayb (n : Z) (a : list Z) : bool := (alen a =? n) && forallb uintb a.
Definition intptrb (p : option Z) : bool := match p with Some v => intb v | None => true end.
Definition floatptrb (p : option Z) : bool :=
  match p with Some v => uintb v && negb (v =? MARKERF) | None => false end.
Definition optintb (p : option Z) : bool := match p with Some v => intb v | None => false end.
Definition optboolb (p : option Z) : bool := match p with Some v => boolb v | None => false end.

(** Attribute lists: pairs and [EGL_NONE], at most 31 pairs. *)
Fixpoint attribs_upto (n : nat) (l : list Z) : bool :=
  match n, l with
  | S n, a :: l =>
      if a =? EGL_NONE then match l with [] => true | _ => false end
      else match l with v :: l => intb a && intb v && attribs_upto n l | [] => false end
  | _, _ => false
  end.

Definition attribsb (l : option (list Z)) : bool :=
  match l with Some l => attribs_upto 32 l | None => false end.

(** Data given to [putBytes] that [getBytes] can take. *)
Definition bytesb (d : option (list Z)) (size : Z) : bool :=
  match d with Some d => (- 2 ^ 31 <=? size) && (size <? 2 ^ 31 - 3) && (size <=? alen d) | None => true end.

Definition sourceb (s : option (list Z)) (len : Z) : bool :=
  intb len && (if len >? 0 then bytesb s len else stringb s).

Definition packedb (s : gles_state) (count : Z) (client : list (list Z)) : bool :=
  match packed s count client with
  | Done l => forallb (fun b : Z * list Z => alen b.2 <? 2 ^ 31 - 3) l
  | _ => false
  end.

Definition replayable (exec : bool) (s : gles_state) (g : gl_call) : bool :=
  match g with
  | glMark str => stringb str
  | glActiveTexture texture => uintb texture
  | glAttachShader program shader =>
      uintb program && uintb shader
  | glBindAttribLocation program index name =>
      uintb program && uintb index && stringb name
  | glBindBuffer target buffer =>
      uintb target && uintb buffer
  | glBindFramebuffer target framebuffer =>
      uintb target && uintb framebuffer
  | glBindRenderbuffer target renderbuffer =>
      uintb target && uintb renderbuffer
  | glBindTexture target texture =>
      uintb target && uintb texture
  | glBlendColor _ _ _ _ => false
  | glBlendEquation mode => uintb mode
  | glBlendEquationSeparate modeRGB modeAlpha =>
      uintb modeRGB && uintb modeAlpha
  | glBlendFunc sfactor dfactor =>
      uintb sfactor && uintb dfactor
  | glBlendFuncSeparate srcRGB dstRGB srcAlpha dstAlpha =>
      uintb srcRGB && uintb dstRGB && uintb srcAlpha && uintb dstAlpha
  | glBufferData target size data usage =>
      uintb target && intb size && datab data size && uintb usage
  | glBufferSubData target offset size data =>
      uintb target && intb offset && intb size && datab data size
  | glCheckFramebufferStatus target res =>
      uintb target && uintb res
  | glClear mask => uintb mask
  | glClearColor red green blue alpha =>
      uintb red && uintb green && uintb blue && uintb alpha
  | glClearDepthf depth => uintb depth
  | glClearStencil s => intb s
  | glColorMask red green blue alpha =>
      boolb red && boolb green && boolb blue && boolb alpha
  | glCompileShader shader => uintb shader
  | glCompressedTexImage2D target level internalformat width height border imageSize data =>
      uintb target && intb level && uintb internalformat && intb width && intb height && intb border &&
      intb imageSize && datab data imageSize
  | glCompressedTexSubImage2D target level xoffset yoffset width height format imageSize data =>
      uintb target && intb level && intb xoffset && intb yoffset && intb width && intb height &&
      uintb format && intb imageSize && datab data imageSize
  | glCopyTexImage2D target level internalformat x y width height border =>
      uintb target && intb level && uintb internalformat && intb x && intb y && intb width &&
      intb height && intb border
  | glCopyTexSubImage2D target level xoffset yoffset x y width height =>
      uintb target && intb level && intb xoffset && intb yoffset && intb x && intb y && intb width &&
      intb height
  | glCreateProgram res => uintb res
  | glCreateShader type_ res =>
      uintb type_ && uintb res
  | glCullFace mode => uintb mode
  | glDeleteBuffers n buffers =>
      intb n && arrayb n buffers
  | glDeleteFramebuffers n framebuffers =>
      intb n && arrayb n framebuffers
  | glDeleteProgram program => uintb program
  | glDeleteRenderbuffers n renderbuffers =>
      intb n && arrayb n renderbuffers
  | glDeleteShader shader => uintb shader
  | glDeleteTextures n textures =>
      intb n && arrayb n textures
  | glDepthFunc func => uintb func
  | glDepthMask flag => boolb flag
  | glDepthRangef zNear zFar =>
      uintb zNear && uintb zFar
  | glDetachShader program shader =>
      uintb program && uintb shader
  | glDisable cap => uintb cap
  | glDisableVertexAttribArray index =>
      uintb index && (index <? MAX_VERTEX_ATTRIBS)
  | glDrawArrays mode first count =>
      uintb mode && intb first && intb count
  | glEnable cap => uintb cap
  | glEnableVertexAttribArray index =>
      uintb index && (index <? MAX_VERTEX_ATTRIBS)
  | glFinish => true
  | glFlush => true
  | glFramebufferRenderbuffer target attachment renderbuffertarget renderbuffer =>
      uintb target && uintb attachment && uintb renderbuffertarget && uintb renderbuffer
  | glFramebufferTexture2D target attachment textarget texture level =>
      uintb target && uintb attachment && uintb textarget && uintb texture && intb level
  | glFrontFace mode => uintb mode
  | glGenBuffers n buffers =>
      intb n && arrayb n buffers
  | glGenerateMipmap target => uintb target
  | glGenFramebuffers n framebuffers =>
      intb n && arrayb n framebuffers
  | glGenRenderbuffers n renderbuffers =>
      intb n && arrayb n renderbuffers
  | glGenTextures n textures =>
      intb n && arrayb n textures
  | glGetAttribLocation program name res =>
      uintb program && stringb name && intb res
  | glGetBooleanv pname params =>
      uintb pname && optboolb params
  | glGetError res => uintb res
  | glGetFloatv pname params =>
      uintb pname && floatptrb params
  | glGetFramebufferAttachmentParameteriv target attachment pname params =>
      uintb target && uintb attachment && uintb pname && optintb params
  | glGetIntegerv pname params =>
      uintb pname && (if exec then optintb params else intptrb params)
  | glGetProgramiv program pname params =>
      uintb program && uintb pname && optintb params
  | glGetRenderbufferParameteriv target pname params =>
      uintb target && uintb pname && optintb params
  | glGetShaderiv shader pname params =>
      uintb shader && uintb pname && optintb params
  | glGetString name res =>
      uintb name && stringb res
  | glGetUniformLocation program name res =>
      uintb program && stringb name && intb res
  | glLinkProgram program => uintb program
  | glPixelStorei pname param =>
      uintb pname && intb param
  | glPolygonOffset factor units =>
      uintb factor && uintb units
  | glRenderbufferStorage target internalformat width height =>
      uintb target && uintb internalformat && intb width && intb height
  | glScissor x y width height =>
      intb x && intb y && intb width && intb height
  | glTexParameteri target pname param =>
      uintb target && uintb pname && intb param
  | glUniform1f location x =>
      intb location && uintb x
  | glUniform1fv location count v =>
      intb location && intb count && datab v (i32 (count * 4))
  | glUniform1i location x =>
      intb location && intb x
  | glUniform2f location x y =>
      intb location && uintb x && uintb y
  | glUniform2i _ _ _ => false
  | glUniform3f location x y z =>
      intb location && uintb x && uintb y && uintb z
  | glUniform3i _ _ _ _ => false
  | glUniform4f location x y z w =>
      intb location && uintb x && uintb y && uintb z && uintb w
  | glUniform4fv location count v =>
      intb location && intb count && datab v (i32 (count * 4))
  | glUniform4i _ _ _ _ _ => false
  | glUniform4iv _ _ _ => false
  | glUniformMatrix2fv location count transpose value =>
      intb location && intb count && boolb transpose && datab value (i32 (4 * count * 4))
  | glUniformMatrix3fv location count transpose value =>
      intb location && intb count && boolb transpose && datab value (i32 (9 * count * 4))
  | glUniformMatrix4fv location count transpose value =>
      intb location && intb count && boolb transpose && datab value (i32 (count * 4 * 16))
  | glUseProgram program => uintb program
  | glValidateProgram program => uintb program
  | glVertexAttribPointer indx size type_ normalized stride ptr =>
      uintb indx && intb size && uintb type_ && boolb normalized && intb stride && ptrb ptr &&
      (indx <? MAX_VERTEX_ATTRIBS)
  | glViewport x y width height =>
      intb x && intb y && intb width && intb height
  | eglGetDisplay display_id res =>
      ptrb display_id && ptrb res
  | eglInitialize dpy major minor res =>
      ptrb dpy && intptrb major && intptrb minor && uintb res
  | eglTerminate _ _ => false
  | eglQueryString dpy name res =>
      ptrb dpy && intb name && stringb res
  | eglGetConfigAttrib dpy config attribute value res =>
      ptrb dpy && ptrb config && intb attribute && intb value && uintb res
  | eglCreateWindowSurface dpy config win attrib_list res =>
      ptrb dpy && ptrb config && ptrb win && attribsb attrib_list && ptrb res
  | eglBindAPI api res =>
      uintb api && uintb res
  | eglSurfaceAttrib dpy surface attribute value res =>
      ptrb dpy && ptrb surface && intb attribute && intb value && uintb res
  | eglCreateContext dpy config share_context attrib_list res =>
      ptrb dpy && ptrb config && ptrb share_context && attribsb attrib_list && ptrb res
  | eglDestroyContext dpy ctx res =>
      ptrb dpy && ptrb ctx && uintb res
  | eglMakeCurrent dpy draw read ctx res =>
      ptrb dpy && ptrb draw && ptrb read && ptrb ctx && uintb res
  | eglSwapBuffers dpy surface res =>
      ptrb dpy && ptrb surface && uintb res
  | glGetActiveUniform program index bufsize lengthPtr length sizePtr size typePtr type_ namePtr name =>
      uintb program && uintb index && intb bufsize && ptrb lengthPtr && ptrb sizePtr && ptrb typePtr &&
      ptrb namePtr && (if ctrue lengthPtr then intb length else length =? 0) &&
      (if ctrue sizePtr then intb size else size =? 0) &&
      (if ctrue typePtr then uintb type_ else type_ =? 0) &&
      (if ctrue namePtr then stringb name else negb exec && match name with None => true | _ => false end)
  | glGetAttachedShaders program maxcount countPtr count shadersPtr shaders =>
      uintb program && uintb maxcount && ptrb countPtr && ptrb shadersPtr &&
      (if ctrue countPtr then
         intb count &&
         (if ctrue shadersPtr then arrayb (if exec then count else 0) shaders && (exec || (count <=? 0))
          else match shaders with [] => true | _ => false end)
       else (count =? 0) && match shaders with [] => true | _ => false end)
  | glShaderSource shader count string length_ =>
      uintb shader && intb count && (0 <=? count) &&
      (alen (source_lengths count length_) =? count) && (alen string =? count) &&
      forallb (fun x => sourceb x.1 x.2) (combine string (source_lengths count length_))
  | glTexImage2D target level internalformat width height border format type_ pixels =>
      uintb target && intb level && intb internalformat && intb width && intb height && intb border &&
      uintb format && uintb type_ &&
      match glElementSize format type_ with Done sz => datab pixels (i32 (width * height * sz)) | _ => false end
  | glTexSubImage2D target level xoffset yoffset width height format type_ pixels =>
      uintb target && intb level && intb xoffset && intb yoffset && intb width && intb height &&
      uintb format && uintb type_ &&
      match glElementSize format type_ with Done sz => datab pixels (i32 (width * height * sz)) | _ => false end
  | glDrawElements mode count type_ indices idata client =>
      uintb mode && intb count && uintb type_ &&
      (if ctrue (elementArrayBufferBinding s) then ptrb indices
       else match glSizeof type_ with Done sz => bytesb idata (i32 (count * sz)) | _ => false end) &&
      (if negb (ctrue (arrayBufferBinding s)) then packedb s count client else true)
  | eglChooseConfig dpy attrib_list configs config_size num_config res =>
      ptrb dpy && attribsb attrib_list && intb config_size && intb num_config && uintb res &&
      match configs with
      | Some l => forallb ptrb l && (alen l =? MAX 0 (MIN num_config config_size))
      | None => false
      end
  end.

(** ** What the replayer makes of a call *)
Definition source_back (s : option (list Z)) (len : Z) : Z * option (list Z) :=
  if len >? 0 then (len, data_back s len) else (-1, s).

Definition expected (s : gles_state) (g : gl_call) : outcome event :=
  match g with
  | glDrawElements mode count type_ indices idata client =>
      idx ← (if ctrue (elementArrayBufferBinding s) then Done (inl indices)
             else sz ← glSizeof type_; Done (inr (data_back idata (i32 (count * sz)))));
      arrays ← (if negb (ctrue (arrayBufferBinding s)) then packed s count client else Done []);
      Done (EvDraw mode count type_ idx (map (fun b : Z * list Z => (b.1, data_back (Some b.2) (alen b.2))) arrays))
  | glShaderSource shader count string length_ =>
      Done (EvSource shader count
              (map (fun x => source_back x.1 x.2) (combine string (source_lengths count length_))))
  | _ => Done (Ev g)
  end.

(** The handles, where calls are made again. *)
Definition translated (exec : bool) (st : replayer) (e : event) : outcome event :=
  if exec then
    let surface h := getMap (eglSurfaceMap st) h (rt_maps st) in
    let context h := getMap (eglContextMap st) h (rt_maps st) in
    match e with
    | Ev (eglSurfaceAttrib dpy h attribute value res) =>
        h ← surface h; Done (Ev (eglSurfaceAttrib dpy h attribute value res))
    | Ev (eglCreateContext dpy config h attrib_list res) =>
        h ← (if ctrue h then context h else Done h);
        Done (Ev (eglCreateContext dpy config h attrib_list res))
    | Ev (eglDestroyContext dpy h res) => h ← context h; Done (Ev (eglDestroyContext dpy h res))
    | Ev (eglMakeCurrent dpy draw read ctx res) =>
        draw ← surface draw; read ← surface read; ctx ← context ctx;
        Done (Ev (eglMakeCurrent dpy draw read ctx res))
    | Ev (eglSwapBuffers dpy h res) => h ← surface h; Done (Ev (eglSwapBuffers dpy h res))
    | _ => Done e
    end
  else Done e.

(** ** Reading typed arguments *)
Definition encs (l : list item) : list Z := l ≫= enc_item.

Lemma encs_app l k : encs (l ++ k) = encs l ++ encs k.
Proof. apply bind_app. Qed.

Lemma encs_cons i l : encs (i :: l) = enc_item i ++ encs l.
Proof. done. Qed.

Ltac split_andb :=
  repeat match goal with
  | H : andb _ _ = true |- _ => apply andb_true_iff in H; destruct H
  end.

Ltac bools := unfold uintb, intb, boolb, ptrb in *; split_andb;
  repeat match goal with
  | H : (_ <=? _) = true |- _ => apply Z.leb_le in H
  | H : (_ <? _) = true |- _ => apply Z.ltb_lt in H
  | H : (_ =? _) = true |- _ => apply Z.eqb_eq in H
  | H : (_ =? _) = false |- _ => apply Z.eqb_neq in H
  end.

Lemma getUInt_typed v : uintb v = true -> reads getUInt (enc_item (IInt v)) v.
Proof.
  intros H. bools. assert (E : u32 (i32 v) = v) by (rewrite u32_i32; apply Z.mod_small; lia).
  rewrite <- E at 2. apply (reads_map getInt u32), getInt_reads.
Qed.

Lemma getInt_typed v : intb v = true -> reads getInt (enc_item (IInt v)) v.
Proof.
  intros H. bools. rewrite <- (i32_id v) at 2 by (split; lia). apply getInt_reads.
Qed.

Lemma getBoolean_typed v : boolb v = true -> reads getBoolean (enc_item (IInt v)) v.
Proof.
  intros H. bools. assert (E : u8 (i32 v) = v) by (rewrite i32_id by (split; lia); apply Z.mod_small; lia).
  rewrite <- E at 2. apply (reads_map getInt u8), getInt_reads.
Qed.

Lemma getFloat_typed v : uintb v = true -> reads getFloat (enc_item (IFloat v)) v.
Proof.
  intros H. bools. assert (E : u32 v = v) by (apply Z.mod_small; lia).
  rewrite <- E at 2. apply getFloat_reads.
Qed.

Lemma getPtr_typed v : ptrb v = true -> reads getPtr (enc_item (IPtr v)) v.
Proof.
  intros H. bools. assert (E : u64 v = v) by (apply Z.mod_small; lia).
  rewrite <- E at 2. apply getPtr_reads.
Qed.

Lemma getString_typed s : stringb s = true -> reads getString (enc_item (IString s)) s.
Proof.
  destruct s as [s|]; [|done]. intros H. cbn [stringb] in H. split_andb. apply getString_reads.
  split; [|by apply Z.ltb_lt]. apply Forall_forall. intros x Hx.
  apply (proj1 (forallb_forall _ _) H) in Hx. by apply negb_true_iff, Z.eqb_neq in Hx.
Qed.

Lemma getBytes_back d size : bytesb d size = true -> reads getBytes (enc_item (IBytes d size)) (data_back d size).
Proof.
  intros H. destruct d as [d|]; cbn [bytesb] in H.
  - bools. apply getBytes_reads; [|lia]. cbn [item_ok]. lia.
  - apply (getBytes_reads None 0); [done|lia].
Qed.

Lemma getBytes_typed d size : datab d size = true -> reads getBytes (enc_item (IBytes d size)) d.
Proof.
  intros H. assert (E : data_back d size = d).
  { destruct d as [d|]; [|done]. cbn [datab data_back] in *. bools.
    rewrite (proj2 (Z.leb_gt _ _)) by lia. by rewrite take_alen by lia. }
  rewrite <- E at 2. apply getBytes_back. destruct d as [d|]; [|done]. cbn [datab bytesb] in *. bools.
  rewrite !andb_true_iff, !Z.leb_le, Z.ltb_lt. lia.
Qed.

Lemma getIntPtr_typed p : intptrb p = true -> reads getIntPtr (enc_item (IIntPtr p)) p.
Proof.
  intros H. assert (E : i32 <$> p = p).
  { destruct p as [v|]; [|done]. cbn in *. bools. rewrite i32_id; [done|]. split; lia. }
  rewrite <- E at 2. apply getIntPtr_reads.
Qed.

Lemma getFloatPtr_typed p : floatptrb p = true -> reads getFloatPtr (enc_item (IFloatPtr p)) p.
Proof.
  destruct p as [v|]; [|done]. cbn [floatptrb]. intros H. bools. apply getFloatPtr_reads; [lia|].
  by apply Z.eqb_neq, negb_true_iff.
Qed.

Lemma ints_take n a : arrayb n a = true -> ints n a = IInt <$> a.
Proof. unfold arrayb, ints. intros H. bools. by rewrite take_alen by lia. Qed.

Lemma get_ints_typed n a : arrayb n a = true -> reads (get_ints (Z.to_nat n)) (encs (ints n a)) a.
Proof.
  intros H. rewrite (ints_take n a H). unfold arrayb in H. split_andb.
  assert (Hn : Z.to_nat n = length a) by (bools; unfold alen in *; lia). rewrite Hn. clear Hn H.
  induction a as [|v a IH]; [apply reads_ret|]. cbn [forallb] in *. split_andb.
  cbn [length get_ints fmap list_fmap]. rewrite encs_cons.
  eapply reads_bind; [by apply getUInt_typed|].
  apply (reads_map _ (fun l => v :: l)). auto.
Qed.

Lemma get_attribs_typed n l k :
  attribs_upto n l = true -> attribs l = Done k -> reads (get_attribs n) (encs (map IInt k)) k /\ k = l.
Proof.
  revert l k. induction n as [|n IH]; intros l k Hl Hk; [by destruct l|].
  destruct l as [|a l]; [done|]. cbn [attribs_upto attribs get_attribs] in *.
  destruct (a =? EGL_NONE) eqn:Ea.
  - apply Z.eqb_eq in Ea as ->. injection Hk as <-. split; [|by destruct l].
    cbn [map]. rewrite encs_cons.
    eapply reads_bind; [by apply getInt_typed|]. rewrite Z.eqb_refl. apply reads_ret.
  - destruct l as [|v l]; [done|]. split_andb.
    destruct (attribs l) as [k'| |] eqn:El; [|done..]. cbn [mbind outcome_bind] in Hk. injection Hk as <-.
    destruct (IH l k') as [Hr ->]; [done..|]. split; [|done].
    cbn [map]. rewrite !encs_cons.
    eapply reads_bind; [by apply getInt_typed|]. rewrite Ea.
    eapply reads_bind; [by apply getInt_typed|].
    apply (reads_map _ (fun l => a :: v :: l)). done.
Qed.

Lemma get_ptrs_typed l n :
  forallb ptrb l = true -> n = length l -> reads (get_ptrs n) (encs (map IPtr l)) l.
Proof.
  intros H ->. induction l as [|v l IH]; [apply reads_ret|]. cbn [forallb] in *. split_andb.
  cbn [length get_ptrs map]. rewrite encs_cons.
  eapply reads_bind; [by apply getPtr_typed|]. apply (reads_map _ (fun l => v :: l)). auto.
Qed.

Lemma get_sources_typed string lens :
  length string = length lens ->
  forallb (fun x => sourceb x.1 x.2) (combine string lens) = true ->
  reads (get_sources (length string)) (encs (put_sources string lens))
    (map (fun x => source_back x.1 x.2) (combine string lens)).
Proof.
  revert lens. induction string as [|s string IH]; intros [|len lens] Hlen H; try done; [apply reads_ret|].
  cbn [combine forallb fst snd] in H. split_andb. injection Hlen as Hlen.
  cbn [length get_sources put_sources combine map fst snd]. rewrite encs_app.
  unfold put_source. rewrite !encs_cons, <- app_assoc. unfold sourceb in *. split_andb.
  eapply reads_bind; [by apply getInt_typed|]. rewrite app_nil_r. unfold source_back at 1.
  destruct (len >? 0).
  - eapply reads_bind; [apply (reads_map _ (fun d => (len, d))); by apply getBytes_back|].
    apply (reads_map _ (fun l => (_, _) :: l)). auto.
  - eapply reads_bind; [apply (reads_map _ (fun d => (-1, d))); by apply getString_typed|].
    apply (reads_map _ (fun l => (_, _) :: l)). auto.
Qed.

Lemma get_arrays_typed i count maxsz l client bs :
  pack_attribs i count maxsz l client = Done bs ->
  forallb (fun b : Z * list Z => alen b.2 <? 2 ^ 31 - 3) bs = true ->
  reads (get_arrays i (map va_enabled l))
    (encs (map (fun b : Z * list Z => IBytes (Some b.2) (alen b.2)) bs))
    (map (fun b : Z * list Z => (b.1, data_back (Some b.2) (alen b.2))) bs).
Proof.
  revert i bs. induction l as [|a l IH]; intros i bs Hp H; cbn [pack_attribs map get_arrays] in *.
  - injection Hp as <-. apply reads_ret.
  - destruct (va_enabled a); [|by apply IH].
    destruct (glSizeof (va_type a)) as [sz| |]; [|done..]. cbn [mbind outcome_bind] in Hp.
    destruct (gather _ _ _ _ _) as [b| |]; [|done..]. cbn [mbind outcome_bind] in Hp.
    destruct (maxsz <? alen b); [done|].
    destruct (pack_attribs (i + 1) count maxsz l client) as [rest| |] eqn:E; [|done..].
    cbn [mbind outcome_bind] in Hp. injection Hp as <-. cbn [forallb map fst snd] in H |- *. split_andb.
    rewrite encs_cons. eapply reads_bind.
    + apply getBytes_back. cbn [bytesb]. bools. pose proof (alen_nonneg b).
      rewrite !andb_true_iff, !Z.leb_le, Z.ltb_lt. lia.
    + apply (reads_map _ (fun l => (i, _) :: l)). by apply IH.
Qed.

#[export] Hint Resolve getUInt_typed getInt_typed getBoolean_typed getFloat_typed getPtr_typed
  getString_typed getBytes_typed getIntPtr_typed getFloatPtr_typed get_ints_typed : trace.

(** ** Every case reads what its function recorded *)
Record sim (s : gles_state) (st : replayer) : Prop := {
  sim_array : rt_arrayBufferBinding st = arrayBufferBinding s;
  sim_element : rt_elementArrayBufferBinding st = elementArrayBufferBinding s;
  sim_enabled : rt_enabled st = map va_enabled (vertexAttrib s) }.

Lemma lift_reads {A} (m : outcome A) a : m = Done a -> reads (lift m) [] a.
Proof.
  intros -> [f c w] rest _ _. unfold advance. cbn. by rewrite Z.add_0_r.
Qed.

Lemma translate_reads (exec : bool) map st h h' :
  (if exec then getMap map h (rt_maps st) else Done h) = Done h' -> reads (translate exec map st h) [] h'.
Proof.
  unfold translate. destruct exec; intros H; [by apply lift_reads|]. injection H as <-. apply reads_ret.
Qed.

Lemma translate_exec map st h h' : getMap map h (rt_maps st) = Done h' -> reads (translate true map st h) [] h'.
Proof. apply (translate_reads true). Qed.

Lemma translate_print map st h : reads (translate false map st h) [] h.
Proof. by apply (translate_reads false). Qed.

(** A step that reads nothing. *)
Lemma reads_bind_nil {A B} (m : get A) (k : A -> get B) l a b :
  reads m [] a -> reads (k a) l b -> reads (m ≫= k) l b.
Proof. intros. by eapply (reads_bind m k [] l). Qed.

Ltac norm_bytes :=
  cbn [rc_before rc_after app]; repeat first [rewrite encs_app | rewrite encs_cons]; change (encs []) with (@nil Z); rewrite <- ?app_assoc; cbn [app].

Ltac read_step :=
  lazymatch goal with
  | |- reads (mret _) _ _ => apply reads_ret
  | |- reads (translate _ _ _ _ ≫= _) _ _ =>
      eapply reads_bind_nil;
      [lazymatch goal with
       | H : getMap ?m ?h _ = Done _ |- reads (translate true ?m ?st ?h) _ _ => apply (translate_exec m st h _ H)
       | |- reads (translate false _ _ _) _ _ => apply translate_print
       | _ => apply translate_reads; eassumption
       end|]; cbv beta
  | |- reads (_ ≫= _) (encs _) _ => rewrite <- (app_nil_r (encs _)); read_word
  | |- reads (_ ≫= _) _ _ => read_word
  end
with read_word := eapply reads_bind; [solve [auto 2 with trace]|]; cbv beta.

Ltac open_recorded :=
  repeat match goal with
  | |- context [rc_before ?r] => progress (let r' := eval hnf in r in change r with r')
  end.

Ltac open_case :=
  lazymatch goal with |- reads ?m _ _ => let m' := eval red in m in change m with m' end.

Ltac read_case := open_recorded; eexists; split; [reflexivity|]; open_case; norm_bytes; repeat read_step.

(** Calls without handles are not translated. *)
Ltac by_translation Ht :=
  lazymatch type of Ht with
  | translated ?exec ?st ?e = Done ?e' =>
      let H := fresh in
      assert (H : translated exec st e = Done e) by (unfold translated; destruct exec; reflexivity);
      rewrite H in Ht; injection Ht as <-; clear H
  end.

(** The results of the steps of [m], which ended. *)
Ltac open_binds H :=
  repeat match type of H with
  | (?m ≫= _) = Done _ => destruct m eqn:?; [cbn [mbind outcome_bind] in H|discriminate H..]
  end.

Section cases.
Context (exec : bool) (s : gles_state) (st : replayer) (Hsim : sim s st).

Definition case_ok (rc : recorded) (e : event) : Prop :=
  exists m, find_case (cases exec true st) (rc_cmd rc) = Some m /\
            reads m (encs (rc_before rc ++ rc_after rc)) e.

Lemma cond_getInt p v :
  (if ctrue p then intb v else v =? 0) = true ->
  reads (if ctrue p then getInt else mret 0) (encs (if ctrue p then [IInt v] else [])) v.
Proof.
  destruct (ctrue p); intros H.
  - rewrite encs_cons, app_nil_r. by apply getInt_typed.
  - apply Z.eqb_eq in H as ->. apply reads_ret.
Qed.

Lemma cond_getUInt p v :
  (if ctrue p then uintb v else v =? 0) = true ->
  reads (if ctrue p then getUInt else mret 0) (encs (if ctrue p then [IInt v] else [])) v.
Proof.
  destruct (ctrue p); intros H.
  - rewrite encs_cons, app_nil_r. by apply getUInt_typed.
  - apply Z.eqb_eq in H as ->. apply reads_ret.
Qed.

Lemma cond_getString p n :
  (if ctrue p then stringb n else negb exec && match n with None => true | _ => false end) = true ->
  reads (if ctrue p then getString else mret None) (encs (if ctrue p then [IString n] else [])) n.
Proof.
  destruct (ctrue p); intros H.
  - rewrite encs_cons, app_nil_r. by apply getString_typed.
  - destruct n; [by rewrite andb_false_r in H|]. apply reads_ret.
Qed.

Lemma exec_getIntPtr p :
  (if exec then optintb p else intptrb p) = true -> reads getIntPtr (enc_item (IIntPtr p)) p.
Proof. intros H. apply getIntPtr_typed. by destruct exec, p. Qed.

#[local] Hint Resolve cond_getInt cond_getUInt cond_getString exec_getIntPtr : trace.

Lemma case_glGetActiveUniform_ok program index bufsize lengthPtr length sizePtr size typePtr type_ namePtr name :
  let g := glGetActiveUniform program index bufsize lengthPtr length sizePtr size typePtr type_ namePtr name in
  replayable exec s g = true ->
  case_ok (put_glGetActiveUniform program index bufsize lengthPtr length sizePtr size typePtr type_ namePtr name)
    (Ev g).
Proof.
  intros g H. cbn [g replayable] in H. split_andb. unfold case_ok. unfold case_ok. read_case.
Qed.

Lemma case_glGetAttachedShaders_ok program maxcount countPtr count shadersPtr shaders :
  let g := glGetAttachedShaders program maxcount countPtr count shadersPtr shaders in
  replayable exec s g = true ->
  case_ok (put_glGetAttachedShaders program maxcount countPtr count shadersPtr shaders) (Ev g).
Proof.
  intros g H. cbn [g replayable] in H. split_andb. unfold case_ok. read_case.
  destruct (ctrue countPtr); split_andb.
  - rewrite encs_cons. read_step. destruct (ctrue shadersPtr).
    + split_andb. destruct exec; cbn [andb].
      * repeat read_step.
      * cbn [orb] in *. assert (Hc : ints count shaders = []).
        { unfold ints. bools. by replace (Z.to_nat count) with 0%nat by lia. }
        rewrite Hc. unfold arrayb in *. bools.
        assert (shaders = []) as -> by (destruct shaders; [done|]; rewrite alen_cons in *; pose proof (alen_nonneg shaders); lia).
        eapply reads_bind_nil; apply reads_ret.
    + destruct shaders; [|done]. rewrite andb_false_r. eapply reads_bind_nil; apply reads_ret.
  - bools. destruct shaders; [|done]. subst. rewrite andb_false_r.
    eapply reads_bind_nil; [apply reads_ret|]. eapply reads_bind_nil; apply reads_ret.
Qed.

Lemma case_glShaderSource_ok shader count string length_ :
  let g := glShaderSource shader count string length_ in
  replayable exec s g = true ->
  case_ok (put_glShaderSource shader count string length_)
    (EvSource shader count (map (fun x => source_back x.1 x.2) (combine string (source_lengths count length_)))).
Proof.
  intros g H. cbn [g replayable] in H. split_andb. unfold case_ok. read_case.
  rewrite (take_ge string) by (bools; unfold alen in *; lia).
  eapply reads_bind; [|apply reads_ret].
  replace (Z.to_nat count) with (length string) by (bools; unfold alen in *; lia).
  apply get_sources_typed; [bools; unfold alen in *; lia|done].
Qed.

Lemma case_glDrawElements_ok mode count type_ indices idata client rc e :
  let g := glDrawElements mode count type_ indices idata client in
  record s g = Done rc -> replayable exec s g = true -> expected s g = Done e -> case_ok rc e.
Proof.
  intros g Hrc H He. cbn [g replayable record expected] in *. split_andb.
  unfold put_glDrawElements, putVertexAttrib, packedb in *.
  destruct Hsim as [Ha He' Hen].
  destruct (ctrue (elementArrayBufferBinding s)) eqn:Eel; [|destruct (glSizeof type_) as [sz| |]; [|done..]];
    cbn [mbind outcome_bind] in *;
    (destruct (ctrue (arrayBufferBinding s)) eqn:Ear; cbn [negb] in *;
      [|destruct (packed s count client) as [l| |] eqn:Ep; [|done..]]); cbn [mbind outcome_bind] in *;
    injection Hrc as <-; injection He as <-;
    (eexists; split; [reflexivity|]); norm_bytes; unfold case_glDrawElements; rewrite Ha, He', Hen, Eel, Ear;
    do 3 read_step; cbn [negb].
  all: eapply reads_bind;
    [first [apply (reads_map _ inl); by apply getPtr_typed|apply (reads_map _ inr); by apply getBytes_back]|].
  all: try (eapply reads_bind_nil; apply reads_ret).
  all: eapply reads_bind; [|apply reads_ret].
  all: unfold packed in Ep; cbv zeta in Ep; open_binds Ep; by eapply get_arrays_typed.
Qed.

Lemma case_eglChooseConfig_ok dpy attrib_list configs config_size num_config res rc :
  let g := eglChooseConfig dpy attrib_list configs config_size num_config res in
  record s g = Done rc -> replayable exec s g = true -> case_ok rc (Ev g).
Proof.
  intros g Hrc H. cbn [g replayable record] in *. split_andb. unfold put_eglChooseConfig, attribsb in *.
  destruct attrib_list as [l|]; [|done]. destruct configs as [cs|]; [|done]. split_andb.
  cbn [put_attribs] in Hrc. destruct (attribs l) as [k| |] eqn:Ek; [|done..].
  cbn [mbind outcome_bind] in Hrc. injection Hrc as <-.
  destruct (get_attribs_typed 32 l k) as [Hr ->]; [done..|].
  assert (Hcs : length cs = Z.to_nat (MIN num_config config_size)).
  { bools. rewrite MAX_spec in *. unfold alen in *. lia. }
  rewrite take_ge by lia.
  unfold case_ok. read_case. eapply reads_bind; [apply Hr|]. repeat read_step.
  eapply reads_bind; [by apply get_ptrs_typed|].
  repeat read_step.
Qed.

Lemma case_eglCreateWindowSurface_ok dpy config win attrib_list res rc :
  let g := eglCreateWindowSurface dpy config win attrib_list res in
  record s g = Done rc -> replayable exec s g = true -> case_ok rc (Ev g).
Proof.
  intros g Hrc H. cbn [g replayable record] in *. split_andb. unfold put_eglCreateWindowSurface, attribsb in *.
  destruct attrib_list as [l|]; [|done].
  cbn [put_attribs] in Hrc. destruct (attribs l) as [k| |] eqn:Ek; [|done..].
  cbn [mbind outcome_bind] in Hrc. injection Hrc as <-.
  destruct (get_attribs_typed 32 l k) as [Hr ->]; [done..|].
  unfold case_ok. read_case. eapply reads_bind; [apply Hr|]. repeat read_step.
Qed.

Lemma case_eglCreateContext_ok dpy config share attrib_list res rc e :
  let g := eglCreateContext dpy config share attrib_list res in
  record s g = Done rc -> replayable exec s g = true -> translated exec st (Ev g) = Done e -> case_ok rc e.
Proof.
  intros g Hrc H He. cbn [g replayable record] in *. split_andb. unfold put_eglCreateContext, attribsb in *.
  destruct attrib_list as [l|]; [|done].
  cbn [put_attribs] in Hrc. destruct (attribs l) as [k| |] eqn:Ek; [|done..].
  cbn [mbind outcome_bind] in Hrc. injection Hrc as <-.
  destruct (get_attribs_typed 32 l k) as [Hr ->]; [done..|].
  assert (Ht : exists h, (if exec && ctrue share then getMap (eglContextMap st) share (rt_maps st) else Done share)
                 = Done h /\ e = Ev (eglCreateContext dpy config h (Some l) res)).
  { subst g. unfold translated in He. destruct exec; cbn [andb]; [|injection He as <-; by eexists].
    destruct (if ctrue share then _ else _) as [h| |] eqn:Eh; [|done..].
    cbn [mbind outcome_bind] in He. injection He as <-. eauto. }
  destruct Ht as (h & Hh & ->).
  unfold case_ok. read_case. eapply reads_bind; [apply Hr|]. repeat read_step.
Qed.

Lemma draw_translated mode count type_ indices idata client e e' :
  expected s (glDrawElements mode count type_ indices idata client) = Done e ->
  translated exec st e = Done e' -> e' = e.
Proof.
  cbn [expected]. intros He.
  destruct (if ctrue (elementArrayBufferBinding s) then _ else _) as [idx| |]; [|done..].
  cbn [mbind outcome_bind] in He.
  destruct (if negb (ctrue (arrayBufferBinding s)) then _ else _) as [l| |]; [|done..].
  cbn [mbind outcome_bind] in He. injection He as <-. unfold translated. destruct exec; congruence.
Qed.

(** The functions without a lemma of their own. *)
Lemma case_reads g rc e e' :
  record s g = Done rc -> replayable exec s g = true -> expected s g = Done e ->
  translated exec st e = Done e' -> case_ok rc e'.
Proof.
  intros Hrc H He Ht. destruct g; try (exfalso; exact (diff_false_true H)).
  all: try (pose proof (draw_translated _ _ _ _ _ _ _ _ He Ht) as ->; by eapply case_glDrawElements_ok).
  all: cbn [expected] in He; injection He as <-.
  all: try by_translation Ht.
  all: try (by eapply case_eglCreateContext_ok).
  all: try (by eapply case_eglCreateWindowSurface_ok).
  all: try (by eapply case_eglChooseConfig_ok).
  all: try (cbn [record] in Hrc; injection Hrc as <-;
            first [by apply case_glShaderSource_ok | by apply case_glGetActiveUniform_ok
                  | by apply case_glGetAttachedShaders_ok]).
  all: cbn [record] in Hrc.
  all: try (unfold put_glTexImage2D, put_glTexSubImage2D in Hrc; cbn [replayable] in H;
            destruct (glElementSize _ _) as [sz| |]; [|by split_andb..]; cbn [mbind outcome_bind] in Hrc).
  all: injection Hrc as <-; cbn [replayable] in H; try done; split_andb.
  all: try (unfold case_ok; by read_case).
  all: try (destruct params as [v|]; [|done]; cbn [optintb optboolb] in *; unfold case_ok; by read_case).
  all: unfold case_ok; unfold translated in Ht; destruct exec; open_binds Ht; injection Ht as <-; by read_case.
Qed.
End cases.

(** ** The replayer follows the tracer's state *)
Lemma set_attrib_enabled s i f s' :
  set_attrib s i f = Done s' ->
  arrayBufferBinding s' = arrayBufferBinding s /\ elementArrayBufferBinding s' = elementArrayBufferBinding s /\
  exists a, aget (vertexAttrib s) i = Some a /\ aset (vertexAttrib s) i (f a) = Some (vertexAttrib s').
Proof.
  unfold set_attrib, aupd. destruct (aget (vertexAttrib s) i) as [a|] eqn:Ea; [|done].
  cbn [mbind option_bind]. destruct (aset _ i (f a)) as [l|] eqn:El; [|done].
  intros H. injection H as <-. split; [done|]. split; [done|]. by exists a.
Qed.

Lemma aset_map {A B} (h : A -> B) l i v k :
  aset l i v = Some k -> aset (map h l) i (h v) = Some (map h k).
Proof.
  unfold aset. rewrite length_map. destruct (_ && _); [|done]. intros H. injection H as <-.
  by rewrite <- list_fmap_insert.
Qed.

Lemma aset_same {A} (l : list A) i a : aget l i = Some a -> aset l i a = Some l.
Proof.
  unfold aget, aset. destruct (Z.ltb_spec i 0); [done|]. intros Hl. pose proof (lookup_lt_Some _ _ _ Hl) as Hlt.
  rewrite (proj2 (Z.leb_le _ _)), (proj2 (Z.ltb_lt _ _)) by lia. cbn [andb]. by rewrite list_insert_id.
Qed.

Section replay.
Context (exec : bool) (driver : gl_driver).

Lemma sim_thread s st thr : sim s st -> sim s (with_rt_thread st thr).
Proof. intros [H1 H2 H3]. by split. Qed.

(** The cases change the replayer's state as the functions changed the tracer's. *)
Lemma sim_after s s' st st' g e e' k :
  sim s st -> gles_after s g = Done s' -> expected s g = Done e -> translated exec st e = Done e' ->
  after_event exec driver st k e' = Done st' -> sim s' st' /\ rt_curThread st' = rt_curThread st.
Proof.
  intros Hsim Hs He Ht Ha. destruct Hsim as [H1 H2 H3].
  assert (Hset : forall f i b, set_attrib s i f = Done s' -> (forall a, va_enabled (f a) = b) ->
            set_enabled st i b = Done st' -> sim s' st' /\ rt_curThread st' = rt_curThread st).
  { intros f i b Hf Hb Hst. apply set_attrib_enabled in Hf as (E1 & E2 & a & _ & E3).
    unfold set_enabled in Hst. rewrite H3 in Hst. apply (aset_map va_enabled) in E3. rewrite Hb in E3.
    rewrite E3 in Hst. injection Hst as <-. split; [|done]. split; simpl; congruence. }
  destruct g; try (pose proof (draw_translated exec s st _ _ _ _ _ _ _ _ He Ht) as ->).
  all: cbn [expected] in He.
  all: try (open_binds He).
  all: injection He as <-.
  all: try by_translation Ht.
  all: try (unfold translated in Ht; destruct exec eqn:?; open_binds Ht; injection Ht as <-; subst).
  all: cbn [after_event gles_after] in Ha, Hs.
  all: try (match type of Ha with match ?name with Some _ => _ | None => _ end = _ => destruct name end).
  all: unfold check_names, check_string in Ha.
  all: try (match type of Ha with (if ?b then _ else _) = _ => destruct b; [discriminate Ha|] end).
  all: try (eapply Hset; [exact Hs| |exact Ha]; done).
  all: try (injection Hs as <-; injection Ha as <-; by split).
  - injection Hs as <-. injection Ha as <-. split; [|done].
    destruct (Z.eqb_spec target GL_ARRAY_BUFFER) as [->|]; [by split|].
    destruct (target =? GL_ELEMENT_ARRAY_BUFFER); by split.
  - injection Ha as <-. split; [|done]. apply set_attrib_enabled in Hs as (E1 & E2 & a & Ea & E3).
    apply (aset_map va_enabled) in E3. cbn [va_enabled] in E3.
    assert (Ea' : aget (map va_enabled (vertexAttrib s)) indx = Some (va_enabled a)).
    { unfold aget in *. destruct (indx <? 0); [done|]. by rewrite list_lookup_fmap, Ea. }
    rewrite (aset_same _ _ _ Ea') in E3. injection E3 as E3. split; congruence.
  - injection Hs as <-. destruct exec; open_binds Ha; try (destruct a as [mp ms]); injection Ha as <-; by split.
  - injection Hs as <-. open_binds Ha; try (destruct a0 as [mp ms]); injection Ha as <-; by split.
Qed.

(** The window of a new surface plays no part in it. *)
Lemma after_made st k e : after_event exec driver st k (made exec driver e) = after_event exec driver st k e.
Proof. destruct e as [g| |]; [|done..]. destruct g; try done. cbn [made]. by destruct exec. Qed.

(** ** One round of the loop *)

(** Codes with a case are none of the reserved ones, and fit an [int]. *)
Lemma find_case_reserved l cmd m :
  Forall (fun x : Z * get event => 0 < x.1 < 1000 /\ x.1 <> OPC_THREAD) l -> find_case l cmd = Some m ->
  0 < cmd < 1000 /\ cmd <> OPC_THREAD.
Proof.
  induction 1 as [|[c m'] l Hc Hl IH]; [done|]. cbn [find_case]. destruct (Z.eqb_spec c cmd) as [<-|]; [|apply IH].
  intros _. exact Hc.
Qed.

Lemma cases_codes st : Forall (fun x : Z * get event => 0 < x.1 < 1000 /\ x.1 <> OPC_THREAD) (cases exec true st).
Proof. unfold cases. repeat constructor; discriminate. Qed.

Lemma find_case_thread st thr cmd m :
  find_case (cases exec true st) cmd = Some m -> exists m', find_case (cases exec true (with_rt_thread st thr)) cmd = Some m'.
Proof.
  intros E. assert (Hk : forall l l' : list (Z * get event), map fst l = map fst l' ->
            find_case l cmd = Some m -> exists m', find_case l' cmd = Some m').
  { clear E. induction l as [|[c x] l IH]; intros [|[c' x'] l'] Hl; try done.
    injection Hl as -> Hl. cbn [find_case]. destruct (c' =? cmd); [eauto|by apply IH]. }
  by apply (Hk _ (cases exec true (with_rt_thread st thr))) in E.
Qed.

Lemma with_thread_same st : with_rt_thread st (rt_curThread st) = st.
Proof. by destruct st. Qed.

(** The thread prefix and the command. *)
Lemma prefix_reads st thr cmd :
  ptrb thr = true -> 0 < cmd < 1000 -> cmd <> OPC_THREAD ->
  reads (prefix st) (cmd_bytes thr (rt_curThread st) cmd) (cmd, with_rt_thread st thr).
Proof.
  intros Hthr Hc Hn. unfold prefix, cmd_bytes.
  assert (Ecmd : i32 cmd = cmd) by (apply i32_id; split; lia).
  assert (Hcmd : reads getCmd (le 4 cmd) cmd) by (rewrite <- Ecmd at 2; apply getCmd_reads).
  destruct (Z.eqb_spec thr (rt_curThread st)) as [->|Hne].
  - rewrite with_thread_same. cbn [app]. rewrite <- (app_nil_r (le 4 cmd)).
    eapply reads_bind; [exact Hcmd|]. rewrite (proj2 (Z.eqb_neq _ _)) by done. apply reads_ret.
  - rewrite <- app_assoc. eapply reads_bind; [apply getCmd_reads|].
    change (i32 OPC_THREAD =? OPC_THREAD) with true. cbv iota.
    eapply reads_bind; [by apply getPtr_typed|].
    apply (reads_map _ (fun c => (c, _))), Hcmd.
Qed.

(** Calls of a log, with what the replayer should make of them. *)
Inductive recorded_as : gles_state -> replayer -> list entry -> log -> replayer -> list entry -> Prop :=
| recorded_nil s st es : recorded_as s st es [] st es
| recorded_cons s s' st st' st2 es es' thr c l g rc e e' :
    record s g = Done rc -> c_cmd c = rc_cmd rc -> items c = rc_before rc ++ rc_after rc ->
    replayable exec s g = true -> gles_after s g = Done s' -> ptrb thr = true ->
    expected s g = Done e -> translated exec st e = Done e' ->
    after_event exec driver (with_rt_thread st thr) (es.*1.*1.*2 ++ [made exec driver e']) e' = Done st' ->
    recorded_as s' st' (es ++ [(thr, made exec driver e', u64 (c_bgn c), u64 (c_fin c))]) l st2 es' ->
    recorded_as s st es ((thr, c) :: l) st2 es'.

Lemma translated_thread st thr e : translated exec (with_rt_thread st thr) e = translated exec st e.
Proof. done. Qed.

Lemma process_step fuel frames s s' st st' es thr c g rc e e' r rest :
  frames <> 0 -> sim s st -> wsize r = 8 ->
  record s g = Done rc -> c_cmd c = rc_cmd rc -> items c = rc_before rc ++ rc_after rc ->
  replayable exec s g = true -> gles_after s g = Done s' -> ptrb thr = true ->
  expected s g = Done e -> translated exec st e = Done e' ->
  after_event exec driver (with_rt_thread st thr) (es.*1.*1.*2 ++ [made exec driver e']) e' = Done st' ->
  ahead r (cmd_bytes thr (rt_curThread st) (c_cmd c) ++ call_bytes c ++ rest) ->
  exists r', wsize r' = 8 /\ ahead r' rest /\ sim s' st' /\ rt_curThread st' = thr /\
    process exec true driver (S fuel) frames st es r =
    process exec true driver fuel (if c_cmd c =? OPC_eglSwapBuffers then i32 (frames - 1) else frames) st'
      (es ++ [(thr, made exec driver e', u64 (c_bgn c), u64 (c_fin c))]) r'.
Proof.
  intros Hf Hsim Hw Hrc Hcmd Hit Hrep Hs' Hthr He Ht Ha Hr.
  pose proof (sim_thread _ _ thr Hsim) as Hsim1.
  destruct (case_reads exec s (with_rt_thread st thr) Hsim1 g rc e e') as (m & Hm & Hreads); try done.
  destruct (find_case_reserved _ _ _ (cases_codes _) Hm) as [Hc Hnt]. rewrite <- Hcmd in *.
  pose proof (prefix_reads st thr (c_cmd c) Hthr Hc Hnt r _ Hw Hr) as E1.
  apply ahead_advance in Hr. unfold call_bytes in Hr. rewrite Hit in Hr. fold (encs (rc_before rc ++ rc_after rc)) in Hr.
  rewrite <- app_assoc in Hr. set (r1 := advance r (alen (cmd_bytes thr (rt_curThread st) (c_cmd c)))) in *.
  pose proof (Hreads r1 _ Hw Hr) as E2. apply ahead_advance in Hr. set (r2 := advance r1 _) in Hr, E2.
  pose proof (getTime_reads (c_bgn c) (c_fin c) r2 _ Hw Hr) as E3. apply ahead_advance in Hr.
  destruct (sim_after s s' (with_rt_thread st thr) st' g e e' (es.*1.*1.*2 ++ [made exec driver e'])) as [Hsim' Hthr']; try done.
  eexists. split; [|split; [exact Hr|split; [exact Hsim'|split; [exact Hthr'|]]]]; [exact Hw|].
  cbn [process]. rewrite (proj2 (Z.eqb_neq frames 0)) by done. rewrite E1. cbn [mbind outcome_bind].
  rewrite (proj2 (Z.eqb_neq (c_cmd c) OPC_NONE)), (proj2 (Z.eqb_neq (c_cmd c) (i32 OPC_EOF)))
    by (unfold OPC_NONE; change (i32 OPC_EOF) with (-1); lia). cbn [orb].
  rewrite Hm, E2. cbn [mbind outcome_bind]. cbv zeta. rewrite after_made, Ha. cbn [mbind outcome_bind]. rewrite E3. cbn [mbind outcome_bind].
  by rewrite Hthr'.
Qed.

Lemma get_bind_done {A B} (m : get A) (k : A -> get B) r a r' : m r = Done (a, r') -> (m ≫= k) r = k a r'.
Proof. intros E. unfold mbind, get_bind. by rewrite E. Qed.

Lemma process_end fuel frames st es r :
  frames <> 0 -> wsize r = 8 -> ahead r [] ->
  process exec true driver (S fuel) frames st es r = Done (EndOfTrace, st, es, r).
Proof.
  intros Hf Hw [Hr E]. cbn [process]. rewrite (proj2 (Z.eqb_neq frames 0)) by done.
  assert (Hend : rcur r = alen (rfile r)).
  { apply (f_equal length) in E. rewrite length_drop in E. unfold alen in *. cbn in E. lia. }
  assert (E1 : getCmd r = Done (i32 OPC_EOF, r)).
  { unfold getCmd, guarded. by rewrite (proj2 (Z.gtb_lt _ _)) by lia. }
  assert (E2 : prefix st r = Done (i32 OPC_EOF, st, r)).
  { unfold prefix. by rewrite (get_bind_done _ _ _ _ _ E1). }
  rewrite E2. done.
Qed.

Lemma process_all l : forall fuel frames s st es st2 es' r,
  recorded_as s st es l st2 es' -> sim s st -> wsize r = 8 ->
  ahead r (log_bytes (rt_curThread st) l) -> (length l < fuel)%nat ->
  frames < 0 -> - 2 ^ 31 <= frames - Z.of_nat (length l) ->
  exists r', process exec true driver fuel frames st es r = Done (EndOfTrace, st2, es', r').
Proof.
  induction l as [|[thr c] l IH]; intros fuel frames s st es st2 es' r Hrec Hsim Hw Hr Hfuel Hf Hb;
    (destruct fuel as [|fuel]; [cbn in Hfuel; lia|]).
  - inversion Hrec; subst. exists r. apply process_end; [lia|done|done].
  - inversion Hrec; subst. cbn [log_bytes] in Hr. cbn [length] in Hfuel, Hb.
    destruct (process_step fuel frames s s' st st' es thr c g rc e e' r (log_bytes thr l))
      as (r' & Hw' & Hr' & Hsim' & Hthr' & E); try done; [lia|].
    rewrite E. eapply (IH fuel _ s' st'); try done; [by rewrite Hthr'|lia| |].
    + destruct (c_cmd c =? OPC_eglSwapBuffers); [rewrite i32_id by (split; lia)|]; lia.
    + destruct (c_cmd c =? OPC_eglSwapBuffers); [rewrite i32_id by (split; lia)|]; lia.
Qed.
End replay.
