(* ===== verification/GlHandles.v ===== *)
(** * Handles of EGL objects in a replay

    When the recorded calls are made again, surfaces and contexts have new
    handles.  [handles] is what the replayer's two tables stand for: for every
    recorded handle the newest one the driver returned for it.  [performed] is a
    recorded call with the handles replaced, [learnt] what a creation adds.  The
    window of a surface is the replayer's own ([made]). *)

From S2P Require Import Prelude MediaCache GlTrace GlTraceSpec GlTraceThreads GlTraceRead GlMap GlCalls GlReplay GlReplaySpec.

Record handles := mkHandles { surfaces : option (list (Z * Z)); contexts : option (list (Z * Z)) }.

Definition no_handles : handles := mkHandles None None.

(** Before the first creation there is no table, and looking in it is not defined. *)
Definition find (t : option (list (Z * Z))) (h : Z) : option Z := l ← t; Some (lookup l h).

Definition performed (exec : bool) (hs : handles) (e : event) : option event :=
  if exec then
    match e with
    | Ev (eglSurfaceAttrib dpy h attribute value res) =>
        h ← find (surfaces hs) h; Some (Ev (eglSurfaceAttrib dpy h attribute value res))
    | Ev (eglCreateContext dpy config h attrib_list res) =>
        h ← (if ctrue h then find (contexts hs) h else Some h);
        Some (Ev (eglCreateContext dpy config h attrib_list res))
    | Ev (eglDestroyContext dpy h res) =>
        h ← find (contexts hs) h; Some (Ev (eglDestroyContext dpy h res))
    | Ev (eglMakeCurrent dpy draw read ctx res) =>
        draw ← find (surfaces hs) draw; read ← find (surfaces hs) read; ctx ← find (contexts hs) ctx;
        Some (Ev (eglMakeCurrent dpy draw read ctx res))
    | Ev (eglSwapBuffers dpy h res) =>
        h ← find (surfaces hs) h; Some (Ev (eglSwapBuffers dpy h res))
    | _ => Some e
    end
  else Some e.

(** A table has room for sixteen handles other than NULL. *)
Definition add (t : option (list (Z * Z))) (old new : Z) : option (list (Z * Z)) :=
  let l := update (default [] t) old new in
  if negb (old =? 0) && (length l <=? 16)%nat then Some l else None.

(** What the replayer learns from a call that was made: the handle the driver
    returned; the names have to be the recorded ones, and a string has to be
    answered with a string. *)
Definition learnt (exec : bool) (driver : gl_driver) (hs : handles) (done : list event) (e : event) : option handles :=
  if exec then
    match e with
    | Ev (eglCreateWindowSurface _ _ _ _ old) =>
        l ← add (surfaces hs) old (returned driver done); Some (mkHandles (Some l) (contexts hs))
    | Ev (eglCreateContext _ _ _ _ old) =>
        l ← add (contexts hs) old (returned driver done); Some (mkHandles (surfaces hs) (Some l))
    | Ev (glGenBuffers n names) | Ev (glGenFramebuffers n names) | Ev (glGenRenderbuffers n names)
    | Ev (glGenTextures n names) => if same_names n names (generated driver done) then Some hs else None
    | Ev (glGetString _ _) | Ev (eglQueryString _ _ _) => if answered driver done then Some hs else None
    | _ => Some hs
    end
  else Some hs.

(** ** The tables of the replayer *)
Definition table_of (m : maps) (tabs : list (list (Z * Z))) (map : option Z) (t : option (list (Z * Z)))
    (i : nat) : Prop :=
  match t with
  | None => map = None
  | Some l => map = Some (32 * Z.of_nat i) /\ Z.of_nat i <= lastMap m /\ tabs !! i = Some l
  end.

Definition created (t : option (list (Z * Z))) : Z := match t with Some _ => 1 | None => 0 end.

Definition holds (hs : handles) (st : replayer) : Prop := exists tabs i j,
  maps_are (rt_maps st) tabs /\ i <> j /\
  table_of (rt_maps st) tabs (eglSurfaceMap st) (surfaces hs) i /\
  table_of (rt_maps st) tabs (eglContextMap st) (contexts hs) j /\
  lastMap (rt_maps st) + 1 = created (surfaces hs) + created (contexts hs).

Lemma table_find m tabs map t i h h' :
  maps_are m tabs -> table_of m tabs map t i -> find t h = Some h' -> getMap map h m = Done h'.
Proof.
  intros Hm Ht E. destruct t as [l|]; [|done]. destruct Ht as (-> & _ & El).
  cbn in E. injection E as <-. by apply (getMap_spec _ tabs).
Qed.

Lemma performed_translated exec hs st e e' :
  holds hs st -> performed exec hs e = Some e' -> translated exec st e = Done e'.
Proof.
  intros (tabs & i & j & Hm & _ & Hs & Hc & _) E. unfold performed, translated in *.
  destruct exec; [|by injection E as <-].
  assert (Hsf : forall h h', find (surfaces hs) h = Some h' -> getMap (eglSurfaceMap st) h (rt_maps st) = Done h')
    by (intros; by eapply table_find).
  assert (Hcf : forall h h', find (contexts hs) h = Some h' -> getMap (eglContextMap st) h (rt_maps st) = Done h')
    by (intros; by eapply table_find).
  destruct e as [g| |]; try (by injection E as <-). destruct g; try (by injection E as <-).
  all: repeat match type of E with
    | (find ?t ?h ≫= _) = Some _ =>
        let Eh := fresh in destruct (find t h) as [?h|] eqn:Eh; [|discriminate E];
        first [apply Hsf in Eh | apply Hcf in Eh]; rewrite Eh; cbn [mbind option_bind outcome_bind] in E |- *
    end.
  all: try (by injection E as <-).
  destruct (ctrue share_context); [|by injection E as <-].
  destruct (find (contexts hs) share_context) as [h|] eqn:Eh; [|done]. rewrite (Hcf _ _ Eh).
  by injection E as <-.
Qed.

(** Adding to a table that exists or is created: the other tables stay. *)
Lemma new_handle_ok m tabs map t i old new l :
  maps_are m tabs -> table_of m tabs map t i -> lastMap m < 15 -> add t old new = Some l ->
  exists i' m' tabs',
    new_handle map old new m = Done (Some (32 * Z.of_nat i'), m') /\ maps_are m' tabs' /\
    table_of m' tabs' (Some (32 * Z.of_nat i')) (Some l) i' /\
    lastMap m' = lastMap m + 1 - created t /\ (t = None -> Z.of_nat i' = lastMap m + 1) /\ (t <> None -> i' = i) /\
    forall j, j <> i' -> tabs' !! j = tabs !! j.
Proof.
  intros Hm Ht Hlast Hadd. unfold add in Hadd.
  destruct (negb (old =? 0) && _)%bool eqn:E in Hadd; [|done]. injection Hadd as <-.
  apply andb_true_iff in E as [Ho Hlen]. apply negb_true_iff, Z.eqb_neq in Ho.
  assert (Hput : exists i' mc tc, match map with Some mp => Done (mp, m) | None => createMap m end
            = Done (32 * Z.of_nat i', mc) /\ maps_are mc tc /\ tc = tabs /\ tabs !! i' = Some (default [] t) /\
            Z.of_nat i' <= lastMap mc /\ lastMap mc = lastMap m + 1 - created t /\
            (t = None -> Z.of_nat i' = lastMap m + 1) /\ (t <> None -> i' = i)).
  { destruct t as [l|]; cbn [table_of] in Ht.
    - destruct Ht as (-> & Hi & El). exists i, m, tabs. cbn [created default]. repeat (split; [done||lia|]). done.
    - subst map. destruct (createMap_spec m tabs Hm Hlast) as (Hc & Hm' & Hnil).
      eexists _, _, tabs. split; [exact Hc|]. pose proof (are_last _ _ Hm). cbn [lastMap created].
      repeat (split; [done||lia|]). done. }
  destruct Hput as (i' & mc & tc & E & Hmc & -> & Ei & Hle & Hl & Hnone & Hsome).
  destruct (putMap_spec mc tabs i' _ old new Hmc Ei Hle Ho) as [Hput Hare].
  rewrite Hlen in Hput. apply Nat.leb_le in Hlen. specialize (Hare Hlen).
  eexists i', _, _. unfold new_handle. rewrite E. cbn [mbind outcome_bind]. rewrite Hput. cbn [mbind outcome_bind].
  split; [reflexivity|]. split; [exact Hare|]. cbn [table_of lastMap].
  split; [split; [done|split; [done|apply list_lookup_insert_eq, (lookup_lt_Some _ _ _ Ei)]]|].
  repeat (split; [done|]). intros j Hj. by apply list_lookup_insert_ne.
Qed.

Lemma table_keep m m' tabs tabs' map t j :
  table_of m tabs map t j -> tabs' !! j = tabs !! j -> lastMap m <= lastMap m' -> table_of m' tabs' map t j.
Proof. destruct t as [l|]; [|done]. intros (-> & Hj & E) H Hle. rewrite <- H in E. repeat split; [lia|done]. Qed.

Lemma created_range t : 0 <= created t <= 1.
Proof. by destruct t. Qed.

(** The other table is where it was, or nowhere yet. *)
Lemma other_table m m' tabs tabs' map t i' j k :
  table_of m tabs map t j -> lastMap m <= lastMap m' ->
  (forall j, j <> i' -> tabs' !! j = tabs !! j) -> (t <> None -> j <> i') -> k <> i' ->
  exists j', j' <> i' /\ table_of m' tabs' map t j'.
Proof.
  intros Ht Hle Hkeep Hj Hk. destruct t as [l|]; [|by exists k].
  exists j. split; [by apply Hj|]. apply (table_keep _ _ _ _ _ _ _ Ht); [by apply Hkeep, Hj|done].
Qed.

Lemma new_surface hs st res v l :
  holds hs st -> add (surfaces hs) res v = Some l ->
  exists map m, new_handle (eglSurfaceMap st) res v (rt_maps st) = Done (map, m) /\
    forall a b c d, holds (mkHandles (Some l) (contexts hs)) (mkReplayer a b c m map (eglContextMap st) d).
Proof.
  intros (tabs & i & j & Hm & Hij & Hs & Hc & Hn) Hl.
  pose proof (created_range (surfaces hs)). pose proof (created_range (contexts hs)).
  destruct (new_handle_ok _ _ _ _ _ res v l Hm Hs ltac:(lia) Hl)
    as (i' & m' & tabs' & E & Hm' & Ht & Hlast & Hnone & Hsome & Hkeep).
  exists (Some (32 * Z.of_nat i')), m'. split; [exact E|]. intros.
  destruct (other_table _ m' _ tabs' _ _ i' j (S i') Hc) as (j' & Hj' & Hc'); [lia|done| |lia|].
  { intros Hct. destruct (surfaces hs) as [k|]; [by rewrite Hsome|].
    destruct (contexts hs) as [k|]; [|done]. destruct Hc as (_ & Hc & _). specialize (Hnone eq_refl). lia. }
  exists tabs', i', j'. repeat (split; [done|]). cbn [created surfaces contexts rt_maps]. lia.
Qed.

Lemma new_context hs st res v l :
  holds hs st -> add (contexts hs) res v = Some l ->
  exists map m, new_handle (eglContextMap st) res v (rt_maps st) = Done (map, m) /\
    forall a b c d, holds (mkHandles (surfaces hs) (Some l)) (mkReplayer a b c m (eglSurfaceMap st) map d).
Proof.
  intros (tabs & i & j & Hm & Hij & Hs & Hc & Hn) Hl.
  pose proof (created_range (surfaces hs)). pose proof (created_range (contexts hs)).
  destruct (new_handle_ok _ _ _ _ _ res v l Hm Hc ltac:(lia) Hl)
    as (j' & m' & tabs' & E & Hm' & Ht & Hlast & Hnone & Hsome & Hkeep).
  exists (Some (32 * Z.of_nat j')), m'. split; [exact E|]. intros.
  destruct (other_table _ m' _ tabs' _ _ j' i (S j') Hs) as (i' & Hi' & Hs'); [lia|done| |lia|].
  { intros Hct. destruct (contexts hs) as [k|]; [by rewrite Hsome|].
    destruct (surfaces hs) as [k|]; [|done]. destruct Hs as (_ & Hs & _). specialize (Hnone eq_refl). lia. }
  exists tabs', i', j'. repeat (split; [done|]). cbn [created surfaces contexts rt_maps]. lia.
Qed.

(** ** The replayer keeps up *)
Lemma holds_thread hs st thr : holds hs st -> holds hs (with_rt_thread st thr).
Proof. done. Qed.

(** A table that is there stays when the other state changes. *)
Lemma holds_same hs st st' :
  rt_maps st' = rt_maps st -> eglSurfaceMap st' = eglSurfaceMap st -> eglContextMap st' = eglContextMap st ->
  holds hs st -> holds hs st'.
Proof. unfold holds. by intros -> -> ->. Qed.

Lemma enabled_exists s st i f s' b :
  sim s st -> set_attrib s i f = Done s' -> (forall a, va_enabled (f a) = b) ->
  exists l, set_enabled st i b =
    Done (mkReplayer (rt_arrayBufferBinding st) (rt_elementArrayBufferBinding st) l (rt_maps st)
            (eglSurfaceMap st) (eglContextMap st) (rt_curThread st)).
Proof.
  intros [_ _ H3] Hf Hb. apply set_attrib_enabled in Hf as (_ & _ & a & _ & E3).
  apply (aset_map va_enabled) in E3. rewrite Hb in E3. unfold set_enabled. rewrite H3, E3. eauto.
Qed.

(** The state changes of the replayer do not fail. *)
Lemma after_exists exec driver hs hs' s s' st g e e' k :
  sim s st -> replayable exec s g = true -> gles_after s g = Done s' -> expected s g = Done e -> holds hs st ->
  performed exec hs e = Some e' -> learnt exec driver hs k e = Some hs' ->
  exists st', after_event exec driver st k e' = Done st' /\ holds hs' st'.
Proof.
  intros Hsim Hrep Hs He Hh Hp Hl.
  destruct g.
  all: try (pose proof (performed_translated _ _ _ _ _ Hh Hp) as Ht;
            pose proof (draw_translated exec s st _ _ _ _ _ _ _ _ He Ht) as ->; clear Ht).
  all: cbn [expected] in He.
  all: try (open_binds He).
  all: injection He as <-.
  all: unfold performed in Hp; unfold learnt in Hl; destruct exec.
  all: repeat match type of Hp with
       | (?m ≫= _) = Some _ => destruct m eqn:?; [cbn [mbind option_bind] in Hp|discriminate Hp]
       end.
  all: try (injection Hp as <-).
  all: try (match type of Hl with (if ?b then _ else _) = _ => destruct b eqn:Enames; [|discriminate Hl] end).
  all: try (injection Hl as <-).
  all: cbn [after_event gles_after] in *; unfold check_names, check_string; rewrite ?Enames; cbn [andb negb].
  all: try (match goal with |- exists _, match ?name with Some _ => _ | None => _ end = _ /\ _ => destruct name end).
  all: try (exfalso; cbn [replayable] in Hrep; split_andb; by destruct (ctrue namePtr)).
  all: try (exfalso; cbn [replayable optintb floatptrb] in Hrep; split_andb; done).
  all: try (eexists; split; [reflexivity|]; by apply (holds_same _ st)).
  all: try (destruct (enabled_exists _ _ _ _ _ true Hsim Hs) as (l & El); [done|]; rewrite El;
            eexists; split; [reflexivity|]; by apply (holds_same _ st)).
  all: try (destruct (enabled_exists _ _ _ _ _ false Hsim Hs) as (l & El); [done|]; rewrite El;
            eexists; split; [reflexivity|]; by apply (holds_same _ st)).
  - destruct (add (surfaces hs) res (returned driver k)) as [l|] eqn:El; [|done]. injection Hl as <-.
    destruct (new_surface _ _ _ _ _ Hh El) as (map & m & E & Hnew). rewrite E. eexists. by split.
  - destruct (add (contexts hs) res (returned driver k)) as [l|] eqn:El; [|done]. injection Hl as <-.
    destruct (new_context _ _ _ _ _ Hh El) as (map & m & E & Hnew). rewrite E. eexists. by split.
Qed.

(** ** Traces that can be replayed

    [traced s hs es l es']: the functions of gles.c and egl.c, in state [s],
    recorded the calls of [l], all of them of the kinds that the replayer knows;
    made again with the handles of the new run they are what [es'] adds to [es]. *)
Inductive traced (exec : bool) (driver : gl_driver) :
    gles_state -> handles -> list entry -> log -> list entry -> Prop :=
| traced_nil s hs es : traced exec driver s hs es [] es
| traced_cons s s' hs hs' es es' thr c l g rc e e' :
    record s g = Done rc -> c_cmd c = rc_cmd rc -> items c = rc_before rc ++ rc_after rc ->
    replayable exec s g = true -> gles_after s g = Done s' -> ptrb thr = true ->
    expected s g = Done e -> performed exec hs e = Some e' ->
    learnt exec driver hs (es.*1.*1.*2 ++ [made exec driver e']) e = Some hs' ->
    traced exec driver s' hs' (es ++ [(thr, made exec driver e', u64 (c_bgn c), u64 (c_fin c))]) l es' ->
    traced exec driver s hs es ((thr, c) :: l) es'.

Lemma traced_recorded exec driver s hs es l es' :
  traced exec driver s hs es l es' -> forall st, sim s st -> holds hs st ->
  exists st2, recorded_as exec driver s st es l st2 es'.
Proof.
  induction 1 as [s hs es|s s' hs hs' es es' thr c l g rc e e' Hrc Hcmd Hit Hrep Hs' Hthr He Hp Hl Hrest IH];
    intros st Hsim Hh; [exists st; constructor|].
  pose proof (sim_thread _ _ thr Hsim) as Hsim1.
  destruct (after_exists exec driver hs hs' s s' (with_rt_thread st thr) g e e' (es.*1.*1.*2 ++ [made exec driver e'])
              Hsim1 Hrep Hs' He Hh Hp Hl) as (st' & Ha & Hh').
  pose proof (performed_translated _ _ _ _ _ Hh Hp) as Ht.
  destruct (sim_after exec driver s s' _ st' g e e' _ Hsim1 Hs' He Ht Ha) as [Hsim' _].
  destruct (IH st' Hsim' Hh') as [st2 H2]. exists st2. by eapply recorded_cons.
Qed.

Lemma start_sim : sim gles_start replayer_start.
Proof. by split. Qed.

Lemma start_holds : holds no_handles replayer_start.
Proof. exists (replicate 16 []), 0%nat, 1%nat. by repeat (split; [done || apply no_maps_are|]). Qed.

(** ** The header *)
Lemma getInt_any r v rest : ahead r (le 4 v ++ rest) -> getInt r = Done (i32 v, advance r 4).
Proof.
  intros Ha. unfold getInt.
  rewrite (guarded_ahead r (le 4 v) rest 0 _ Ha). unfold mbind, get_bind.
  rewrite (load_ahead r (le 4 v) rest Ha : load 4 r = _). by rewrite of_le_4, i32_u32.
Qed.

Lemma init_read_header bs :
  exists r, iolib_init_read true true (header ++ bs) = Done (r, false) /\ wsize r = 8 /\ ahead r bs.
Proof.
  unfold iolib_init_read. cbn [negb andb].
  assert (Hlen : 0 < alen (header ++ bs)).
  { rewrite alen_app. change (alen header) with 20. pose proof (alen_nonneg bs). lia. }
  rewrite (proj2 (Z.ltb_lt _ _)) by done. cbn [negb].
  assert (Ha : ahead (mkReader (header ++ bs) 0 0) (header ++ bs)) by (split; cbn [rcur rfile]; [lia|done]).
  unfold header at 2 in Ha. rewrite <- !app_assoc in Ha.
  rewrite (getInt_any _ _ _ Ha). cbn [mbind outcome_bind]. apply ahead_advance in Ha.
  change (alen (le 4 OPC_VERSION)) with 4 in Ha. change (negb (u32 (i32 OPC_VERSION) =? OPC_VERSION)) with false. cbv iota.
  do 4 (rewrite (getInt_any _ _ _ Ha); cbn [mbind outcome_bind]; apply ahead_advance in Ha;
      match type of Ha with ahead (advance _ (alen (le 4 ?v))) _ => change (alen (le 4 v)) with 4 in Ha end).
  eexists. split; [reflexivity|]. by split.
Qed.

(** A whole file. *)
Lemma replay_log exec driver l es :
  traced exec driver gles_start no_handles [] l es -> alen l < 2 ^ 31 - 2 ->
  exists st r, replay exec true driver (header ++ log_bytes 0 l) = Done (EndOfTrace, st, es, r).
Proof.
  intros Ht Hl. destruct (traced_recorded _ _ _ _ _ _ _ Ht _ start_sim start_holds) as [st Hrec].
  destruct (init_read_header (log_bytes 0 l)) as (r & E & Hw & Ha).
  assert (Hfuel : (length l < S (length (header ++ log_bytes 0 l)))%nat).
  { pose proof (log_bytes_long 0 l). rewrite length_app. lia. }
  destruct (process_all exec driver l (S (length (header ++ log_bytes 0 l))) (-1) gles_start replayer_start [] st es r)
    as [r' Hr]; try done; [unfold alen in Hl; lia|].
  exists st, r'. unfold replay. rewrite E. exact Hr.
Qed.
