(* ===== verification/GlSession.v ===== *)
(** * A traced program and its replay

    The two promises of the tracer: whatever the threads do, the file is the
    header and whole calls in the order in which the mutex was taken; and a
    replayer that reads such a file prints, or makes, these calls. *)

From stdpp Require Import gmap.
From S2P Require Import Prelude MediaCache GlTrace GlTraceSpec GlTraceThreads GlMap GlCalls GlReplay GlReplaySpec GlHandles.

(** ** Recording ends: every step takes an action *)
Definition pending (s : system) : nat := map_fold (fun _ l n => (length l + n)%nat) 0%nat s.2.

Lemma pending_insert t th thr l :
  pending (t, <[thr := l]> th) = (length l + pending (t, delete thr th))%nat.
Proof.
  unfold pending. cbn [snd]. rewrite <- insert_delete_eq, map_fold_insert_L; [done|lia|apply lookup_delete_eq].
Qed.

Lemma step_pending sys s s' thr :
  sched_step sys thr s = Done s' -> (exists a l, s.2 !! thr = Some (a :: l) /\ enabled thr a s.1 = true) ->
  pending s = S (pending s').
Proof.
  destruct s as [t th]. intros E (a & l & El & Ha). unfold sched_step in E. cbn [fst snd] in *.
  rewrite El, Ha in E. destruct (act sys thr a t) as [t'| |]; [|done..]. injection E as <-.
  rewrite <- (insert_id th thr (a :: l)) at 1 by done. by rewrite !pending_insert.
Qed.

Section recording.
Context (sys : Z -> option Z) (Hsys : maps_chunks sys) (p : gmap Z (list call))
  (Hp : map_Forall (fun _ cs => Forall call_ok cs) p).

Lemma can_finish n : forall s l, (pending s <= n)%nat -> reached p s l ->
  exists sched s', sched_run sys sched s = Done s' /\ finished s'.
Proof.
  induction n as [|n IH]; intros s l Hn Hr; (destruct (reached_progress p Hp s l Hr) as [Hf|(thr & a & k & Ek & Ha)];
    [by exists [], s|]).
  - destruct (step_reached sys Hsys p Hp s l thr Hr) as (s' & l' & E & _).
    pose proof (step_pending sys s s' thr E) as H. rewrite H in Hn by eauto. lia.
  - destruct (step_reached sys Hsys p Hp s l thr Hr) as (s' & l' & E & Hr').
    pose proof (step_pending sys s s' thr E) as H. rewrite H in Hn by eauto.
    destruct (IH s' l' ltac:(lia) Hr') as (sched & s2 & E2 & Hf). exists (thr :: sched), s2.
    split; [|done]. cbn [sched_run]. by rewrite E.
Qed.
End recording.

(** Under every schedule. *)
Definition run (sys : Z -> option Z) (p : gmap Z (list call)) (sched : list Z) : outcome system :=
  s ← start sys p; sched_run sys sched s.

(** C12: threads that record at the same time, in any schedule, never end the
    program, store outside the mapping or wait for each other; when all calls
    are made the file is the header and the threads' calls, whole, each thread's
    in its order; and the threads can always come to an end. *)
Theorem recorded_file (sys : Z -> option Z) (p : gmap Z (list call))
    (Hsys : maps_chunks sys) (Hp : map_Forall (fun _ cs => Forall call_ok cs) p) (sched : list Z) :
  exists s, run sys p sched = Done s /\
    (finished s \/ can_step s) /\
    (exists more s', run sys p (sched ++ more) = Done s' /\ finished s') /\
    (finished s -> exists l, interleaving p l /\
       file_contents (iolib_fini_write s.1) = header ++ log_bytes 0 l).
Proof.
  destruct (start_reached sys Hsys p) as (s0 & E0 & H0).
  destruct (run_reached sys Hsys p Hp sched s0 [] H0) as (s & l & E & Hr).
  exists s. unfold run. rewrite E0. cbn [mbind outcome_bind].
  split; [done|]. split; [by apply (reached_progress p Hp s l)|]. split.
  - destruct (can_finish sys Hsys p Hp _ s l (le_n _) Hr) as (more & s' & E' & Hf).
    exists more, s'. split; [|done]. by rewrite sched_run_app, E.
  - destruct s as [t th]. intros Hf. destruct (reached_finished p t th l Hr Hf) as [Hb Hi].
    exists l. split; [done|]. by apply (fini_contents _ _ _ Hb).
Qed.

(** Two threads; the call of the first makes an intercepted call inside. *)
Definition two_threads : gmap Z (list call) :=
  {[1 := [mkCall OPC_glClear [AItem (IInt 16384); ACmd OPC_glFinish; ATime 5 6] 3 7];
    2 := [mkCall OPC_glClearDepthf [AItem (IFloat 1065353216)] 8 9; mkCall OPC_MARK [AItem (IString (Some [72; 105]))] 10 11]]}.

Definition some_page : Z -> option Z := fun _ => Some 4096.

Lemma some_page_maps : maps_chunks some_page.
Proof. intros off _. by exists 4096. Qed.

Lemma two_threads_ok : map_Forall (fun _ cs => Forall call_ok cs) two_threads.
Proof.
  unfold two_threads. apply map_Forall_insert_2; [|apply map_Forall_singleton];
    repeat constructor; by vm_compute.
Qed.

(** The second thread waits for the mutex and goes on. *)
Definition some_schedule : list Z := [1; 2; 1; 1; 2; 1; 1; 2; 2; 2; 2; 2; 2].

Lemma recorded_file_witness : exists s l,
  run some_page two_threads some_schedule = Done s /\ interleaving two_threads l /\
  file_contents (iolib_fini_write s.1) = header ++ log_bytes 0 l.
Proof.
  destruct (recorded_file some_page two_threads some_page_maps two_threads_ok some_schedule) as (s & E & _ & _ & H).
  assert (Hf : finished s).
  { vm_compute in E. injection E as <-. apply (bool_decide_unpack _). vm_compute. exact I. }
  destruct (H Hf) as (l & Hl & Hc). exists s, l. split; [exact E|]. split; [exact Hl|exact Hc].
Defined.

(** ** A session: the calls of a program in the order of the file *)
Definition to_option {A} (m : outcome A) : option A := match m with Done a => Some a | _ => None end.

Fixpoint session (exec : bool) (driver : gl_driver) (s : gles_state) (hs : handles) (es : list entry)
    (calls : list (Z * gl_call * Z * Z)) : option (log * list entry) :=
  match calls with
  | [] => Some ([], es)
  | (thr, g, bgn, fin) :: calls =>
      rc ← to_option (record s g);
      if replayable exec s g && ptrb thr then
        s' ← to_option (gles_after s g);
        e ← to_option (expected s g);
        e' ← performed exec hs e;
        hs' ← learnt exec driver hs (es.*1.*1.*2 ++ [made exec driver e']) e;
        '(l, es') ← session exec driver s' hs' (es ++ [(thr, made exec driver e', u64 bgn, u64 fin)]) calls;
        Some ((thr, mkCall (rc_cmd rc) (map AItem (rc_before rc ++ rc_after rc)) bgn fin) :: l, es')
      else None
  end.

Lemma top_items_plain l : top_items 0 (map AItem l) = l.
Proof. induction l as [|i l IH]; [done|]. cbn [map top_items Z.eqb]. by rewrite IH. Qed.

Lemma to_option_done {A} (m : outcome A) a : to_option m = Some a -> m = Done a.
Proof. destruct m; [|done..]. cbn. congruence. Qed.

Lemma session_traced exec driver calls : forall s hs es l es',
  session exec driver s hs es calls = Some (l, es') -> traced exec driver s hs es l es'.
Proof.
  induction calls as [|[[[thr g] bgn] fin] calls IH]; intros s hs es l es' E; cbn [session] in E.
  - injection E as <- <-. constructor.
  - destruct (to_option (record s g)) as [rc|] eqn:Erc; [|done]. cbn [mbind option_bind] in E.
    destruct (replayable exec s g && ptrb thr)%bool eqn:Er; [|done]. apply andb_true_iff in Er as [Er Ep].
    destruct (to_option (gles_after s g)) as [s'|] eqn:Es; [|done]. cbn [mbind option_bind] in E.
    destruct (to_option (expected s g)) as [e|] eqn:Ee; [|done]. cbn [mbind option_bind] in E.
    destruct (performed exec hs e) as [e'|] eqn:Ee'; [|done]. cbn [mbind option_bind] in E.
    destruct (learnt exec driver hs _ e) as [hs'|] eqn:Eh; [|done]. cbn [mbind option_bind] in E.
    destruct (session _ _ s' hs' _ calls) as [[l' es2]|] eqn:El; [|done]. cbn [mbind option_bind] in E.
    injection E as <- <-. apply to_option_done in Erc, Es, Ee.
    eapply (traced_cons _ _ s s' hs hs' es es2 thr _ l' g rc e e'); try done; [|by apply IH].
    unfold items. cbn [c_body]. apply top_items_plain.
Qed.


(** A frame: a surface and a context, a texture, a shader, eight bytes of vertices in client
    memory, four vertices for six indices, the exchange of the buffers, and a
    second thread. *)
Definition a_frame : list (Z * gl_call * Z * Z) := [
  (1, eglGetDisplay 0 7, 1, 2);
  (1, eglCreateWindowSurface 7 3 99 (Some [EGL_NONE]) 5000, 3, 4);
  (1, eglCreateContext 7 3 0 (Some [12440; 2; EGL_NONE]) 6000, 5, 6);
  (1, eglMakeCurrent 7 5000 5000 6000 1, 7, 8);
  (1, glGenTextures 1 [5], 23, 24);
  (1, glShaderSource 1 2 [Some [118; 111]; Some [105; 100]] (Some [-1; 2]), 9, 10);
  (1, glBindBuffer GL_ELEMENT_ARRAY_BUFFER 4, 11, 12);
  (1, glVertexAttribPointer 1 2 GL_UNSIGNED_BYTE 0 3 4096, 13, 14);
  (1, glEnableVertexAttribArray 1, 15, 16);
  (1, glDrawElements 4 6 GL_UNSIGNED_SHORT 0 None [[]; [1; 2; 0; 3; 4; 0; 5; 6; 0; 7; 8]], 17, 18);
  (1, eglSwapBuffers 7 5000 1, 19, 20);
  (2, glUniform1f 3 1065353216, 21, 22)].

(** Handles and names by the number of the call. *)
Definition numbering : gl_driver := mkDriver (fun es => 100 * alen es) (fun es => [alen es]) (fun _ => true) 4242.


(** ** Where a replay is not the recorded run *)

(** The events of a replay, and why it ended. *)
Definition outline (m : outcome (stop * replayer * list entry * Reader)) : outcome (stop * list event) :=
  '(why, _, es, _) ← m; Done (why, es.*1.*1.*2).

Definition file_of (calls : list recorded) : list Z :=
  header ++ log_bytes 0 (map (fun rc => (0, mkCall (rc_cmd rc) (map AItem (rc_before rc ++ rc_after rc)) 0 0)) calls).

(** Calls one after the other, in an unchanged state of the tracer. *)
Definition file_of_calls (s : gles_state) (calls : list gl_call) : outcome (list Z) :=
  l ← foldr (fun g k => rc ← record s g; l ← k; Done (rc :: l)) (Done []) calls;
  Done (file_of l).

Definition outline_of (exec ltr : bool) (calls : list gl_call) : outcome (stop * list event) :=
  f ← file_of_calls gles_start calls; outline (replay exec ltr numbering f).

(** The replayer has no case for some functions that are recorded. *)
Example not_replayed :
  outline_of false true [glUniform2i 1 2 3; glFinish] = Done (NotImplemented OPC_glUniform2i, []).
Proof. by vm_compute. Qed.

(** A compiler that evaluates arguments from right to left. *)
Example attrib_misread :
  outline_of false false [eglGetConfigAttrib 7 3 12324 8 1] =
  Done (EndOfTrace, [Ev (eglGetConfigAttrib (12324 + 8 * 2 ^ 32) 3 0 7 1)]).
Proof. by vm_compute. Qed.

(** When the calls are only printed, shaders are left in the trace. *)
Example shaders_left :
  outline_of false true [glGetAttachedShaders 1 4 4096 2 8192 [5; 6]] <>
  Done (EndOfTrace, [Ev (glGetAttachedShaders 1 4 4096 2 8192 [5; 6])]) /\
  outline_of true true [glGetAttachedShaders 1 4 4096 2 8192 [5; 6]] =
  Done (EndOfTrace, [Ev (glGetAttachedShaders 1 4 4096 2 8192 [5; 6])]).
Proof. split; by vm_compute. Qed.

(** A context is made current before any surface was created: there is no table. *)
Example no_table : outline_of true true [eglMakeCurrent 7 0 0 0 1] = Undefined.
Proof. by vm_compute. Qed.

(** A query without a place for the result is printed, but compared through the
    NULL pointer when it is made again. *)
Example null_params :
  outline_of false true [glGetIntegerv 3379 None] = Done (EndOfTrace, [Ev (glGetIntegerv 3379 None)]) /\
  outline_of true true [glGetIntegerv 3379 None] = Undefined.
Proof. split; by vm_compute. Qed.

(** A NULL string comes back empty. *)
Example null_string :
  outline_of false true [eglQueryString 7 1 None; glFinish] =
  Done (EndOfTrace, [Ev (eglQueryString 7 1 (Some [])); Ev glFinish]).
Proof. by vm_compute. Qed.

(** A [float] that looks like the escape word is read, but its second word is
    taken for the next command. *)
Example escaped_float :
  match outline_of false true [glGetFloatv 2886 (Some MARKERF); glFinish] with
  | Done (_, [Ev (glGetFloatv 2886 (Some v))]) => v = MARKERF
  | _ => False
  end.
Proof. by vm_compute. Qed.

(** The driver has to give the same names as in the recorded run. *)
Example other_names : outline_of true true [glGenTextures 1 [7]] = Exited.
Proof. by vm_compute. Qed.

(** [glGetActiveUniform] without a buffer for the name: recorded and printed, but
    compared through NULL when it is made again. *)
Example no_name :
  let g := glGetActiveUniform 1 0 8 0 0 0 0 0 0 0 None in
  outline_of false true [g] = Done (EndOfTrace, [Ev g]) /\ outline_of true true [g] = Undefined.
Proof. split; by vm_compute. Qed.
