(* ===== verification/PrismRenderer.v ===== *)
(** * Scan conversion of paths

    native-prism/Renderer.c: the edges of a flattened path are kept in an array of
    floats, linked into one list per sample row; [Renderer_produceAlphas] walks the
    sample rows, keeps the crossings of the active edges sorted, accumulates the
    covered samples of a pixel row as differences, and turns counts into alpha.

    The two subpixel resolutions and the alpha maps are static variables of the
    file ([statics]).  [None] is an access outside an array, or a loop that does not
    end.  Allocation succeeds; a null array is the empty list, and the [SIZE] fields
    are the lengths. *)

From Stdlib Require Import SpecFloat.
From S2P Require Import Prelude.
From S2P Require Import Float32.

(** ** Arithmetic *)

Definition f_half : jfloat := fdiv (of_int 1) (of_int 2).
Definition f_zero : jfloat := of_int 0.
Definition f_one : jfloat := of_int 1.
Definition DEC_BND : jfloat := of_int 1.
Definition INC_BND : jfloat := fdiv (of_int 4) (of_int 10).
Definition BIGGEST_FLOAT : jfloat := S754_finite false 16777215 104.

Definition fabs (x : jfloat) : jfloat := SFabs x.
Definition fle (x y : jfloat) : bool := SFleb x y.

(** The macros [Math_max] and [Math_min] of Helpers.h. *)
Definition fmax (a b : jfloat) : jfloat := if flt b a then a else b.
Definition Math_max (a b : Z) : Z := if a >? b then a else b.
Definition Math_min (a b : Z) : Z := if a <? b then a else b.

(** [(jint) ceil (x)]: out of range as for any conversion to [jint]. *)
Definition ceil_int (x : jfloat) : option Z :=
  match x with
  | S754_zero _ => Some 0
  | S754_infinity _ | S754_nan => None
  | S754_finite s m e =>
      Some (if 0 <=? e then (if s then - Z.pos m * 2 ^ e else Z.pos m * 2 ^ e)
            else (if s then - (Z.pos m / 2 ^ (- e)) else - (- Z.pos m / 2 ^ (- e))))
  end.

Definition jint_ceil (x : jfloat) : Z :=
  match ceil_int x with
  | Some z => if (- 2 ^ 31 <=? z) && (z <? 2 ^ 31) then z else - 2 ^ 31
  | None => - 2 ^ 31
  end.

Definition i8 (x : Z) : Z := (x + 2 ^ 7) mod 2 ^ 8 - 2 ^ 7.

(** ** Data *)

Definition YMAX : Z := 0.
Definition CURX : Z := 1.
Definition OR : Z := 2.
Definition SLOPE : Z := 3.
Definition NEXT : Z := 4.
Definition SIZEOF_EDGE : Z := 5.

Definition WIND_EVEN_ODD : Z := 0.
Definition WIND_NON_ZERO : Z := 1.
Definition INIT_CROSSINGS_SIZE : Z := 10.

(** Curve.h: the coefficients of a cubic and of its derivative. *)
Record Curve := mkCurve {
  c_ax : jfloat; c_ay : jfloat; c_bx : jfloat; c_by : jfloat; c_cx : jfloat; c_cy : jfloat;
  c_dx : jfloat; c_dy : jfloat; c_dax : jfloat; c_day : jfloat; c_dbx : jfloat; c_dby : jfloat }.

Record ScanlineIterator := mkIterator {
  crossings : list Z; edgePtrs : list Z; edgeCount : Z; nextY : Z }.

Record Renderer := mkRenderer {
  sampleRowMin : Z; sampleRowMax : Z; edgeMinX : jfloat; edgeMaxX : jfloat;
  edges : list jfloat; edgeBuckets : list Z; numEdges : Z;
  boundsMinX : Z; boundsMinY : Z; boundsMaxX : Z; boundsMaxY : Z;
  windingRule : Z; x0 : jfloat; y0 : jfloat; pix_sx0 : jfloat; pix_sy0 : jfloat; curve : Curve }.

(** AlphaConsumer.h; [alphas] is the Java mask array. *)
Record AlphaConsumer := mkConsumer { originX : Z; originY : Z; width : Z; height : Z; alphas : list Z }.

Record statics := mkStatics {
  SUBPIXEL_LG_POSITIONS_X : Z; SUBPIXEL_LG_POSITIONS_Y : Z;
  alphaMap : option (list Z); alphaMax : Z; altAlphaMap : option (list Z); altAlphaMax : Z }.

Definition SUBPIXEL_POSITIONS_X (g : statics) : Z := 1 << SUBPIXEL_LG_POSITIONS_X g.
Definition SUBPIXEL_POSITIONS_Y (g : statics) : Z := 1 << SUBPIXEL_LG_POSITIONS_Y g.
Definition SUBPIXEL_MASK_X (g : statics) : Z := SUBPIXEL_POSITIONS_X g - 1.
Definition SUBPIXEL_MASK_Y (g : statics) : Z := SUBPIXEL_POSITIONS_Y g - 1.

Definition new_int (n : Z) : list Z := replicate (Z.to_nat n) 0.
Definition new_float (n : Z) : list jfloat := replicate (Z.to_nat n) f_zero.

(** ** Adding lines *)

Section assignments.
Implicit Types r : Renderer.

Definition set_rows (lo hi : Z) r : Renderer :=
  mkRenderer lo hi (edgeMinX r) (edgeMaxX r) (edges r) (edgeBuckets r) (numEdges r) (boundsMinX r) (boundsMinY r)
    (boundsMaxX r) (boundsMaxY r) (windingRule r) (x0 r) (y0 r) (pix_sx0 r) (pix_sy0 r) (curve r).
Definition set_columns (lo hi : jfloat) r : Renderer :=
  mkRenderer (sampleRowMin r) (sampleRowMax r) lo hi (edges r) (edgeBuckets r) (numEdges r) (boundsMinX r) (boundsMinY r)
    (boundsMaxX r) (boundsMaxY r) (windingRule r) (x0 r) (y0 r) (pix_sx0 r) (pix_sy0 r) (curve r).
Definition set_edges (e : list jfloat) (b : list Z) (n : Z) r : Renderer :=
  mkRenderer (sampleRowMin r) (sampleRowMax r) (edgeMinX r) (edgeMaxX r) e b n (boundsMinX r) (boundsMinY r)
    (boundsMaxX r) (boundsMaxY r) (windingRule r) (x0 r) (y0 r) (pix_sx0 r) (pix_sy0 r) (curve r).
Definition set_point (x y : jfloat) r : Renderer :=
  mkRenderer (sampleRowMin r) (sampleRowMax r) (edgeMinX r) (edgeMaxX r) (edges r) (edgeBuckets r) (numEdges r) (boundsMinX r)
    (boundsMinY r) (boundsMaxX r) (boundsMaxY r) (windingRule r) x y (pix_sx0 r) (pix_sy0 r) (curve r).
Definition set_start (x y : jfloat) r : Renderer :=
  mkRenderer (sampleRowMin r) (sampleRowMax r) (edgeMinX r) (edgeMaxX r) (edges r) (edgeBuckets r) (numEdges r) (boundsMinX r)
    (boundsMinY r) (boundsMaxX r) (boundsMaxY r) (windingRule r) (x0 r) (y0 r) x y (curve r).
Definition set_curve (c : Curve) r : Renderer :=
  mkRenderer (sampleRowMin r) (sampleRowMax r) (edgeMinX r) (edgeMaxX r) (edges r) (edgeBuckets r) (numEdges r) (boundsMinX r)
    (boundsMinY r) (boundsMaxX r) (boundsMaxY r) (windingRule r) (x0 r) (y0 r) (pix_sx0 r) (pix_sy0 r) c.
End assignments.

(** The list of the bucket gets [eptr] in front, the count of its edges goes up. *)
Definition addEdgeToBucket (eptr bucket : Z) (edges : list jfloat) (buckets : list Z) : option (list jfloat * list Z) :=
  first ← aget buckets (bucket * 2);
  edges ← aset edges (eptr + NEXT) (of_int first);
  buckets ← aset buckets (bucket * 2) (i32 (eptr + 1));
  buckets ← aupd buckets (bucket * 2 + 1) (fun n => Some (i32 (n + 2)));
  Some (edges, buckets).

(** Room for one more edge. *)
Definition grow_edges (ptr : Z) (edges : list jfloat) : option (list jfloat) :=
  if alen edges <? ptr + SIZEOF_EDGE then
    let newSize := i32 ((ptr + SIZEOF_EDGE) * 2) in
    for_lt ptr (fun i e => v ← aget edges i; aset e i v) (new_float newSize)
  else Some edges.

(** The columns an edge from (xa, .) down to (xb, .) touches. *)
Definition widen (slope xa xb : jfloat) (r : Renderer) : Renderer :=
  if flt f_zero slope then
    set_columns (if flt xa (edgeMinX r) then xa else edgeMinX r) (if flt (edgeMaxX r) xb then xb else edgeMaxX r) r
  else
    set_columns (if flt xb (edgeMinX r) then xb else edgeMinX r) (if flt (edgeMaxX r) xa then xa else edgeMaxX r) r.

Definition add_edge (ptr : Z) (or curx slope ymax : jfloat) (edges : list jfloat) : option (list jfloat) :=
  edges ← aset edges (ptr + OR) or;
  edges ← aset edges (ptr + CURX) curx;
  edges ← aset edges (ptr + SLOPE) slope;
  aset edges (ptr + YMAX) ymax.

(** An upward line is turned round, with orientation 0. *)
Definition addLine (xa ya xb yb : jfloat) (r : Renderer) : option Renderer :=
  let '(or, x1, y1, x2, y2) := if flt yb ya then (f_zero, xb, yb, xa, ya) else (f_one, xa, ya, xb, yb) in
  let firstCrossing := Math_max (jint_ceil (fsub y1 f_half)) (boundsMinY r) in
  let lastCrossing := Math_min (jint_ceil (fsub y2 f_half)) (boundsMaxY r) in
  if firstCrossing >=? lastCrossing then Some r
  else
    let r := set_rows (if firstCrossing <? sampleRowMin r then firstCrossing else sampleRowMin r)
               (if lastCrossing >? sampleRowMax r then lastCrossing else sampleRowMax r) r in
    let slope := fdiv (fsub x2 x1) (fsub y2 y1) in
    let r := widen slope x1 x2 r in
    let ptr := i32 (numEdges r * SIZEOF_EDGE) in
    e ← grow_edges ptr (edges r);
    let curx := fadd x1 (fmul (fsub (fadd (of_int firstCrossing) f_half) y1) slope) in
    e ← add_edge ptr or curx slope (of_int lastCrossing) e;
    '(e, b) ← addEdgeToBucket ptr (firstCrossing - boundsMinY r) e (edgeBuckets r);
    b ← aupd b ((lastCrossing - boundsMinY r) * 2 + 1) (fun n => Some (n .| 1));
    Some (set_edges e b (i32 (numEdges r + 1)) r).

(** ** Flattening of curves *)

Definition two : jfloat := of_int 2.
Definition three : jfloat := of_int 3.

Definition Curve_setcubic (x1 y1 x2 y2 x3 y3 x4 y4 : jfloat) : Curve :=
  let a p1 p2 p3 p4 := fsub (fadd (fmul three (fsub p2 p3)) p4) p1 in
  let b p1 p2 p3 := fmul three (fadd (fsub p1 (fmul two p2)) p3) in
  let c p1 p2 := fmul three (fsub p2 p1) in
  mkCurve (a x1 x2 x3 x4) (a y1 y2 y3 y4) (b x1 x2 x3) (b y1 y2 y3) (c x1 x2) (c y1 y2) x1 y1
    (fmul three (a x1 x2 x3 x4)) (fmul three (a y1 y2 y3 y4)) (fmul two (b x1 x2 x3)) (fmul two (b y1 y2 y3)).

Definition Curve_setquad (x1 y1 x2 y2 x3 y3 : jfloat) : Curve :=
  let b p1 p2 p3 := fadd (fsub p1 (fmul two p2)) p3 in
  let c p1 p2 := fmul two (fsub p2 p1) in
  mkCurve f_zero f_zero (b x1 x2 x3) (b y1 y2 y3) (c x1 x2) (c y1 y2) x1 y1 f_zero f_zero
    (fmul two (b x1 x2 x3)) (fmul two (b y1 y2 y3)).

(** The number of lines of a quadratic curve: doubled while the second difference is
    too large.  A finite difference is small enough after 70 rounds. *)
Definition quad_count (c : Curve) : option Z :=
  let countsq := of_int (16 * 16) in
  '(_, count) ← while_fuel 70 (fun '(maxDD, _) => flt (of_int 32) maxDD)
    (fun '(maxDD, count) => Some (fdiv maxDD (of_int 4), i32 (count << 1)))
    (fmax (fdiv (c_dbx c) countsq) (fdiv (c_dby c) countsq), 16);
  Some count.

(** The forward differences of a cubic curve and the steps left. *)
Record afd := mkAfd {
  a_dddx : jfloat; a_dddy : jfloat; a_ddx : jfloat; a_ddy : jfloat; a_dx : jfloat; a_dy : jfloat; a_count : Z }.

Definition afd_start (c : Curve) : afd :=
  let p9 := of_int 512 in let p6 := of_int 64 in let p3 := of_int 8 in
  let dddx := fdiv (fmul two (c_dax c)) p9 in
  let dddy := fdiv (fmul two (c_day c)) p9 in
  mkAfd dddx dddy (fadd dddx (fdiv (c_dbx c) p6)) (fadd dddy (fdiv (c_dby c) p6))
    (fadd (fadd (fdiv (c_ax c) p9) (fdiv (c_bx c) p6)) (fdiv (c_cx c) p3))
    (fadd (fadd (fdiv (c_ay c) p9) (fdiv (c_by c) p6)) (fdiv (c_cy c) p3)) 8.

Definition afd_too_long (a : afd) : bool := flt DEC_BND (fabs (a_ddx a)) || flt DEC_BND (fabs (a_ddy a)).

Definition afd_halve (a : afd) : afd :=
  let f8 := of_int 8 in let f4 := of_int 4 in
  let dddx := fdiv (a_dddx a) f8 in
  let dddy := fdiv (a_dddy a) f8 in
  let ddx := fsub (fdiv (a_ddx a) f4) dddx in
  let ddy := fsub (fdiv (a_ddy a) f4) dddy in
  mkAfd dddx dddy ddx ddy (fdiv (fsub (a_dx a) ddx) two) (fdiv (fsub (a_dy a) ddy) two) (i32 (a_count a << 1)).

Definition afd_too_short (a : afd) : bool :=
  (Z.rem (a_count a) 2 =? 0) && fle (fabs (a_dx a)) INC_BND && fle (fabs (a_dy a)) INC_BND.

Definition afd_double (a : afd) : afd :=
  let f8 := of_int 8 in let f4 := of_int 4 in
  mkAfd (fmul f8 (a_dddx a)) (fmul f8 (a_dddy a))
    (fmul f4 (fadd (a_ddx a) (a_dddx a))) (fmul f4 (fadd (a_ddy a) (a_dddy a)))
    (fadd (fmul two (a_dx a)) (a_ddx a)) (fadd (fmul two (a_dy a)) (a_ddy a)) (a_count a >> 1).

Definition afd_advance (a : afd) : afd :=
  mkAfd (a_dddx a) (a_dddy a) (fadd (a_ddx a) (a_dddx a)) (fadd (a_ddy a) (a_dddy a))
    (fadd (a_dx a) (a_ddx a)) (fadd (a_dy a) (a_ddy a)) (a_count a).

(** [add] is [addLine], which both loops call; [quad_step] is one round. *)
Section flattening.
Context {R : Type} (add : jfloat -> jfloat -> jfloat -> jfloat -> R -> option R).

Definition quad_step (ddx ddy : jfloat) (s : jfloat * jfloat * jfloat * jfloat * R)
  : option (jfloat * jfloat * jfloat * jfloat * R) :=
  let '(xa, ya, dx, dy, r) := s in
  let x1 := fadd xa dx in
  let y1 := fadd ya dy in
  r ← add xa ya x1 y1 r;
  Some (x1, y1, fadd dx ddx, fadd dy ddy, r).

Definition quadBreakIntoLinesAndAdd (xa ya : jfloat) (c : Curve) (x2 y2 : jfloat) (r : R) : option R :=
  count ← quad_count c;
  let countsq := of_int (i32 (count * count)) in
  let ddx := fdiv (c_dbx c) countsq in
  let ddy := fdiv (c_dby c) countsq in
  let dx := fadd (fdiv (c_bx c) countsq) (fdiv (c_cx c) (of_int count)) in
  let dy := fadd (fdiv (c_by c) countsq) (fdiv (c_cy c) (of_int count)) in
  '(xa, ya, _, _, r) ← for_lt (count - 1) (fun _ => quad_step ddx ddy) (xa, ya, dx, dy, r);
  add xa ya x2 y2 r.

(** One round: the step is halved or doubled as needed, and a line added.  [fuel]
    bounds each of the loops. *)
Definition cubic_step (fuel : nat) (x3 y3 : jfloat) (s : afd * jfloat * jfloat * jfloat * jfloat * R)
  : option (afd * jfloat * jfloat * jfloat * jfloat * R) :=
  let '(a, xa, ya, x1, y1, r) := s in
  a ← while_fuel fuel afd_too_long (fun a => Some (afd_halve a)) a;
  a ← while_fuel fuel afd_too_short (fun a => Some (afd_double a)) a;
  let a := mkAfd (a_dddx a) (a_dddy a) (a_ddx a) (a_ddy a) (a_dx a) (a_dy a) (a_count a - 1) in
  let '(x1, y1, a) := if 0 <? a_count a then (fadd x1 (a_dx a), fadd y1 (a_dy a), afd_advance a) else (x3, y3, a) in
  r ← add xa ya x1 y1 r;
  Some (a, x1, y1, x1, y1, r).

Definition curveBreakIntoLinesAndAdd (fuel : nat) (xa ya : jfloat) (c : Curve) (x3 y3 : jfloat) (r : R) : option R :=
  '(_, _, _, _, _, r) ← while_fuel fuel (fun '(a, _, _, _, _, _) => 0 <? a_count a) (cubic_step fuel x3 y3)
    (afd_start c, xa, ya, xa, ya, r);
  Some r.
End flattening.

(** ** The path consumer *)

Section consumer.
Context (g : statics) (fuel : nat).

Definition tosubpixx (pix_x : jfloat) : jfloat := fmul pix_x (of_int (SUBPIXEL_POSITIONS_X g)).
Definition tosubpixy (pix_y : jfloat) : jfloat := fmul pix_y (of_int (SUBPIXEL_POSITIONS_Y g)).

Definition Renderer_lineTo (pix_x1 pix_y1 : jfloat) (r : Renderer) : option Renderer :=
  let x1 := tosubpixx pix_x1 in
  let y1 := tosubpixy pix_y1 in
  r ← addLine (x0 r) (y0 r) x1 y1 r;
  Some (set_point x1 y1 r).

Definition Renderer_closePath (r : Renderer) : option Renderer := Renderer_lineTo (pix_sx0 r) (pix_sy0 r) r.

Definition Renderer_moveTo (pix_x0 pix_y0 : jfloat) (r : Renderer) : option Renderer :=
  r ← Renderer_closePath r;
  Some (set_point (tosubpixx pix_x0) (tosubpixy pix_y0) (set_start pix_x0 pix_y0 r)).

Definition Renderer_quadTo (x1 y1 x2 y2 : jfloat) (r : Renderer) : option Renderer :=
  let xe := tosubpixx x2 in
  let ye := tosubpixy y2 in
  let r := set_curve (Curve_setquad (x0 r) (y0 r) (tosubpixx x1) (tosubpixy y1) xe ye) r in
  r ← quadBreakIntoLinesAndAdd addLine (x0 r) (y0 r) (curve r) xe ye r;
  Some (set_point xe ye r).

Definition Renderer_curveTo (x1 y1 x2 y2 x3 y3 : jfloat) (r : Renderer) : option Renderer :=
  let xe := tosubpixx x3 in
  let ye := tosubpixy y3 in
  let r := set_curve (Curve_setcubic (x0 r) (y0 r) (tosubpixx x1) (tosubpixy y1) (tosubpixx x2) (tosubpixy y2) xe ye) r in
  r ← curveBreakIntoLinesAndAdd addLine fuel (x0 r) (y0 r) (curve r) xe ye r;
  Some (set_point xe ye r).

Definition Renderer_pathDone (r : Renderer) : option Renderer := Renderer_closePath r.

(** A new renderer: [Renderer_init] zeroes it, [Renderer_reset] sets the bounds.  The
    buckets of a renderer that is used again are cleared up to the last pair. *)
Definition no_curve : Curve :=
  mkCurve f_zero f_zero f_zero f_zero f_zero f_zero f_zero f_zero f_zero f_zero f_zero f_zero.

Definition Renderer_init : Renderer :=
  mkRenderer 0 0 f_zero f_zero [] [] 0 0 0 0 0 0 f_zero f_zero f_zero f_zero no_curve.

Definition Renderer_reset (pix_boundsX pix_boundsY pix_boundsWidth pix_boundsHeight winding : Z) (r : Renderer)
  : option Renderer :=
  let minX := i32 (pix_boundsX * SUBPIXEL_POSITIONS_X g) in
  let minY := i32 (pix_boundsY * SUBPIXEL_POSITIONS_Y g) in
  let maxX := i32 ((pix_boundsX + pix_boundsWidth) * SUBPIXEL_POSITIONS_X g) in
  let maxY := i32 ((pix_boundsY + pix_boundsHeight) * SUBPIXEL_POSITIONS_Y g) in
  let numBuckets := i32 (maxY - minY) in
  buckets ← (if alen (edgeBuckets r) <? i32 (numBuckets * 2 + 2) then Some (new_int (i32 (numBuckets * 2 + 2)))
             else for_lt (numBuckets * 2) (fun i b => aset b i 0) (edgeBuckets r));
  let e := if alen (edges r) =? 0 then new_float (SIZEOF_EDGE * 32) else edges r in
  Some (mkRenderer maxY minY BIGGEST_FLOAT (fopp BIGGEST_FLOAT) e buckets 0 minX minY maxX maxY winding
    f_zero f_zero f_zero f_zero (curve r)).
End consumer.

(** ** The scanline iterator *)

Definition ScanlineIterator_init (r : Renderer) : ScanlineIterator :=
  mkIterator (new_int INIT_CROSSINGS_SIZE) (new_int INIT_CROSSINGS_SIZE) 0 (sampleRowMin r).

Definition ScanlineIterator_hasNext (it : ScanlineIterator) (r : Renderer) : bool := nextY it <? sampleRowMax r.
Definition ScanlineIterator_curY (it : ScanlineIterator) : Z := nextY it - 1.

(** Edges that have ended are dropped, the others moved up. *)
Definition drop_ended (cury : Z) (edges : list jfloat) (count : Z) (ptrs : list Z) : option (list Z * Z) :=
  for_lt count (fun i '(ptrs, newCount) =>
    ecur ← aget ptrs i;
    ymax ← aget edges (ecur + YMAX);
    if flt (of_int cury) ymax then ptrs ← aset ptrs newCount ecur; Some (ptrs, newCount + 1)
    else Some (ptrs, newCount)) (ptrs, 0).

Definition grow_ptrs (needed count : Z) (ptrs : list Z) : option (list Z) :=
  if alen ptrs <? needed then for_lt count (fun i p => v ← aget ptrs i; aset p i v) (new_int (i32 (needed * 2)))
  else Some ptrs.

(** The edges of a bucket, added behind the others. *)
Definition add_bucket (fuel : nat) (edges : list jfloat) (first count : Z) (ptrs : list Z) : option (list Z * Z) :=
  '(_, ptrs, count) ← while_fuel fuel (fun '(ecur, _, _) => ctrue ecur)
    (fun '(ecur, ptrs, count) =>
      ptrs ← aset ptrs count (ecur - 1);
      next ← aget edges (ecur - 1 + NEXT);
      Some (to_jint next, ptrs, count + 1)) (first, ptrs, count);
  Some (ptrs, count).

(** Make room for [cross] among the first [j] crossings: the larger ones move up. *)
Fixpoint shift_up (j : nat) (cross : Z) (xings ptrs : list Z) : option (Z * list Z * list Z) :=
  match j with
  | O => Some (-1, xings, ptrs)
  | S j =>
      jcross ← aget xings (Z.of_nat j);
      if jcross <=? cross then Some (Z.of_nat j, xings, ptrs)
      else
        p ← aget ptrs (Z.of_nat j);
        xings ← aset xings (Z.of_nat j + 1) jcross;
        ptrs ← aset ptrs (Z.of_nat j + 1) p;
        shift_up j cross xings ptrs
  end.

(** The crossing of one edge: where it is, doubled, with the orientation as last bit;
    the edge moves on to the next row. *)
Definition cross_edge (edges : list jfloat) (ecur : Z) : option (Z * list jfloat) :=
  curx ← aget edges (ecur + CURX);
  slope ← aget edges (ecur + SLOPE);
  or ← aget edges (ecur + OR);
  let cross := i32 (jint_ceil (fsub curx f_half) << 1) in
  edges ← aset edges (ecur + CURX) (fadd curx slope);
  Some (if flt f_zero or then cross .| 1 else cross, edges).

Definition sort_crossing (i : Z) (s : list Z * list Z * list jfloat) : option (list Z * list Z * list jfloat) :=
  let '(xings, ptrs, edges) := s in
  ecur ← aget ptrs i;
  '(cross, edges) ← cross_edge edges ecur;
  '(j, xings, ptrs) ← shift_up (Z.to_nat i) cross xings ptrs;
  xings ← aset xings (j + 1) cross;
  ptrs ← aset ptrs (j + 1) ecur;
  Some (xings, ptrs, edges).

Definition ScanlineIterator_next (it : ScanlineIterator) (r : Renderer) : option (Z * ScanlineIterator * Renderer) :=
  let cury := nextY it in
  let bucket := cury - boundsMinY r in
  bucketcount ← aget (edgeBuckets r) (bucket * 2 + 1);
  '(ptrs, count) ← (if ctrue (bucketcount & 1) then drop_ended cury (edges r) (edgeCount it) (edgePtrs it)
                    else Some (edgePtrs it, edgeCount it));
  ptrs ← grow_ptrs (count + (bucketcount >> 1)) count ptrs;
  first ← aget (edgeBuckets r) (bucket * 2);
  '(ptrs, count) ← add_bucket (Z.to_nat (numEdges r)) (edges r) first count ptrs;
  let xings := if alen (crossings it) <? count then new_int (alen ptrs) else crossings it in
  '(xings, ptrs, e) ← for_lt count sort_crossing (xings, ptrs, edges r);
  Some (count, mkIterator xings ptrs count (cury + 1), set_edges e (edgeBuckets r) (numEdges r) r).

(** ** Coverage *)

Definition increase (d : Z) (v : Z) : option Z := Some (i32 (v + d)).

(** The samples from [xa] to [xb] of a row are covered; indices count from the left
    of the mask. *)
Definition add_span (g : statics) (xa xb : Z) (alpha : list Z) : option (list Z) :=
  let pix_x := xa >> SUBPIXEL_LG_POSITIONS_X g in
  let pix_xmaxm1 := (xb - 1) >> SUBPIXEL_LG_POSITIONS_X g in
  if pix_x =? pix_xmaxm1 then
    alpha ← aupd alpha pix_x (increase (xb - xa));
    aupd alpha (pix_x + 1) (increase (- (xb - xa)))
  else
    let pix_xmax := xb >> SUBPIXEL_LG_POSITIONS_X g in
    alpha ← aupd alpha pix_x (increase (SUBPIXEL_POSITIONS_X g - (xa & SUBPIXEL_MASK_X g)));
    alpha ← aupd alpha (pix_x + 1) (increase (xa & SUBPIXEL_MASK_X g));
    alpha ← aupd alpha pix_xmax (increase (- (SUBPIXEL_POSITIONS_X g - (xb & SUBPIXEL_MASK_X g))));
    aupd alpha (pix_xmax + 1) (increase (- (xb & SUBPIXEL_MASK_X g))).

(** One crossing of a sample row. *)
Definition accumulate (g : statics) (mask bboxx0 bboxx1 : Z) (crossings : list Z) (i : Z) (s : Z * Z * list Z)
  : option (Z * Z * list Z) :=
  let '(sum, prev, alpha) := s in
  curxo ← aget crossings i;
  let curx := curxo >> 1 in
  let crorientation := ((curxo & 1) << 1) - 1 in
  alpha ← (if ctrue (sum & mask) then
             let xa := Math_max prev bboxx0 in
             let xb := Math_min curx bboxx1 in
             if xa <? xb then add_span g (xa - bboxx0) (xb - bboxx0) alpha else Some alpha
           else Some alpha);
  Some (i32 (sum + crorientation), curx, alpha).

(** The columns passed as [pix_from] and [pix_to] are not used. *)
Definition setAndClearRelativeAlphas (g : statics) (pix_y : Z) (ac : AlphaConsumer) (alphaRow : list Z)
  : option (list Z * list Z) :=
  let w := width ac in
  let off := (pix_y - originY ac) * w in
  map ← alphaMap g;
  '(_, alphaRow, out) ← for_lt w (fun i '(a, alphaRow, out) =>
      d ← aget alphaRow i;
      let a := i32 (a + d) in
      alphaRow ← aset alphaRow i 0;
      v ← aget map a;
      out ← aset out (off + i) v;
      Some (a, alphaRow, out)) (0, alphaRow, alphas ac);
  Some (alphaRow, out).

Definition with_alphas (out : list Z) (ac : AlphaConsumer) : AlphaConsumer :=
  mkConsumer (originX ac) (originY ac) (width ac) (height ac) out.

(** One sample row of [Renderer_produceAlphas]. *)
Definition sample_row (g : statics) (s : ScanlineIterator * Renderer * list Z * AlphaConsumer)
  : option (ScanlineIterator * Renderer * list Z * AlphaConsumer) :=
  let '(it, r, alpha, ac) := s in
  let mask := if windingRule r =? WIND_EVEN_ODD then 1 else -1 in
  let bboxx0 := i32 (originX ac << SUBPIXEL_LG_POSITIONS_X g) in
  let bboxx1 := i32 (bboxx0 + (width ac << SUBPIXEL_LG_POSITIONS_X g)) in
  '(numCrossings, it, r) ← ScanlineIterator_next it r;
  let y := ScanlineIterator_curY it in
  '(_, _, alpha) ← for_lt numCrossings (accumulate g mask bboxx0 bboxx1 (crossings it)) (0, bboxx0, alpha);
  if (y & SUBPIXEL_MASK_Y g) =? SUBPIXEL_MASK_Y g then
    '(alpha, out) ← setAndClearRelativeAlphas g (y >> SUBPIXEL_LG_POSITIONS_Y g) ac alpha;
    Some (it, r, alpha, with_alphas out ac)
  else Some (it, r, alpha, ac).

(** The row of differences: the [width + 2] elements that are initialised. *)
Definition Renderer_produceAlphas (g : statics) (r : Renderer) (ac : AlphaConsumer) : option (Renderer * AlphaConsumer) :=
  let alpha := new_int (width ac + 2) in
  let it := ScanlineIterator_init r in
  '(it, r, alpha, ac) ← while_fuel (Z.to_nat (sampleRowMax r - sampleRowMin r))
    (fun '(it, r, _, _) => ScanlineIterator_hasNext it r) (sample_row g) (it, r, alpha, ac);
  let y := if nextY it =? sampleRowMin r then boundsMinY r else ScanlineIterator_curY it in
  if (y & SUBPIXEL_MASK_Y g) <? SUBPIXEL_MASK_Y g then
    '(_, out) ← setAndClearRelativeAlphas g (y >> SUBPIXEL_LG_POSITIONS_Y g) ac alpha;
    Some (r, with_alphas out ac)
  else Some (r, ac).

(** ** Alpha maps *)

Definition alpha_map (maxalpha : Z) : list Z :=
  (fun i => i8 (Z.quot (Z.of_nat i * 255 + Z.quot maxalpha 2) maxalpha)) <$> seq 0 (Z.to_nat (maxalpha + 1)).

(** The current map and the one used before are kept. *)
Definition setMaxAlpha (maxalpha : Z) (g : statics) : statics :=
  let fresh alt altMax :=
    mkStatics (SUBPIXEL_LG_POSITIONS_X g) (SUBPIXEL_LG_POSITIONS_Y g) (Some (alpha_map maxalpha)) maxalpha alt altMax in
  match alphaMap g with
  | Some map =>
      if maxalpha =? alphaMax g then g
      else
        match altAlphaMap g with
        | Some alt =>
            if maxalpha =? altAlphaMax g then
              mkStatics (SUBPIXEL_LG_POSITIONS_X g) (SUBPIXEL_LG_POSITIONS_Y g) (Some alt) (altAlphaMax g) (Some map) (alphaMax g)
            else fresh (Some map) (alphaMax g)
        | None => fresh (Some map) (alphaMax g)
        end
  | None => fresh (altAlphaMap g) (altAlphaMax g)
  end.

Definition Renderer_setup (lgX lgY : Z) (g : statics) : statics :=
  let g := mkStatics lgX lgY (alphaMap g) (alphaMax g) (altAlphaMap g) (altAlphaMax g) in
  setMaxAlpha (SUBPIXEL_POSITIONS_X g * SUBPIXEL_POSITIONS_Y g) g.

(** ** Output bounds *)

Definition getSubpixMinX (r : Renderer) : Z :=
  let sampleColMin := jint_ceil (fsub (edgeMinX r) f_half) in
  if sampleColMin <? boundsMinX r then boundsMinX r else sampleColMin.
Definition getSubpixMaxX (r : Renderer) : Z :=
  let sampleColMax := jint_ceil (fsub (edgeMaxX r) f_half) in
  if sampleColMax >? boundsMaxX r then boundsMaxX r else sampleColMax.

Definition Renderer_getOutputBounds (g : statics) (r : Renderer) : Z * Z * Z * Z :=
  (getSubpixMinX r >> SUBPIXEL_LG_POSITIONS_X g, sampleRowMin r >> SUBPIXEL_LG_POSITIONS_Y g,
   i32 (getSubpixMaxX r + SUBPIXEL_MASK_X g) >> SUBPIXEL_LG_POSITIONS_X g,
   i32 (sampleRowMax r + SUBPIXEL_MASK_Y g) >> SUBPIXEL_LG_POSITIONS_Y g).
