(* ===== verification/PrismCoverage.v ===== *)
(** * Coverage of a pixel row

    What the accumulation loop of [Renderer_produceAlphas] computes for one sample
    row: a row of differences stands for a coverage ([diffs]), a span of samples adds
    its overlap with every pixel, and the loop over sorted crossings adds to every
    pixel the number of its samples that are inside by the winding rule.
    [setAndClearRelativeAlphas] turns the coverage into alpha. *)

From S2P Require Import Prelude.
From S2P Require Import Float32.
From S2P Require Import PrismRenderer.

(** ** Counting samples *)

(** How many of the [n] samples from [lo] on satisfy [P]. *)
Fixpoint count (n : nat) (lo : Z) (P : Z -> bool) : Z :=
  match n with
  | O => 0
  | S n => (if P lo then 1 else 0) + count n (lo + 1) P
  end.

Lemma count_ext n lo P Q :
  (forall x, lo <= x < lo + Z.of_nat n -> P x = Q x) -> count n lo P = count n lo Q.
Proof.
  revert lo. induction n as [|n IH]; intros lo H; simpl; [done|].
  rewrite (H lo) by lia. f_equal. apply IH. intros x ?. apply H. lia.
Qed.

Lemma count_bounds n lo P : 0 <= count n lo P <= Z.of_nat n.
Proof. revert lo. induction n as [|n IH]; intros lo; simpl; [lia|]. specialize (IH (lo + 1)). destruct (P lo); lia. Qed.

Lemma count_false n lo P : (forall x, lo <= x < lo + Z.of_nat n -> P x = false) -> count n lo P = 0.
Proof.
  revert lo. induction n as [|n IH]; intros lo H; simpl; [done|].
  rewrite (H lo), IH by (intros; try apply H; lia). lia.
Qed.

Lemma count_or n lo P Q :
  (forall x, P x && Q x = false) -> count n lo (fun x => P x || Q x) = count n lo P + count n lo Q.
Proof.
  intros H. revert lo. induction n as [|n IH]; intros lo; simpl; [done|]. rewrite IH.
  specialize (H lo). destruct (P lo), (Q lo); simpl in *; try done; lia.
Qed.

Lemma count_shift n lo d P : count n (lo + d) P = count n lo (fun x => P (x + d)).
Proof.
  revert lo. induction n as [|n IH]; intros lo; simpl; [done|]. rewrite <- IH. do 2 f_equal. lia.
Qed.

Lemma count_below n lo b : count n lo (fun x => x <? b) = Z.max 0 (Z.min (Z.of_nat n) (b - lo)).
Proof.
  revert lo. induction n as [|n IH]; intros lo; cbn [count]; [lia|]. rewrite IH. case_bools; lia.
Qed.

Lemma count_between n lo a b : a <= b ->
  count n lo (fun x => (a <=? x) && (x <? b)) =
  Z.max 0 (Z.min (Z.of_nat n) (b - lo)) - Z.max 0 (Z.min (Z.of_nat n) (a - lo)).
Proof.
  intros Hab. rewrite <- !count_below.
  enough (count n lo (fun x => x <? b) = count n lo (fun x => x <? a) + count n lo (fun x => (a <=? x) && (x <? b))) by lia.
  rewrite <- count_or.
  - apply count_ext. intros x _. case_bools.
  - intros x. case_bools.
Qed.

(** ** Rows of differences *)

Lemma i32_add_l a b : i32 (i32 a + b) = i32 (a + b).
Proof.
  destruct (i32_shift a) as [k ->]. unfold i32.
  replace (a + k * 2 ^ 32 + b + 2 ^ 31) with (a + b + 2 ^ 31 + k * 2 ^ 32) by lia. by rewrite Z_mod_plus_full.
Qed.

(** ** Crossings

    A crossing is its sample column, doubled, with the orientation as last bit. *)

Definition column (c : Z) : Z := c >> 1.
Definition orientation (c : Z) : Z := ((c & 1) << 1) - 1.

(** The winding number at [x]: the orientations of the crossings up to [x]. *)
Fixpoint winding (cs : list Z) (x : Z) : Z :=
  match cs with
  | [] => 0
  | c :: cs => (if column c <=? x then orientation c else 0) + winding cs x
  end.

Definition total (cs : list Z) : Z := foldr (fun c s => orientation c + s) 0 cs.

Definition inside (mask : Z) (cs : list Z) (x : Z) : bool := ctrue (winding cs x & mask).

Definition ascending (cs : list Z) : Prop :=
  forall i j a b, (i <= j)%nat -> cs !! i = Some a -> cs !! j = Some b -> a <= b.

Lemma orientation_cases c : orientation c = 1 \/ orientation c = -1.
Proof.
  unfold orientation. rewrite (land_mask c 1), shiftl_mul by done. change (2 ^ 1) with 2.
  pose proof (Z.mod_pos_bound c 2). assert (c mod 2 = 0 \/ c mod 2 = 1) as [->| ->] by lia; lia.
Qed.

Lemma column_mono a b : a <= b -> column a <= column b.
Proof. intros. unfold column. rewrite !shiftr_div by lia. by apply Z.div_le_mono. Qed.

Lemma winding_app l l' x : winding (l ++ l') x = winding l x + winding l' x.
Proof. induction l as [|c l IH]; simpl; [done|]. rewrite IH. lia. Qed.

Lemma winding_all l x : Forall (fun c => column c <= x) l -> winding l x = total l.
Proof. induction 1; simpl; [done|]. case_bools. Qed.

Lemma winding_none l x : Forall (fun c => x < column c) l -> winding l x = 0.
Proof. induction 1; simpl; [done|]. case_bools. Qed.

Lemma total_bound l : Z.abs (total l) <= Z.of_nat (length l).
Proof. induction l as [|c l IH]; simpl; [lia|]. destruct (orientation_cases c); lia. Qed.

Lemma total_app l l' : total (l ++ l') = total l + total l'.
Proof. induction l as [|c l IH]; simpl; [done|]. rewrite IH. lia. Qed.

(** Where the loop stands after [i] crossings, the winding number is the sum of their
    orientations. *)
Lemma winding_between cs i x : ascending cs -> (i <= length cs)%nat ->
  (forall c, cs !! (i - 1)%nat = Some c -> (0 < i)%nat -> column c <= x) ->
  (forall c, cs !! i = Some c -> x < column c) -> winding cs x = total (take i cs).
Proof.
  intros Ha Hi Hlo Hhi. rewrite <- (take_drop i cs) at 1. rewrite winding_app.
  rewrite winding_all, winding_none; [lia|..].
  - apply Forall_lookup. intros k c Hc. rewrite lookup_drop in Hc.
    destruct (lookup_lt_is_Some_2 cs i) as [d Hd]; [apply lookup_lt_Some in Hc; lia|].
    specialize (Hhi d Hd). pose proof (column_mono d c (Ha i (i + k)%nat d c ltac:(lia) Hd Hc)). lia.
  - apply Forall_lookup. intros k c Hc. apply lookup_take_Some in Hc as [Hc Hk].
    destruct (lookup_lt_is_Some_2 cs (i - 1)) as [d Hd]; [lia|].
    specialize (Hlo d Hd ltac:(lia)).
    pose proof (column_mono c d (Ha k (i - 1)%nat c d ltac:(lia) Hc Hd)). lia.
Qed.

Section row.
Context (g : statics) (lg w : Z).
Hypothesis Hlg : SUBPIXEL_LG_POSITIONS_X g = lg.
Hypothesis Hlg0 : 0 <= lg.

Notation "'SX'" := (2 ^ lg).

(** The elements of the row are the differences of the coverage of neighbours; the
    last two elements are not read. *)
Definition diffs (alpha : list Z) (cov : Z -> Z) : Prop :=
  alen alpha = w + 2 /\ cov (-1) = 0 /\
  forall p, 0 <= p < w -> aget alpha p = Some (i32 (cov p - cov (p - 1))).

(** The samples of pixel [p] that satisfy [P]; sample 0 is the leftmost one of the mask. *)
Definition pixel_count (P : Z -> bool) (p : Z) : Z := count (Z.to_nat SX) (p * SX) P.

Lemma positions_x : SUBPIXEL_POSITIONS_X g = SX.
Proof. unfold SUBPIXEL_POSITIONS_X. rewrite Hlg, shiftl_mul by done. lia. Qed.

Lemma mask_x x : x & SUBPIXEL_MASK_X g = x mod SX.
Proof.
  unfold SUBPIXEL_MASK_X. rewrite positions_x. apply land_mask; [done|].
  rewrite Z.ones_equiv. lia.
Qed.

Lemma pix_of x : x >> SUBPIXEL_LG_POSITIONS_X g = x / SX.
Proof. rewrite Hlg. by apply shiftr_div. Qed.

(** The samples of [p] below [x], as a function of [p], change at the pixel of [x] and
    the one after it. *)
Definition below (x p : Z) : Z := Z.max 0 (Z.min SX (x - p * SX)).

Lemma below_step x p :
  below x p - below x (p - 1) =
  if p =? x / SX then x mod SX - SX else if p =? x / SX + 1 then - (x mod SX) else 0.
Proof.
  unfold below. assert (HS : 0 < SX) by (apply Z.pow_pos_nonneg; lia).
  pose proof (Z.div_mod x SX ltac:(lia)) as Hx. pose proof (Z.mod_pos_bound x SX HS) as Hr.
  set (q := x / SX) in *. set (r := x mod SX) in *. clearbody q r. subst x.
  replace ((p - 1) * SX) with (p * SX - SX) by lia.
  destruct (Z.eqb_spec p q) as [->|]; [lia|]. destruct (Z.eqb_spec p (q + 1)) as [->|]; [lia|].
  destruct (Z.lt_ge_cases p q).
  - assert (p * SX + SX <= SX * q) by nia. lia.
  - assert (SX * q + 2 * SX <= p * SX) by nia. lia.
Qed.

Lemma pixel_count_between a b p : a <= b ->
  pixel_count (fun x => (a <=? x) && (x <? b)) p = below b p - below a p.
Proof.
  intros. unfold pixel_count, below. rewrite count_between by done.
  rewrite Z2Nat.id by (apply Z.pow_nonneg; lia). done.
Qed.

(** One element of the row increased. *)
Lemma increase_spec alpha i d (f : Z -> Z) :
  0 <= i < w + 2 -> alen alpha = w + 2 -> (forall p, 0 <= p < w -> aget alpha p = Some (i32 (f p))) ->
  exists alpha', aupd alpha i (increase d) = Some alpha' /\ alen alpha' = w + 2 /\
    (forall p, 0 <= p < w -> aget alpha' p = Some (i32 (f p + if p =? i then d else 0))).
Proof.
  intros Hi Hlen Hf.
  destruct (aupd_pointwise alpha i (increase d) (fun v => i32 (v + d))) as (m & -> & Hm); [lia|done|].
  exists m. split; [done|]. split; [by rewrite (pointwise_alen _ _ _ Hm)|].
  intros p Hp. rewrite (Hm p), (Hf p Hp). simpl. f_equal.
  destruct (p =? i); [apply i32_add_l|]. f_equal. lia.
Qed.

Ltac step_increase H :=
  let a := fresh "a" in let E := fresh "E" in let L := fresh "L" in let H' := fresh "H" in
  edestruct increase_spec as (a & E & L & H'); [..|exact H|]; [|eassumption|rewrite E; mred; clear E H].

(** A span within one pixel may end at its last sample. *)
Lemma same_pixel xa xb : xa < xb -> xa / SX = (xb - 1) / SX ->
  (xb / SX = xa / SX /\ xb mod SX = xa mod SX + (xb - xa)) \/
  (xb / SX = xa / SX + 1 /\ xb mod SX = 0 /\ xa mod SX = SX - (xb - xa)).
Proof.
  intros Hab Eq. assert (HS : 0 < SX) by (apply Z.pow_pos_nonneg; lia).
  pose proof (Z.div_mod xa SX ltac:(lia)). pose proof (Z.mod_pos_bound xa SX HS).
  pose proof (Z.div_mod xb SX ltac:(lia)). pose proof (Z.mod_pos_bound xb SX HS).
  pose proof (Z.div_mod (xb - 1) SX ltac:(lia)). pose proof (Z.mod_pos_bound (xb - 1) SX HS).
  rewrite <- Eq in *. set (q := xa / SX) in *. set (q2 := xb / SX) in *. clearbody q q2.
  assert (Hq : q2 = q \/ q2 = q + 1) by nia. destruct Hq; [left|right]; nia.
Qed.

(** A span adds to every pixel the samples of it that it covers. *)
Lemma add_span_spec alpha cov xa xb :
  diffs alpha cov -> 0 <= xa -> xa < xb -> xb <= w * SX ->
  exists alpha', add_span g xa xb alpha = Some alpha' /\
    diffs alpha' (fun p => cov p + pixel_count (fun x => (xa <=? x) && (x <? xb)) p).
Proof.
  intros (Hlen & H0 & Hd) Ha Hab Hb.
  assert (HS : 0 < SX) by (apply Z.pow_pos_nonneg; lia).
  assert (Hqa : 0 <= xa / SX < w) by (split; [by apply Z.div_pos|apply Z.div_lt_upper_bound; lia]).
  assert (Hqb : 0 <= xb / SX <= w) by (split; [by apply Z.div_pos; lia|apply Z.div_le_upper_bound; lia]).
  assert (Hm1 : pixel_count (fun x => (xa <=? x) && (x <? xb)) (-1) = 0).
  { apply count_false. rewrite Z2Nat.id by lia. intros x ?. case_bools. }
  unfold add_span. rewrite !pix_of, !mask_x, positions_x.
  assert (Hpc : forall p, pixel_count (fun x => (xa <=? x) && (x <? xb)) p = below xb p - below xa p)
    by (intros; apply pixel_count_between; lia).
  destruct (Z.eqb_spec (xa / SX) ((xb - 1) / SX)) as [Eq|Ne].
  - step_increase Hd; [lia|]. step_increase H; [lia|].
    eexists. split; [done|]. split; [done|]. split; [lia|]. intros p Hp. rewrite (H1 p Hp). do 2 f_equal.
    rewrite !Hpc. generalize (below_step xa p) (below_step xb p).
    assert (Hs : (xb / SX = xa / SX /\ xb mod SX = xa mod SX + (xb - xa)) \/
                 (xb / SX = xa / SX + 1 /\ xb mod SX = 0 /\ xa mod SX = SX - (xb - xa))) by (by apply same_pixel).
    case_bools.
  - step_increase Hd; [lia|]. step_increase H; [lia|]. step_increase H1; [lia|]. step_increase H; [lia|].
    eexists. split; [done|]. split; [done|]. split; [lia|]. intros p Hp. rewrite (H1 p Hp). do 2 f_equal.
    rewrite !Hpc. generalize (below_step xa p) (below_step xb p). case_bools.
Qed.

Lemma diffs_ext alpha cov cov' : (forall p, cov p = cov' p) -> diffs alpha cov -> diffs alpha cov'.
Proof. intros H (? & ? & Hd). split; [done|]. rewrite <- !H. split; [done|]. intros p ?. rewrite <- !H. by apply Hd. Qed.

(** *** The samples of a row that are inside *)

(** Where the loop stands after [i] crossings. *)
Definition passed (bboxx0 : Z) (cs : list Z) (i : Z) : Z :=
  match aget cs (i - 1) with Some c => column c | None => bboxx0 end.

Section crossings.
Context (mask bboxx0 : Z) (cs : list Z).

(** Sample [x] of the mask is inside and left of [prev]. *)
Definition inside_before (prev x : Z) : bool :=
  (0 <=? x) && (x <? w * SX) && (x + bboxx0 <? prev) && inside mask cs (x + bboxx0).

Lemma inside_before_none prev : (forall x, x + bboxx0 < prev -> inside mask cs (x + bboxx0) = false) ->
  forall p, pixel_count (inside_before prev) p = 0.
Proof.
  intros H p. apply count_false. intros x _. unfold inside_before.
  destruct (Z.ltb_spec (x + bboxx0) prev); [rewrite H by done|]; by rewrite ?andb_false_r.
Qed.

(** Between two crossings the winding number is constant. *)
Lemma inside_before_step prev cur (c : bool) : prev <= cur ->
  (forall x, prev <= x < cur -> inside mask cs x = c) ->
  forall p, pixel_count (inside_before cur) p =
    pixel_count (inside_before prev) p +
    pixel_count (fun x => c && ((Z.max prev bboxx0 - bboxx0 <=? x) && (x <? Z.min cur (bboxx0 + w * SX) - bboxx0))) p.
Proof.
  intros Hle Hc p. unfold pixel_count. rewrite <- count_or.
  - apply count_ext. intros x _. unfold inside_before.
    destruct (decide (prev <= x + bboxx0 < cur)) as [Hin|Hout].
    + rewrite (Hc _ Hin). destruct c; rewrite ?andb_false_l, ?andb_false_r; cases.
    + destruct (inside mask cs (x + bboxx0)), c; rewrite ?andb_false_l, ?andb_false_r; cases.
  - intros x. unfold inside_before. destruct c; [|by rewrite andb_false_r].
    destruct (inside mask cs (x + bboxx0)); rewrite ?andb_false_r; case_bools.
Qed.

Hypothesis Hasc : ascending cs.
Hypothesis Hshort : alen cs < 2 ^ 31.

(** What holds before crossing [i]. *)
Definition accumulated (cov : Z -> Z) (i : Z) (s : Z * Z * list Z) : Prop :=
  let '(sum, prev, alpha) := s in
  i <= alen cs /\ sum = total (take (Z.to_nat i) cs) /\ prev = passed bboxx0 cs i /\
  diffs alpha (fun p => cov p + pixel_count (inside_before prev) p).

Lemma none_at_start p : pixel_count (inside_before bboxx0) p = 0.
Proof. apply count_false. intros x _. unfold inside_before. cases. Qed.

Lemma accumulated_start cov alpha : diffs alpha cov -> accumulated cov 0 (0, bboxx0, alpha).
Proof.
  intros Hd. split; [unfold alen; lia|]. split; [done|]. split; [done|]. revert Hd. apply diffs_ext.
  intros p. rewrite none_at_start. lia.
Qed.

Lemma passed_S i c : 0 <= i -> aget cs i = Some c -> passed bboxx0 cs (i + 1) = column c.
Proof. intros. unfold passed. replace (i + 1 - 1) with i by lia. by simplify_option_eq. Qed.

Lemma total_take_S i c : 0 <= i -> aget cs i = Some c ->
  total (take (Z.to_nat (i + 1)) cs) = total (take (Z.to_nat i) cs) + orientation c.
Proof.
  intros Hi Hc. rewrite aget_lookup in Hc by done. replace (Z.to_nat (i + 1)) with (S (Z.to_nat i)) by lia.
  rewrite (take_S_r _ _ _ Hc), total_app. simpl. lia.
Qed.

(** Up to the first crossing nothing is inside. *)
Lemma first_crossing c : aget cs 0 = Some c -> forall p, pixel_count (inside_before (column c)) p = 0.
Proof.
  intros Hc. apply inside_before_none. intros x Hx. unfold inside.
  change (aget cs 0) with (cs !! 0%nat) in Hc.
  rewrite (winding_between cs 0); [done|done|lia|intros; lia|intros; by simplify_eq].
Qed.

(** From a later crossing to the next. *)
Lemma next_crossing i prev c : 0 < i -> aget cs (i - 1) = Some prev -> aget cs i = Some c ->
  column prev <= column c /\
  forall x, column prev <= x < column c -> inside mask cs x = ctrue (total (take (Z.to_nat i) cs) & mask).
Proof.
  intros Hi Hp Hc. rewrite aget_lookup in Hp, Hc by lia.
  replace (Z.to_nat (i - 1)) with (Z.to_nat i - 1)%nat in Hp by lia.
  split; [apply column_mono; eapply Hasc; [|exact Hp|exact Hc]; lia|].
  intros x Hx. unfold inside. rewrite (winding_between cs (Z.to_nat i)); [done|done|..].
  - apply lookup_lt_Some in Hc. lia.
  - intros; simplify_eq; lia.
  - intros; simplify_eq; lia.
Qed.

(** The span between two crossings, clipped to the mask. *)
Lemma clipped_span cov alpha (b : bool) prev cur : diffs alpha cov ->
  exists alpha',
    (if b then
       let xa := Math_max prev bboxx0 in
       let xb := Math_min cur (bboxx0 + w * SX) in
       if xa <? xb then add_span g (xa - bboxx0) (xb - bboxx0) alpha else Some alpha
     else Some alpha) = Some alpha' /\
    diffs alpha' (fun p => cov p +
      pixel_count (fun x => b && ((Z.max prev bboxx0 - bboxx0 <=? x) && (x <? Z.min cur (bboxx0 + w * SX) - bboxx0))) p).
Proof.
  intros Hd. cbv zeta.
  assert (Hmax : Math_max prev bboxx0 = Z.max prev bboxx0) by (unfold Math_max; case_bools).
  assert (Hmin : Math_min cur (bboxx0 + w * SX) = Z.min cur (bboxx0 + w * SX)) by (unfold Math_min; case_bools).
  rewrite Hmax, Hmin. set (xa := Z.max prev bboxx0). set (xb := Z.min cur (bboxx0 + w * SX)).
  destruct b; [destruct (Z.ltb_spec xa xb)|].
  - destruct (add_span_spec alpha cov (xa - bboxx0) (xb - bboxx0)) as (a' & -> & Ha'); [done|lia..|]. eauto.
  - eexists. split; [done|]. revert Hd. apply diffs_ext. intros p. unfold pixel_count.
    rewrite count_false; [lia|]. intros x _. cases.
  - eexists. split; [done|]. revert Hd. apply diffs_ext. intros p. unfold pixel_count.
    rewrite count_false; [lia|done].
Qed.

Context (arr : list Z).
Hypothesis Harr : forall i, 0 <= i < alen cs -> aget arr i = aget cs i.

Lemma accumulate_step cov i s : 0 <= i < alen cs -> accumulated cov i s ->
  exists s', accumulate g mask bboxx0 (bboxx0 + w * SX) arr i s = Some s' /\ accumulated cov (i + 1) s'.
Proof.
  intros Hi. destruct s as [[sum prev] alpha]. intros (_ & Hsum & Hprev & Hd).
  destruct (aget_ex cs i Hi) as [c Hc]. unfold accumulate. rewrite (Harr i Hi), Hc. mred.
  destruct (clipped_span _ _ (ctrue (sum & mask)) prev (column c) Hd) as (alpha' & E & Hd').
  cbv zeta in *. change (c >> 1) with (column c). rewrite E. mred.
  eexists. split; [done|]. split; [lia|]. split; [|split].
  - change (((c & 1) << 1) - 1) with (orientation c). rewrite (total_take_S i c), Hsum by (done || lia).
    apply i32_id. pose proof (total_bound (take (Z.to_nat i) cs)). rewrite length_take in *.
    unfold in_i32, alen in *. destruct (orientation_cases c); lia.
  - rewrite (passed_S i c); [done|lia|done].
  - revert Hd'. apply diffs_ext. intros p.
    destruct (Z.eq_dec i 0) as [->|Hi0].
    + assert (sum = 0 /\ prev = bboxx0) as [-> ->] by by subst.
      rewrite (first_crossing c Hc), none_at_start. unfold pixel_count. rewrite count_false; [lia|done].
    + destruct (aget_ex cs (i - 1) ltac:(lia)) as [c' Hc'].
      destruct (next_crossing i c' c ltac:(lia) Hc' Hc) as [Hle Hin].
      assert (Ep : prev = column c') by (subst; unfold passed; by rewrite Hc'). subst prev. rewrite Ep in *.
      rewrite (inside_before_step (column c') (column c) (ctrue (sum & mask)) Hle); [lia|]. by subst.
Qed.

(** The loop of one sample row adds to every pixel its samples that are inside and left
    of the last crossing. *)
Lemma accumulate_spec cov alpha : diffs alpha cov ->
  exists sum alpha',
    for_lt (alen cs) (accumulate g mask bboxx0 (bboxx0 + w * SX) arr) (0, bboxx0, alpha) =
      Some (sum, passed bboxx0 cs (alen cs), alpha') /\ sum = total cs /\
    diffs alpha' (fun p => cov p + pixel_count (inside_before (passed bboxx0 cs (alen cs))) p).
Proof.
  intros Hd. destruct (for_lt_inv (accumulated cov) (alen cs)
    (accumulate g mask bboxx0 (bboxx0 + w * SX) arr) (0, bboxx0, alpha)) as (s & E & Hs).
  - by apply accumulated_start.
  - intros k s Hk. by apply accumulate_step.
  - destruct s as [[sum prev] alpha']. rewrite Z.max_r in Hs by (unfold alen; lia).
    destruct Hs as (_ & Hsum & -> & Hd'). exists sum, alpha'. split; [done|]. split; [|done].
    rewrite Hsum, take_ge; [done|]. unfold alen. lia.
Qed.
End crossings.

(** *** From coverage to alpha *)

(** What holds before column [i] of [setAndClearRelativeAlphas]. *)
Definition emitted (map : list Z) (cov : Z -> Z) (off : Z) (alphas : list Z) (i : Z) (s : Z * list Z * list Z) : Prop :=
  let '(a, row, out) := s in
  a = cov (i - 1) /\ alen row = w + 2 /\
  (forall p, 0 <= p < w -> aget row p = Some (if p <? i then 0 else i32 (cov p - cov (p - 1)))) /\
  (forall k, aget out k = if (off <=? k) && (k <? off + i) then aget map (cov (k - off)) else aget alphas k).

Lemma setAndClear_spec pix_y ac map alpha cov :
  let off := (pix_y - originY ac) * w in
  alphaMap g = Some map -> width ac = w -> 0 <= w -> diffs alpha cov ->
  (forall p, 0 <= p < w -> 0 <= cov p < alen map /\ cov p < 2 ^ 31) -> 0 <= off -> off + w <= alen (alphas ac) ->
  exists alpha' out, setAndClearRelativeAlphas g pix_y ac alpha = Some (alpha', out) /\
    diffs alpha' (fun _ => 0) /\
    forall k, aget out k = if (off <=? k) && (k <? off + w) then aget map (cov (k - off)) else aget (alphas ac) k.
Proof.
  intros off Hmap Hw Hw0 (Hlen & H0 & Hd) Hcov Hoff Hend. unfold setAndClearRelativeAlphas. rewrite Hmap, Hw. mred.
  fold off.
  match goal with |- context [for_lt w ?b ?s] =>
    destruct (for_lt_inv (emitted map cov off (alphas ac)) w b s) as (s' & E & Hs) end.
  - split; [exact (eq_sym H0)|]. split; [done|]. split.
    + intros p Hp. rewrite Hd by done. cases.
    + intros k. cases.
  - intros i [[a row] out] Hi (Ha & Hl & Hrow & Hout). rewrite Hrow by done.
    rewrite (proj2 (Z.ltb_ge i i)) by lia. mred.
    assert (Hai : i32 (a + i32 (cov i - cov (i - 1))) = cov i).
    { rewrite Z.add_comm, i32_add_l, Ha. destruct (Hcov i Hi).
      replace (cov i - cov (i - 1) + cov (i - 1)) with (cov i) by lia. apply i32_id. unfold in_i32. lia. }
    rewrite Hai. destruct (aset_ok row i 0) as (row' & -> & Hrow'); [lia|]. mred.
    destruct (aget_ex map (cov i)) as [v Hv]; [apply Hcov; lia|]. rewrite Hv. mred.
    assert (Hlo : alen out = alen (alphas ac)).
    { apply alen_eq. intros k. rewrite Hout. destruct (Z.leb_spec off k), (Z.ltb_spec k (off + i)); simpl; try done.
      rewrite !aget_is_Some. destruct (Hcov (k - off)); lia. }
    destruct (aset_ok out (off + i) v) as (out' & -> & Hout'); [lia|]. mred.
    eexists. split; [done|]. split; [f_equal; lia|]. split.
    { rewrite <- Hl. apply alen_eq. intros k. rewrite Hrow'. destruct (Z.eqb_spec k i) as [->|]; [|done].
      rewrite !aget_is_Some. split; [lia|eauto]. }
    split.
    + intros p Hp. rewrite Hrow', Hrow by done. cases.
    + intros k. rewrite Hout', Hout. destruct (Z.eqb_spec k (off + i)) as [->|].
      * replace (off + i - off) with i by lia. cases.
      * cases.
  - rewrite E. destruct s' as [[a row] out]. mred. rewrite Z.max_r in Hs by done.
    destruct Hs as (_ & Hl & Hrow & Hout). exists row, out. split; [done|]. split; [|done].
    split; [done|]. split; [done|]. intros p Hp. rewrite Hrow by done. cases.
Qed.
End row.
