(* ===== verification/PrismEdges.v ===== *)
(** * The edge lists

    The edges that [addLine] has stored, as a list ([Edge]), and how the arrays of the
    renderer represent it ([list_ok]): five floats per edge, and per sample row the
    chain of the edges that start there and the word that counts them and says whether
    edges end there. *)

From S2P Require Import Prelude.
From S2P Require Import Float32.
From S2P Require Import Float32Spec.
From S2P Require Import PrismRenderer.

(** ** Edges *)

(** An edge crosses the sample rows from [first] up to, but not including, [last]; the
    crossing is at [start] in row [first] and moves by [slope] per row. *)
Record Edge := mkEdge { first : Z; last : Z; down : bool; start : jfloat; slope : jfloat }.

(** The sample row from which on a point is above. *)
Definition row (y : jfloat) : Z := jint_ceil (fsub y f_half).

(** A line between two points. *)
Definition line : Type := jfloat * jfloat * jfloat * jfloat.

(** The edge of a line, clipped to the rows from [minY] to [maxY]; a line that crosses
    no row has none. *)
Definition line_edge (minY maxY : Z) (l : line) : option Edge :=
  let '(xa, ya, xb, yb) := l in
  let d := negb (flt yb ya) in
  let '(x1, y1, x2, y2) := if d then (xa, ya, xb, yb) else (xb, yb, xa, ya) in
  let f := Z.max (row y1) minY in
  let t := Z.min (row y2) maxY in
  if f <? t then
    let s := fdiv (fsub x2 x1) (fsub y2 y1) in
    Some (mkEdge f t d (fadd x1 (fmul (fsub (fadd (of_int f) f_half) y1) s)) s)
  else None.

(** The edges with their numbers, the newest first. *)
Fixpoint indexed (E : list Edge) : list (Z * Edge) :=
  match E with [] => [] | e :: E => (alen E, e) :: indexed E end.

(** The numbers of the edges that start in row [y]; whether one ends there. *)
Definition starts (E : list Edge) (y : Z) : list Z := fst <$> filter (fun ke => first ke.2 = y) (indexed E).
Definition ends (E : list Edge) (y : Z) : bool := existsb (fun e => last e =? y) E.

Lemma indexed_bounds E k e : (k, e) ∈ indexed E -> 0 <= k < alen E /\ e ∈ E.
Proof.
  induction E as [|e' E IH]; simpl; [by rewrite elem_of_nil|].
  rewrite alen_cons, elem_of_cons. pose proof (alen_nonneg E).
  intros [H'|H']; [simplify_eq; split; [lia|left]|]. destruct (IH H'). split; [lia|by right].
Qed.

Lemma indexed_fst_NoDup E : NoDup (fst <$> indexed E).
Proof.
  induction E as [|e E IH]; simpl; [constructor|]. constructor; [|done].
  rewrite list_elem_of_fmap. intros ([k e'] & Hk & H). apply indexed_bounds in H. simpl in Hk. lia.
Qed.

Lemma indexed_unique E k e e' : (k, e) ∈ indexed E -> (k, e') ∈ indexed E -> e = e'.
Proof.
  induction E as [|e0 E IH]; cbn [indexed]; [by rewrite elem_of_nil|].
  rewrite !elem_of_cons. intros [H|H] [H'|H']; simplify_eq; try done; [| |by apply IH];
    apply indexed_bounds in H || apply indexed_bounds in H'; lia.
Qed.

Lemma indexed_snd E : snd <$> indexed E = E.
Proof. induction E as [|e E IH]; [done|]. cbn. f_equal. exact IH. Qed.

Lemma starts_bounds E y : Forall (fun k => 0 <= k < alen E) (starts E y).
Proof.
  apply Forall_forall. intros k Hk. apply list_elem_of_In, list_elem_of_fmap in Hk as ([k' e] & -> & H).
  apply list_elem_of_filter in H as [_ H]. by apply indexed_bounds in H as [].
Qed.

Lemma starts_length E y : Z.of_nat (length (starts E y)) <= alen E.
Proof.
  unfold starts. rewrite length_fmap. pose proof (length_filter (fun ke : Z * Edge => first ke.2 = y) (indexed E)).
  rewrite <- (indexed_snd E) at 2. unfold alen. rewrite length_fmap. lia.
Qed.

(** ** The arrays *)

(** The edges [ks] linked from [link] through their [NEXT] fields. *)
Fixpoint chain (es : list jfloat) (link : Z) (ks : list Z) : Prop :=
  match ks with
  | [] => link = 0
  | k :: ks => link = SIZEOF_EDGE * k + 1 /\ exists n, aget es (SIZEOF_EDGE * k + NEXT) = Some (of_int n) /\ chain es n ks
  end.

Definition or_field (d : bool) : jfloat := if d then f_one else f_zero.

(** The fields of edge [k], apart from where it crosses. *)
Definition fields (es : list jfloat) (k : Z) (e : Edge) : Prop :=
  aget es (SIZEOF_EDGE * k + YMAX) = Some (of_int (last e)) /\
  aget es (SIZEOF_EDGE * k + OR) = Some (or_field (down e)) /\
  aget es (SIZEOF_EDGE * k + SLOPE) = Some (slope e).

Definition bucket_word (E : list Edge) (y : Z) : Z := 2 * Z.of_nat (length (starts E y)) + (if ends E y then 1 else 0).

Record list_ok (minY maxY : Z) (es : list jfloat) (bs : list Z) (E : list Edge) : Prop := {
  lo_room : SIZEOF_EDGE * alen E <= alen es;
  lo_fields : forall k e, (k, e) ∈ indexed E -> fields es k e;
  lo_rows : Forall (fun e => minY <= first e < last e /\ last e <= maxY) E;
  lo_size : 2 * (maxY - minY) + 2 <= alen bs;
  lo_bucket : forall y, minY <= y < maxY -> exists link,
    aget bs ((y - minY) * 2) = Some link /\ chain es link (starts E y) /\
    aget bs ((y - minY) * 2 + 1) = Some (bucket_word E y) }.

Definition at_start (es : list jfloat) (E : list Edge) : Prop :=
  forall k e, (k, e) ∈ indexed E -> aget es (SIZEOF_EDGE * k + CURX) = Some (start e).

(** *** Arrays that agree below an index *)

Definition agree (n : Z) (es es' : list jfloat) : Prop := forall i, i < n -> aget es' i = aget es i.

Lemma agree_trans n a b c : agree n a b -> agree n b c -> agree n a c.
Proof. intros H1 H2 i ?. by rewrite H2, H1. Qed.

Lemma chain_frame n es es' link ks : agree (SIZEOF_EDGE * n) es es' -> Forall (fun k => 0 <= k < n) ks ->
  chain es link ks -> chain es' link ks.
Proof.
  intros Ha Hk. revert link. induction Hk as [|k ks Hk _ IH]; intros link; simpl; [done|].
  intros (-> & m & Hm & Hc). split; [done|]. exists m. split; [|by apply IH].
  rewrite Ha; [done|]. unfold SIZEOF_EDGE, NEXT. lia.
Qed.

Lemma fields_frame n es es' k e : agree (SIZEOF_EDGE * n) es es' -> 0 <= k < n -> fields es k e -> fields es' k e.
Proof.
  intros Ha Hk (H1 & H2 & H3). unfold fields, SIZEOF_EDGE, YMAX, OR, SLOPE in *.
  by rewrite !Ha by (unfold SIZEOF_EDGE; lia).
Qed.

Lemma alen_new {A} n (v : A) : 0 <= n -> alen (replicate (Z.to_nat n) v) = n.
Proof. intros. unfold alen. rewrite length_replicate. lia. Qed.

Lemma copy_spec {A} (src dst : list A) n : 0 <= n -> n <= alen src -> n <= alen dst ->
  exists m, for_lt n (fun i e => v ← aget src i; aset e i v) dst = Some m /\ alen m = alen dst /\
    forall i, aget m i = if (0 <=? i) && (i <? n) then aget src i else aget dst i.
Proof.
  intros Hn Hs Hd.
  destruct (for_lt_inv (fun j m => alen m = alen dst /\ forall i, aget m i = if (0 <=? i) && (i <? j) then aget src i else aget dst i)
    n (fun i e => v ← aget src i; aset e i v) dst) as (m & E & Hl & Hm).
  - split; [done|]. intros i. cases.
  - intros j m Hj [Hl Hm]. destruct (aget_ex src j ltac:(lia)) as [v Hv]. rewrite Hv. mred.
    destruct (aset_ok m j v ltac:(lia)) as (m' & -> & Hm'). eexists. split; [done|]. split.
    + rewrite <- Hl. apply alen_eq. intros k. rewrite Hm'. destruct (Z.eqb_spec k j) as [->|]; [|done].
      rewrite aget_is_Some. split; [lia|eauto].
    + intros i. rewrite Hm', Hm. destruct (Z.eqb_spec i j) as [->|]; cases.
  - exists m. rewrite Z.max_r in Hm by lia. eauto.
Qed.

(** The bound on the number of edges is real: a link beyond 24 bits is rounded to
    another edge, or to none. *)
Example link_lost : to_jint (of_int (SIZEOF_EDGE * 3355444 + 1)) = SIZEOF_EDGE * 3355444.
Proof. vm_compute. reflexivity. Qed.

(** ** Adding an edge *)

Lemma grow_edges_spec ptr es : 0 <= ptr <= alen es -> ptr < 2 ^ 24 ->
  exists es', grow_edges ptr es = Some es' /\ ptr + SIZEOF_EDGE <= alen es' /\ agree ptr es es'.
Proof.
  intros Hp Hs. unfold grow_edges, SIZEOF_EDGE. destruct (Z.ltb_spec (alen es) (ptr + 5)); [|by exists es].
  rewrite i32_id by (unfold in_i32; lia). unfold new_float.
  destruct (copy_spec es (replicate (Z.to_nat ((ptr + 5) * 2)) f_zero) ptr) as (m & -> & Hl & Hm);
    rewrite ?alen_new in * by lia; [lia..|].
  exists m. split; [done|]. split; [lia|]. intros i Hi. rewrite Hm.
  destruct (Z.leb_spec 0 i); [by rewrite (proj2 (Z.ltb_lt i ptr))|].
  rewrite !aget_None by lia. done.
Qed.

(** A write to one element. *)
Lemma aset_step {A} (m : list A) i v : 0 <= i < alen m ->
  exists m', aset m i v = Some m' /\ alen m' = alen m /\ aget m' i = Some v /\ (forall j, j <> i -> aget m' j = aget m j).
Proof.
  intros Hi. destruct (aset_ok m i v Hi) as (m' & E & Hm). exists m'. split; [done|].
  assert (Hself : aget m' i = Some v) by (rewrite Hm, Z.eqb_refl; done).
  assert (Hne : forall j, j <> i -> aget m' j = aget m j) by (intros j Hj; rewrite Hm; by destruct (Z.eqb_spec j i)).
  split; [|done]. apply alen_eq. intros k. destruct (Z.eq_dec k i) as [->|Hk]; [|by rewrite Hne].
  rewrite Hself, (aget_is_Some m). split; [done|eauto].
Qed.

Ltac set_step :=
  match goal with |- context [aset ?m ?i ?v] =>
    let m' := fresh "m" in let E := fresh "E" in
    destruct (aset_step m i v) as (m' & E & ? & ? & ?); [|rewrite E; mred; clear E] end.

Lemma add_edge_spec n e es : 0 <= n -> SIZEOF_EDGE * n + SIZEOF_EDGE <= alen es ->
  exists es', add_edge (SIZEOF_EDGE * n) (or_field (down e)) (start e) (slope e) (of_int (last e)) es = Some es' /\
    alen es' = alen es /\ agree (SIZEOF_EDGE * n) es es' /\ fields es' n e /\
    aget es' (SIZEOF_EDGE * n + CURX) = Some (start e).
Proof.
  intros Hn Hl. unfold add_edge, fields, agree, SIZEOF_EDGE, YMAX, OR, SLOPE, CURX in *.
  do 4 (set_step; [lia|]). eexists. split; [done|]. split; [lia|]. split.
  - intros i Hi. repeat match goal with H : forall j, j <> _ -> _ |- _ => rewrite H by lia; clear H end. done.
  - repeat split; repeat match goal with H : forall j, j <> _ -> aget ?m j = _ |- context [aget ?m _] => rewrite H by lia end; done.
Qed.

(** The bucket of the row gets the edge in front. *)
Lemma addEdgeToBucket_spec n b es bs link w : 0 <= n -> SIZEOF_EDGE * n + SIZEOF_EDGE <= alen es -> 5 * n + 1 < 2 ^ 24 ->
  aget bs (b * 2) = Some link -> aget bs (b * 2 + 1) = Some w -> 0 <= w < 2 ^ 30 ->
  exists es' bs', addEdgeToBucket (SIZEOF_EDGE * n) b es bs = Some (es', bs') /\
    alen es' = alen es /\ aget es' (SIZEOF_EDGE * n + NEXT) = Some (of_int link) /\
    (forall i, i <> SIZEOF_EDGE * n + NEXT -> aget es' i = aget es i) /\
    alen bs' = alen bs /\ aget bs' (b * 2) = Some (SIZEOF_EDGE * n + 1) /\ aget bs' (b * 2 + 1) = Some (w + 2) /\
    (forall i, i <> b * 2 -> i <> b * 2 + 1 -> aget bs' i = aget bs i).
Proof.
  intros Hn Hl Hs Hlink Hw Hwb. unfold addEdgeToBucket. rewrite Hlink. mred.
  pose proof (aget_Some_range _ _ _ Hlink). pose proof (aget_Some_range _ _ _ Hw).
  unfold SIZEOF_EDGE, NEXT in *. set_step; [lia|]. set_step; [lia|]. unfold aupd.
  match goal with H : forall j, j <> b * 2 -> _ |- _ => rewrite H by lia end. rewrite Hw. mred.
  set_step; [lia|]. eexists _, _. split; [done|]. split; [done|]. split; [done|]. split; [done|]. split; [lia|].
  rewrite (i32_id (w + 2)) in * by (unfold in_i32; lia). rewrite (i32_id (5 * n + 1)) in * by (unfold in_i32; lia).
  split; [|split; [done|]].
  - match goal with H : forall j, j <> b * 2 + 1 -> _ |- _ => rewrite H by lia end. done.
  - intros i ? ?. repeat match goal with H : forall j, j <> _ -> aget ?m j = _ |- context [aget ?m _] => rewrite H by lia end. done.
Qed.

(** The words of the buckets when edge [e] is added. *)
Lemma starts_cons e E y : starts (e :: E) y = if decide (first e = y) then alen E :: starts E y else starts E y.
Proof. unfold starts. cbn [indexed]. rewrite filter_cons. simpl. by destruct (decide (first e = y)). Qed.

Lemma ends_cons e E y : ends (e :: E) y = (last e =? y) || ends E y.
Proof. done. Qed.

Lemma bucket_word_cons e E y : first e < last e ->
  bucket_word (e :: E) y =
  if first e =? y then bucket_word E y + 2 else if last e =? y then bucket_word E y .| 1 else bucket_word E y.
Proof.
  intros Hfl. unfold bucket_word. rewrite starts_cons, ends_cons.
  assert (H1 : forall n, (2 * n) .| 1 = 2 * n + 1).
  { intros n. pose proof (lor_shiftl_add n 1 1 ltac:(lia) ltac:(lia)) as H. rewrite shiftl_mul in H by lia.
    change (2 ^ 1) with 2 in H. rewrite (Z.mul_comm 2 n). exact H. }
  assert (Hor : forall n (b : bool), (2 * n + (if b then 1 else 0)) .| 1 = 2 * n + 1).
  { intros n [|]; [|rewrite Z.add_0_r; apply H1]. rewrite <- H1 at 1. by rewrite <- Z.lor_assoc. }
  destruct (decide (first e = y)); destruct (Z.eqb_spec (first e) y); try lia;
    destruct (Z.eqb_spec (last e) y); try lia; cbn [orb length]; [lia| |done].
  by rewrite Hor.
Qed.

Lemma bucket_word_bound E y : 0 <= bucket_word E y <= 2 * alen E + 1.
Proof. unfold bucket_word. pose proof (starts_length E y). destruct (ends E y); lia. Qed.

(** The arrays after an edge has been written and linked. *)
Lemma list_ok_cons minY maxY es es' bs bs' E e link : list_ok minY maxY es bs E ->
  minY <= first e < last e /\ last e <= maxY ->
  SIZEOF_EDGE * alen E + SIZEOF_EDGE <= alen es' -> agree (SIZEOF_EDGE * alen E) es es' -> fields es' (alen E) e ->
  aget bs ((first e - minY) * 2) = Some link -> aget es' (SIZEOF_EDGE * alen E + NEXT) = Some (of_int link) ->
  alen bs' = alen bs -> aget bs' ((first e - minY) * 2) = Some (SIZEOF_EDGE * alen E + 1) ->
  (forall y, minY <= y < maxY -> y <> first e -> aget bs' ((y - minY) * 2) = aget bs ((y - minY) * 2)) ->
  (forall y, minY <= y < maxY -> aget bs' ((y - minY) * 2 + 1) = Some (bucket_word (e :: E) y)) ->
  list_ok minY maxY es' bs' (e :: E).
Proof.
  intros [Hroom Hf Hr Hs Hb] He Hlen Ha Hfe Hlink Hnext Hbs Hhead Hother Hword. split.
  - rewrite alen_cons. unfold SIZEOF_EDGE in *. lia.
  - intros k e' H. cbn [indexed] in H. apply elem_of_cons in H as [H|H]; [by simplify_eq|].
    pose proof (indexed_bounds _ _ _ H) as [Hk _]. by eapply fields_frame, Hf.
  - by constructor.
  - lia.
  - intros y Hy. destruct (Hb y Hy) as (l & Hl & Hc & _).
    assert (Hc' : chain es' l (starts E y)) by (eapply chain_frame; [exact Ha|apply starts_bounds|done]).
    destruct (Z.eq_dec y (first e)) as [->|Hne].
    + exists (SIZEOF_EDGE * alen E + 1). split; [done|]. split; [|by apply Hword].
      rewrite starts_cons, decide_True by done. split; [done|]. exists link. split; [done|]. by simplify_eq.
    + exists l. rewrite Hother by done. split; [done|]. split; [|by apply Hword].
      rewrite starts_cons, decide_False by congruence. done.
Qed.

Lemma store_edge minY maxY es bs E e : list_ok minY maxY es bs E -> at_start es E ->
  minY <= first e < last e /\ last e <= maxY -> SIZEOF_EDGE * alen E + SIZEOF_EDGE < 2 ^ 24 ->
  exists es1 es2 es3 bs1 bs2,
    grow_edges (SIZEOF_EDGE * alen E) es = Some es1 /\
    add_edge (SIZEOF_EDGE * alen E) (or_field (down e)) (start e) (slope e) (of_int (last e)) es1 = Some es2 /\
    addEdgeToBucket (SIZEOF_EDGE * alen E) (first e - minY) es2 bs = Some (es3, bs1) /\
    aupd bs1 ((last e - minY) * 2 + 1) (fun n => Some (n .| 1)) = Some bs2 /\
    list_ok minY maxY es3 bs2 (e :: E) /\ at_start es3 (e :: E).
Proof.
  intros Hok Hst He Hsz. pose proof (lo_room _ _ _ _ _ Hok). pose proof (alen_nonneg E).
  destruct (lo_bucket _ _ _ _ _ Hok (first e)) as (link & Hlink & _ & Hw); [lia|].
  destruct (grow_edges_spec (SIZEOF_EDGE * alen E) es) as (es1 & E1 & L1 & A1); [unfold SIZEOF_EDGE in *; lia..|].
  destruct (add_edge_spec (alen E) e es1) as (es2 & E2 & L2 & A2 & F2 & C2); [done|done|].
  pose proof (bucket_word_bound E (first e)) as Hwb. unfold SIZEOF_EDGE in Hsz.
  destruct (addEdgeToBucket_spec (alen E) (first e - minY) es2 bs link (bucket_word E (first e)))
    as (es3 & bs1 & E3 & L3 & N3 & S3 & LB & H1 & H2 & H3); [lia|lia|lia|done|done|lia|].
  assert (Hlast : exists v, aget bs1 ((last e - minY) * 2 + 1) = Some v).
  { apply aget_ex. rewrite LB. pose proof (lo_size _ _ _ _ _ Hok). lia. }
  destruct Hlast as [v Hv].
  destruct (aset_step bs1 ((last e - minY) * 2 + 1) (v .| 1)) as (bs2 & E4 & L4 & V4 & O4).
  { by apply aget_Some_range in Hv. }
  exists es1, es2, es3, bs1, bs2. split; [done|]. split; [done|]. split; [done|].
  split; [unfold aupd; rewrite Hv; mred; done|].
  assert (A3 : agree (SIZEOF_EDGE * alen E) es es3).
  { apply (agree_trans _ _ es1); [done|]. apply (agree_trans _ _ es2); [done|].
    intros i Hi. apply S3. unfold SIZEOF_EDGE, NEXT in *. lia. }
  split.
  - eapply list_ok_cons; [exact Hok|done|lia|done| |exact Hlink|done|lia| | |].
    + destruct F2 as (? & ? & ?). unfold fields, NEXT, YMAX, OR, SLOPE in *. rewrite !S3 by lia. done.
    + rewrite O4 by lia. done.
    + intros y Hy Hne. rewrite O4, H3 by lia. done.
    + intros y Hy. destruct (lo_bucket _ _ _ _ _ Hok y Hy) as (_ & _ & _ & Hwy). rewrite bucket_word_cons by lia.
      destruct (Z.eqb_spec (first e) y) as [<-|Hf]; [rewrite O4 by lia; done|].
      destruct (Z.eqb_spec (last e) y) as [<-|Hl].
      * rewrite V4. rewrite H3 in Hv by lia. congruence.
      * rewrite O4, H3 by lia. done.
  - intros k e' H'. cbn [indexed] in H'. apply elem_of_cons in H' as [H'|H'].
    + simplify_eq. rewrite S3 by (unfold NEXT, CURX; lia). done.
    + pose proof (indexed_bounds _ _ _ H') as [Hk _]. rewrite A3 by (unfold SIZEOF_EDGE, CURX; lia). by apply Hst.
Qed.

(** ** The renderer *)

(** The renderer holds the edges [E]; the sample rows span theirs. *)
Record scene (r : Renderer) (E : list Edge) : Prop := {
  sc_list : list_ok (boundsMinY r) (boundsMaxY r) (edges r) (edgeBuckets r) E;
  sc_start : at_start (edges r) E;
  sc_count : numEdges r = alen E;
  sc_rows : Forall (fun e => sampleRowMin r <= first e /\ last e <= sampleRowMax r) E;
  sc_min : boundsMinY r <= sampleRowMin r;
  sc_max : sampleRowMax r <= boundsMaxY r;
  sc_empty : E = [] -> sampleRowMin r = boundsMaxY r /\ sampleRowMax r = boundsMinY r;
  sc_tight : E <> [] -> sampleRowMin r < sampleRowMax r }.

(** The parts of a renderer that [addLine] leaves alone. *)
Definition same_frame (r r' : Renderer) : Prop :=
  boundsMinX r' = boundsMinX r /\ boundsMinY r' = boundsMinY r /\ boundsMaxX r' = boundsMaxX r /\
  boundsMaxY r' = boundsMaxY r /\ windingRule r' = windingRule r /\ x0 r' = x0 r /\ y0 r' = y0 r /\
  pix_sx0 r' = pix_sx0 r /\ pix_sy0 r' = pix_sy0 r /\ curve r' = curve r.

#[global] Instance same_frame_preorder : PreOrder same_frame.
Proof.
  split; [by intros r; repeat split|].
  intros a b c Hab Hbc. unfold same_frame in *. destruct_and!. repeat split; congruence.
Qed.

(** Room for one more edge: its links are integers a [jfloat] represents. *)
Definition has_room (E : list Edge) : Prop := SIZEOF_EDGE * alen E + SIZEOF_EDGE < 2 ^ 24.

Definition opt_cons {A} (o : option A) (l : list A) : list A := match o with Some a => a :: l | None => l end.

Lemma widen_frame s xa xb r :
  let r' := widen s xa xb r in
  same_frame r r' /\ edges r' = edges r /\ edgeBuckets r' = edgeBuckets r /\ numEdges r' = numEdges r /\
  sampleRowMin r' = sampleRowMin r /\ sampleRowMax r' = sampleRowMax r.
Proof. unfold widen. by destruct (flt f_zero s). Qed.

Lemma Math_max_spec a b : Math_max a b = Z.max a b.
Proof. unfold Math_max. cases. Qed.
Lemma Math_min_spec a b : Math_min a b = Z.min a b.
Proof. unfold Math_min. cases. Qed.

(** A line from the upper point to the lower one that crosses some row. *)
Lemma add_crossing_line r E e x1 x2 : scene r E -> has_room E ->
  boundsMinY r <= first e < last e -> last e <= boundsMaxY r ->
  let r1 := widen (slope e) x1 x2 (set_rows (if first e <? sampleRowMin r then first e else sampleRowMin r)
               (if last e >? sampleRowMax r then last e else sampleRowMax r) r) in
  exists es1 es2 es3 bs1 bs2,
    grow_edges (i32 (numEdges r1 * SIZEOF_EDGE)) (edges r1) = Some es1 /\
    add_edge (i32 (numEdges r1 * SIZEOF_EDGE)) (or_field (down e)) (start e) (slope e) (of_int (last e)) es1 = Some es2 /\
    addEdgeToBucket (i32 (numEdges r1 * SIZEOF_EDGE)) (first e - boundsMinY r1) es2 (edgeBuckets r1) = Some (es3, bs1) /\
    aupd bs1 ((last e - boundsMinY r1) * 2 + 1) (fun n => Some (n .| 1)) = Some bs2 /\
    scene (set_edges es3 bs2 (i32 (numEdges r1 + 1)) r1) (e :: E) /\
    same_frame r (set_edges es3 bs2 (i32 (numEdges r1 + 1)) r1).
Proof.
  intros [Hl Hst Hn Hr Hmin Hmax He0 Ht] Hroom Hf Hla r1.
  destruct (widen_frame (slope e) x1 x2 (set_rows (if first e <? sampleRowMin r then first e else sampleRowMin r)
               (if last e >? sampleRowMax r then last e else sampleRowMax r) r)) as (Hsf & He & Hb & Hnum & Hlo & Hhi).
  fold r1 in Hsf, He, Hb, Hnum, Hlo, Hhi. cbn [edges edgeBuckets numEdges sampleRowMin sampleRowMax set_rows] in *.
  assert (Hfr : same_frame r r1) by (etrans; [|exact Hsf]; by repeat split).
  assert (HY : boundsMinY r1 = boundsMinY r /\ boundsMaxY r1 = boundsMaxY r) by (unfold same_frame in Hfr; tauto).
  destruct HY as [HY1 HY2].
  pose proof (alen_nonneg E). unfold has_room in Hroom.
  assert (Hptr : i32 (numEdges r1 * SIZEOF_EDGE) = SIZEOF_EDGE * alen E).
  { rewrite Hnum, Hn. unfold SIZEOF_EDGE in *. rewrite i32_id by (unfold in_i32; lia). lia. }
  assert (Hcnt : i32 (numEdges r1 + 1) = alen (e :: E)).
  { rewrite Hnum, Hn, alen_cons. unfold SIZEOF_EDGE in *. apply i32_id. unfold in_i32. lia. }
  destruct (store_edge (boundsMinY r) (boundsMaxY r) (edges r) (edgeBuckets r) E e) as
    (es1 & es2 & es3 & bs1 & bs2 & E1 & E2 & E3 & E4 & Hl' & Hst'); [done|done|lia|done|].
  exists es1, es2, es3, bs1, bs2. rewrite Hptr, He, Hb, Hcnt, HY1.
  split; [done|]. split; [done|]. split; [done|]. split; [done|]. split; [|etrans; [exact Hfr|by repeat split]].
  split; cbn [edges edgeBuckets numEdges sampleRowMin sampleRowMax set_edges boundsMinY boundsMaxY];
    rewrite ?Hlo, ?Hhi, ?HY1, ?HY2; try done.
  - constructor; [cases|]. eapply Forall_impl; [|exact Hr]. simpl. intros e' ?. cases.
  - cases.
  - cases.
  - intros _. destruct E as [|e' E']; [destruct (He0 eq_refl)|specialize (Ht ltac:(done))]; cases.
Qed.

(** [addLine] adds the edge of the line, if it has one. *)
Lemma addLine_spec xa ya xb yb r E : scene r E -> has_room E ->
  exists r', addLine xa ya xb yb r = Some r' /\
    scene r' (opt_cons (line_edge (boundsMinY r) (boundsMaxY r) (xa, ya, xb, yb)) E) /\ same_frame r r'.
Proof.
  intros Hsc Hroom. unfold addLine, line_edge.
  set (d := negb (flt yb ya)).
  assert (Hd : (if flt yb ya then (f_zero, xb, yb, xa, ya) else (f_one, xa, ya, xb, yb)) =
    (or_field d, (if d then xa else xb), (if d then ya else yb), (if d then xb else xa), (if d then yb else ya)))
    by (unfold d; by destruct (flt yb ya)).
  assert (Hd' : (if d then (xa, ya, xb, yb) else (xb, yb, xa, ya)) =
    (if d then xa else xb, if d then ya else yb, if d then xb else xa, if d then yb else ya)) by (by destruct d).
  rewrite Hd, Hd'. clear Hd Hd'.
  generalize (if d then xa else xb) (if d then ya else yb) (if d then xb else xa) (if d then yb else ya).
  clearbody d. clear xa ya xb yb. intros x1 y1 x2 y2.
  rewrite Math_max_spec, Math_min_spec, Z.geb_leb. fold (row y1) (row y2).
  set (f := Z.max (row y1) (boundsMinY r)). set (l := Z.min (row y2) (boundsMaxY r)).
  destruct (Z.leb_spec l f) as [Hle|Hlt]; destruct (Z.ltb_spec f l); try lia; cbn [opt_cons].
  { exists r. split; [done|]. split; [done|reflexivity]. }
  set (s := fdiv (fsub x2 x1) (fsub y2 y1)).
  set (e := mkEdge f l d (fadd x1 (fmul (fsub (fadd (of_int f) f_half) y1) s)) s).
  destruct (add_crossing_line r E e x1 x2) as (es1 & es2 & es3 & bs1 & bs2 & E1 & E2 & E3 & E4 & Hsc' & Hfr);
    [done|done|cbn; lia|cbn; lia|].
  cbn [first last down start slope e] in E1, E2, E3, E4, Hsc', Hfr.
  rewrite E1. mred. rewrite E2. mred. rewrite E3. mred. rewrite E4. mred. eauto.
Qed.
