(* ===== verification/PrismScan.v ===== *)
(** * The scanline iterator

    [ScanlineIterator_next] yields, for every sample row, the crossings of exactly the
    edges that are live in it, in ascending order ([next_spec]); it visits the rows in
    order and never leaves its arrays. *)

From stdpp Require Import sorting.
From S2P Require Import Prelude.
From S2P Require Import Float32.
From S2P Require Import Float32Spec.
From S2P Require Import PrismRenderer.
From S2P Require Import PrismCoverage.
From S2P Require Import PrismEdges.

(** ** Crossings of an edge *)

(** Where the edge crosses row [y]: its slope is added once per row. *)
Definition crossing_at (e : Edge) (y : Z) : jfloat :=
  Nat.iter (Z.to_nat (y - first e)) (fun c => fadd c (slope e)) (start e).

(** The crossing as the iterator reports it. *)
Definition code (e : Edge) (y : Z) : Z :=
  let c := i32 (jint_ceil (fsub (crossing_at e y) f_half) << 1) in
  if down e then c .| 1 else c.

Definition live (y : Z) (e : Edge) : Prop := first e <= y < last e.
#[global] Instance live_dec y e : Decision (live y e).
Proof. unfold live. apply _. Defined.

(** The crossings of row [y]. *)
Definition row_codes (E : list Edge) (y : Z) : list Z := (fun e => code e y) <$> filter (live y) E.

(** The live edges with their numbers; [ptr] is the index of an edge in the array. *)
Definition active (E : list Edge) (y : Z) : list (Z * Edge) := filter (fun ke => live y ke.2) (indexed E).
Definition ptr (ke : Z * Edge) : Z := SIZEOF_EDGE * ke.1.

Lemma active_edges E y : snd <$> active E y = filter (live y) E.
Proof.
  unfold active. induction E as [|e E IH]; [done|]. cbn [indexed]. rewrite !filter_cons. cbn [snd].
  destruct (decide (live y e)); cbn; [f_equal|]; exact IH.
Qed.

Lemma crossing_step e y : first e <= y -> crossing_at e (y + 1) = fadd (crossing_at e y) (slope e).
Proof. intros. unfold crossing_at. by replace (Z.to_nat (y + 1 - first e)) with (S (Z.to_nat (y - first e))) by lia. Qed.

(** ** Arrays with a known prefix *)

Section prefix.
Context {A : Type}.
Implicit Types (l : list A) (v : A).

Lemma alen_nil : alen (@nil A) = 0.
Proof. done. Qed.

Lemma alen_snoc l v : alen (l ++ [v]) = alen l + 1.
Proof. apply alen_app. Qed.

Lemma aget_middle l v l' : aget (l ++ v :: l') (alen l) = Some v.
Proof. rewrite aget_lookup by apply alen_nonneg. unfold alen. rewrite Nat2Z.id. by apply list_lookup_middle. Qed.

Lemma aset_middle l v l' v' : aset (l ++ v :: l') (alen l) v' = Some (l ++ v' :: l').
Proof.
  unfold aset, alen. rewrite length_app. cbn [length].
  destruct (Z.leb_spec 0 (Z.of_nat (length l))), (Z.ltb_spec (Z.of_nat (length l)) (Z.of_nat (length l + S (length l'))));
    try lia; simpl. rewrite Nat2Z.id. f_equal. rewrite insert_app_r_alt, Nat.sub_diag by lia. done.
Qed.
End prefix.

Lemma alen_fmap {A B} (f : A -> B) l : alen (f <$> l) = alen l.
Proof. unfold alen. by rewrite length_fmap. Qed.

Create Rewrite HintDb alen.
#[export] Hint Rewrite @alen_nil @alen_snoc @alen_app @alen_cons @alen_fmap : alen.

(** ** Edges that end and edges that start *)

Section rows.
Context (E : list Edge) (es : list jfloat) (y : Z).
Hypothesis Hfields : forall k e, (k, e) ∈ indexed E -> fields es k e.
Hypothesis Hsmall : - 2 ^ 24 < y < 2 ^ 24.
Hypothesis Hrows : Forall (fun e => - 2 ^ 24 < last e < 2 ^ 24) E.

Definition keeps (ke : Z * Edge) : Prop := y < last ke.2.
#[global] Instance keeps_dec ke : Decision (keeps ke).
Proof. unfold keeps. apply _. Defined.

Lemma keeps_test k e : (k, e) ∈ indexed E ->
  exists v, aget es (ptr (k, e) + YMAX) = Some v /\ flt (of_int y) v = bool_decide (keeps (k, e)).
Proof.
  intros H. destruct (Hfields k e H) as (Hy & _). exists (of_int (last e)). split; [done|].
  pose proof (proj1 (Forall_forall _ _) Hrows e) as Hr. destruct (indexed_bounds _ _ _ H) as [_ He].
  rewrite flt_of_int; [|done|apply Hr; by apply list_elem_of_In]. unfold keeps. cbn [snd].
  destruct (Z.ltb_spec y (last e)); symmetry; [by apply bool_decide_eq_true_2|apply bool_decide_eq_false_2; lia].
Qed.

(** The loop of [drop_ended]: the edges kept so far, those to look at. *)
Lemma drop_ended_loop todo kept mid rest : todo ⊆ indexed E ->
  exists mid',
    for_from (length todo) (alen kept + alen mid)
      (fun i '(ptrs, newCount) =>
         ecur ← aget ptrs i;
         ymax ← aget es (ecur + YMAX);
         if flt (of_int y) ymax then ptrs ← aset ptrs newCount ecur; Some (ptrs, newCount + 1)
         else Some (ptrs, newCount))
      ((ptr <$> kept) ++ mid ++ (ptr <$> todo) ++ rest, alen kept) =
    Some ((ptr <$> (kept ++ filter keeps todo)) ++ mid' ++ rest, alen (kept ++ filter keeps todo)) /\
    alen kept + alen mid + alen todo = alen (kept ++ filter keeps todo) + alen mid'.
Proof.
  revert kept mid. induction todo as [|[k e] todo IH]; intros kept mid Hsub.
  { exists mid. cbn. rewrite app_nil_r. autorewrite with alen. split; [done|]. unfold alen. simpl. lia. }
  cbn [length for_from]. rewrite fmap_cons.
  destruct (keeps_test k e) as (v & Hv & Ht); [apply Hsub; left|].
  assert (Hget : aget ((ptr <$> kept) ++ mid ++ (ptr (k, e) :: (ptr <$> todo)) ++ rest) (alen kept + alen mid) = Some (ptr (k, e))).
  { rewrite app_assoc. cbn [app]. rewrite <- (aget_middle ((ptr <$> kept) ++ mid) (ptr (k, e)) ((ptr <$> todo) ++ rest)).
    f_equal. by autorewrite with alen. }
  rewrite Hget. mred. rewrite Hv. mred. rewrite Ht, filter_cons.
  assert (Hsub' : todo ⊆ indexed E) by (intros x ?; apply Hsub; by right).
  destruct (decide (keeps (k, e))) as [Hk|Hk].
  - rewrite bool_decide_eq_true_2 by done.
    destruct (mid ++ [ptr (k, e)]) as [|m mid'] eqn:Em; [by destruct mid|].
    replace ((ptr <$> kept) ++ mid ++ (ptr (k, e) :: (ptr <$> todo)) ++ rest)
      with ((ptr <$> kept) ++ m :: mid' ++ (ptr <$> todo) ++ rest).
    2: { f_equal. change (m :: mid' ++ (ptr <$> todo) ++ rest) with ((m :: mid') ++ (ptr <$> todo) ++ rest).
         rewrite <- Em, <- app_assoc. done. }
    assert (Hset : aset ((ptr <$> kept) ++ m :: mid' ++ (ptr <$> todo) ++ rest) (alen kept) (ptr (k, e)) =
      Some ((ptr <$> kept) ++ ptr (k, e) :: mid' ++ (ptr <$> todo) ++ rest)) by (rewrite <- (alen_fmap ptr kept); apply aset_middle).
    rewrite Hset. mred. clear Hset.
    destruct (IH (kept ++ [(k, e)]) mid' Hsub') as (mid2 & E2 & L2). exists mid2.
    assert (Hlen : alen mid' = alen mid).
    { apply (f_equal alen) in Em. autorewrite with alen in Em. lia. }
    replace (alen kept + alen mid + 1) with (alen (kept ++ [(k, e)]) + alen mid')
      by (autorewrite with alen; lia).
    replace (alen kept + 1) with (alen (kept ++ [(k, e)])) by (autorewrite with alen; lia).
    replace ((ptr <$> kept) ++ ptr (k, e) :: mid' ++ (ptr <$> todo) ++ rest)
      with ((ptr <$> (kept ++ [(k, e)])) ++ mid' ++ (ptr <$> todo) ++ rest) by (rewrite fmap_app, <- app_assoc; done).
    rewrite E2. replace (kept ++ (k, e) :: filter keeps todo) with ((kept ++ [(k, e)]) ++ filter keeps todo) by (by rewrite <- app_assoc).
    split; [done|]. autorewrite with alen in *. lia.
  - rewrite bool_decide_eq_false_2 by done. cbv iota. mred.
    destruct (IH kept (mid ++ [ptr (k, e)]) Hsub') as (mid2 & E2 & L2). exists mid2.
    replace (alen kept + alen mid + 1) with (alen kept + alen (mid ++ [ptr (k, e)])) by (autorewrite with alen; lia).
    replace ((ptr <$> kept) ++ mid ++ (ptr (k, e) :: (ptr <$> todo)) ++ rest)
      with ((ptr <$> kept) ++ (mid ++ [ptr (k, e)]) ++ (ptr <$> todo) ++ rest) by (rewrite <- app_assoc; done).
    rewrite E2. split; [done|]. autorewrite with alen in *. lia.
Qed.

Lemma drop_ended_spec ks rest : ks ⊆ indexed E ->
  exists rest', drop_ended y es (alen ks) ((ptr <$> ks) ++ rest) =
    Some ((ptr <$> filter keeps ks) ++ rest', alen (filter keeps ks)) /\
    alen ks + alen rest = alen (filter keeps ks) + alen rest'.
Proof.
  intros Hsub. destruct (drop_ended_loop ks [] [] rest Hsub) as (mid & Ed & Hl).
  exists (mid ++ rest). unfold drop_ended, for_lt. unfold alen at 1. rewrite Nat2Z.id.
  cbn [fmap list_fmap app] in Ed, Hl. split; [exact Ed|]. autorewrite with alen in *. lia.
Qed.
End rows.

Lemma grow_ptrs_spec ks rest needed : 0 <= needed < 2 ^ 30 -> alen ks <= needed ->
  exists rest', grow_ptrs needed (alen ks) ((ptr <$> ks) ++ rest) = Some ((ptr <$> ks) ++ rest') /\
    needed <= alen ks + alen rest'.
Proof.
  intros Hn Hk. unfold grow_ptrs. pose proof (alen_nonneg ks).
  destruct (Z.ltb_spec (alen ((ptr <$> ks) ++ rest)) needed) as [Hlt|Hge]; autorewrite with alen in *; [|by exists rest].
  rewrite i32_id by (unfold in_i32; lia).
  destruct (copy_spec ((ptr <$> ks) ++ rest) (new_int (needed * 2)) (alen ks)) as (m & -> & Hl & Hm);
    [lia|autorewrite with alen; pose proof (alen_nonneg rest); lia|unfold new_int; rewrite alen_new; lia|].
  unfold new_int in Hl. rewrite alen_new in Hl by lia. unfold alen in Hl.
  exists (drop (length ks) m). split.
  - f_equal. rewrite <- (take_drop (length ks) m) at 1. f_equal. apply list_eq. intros i.
    destruct (Nat.lt_ge_cases i (length ks)) as [Hi|Hi].
    + rewrite lookup_take_lt by done. specialize (Hm (Z.of_nat i)). rewrite !aget_lookup, Nat2Z.id in Hm by lia.
      rewrite Hm. unfold alen in *.
      destruct (Z.leb_spec 0 (Z.of_nat i)), (Z.ltb_spec (Z.of_nat i) (Z.of_nat (length ks))); try lia; simpl.
      rewrite lookup_app_l; [done|]. rewrite length_fmap. lia.
    + rewrite lookup_take_ge, lookup_ge_None_2; [done| |done]. rewrite length_fmap. lia.
  - unfold alen in *. rewrite length_drop. lia.
Qed.

(** The chain of the row is appended. *)
Lemma add_bucket_spec es ks : forall fuel link pre rest, (length ks <= fuel)%nat ->
  chain es link ks -> alen ks <= alen rest -> Forall (fun k => 0 <= k /\ SIZEOF_EDGE * k + 1 < 2 ^ 24) ks ->
  exists rest', add_bucket fuel es link (alen pre) (pre ++ rest) =
    Some (pre ++ ((fun k => SIZEOF_EDGE * k) <$> ks) ++ rest', alen pre + alen ks) /\
    alen rest = alen ks + alen rest'.
Proof.
  unfold add_bucket. induction ks as [|k ks IH]; intros fuel link pre rest Hf Hc Hr Hk.
  { cbn in Hc. subst link. exists rest. split; [|by autorewrite with alen].
    destruct fuel; cbn [while_fuel ctrue Z.eqb negb]; mred; autorewrite with alen; rewrite Z.add_0_r; done. }
  destruct fuel as [|fuel]; [cbn in Hf; lia|]. cbn in Hc. destruct Hc as (-> & n & Hn & Hc).
  apply Forall_cons_1 in Hk as [Hk Hks]. autorewrite with alen in *. pose proof (alen_nonneg ks).
  destruct rest as [|r0 rest]; [autorewrite with alen in *; lia|]. autorewrite with alen in *.
  cbn [while_fuel]. unfold SIZEOF_EDGE in *.
  assert (Ht : ctrue (5 * k + 1) = true) by (unfold ctrue; destruct (Z.eqb_spec (5 * k + 1) 0); [lia|done]).
  rewrite Ht. replace (5 * k + 1 - 1) with (5 * k) by lia. rewrite aset_middle. mred. rewrite Hn. mred.
  assert (Hnb : - 2 ^ 24 < n < 2 ^ 24).
  { destruct ks as [|k' ks]; cbn in Hc; [lia|]. destruct Hc as [-> _]. apply Forall_cons_1 in Hks as [? _]. unfold SIZEOF_EDGE. lia. }
  rewrite (to_jint_of_int n Hnb).
  destruct (IH fuel n (pre ++ [5 * k]) rest) as (rest' & Ei & Hl); [cbn in Hf; lia|done|lia|done|].
  exists rest'. rewrite alen_snoc, <- app_assoc in Ei. cbn [app] in Ei. rewrite Ei. split; [|lia].
  rewrite <- app_assoc. cbn [app]. rewrite fmap_cons. do 2 f_equal. lia.
Qed.

(** ** Sorting *)

(** Crossings with their pointers, ordered by the crossing. *)
Definition cross_le (a b : Z * Z) : Prop := a.1 <= b.1.

#[global] Instance cross_le_trans : Transitive cross_le.
Proof. unfold cross_le. intros ? ? ?. lia. Qed.

(** [shift_up] moves the larger crossings up by one place and stops before the others. *)
Lemma shift_up_spec c qs : forall hx hp xr pr,
  exists qs1 qs2 hx' hp', qs = qs1 ++ qs2 /\ Forall (fun q => c < q.1) qs2 /\
    (forall q qs', qs1 = qs' ++ [q] -> q.1 <= c) /\
    shift_up (length qs) c ((fst <$> qs) ++ hx :: xr) ((snd <$> qs) ++ hp :: pr) =
    Some (alen qs1 - 1, (fst <$> qs1) ++ hx' :: (fst <$> qs2) ++ xr, (snd <$> qs1) ++ hp' :: (snd <$> qs2) ++ pr).
Proof.
  induction qs as [|q qs IH] using rev_ind; intros hx hp xr pr.
  { exists [], [], hx, hp. split; [done|]. split; [done|]. split; [|done]. intros q qs' H. by destruct qs'. }
  rewrite length_app, Nat.add_1_r. cbn [shift_up]. rewrite !fmap_app, <- !app_assoc. cbn [fmap list_fmap app].
  replace (Z.of_nat (length qs)) with (alen (fst <$> qs)) by apply alen_fmap. rewrite aget_middle. mred.
  destruct (Z.leb_spec q.1 c) as [Hle|Hgt].
  - exists (qs ++ [q]), [], hx, hp. rewrite app_nil_r. split; [done|]. split; [done|].
    split; [intros q' qs' H; by apply app_inj_2 in H as [_ [= ->]]|].
    rewrite !fmap_app, <- !app_assoc. cbn [fmap list_fmap app]. do 3 f_equal. autorewrite with alen. lia.
  - replace (aget ((snd <$> qs) ++ q.2 :: hp :: pr) (alen (fst <$> qs))) with (Some q.2)
      by (rewrite (alen_fmap fst), <- (alen_fmap snd), aget_middle; done).
    mred.
    assert (Hx : aset ((fst <$> qs) ++ q.1 :: hx :: xr) (alen (fst <$> qs) + 1) q.1 = Some ((fst <$> qs) ++ q.1 :: q.1 :: xr)).
    { pose proof (aset_middle ((fst <$> qs) ++ [q.1]) hx xr q.1) as H. rewrite alen_snoc, <- !app_assoc in H. exact H. }
    assert (Hp : aset ((snd <$> qs) ++ q.2 :: hp :: pr) (alen (fst <$> qs) + 1) q.2 = Some ((snd <$> qs) ++ q.2 :: q.2 :: pr)).
    { pose proof (aset_middle ((snd <$> qs) ++ [q.2]) hp pr q.2) as H. rewrite alen_snoc, <- !app_assoc, !alen_fmap in *. exact H. }
    rewrite Hx. mred. rewrite Hp. mred.
    destruct (IH q.1 q.2 (q.1 :: xr) (q.2 :: pr)) as (qs1 & qs2 & hx' & hp' & -> & Hf & Hl & ->).
    exists qs1, (qs2 ++ [q]), hx', hp'. split; [by rewrite app_assoc|].
    split; [apply Forall_app; split; [done|by repeat constructor]|]. split; [done|].
    by rewrite !fmap_app, <- !app_assoc.
Qed.

(** The crossing goes between the two parts. *)
Lemma insert_sorted qs1 qs2 c p : StronglySorted cross_le (qs1 ++ qs2) -> Forall (fun q => c < q.1) qs2 ->
  (forall q qs', qs1 = qs' ++ [q] -> q.1 <= c) -> StronglySorted cross_le (qs1 ++ (c, p) :: qs2).
Proof.
  intros Hs H2 H1. apply StronglySorted_app in Hs as (Hx & Hs1 & Hs2).
  assert (Hle : forall q, q ∈ qs1 -> q.1 <= c).
  { destruct qs1 as [|q' qs' _] using rev_ind; [intros q Hq; by apply elem_of_nil in Hq|].
    specialize (H1 q' qs' eq_refl). intros q [Hq|Hq%list_elem_of_singleton]%elem_of_app; [|by subst].
    apply StronglySorted_app in Hs1 as (Hs1 & _). specialize (Hs1 q q' Hq ltac:(by left)). unfold cross_le in Hs1. lia. }
  apply StronglySorted_app_2; [|done|].
  - intros q q' Hq [->|Hq']%elem_of_cons; [by apply Hle|by apply Hx].
  - constructor; [done|]. eapply Forall_impl; [|exact H2]. unfold cross_le. simpl. lia.
Qed.

Lemma sorted_ascending qs : StronglySorted cross_le qs -> ascending (fst <$> qs).
Proof.
  intros Hs i j a b Hij Ha Hb. apply list_lookup_fmap_Some in Ha as (q & -> & Hq).
  apply list_lookup_fmap_Some in Hb as (q' & -> & Hq').
  destruct (decide (i = j)) as [->|Hne]; [by simplify_eq|].
  rewrite <- (take_drop (S i) qs) in Hs. apply StronglySorted_app in Hs as (Hs & _).
  apply (Hs q q').
  - apply list_elem_of_lookup. exists i. by rewrite lookup_take_lt by lia.
  - apply list_elem_of_lookup. exists (j - S i)%nat. rewrite lookup_drop. by replace (S i + (j - S i))%nat with j by lia.
Qed.

Section sorting.
Context (E : list Edge) (es0 : list jfloat) (y : Z).
Hypothesis Hroom : SIZEOF_EDGE * alen E <= alen es0.
Hypothesis Hfields : forall k e, (k, e) ∈ indexed E -> fields es0 k e.

(** The edges with the numbers in [done] have moved on to the next row. *)
Definition advanced (es : list jfloat) (done : list Z) : Prop :=
  alen es = alen es0 /\ (forall i, i mod SIZEOF_EDGE <> CURX -> aget es i = aget es0 i) /\
  forall k e, (k, e) ∈ indexed E ->
    aget es (SIZEOF_EDGE * k + CURX) = Some (crossing_at e (if decide (k ∈ done) then y + 1 else Z.min y (last e))).

Lemma field_mod k i : 0 <= i < SIZEOF_EDGE -> (SIZEOF_EDGE * k + i) mod SIZEOF_EDGE = i.
Proof. intros. rewrite Z.add_comm, Z.mul_comm, Z.mod_add by (unfold SIZEOF_EDGE; lia). by apply Z.mod_small. Qed.

Lemma advanced_fields es done k e : advanced es done -> (k, e) ∈ indexed E -> fields es k e.
Proof.
  intros (_ & Hs & _) H. destruct (Hfields k e H) as (H1 & H2 & H3). unfold fields.
  rewrite !Hs by (rewrite field_mod; unfold YMAX, OR, SLOPE, CURX, SIZEOF_EDGE; lia). done.
Qed.

Lemma cross_edge_spec es done k e : advanced es done -> (k, e) ∈ indexed E -> live y e -> k ∉ done ->
  exists es', cross_edge es (ptr (k, e)) = Some (code e y, es') /\ advanced es' (k :: done).
Proof.
  intros Ha Hk Hl Hd. destruct (advanced_fields _ _ _ _ Ha Hk) as (_ & Hor & Hsl). destruct Ha as (Hlen & Hs & Hc).
  destruct (indexed_bounds _ _ _ Hk) as [Hb _].
  assert (Hcur : aget es (ptr (k, e) + CURX) = Some (crossing_at e y)).
  { pose proof (Hc k e Hk) as H. rewrite decide_False in H by done. rewrite Z.min_l in H by (unfold live in Hl; lia). done. }
  unfold cross_edge. rewrite Hcur. mred. unfold ptr in *. cbn [fst] in *. rewrite Hsl. mred. rewrite Hor. mred.
  destruct (aset_step es (SIZEOF_EDGE * k + CURX) (fadd (crossing_at e y) (slope e))) as (es' & -> & L & V & O).
  { unfold SIZEOF_EDGE, CURX in *. lia. }
  mred. exists es'. split; [unfold code; by destruct (down e)|]. split; [lia|]. split.
  - intros i Hi. rewrite O; [by apply Hs|]. intros ->. rewrite field_mod in Hi; [done|unfold CURX, SIZEOF_EDGE; lia].
  - intros k' e' H'. destruct (Z.eq_dec k' k) as [->|Hne].
    + rewrite decide_True by (by left). rewrite V. f_equal.
      assert (e' = e) as -> by (eapply indexed_unique; done). symmetry. apply crossing_step. unfold live in Hl. lia.
    + rewrite O by (unfold SIZEOF_EDGE; lia). rewrite (Hc _ _ H'). do 2 f_equal.
      destruct (decide (k' ∈ done)) as [Hi|Hi]; [rewrite decide_True by (by right)|rewrite decide_False]; [done|done|].
      by intros [?|?]%elem_of_cons.
Qed.

(** One edge is inserted among the crossings of those before it. *)
Lemma sort_crossing_spec qs done es hx xr k e ps : advanced es done -> (k, e) ∈ indexed E -> live y e -> k ∉ done ->
  StronglySorted cross_le qs ->
  exists qs' es', sort_crossing (alen qs) ((fst <$> qs) ++ hx :: xr, (snd <$> qs) ++ ptr (k, e) :: ps, es) =
      Some ((fst <$> qs') ++ xr, (snd <$> qs') ++ ps, es') /\
    StronglySorted cross_le qs' /\ qs' ≡ₚ (code e y, ptr (k, e)) :: qs /\ advanced es' (k :: done).
Proof.
  intros Ha Hin Hl Hk Hs. unfold sort_crossing.
  replace (aget ((snd <$> qs) ++ ptr (k, e) :: ps) (alen qs)) with (Some (ptr (k, e)))
    by (rewrite <- (alen_fmap snd qs), aget_middle; done). mred.
  destruct (cross_edge_spec es done k e Ha Hin Hl Hk) as (es' & -> & Ha'). mred.
  replace (Z.to_nat (alen qs)) with (length qs) by (unfold alen; lia).
  destruct (shift_up_spec (code e y) qs hx (ptr (k, e)) xr ps) as (qs1 & qs2 & hx' & hp' & -> & Hq2 & Hq1 & ->). mred.
  replace (alen qs1 - 1 + 1) with (alen qs1) by lia.
  exists (qs1 ++ (code e y, ptr (k, e)) :: qs2), es'. split.
  - rewrite <- (alen_fmap fst qs1) at 1. rewrite aset_middle. mred. rewrite <- (alen_fmap snd qs1) at 1. rewrite aset_middle. mred.
    by rewrite !fmap_app, <- !app_assoc.
  - split; [by apply insert_sorted|]. split; [symmetry; apply Permutation_middle|done].
Qed.

Lemma sort_loop todo : forall qs done es xr pr,
  todo ⊆ indexed E -> Forall (fun ke => live y ke.2) todo -> NoDup (fst <$> todo) ->
  (forall k, k ∈ fst <$> todo -> k ∉ done) -> alen todo <= alen xr ->
  StronglySorted cross_le qs -> advanced es done ->
  exists qs' xr' es', for_from (length todo) (alen qs) sort_crossing
      ((fst <$> qs) ++ xr, (snd <$> qs) ++ (ptr <$> todo) ++ pr, es) =
    Some ((fst <$> qs') ++ xr', (snd <$> qs') ++ pr, es') /\
    StronglySorted cross_le qs' /\ qs' ≡ₚ qs ++ ((fun ke => (code ke.2 y, ptr ke)) <$> todo) /\
    advanced es' (reverse (fst <$> todo) ++ done).
Proof.
  induction todo as [|[k e] todo IH]; intros qs done es xr pr Hsub Hlive Hnd Hdone Hlen Hs Ha.
  { exists qs, xr, es. cbn [length for_from fmap list_fmap app]. rewrite app_nil_r. done. }
  cbn [length for_from]. rewrite fmap_cons in *. pose proof (NoDup_cons_1_1 _ _ Hnd) as Hk. apply NoDup_cons_1_2 in Hnd.
  apply Forall_cons_1 in Hlive as [Hl Hlive]. cbn [fst snd] in *.
  destruct xr as [|hx xr]; [autorewrite with alen in Hlen; pose proof (alen_nonneg todo); lia|].
  destruct (sort_crossing_spec qs done es hx xr k e ((ptr <$> todo) ++ pr)) as (qs1 & es1 & E1 & Hs1 & Hp1 & Ha1);
    [done|apply Hsub; left|done|apply Hdone; left|done|].
  cbn [app]. rewrite E1. mred.
  destruct (IH qs1 (k :: done) es1 xr pr) as (qs' & xr' & es' & Ei & Hs' & Hp & Ha').
  - intros x Hx. apply Hsub. by right.
  - done.
  - done.
  - intros k' Hk' [->|Hi]%elem_of_cons; [done|]. by apply (Hdone k'); [right|].
  - autorewrite with alen in Hlen. lia.
  - done.
  - done.
  - exists qs', xr', es'. assert (Hl1 : alen qs1 = alen qs + 1).
    { unfold alen. rewrite Hp1. cbn [length]. lia. }
    rewrite <- Hl1, Ei. split; [done|]. split; [done|]. split.
    + rewrite Hp, Hp1, !fmap_cons. cbn [fst snd app]. apply Permutation_middle.
    + rewrite fmap_cons, reverse_cons, <- app_assoc. done.
Qed.
End sorting.

(** ** The iterator *)

Definition starting (E : list Edge) (y : Z) : list (Z * Edge) := filter (fun ke => first ke.2 = y) (indexed E).

(** The edges of the row before that go on, and those that start, are the live ones. *)
Lemma live_step y (l : list (Z * Edge)) : Forall (fun ke => first ke.2 < last ke.2) l ->
  filter (keeps y) (filter (fun ke => live (y - 1) ke.2) l) ++ filter (fun ke => first ke.2 = y) l ≡ₚ
  filter (fun ke => live y ke.2) l.
Proof.
  induction l as [|[k e] l IH]; intros Hl; [done|]. apply Forall_cons_1 in Hl as [He Hl]. specialize (IH Hl). cbn [snd] in He.
  rewrite !(filter_cons _ (k, e)). cbn [snd]. unfold live in *.
  destruct (decide (first e <= y - 1 < last e)), (decide (first e = y)), (decide (first e <= y < last e)); try lia;
    rewrite ?filter_cons; try (rewrite decide_True by (unfold keeps; cbn; lia)); try (rewrite decide_False by (unfold keeps; cbn; lia)).
  all: cbn [app]; rewrite <- ?Permutation_middle, ?IH; done.
Qed.

Lemma keeps_all y (ks : list (Z * Edge)) : (forall ke, ke ∈ ks -> y < last ke.2) -> filter (keeps y) ks = ks.
Proof.
  intros H. induction ks as [|ke ks IH]; [done|]. rewrite filter_cons, decide_True by (apply H; left).
  f_equal. apply IH. intros x Hx. apply H. by right.
Qed.

Lemma filter_none {A} (P : A -> Prop) `{!forall x, Decision (P x)} l : (forall x, x ∈ l -> ~ P x) -> filter P l = [].
Proof.
  induction l as [|x l IH]; intros Hn; [done|]. rewrite filter_cons, decide_False by (apply Hn; left).
  apply IH. intros x' ?. apply Hn. by right.
Qed.

Lemma bucket_word_bits E y :
  ctrue (bucket_word E y & 1) = ends E y /\ bucket_word E y >> 1 = Z.of_nat (length (starts E y)).
Proof.
  unfold bucket_word. set (n := Z.of_nat _). rewrite (land_mask _ 1), shiftr_div by done. change (2 ^ 1) with 2.
  destruct (ends E y); (split; [|dlia]).
  - replace ((2 * n + 1) mod 2) with 1 by dlia. done.
  - replace ((2 * n + 0) mod 2) with 0 by dlia. done.
Qed.

(** Writes to the [CURX] fields leave the lists alone. *)
Lemma list_ok_curx minY maxY es es' bs E : alen es' = alen es ->
  (forall i, i mod SIZEOF_EDGE <> CURX -> aget es' i = aget es i) ->
  list_ok minY maxY es bs E -> list_ok minY maxY es' bs E.
Proof.
  intros Hlen Hs [Hroom Hf Hr Hsz Hb]. split; [lia| |done|done|].
  - intros k e H. destruct (Hf k e H) as (? & ? & ?). unfold fields.
    rewrite !Hs by (rewrite field_mod; unfold YMAX, OR, SLOPE, CURX, SIZEOF_EDGE; lia). done.
  - intros y Hy. destruct (Hb y Hy) as (link & Hl & Hc & Hw). exists link. split; [done|]. split; [|done].
    clear Hl. revert link Hc. induction (starts E y) as [|k ks IH]; intros link; cbn [chain]; [done|].
    intros (-> & n & Hn & Hc). split; [done|]. exists n. split; [|by apply IH].
    rewrite Hs; [done|]. rewrite field_mod; unfold NEXT, CURX, SIZEOF_EDGE; lia.
Qed.

(** The state of the iteration before row [y]. *)
Record scanning (r0 : Renderer) (E : list Edge) (y : Z) (it : ScanlineIterator) (r : Renderer) : Prop := {
  sn_list : list_ok (boundsMinY r) (boundsMaxY r) (edges r) (edgeBuckets r) E;
  sn_curx : forall k e, (k, e) ∈ indexed E ->
    aget (edges r) (SIZEOF_EDGE * k + CURX) = Some (crossing_at e (Z.min y (last e)));
  sn_count : numEdges r = alen E;
  sn_frame : same_frame r0 r /\ sampleRowMin r = sampleRowMin r0 /\ sampleRowMax r = sampleRowMax r0;
  sn_y : nextY it = y;
  sn_ptrs : exists ks rest, edgePtrs it = (ptr <$> ks) ++ rest /\ edgeCount it = alen ks /\ ks ≡ₚ active E (y - 1) }.

Lemma crossing_before e y : y <= first e -> crossing_at e y = start e.
Proof. intros. unfold crossing_at. by replace (Z.to_nat (y - first e)) with O by lia. Qed.

Lemma ScanlineIterator_init_spec r E : scene r E -> scanning r E (sampleRowMin r) (ScanlineIterator_init r) r.
Proof.
  intros [Hl Hst Hn Hr _ _ _ _]. split; [done| |done|by repeat split|done|].
  - intros k e H. rewrite (Hst k e H). f_equal. symmetry. apply crossing_before.
    destruct (indexed_bounds _ _ _ H) as [_ He%list_elem_of_In]. pose proof (proj1 (Forall_forall _ _) Hr e He) as []. lia.
  - exists [], (new_int INIT_CROSSINGS_SIZE). split; [done|]. split; [done|]. unfold active.
    rewrite filter_none; [done|]. intros [k e] H. cbn [snd]. unfold live.
    destruct (indexed_bounds _ _ _ H) as [_ He%list_elem_of_In]. pose proof (proj1 (Forall_forall _ _) Hr e He) as []. lia.
Qed.

Section next.
Context (r0 : Renderer) (E : list Edge).
Hypothesis Hfew : SIZEOF_EDGE * alen E < 2 ^ 24.
Hypothesis Hbounds : - 2 ^ 24 < boundsMinY r0 /\ boundsMaxY r0 < 2 ^ 24.

Lemma indexed_rows minY maxY es bs k e : list_ok minY maxY es bs E -> (k, e) ∈ indexed E ->
  minY <= first e < last e /\ last e <= maxY.
Proof.
  intros Hok [_ H%list_elem_of_In]%indexed_bounds. exact (proj1 (Forall_forall _ _) (lo_rows _ _ _ _ _ Hok) e H).
Qed.

Lemma active_sub y : active E y ⊆ indexed E.
Proof. intros ke H. by apply list_elem_of_filter in H as []. Qed.

(** Dropping the edges that end: the flag of the bucket says whether there are any. *)
Lemma next_drop minY maxY es bs y ks rest : list_ok minY maxY es bs E -> - 2 ^ 24 < minY -> maxY < 2 ^ 24 ->
  minY <= y < maxY -> ks ≡ₚ active E (y - 1) ->
  exists rest', (if ctrue (bucket_word E y & 1) then drop_ended y es (alen ks) ((ptr <$> ks) ++ rest)
                 else Some ((ptr <$> ks) ++ rest, alen ks)) =
    Some ((ptr <$> filter (keeps y) ks) ++ rest', alen (filter (keeps y) ks)).
Proof.
  intros Hok Hlo Hhi Hy Hp. destruct (bucket_word_bits E y) as [-> _].
  assert (Hsub : ks ⊆ indexed E) by (intros ke H; rewrite Hp in H; by apply active_sub in H).
  pose proof (lo_rows _ _ _ _ _ Hok) as Hr.
  destruct (ends E y) eqn:Hend.
  - destruct (drop_ended_spec E es y) with (ks := ks) (rest := rest) as (rest' & -> & _); [apply Hok|lia| |done|by exists rest'].
    eapply Forall_impl; [|exact Hr]. simpl. lia.
  - exists rest. rewrite keeps_all; [done|]. intros [k e] H. cbn [snd].
    pose proof (Hsub _ H) as Hi. rewrite Hp in H. apply list_elem_of_filter in H as [Hl _]. unfold live in Hl. cbn [snd] in Hl.
    destruct (indexed_bounds _ _ _ Hi) as [_ He]. destruct (Z.eq_dec (last e) y) as [Heq|]; [|lia].
    exfalso. apply not_true_iff_false in Hend. apply Hend. unfold ends. apply existsb_exists.
    exists e. split; [by apply list_elem_of_In|by apply Z.eqb_eq].
Qed.

(** Appending the edges that start. *)
Lemma next_add minY maxY es bs y ks rest link : list_ok minY maxY es bs E -> chain es link (starts E y) ->
  alen ks <= alen E ->
  exists rest1 rest2,
    grow_ptrs (alen ks + (bucket_word E y >> 1)) (alen ks) ((ptr <$> ks) ++ rest) = Some ((ptr <$> ks) ++ rest1) /\
    add_bucket (Z.to_nat (alen E)) es link (alen ks) ((ptr <$> ks) ++ rest1) =
    Some ((ptr <$> (ks ++ starting E y)) ++ rest2, alen (ks ++ starting E y)).
Proof.
  intros Hok Hc Hks. destruct (bucket_word_bits E y) as [_ ->]. fold (alen (starts E y)).
  pose proof (starts_length E y) as Hsl. fold (alen (starts E y)) in Hsl.
  pose proof (alen_nonneg ks). pose proof (alen_nonneg (starts E y)). unfold SIZEOF_EDGE in Hfew.
  destruct (grow_ptrs_spec ks rest (alen ks + alen (starts E y))) as (rest1 & Eg & Hl1); [lia|lia|].
  destruct (add_bucket_spec es (starts E y) (Z.to_nat (alen E)) link (ptr <$> ks) rest1) as (rest2 & Ea & _);
    [unfold alen in *; lia|done|lia| |].
  { eapply Forall_impl; [|apply starts_bounds]. unfold SIZEOF_EDGE. simpl. lia. }
  exists rest1, rest2. split; [exact Eg|]. rewrite alen_fmap in Ea. rewrite Ea.
  assert (Hst : (fun k => SIZEOF_EDGE * k) <$> starts E y = ptr <$> starting E y).
  { unfold starts, starting. rewrite <- list_fmap_compose. done. }
  rewrite Hst, fmap_app, <- app_assoc. do 2 f_equal.
  rewrite alen_app. f_equal. unfold starts. by rewrite alen_fmap.
Qed.

(** Sorting the live edges, which move on to the next row. *)
Lemma next_sort minY maxY es bs y all xings rest : list_ok minY maxY es bs E ->
  (forall k e, (k, e) ∈ indexed E -> aget es (SIZEOF_EDGE * k + CURX) = Some (crossing_at e (Z.min y (last e)))) ->
  all ≡ₚ active E y -> alen all <= alen xings ->
  exists ks' xr es', for_lt (alen all) sort_crossing (xings, (ptr <$> all) ++ rest, es) =
      Some (((fun ke => code ke.2 y) <$> ks') ++ xr, (ptr <$> ks') ++ rest, es') /\
    ascending ((fun ke => code ke.2 y) <$> ks') /\ ks' ≡ₚ active E y /\ alen es' = alen es /\
    (forall i, i mod SIZEOF_EDGE <> CURX -> aget es' i = aget es i) /\
    (forall k e, (k, e) ∈ indexed E -> aget es' (SIZEOF_EDGE * k + CURX) = Some (crossing_at e (Z.min (y + 1) (last e)))).
Proof.
  intros Hok Hcur Hall Hx.
  assert (Hmem : forall k e, (k, e) ∈ all <-> (k, e) ∈ indexed E /\ live y e).
  { intros k e. rewrite Hall. unfold active. rewrite list_elem_of_filter. cbn [snd]. tauto. }
  destruct (sort_loop E es y (lo_room _ _ _ _ _ Hok) (lo_fields _ _ _ _ _ Hok) all [] [] es xings rest)
    as (qs & xr & es' & Es & Hs & Hp & Hlen & Hsame & Hadv).
  - intros [k e] H. by apply Hmem in H as [].
  - apply Forall_forall. intros [k e] H%list_elem_of_In. by apply Hmem in H as [].
  - rewrite Hall. eapply sublist_NoDup; [apply (indexed_fst_NoDup E)|]. apply fmap_sublist, sublist_filter.
  - intros k _ H. by apply elem_of_nil in H.
  - done.
  - constructor.
  - split; [done|]. split; [done|]. intros k e H. rewrite decide_False by (intros Hk; by apply elem_of_nil in Hk). by apply Hcur.
  - rewrite app_nil_l in Hp. apply Permutation_map_inv in Hp as (ks' & -> & Hp). exists ks', xr, es'.
    unfold for_lt. unfold alen at 1. rewrite Nat2Z.id.
    change (alen []) with 0 in Es. rewrite !fmap_nil, !app_nil_l in Es. rewrite Es, <- !list_fmap_compose.
    apply sorted_ascending in Hs. rewrite <- list_fmap_compose in Hs.
    split; [done|]. split; [exact Hs|]. split; [by rewrite <- Hp|]. split; [done|]. split; [done|].
    intros k e H. rewrite (Hadv k e H). f_equal. pose proof (indexed_rows _ _ _ _ k e Hok H) as Hr.
    rewrite app_nil_r. destruct (decide (k ∈ reverse (fst <$> all))) as [Hin|Hnin].
    + apply elem_of_reverse, list_elem_of_fmap in Hin as ([k' e'] & -> & Hin). cbn [fst] in *. apply Hmem in Hin as [Hin Hl].
      rewrite (indexed_unique _ _ _ _ H Hin). unfold live in Hl. f_equal. lia.
    + assert (Hl : ~ live y e).
      { intros Hl. apply Hnin. apply elem_of_reverse, list_elem_of_fmap. exists (k, e). split; [done|]. by apply Hmem. }
      unfold live in Hl. destruct (Z.le_gt_cases (last e) y); [f_equal; lia|]. rewrite !crossing_before by lia. done.
Qed.

(** A call yields the crossings of the row in ascending order and moves on. *)
Lemma next_spec y it r : scanning r0 E y it r -> boundsMinY r0 <= y < boundsMaxY r0 ->
  exists cs xr it' r', ScanlineIterator_next it r = Some (alen cs, it', r') /\ crossings it' = cs ++ xr /\
    ascending cs /\ cs ≡ₚ row_codes E y /\ scanning r0 E (y + 1) it' r'.
Proof.
  intros [Hok Hcur Hn (Hfr & Hmin & Hmax) Hy (ks & rest & Hptrs & Hcnt & Hperm)] Hrow.
  assert (HB : boundsMinY r = boundsMinY r0 /\ boundsMaxY r = boundsMaxY r0) by (unfold same_frame in Hfr; tauto).
  destruct HB as [HB1 HB2]. rewrite HB1, HB2 in Hok.
  destruct (lo_bucket _ _ _ _ _ Hok y Hrow) as (link & Hlink & Hchain & Hword).
  unfold ScanlineIterator_next. rewrite Hy, HB1, Hword. mred. rewrite Hcnt, Hptrs.
  destruct (next_drop _ _ _ _ y ks rest Hok) as (rest1 & ->); [lia|lia|done|done|]. mred.
  set (kept := filter (keeps y) ks).
  assert (Hkept : alen kept <= alen E).
  { unfold kept. pose proof (length_filter (keeps y) ks). apply Permutation_length in Hperm.
    unfold active in Hperm. pose proof (length_filter (fun ke : Z * Edge => live (y - 1) ke.2) (indexed E)).
    pose proof (f_equal length (indexed_snd E)) as Hi. rewrite length_fmap in Hi. unfold alen. lia. }
  destruct (next_add _ _ _ _ y kept rest1 link Hok Hchain Hkept) as (rest2 & rest3 & -> & Eadd). mred.
  rewrite Hlink. mred. rewrite Hn, Eadd. mred.
  set (all := kept ++ starting E y) in *.
  assert (Hall : all ≡ₚ active E y).
  { unfold all, kept. rewrite Hperm. apply live_step. apply Forall_forall. intros [k e] H%list_elem_of_In.
    pose proof (indexed_rows _ _ _ _ k e Hok H). simpl. lia. }
  set (xings := if alen (crossings it) <? alen all then _ else _).
  assert (Hx : alen all <= alen xings).
  { unfold xings. destruct (Z.ltb_spec (alen (crossings it)) (alen all)); [|done].
    unfold new_int. rewrite alen_new by apply alen_nonneg.
    rewrite (alen_app (ptr <$> all) rest3), (alen_fmap ptr all). pose proof (alen_nonneg rest3). lia. }
  destruct (next_sort _ _ _ _ y all xings rest3 Hok Hcur Hall Hx) as (ks' & xr & es' & Es & Hasc & Hp & Hlen & Hs & Hcur').
  rewrite Es. mred.
  exists ((fun ke => code ke.2 y) <$> ks'), xr. eexists _, _.
  assert (Hal : alen all = alen ((fun ke => code ke.2 y) <$> ks')).
  { unfold alen. rewrite length_fmap, Hall, Hp. done. }
  rewrite <- Hal. split; [done|]. split; [done|]. split; [done|]. split.
  { rewrite Hp. unfold row_codes. rewrite <- active_edges, <- list_fmap_compose. done. }
  split; cbn [edges edgeBuckets numEdges boundsMinY boundsMaxY set_edges nextY edgePtrs edgeCount sampleRowMin sampleRowMax].
  - rewrite HB1, HB2. by apply (list_ok_curx _ _ (edges r)).
  - done.
  - done.
  - split; [|done]. etrans; [exact Hfr|by repeat split].
  - done.
  - exists ks', rest3. split; [done|]. split; [rewrite Hal; apply alen_fmap|]. by replace (y + 1 - 1) with y by lia.
Qed.
End next.
