(* ===== verification/PrismFill.v ===== *)
(** * Filling the mask

    [Renderer_produceAlphas] gives every pixel of the mask the alpha of the number of
    its samples that are inside the path by the winding rule
    ([produceAlphas_spec]). *)

From S2P Require Import Prelude.
From S2P Require Import Float32.
From S2P Require Import PrismRenderer.
From S2P Require Import PrismCoverage.
From S2P Require Import PrismEdges.
From S2P Require Import PrismScan.

(** ** What is inside *)

Definition winding_mask (rule : Z) : Z := if rule =? WIND_EVEN_ODD then 1 else -1.

(** The sample in column [x] of row [y] is inside the path with the edges [E]. *)
Definition sample_inside (rule : Z) (E : list Edge) (y x : Z) : bool := inside (winding_mask rule) (row_codes E y) x.

(** The sum of [f] over [n] rows. *)
Fixpoint rows_sum (n : nat) (lo : Z) (f : Z -> Z) : Z :=
  match n with O => 0 | S n => f lo + rows_sum n (lo + 1) f end.

(** The samples of pixel ([px], [py]) that are inside. *)
Definition pixel_samples (lgx lgy rule : Z) (E : list Edge) (px py : Z) : Z :=
  rows_sum (Z.to_nat (2 ^ lgy)) (py * 2 ^ lgy)
    (fun y => count (Z.to_nat (2 ^ lgx)) (px * 2 ^ lgx) (sample_inside rule E y)).

(** In every row as many edges go down as up. *)
Definition balanced (E : list Edge) : Prop := forall y, total (row_codes E y) = 0.

Lemma winding_perm cs cs' x : cs ≡ₚ cs' -> winding cs x = winding cs' x.
Proof. induction 1; simpl; lia. Qed.

Lemma total_perm cs cs' : cs ≡ₚ cs' -> total cs = total cs'.
Proof. induction 1; simpl; lia. Qed.

Lemma inside_perm mask cs cs' x : cs ≡ₚ cs' -> inside mask cs x = inside mask cs' x.
Proof. intros H. unfold inside. by rewrite (winding_perm _ _ _ H). Qed.

Lemma rows_sum_ext n lo f g : (forall y, lo <= y < lo + Z.of_nat n -> f y = g y) -> rows_sum n lo f = rows_sum n lo g.
Proof.
  revert lo. induction n as [|n IH]; intros lo H; simpl; [done|]. rewrite (H lo) by lia. f_equal. apply IH. intros. apply H. lia.
Qed.

Lemma rows_sum_bounds n lo f b : (forall y, 0 <= f y <= b) -> 0 <= rows_sum n lo f <= Z.of_nat n * b.
Proof. intros H. revert lo. induction n as [|n IH]; intros lo; cbn [rows_sum]; [lia|]. specialize (IH (lo + 1)). pose proof (H lo). lia. Qed.

Lemma rows_sum_snoc n lo f : rows_sum (S n) lo f = rows_sum n lo f + f (lo + Z.of_nat n).
Proof.
  revert lo. induction n as [|n IH]; intros lo; [cbn [rows_sum]; change (Z.of_nat 0) with 0; rewrite !Z.add_0_r; lia|].
  cbn [rows_sum] in *. rewrite IH. replace (lo + 1 + Z.of_nat n) with (lo + Z.of_nat (S n)) by lia. lia.
Qed.

(** Rows in which nothing is inside do not count. *)
Lemma rows_sum_extend n m lo f : (n <= m)%nat -> (forall y, lo + Z.of_nat n <= y < lo + Z.of_nat m -> f y = 0) ->
  rows_sum m lo f = rows_sum n lo f.
Proof.
  intros Hnm H. induction Hnm as [|m Hnm IH]; [done|]. rewrite rows_sum_snoc, IH, H by (intros; try apply H; lia). lia.
Qed.

Lemma rows_sum_zero n lo f : (forall y, lo <= y < lo + Z.of_nat n -> f y = 0) -> rows_sum n lo f = 0.
Proof. intros H. rewrite (rows_sum_extend 0 n); [done|lia|]. intros y ?. apply H. lia. Qed.

(** *** One sample row *)

Section fill.
Context (g : statics) (r0 : Renderer) (E : list Edge) (lgx lgy w ox oy : Z) (map alphas0 : list Z).
Hypothesis Hlgx : SUBPIXEL_LG_POSITIONS_X g = lgx /\ 0 <= lgx.
Hypothesis Hlgy : SUBPIXEL_LG_POSITIONS_Y g = lgy /\ 0 <= lgy.
Hypothesis Hmap : alphaMap g = Some map.
Hypothesis Hmaplen : 2 ^ lgx * 2 ^ lgy < alen map /\ 2 ^ lgx * 2 ^ lgy < 2 ^ 31.
Hypothesis Hw : 0 < w.
Hypothesis Hbox : in_i32 (ox * 2 ^ lgx) /\ in_i32 ((ox + w) * 2 ^ lgx).
Hypothesis Hfew : SIZEOF_EDGE * alen E < 2 ^ 24.
Hypothesis Hbounds : - 2 ^ 24 < boundsMinY r0 /\ boundsMaxY r0 < 2 ^ 24.
Hypothesis Hbal : balanced E.

Notation "'SX'" := (2 ^ lgx).
Notation "'SY'" := (2 ^ lgy).
Notation "'rule'" := (windingRule r0).

(** The covered samples of pixel [p] of the mask in row [y]. *)
Definition row_cover (y p : Z) : Z :=
  pixel_count lgx (fun x => (0 <=? x) && (x <? w * SX) && sample_inside rule E y (x + ox * SX)) p.

Lemma row_cover_count y p : 0 <= p < w -> row_cover y p = count (Z.to_nat SX) ((ox + p) * SX) (sample_inside rule E y).
Proof.
  intros Hp. unfold row_cover, pixel_count. replace ((ox + p) * SX) with (p * SX + ox * SX) by lia. rewrite count_shift.
  assert (0 < SX) by (apply Z.pow_pos_nonneg; lia).
  apply count_ext. intros x Hx. rewrite Z2Nat.id in Hx by lia.
  assert (0 <= p * SX) by nia. assert (p * SX + SX <= w * SX) by nia. cases.
Qed.

Lemma row_cover_bounds y p : 0 <= row_cover y p <= SX.
Proof. unfold row_cover, pixel_count. pose proof (count_bounds (Z.to_nat SX) (p * SX)) as H. rewrite Z2Nat.id in H by (apply Z.pow_nonneg; lia). apply H. Qed.

(** A closed path has nothing inside to the right of the last crossing. *)
Lemma inside_before_last cs y p : ascending cs -> cs ≡ₚ row_codes E y ->
  pixel_count lgx (inside_before lgx w (winding_mask rule) (ox * SX) cs (passed (ox * SX) cs (alen cs))) p = row_cover y p.
Proof.
  intros Ha Hp. apply count_ext. intros x _. unfold inside_before, sample_inside.
  rewrite (inside_perm _ _ _ _ Hp).
  destruct (Z.leb_spec 0 x), (Z.ltb_spec x (w * SX)); cbn [andb]; try done.
  destruct (Z.ltb_spec (x + ox * SX) (passed (ox * SX) cs (alen cs))) as [|Hge]; cbn [andb]; [done|].
  symmetry. unfold inside. rewrite <- (winding_perm _ _ _ Hp).
  assert (Ht : winding cs (x + ox * SX) = total cs).
  { rewrite (winding_between cs (length cs)); [by rewrite take_ge|done|done| |].
    - intros c Hc Hl. unfold passed in Hge. rewrite aget_lookup in Hge by (unfold alen; lia).
      replace (Z.to_nat (alen cs - 1)) with (length cs - 1)%nat in Hge by (unfold alen; lia). rewrite Hc in Hge. lia.
    - intros c Hc. apply lookup_lt_Some in Hc. lia. }
  rewrite Ht, (total_perm _ _ Hp), (Hbal y). done.
Qed.

(** *** Pixel rows *)

(** The mask up to pixel row [py]. *)
Definition filled (py : Z) (out : list Z) : Prop :=
  forall k, aget out k =
    if (0 <=? k) && (k <? (py - oy) * w) then aget map (pixel_samples lgx lgy rule E (ox + k mod w) (oy + k / w))
    else aget alphas0 k.

Lemma pixel_samples_bounds px py : 0 <= pixel_samples lgx lgy rule E px py <= SX * SY.
Proof.
  unfold pixel_samples. assert (0 < SX) by (apply Z.pow_pos_nonneg; lia). assert (0 < SY) by (apply Z.pow_pos_nonneg; lia).
  pose proof (rows_sum_bounds (Z.to_nat SY) (py * SY) (fun y => count (Z.to_nat SX) (px * SX) (sample_inside rule E y)) SX) as Hb.
  rewrite Z2Nat.id in Hb by lia. specialize (Hb ltac:(intros y; pose proof (count_bounds (Z.to_nat SX) (px * SX) (sample_inside rule E y)); lia)).
  lia.
Qed.

Lemma filled_alen py out : filled py out -> (py - oy) * w <= alen alphas0 -> alen out = alen alphas0.
Proof.
  intros Hf Hl. apply alen_eq. intros k. rewrite Hf.
  destruct (Z.leb_spec 0 k), (Z.ltb_spec k ((py - oy) * w)); cbn [andb]; try done.
  rewrite !aget_is_Some. pose proof (pixel_samples_bounds (ox + k mod w) (oy + k / w)). lia.
Qed.

(** A row of differences that stands for the samples of pixel row [py] is written out. *)
Lemma emit_row py ac alpha cov : diffs w alpha cov ->
  originY ac = oy -> width ac = w -> (forall p, 0 <= p < w -> cov p = pixel_samples lgx lgy rule E (ox + p) py) ->
  oy <= py -> (py + 1 - oy) * w <= alen alphas0 -> filled py (alphas ac) ->
  exists alpha' out, setAndClearRelativeAlphas g py ac alpha = Some (alpha', out) /\
    diffs w alpha' (fun _ => 0) /\ filled (py + 1) out.
Proof.
  intros Hd Hoy Hwd Hcov Hpy Hlen Hf.
  assert (Hal : alen (alphas ac) = alen alphas0) by (apply (filled_alen py); [done|nia]).
  destruct (setAndClear_spec g w py ac map alpha cov) as (alpha' & out & Es & Hd' & Hout); rewrite ?Hoy; try done.
  - lia.
  - intros p Hp. rewrite (Hcov p Hp). pose proof (pixel_samples_bounds (ox + p) py). lia.
  - nia.
  - lia.
  - exists alpha', out. split; [done|]. split; [done|]. intros k. rewrite Hout, (Hf k), Hoy.
    set (off := (py - oy) * w). replace ((py + 1 - oy) * w) with (off + w) by (unfold off; lia).
    destruct (Z.leb_spec off k) as [Hlo|Hlo], (Z.ltb_spec k (off + w)) as [Hhi|Hhi]; cbn [andb].
    + assert (Hk : k / w = py - oy) by (symmetry; apply (Z.div_unique k w _ (k - off)); unfold off in *; lia).
      assert (Hm : k mod w = k - off) by (rewrite Z.mod_eq, Hk by lia; unfold off; lia).
      assert (0 <= off) by (unfold off; nia).
      rewrite Hcov by lia. rewrite Hm, Hk. replace (oy + (py - oy)) with py by lia. cases.
    + cases.
    + cases.
    + lia.
Qed.

(** *** Sample rows *)

(** The samples counted before row [y] in its pixel row. *)
Definition counted (y p : Z) : Z := rows_sum (Z.to_nat (y mod SY)) (y - y mod SY) (fun y' => row_cover y' p).

Lemma SY_pos : 0 < SY.
Proof. apply Z.pow_pos_nonneg; lia. Qed.

Lemma mask_y y : y & SUBPIXEL_MASK_Y g = y mod SY.
Proof.
  destruct Hlgy as [Hg ?]. unfold SUBPIXEL_MASK_Y, SUBPIXEL_POSITIONS_Y. rewrite Hg, shiftl_mul by done.
  apply land_mask; [done|]. rewrite Z.ones_equiv. lia.
Qed.

Lemma mask_y_value : SUBPIXEL_MASK_Y g = SY - 1.
Proof. destruct Hlgy as [Hg ?]. unfold SUBPIXEL_MASK_Y, SUBPIXEL_POSITIONS_Y. rewrite Hg, shiftl_mul by done. lia. Qed.

Lemma counted_zero y p : y mod SY = 0 -> counted y p = 0.
Proof. intros H. unfold counted. by rewrite H. Qed.

Lemma counted_snoc y p : counted y p + row_cover y p =
  rows_sum (Z.to_nat (y mod SY + 1)) (y - y mod SY) (fun y' => row_cover y' p).
Proof.
  pose proof (Z.mod_pos_bound y SY SY_pos). replace (Z.to_nat (y mod SY + 1)) with (S (Z.to_nat (y mod SY))) by lia.
  rewrite rows_sum_snoc. unfold counted. do 2 f_equal. lia.
Qed.

Lemma next_mod y : y mod SY <> SY - 1 -> (y + 1) mod SY = y mod SY + 1 /\ (y + 1) / SY = y / SY.
Proof.
  intros H. pose proof (Z.mod_pos_bound y SY SY_pos). pose proof (Z.div_mod y SY ltac:(pose proof SY_pos; lia)).
  assert ((y + 1) / SY = y / SY) by (symmetry; apply (Z.div_unique (y + 1) SY _ (y mod SY + 1)); lia).
  split; [|done]. symmetry. apply (Z.mod_unique (y + 1) SY (y / SY)); lia.
Qed.

Lemma next_mod_full y : y mod SY = SY - 1 -> (y + 1) mod SY = 0 /\ (y + 1) / SY = y / SY + 1.
Proof.
  intros H. pose proof SY_pos. pose proof (Z.div_mod y SY ltac:(lia)).
  replace (y + 1) with ((y / SY + 1) * SY) by lia. by rewrite Z.mod_mul, Z.div_mul by lia.
Qed.

Lemma counted_step y p : y mod SY <> SY - 1 -> counted (y + 1) p = counted y p + row_cover y p.
Proof. intros H. rewrite counted_snoc. unfold counted. destruct (next_mod y H) as [-> _]. f_equal. lia. Qed.

(** A pixel row that is complete, or whose remaining rows are empty. *)
Lemma counted_pixel n y p : 0 <= p < w -> 0 <= n <= SY ->
  (forall y', y / SY * SY + n <= y' < y / SY * SY + SY -> row_cover y' p = 0) ->
  rows_sum (Z.to_nat n) (y - y mod SY) (fun y' => row_cover y' p) = pixel_samples lgx lgy rule E (ox + p) (y / SY).
Proof.
  intros Hp Hn Hz. unfold pixel_samples. pose proof SY_pos. rewrite Z.mod_eq by lia.
  replace (y - (y - SY * (y / SY))) with (y / SY * SY) by lia.
  rewrite <- (rows_sum_extend (Z.to_nat n) (Z.to_nat SY)); [|lia|intros y' ?; apply Hz; lia].
  apply rows_sum_ext. intros y' _. by apply row_cover_count.
Qed.

(** What holds before row [y]. *)
Definition filling (y : Z) (s : ScanlineIterator * Renderer * list Z * AlphaConsumer) : Prop :=
  let '(it, r, alpha, ac) := s in
  scanning r0 E y it r /\ diffs w alpha (counted y) /\
  originX ac = ox /\ originY ac = oy /\ width ac = w /\ filled (y / SY) (alphas ac).

Lemma sample_row_accumulates y it r alpha ac : filling y (it, r, alpha, ac) -> boundsMinY r0 <= y < boundsMaxY r0 ->
  exists (cs : list Z) it' r' sum prev alpha',
    ScanlineIterator_next it r = Some (alen cs, it', r') /\ scanning r0 E (y + 1) it' r' /\
    for_lt (alen cs) (accumulate g (winding_mask (windingRule r)) (ox * SX) ((ox + w) * SX) (crossings it')) (0, ox * SX, alpha) =
      Some (sum, prev, alpha') /\
    diffs w alpha' (fun p => counted y p + row_cover y p).
Proof.
  intros (Hsc & Hd & _) Hy. destruct (next_spec r0 E Hfew Hbounds y it r Hsc Hy) as (cs & xr & it' & r' & En & Hx & Ha & Hp & Hsc').
  assert (Hrule : windingRule r = rule).
  { destruct (sn_frame _ _ _ _ _ Hsc) as (Hf & _). unfold same_frame in Hf. tauto. }
  assert (Hshort : alen cs < 2 ^ 31).
  { unfold alen. rewrite Hp. unfold row_codes. rewrite length_fmap. pose proof (length_filter (live y) E).
    unfold SIZEOF_EDGE, alen in Hfew. lia. }
  destruct Hlgx as [Hg Hl0]. replace ((ox + w) * SX) with (ox * SX + w * SX) by lia. rewrite Hrule.
  destruct (accumulate_spec g lgx w Hg Hl0 (winding_mask rule) (ox * SX) cs Ha Hshort (crossings it')) with (cov := counted y) (alpha := alpha)
    as (sum & alpha' & Ea & _ & Hd'); [|done|].
  { intros i Hi. rewrite Hx, !aget_lookup by lia. unfold alen in Hi. apply lookup_app_l. lia. }
  eexists cs, it', r', sum, _, alpha'. split; [done|]. split; [done|]. split; [exact Ea|].
  revert Hd'. apply diffs_ext. intros p. by rewrite (inside_before_last cs y p).
Qed.

Lemma sample_row_step y s : filling y s -> boundsMinY r0 <= y < boundsMaxY r0 ->
  oy <= y / SY -> (y / SY + 1 - oy) * w <= alen alphas0 ->
  exists s', sample_row g s = Some s' /\ filling (y + 1) s'.
Proof.
  destruct s as [[[it r] alpha] ac]. intros Hf Hy Hoy Hlen.
  destruct (sample_row_accumulates y it r alpha ac Hf Hy) as (cs & it' & r' & sum & prev & alpha' & En & Hsc & Ea & Hd).
  destruct Hf as (_ & _ & Hox & Hoy' & Hwd & Hfill). destruct Hlgx as [Hgx Hx0]. destruct Hlgy as [Hgy Hy0].
  unfold sample_row. rewrite Hgx, Hox, Hwd, !shiftl_mul by done. rewrite (i32_id (ox * SX)) by apply Hbox.
  replace (ox * SX + w * SX) with ((ox + w) * SX) by lia. rewrite (i32_id ((ox + w) * SX)) by apply Hbox.
  rewrite En. mred. fold (winding_mask (windingRule r)).
  unfold ScanlineIterator_curY. rewrite (sn_y _ _ _ _ _ Hsc). replace (y + 1 - 1) with y by lia.
  rewrite Ea. mred. rewrite mask_y, mask_y_value, Hgy, shiftr_div by done.
  destruct (Z.eqb_spec (y mod SY) (SY - 1)) as [Hfull|Hpart].
  - destruct (next_mod_full y Hfull) as [Hm Hq].
    destruct (emit_row (y / SY) ac alpha' (fun p => counted y p + row_cover y p)) as (alpha2 & out & -> & Hd2 & Hf2); try done.
    { intros p Hp. rewrite counted_snoc. replace (y mod SY + 1) with SY by lia.
      apply counted_pixel; [done|pose proof SY_pos; lia|lia]. }
    mred. eexists. split; [done|]. split; [done|]. split.
    { revert Hd2. apply diffs_ext. intros p. by rewrite counted_zero. }
    unfold with_alphas. cbn [originX originY width alphas]. rewrite Hq. done.
  - destruct (next_mod y Hpart) as [_ Hq]. eexists. split; [done|]. split; [done|]. split.
    { revert Hd. apply diffs_ext. intros p. by rewrite counted_step. }
    rewrite Hq. done.
Qed.

(** *** The whole mask *)

Hypothesis Hscene : scene r0 E.
Hypothesis Hnonempty : E <> [].
Hypothesis Horigin : oy = sampleRowMin r0 / SY.

(** The number of pixel rows of the mask. *)
Definition mask_rows : Z := (sampleRowMax r0 + SY - 1) / SY - oy.

Hypothesis Hroom : mask_rows * w <= alen alphas0.

Lemma row_cover_empty y p : ~ (sampleRowMin r0 <= y < sampleRowMax r0) -> row_cover y p = 0.
Proof.
  intros Hy. apply count_false. intros x _. unfold sample_inside.
  replace (row_codes E y) with (@nil Z); [by rewrite !andb_false_r|].
  unfold row_codes. rewrite filter_none; [done|]. intros e He%list_elem_of_In.
  pose proof (proj1 (Forall_forall _ _) (sc_rows _ _ Hscene) e He) as [? ?]. unfold live. lia.
Qed.

Lemma fill_start ac : originX ac = ox -> originY ac = oy -> width ac = w -> alphas ac = alphas0 ->
  filling (sampleRowMin r0) (ScanlineIterator_init r0, r0, new_int (w + 2), ac).
Proof.
  intros Hox Hoy Hwd Hal. split; [by apply ScanlineIterator_init_spec|]. split.
  - assert (H0 : forall p, counted (sampleRowMin r0) p = 0).
    { intros p. unfold counted. apply rows_sum_zero. intros y Hy. apply row_cover_empty.
      pose proof (Z.mod_pos_bound (sampleRowMin r0) SY SY_pos). lia. }
    split; [unfold new_int; apply alen_new; lia|]. split; [apply H0|]. intros p Hp. rewrite !H0.
    unfold new_int. rewrite aget_lookup by lia. apply lookup_replicate. split; [done|lia].
  - split; [done|]. split; [done|]. split; [done|]. intros k. rewrite Hal, <- Horigin. cases.
Qed.

Lemma mask_rows_enough y : sampleRowMin r0 <= y < sampleRowMax r0 -> oy <= y / SY /\ (y / SY + 1 - oy) * w <= alen alphas0.
Proof.
  intros Hy. pose proof SY_pos. split; [rewrite Horigin; apply Z.div_le_mono; lia|].
  assert (y / SY + 1 <= (sampleRowMax r0 + SY - 1) / SY).
  { replace (y / SY + 1) with ((y + 1 * SY) / SY) by (rewrite Z.div_add; lia). apply Z.div_le_mono; lia. }
  unfold mask_rows in Hroom. nia.
Qed.

Lemma fill_rows ac : originX ac = ox -> originY ac = oy -> width ac = w -> alphas ac = alphas0 ->
  exists s, while_fuel (Z.to_nat (sampleRowMax r0 - sampleRowMin r0)) (fun '(it, r, _, _) => ScanlineIterator_hasNext it r)
      (sample_row g) (ScanlineIterator_init r0, r0, new_int (w + 2), ac) = Some s /\ filling (sampleRowMax r0) s.
Proof.
  intros Hox Hoy Hwd Hal. pose proof (sc_tight _ _ Hscene Hnonempty).
  destruct (while_fuel_inv (fun s => filling (nextY s.1.1.1) s /\ sampleRowMin r0 <= nextY s.1.1.1 <= sampleRowMax r0)
    (fun s => Z.to_nat (sampleRowMax r0 - nextY s.1.1.1)) (fun '(it, r, _, _) => ScanlineIterator_hasNext it r) (sample_row g)
    (Z.to_nat (sampleRowMax r0 - sampleRowMin r0)) (ScanlineIterator_init r0, r0, new_int (w + 2), ac)) as (s & Ew & (Hf & Hr) & Hc).
  - split; [by apply fill_start|cbn; lia].
  - cbn. lia.
  - intros [[[it r] alpha] ac'] [Hf Hr] Hc. cbn [fst] in *.
    assert (HM : sampleRowMax r = sampleRowMax r0) by (destruct Hf as (Hsc & _); apply (sn_frame _ _ _ _ _ Hsc)).
    unfold ScanlineIterator_hasNext in Hc. apply Z.ltb_lt in Hc. rewrite HM in Hc.
    destruct (mask_rows_enough (nextY it)) as [Ho Hl]; [lia|].
    pose proof (sc_min _ _ Hscene). pose proof (sc_max _ _ Hscene).
    destruct (sample_row_step (nextY it) (it, r, alpha, ac') Hf) as ([[[it' r'] alpha'] ac2] & Es & Hf'); [lia|done|done|].
    eexists. split; [exact Es|]. cbn [fst]. destruct Hf' as (Hsc' & Hrest). rewrite (sn_y _ _ _ _ _ Hsc').
    split; [split; [by split|lia]|lia].
  - exists s. split; [done|]. destruct s as [[[it r] alpha] ac']. cbn [fst] in *.
    assert (HM : sampleRowMax r = sampleRowMax r0) by (destruct Hf as (Hsc & _); apply (sn_frame _ _ _ _ _ Hsc)).
    unfold ScanlineIterator_hasNext in Hc. apply Z.ltb_ge in Hc. by replace (sampleRowMax r0) with (nextY it) by lia.
Qed.

(** Every pixel of the mask gets the alpha of its samples inside; nothing else is
    written. *)
Lemma produceAlphas_fills ac : originX ac = ox -> originY ac = oy -> width ac = w -> alphas ac = alphas0 ->
  exists r' ac', Renderer_produceAlphas g r0 ac = Some (r', ac') /\
    forall k, aget (alphas ac') k =
      if (0 <=? k) && (k <? mask_rows * w) then aget map (pixel_samples lgx lgy rule E (ox + k mod w) (oy + k / w))
      else aget alphas0 k.
Proof.
  intros Hox Hoy Hwd Hal. destruct (fill_rows ac Hox Hoy Hwd Hal) as ([[[it r] alpha] ac'] & Ew & Hf).
  unfold Renderer_produceAlphas. rewrite Hwd, Ew. mred.
  destruct Hf as (Hsc & Hd & Hox' & Hoy' & Hwd' & Hfill). destruct (sn_frame _ _ _ _ _ Hsc) as (_ & Hmin & _).
  pose proof (sc_tight _ _ Hscene Hnonempty) as Ht. unfold ScanlineIterator_curY. rewrite (sn_y _ _ _ _ _ Hsc), Hmin.
  destruct (Z.eqb_spec (sampleRowMax r0) (sampleRowMin r0)) as [|_]; [lia|]. set (Y := sampleRowMax r0) in *.
  pose proof SY_pos. pose proof (Z.mod_pos_bound (Y - 1) SY SY_pos).
  destruct Hlgy as [Hgy Hy0]. rewrite mask_y, mask_y_value, Hgy, shiftr_div by done.
  destruct (Z.ltb_spec ((Y - 1) mod SY) (SY - 1)) as [Hpart|Hfull].
  - destruct (next_mod (Y - 1)) as [Hm Hq]; [lia|]. replace (Y - 1 + 1) with Y in * by lia. rewrite <- Hq.
    destruct (mask_rows_enough (Y - 1)) as [Ho Hl]; [lia|]. rewrite <- Hq in Ho, Hl.
    destruct (emit_row (Y / SY) ac' alpha (counted Y)) as (alpha2 & out & -> & _ & Hf2); try done.
    { intros p Hp. apply counted_pixel; [done|lia|]. intros y' Hy'. apply row_cover_empty. fold Y.
      pose proof (Z.div_mod Y SY ltac:(lia)). lia. }
    mred. eexists _, _. split; [done|]. intros k. cbn [alphas with_alphas]. rewrite (Hf2 k).
    replace mask_rows with (Y / SY + 1 - oy); [done|]. unfold mask_rows. fold Y. f_equal.
    apply (Z.div_unique (Y + SY - 1) SY _ ((Y - 1) mod SY)); [lia|]. pose proof (Z.div_mod (Y - 1) SY ltac:(lia)). lia.
  - destruct (next_mod_full (Y - 1)) as [Hm Hq]; [lia|]. replace (Y - 1 + 1) with Y in * by lia.
    eexists _, _. split; [done|]. intros k. rewrite (Hfill k).
    replace mask_rows with (Y / SY - oy); [done|]. unfold mask_rows. fold Y. f_equal.
    apply (Z.div_unique (Y + SY - 1) SY _ (SY - 1)); [lia|]. pose proof (Z.div_mod Y SY ltac:(lia)). lia.
Qed.
End fill.
