(* ===== verification/PrismRasterizer.v ===== *)
(** * The rasterizer: path consumers, transforms and the fill entry point

    native-prism/PathConsumer.h, Transformer.c and NativePiscesRasterizer.c.  A path
    consumer is a record of operations on a state; the renderer is one, a transformer
    wraps another.  [feedConsumer] plays the commands of a Java path into a consumer and
    [produceFillAlphas] is the native method that fills a mask.

    [None] stands for undefined behaviour in C or a loop that does not end; Java
    exceptions and refused array accesses are values. *)

From Stdlib Require Import SpecFloat Ascii String.
From S2P Require Import Prelude.
From S2P Require Import Float32.
From S2P Require Import PrismRenderer.

(** ** Path consumers *)

Record PathConsumer (S : Type) := mkPathConsumer {
  moveTo : jfloat -> jfloat -> S -> option S;
  lineTo : jfloat -> jfloat -> S -> option S;
  quadTo : jfloat -> jfloat -> jfloat -> jfloat -> S -> option S;
  curveTo : jfloat -> jfloat -> jfloat -> jfloat -> jfloat -> jfloat -> S -> option S;
  closePath : S -> option S;
  pathDone : S -> option S }.
Arguments mkPathConsumer {S}.
Arguments moveTo {S}.
Arguments lineTo {S}.
Arguments quadTo {S}.
Arguments curveTo {S}.
Arguments closePath {S}.
Arguments pathDone {S}.

(** The functions [Renderer_init] installs. *)
Definition renderer_consumer (g : statics) (fuel : nat) : PathConsumer Renderer :=
  mkPathConsumer (Renderer_moveTo g) (Renderer_lineTo g) (Renderer_quadTo g) (Renderer_curveTo g fuel)
    (Renderer_closePath g) (Renderer_pathDone g).

(** ** Transformer.c *)

Record Transformer := mkTransformer {
  mxx : jdouble; mxy : jdouble; mxt : jdouble; myx : jdouble; myy : jdouble; myt : jdouble }.

Definition d_zero : jdouble := double_of_int 0.
Definition d_one : jdouble := double_of_int 1.

Section points.
Context (t : Transformer).

(** A point under each kind of transform: double arithmetic, rounded to float once. *)
Definition Translate (x y : jfloat) : jfloat * jfloat :=
  (of_double (dadd (to_double x) (mxt t)), of_double (dadd (to_double y) (myt t))).

Definition DeltaScale (x y : jfloat) : jfloat * jfloat :=
  (of_double (dmul (to_double x) (mxx t)), of_double (dmul (to_double y) (myy t))).

Definition ScaleTranslate (x y : jfloat) : jfloat * jfloat :=
  (of_double (dadd (dmul (to_double x) (mxx t)) (mxt t)), of_double (dadd (dmul (to_double y) (myy t)) (myt t))).

Definition DeltaTransform (x y : jfloat) : jfloat * jfloat :=
  (of_double (dadd (dmul (to_double x) (mxx t)) (dmul (to_double y) (mxy t))),
   of_double (dadd (dmul (to_double x) (myx t)) (dmul (to_double y) (myy t)))).

Definition Transform (x y : jfloat) : jfloat * jfloat :=
  (of_double (dadd (dadd (dmul (to_double x) (mxx t)) (dmul (to_double y) (mxy t))) (mxt t)),
   of_double (dadd (dadd (dmul (to_double x) (myx t)) (dmul (to_double y) (myy t))) (myt t))).
End points.

(** Every kind passes the transformed points to [out]. *)
Definition TX_Init {S} (tx : jfloat -> jfloat -> jfloat * jfloat) (out : PathConsumer S) : PathConsumer S :=
  mkPathConsumer
    (fun xa ya => let '(xa, ya) := tx xa ya in moveTo out xa ya)
    (fun x1 y1 => let '(x1, y1) := tx x1 y1 in lineTo out x1 y1)
    (fun xc yc x1 y1 => let '(xc, yc) := tx xc yc in let '(x1, y1) := tx x1 y1 in quadTo out xc yc x1 y1)
    (fun xc0 yc0 xc1 yc1 x1 y1 =>
       let '(xc0, yc0) := tx xc0 yc0 in let '(xc1, yc1) := tx xc1 yc1 in let '(x1, y1) := tx x1 y1 in
       curveTo out xc0 yc0 xc1 yc1 x1 y1)
    (closePath out) (pathDone out).

(** The kind of transform; the identity needs none. *)
Definition transform_kind (t : Transformer) : option (jfloat -> jfloat -> jfloat * jfloat) :=
  if feq (mxy t) d_zero && feq (myx t) d_zero then
    if feq (mxx t) d_one && feq (myy t) d_one then
      if feq (mxt t) d_zero && feq (myt t) d_zero then None else Some (Translate t)
    else if feq (mxt t) d_zero && feq (myt t) d_zero then Some (DeltaScale t) else Some (ScaleTranslate t)
  else if feq (mxt t) d_zero && feq (myt t) d_zero then Some (DeltaTransform t)
  else Some (Transform t).

Definition Transformer_init {S} (t : Transformer) (out : PathConsumer S) : PathConsumer S :=
  match transform_kind t with Some tx => TX_Init tx out | None => out end.

(** ** NativePiscesRasterizer.c *)

Definition NativePiscesRasterizer_init (subpixelLgPositionsX subpixelLgPositionsY : Z) (g : statics) : statics :=
  Renderer_setup subpixelLgPositionsX subpixelLgPositionsY g.

Definition SEG_MOVETO : Z := 0.
Definition SEG_LINETO : Z := 1.
Definition SEG_QUADTO : Z := 2.
Definition SEG_CUBICTO : Z := 3.
Definition SEG_CLOSE : Z := 4.

Open Scope string_scope.
Open Scope Z_scope.

(** The failure texts of [feedConsumer]: the empty one stands for an array that the VM
    did not hand out, a bracket for an index out of bounds. *)
Definition failure : Type := option string.

(** One command: the consumer is called if the coordinates are there. *)
Definition feed_command {S} (consumer : PathConsumer S) (coords : list jfloat) (coordSize : Z) (command : Z)
    (coordoff : Z) (s : S) : option (Z * failure * S) :=
  let c k := aget coords (coordoff + k) in
  if command =? SEG_MOVETO then
    if coordoff + 2 >? coordSize then Some (coordoff, Some "[not enough coordinates for moveTo", s)
    else x ← c 0; y ← c 1; s ← moveTo consumer x y s; Some (coordoff + 2, None, s)
  else if command =? SEG_LINETO then
    if coordoff + 2 >? coordSize then Some (coordoff, Some "[not enough coordinates for lineTo", s)
    else x ← c 0; y ← c 1; s ← lineTo consumer x y s; Some (coordoff + 2, None, s)
  else if command =? SEG_QUADTO then
    if coordoff + 4 >? coordSize then Some (coordoff, Some "[not enough coordinates for quadTo", s)
    else xc ← c 0; yc ← c 1; x ← c 2; y ← c 3; s ← quadTo consumer xc yc x y s; Some (coordoff + 4, None, s)
  else if command =? SEG_CUBICTO then
    if coordoff + 6 >? coordSize then Some (coordoff, Some "[not enough coordinates for curveTo", s)
    else xc0 ← c 0; yc0 ← c 1; xc1 ← c 2; yc1 ← c 3; x ← c 4; y ← c 5;
      s ← curveTo consumer xc0 yc0 xc1 yc1 x y s; Some (coordoff + 6, None, s)
  else if command =? SEG_CLOSE then s ← closePath consumer s; Some (coordoff, None, s)
  else Some (coordoff, Some "unrecognized Path segment", s).

(** The loop ends with the commands or at the first failure. *)
Fixpoint feed_commands {S} (consumer : PathConsumer S) (coords : list jfloat) (coordSize : Z) (commands : list Z)
    (coordoff : Z) (s : S) : option (failure * S) :=
  match commands with
  | [] => Some (None, s)
  | command :: commands =>
      '(coordoff, f, s) ← feed_command consumer coords coordSize command coordoff s;
      match f with
      | None => feed_commands consumer coords coordSize commands coordoff s
      | Some _ => Some (f, s)
      end
  end.

(** [pinned] says whether the VM hands out the two arrays.  The first [numCommands]
    commands are read; the caller has checked that there are so many. *)
Definition feedConsumer {S} (pinned : bool * bool) (consumer : PathConsumer S) (coords : list jfloat) (coordSize : Z)
    (commands : list Z) (numCommands : Z) (s : S) : option (failure * S) :=
  if negb (fst pinned) || negb (snd pinned) then Some (Some "", s)
  else if alen commands <? numCommands then None
  else
    '(f, s) ← feed_commands consumer coords coordSize (take (Z.to_nat numCommands) commands) 0 s;
    match f with
    | None => s ← pathDone consumer s; Some (None, s)
    | Some _ => Some (f, s)
    end.

(** *** The native method *)

Inductive exception := NPException (detail : string) | AIOOBException (detail : string) | IError (detail : string).

(** What Java sees: the exception, the bounds array and the mask. *)
Record outcome := mkOutcome { thrown : option exception; bounds_out : list Z; mask_out : list Z }.

Definition failure_exception (f : string) : option exception :=
  match f with
  | EmptyString => None
  | String c rest => if Ascii.eqb c "["%char then Some (AIOOBException rest) else Some (IError f)
  end.

(** The mask, once the path is in the renderer; [detail] is the text of the exception. *)
Definition emit_mask (g : statics) (detail : string) (mask_pinned : bool) (r : Renderer) (boundsArray maskArray : list Z) : option outcome :=
  let '(b0, b1, b2, b3) := Renderer_getOutputBounds g r in
  let boundsArray := b0 :: b1 :: b2 :: b3 :: drop 4 boundsArray in
  if (b0 <? b2) && (b1 <? b3) then
    let w := i32 (b2 - b0) in
    let h := i32 (b3 - b1) in
    if Z.quot (alen maskArray) w <? h then Some (mkOutcome (Some (AIOOBException detail)) boundsArray maskArray)
    else if negb mask_pinned then Some (mkOutcome None boundsArray maskArray)
    else
      '(_, ac) ← Renderer_produceAlphas g r (mkConsumer b0 b1 w h maskArray);
      Some (mkOutcome None boundsArray (alphas ac))
  else Some (mkOutcome None boundsArray maskArray).

(** A null array, or one that is too short. *)
Definition check_arrays (coordsArray : option (list jfloat)) (commandsArray boundsArray maskArray : option (list Z))
    (numCommands : Z) : exception + (list jfloat * list Z * list Z * list Z) :=
  match coordsArray with
  | None => inl (NPException "coordsArray")
  | Some coords =>
    match commandsArray with
    | None => inl (NPException "commandsArray")
    | Some commands =>
      match boundsArray with
      | None => inl (NPException "boundsArray")
      | Some bounds =>
        match maskArray with
        | None => inl (NPException "maskArray")
        | Some mask =>
          if alen bounds <? 4 then inl (AIOOBException "boundsArray")
          else if alen commands <? numCommands then inl (AIOOBException "commandsArray")
          else inr (coords, commands, bounds, mask)
        end
      end
    end
  end.

(** The path of the arguments, fed into a new renderer. *)
Definition fill_path (g : statics) (fuel : nat) (pinned : bool * bool) (coords : list jfloat) (commands : list Z)
    (numCommands : Z) (nonzero : bool) (t : Transformer) (bounds : list Z) : option (failure * Renderer) :=
  b0 ← aget bounds 0; b1 ← aget bounds 1; b2 ← aget bounds 2; b3 ← aget bounds 3;
  r ← Renderer_reset g b0 b1 (i32 (b2 - b0)) (i32 (b3 - b1)) (if nonzero then WIND_NON_ZERO else WIND_EVEN_ODD) Renderer_init;
  feedConsumer pinned (Transformer_init t (renderer_consumer g fuel)) coords (alen coords) commands numCommands r.

Definition produceFillAlphas (g : statics) (fuel : nat) (pinned : bool * bool) (mask_pinned : bool)
    (coordsArray : option (list jfloat)) (commandsArray : option (list Z)) (numCommands : Z) (nonzero : bool)
    (t : Transformer) (boundsArray maskArray : option (list Z)) : option outcome :=
  match check_arrays coordsArray commandsArray boundsArray maskArray numCommands with
  | inl e => Some (mkOutcome (Some e) (default [] boundsArray) (default [] maskArray))
  | inr (coords, commands, bounds, mask) =>
      '(f, r) ← fill_path g fuel pinned coords commands numCommands nonzero t bounds;
      match f with
      | None => emit_mask g "maskArray" mask_pinned r bounds mask
      | Some text => Some (mkOutcome (failure_exception text) bounds mask)
      end
  end.
