(* ===== verification/PrismPath.v ===== *)
(** * Paths

    What a path means to the renderer: the lines it is flattened into ([Pen]), recorded
    by a consumer of its own.  The renderer refines the recorder ([renderer_sim]): it
    holds the edges of the recorded lines.  A path that is done is closed, so in every
    row as many edges go down as up ([pen_balanced]). *)

From S2P Require Import Prelude.
From S2P Require Import Float32.
From S2P Require Import Float32Spec.
From S2P Require Import PrismRenderer.
From S2P Require Import PrismCoverage.
From S2P Require Import PrismEdges.
From S2P Require Import PrismScan.
From S2P Require Import PrismFill.
From S2P Require Import PrismRasterizer.

(** ** The recorder *)

(** The current point in sample coordinates, the start of the subpath in pixel
    coordinates, and the lines so far, the newest first. *)
Record Pen := mkPen { pen_x : jfloat; pen_y : jfloat; pen_sx : jfloat; pen_sy : jfloat; pen_lines : list line }.

Definition record (xa ya xb yb : jfloat) (L : list line) : option (list line) := Some ((xa, ya, xb, yb) :: L).

Section pen.
Context (g : statics) (fuel : nat).

Definition pen_lineTo (x y : jfloat) (p : Pen) : option Pen :=
  let x1 := tosubpixx g x in
  let y1 := tosubpixy g y in
  L ← record (pen_x p) (pen_y p) x1 y1 (pen_lines p);
  Some (mkPen x1 y1 (pen_sx p) (pen_sy p) L).

Definition pen_closePath (p : Pen) : option Pen := pen_lineTo (pen_sx p) (pen_sy p) p.

Definition pen_moveTo (x y : jfloat) (p : Pen) : option Pen :=
  p ← pen_closePath p;
  Some (mkPen (tosubpixx g x) (tosubpixy g y) x y (pen_lines p)).

Definition pen_quadTo (x1 y1 x2 y2 : jfloat) (p : Pen) : option Pen :=
  let xe := tosubpixx g x2 in
  let ye := tosubpixy g y2 in
  L ← quadBreakIntoLinesAndAdd record (pen_x p) (pen_y p)
        (Curve_setquad (pen_x p) (pen_y p) (tosubpixx g x1) (tosubpixy g y1) xe ye) xe ye (pen_lines p);
  Some (mkPen xe ye (pen_sx p) (pen_sy p) L).

Definition pen_curveTo (x1 y1 x2 y2 x3 y3 : jfloat) (p : Pen) : option Pen :=
  let xe := tosubpixx g x3 in
  let ye := tosubpixy g y3 in
  L ← curveBreakIntoLinesAndAdd record fuel (pen_x p) (pen_y p)
        (Curve_setcubic (pen_x p) (pen_y p) (tosubpixx g x1) (tosubpixy g y1) (tosubpixx g x2) (tosubpixy g y2) xe ye)
        xe ye (pen_lines p);
  Some (mkPen xe ye (pen_sx p) (pen_sy p) L).

Definition pen_consumer : PathConsumer Pen :=
  mkPathConsumer pen_moveTo pen_lineTo pen_quadTo pen_curveTo pen_closePath pen_closePath.
End pen.

Definition pen_start : Pen := mkPen f_zero f_zero f_zero f_zero [].

(** ** Simulation between consumers

    [op_sim f h]: whenever [f] returns, [h] does so from every related state and ends in
    a related one, as long as the size of the result stays within [N]. *)
Section simulation.
Context {A B : Type} (rel : A -> B -> Prop) (size : A -> nat) (N : nat).

Definition op_sim (f : A -> option A) (h : B -> option B) : Prop :=
  forall s s', f s = Some s' -> (size s <= size s')%nat /\
    forall t, rel s t -> (size s' <= N)%nat -> exists t', h t = Some t' /\ rel s' t'.

Lemma op_sim_bind f f' h h' : op_sim f h -> op_sim f' h' -> op_sim (fun s => s ← f s; f' s) (fun t => t ← h t; h' t).
Proof.
  intros H H' s s' E. apply bind_Some in E as (s1 & E1 & E2). destruct (H _ _ E1) as [L1 S1]. destruct (H' _ _ E2) as [L2 S2].
  split; [lia|]. intros t Ht HN. destruct (S1 t Ht ltac:(lia)) as (t1 & -> & Ht1). by apply S2.
Qed.

Lemma op_sim_for n j (f : Z -> A -> option A) (h : Z -> B -> option B) :
  (forall j, op_sim (f j) (h j)) -> op_sim (for_from n j f) (for_from n j h).
Proof.
  intros Hf. revert j. induction n as [|n IH]; intros j.
  - intros s s' [= <-]. split; [done|]. eauto.
  - apply (op_sim_bind (f j) (for_from n (j + 1) f) (h j) (for_from n (j + 1) h)); [done|apply IH].
Qed.

Lemma op_sim_while n c c' f h : (forall s t, rel s t -> c s = c' t) -> op_sim f h ->
  op_sim (while_fuel n c f) (while_fuel n c' h).
Proof.
  intros Hc Hf. induction n as [|n IH]; intros s s'; cbn [while_fuel]; destruct (c s) eqn:Ec; try done.
  - intros [= <-]. split; [done|]. intros t Ht _. rewrite <- (Hc _ _ Ht), Ec. eauto.
  - intros E. destruct (op_sim_bind f (while_fuel n c f) h (while_fuel n c' h) Hf IH s s' E) as [L S].
    split; [done|]. intros t Ht HN. rewrite <- (Hc _ _ Ht), Ec. by apply S.
  - intros [= <-]. split; [done|]. intros t Ht _. rewrite <- (Hc _ _ Ht), Ec. eauto.
Qed.

Record consumer_sim (cs : PathConsumer A) (ct : PathConsumer B) : Prop := {
  sim_moveTo : forall x y, op_sim (moveTo cs x y) (moveTo ct x y);
  sim_lineTo : forall x y, op_sim (lineTo cs x y) (lineTo ct x y);
  sim_quadTo : forall x1 y1 x2 y2, op_sim (quadTo cs x1 y1 x2 y2) (quadTo ct x1 y1 x2 y2);
  sim_curveTo : forall x1 y1 x2 y2 x3 y3, op_sim (curveTo cs x1 y1 x2 y2 x3 y3) (curveTo ct x1 y1 x2 y2 x3 y3);
  sim_closePath : op_sim (closePath cs) (closePath ct);
  sim_pathDone : op_sim (pathDone cs) (pathDone ct) }.

(** A transformer in front of both keeps them related. *)
Lemma transformer_sim t cs ct : consumer_sim cs ct -> consumer_sim (Transformer_init t cs) (Transformer_init t ct).
Proof.
  intros [H1 H2 H3 H4 H5 H6]. unfold Transformer_init. destruct (transform_kind t) as [tx|]; [|by split].
  split; cbn; intros; repeat destruct (tx _ _); auto.
Qed.

(** One command, with its coordinates read and its bounds checked alike. *)
Lemma feed_command_sim cs ct coords coordSize command off s off' f s' : consumer_sim cs ct ->
  feed_command cs coords coordSize command off s = Some (off', f, s') ->
  (size s <= size s')%nat /\
  forall t, rel s t -> (size s' <= N)%nat ->
    exists t', feed_command ct coords coordSize command off t = Some (off', f, t') /\ rel s' t'.
Proof.
  intros [H1 H2 H3 H4 H5 _]. unfold feed_command.
  repeat case_match; intros E; simplify_eq; try (split; [done|eauto]; fail);
    repeat (match type of E with (_ ≫= _) = Some _ => apply bind_Some in E as (? & ? & E) end); simplify_eq;
    match goal with
    | H : moveTo cs ?x ?y _ = Some _ |- _ => destruct (H1 _ _ _ _ H) as [L S]
    | H : lineTo cs ?x ?y _ = Some _ |- _ => destruct (H2 _ _ _ _ H) as [L S]
    | H : quadTo cs _ _ _ _ _ = Some _ |- _ => destruct (H3 _ _ _ _ _ _ H) as [L S]
    | H : curveTo cs _ _ _ _ _ _ _ = Some _ |- _ => destruct (H4 _ _ _ _ _ _ _ _ H) as [L S]
    | H : closePath cs _ = Some _ |- _ => destruct (H5 _ _ H) as [L S]
    end; (split; [done|]; intros t Ht HN; destruct (S t Ht HN) as (t' & Et & Ht'); exists t'; split; [|done]);
    repeat match goal with H : aget _ _ = Some _ |- _ => rewrite H; clear H end; mred; rewrite Et; done.
Qed.

Lemma feed_commands_sim cs ct coords coordSize : consumer_sim cs ct ->
  forall commands off s f s', feed_commands cs coords coordSize commands off s = Some (f, s') ->
  (size s <= size s')%nat /\
  forall t, rel s t -> (size s' <= N)%nat ->
    exists t', feed_commands ct coords coordSize commands off t = Some (f, t') /\ rel s' t'.
Proof.
  intros Hc. induction commands as [|command commands IH]; intros off s f s'; cbn [feed_commands].
  { intros [= <- <-]. split; [done|]. eauto. }
  intros E. apply bind_Some in E as ([[off1 f1] s1] & E1 & E2).
  destruct (feed_command_sim _ _ _ _ _ _ _ _ _ _ Hc E1) as [L1 S1].
  destruct f1 as [text|].
  - simplify_eq. split; [done|]. intros t Ht HN. destruct (S1 t Ht HN) as (t' & -> & Ht'). mred. eauto.
  - destruct (IH _ _ _ _ E2) as [L2 S2]. split; [lia|]. intros t Ht HN.
    destruct (S1 t Ht ltac:(lia)) as (t1 & -> & Ht1). mred. by apply S2.
Qed.

(** Related consumers agree on what is reported, and end in related states. *)
Lemma feedConsumer_sim cs ct pinned coords coordSize commands numCommands s f s' t : consumer_sim cs ct ->
  feedConsumer pinned cs coords coordSize commands numCommands s = Some (f, s') -> rel s t -> (size s' <= N)%nat ->
  exists t', feedConsumer pinned ct coords coordSize commands numCommands t = Some (f, t') /\ rel s' t'.
Proof.
  intros Hc E Ht HN. unfold feedConsumer in *. destruct (negb _ || negb _); [simplify_eq; eauto|].
  destruct (alen commands <? numCommands); [done|]. apply bind_Some in E as ([f1 s1] & E1 & E2).
  destruct (feed_commands_sim _ _ _ _ Hc _ _ _ _ _ E1) as [L1 S1]. destruct f1 as [text|].
  - simplify_eq. destruct (S1 t Ht HN) as (t' & -> & Ht'). mred. eauto.
  - apply bind_Some in E2 as (s2 & E2 & [= <- <-]). destruct (sim_pathDone _ _ Hc _ _ E2) as [L2 S2].
    destruct (S1 t Ht ltac:(lia)) as (t1 & -> & Ht1). mred. destruct (S2 t1 Ht1 HN) as (t2 & -> & Ht2). mred. eauto.
Qed.
End simulation.

(** ** The renderer refines the recorder *)

(** A state that carries something beside the recorder or the renderer. *)
Definition beside {X A B} (rel : A -> B -> Prop) (s : X * A) (t : X * B) : Prop := s.1 = t.1 /\ rel s.2 t.2.

Section flattening.
Context (r0 : Renderer).

Definition edges_of (L : list line) : list Edge := omap (line_edge (boundsMinY r0) (boundsMaxY r0)) L.

Lemma edges_of_cons l L : edges_of (l :: L) = opt_cons (line_edge (boundsMinY r0) (boundsMaxY r0) l) (edges_of L).
Proof. unfold edges_of. cbn. by destruct (line_edge _ _ l). Qed.

Lemma edges_of_length L : (length (edges_of L) <= length L)%nat.
Proof. induction L as [|l L IH]; [done|]. rewrite edges_of_cons. destruct (line_edge _ _ l); cbn; lia. Qed.

Context (N : nat).
Hypothesis HN : SIZEOF_EDGE * Z.of_nat N + SIZEOF_EDGE < 2 ^ 24.

(** The renderer holds the edges of the lines; the rest of it is as in [r1]. *)
Definition drawn (r1 : Renderer) (L : list line) (r : Renderer) : Prop := same_frame r1 r /\ scene r (edges_of L).

Section lines.
Context (r1 : Renderer).
Hypothesis Hb : boundsMinY r1 = boundsMinY r0 /\ boundsMaxY r1 = boundsMaxY r0.

Lemma addLine_sim xa ya xb yb : op_sim (drawn r1) length N (record xa ya xb yb) (addLine xa ya xb yb).
Proof.
  intros L L' [= <-]. split; [cbn; lia|]. intros r [Hf Hs] Hsz. cbn [length] in Hsz.
  assert (HB : boundsMinY r = boundsMinY r0 /\ boundsMaxY r = boundsMaxY r0).
  { unfold same_frame in Hf. destruct Hf as (_ & -> & _ & -> & _). done. }
  destruct (addLine_spec xa ya xb yb r (edges_of L) Hs) as (r' & Ea & Hs' & Hf').
  { unfold has_room, SIZEOF_EDGE, alen in *. pose proof (edges_of_length L). lia. }
  exists r'. split; [done|]. split; [by etrans|]. rewrite edges_of_cons. destruct HB as [<- <-]. done.
Qed.

Lemma quad_step_sim ddx ddy :
  op_sim (beside (drawn r1)) (fun s => length s.2) N (quad_step record ddx ddy) (quad_step addLine ddx ddy).
Proof.
  intros [[[[xa ya] dx] dy] L] s' E. unfold quad_step in E. apply bind_Some in E as (L' & EL & [= <-]).
  destruct (addLine_sim _ _ _ _ _ _ EL) as [Hl Hs]. cbn [snd]. split; [done|].
  intros [[[[xa' ya'] dx'] dy'] r] [[= <- <- <- <-] Hr] Hsz. destruct (Hs r Hr Hsz) as (r' & Er & Hr').
  eexists. split; [unfold quad_step; rewrite Er; mred; done|]. by split.
Qed.

Lemma quad_sim xa ya c x2 y2 : op_sim (drawn r1) length N
  (quadBreakIntoLinesAndAdd record xa ya c x2 y2) (quadBreakIntoLinesAndAdd addLine xa ya c x2 y2).
Proof.
  intros L L' E. unfold quadBreakIntoLinesAndAdd in *. apply bind_Some in E as (count & -> & E). mred.
  apply bind_Some in E as ([[[[xe ye] dx] dy] L1] & Ef & Ea).
  destruct (op_sim_for _ _ _ _ 0 _ _ (fun _ => quad_step_sim _ _) _ _ Ef) as [Hl Hs]. cbn [snd] in *.
  destruct (addLine_sim _ _ _ _ _ _ Ea) as [Hl' Hs']. split; [lia|]. intros r Hr Hsz.
  destruct (Hs (xa, ya, fadd (fdiv (c_bx c) (of_int (i32 (count * count)))) (fdiv (c_cx c) (of_int count)),
    fadd (fdiv (c_by c) (of_int (i32 (count * count)))) (fdiv (c_cy c) (of_int count)), r)) as (t1 & Et & Hp & Hr1); [by split|lia|].
  destruct t1 as [x1 rr]. cbn [fst snd] in Hp, Hr1. subst x1. mred. unfold for_lt. cbv zeta. rewrite Et. mred. by apply Hs'.
Qed.

Lemma cubic_step_sim n x3 y3 :
  op_sim (beside (drawn r1)) (fun s => length s.2) N (cubic_step record n x3 y3) (cubic_step addLine n x3 y3).
Proof.
  intros [[[[[a xa] ya] x1] y1] L] s' E. unfold cubic_step in E.
  apply bind_Some in E as (a1 & E1 & E). apply bind_Some in E as (a2 & E2 & E).
  match type of E with context [if ?b then _ else _] => destruct b eqn:Ev end;
    apply bind_Some in E as (L' & EL & [= <-]);
    destruct (addLine_sim _ _ _ _ _ _ EL) as [Hl Hs]; cbn [snd]; (split; [done|]);
    intros [[[[[b xa'] ya'] x1'] y1'] r] [[= <- <- <- <- <-] Hr] Hsz; destruct (Hs r Hr Hsz) as (r' & Er & Hr');
    (eexists; split; [unfold cubic_step; rewrite E1; mred; rewrite E2; mred; rewrite Ev, Er; mred; done|by split]).
Qed.

Lemma cubic_sim n xa ya c x3 y3 : op_sim (drawn r1) length N
  (curveBreakIntoLinesAndAdd record n xa ya c x3 y3) (curveBreakIntoLinesAndAdd addLine n xa ya c x3 y3).
Proof.
  intros L L' E. unfold curveBreakIntoLinesAndAdd in *. apply bind_Some in E as ([[[[[a xe] ye] x1] y1] L1] & Ef & [= <-]).
  assert (Hsim : op_sim (beside (drawn r1)) (fun s => length s.2) N
    (while_fuel n (fun '((a, _, _, _, _, _) : afd * jfloat * jfloat * jfloat * jfloat * list line) => 0 <? a_count a) (cubic_step record n x3 y3))
    (while_fuel n (fun '((a, _, _, _, _, _) : afd * jfloat * jfloat * jfloat * jfloat * Renderer) => 0 <? a_count a) (cubic_step addLine n x3 y3))).
  { apply op_sim_while; [|apply cubic_step_sim].
    by intros [[[[[? ?] ?] ?] ?] ?] [[[[[? ?] ?] ?] ?] ?] [[= -> -> -> -> ->] _]. }
  destruct (Hsim _ _ Ef) as [Hl Hs].
  cbn [snd] in *. split; [done|]. intros r Hr Hsz.
  destruct (Hs (afd_start c, xa, ya, xa, ya, r)) as ([x rr] & -> & Hp & Hr1); [by split|done|].
  cbn [fst snd] in Hp, Hr1. subst x. mred. eauto.
Qed.
End lines.

(** The renderer is at the recorder's point and holds its edges. *)
Definition holds (p : Pen) (r : Renderer) : Prop :=
  (boundsMinX r = boundsMinX r0 /\ boundsMinY r = boundsMinY r0 /\ boundsMaxX r = boundsMaxX r0 /\
   boundsMaxY r = boundsMaxY r0 /\ windingRule r = windingRule r0) /\
  (x0 r = pen_x p /\ y0 r = pen_y p /\ pix_sx0 r = pen_sx p /\ pix_sy0 r = pen_sy p) /\
  scene r (edges_of (pen_lines p)).

Definition pen_size (p : Pen) : nat := length (pen_lines p).

(** Adding lines to the current subpath and moving to its end. *)
Lemma draw p r f h xe ye L' : holds p r ->
  (forall r1, boundsMinY r1 = boundsMinY r0 /\ boundsMaxY r1 = boundsMaxY r0 -> op_sim (drawn r1) length N f h) ->
  f (pen_lines p) = Some L' -> (length L' <= N)%nat ->
  exists r', h r = Some r' /\ holds (mkPen xe ye (pen_sx p) (pen_sy p) L') (set_point xe ye r').
Proof.
  intros ((B1 & B2 & B3 & B4 & B5) & (P1 & P2 & P3 & P4) & Hs) Hsim E Hsz.
  destruct (Hsim r ltac:(done) _ _ E) as [_ S]. destruct (S r) as (r' & Er & Hf & Hs'); [by split|done|].
  exists r'. split; [done|]. unfold holds, same_frame in *.
  cbn [boundsMinX boundsMinY boundsMaxX boundsMaxY windingRule x0 y0 pix_sx0 pix_sy0 set_point pen_x pen_y pen_sx pen_sy pen_lines].
  destruct Hf as (-> & -> & -> & -> & -> & _ & _ & Hsx & Hsy & _).
  split; [done|]. split; [rewrite Hsx, Hsy; done|]. destruct Hs'; by split.
Qed.

Lemma holds_set_curve p r c : holds p r -> holds p (set_curve c r).
Proof. intros (? & ? & []). split; [done|]. split; [done|]. by split. Qed.

Context (g : statics) (fuel : nat).

Lemma lineTo_sim x y : op_sim holds pen_size N (pen_lineTo g x y) (Renderer_lineTo g x y).
Proof.
  intros p p' E. unfold pen_lineTo in E. apply bind_Some in E as (L' & EL & [= <-]). unfold pen_size. cbn [pen_lines].
  pose proof (fun r1 Hb => addLine_sim r1 Hb (pen_x p) (pen_y p) (tosubpixx g x) (tosubpixy g y)) as Hsim.
  split; [apply (Hsim r0 ltac:(done) _ _ EL)|]. intros r Hr Hsz.
  destruct (draw p r _ _ (tosubpixx g x) (tosubpixy g y) L' Hr Hsim EL Hsz) as (r' & Er & Hr').
  destruct Hr as (_ & (P1 & P2 & _) & _). unfold Renderer_lineTo. rewrite P1, P2, Er. mred. eauto.
Qed.

Lemma closePath_sim : op_sim holds pen_size N (pen_closePath g) (Renderer_closePath g).
Proof.
  intros p p' E. destruct (lineTo_sim _ _ _ _ E) as [Hl S]. split; [done|]. intros r Hr Hsz.
  unfold Renderer_closePath. pose proof Hr as (_ & (_ & _ & P3 & P4) & _). rewrite P3, P4. by apply S.
Qed.

Lemma moveTo_sim x y : op_sim holds pen_size N (pen_moveTo g x y) (Renderer_moveTo g x y).
Proof.
  intros p p' E. unfold pen_moveTo in E. apply bind_Some in E as (p1 & E1 & [= <-]).
  destruct (closePath_sim _ _ E1) as [Hl S]. split; [done|]. intros r Hr Hsz.
  destruct (S r Hr Hsz) as (r' & Er & (? & _ & [])). unfold Renderer_moveTo. rewrite Er. mred. eexists. split; [done|].
  split; [done|]. split; [done|]. by split.
Qed.

Lemma quadTo_sim x1 y1 x2 y2 : op_sim holds pen_size N (pen_quadTo g x1 y1 x2 y2) (Renderer_quadTo g x1 y1 x2 y2).
Proof.
  intros p p' E. unfold pen_quadTo in E. apply bind_Some in E as (L' & EL & [= <-]). unfold pen_size. cbn [pen_lines].
  set (xe := tosubpixx g x2) in *. set (ye := tosubpixy g y2) in *.
  set (c := Curve_setquad (pen_x p) (pen_y p) (tosubpixx g x1) (tosubpixy g y1) xe ye) in *.
  pose proof (fun r1 Hb => quad_sim r1 Hb (pen_x p) (pen_y p) c xe ye) as Hsim.
  split; [apply (Hsim r0 ltac:(done) _ _ EL)|]. intros r Hr Hsz.
  destruct (draw p (set_curve c r) _ _ xe ye L' (holds_set_curve _ _ c Hr) Hsim EL Hsz) as (r' & Er & Hr').
  destruct Hr as (_ & (P1 & P2 & _) & _). unfold Renderer_quadTo. cbn [x0 y0 curve set_curve].
  rewrite P1, P2. fold xe ye c. rewrite Er. mred. eauto.
Qed.

Lemma curveTo_sim x1 y1 x2 y2 x3 y3 :
  op_sim holds pen_size N (pen_curveTo g fuel x1 y1 x2 y2 x3 y3) (Renderer_curveTo g fuel x1 y1 x2 y2 x3 y3).
Proof.
  intros p p' E. unfold pen_curveTo in E. apply bind_Some in E as (L' & EL & [= <-]). unfold pen_size. cbn [pen_lines].
  set (xe := tosubpixx g x3) in *. set (ye := tosubpixy g y3) in *.
  set (c := Curve_setcubic (pen_x p) (pen_y p) (tosubpixx g x1) (tosubpixy g y1) (tosubpixx g x2) (tosubpixy g y2) xe ye) in *.
  pose proof (fun r1 Hb => cubic_sim r1 Hb fuel (pen_x p) (pen_y p) c xe ye) as Hsim.
  split; [apply (Hsim r0 ltac:(done) _ _ EL)|]. intros r Hr Hsz.
  destruct (draw p (set_curve c r) _ _ xe ye L' (holds_set_curve _ _ c Hr) Hsim EL Hsz) as (r' & Er & Hr').
  destruct Hr as (_ & (P1 & P2 & _) & _). unfold Renderer_curveTo. cbn [x0 y0 curve set_curve].
  rewrite P1, P2. fold xe ye c. rewrite Er. mred. eauto.
Qed.

(** The renderer as a consumer refines the recorder. *)
Lemma renderer_sim : consumer_sim holds pen_size N (pen_consumer g fuel) (renderer_consumer g fuel).
Proof.
  split; [apply moveTo_sim|apply lineTo_sim|apply quadTo_sim|apply curveTo_sim|apply closePath_sim|apply closePath_sim].
Qed.
End flattening.

(** ** Closed paths *)

(** Whether a point is below row [y]. *)
Definition below_row (y : Z) (p : jfloat) : Z := if y <? row p then 1 else 0.

Definition rise (y : Z) (l : line) : Z := let '(_, ya, _, yb) := l in below_row y yb - below_row y ya.
Definition rises (y : Z) (L : list line) : Z := foldr (fun l s => rise y l + s) 0 L.

Lemma rises_cons y xa ya xb yb L : rises y ((xa, ya, xb, yb) :: L) = below_row y yb - below_row y ya + rises y L.
Proof. done. Qed.

(** A consumer that does nothing: simulation by it is preservation of an invariant. *)
Definition idle_consumer : PathConsumer unit :=
  mkPathConsumer (fun _ _ => Some) (fun _ _ => Some) (fun _ _ _ _ => Some) (fun _ _ _ _ _ _ => Some) Some Some.

Definition keeps_inv {A} (P : A -> Prop) (f : A -> option A) : Prop :=
  op_sim (fun s (_ : unit) => P s) (fun _ => 0%nat) 0 f Some.

Lemma keeps_inv_intro {A} (P : A -> Prop) f : (forall s s', f s = Some s' -> P s -> P s') -> keeps_inv P f.
Proof. intros H s s' E. split; [done|]. intros t Hs _. eauto. Qed.

Section closed.
Context (g : statics) (fuel : nat) (y : Z).

(** The lines lead from the start of the subpath to the current point; the closed
    subpaths before it cancel. *)
Definition connected (p : Pen) : Prop :=
  rises y (pen_lines p) = below_row y (pen_y p) - below_row y (tosubpixy g (pen_sy p)).

(** Flattening leads from the first point to the last. *)
Lemma quad_connected xa ya c x2 y2 L L' : quadBreakIntoLinesAndAdd record xa ya c x2 y2 L = Some L' ->
  rises y L' = rises y L + below_row y y2 - below_row y ya.
Proof.
  unfold quadBreakIntoLinesAndAdd. intros E. apply bind_Some in E as (count & _ & E).
  apply bind_Some in E as ([[[[xe ye] dx] dy] L1] & Ef & [= <-]).
  pose (P := fun s : jfloat * jfloat * jfloat * jfloat * list line =>
    rises y s.2 = rises y L + below_row y s.1.1.1.2 - below_row y ya).
  assert (HP : P (xe, ye, dx, dy, L1)).
  { eapply (for_from_partial P); [|exact Ef|unfold P; cbn [fst snd]; lia]. intros _ [[[[xs ys] dxs] dys] Ls] s' E Hs.
    unfold quad_step, record in E. mred_in E. simplify_eq. unfold P in *. cbn [fst snd] in *. rewrite rises_cons. lia. }
  unfold P in HP. cbn [fst snd] in HP. rewrite rises_cons. lia.
Qed.

Lemma cubic_connected xa ya c x3 y3 L L' : curveBreakIntoLinesAndAdd record fuel xa ya c x3 y3 L = Some L' ->
  rises y L' = rises y L + below_row y y3 - below_row y ya.
Proof.
  unfold curveBreakIntoLinesAndAdd. intros E. apply bind_Some in E as ([[[[[a xe] ye] x1] y1] L1] & Ef & [= <-]).
  pose (more := fun '((a, _, _, _, _, _) : afd * jfloat * jfloat * jfloat * jfloat * list line) => 0 <? a_count a).
  pose (P := fun s : afd * jfloat * jfloat * jfloat * jfloat * list line =>
    rises y s.2 = rises y L + below_row y s.1.1.1.2 - below_row y ya /\ (more s = true \/ s.1.1.1.2 = y3)).
  assert (HP : P (a, xe, ye, x1, y1, L1) /\ more (a, xe, ye, x1, y1, L1) = false).
  { eapply (while_fuel_partial P); [|exact Ef|unfold P; cbn [fst snd]; split; [lia|by left]].
    intros [[[[[as_ xs] ys] x1s] y1s] Ls] s' E [Hs _]. unfold cubic_step in E.
    apply bind_Some in E as (a1 & E1 & E). apply bind_Some in E as (a2 & E2 & E). cbv zeta in E.
    match type of E with context [if ?b then _ else _] => destruct b eqn:Ev end; unfold record in E; mred_in E; simplify_eq;
      unfold P in *; cbn [fst snd] in *; rewrite rises_cons; (split; [lia|]); [left|right]; done. }
  destruct HP as [[HP [Hm|Hm]] Hf]; [congruence|]. cbn [fst snd] in *. by rewrite Hm in HP.
Qed.

(** Every operation keeps the lines connected. *)
Lemma connected_sim :
  consumer_sim (fun p (_ : unit) => connected p) (fun _ => 0%nat) 0 (pen_consumer g fuel) idle_consumer.
Proof.
  assert (Hline : forall x ye p p', pen_lineTo g x ye p = Some p' -> connected p -> connected p' /\ pen_sy p' = pen_sy p /\ pen_y p' = tosubpixy g ye).
  { intros x ye p p' [= <-] Hp. unfold connected in *. cbn [pen_lines pen_y pen_sy] in *. rewrite rises_cons. split; [lia|done]. }
  split; intros; apply keeps_inv_intro; intros p p' E Hp; cbn [pen_consumer moveTo lineTo quadTo curveTo closePath pathDone] in E.
  - unfold pen_moveTo in E. apply bind_Some in E as (p1 & E1 & [= <-]).
    destruct (Hline _ _ _ _ E1 Hp) as (Hc & Hs & Hy). unfold connected in *. cbn [pen_lines pen_y pen_sy] in *. rewrite Hs, Hy in Hc. lia.
  - by apply (Hline _ _ _ _ E).
  - unfold pen_quadTo in E. apply bind_Some in E as (L' & EL & [= <-]). apply quad_connected in EL. unfold connected in *. cbn [pen_lines pen_y pen_sy] in *. lia.
  - unfold pen_curveTo in E. apply bind_Some in E as (L' & EL & [= <-]). apply cubic_connected in EL. unfold connected in *. cbn [pen_lines pen_y pen_sy] in *. lia.
  - by apply (Hline _ _ _ _ E).
  - by apply (Hline _ _ _ _ E).
Qed.
End closed.

(** *** Winding numbers *)

(** The order of the two ends by their coordinates is their order by rows. *)
Definition ordered (l : line) : bool :=
  let '(_, ya, _, yb) := l in if flt yb ya then row yb <=? row ya else row ya <=? row yb.

Lemma i32_even k : exists m, i32 (k << 1) = 2 * m.
Proof.
  destruct (i32_shift (k << 1)) as [j ->]. rewrite shiftl_mul by lia. exists (k + j * 2 ^ 31). change (2 ^ 32) with (2 * 2 ^ 31). lia.
Qed.

Lemma code_orientation e y : orientation (code e y) = if down e then 1 else -1.
Proof.
  unfold code, orientation. destruct (i32_even (jint_ceil (fsub (crossing_at e y) f_half))) as [m ->].
  assert (Hor : (2 * m) .| 1 = 2 * m + 1).
  { pose proof (lor_shiftl_add m 1 1 ltac:(lia) ltac:(lia)) as H. rewrite shiftl_mul in H by lia.
    change (2 ^ 1) with 2 in H. rewrite (Z.mul_comm 2 m). exact H. }
  destruct (down e); rewrite ?Hor, (land_mask _ 1), shiftl_mul by done; change (2 ^ 1) with 2.
  - replace ((2 * m + 1) mod 2) with 1 by dlia. done.
  - replace ((2 * m) mod 2) with 0 by dlia. done.
Qed.

(** An ordered line contributes its rise. *)
Lemma line_rise r0 l y : ordered l = true -> boundsMinY r0 <= y < boundsMaxY r0 ->
  total (row_codes (opt_cons (line_edge (boundsMinY r0) (boundsMaxY r0) l) []) y) = rise y l.
Proof.
  destruct l as [[[xa ya] xb] yb]. intros Ho Hy. unfold ordered in Ho. unfold line_edge, rise, below_row.
  destruct (flt yb ya); cbn [negb]; apply Z.leb_le in Ho;
    match goal with |- context [if ?f <? ?t then Some _ else None] => destruct (Z.ltb_spec f t) end; cbn [opt_cons];
    try (unfold row_codes; cbn; cases; fail); unfold row_codes; rewrite filter_cons, filter_nil;
    match goal with |- context [decide ?P] => destruct (decide P) as [Hl|Hl] end; unfold live in Hl; cbn [first last] in Hl;
    cbn [fmap list_fmap total foldr]; rewrite ?code_orientation; cbn [down]; cases.
Qed.

Lemma edges_total r0 L y : Forall (fun l => ordered l = true) L -> boundsMinY r0 <= y < boundsMaxY r0 ->
  total (row_codes (edges_of r0 L) y) = rises y L.
Proof.
  intros Ho Hy. induction Ho as [|l L Hl _ IH]; [done|]. rewrite edges_of_cons.
  assert (Happ : forall o E, row_codes (opt_cons o E) y = row_codes (opt_cons o []) y ++ row_codes E y).
  { intros [e|] E; [|done]. unfold row_codes. cbn [opt_cons]. rewrite !filter_cons, filter_nil.
    by destruct (decide (live y e)). }
  rewrite Happ, total_app, (line_rise r0 l y Hl Hy), IH. destruct l as [[[xa ya] xb] yb]. done.
Qed.

Lemma edges_of_rows r0 L e : e ∈ edges_of r0 L -> boundsMinY r0 <= first e /\ last e <= boundsMaxY r0.
Proof.
  intros He. unfold edges_of in He. apply list_elem_of_omap in He as ([[[xa ya] xb] yb] & _ & El). unfold line_edge in El.
  repeat case_match; simplify_eq; cbn [first last]; lia.
Qed.

Lemma tosubpixy_zero g : 0 <= SUBPIXEL_LG_POSITIONS_Y g < 24 -> tosubpixy g f_zero = f_zero.
Proof.
  intros Hlg. unfold tosubpixy, SUBPIXEL_POSITIONS_Y, fmul, of_int. rewrite shiftl_mul by lia.
  assert (Hp : 0 < 1 * 2 ^ SUBPIXEL_LG_POSITIONS_Y g < 2 ^ 24).
  { rewrite Z.mul_1_l. split; [apply Z.pow_pos_nonneg; lia|apply Z.pow_lt_mono_r; lia]. }
  destruct (1 * 2 ^ SUBPIXEL_LG_POSITIONS_Y g) as [|m|m]; [lia| |lia]. cbn [SpecFloat.binary_normalize].
  destruct (round_small false m) as (M & -> & _); [lia|done].
Qed.

(** A consumer that has a recorder behind it: whatever it does keeps the lines connected,
    and when it is done the last subpath is closed. *)
Record draws_closed {X} (pen : X -> Pen) (g : statics) (C : PathConsumer X) : Prop := {
  dc_connected : forall y, exists ct, consumer_sim (fun x (_ : unit) => connected g y (pen x)) (fun _ => 0%nat) 0 C ct;
  dc_done : forall x x', pathDone C x = Some x' -> pen_y (pen x') = tosubpixy g (pen_sy (pen x')) }.

Lemma pen_draws_closed g fuel t : draws_closed id g (Transformer_init t (pen_consumer g fuel)).
Proof.
  split.
  - intros y. eexists. apply transformer_sim, connected_sim.
  - intros p p' E. unfold Transformer_init in E. destruct (transform_kind t); cbn in E; by simplify_eq.
Qed.

(** The edges of a path that is done are balanced. *)
Lemma fed_balanced {X} (pen : X -> Pen) g C pinned coords coordSize commands numCommands r0 x0 x : draws_closed pen g C ->
  feedConsumer pinned C coords coordSize commands numCommands x0 = Some (None, x) -> pen x0 = pen_start ->
  0 <= SUBPIXEL_LG_POSITIONS_Y g < 24 -> Forall (fun l => ordered l = true) (pen_lines (pen x)) ->
  balanced (edges_of r0 (pen_lines (pen x))).
Proof.
  intros HC E H0 Hlg Ho y. destruct (decide (boundsMinY r0 <= y < boundsMaxY r0)) as [Hy|Hy].
  - rewrite (edges_total r0 _ y Ho Hy).
    destruct (dc_connected _ _ _ HC y) as [ct Hct].
    destruct (feedConsumer_sim _ _ 0 _ _ pinned coords coordSize commands numCommands x0 None x tt Hct E)
      as (_ & _ & Hc); [|done|].
    { rewrite H0. unfold connected. cbn [pen_start pen_lines pen_y pen_sy]. rewrite tosubpixy_zero by done. cbn [rises foldr]. lia. }
    unfold connected in Hc. rewrite Hc.
    assert (Hend : pen_y (pen x) = tosubpixy g (pen_sy (pen x))).
    { unfold feedConsumer in E. destruct (negb _ || negb _); [done|]. destruct (_ <? _); [done|].
      apply bind_Some in E as ([f1 x1] & _ & E). destruct f1; [done|]. apply bind_Some in E as (x2 & E & [= <-]).
      by eapply dc_done. }
    rewrite Hend. lia.
  - unfold row_codes. rewrite filter_none; [done|]. intros e He. apply edges_of_rows in He. unfold live. lia.
Qed.

(** ** Limits of the flattening *)

(** The loop that chooses the number of lines of a quadratic curve does not end when the
    second difference is infinite, as for finite coordinates that are far apart. *)
Example quad_loop_infinite n count :
  while_fuel n (fun '((maxDD, _) : jfloat * Z) => flt (of_int 32) maxDD)
    (fun '(maxDD, count) => Some (fdiv maxDD (of_int 4), i32 (count << 1))) (SpecFloat.S754_infinity false, count) = None.
Proof. revert count. induction n as [|n IH]; intros count; [done|]. exact (IH (i32 (count << 1))). Qed.

Example quad_infinite_difference :
  c_dbx (Curve_setquad BIGGEST_FLOAT f_zero f_zero f_zero BIGGEST_FLOAT f_zero) = SpecFloat.S754_infinity false.
Proof. vm_compute. reflexivity. Qed.

(** It looks at the signed difference: a curve and its mirror image get different numbers
    of lines. *)
Example quad_count_sign :
  quad_count (Curve_setquad (of_int 0) (of_int 0) (of_int (-8000)) (of_int 0) (of_int 0) (of_int 0)) = Some 32 /\
  quad_count (Curve_setquad (of_int 0) (of_int 0) (of_int 8000) (of_int 0) (of_int 0) (of_int 0)) = Some 16.
Proof. vm_compute. split; reflexivity. Qed.
