(* ===== verification/PrismRasterizerSpec.v ===== *)
(** * The fill entry point

    [produceFillAlphas] fills the mask with the alpha of the number of samples inside
    the path ([produceFillAlphas_spec]); the alpha maps are right whatever was set up
    before ([setup_ready]); every malformed path is reported and nothing is read outside
    its arrays ([feed_malformed]). *)

From Stdlib Require Import String.
From S2P Require Import Prelude.
From S2P Require Import Float32.
From S2P Require Import Float32Spec.
From S2P Require Import PrismRenderer.
From S2P Require Import PrismCoverage.
From S2P Require Import PrismEdges.
From S2P Require Import PrismScan.
From S2P Require Import PrismFill.
From S2P Require Import PrismRasterizer.
From S2P Require Import PrismPath.
#[local] Open Scope Z_scope.

(** ** A new renderer *)

Lemma aget_new n i : 0 <= i < n -> aget (new_int n) i = Some 0.
Proof. intros. unfold new_int. rewrite aget_lookup by lia. apply lookup_replicate. split; [done|lia]. Qed.

Lemma empty_scene r : edgeBuckets r = new_int (2 * (boundsMaxY r - boundsMinY r) + 2) -> boundsMinY r <= boundsMaxY r ->
  numEdges r = 0 -> sampleRowMin r = boundsMaxY r -> sampleRowMax r = boundsMinY r -> scene r [].
Proof.
  intros Hb Hle Hn Hmin Hmax. split; try done; try lia; [|intros k e H; by apply elem_of_nil in H]. split.
  - rewrite Z.mul_0_r. apply alen_nonneg.
  - intros k e H. by apply elem_of_nil in H.
  - constructor.
  - rewrite Hb. unfold new_int. rewrite alen_new; lia.
  - intros y Hy. exists 0. rewrite Hb. split; [apply aget_new; lia|]. split; [done|]. apply aget_new. lia.
Qed.

Section fill.
Context (g : statics) (lgx lgy : Z).

(** The static data after a set-up: resolutions in range and the map that belongs to
    them. *)
Definition ready : Prop :=
  SUBPIXEL_LG_POSITIONS_X g = lgx /\ 0 <= lgx <= 8 /\ SUBPIXEL_LG_POSITIONS_Y g = lgy /\ 0 <= lgy <= 8 /\
  alphaMap g = Some (alpha_map (2 ^ lgx * 2 ^ lgy)).

Hypothesis Hready : ready.

(** The bounds of a mask: not inverted, and small in samples. *)
Definition good_bounds (b0 b1 b2 b3 : Z) : Prop :=
  b0 <= b2 /\ b1 <= b3 /\ - 2 ^ 22 < b0 * 2 ^ lgx /\ b2 * 2 ^ lgx < 2 ^ 22 /\ - 2 ^ 22 < b1 * 2 ^ lgy /\ b3 * 2 ^ lgy < 2 ^ 22.

Lemma resolution_pos : 0 < 2 ^ lgx <= 256 /\ 0 < 2 ^ lgy <= 256.
Proof.
  destruct Hready as (_ & Hx & _ & Hy & _). change 256 with (2 ^ 8).
  split; (split; [apply Z.pow_pos_nonneg; lia|apply Z.pow_le_mono_r; lia]).
Qed.

Lemma reset_spec b0 b1 b2 b3 rule : good_bounds b0 b1 b2 b3 ->
  exists r, Renderer_reset g b0 b1 (i32 (b2 - b0)) (i32 (b3 - b1)) rule Renderer_init = Some r /\
    boundsMinX r = b0 * 2 ^ lgx /\ boundsMaxX r = b2 * 2 ^ lgx /\ boundsMinY r = b1 * 2 ^ lgy /\ boundsMaxY r = b3 * 2 ^ lgy /\
    windingRule r = rule /\ holds r pen_start r.
Proof.
  intros (H02 & H13 & X1 & X2 & Y1 & Y2). pose proof resolution_pos as [HX HY].
  destruct Hready as (Hgx & Hx & Hgy & Hy & _).
  assert (Hpx : SUBPIXEL_POSITIONS_X g = 2 ^ lgx) by (unfold SUBPIXEL_POSITIONS_X; rewrite Hgx, shiftl_mul; lia).
  assert (Hpy : SUBPIXEL_POSITIONS_Y g = 2 ^ lgy) by (unfold SUBPIXEL_POSITIONS_Y; rewrite Hgy, shiftl_mul; lia).
  unfold Renderer_reset. rewrite Hpx, Hpy.
  rewrite (i32_id (b2 - b0)), (i32_id (b3 - b1)) by (unfold in_i32; nia).
  replace (b0 + (b2 - b0)) with b2 by lia. replace (b1 + (b3 - b1)) with b3 by lia.
  assert (b0 * 2 ^ lgx <= b2 * 2 ^ lgx) by nia. assert (b1 * 2 ^ lgy <= b3 * 2 ^ lgy) by nia.
  rewrite !(i32_id (_ * 2 ^ _)) by (unfold in_i32; lia). rewrite !(i32_id (b3 * 2 ^ lgy - b1 * 2 ^ lgy)) by (unfold in_i32; lia).
  rewrite (i32_id ((b3 * 2 ^ lgy - b1 * 2 ^ lgy) * 2 + 2)) by (unfold in_i32; lia).
  cbn [edgeBuckets edges Renderer_init alen length]. change (alen []) with 0.
  rewrite (proj2 (Z.ltb_lt _ _)) by lia. mred. eexists. split; [done|].
  cbn [boundsMinX boundsMaxX boundsMinY boundsMaxY windingRule]. repeat (split; [done|]).
  apply empty_scene; cbn; try done. f_equal. lia.
Qed.

(** ** The mask *)

Lemma jint_ceil_range x : in_i32 (jint_ceil x).
Proof. unfold jint_ceil, in_i32. destruct (ceil_int x) as [z|]; [|lia]. cases. Qed.

(** The output bounds in pixels. *)
Lemma output_bounds r : in_i32 (boundsMinX r) -> - 2 ^ 30 < boundsMaxX r < 2 ^ 30 -> - 2 ^ 30 < sampleRowMax r < 2 ^ 30 ->
  Renderer_getOutputBounds g r =
  (getSubpixMinX r / 2 ^ lgx, sampleRowMin r / 2 ^ lgy, (getSubpixMaxX r + 2 ^ lgx - 1) / 2 ^ lgx,
   (sampleRowMax r + 2 ^ lgy - 1) / 2 ^ lgy).
Proof.
  intros HX0 HX1 HY. pose proof resolution_pos as [HX' HY']. destruct Hready as (Hgx & Hx & Hgy & Hy & _).
  assert (Hmx : SUBPIXEL_MASK_X g = 2 ^ lgx - 1) by (unfold SUBPIXEL_MASK_X, SUBPIXEL_POSITIONS_X; rewrite Hgx, shiftl_mul; lia).
  assert (Hmy : SUBPIXEL_MASK_Y g = 2 ^ lgy - 1) by (unfold SUBPIXEL_MASK_Y, SUBPIXEL_POSITIONS_Y; rewrite Hgy, shiftl_mul; lia).
  assert (HM : - 2 ^ 31 <= getSubpixMaxX r <= boundsMaxX r).
  { unfold getSubpixMaxX. pose proof (jint_ceil_range (fsub (edgeMaxX r) f_half)) as []. cases. }
  unfold Renderer_getOutputBounds. rewrite Hmx, Hmy, Hgx, Hgy, !shiftr_div by lia.
  rewrite !i32_id by (unfold in_i32; lia). do 2 f_equal; f_equal; lia.
Qed.

(** The mask of the pixels from ([xa], [ya]) to ([xb], [yb]) holds the alpha of their
    samples inside; what lies behind it in the array is as before. *)
Definition mask_filled (rule : Z) (E : list Edge) (xa ya xb yb : Z) (mask mask' : list Z) : Prop :=
  forall k, aget mask' k =
    if (0 <=? k) && (k <? (xb - xa) * (yb - ya)) then
      aget (alpha_map (2 ^ lgx * 2 ^ lgy)) (pixel_samples lgx lgy rule E (xa + k mod (xb - xa)) (ya + k / (xb - xa)))
    else aget mask k.

Lemma alen_alpha_map n : 0 <= n -> alen (alpha_map n) = n + 1.
Proof. intros. unfold alpha_map, alen. rewrite length_fmap, length_seq. lia. Qed.

Section emit.
Context (r : Renderer) (E : list Edge) (b0 b1 b2 b3 : Z).
Hypothesis Hgood : good_bounds b0 b1 b2 b3.
Hypothesis HminX : boundsMinX r = b0 * 2 ^ lgx.
Hypothesis HmaxX : boundsMaxX r = b2 * 2 ^ lgx.
Hypothesis HminY : boundsMinY r = b1 * 2 ^ lgy.
Hypothesis HmaxY : boundsMaxY r = b3 * 2 ^ lgy.
Hypothesis Hscene : scene r E.
Hypothesis Hfew : SIZEOF_EDGE * alen E < 2 ^ 24.
Hypothesis Hbal : balanced E.

Lemma columns_in_bounds : b0 * 2 ^ lgx <= getSubpixMinX r /\ getSubpixMaxX r <= b2 * 2 ^ lgx.
Proof. rewrite <- HminX, <- HmaxX. unfold getSubpixMinX, getSubpixMaxX. split; cases. Qed.

(** An empty renderer has an empty mask. *)
Lemma empty_rows : E = [] -> (sampleRowMax r + 2 ^ lgy - 1) / 2 ^ lgy <= sampleRowMin r / 2 ^ lgy.
Proof.
  intros HE. destruct (sc_empty _ _ Hscene HE) as [-> ->]. rewrite HminY, HmaxY. pose proof resolution_pos as [_ HY].
  rewrite Z.div_mul by lia. replace (b1 * 2 ^ lgy + 2 ^ lgy - 1) with (2 ^ lgy - 1 + b1 * 2 ^ lgy) by lia.
  rewrite Z.div_add, Z.div_small by lia. destruct Hgood. lia.
Qed.

(** No pixel above or below the mask has a sample inside. *)
Lemma outside_rows px py : ~ (sampleRowMin r / 2 ^ lgy <= py < (sampleRowMax r + 2 ^ lgy - 1) / 2 ^ lgy) ->
  pixel_samples lgx lgy (windingRule r) E px py = 0.
Proof.
  intros Hpy. pose proof resolution_pos as [_ HY]. apply rows_sum_zero. intros y Hy. rewrite Z2Nat.id in Hy by lia.
  apply count_false. intros x _. unfold sample_inside. replace (row_codes E y) with (@nil Z); [done|].
  unfold row_codes. rewrite filter_none; [done|]. intros e He%list_elem_of_In Hl.
  pose proof (proj1 (Forall_forall _ _) (sc_rows _ _ Hscene) e He) as [? ?]. unfold live in Hl. apply Hpy. split.
  - assert (sampleRowMin r / 2 ^ lgy < py + 1) by (apply Z.div_lt_upper_bound; lia). lia.
  - assert (py + 1 <= (sampleRowMax r + 2 ^ lgy - 1) / 2 ^ lgy) by (apply Z.div_le_lower_bound; lia). lia.
Qed.

Lemma emit_mask_spec detail bounds mask : exists o xa ya xb yb,
  emit_mask g detail true r bounds mask = Some o /\ bounds_out o = xa :: ya :: xb :: yb :: drop 4 bounds /\
  (if (xa <? xb) && (ya <? yb) then
     if Z.quot (alen mask) (xb - xa) <? yb - ya then thrown o = Some (AIOOBException detail) /\ mask_out o = mask
     else thrown o = None /\ mask_filled (windingRule r) E xa ya xb yb mask (mask_out o)
   else thrown o = None /\ mask_out o = mask) /\
  (forall px py, ~ (ya <= py < yb) -> pixel_samples lgx lgy (windingRule r) E px py = 0).
Proof.
  pose proof columns_in_bounds as [Hc0 Hc1]. pose proof resolution_pos as [HX HY].
  pose proof Hgood as (H02 & H13 & X1 & X2 & Y1 & Y2). pose proof (sc_min _ _ Hscene). pose proof (sc_max _ _ Hscene).
  assert (Hx02 : b0 * 2 ^ lgx <= b2 * 2 ^ lgx) by nia. assert (Hy13 : b1 * 2 ^ lgy <= b3 * 2 ^ lgy) by nia.
  assert (HrowMax : - 2 ^ 30 < sampleRowMax r < 2 ^ 30).
  { destruct E as [|e E'] eqn:HE; [destruct (sc_empty _ _ Hscene eq_refl); lia|].
    pose proof (sc_tight _ _ Hscene ltac:(done)). lia. }
  unfold emit_mask. rewrite (output_bounds r) by (unfold in_i32; lia). pose proof outside_rows as Hout.
  set (xa := getSubpixMinX r / 2 ^ lgx). set (ya := sampleRowMin r / 2 ^ lgy) in *.
  set (xb := (getSubpixMaxX r + 2 ^ lgx - 1) / 2 ^ lgx). set (yb := (sampleRowMax r + 2 ^ lgy - 1) / 2 ^ lgy) in *.
  enough (exists o, (if (xa <? xb) && (ya <? yb) then _ else _) = Some o /\ bounds_out o = xa :: ya :: xb :: yb :: drop 4 bounds /\ _)
    as (o & Eo & Hb & Hres) by (exists o, xa, ya, xb, yb; split; [exact Eo|]; split; [exact Hb|]; split; [exact Hres|exact Hout]).
  destruct (Z.ltb_spec xa xb) as [Hx|]; cbn [andb]; [|eexists; split; [done|done]].
  destruct (Z.ltb_spec ya yb) as [Hy|]; [|eexists; split; [done|done]].
  assert (Hxa : b0 <= xa) by (apply Z.div_le_lower_bound; lia).
  assert (Hxb : xb <= b2) by (unfold xb; enough ((getSubpixMaxX r + 2 ^ lgx - 1) / 2 ^ lgx < b2 + 1) by lia; apply Z.div_lt_upper_bound; lia).
  assert (Hya : b1 <= ya) by (apply Z.div_le_lower_bound; lia).
  assert (Hyb : yb <= b3) by (unfold yb; enough ((sampleRowMax r + 2 ^ lgy - 1) / 2 ^ lgy < b3 + 1) by lia; apply Z.div_lt_upper_bound; lia).
  rewrite (i32_id (xb - xa)), (i32_id (yb - ya)) by (unfold in_i32; nia).
  destruct (Z.ltb_spec (Z.quot (alen mask) (xb - xa)) (yb - ya)) as [|Hroom]; [eexists; split; [done|done]|]. cbn [negb].
  assert (Hroom' : (yb - ya) * (xb - xa) <= alen mask).
  { rewrite Z.quot_div_nonneg in Hroom by (pose proof (alen_nonneg mask); lia).
    pose proof (Z.mul_div_le (alen mask) (xb - xa) ltac:(lia)). nia. }
  destruct Hready as (Hgx & Hlx & Hgy & Hly & Hmap).
  destruct (produceAlphas_fills g r E lgx lgy (xb - xa) xa ya (alpha_map (2 ^ lgx * 2 ^ lgy)) mask) with
    (ac := mkConsumer xa ya (xb - xa) (yb - ya) mask) as (r' & ac' & Ep & Hfill); try done; try lia.
  - rewrite alen_alpha_map by nia. nia.
  - unfold in_i32. replace (xa + (xb - xa)) with xb by lia.
    assert (b0 * 2 ^ lgx <= xa * 2 ^ lgx) by nia. assert (xb * 2 ^ lgx <= b2 * 2 ^ lgx) by nia. assert (xa * 2 ^ lgx <= xb * 2 ^ lgx) by nia. lia.
  - intros HE. pose proof (empty_rows HE) as Hr. fold ya yb in Hr. lia.
  - rewrite Ep. mred. eexists. split; [done|]. split; [done|]. split; [done|]. cbn [mask_out]. intros k. rewrite (Hfill k).
    unfold mask_rows. fold yb. by rewrite (Z.mul_comm (yb - ya)).
Qed.
End emit.
End fill.

Lemma forallb_Forall {A} (f : A -> bool) l : forallb f l = true -> Forall (fun x => f x = true) l.
Proof. intros H. by apply Forall_forall, forallb_forall. Qed.

(** ** The native method *)

(** The lines of a path, as the recorder flattens it. *)
Definition path_lines (g : statics) (fuel : nat) (t : Transformer) (coords : list jfloat) (commands : list Z) (numCommands : Z)
  : option (failure * Pen) :=
  feedConsumer (true, true) (Transformer_init t (pen_consumer g fuel)) coords (alen coords) commands numCommands pen_start.

(** A consumer with a recorder behind it and one with a renderer behind it, related: fed
    with the same path, the renderer holds the edges of the recorded lines. *)
Section fed.
Context {X Y : Type} (pen : X -> Pen) (ren : Y -> Renderer) (rel : Renderer -> X -> Y -> Prop).
Context (CS : PathConsumer X) (CT : PathConsumer Y) (g : statics) (lgx lgy : Z).
Hypothesis Hready : ready g lgx lgy.
Hypothesis Hholds : forall r0 x y, rel r0 x y -> holds r0 (pen x) (ren y).
Hypothesis Hsim : forall r0 N, SIZEOF_EDGE * Z.of_nat N + SIZEOF_EDGE < 2 ^ 24 ->
  consumer_sim (rel r0) (fun x => pen_size (pen x)) N CS CT.
Hypothesis Hclosed : draws_closed pen g CS.

Context (b0 b1 b2 b3 : Z) (rule : Z) (r0 : Renderer) (x0 x : X) (y0 : Y) (coords : list jfloat) (commands : list Z) (numCommands : Z).
Hypothesis Hgood : good_bounds lgx lgy b0 b1 b2 b3.
Hypothesis Hr0 : Renderer_reset g b0 b1 (i32 (b2 - b0)) (i32 (b3 - b1)) rule Renderer_init = Some r0.
Hypothesis Hrel : holds r0 pen_start r0 -> rel r0 x0 y0.
Hypothesis Hpen0 : pen x0 = pen_start.
Hypothesis Hfed : feedConsumer (true, true) CS coords (alen coords) commands numCommands x0 = Some (None, x).
Hypothesis Hfew : SIZEOF_EDGE * alen (pen_lines (pen x)) + SIZEOF_EDGE < 2 ^ 24.
Hypothesis Hord : Forall (fun l => ordered l = true) (pen_lines (pen x)).

Let E := omap (line_edge (b1 * 2 ^ lgy) (b3 * 2 ^ lgy)) (pen_lines (pen x)).

Lemma fed_scene : exists y, feedConsumer (true, true) CT coords (alen coords) commands numCommands y0 = Some (None, y) /\
  boundsMinX (ren y) = b0 * 2 ^ lgx /\ boundsMaxX (ren y) = b2 * 2 ^ lgx /\ boundsMinY (ren y) = b1 * 2 ^ lgy /\
  boundsMaxY (ren y) = b3 * 2 ^ lgy /\ windingRule (ren y) = rule /\ scene (ren y) E /\ balanced E.
Proof.
  destruct (reset_spec g lgx lgy Hready b0 b1 b2 b3 rule Hgood) as (r1 & Er & B1 & B2 & B3 & B4 & B5 & Hstart).
  rewrite Hr0 in Er. injection Er as <-.
  destruct (feedConsumer_sim (rel r0) (fun x => pen_size (pen x)) (length (pen_lines (pen x))) CS CT (true, true) coords (alen coords)
    commands numCommands x0 None x y0 (Hsim r0 _ Hfew) Hfed (Hrel Hstart) (le_n _)) as (y & Ef & Hy).
  destruct (Hholds _ _ _ Hy) as ((HB1 & HB2 & HB3 & HB4 & HB5) & _ & Hs).
  exists y. split; [exact Ef|]. rewrite HB1, HB2, HB3, HB4, HB5. repeat (split; [done|]). unfold edges_of in Hs. rewrite B3, B4 in Hs.
  split; [done|]. unfold E. rewrite <- B3, <- B4. change (balanced (edges_of r0 (pen_lines (pen x)))).
  eapply fed_balanced; [exact Hclosed|exact Hfed|done| |done]. destruct Hready as (_ & _ & -> & ? & _). lia.
Qed.

Lemma fed_mask detail rest mask : exists y o xa ya xb yb,
  feedConsumer (true, true) CT coords (alen coords) commands numCommands y0 = Some (None, y) /\
  emit_mask g detail true (ren y) (b0 :: b1 :: b2 :: b3 :: rest) mask = Some o /\ bounds_out o = xa :: ya :: xb :: yb :: rest /\
  (if (xa <? xb) && (ya <? yb) then
     if Z.quot (alen mask) (xb - xa) <? yb - ya then thrown o = Some (AIOOBException detail) /\ mask_out o = mask
     else thrown o = None /\ mask_filled lgx lgy rule E xa ya xb yb mask (mask_out o)
   else thrown o = None /\ mask_out o = mask) /\
  (forall px py, ~ (ya <= py < yb) -> pixel_samples lgx lgy rule E px py = 0).
Proof.
  destruct fed_scene as (y & Ef & B1 & B2 & B3 & B4 & B5 & Hs & Hbal).
  assert (HfewE : SIZEOF_EDGE * alen E < 2 ^ 24).
  { unfold alen, SIZEOF_EDGE in *. pose proof (edges_of_length (ren y) (pen_lines (pen x))) as Hl. unfold edges_of in Hl.
    rewrite B3, B4 in Hl. fold E in Hl. lia. }
  destruct (emit_mask_spec g lgx lgy Hready (ren y) E b0 b1 b2 b3 Hgood B1 B2 B3 B4 Hs HfewE Hbal detail
    (b0 :: b1 :: b2 :: b3 :: rest) mask) as (o & xa & ya & xb & yb & Eo & Hb & Hres). rewrite B5 in Hres.
  exists y, o, xa, ya, xb, yb. by split.
Qed.
End fed.

(** The arrays of the caller pass the checks. *)
Lemma check_arrays_ok coords commands b0 b1 b2 b3 rest mask numCommands : numCommands <= alen commands ->
  check_arrays (Some coords) (Some commands) (Some (b0 :: b1 :: b2 :: b3 :: rest)) (Some mask) numCommands =
  inr (coords, commands, b0 :: b1 :: b2 :: b3 :: rest, mask).
Proof.
  intros Hn. unfold check_arrays. rewrite (proj2 (Z.ltb_ge (alen (b0 :: b1 :: b2 :: b3 :: rest)) 4))
    by (autorewrite with alen; pose proof (alen_nonneg rest); lia).
  by rewrite (proj2 (Z.ltb_ge (alen commands) numCommands)).
Qed.

Lemma renderer_drawn g fuel t r0 N : SIZEOF_EDGE * Z.of_nat N + SIZEOF_EDGE < 2 ^ 24 ->
  consumer_sim (holds r0) pen_size N (Transformer_init t (pen_consumer g fuel)) (Transformer_init t (renderer_consumer g fuel)).
Proof. intros HN. apply transformer_sim. by apply renderer_sim. Qed.

(** The four entries of the bounds. *)
Ltac read_bounds :=
  match goal with |- context [aget (?a :: ?b :: ?c :: ?d :: ?l) 0] =>
    change (aget (a :: b :: c :: d :: l) 0) with (Some a); change (aget (a :: b :: c :: d :: l) 1) with (Some b);
    change (aget (a :: b :: c :: d :: l) 2) with (Some c); change (aget (a :: b :: c :: d :: l) 3) with (Some d); mred
  end.

(** The renderer after a path has been fed. *)
Lemma fill_path_spec g lgx lgy fuel t coords commands numCommands nonzero b0 b1 b2 b3 rest p :
  ready g lgx lgy -> good_bounds lgx lgy b0 b1 b2 b3 ->
  path_lines g fuel t coords commands numCommands = Some (None, p) ->
  SIZEOF_EDGE * alen (pen_lines p) + SIZEOF_EDGE < 2 ^ 24 -> Forall (fun l => ordered l = true) (pen_lines p) ->
  exists r, fill_path g fuel (true, true) coords commands numCommands nonzero t (b0 :: b1 :: b2 :: b3 :: rest) = Some (None, r) /\
    boundsMinX r = b0 * 2 ^ lgx /\ boundsMaxX r = b2 * 2 ^ lgx /\ boundsMinY r = b1 * 2 ^ lgy /\ boundsMaxY r = b3 * 2 ^ lgy /\
    windingRule r = (if nonzero then WIND_NON_ZERO else WIND_EVEN_ODD) /\
    scene r (omap (line_edge (b1 * 2 ^ lgy) (b3 * 2 ^ lgy)) (pen_lines p)) /\
    balanced (omap (line_edge (b1 * 2 ^ lgy) (b3 * 2 ^ lgy)) (pen_lines p)).
Proof.
  intros Hready Hgood Hp Hfew Hord. set (rule := if nonzero then WIND_NON_ZERO else WIND_EVEN_ODD).
  destruct (reset_spec g lgx lgy Hready b0 b1 b2 b3 rule Hgood) as (r0 & Er & _).
  destruct (fed_scene id id holds (Transformer_init t (pen_consumer g fuel)) (Transformer_init t (renderer_consumer g fuel)) g lgx lgy
    Hready (fun _ _ _ H => H) (renderer_drawn g fuel t) (pen_draws_closed g fuel t) b0 b1 b2 b3 rule r0 pen_start p r0 coords commands
    numCommands Hgood Er (fun H => H) eq_refl Hp Hfew Hord) as (r & Ef & Hr).
  exists r. split; [|exact Hr]. unfold fill_path. read_bounds. fold rule. rewrite Er. mred. exact Ef.
Qed.

(** C4: filling a path.  When the commands are well formed and the flattened lines fit,
    the native method returns: it reports the pixel bounds, throws exactly when the mask
    array is too short for them, and otherwise stores in every pixel of the mask the
    alpha of the number of its samples that are inside the path by the winding rule, and
    nothing elsewhere; no pixel above or below the reported bounds has a sample inside. *)
Theorem produceFillAlphas_spec g lgx lgy fuel t coords commands numCommands (nonzero : bool) b0 b1 b2 b3 rest mask p :
  ready g lgx lgy -> good_bounds lgx lgy b0 b1 b2 b3 -> numCommands <= alen commands ->
  path_lines g fuel t coords commands numCommands = Some (None, p) ->
  SIZEOF_EDGE * alen (pen_lines p) + SIZEOF_EDGE < 2 ^ 24 -> forallb ordered (pen_lines p) = true ->
  let E := omap (line_edge (b1 * 2 ^ lgy) (b3 * 2 ^ lgy)) (pen_lines p) in
  let rule := if nonzero then WIND_NON_ZERO else WIND_EVEN_ODD in
  exists o xa ya xb yb,
    produceFillAlphas g fuel (true, true) true (Some coords) (Some commands) numCommands nonzero t
      (Some (b0 :: b1 :: b2 :: b3 :: rest)) (Some mask) = Some o /\
    bounds_out o = xa :: ya :: xb :: yb :: rest /\
    (if (xa <? xb) && (ya <? yb) then
       if Z.quot (alen mask) (xb - xa) <? yb - ya then thrown o = Some (AIOOBException "maskArray") /\ mask_out o = mask
       else thrown o = None /\ mask_filled lgx lgy rule E xa ya xb yb mask (mask_out o)
     else thrown o = None /\ mask_out o = mask) /\
    (forall px py, ~ (ya <= py < yb) -> pixel_samples lgx lgy rule E px py = 0).
Proof.
  intros Hready Hgood Hn Hp Hfew Hord E rule. apply forallb_Forall in Hord.
  destruct (reset_spec g lgx lgy Hready b0 b1 b2 b3 rule Hgood) as (r0 & Er & _).
  destruct (fed_mask id id holds (Transformer_init t (pen_consumer g fuel)) (Transformer_init t (renderer_consumer g fuel)) g lgx lgy
    Hready (fun _ _ _ H => H) (renderer_drawn g fuel t) (pen_draws_closed g fuel t) b0 b1 b2 b3 rule r0 pen_start p r0 coords commands
    numCommands Hgood Er (fun H => H) eq_refl Hp Hfew Hord "maskArray" rest mask) as (r & o & xa & ya & xb & yb & Ef & Eo & Hres).
  exists o, xa, ya, xb, yb. split; [|exact Hres]. unfold produceFillAlphas. rewrite check_arrays_ok by done.
  unfold fill_path. read_bounds. fold rule. rewrite Er. mred. rewrite Ef. mred. exact Eo.
Qed.

(** *** A triangle *)

Definition identity : Transformer := mkTransformer d_one d_zero d_zero d_zero d_one d_zero.
Definition first_statics : statics := mkStatics 0 0 None 0 None 0.
Definition triangle : list jfloat := of_int <$> [1; 1; 5; 1; 1; 5].
Definition triangle_commands : list Z := [SEG_MOVETO; SEG_LINETO; SEG_LINETO; SEG_CLOSE].

Definition triangle_pen : Pen :=
  match path_lines (Renderer_setup 3 3 first_statics) 10 identity triangle triangle_commands 4 with
  | Some (_, p) => p
  | None => pen_start
  end.

(** Samples on the diagonal side give the pixels there 36 of 64 samples; bytes are
    signed. *)
Example triangle_filled :
  produceFillAlphas (Renderer_setup 3 3 first_statics) 10 (true, true) true (Some triangle) (Some triangle_commands) 4 true
    identity (Some [0; 0; 6; 6]) (Some (replicate 17 7)) =
  Some (mkOutcome None [1; 1; 5; 5] [-1; -1; -1; 112; -1; -1; 112; 0; -1; 112; 0; 0; 112; 0; 0; 0; 7]).
Proof. vm_compute. reflexivity. Qed.

Lemma produceFillAlphas_spec_witness :
  let g := Renderer_setup 3 3 first_statics in
  let E := omap (line_edge (0 * 2 ^ 3) (6 * 2 ^ 3)) (pen_lines triangle_pen) in
  exists o xa ya xb yb,
    produceFillAlphas g 10 (true, true) true (Some triangle) (Some triangle_commands) 4 true identity
      (Some [0; 0; 6; 6]) (Some (replicate 17 7)) = Some o /\
    bounds_out o = [xa; ya; xb; yb] /\
    (if (xa <? xb) && (ya <? yb) then
       if Z.quot (alen (replicate 17 7)) (xb - xa) <? yb - ya then
         thrown o = Some (AIOOBException "maskArray") /\ mask_out o = replicate 17 7
       else thrown o = None /\ mask_filled 3 3 WIND_NON_ZERO E xa ya xb yb (replicate 17 7) (mask_out o)
     else thrown o = None /\ mask_out o = replicate 17 7) /\
    (forall px py, ~ (ya <= py < yb) -> pixel_samples 3 3 WIND_NON_ZERO E px py = 0).
Proof.
  intros g E.
  apply (produceFillAlphas_spec g 3 3 10 identity triangle triangle_commands 4 true 0 0 6 6 [] (replicate 17 7) triangle_pen).
  - vm_compute. repeat split; discriminate.
  - vm_compute. repeat split; discriminate.
  - vm_compute. discriminate.
  - vm_compute. reflexivity.
  - vm_compute. reflexivity.
  - vm_compute. reflexivity.
Defined.

(** ** Alpha maps *)

(** The alpha of [i] samples of [n], rounded to nearest. *)
Definition rounded_alpha (n i : Z) : Z := (i * 255 + n / 2) / n.

Lemma alpha_map_lookup n i : 0 < n -> 0 <= i <= n -> aget (alpha_map n) i = Some (i8 (rounded_alpha n i)).
Proof.
  intros Hn Hi. unfold alpha_map, rounded_alpha. rewrite aget_lookup by lia.
  rewrite list_lookup_fmap, lookup_seq_lt by lia. cbn [fmap option_fmap option_map]. rewrite Nat.add_0_l, Z2Nat.id by lia.
  rewrite (Z.quot_div_nonneg n 2) by lia. pose proof (Z.div_pos n 2).
  rewrite Z.quot_div_nonneg by lia. done.
Qed.

Lemma rounded_alpha_spec n i : 0 < n -> 0 <= i <= n ->
  0 <= rounded_alpha n i <= 255 /\ 2 * Z.abs (rounded_alpha n i * n - i * 255) <= n.
Proof.
  intros Hn Hi. unfold rounded_alpha. pose proof (Z.div_mod n 2). pose proof (Z.mod_pos_bound n 2).
  set (h := n / 2) in *. pose proof (Z.div_mod (i * 255 + h) n ltac:(lia)). pose proof (Z.mod_pos_bound (i * 255 + h) n Hn).
  set (q := (i * 255 + h) / n) in *. nia.
Qed.

(** The alpha map is the rounded fraction of 255: for every number of samples there
    is an entry, within half of the true fraction, from 0 for none to 255 for all, never
    smaller for more samples. *)
Lemma alpha_map_spec n i : 0 < n -> 0 <= i <= n ->
  exists a, aget (alpha_map n) i = Some (i8 a) /\ 0 <= a <= 255 /\ 2 * Z.abs (a * n - i * 255) <= n /\
    (i = 0 -> a = 0) /\ (i = n -> a = 255) /\
    (forall j, i <= j <= n -> exists a', aget (alpha_map n) j = Some (i8 a') /\ a <= a').
Proof.
  intros Hn Hi. exists (rounded_alpha n i). pose proof (rounded_alpha_spec n i Hn Hi) as [Hr He].
  split; [by apply alpha_map_lookup|]. split; [done|]. split; [done|]. unfold rounded_alpha.
  pose proof (Z.div_mod n 2). pose proof (Z.mod_pos_bound n 2). split; [|split].
  - intros ->. apply Z.div_small. lia.
  - intros ->. symmetry. apply (Z.div_unique _ n 255 (n / 2)); lia.
  - intros j Hj. exists (rounded_alpha n j). split; [apply alpha_map_lookup; lia|]. apply Z.div_le_mono; lia.
Qed.

Lemma alpha_map_spec_witness :
  exists a, aget (alpha_map 64) 36 = Some (i8 a) /\ 0 <= a <= 255 /\ 2 * Z.abs (a * 64 - 36 * 255) <= 64 /\
    (36 = 0 -> a = 0) /\ (36 = 64 -> a = 255) /\
    (forall j, 36 <= j <= 64 -> exists a', aget (alpha_map 64) j = Some (i8 a') /\ a <= a').
Proof. apply (alpha_map_spec 64 36); lia. Defined.

(** The maps that are kept belong to the sizes noted with them. *)
Definition maps_ok (g : statics) : Prop :=
  (forall m, alphaMap g = Some m -> m = alpha_map (alphaMax g)) /\
  (forall m, altAlphaMap g = Some m -> m = alpha_map (altAlphaMax g)).

Inductive set_up : statics -> Prop :=
  | set_up_first lgx lgy : set_up (mkStatics lgx lgy None 0 None 0)
  | set_up_again lgx lgy g : set_up g -> set_up (Renderer_setup lgx lgy g).

Lemma setMaxAlpha_ok n g : maps_ok g -> maps_ok (setMaxAlpha n g) /\ alphaMap (setMaxAlpha n g) = Some (alpha_map n).
Proof.
  intros [H1 H2]. unfold setMaxAlpha. destruct (alphaMap g) as [m|] eqn:E1; [|split; [split; cbn; [congruence|exact H2]|done]].
  pose proof (H1 m eq_refl) as ->. destruct (Z.eqb_spec n (alphaMax g)) as [->|].
  { split; [|done]. split; [|done]. intros m. rewrite E1. congruence. }
  destruct (altAlphaMap g) as [m|] eqn:E2.
  - pose proof (H2 m eq_refl) as ->. destruct (Z.eqb_spec n (altAlphaMax g)) as [->|]; (split; [split|]); cbn; congruence.
  - split; [split|]; cbn; congruence.
Qed.

Lemma set_up_ok g : set_up g -> maps_ok g.
Proof.
  induction 1 as [|lgx lgy g _ IH]; [done|]. unfold Renderer_setup. apply setMaxAlpha_ok. exact IH.
Qed.

(** After any sequence of set-ups the map in use is the one of the current
    resolution, whether it was computed, kept, or exchanged with the alternative one. *)
Theorem setup_ready g lgx lgy : set_up g -> 0 <= lgx <= 8 -> 0 <= lgy <= 8 ->
  ready (Renderer_setup lgx lgy g) lgx lgy.
Proof.
  intros Hg Hx Hy. unfold ready, Renderer_setup.
  set (g1 := mkStatics lgx lgy (alphaMap g) (alphaMax g) (altAlphaMap g) (altAlphaMax g)).
  assert (Hok : maps_ok g1) by (destruct (set_up_ok g Hg); by split).
  destruct (setMaxAlpha_ok (SUBPIXEL_POSITIONS_X g1 * SUBPIXEL_POSITIONS_Y g1) g1 Hok) as [_ ->].
  assert (Hlg : forall n h, SUBPIXEL_LG_POSITIONS_X (setMaxAlpha n h) = SUBPIXEL_LG_POSITIONS_X h /\
                            SUBPIXEL_LG_POSITIONS_Y (setMaxAlpha n h) = SUBPIXEL_LG_POSITIONS_Y h).
  { intros n h. unfold setMaxAlpha. by repeat case_match. }
  destruct (Hlg (SUBPIXEL_POSITIONS_X g1 * SUBPIXEL_POSITIONS_Y g1) g1) as [-> ->]. cbn. repeat (split; [done|]).
  unfold SUBPIXEL_POSITIONS_X, SUBPIXEL_POSITIONS_Y. cbn. rewrite !shiftl_mul by lia. by rewrite !Z.mul_1_l.
Qed.

Lemma setup_ready_witness :
  ready (Renderer_setup 3 3 (Renderer_setup 0 0 (Renderer_setup 3 3 first_statics))) 3 3.
Proof. apply (setup_ready (Renderer_setup 0 0 (Renderer_setup 3 3 first_statics)) 3 3); [|lia|lia]. repeat constructor. Defined.

(** ** Malformed paths *)

(** The coordinates a command takes. *)
Definition needs (command : Z) : option Z :=
  if (command =? SEG_MOVETO) || (command =? SEG_LINETO) then Some 2
  else if command =? SEG_QUADTO then Some 4
  else if command =? SEG_CUBICTO then Some 6
  else if command =? SEG_CLOSE then Some 0
  else None.

Fixpoint well_formed (commands : list Z) (coordoff coordSize : Z) : bool :=
  match commands with
  | [] => true
  | command :: commands =>
      match needs command with
      | Some n => (coordoff + n <=? coordSize) && well_formed commands (coordoff + n) coordSize
      | None => false
      end
  end.

(** A consumer whose functions return. *)
Record consumer_returns {S} (c : PathConsumer S) : Prop := {
  ret_moveTo : forall x y s, is_Some (moveTo c x y s);
  ret_lineTo : forall x y s, is_Some (lineTo c x y s);
  ret_quadTo : forall xc yc x y s, is_Some (quadTo c xc yc x y s);
  ret_curveTo : forall xc yc xd yd x y s, is_Some (curveTo c xc yc xd yd x y s);
  ret_closePath : forall s, is_Some (closePath c s);
  ret_pathDone : forall s, is_Some (pathDone c s) }.

Definition reported (f : failure) : Prop := forall text, f = Some text -> is_Some (failure_exception text).

Lemma needs_nonneg command n : needs command = Some n -> 0 <= n.
Proof. unfold needs. intros H. repeat case_match; simplify_eq; lia. Qed.

Ltac report := eexists _, _, _; split; [done|]; split; [intros text Ht; simplify_eq; vm_compute; eauto|done].
Ltac enough_coords Hget :=
  match goal with |- context [alen ?m <? ?n] => destruct (Z.ltb_spec (alen m) n); cbn [negb]; [report|] end;
  repeat match goal with |- context [aget _ (_ + ?k)] => destruct (Hget k) as [? ->]; [lia|lia|]; mred end.

(** One command reads only coordinates that are there. *)
Lemma feed_command_returns {S} (c : PathConsumer S) coords command off s : consumer_returns c -> 0 <= off <= alen coords ->
  exists off' f s', feed_command c coords (alen coords) command off s = Some (off', f, s') /\ reported f /\
    match needs command with
    | Some n => if off + n <=? alen coords then f = None /\ off' = off + n else f <> None
    | None => f <> None
    end.
Proof.
  intros [H1 H2 H3 H4 H5 _] Hoff. unfold feed_command, needs.
  assert (Hget : forall k, 0 <= k -> off + k < alen coords -> is_Some (aget coords (off + k))) by (intros; apply aget_is_Some; lia).
  rewrite !Z.gtb_ltb.
  destruct (command =? SEG_MOVETO); [|destruct (command =? SEG_LINETO); [|destruct (command =? SEG_QUADTO);
    [|destruct (command =? SEG_CUBICTO); [|destruct (command =? SEG_CLOSE)]]]]; cbn [orb];
    rewrite ?(Z.leb_antisym (alen coords)).
  - enough_coords Hget. match goal with |- context [moveTo c ?a0 ?a1 s] => destruct (H1 a0 a1 s) as [s' ->] end. mred. by eexists _, _, _.
  - enough_coords Hget. match goal with |- context [lineTo c ?a0 ?a1 s] => destruct (H2 a0 a1 s) as [s' ->] end. mred. by eexists _, _, _.
  - enough_coords Hget. match goal with |- context [quadTo c ?a0 ?a1 ?a2 ?a3 s] => destruct (H3 a0 a1 a2 a3 s) as [s' ->] end. mred. by eexists _, _, _.
  - enough_coords Hget. match goal with |- context [curveTo c ?a0 ?a1 ?a2 ?a3 ?a4 ?a5 s] => destruct (H4 a0 a1 a2 a3 a4 a5 s) as [s' ->] end. mred. by eexists _, _, _.
  - destruct (H5 s) as [s' ->]. mred. rewrite Z.add_0_r.
    eexists _, _, _. split; [done|]. split; [done|]. by rewrite (proj2 (Z.ltb_ge (alen coords) off)) by lia.
  - report.
Qed.

Lemma feed_commands_return {S} (c : PathConsumer S) coords commands : consumer_returns c -> forall off s, 0 <= off <= alen coords ->
  exists f s', feed_commands c coords (alen coords) commands off s = Some (f, s') /\ reported f /\
    (f = None <-> well_formed commands off (alen coords) = true).
Proof.
  intros Hc. induction commands as [|command commands IH]; intros off s Hoff; cbn [feed_commands well_formed]; [by eexists _, _|].
  destruct (feed_command_returns c coords command off s Hc Hoff) as (off' & f & s' & -> & Hr & Hn). mred.
  destruct (needs command) as [n|] eqn:En; [destruct (Z.leb_spec (off + n) (alen coords))|].
  - destruct Hn as [-> ->]. cbn [andb]. apply IH. pose proof (needs_nonneg command n En). lia.
  - destruct f as [text|]; [|done]. eexists _, _. split; [done|]. split; [done|]. done.
  - destruct f as [text|]; [|done]. eexists _, _. split; [done|]. split; [done|]. done.
Qed.

(** C32: a path is fed safely.  Into any consumer whose functions return, [feedConsumer]
    reads no coordinate outside the array and returns: without a failure exactly when
    every command is known and has its coordinates, and otherwise with a text that
    becomes a Java exception. *)
Theorem feed_malformed {S} (c : PathConsumer S) coords commands numCommands s : consumer_returns c ->
  numCommands <= alen commands ->
  exists f s', feedConsumer (true, true) c coords (alen coords) commands numCommands s = Some (f, s') /\
    (f = None <-> well_formed (take (Z.to_nat numCommands) commands) 0 (alen coords) = true) /\
    (forall text, f = Some text -> is_Some (failure_exception text)).
Proof.
  intros Hc Hn. unfold feedConsumer. cbn [fst snd negb orb]. rewrite (proj2 (Z.ltb_ge (alen commands) numCommands)) by done.
  pose proof (alen_nonneg coords).
  destruct (feed_commands_return c coords (take (Z.to_nat numCommands) commands) Hc 0 s) as (f & s' & -> & Hr & Hw); [lia|].
  mred. destruct f as [text|]; [by eexists _, _|]. destruct (ret_pathDone c Hc s') as [s2 ->]. mred. by eexists _, _.
Qed.

Lemma feed_malformed_witness :
  exists f s', feedConsumer (true, true) idle_consumer [of_int 1; of_int 2; of_int 3] 3 [SEG_MOVETO; SEG_LINETO] 2 tt = Some (f, s') /\
    (f = None <-> well_formed [SEG_MOVETO; SEG_LINETO] 0 3 = true) /\
    (forall text, f = Some text -> is_Some (failure_exception text)).
Proof.
  apply (feed_malformed idle_consumer [of_int 1; of_int 2; of_int 3] [SEG_MOVETO; SEG_LINETO] 2 tt); [split; cbn; eauto|].
  vm_compute. discriminate.
Defined.

(** ** The rows of the iterator *)

(** C14: in every row the iterator yields the crossings of exactly the edges that are live
    in it, in ascending order, with the links and flags of the buckets consistent, and is
    then ready for the next row. *)
Theorem row_crossings r0 E y it r : SIZEOF_EDGE * alen E < 2 ^ 24 ->
  - 2 ^ 24 < boundsMinY r0 /\ boundsMaxY r0 < 2 ^ 24 -> scanning r0 E y it r -> boundsMinY r0 <= y < boundsMaxY r0 ->
  exists cs xr it' r', ScanlineIterator_next it r = Some (alen cs, it', r') /\ crossings it' = (cs ++ xr)%list /\
    ascending cs /\ cs ≡ₚ row_codes E y /\ scanning r0 E (y + 1) it' r'.
Proof. intros Hfew Hb Hs Hy. by apply next_spec. Qed.

Lemma row_crossings_witness :
  let E := omap (line_edge (0 * 2 ^ 3) (6 * 2 ^ 3)) (pen_lines triangle_pen) in
  exists r cs xr it' r', ScanlineIterator_next (ScanlineIterator_init r) r = Some (alen cs, it', r') /\ crossings it' = (cs ++ xr)%list /\
    ascending cs /\ cs ≡ₚ row_codes E (sampleRowMin r) /\ scanning r E (sampleRowMin r + 1) it' r'.
Proof.
  intros E.
  destruct (fill_path_spec (Renderer_setup 3 3 first_statics) 3 3 10 identity triangle triangle_commands 4 true 0 0 6 6 [] triangle_pen)
    as (r & _ & _ & _ & H0 & H6 & _ & Hs & _).
  - vm_compute. repeat split; discriminate.
  - vm_compute. repeat split; discriminate.
  - vm_compute. reflexivity.
  - vm_compute. reflexivity.
  - apply forallb_Forall. vm_compute. reflexivity.
  - fold E in Hs. exists r. apply (row_crossings r E (sampleRowMin r) (ScanlineIterator_init r) r).
    + vm_compute. reflexivity.
    + rewrite H0, H6. lia.
    + by apply ScanlineIterator_init_spec.
    + pose proof (sc_min _ _ Hs). pose proof (sc_max _ _ Hs). assert (Hne : E <> []) by (vm_compute; discriminate).
      pose proof (sc_tight _ _ Hs Hne). lia.
Defined.
