(* ===== verification/PrismHelpers.v ===== *)
(** * Numerical helpers of the path rasterizer

    native-prism/Helpers.c and the root finders of Curve.c: roots of polynomials,
    subdivision of curves, sorting and filtering of parameter values.  The routines
    write their results into arrays of the caller at an offset; an access outside an
    array is [None].

    What C leaves to the platform is a parameter ([platform]): the functions of the
    mathematical library other than the square root, which is rounded correctly, the
    bits of a NaN, and a shift by more than the width of an [int]. *)

From Stdlib Require Import SpecFloat.
From S2P Require Import Prelude.
From S2P Require Import Float32.
From S2P Require Import PrismRenderer.

Declare Scope jfloat_scope.
Delimit Scope jfloat_scope with jf.
Notation "x + y" := (fadd x y) : jfloat_scope.
Notation "x - y" := (fsub x y) : jfloat_scope.
Notation "x * y" := (fmul x y) : jfloat_scope.
Notation "x / y" := (fdiv x y) : jfloat_scope.
Notation "- x" := (fopp x) : jfloat_scope.

Declare Scope jdouble_scope.
Delimit Scope jdouble_scope with jd.
Notation "x + y" := (dadd x y) : jdouble_scope.
Notation "x - y" := (dsub x y) : jdouble_scope.
Notation "x * y" := (dmul x y) : jdouble_scope.
Notation "x / y" := (ddiv x y) : jdouble_scope.
Notation "- x" := (SFopp x) : jdouble_scope.

(** Decimal literals: the quotient of two integers, rounded once. *)
Definition float_literal (n d : positive) : jfloat := SFdiv f32_prec f32_emax (S754_finite false n 0) (S754_finite false d 0).
Definition double_literal (n d : positive) : jdouble := SFdiv 53 1024 (S754_finite false n 0) (S754_finite false d 0).

Definition four : jfloat := of_int 4.

(** [(jfloat) sqrt (x)] *)
Definition fsqrt (x : jfloat) : jfloat := of_double (dsqrt (to_double x)).

Definition isnan (x : jfloat) : bool := negb (feq x x).

Record platform := mkPlatform {
  lm_pow : jdouble -> jdouble -> jdouble;
  lm_acos : jdouble -> jdouble;
  lm_cos : jdouble -> jdouble;
  nan_bits : Z;
  wide_shift : Z -> Z }.

(** [1 << n] as an [int]. *)
Definition shift_one (pf : platform) (n : Z) : Z := if (0 <=? n) && (n <? 31) then 1 << n else wide_shift pf n.

(** ** Comparison *)

(** The bits of a float, read as a [jint]. *)
Definition float_bits (pf : platform) (x : jfloat) : Z :=
  match x with
  | S754_zero s => if s then - 2 ^ 31 else 0
  | S754_infinity s => 255 * 2 ^ 23 - (if s then 2 ^ 31 else 0)
  | S754_nan => nan_bits pf
  | S754_finite s m e => (e + 149) * 2 ^ 23 + Z.pos m - (if s then 2 ^ 31 else 0)
  end.

(** [0x80000000 - aInt] is unsigned arithmetic. *)
Definition ordered_bits (pf : platform) (x : jfloat) : Z :=
  let aInt := float_bits pf x in if aInt <? 0 then i32 (2 ^ 31 - aInt) else aInt.

Definition Helpers_withinULP (pf : platform) (A B : jfloat) (maxUlps : Z) : bool :=
  let aInt := ordered_bits pf A in
  let bInt := ordered_bits pf B in
  if aInt <? bInt then if aInt <? 0 then aInt + maxUlps >=? bInt else bInt - maxUlps <=? aInt
  else if bInt <? 0 then bInt + maxUlps >=? aInt else aInt - maxUlps <=? bInt.

Definition Helpers_within (x y err : jfloat) : bool :=
  let d := (y - x)%jf in fle d err && fle (- err)%jf d.

Definition Helpers_withind (x y err : jdouble) : bool :=
  let d := (y - x)%jd in dle d err && dle (- err)%jd d.

(** ** Roots *)

(** The elements in [a, b) move to the front; the index behind the last of them. *)
Definition Helpers_filterOutNotInAB (nums : list jfloat) (off len : Z) (a b : jfloat) : option (Z * list jfloat) :=
  for_from (Z.to_nat len) off (fun i '(ret, nums) =>
    v ← aget nums i;
    if fle a v && flt v b then nums ← aset nums ret v; Some (ret + 1, nums) else Some (ret, nums)) (off, nums).

(** The number of roots, and the array with the roots at [off]. *)
Definition Helpers_quadraticRoots (a b c : jfloat) (zeroes : list jfloat) (off : Z) : option (Z * list jfloat) :=
  if negb (feq a f_zero) then
    let dis := (b * b - four * a * c)%jf in
    if flt f_zero dis then
      let sqrtDis := fsqrt dis in
      if fle f_zero b then
        zeroes ← aset zeroes off ((two * c) / (- b - sqrtDis))%jf;
        zeroes ← aset zeroes (off + 1) ((- b - sqrtDis) / (two * a))%jf;
        Some (2, zeroes)
      else
        zeroes ← aset zeroes off ((- b + sqrtDis) / (two * a))%jf;
        zeroes ← aset zeroes (off + 1) ((two * c) / (- b + sqrtDis))%jf;
        Some (2, zeroes)
    else if feq dis f_zero then
      zeroes ← aset zeroes off ((- b) / (two * a))%jf;
      Some (1, zeroes)
    else Some (0, zeroes)
  else if negb (feq b f_zero) then
    zeroes ← aset zeroes off ((- c) / b)%jf;
    Some (1, zeroes)
  else Some (0, zeroes).

Definition d_third : jdouble := double_literal 1 3.
Definition PI : jdouble := double_literal 3141592653589793 1000000000000000.

Definition Math_cbrt (pf : platform) (v : jdouble) : jdouble :=
  if dlt v (double_of_int 0) then (- lm_pow pf (- v) d_third)%jd else lm_pow pf v d_third.

(** The roots of the depressed cubic, before the substitution is undone. *)
Definition cardano (pf : platform) (a b c : jfloat) (pts : list jfloat) (off : Z) : option (Z * list jfloat) :=
  let zero := double_of_int 0 in
  let sq_A := to_double (a * a)%jf in
  let ad := to_double a in
  let p := (d_third * (- d_third * sq_A + to_double b))%jd in
  let q := (double_literal 1 2 * (double_literal 2 27 * ad * sq_A - d_third * ad * to_double b + to_double c))%jd in
  let cb_p := (p * p * p)%jd in
  let D := (q * q + cb_p)%jd in
  if dlt D zero then
    let phi := (d_third * lm_acos pf (- q / dsqrt (- cb_p)))%jd in
    let t := (double_of_int 2 * dsqrt (- p))%jd in
    let third_pi := (PI / double_of_int 3)%jd in
    pts ← aset pts off (of_double (t * lm_cos pf phi)%jd);
    pts ← aset pts (off + 1) (of_double (- t * lm_cos pf (phi + third_pi))%jd);
    pts ← aset pts (off + 2) (of_double (- t * lm_cos pf (phi - third_pi))%jd);
    Some (3, pts)
  else
    let sqrt_D := dsqrt D in
    let u := Math_cbrt pf (sqrt_D - q)%jd in
    let v := (- Math_cbrt pf (sqrt_D + q))%jd in
    pts ← aset pts off (of_double (u + v)%jd);
    if Helpers_withind D zero (double_literal 1 100000000) then
      r ← aget pts off;
      pts ← aset pts (off + 1) (- (r / two))%jf;
      Some (2, pts)
    else Some (1, pts).

Definition Helpers_cubicRootsInAB (pf : platform) (d a b c : jfloat) (pts : list jfloat) (off : Z) (A B : jfloat)
  : option (Z * list jfloat) :=
  '(num, pts) ←
    (if feq d f_zero then Helpers_quadraticRoots a b c pts off
     else
       let a := (a / d)%jf in let b := (b / d)%jf in let c := (c / d)%jf in
       '(num, pts) ← cardano pf a b c pts off;
       let sub := ((f_one / three) * a)%jf in
       pts ← for_lt num (fun i pts => aupd pts (off + i) (fun v => Some (v - sub)%jf)) pts;
       Some (num, pts));
  '(ret, pts) ← Helpers_filterOutNotInAB pts off num A B;
  Some (ret - off, pts).

(** ** Evaluation and lengths *)

Definition Helpers_evalCubic (a b c d t : jfloat) : jfloat := (t * (t * (t * a + b) + c) + d)%jf.
Definition Helpers_evalQuad (a b c t : jfloat) : jfloat := (t * (t * a + b) + c)%jf.

Definition Helpers_linelen (x1 y1 x2 y2 : jfloat) : jfloat :=
  let dx := (x2 - x1)%jf in let dy := (y2 - y1)%jf in fsqrt (dx * dx + dy * dy)%jf.

(** ** Sorting *)

(** The inner loop: elements larger than [ai] move up one place. *)
Fixpoint isort_shift (fuel : nat) (off j : Z) (ai : jfloat) (a : list jfloat) : option (Z * list jfloat) :=
  if j <? off then Some (j, a)
  else
    aj ← aget a j;
    if flt ai aj then
      match fuel with
      | O => None
      | S fuel => a ← aset a (j + 1) aj; isort_shift fuel off (j - 1) ai a
      end
    else Some (j, a).

Definition Helpers_isort (a : list jfloat) (off len : Z) : option (list jfloat) :=
  for_from (Z.to_nat (len - 1)) (off + 1) (fun i a =>
    ai ← aget a i;
    '(j, a) ← isort_shift (Z.to_nat (i - off)) off (i - 1) ai a;
    aset a (j + 1) ai) a.

(** ** Subdivision

    The source and the two halves may be the same array: the arrays are those of a
    memory [mem], and an array is the number of its place there; a half that is not
    wanted is a null pointer. *)

Definition memory := list (list jfloat).

Definition mread (mem : memory) (a i : Z) : option jfloat := m ← aget mem a; aget m i.
Definition mwrite (mem : memory) (p : option Z) (i : Z) (v : jfloat) : option memory :=
  match p with Some a => aupd mem a (fun m => aset m i v) | None => Some mem end.

Fixpoint mstore (mem : memory) (p : option Z) (i : Z) (vs : list jfloat) : option memory :=
  match vs with
  | [] => Some mem
  | v :: vs => mem ← mwrite mem p i v; mstore mem p (i + 1) vs
  end.

Definition midpoint (a b : jfloat) : jfloat := ((a + b) / two)%jf.
Definition mix (t a b : jfloat) : jfloat := (a + t * (b - a))%jf.

Definition Helpers_subdivideCubic (src srcoff : Z) (left : option Z) (leftoff : Z) (right : option Z) (rightoff : Z)
    (mem : memory) : option memory :=
  x1 ← mread mem src (srcoff + 0); y1 ← mread mem src (srcoff + 1);
  ctrlx1 ← mread mem src (srcoff + 2); ctrly1 ← mread mem src (srcoff + 3);
  ctrlx2 ← mread mem src (srcoff + 4); ctrly2 ← mread mem src (srcoff + 5);
  x2 ← mread mem src (srcoff + 6); y2 ← mread mem src (srcoff + 7);
  mem ← mstore mem left leftoff [x1; y1];
  mem ← mstore mem right (rightoff + 6) [x2; y2];
  let x1 := midpoint x1 ctrlx1 in let y1 := midpoint y1 ctrly1 in
  let x2 := midpoint x2 ctrlx2 in let y2 := midpoint y2 ctrly2 in
  let centerx := midpoint ctrlx1 ctrlx2 in let centery := midpoint ctrly1 ctrly2 in
  let ctrlx1 := midpoint x1 centerx in let ctrly1 := midpoint y1 centery in
  let ctrlx2 := midpoint x2 centerx in let ctrly2 := midpoint y2 centery in
  let centerx := midpoint ctrlx1 ctrlx2 in let centery := midpoint ctrly1 ctrly2 in
  mem ← mstore mem left (leftoff + 2) [x1; y1; ctrlx1; ctrly1; centerx; centery];
  mstore mem right rightoff [centerx; centery; ctrlx2; ctrly2; x2; y2].

Definition Helpers_subdivideCubicAt (t : jfloat) (src srcoff : Z) (left : option Z) (leftoff : Z) (right : option Z) (rightoff : Z)
    (mem : memory) : option memory :=
  x1 ← mread mem src (srcoff + 0); y1 ← mread mem src (srcoff + 1);
  ctrlx1 ← mread mem src (srcoff + 2); ctrly1 ← mread mem src (srcoff + 3);
  ctrlx2 ← mread mem src (srcoff + 4); ctrly2 ← mread mem src (srcoff + 5);
  x2 ← mread mem src (srcoff + 6); y2 ← mread mem src (srcoff + 7);
  mem ← mstore mem left leftoff [x1; y1];
  mem ← mstore mem right (rightoff + 6) [x2; y2];
  let x1 := mix t x1 ctrlx1 in let y1 := mix t y1 ctrly1 in
  let x2 := mix t ctrlx2 x2 in let y2 := mix t ctrly2 y2 in
  let centerx := mix t ctrlx1 ctrlx2 in let centery := mix t ctrly1 ctrly2 in
  let ctrlx1 := mix t x1 centerx in let ctrly1 := mix t y1 centery in
  let ctrlx2 := mix t centerx x2 in let ctrly2 := mix t centery y2 in
  let centerx := mix t ctrlx1 ctrlx2 in let centery := mix t ctrly1 ctrly2 in
  mem ← mstore mem left (leftoff + 2) [x1; y1; ctrlx1; ctrly1; centerx; centery];
  mstore mem right rightoff [centerx; centery; ctrlx2; ctrly2; x2; y2].

Definition Helpers_subdivideQuad (src srcoff : Z) (left : option Z) (leftoff : Z) (right : option Z) (rightoff : Z)
    (mem : memory) : option memory :=
  x1 ← mread mem src (srcoff + 0); y1 ← mread mem src (srcoff + 1);
  ctrlx ← mread mem src (srcoff + 2); ctrly ← mread mem src (srcoff + 3);
  x2 ← mread mem src (srcoff + 4); y2 ← mread mem src (srcoff + 5);
  mem ← mstore mem left leftoff [x1; y1];
  mem ← mstore mem right (rightoff + 4) [x2; y2];
  let x1 := midpoint x1 ctrlx in let y1 := midpoint y1 ctrly in
  let x2 := midpoint x2 ctrlx in let y2 := midpoint y2 ctrly in
  let ctrlx := midpoint x1 x2 in let ctrly := midpoint y1 y2 in
  mem ← mstore mem left (leftoff + 2) [x1; y1; ctrlx; ctrly];
  mstore mem right rightoff [ctrlx; ctrly; x2; y2].

Definition Helpers_subdivideQuadAt (t : jfloat) (src srcoff : Z) (left : option Z) (leftoff : Z) (right : option Z) (rightoff : Z)
    (mem : memory) : option memory :=
  x1 ← mread mem src (srcoff + 0); y1 ← mread mem src (srcoff + 1);
  ctrlx ← mread mem src (srcoff + 2); ctrly ← mread mem src (srcoff + 3);
  x2 ← mread mem src (srcoff + 4); y2 ← mread mem src (srcoff + 5);
  mem ← mstore mem left leftoff [x1; y1];
  mem ← mstore mem right (rightoff + 4) [x2; y2];
  let x1 := mix t x1 ctrlx in let y1 := mix t y1 ctrly in
  let x2 := mix t ctrlx x2 in let y2 := mix t ctrly y2 in
  let ctrlx := mix t x1 x2 in let ctrly := mix t y1 y2 in
  mem ← mstore mem left (leftoff + 2) [x1; y1; ctrlx; ctrly];
  mstore mem right rightoff [ctrlx; ctrly; x2; y2].

(** Other types are ignored. *)
Definition Helpers_subdivide (src srcoff : Z) (left : option Z) (leftoff : Z) (right : option Z) (rightoff type : Z)
    (mem : memory) : option memory :=
  if type =? 6 then Helpers_subdivideQuad src srcoff left leftoff right rightoff mem
  else if type =? 8 then Helpers_subdivideCubic src srcoff left leftoff right rightoff mem
  else Some mem.

Definition Helpers_subdivideAt (t : jfloat) (src srcoff : Z) (left : option Z) (leftoff : Z) (right : option Z) (rightoff size : Z)
    (mem : memory) : option memory :=
  if size =? 8 then Helpers_subdivideCubicAt t src srcoff left leftoff right rightoff mem
  else if size =? 6 then Helpers_subdivideQuadAt t src srcoff left leftoff right rightoff mem
  else Some mem.

(** ** Curve.c *)

Definition Curve_set (points : list jfloat) (type : Z) (c : Curve) : option Curve :=
  if type =? 8 then
    x1 ← aget points 0; y1 ← aget points 1; x2 ← aget points 2; y2 ← aget points 3;
    x3 ← aget points 4; y3 ← aget points 5; x4 ← aget points 6; y4 ← aget points 7;
    Some (Curve_setcubic x1 y1 x2 y2 x3 y3 x4 y4)
  else if type =? 6 then
    x1 ← aget points 0; y1 ← aget points 1; x2 ← aget points 2; y2 ← aget points 3;
    x3 ← aget points 4; y3 ← aget points 5;
    Some (Curve_setquad x1 y1 x2 y2 x3 y3)
  else Some c.

Definition Curve_dxRoots (c : Curve) (roots : list jfloat) (off : Z) : option (Z * list jfloat) :=
  Helpers_quadraticRoots (c_dax c) (c_dbx c) (c_cx c) roots off.
Definition Curve_dyRoots (c : Curve) (roots : list jfloat) (off : Z) : option (Z * list jfloat) :=
  Helpers_quadraticRoots (c_day c) (c_dby c) (c_cy c) roots off.

Definition Curve_infPoints (k : Curve) (pts : list jfloat) (off : Z) : option (Z * list jfloat) :=
  let a := (c_dax k * c_dby k - c_dbx k * c_day k)%jf in
  let b := (two * (c_cy k * c_dax k - c_day k * c_cx k))%jf in
  let c := (c_cy k * c_dbx k - c_cx k * c_dby k)%jf in
  Helpers_quadraticRoots a b c pts off.

Definition perpendiculardfddf (pf : platform) (k : Curve) (pts : list jfloat) (off : Z) : option (Z * list jfloat) :=
  let a := (two * (c_dax k * c_dax k + c_day k * c_day k))%jf in
  let b := (three * (c_dax k * c_dbx k + c_day k * c_dby k))%jf in
  let c := (two * (c_dax k * c_cx k + c_day k * c_cy k) + c_dbx k * c_dbx k + c_dby k * c_dby k)%jf in
  let d := (c_dbx k * c_cx k + c_dby k * c_cy k)%jf in
  Helpers_cubicRootsInAB pf a b c d pts off f_zero f_one.

(** The squared radius of curvature at [t]. *)
Definition ROCsq (k : Curve) (t : jfloat) : jfloat :=
  let dx := (t * (t * c_dax k + c_dbx k) + c_cx k)%jf in
  let dy := (t * (t * c_day k + c_dby k) + c_cy k)%jf in
  let ddx := (two * c_dax k * t + c_dbx k)%jf in
  let ddy := (two * c_day k * t + c_dby k)%jf in
  let dx2dy2 := (dx * dx + dy * dy)%jf in
  let ddx2ddy2 := (ddx * ddx + ddy * ddy)%jf in
  let ddxdxddydy := (ddx * dx + ddy * dy)%jf in
  (dx2dy2 * ((dx2dy2 * dx2dy2) / (dx2dy2 * ddx2ddy2 - ddxdxddydy * ddxdxddydy)))%jf.

Definition eliminateInf (x : jfloat) : jfloat :=
  if flt BIGGEST_FLOAT x then BIGGEST_FLOAT else if flt x (- BIGGEST_FLOAT)%jf then (- BIGGEST_FLOAT)%jf else x.

Definition sameSign (x y : jdouble) : bool :=
  let z := double_of_int 0 in (dlt x z && dlt y z) || (dlt z x && dlt z y).

(** The loop, with the number of rounds that are left. *)
Fixpoint false_position (pf : platform) (k : Curve) (x err : jfloat) (rounds : nat) (side : Z) (t ft s fs r : jfloat) : jfloat :=
  match rounds with
  | O => r
  | S rounds =>
      if dlt (to_double err * SFabs (to_double (t + s)%jf))%jd (SFabs (to_double (t - s)%jf)) then
        let r := ((fs * t - ft * s) / (fs - ft))%jf in
        let fr := (ROCsq k r - x)%jf in
        if sameSign (to_double fr) (to_double ft) then
          let '(fs, side) :=
            if side <? 0 then ((fs / of_int (shift_one pf (- side)))%jf, side - 1) else (fs, -1) in
          false_position pf k x err rounds side r fr s fs r
        else if flt f_zero (fr * fs)%jf then
          let '(ft, side) :=
            if side >? 0 then ((ft / of_int (shift_one pf side))%jf, side + 1) else (ft, 1) in
          false_position pf k x err rounds side t ft r fr r
        else r
      else r
  end.

Definition falsePositionROCsqMinusX (pf : platform) (k : Curve) (x0 x1 x err : jfloat) : jfloat :=
  let ft := eliminateInf (ROCsq k x1 - x)%jf in
  let fs := eliminateInf (ROCsq k x0 - x)%jf in
  false_position pf k x err 100 0 x1 ft x0 fs x0.

(** The roots overwrite the places of the extrema that have been looked at. *)
Definition Curve_rootsOfROCMinusW (pf : platform) (k : Curve) (roots : list jfloat) (off : Z) (w err : jfloat)
  : option (Z * list jfloat) :=
  '(numPerpdfddf, roots) ← perpendiculardfddf pf k roots off;
  let t0 := f_zero in
  let ft0 := (ROCsq k t0 - w * w)%jf in
  roots ← aset roots (off + numPerpdfddf) f_one;
  '(ret, roots, _, _) ← for_from (Z.to_nat (numPerpdfddf + 1)) off (fun i '(ret, roots, t0, ft0) =>
    t1 ← aget roots i;
    let ft1 := (ROCsq k t1 - w * w)%jf in
    if feq ft0 f_zero then roots ← aset roots ret t0; Some (ret + 1, roots, t1, ft1)
    else if flt (ft1 * ft0)%jf f_zero then
      roots ← aset roots ret (falsePositionROCsqMinusX pf k t0 t1 (w * w)%jf err); Some (ret + 1, roots, t1, ft1)
    else Some (ret, roots, t1, ft1)) (off, roots, t0, ft0);
  Some (ret - off, roots).

(** A platform for examples. *)
Definition plain_platform : platform := mkPlatform (fun x _ => x) (fun x => x) (fun x => x) 2143289344 (fun _ => 0).
