(* ===== verification/FloatExact.v ===== *)
(** * Exact single-precision arithmetic

    Fixed-point numbers [n / 2 ^ j] of at most 24 bits are computed with exactly: sums,
    differences, products, quotients of equal magnitudes, roots of squares and
    comparisons of single precision are those of the integers.  And the calculations
    that measure a line of bounded coordinates give a number. *)

From Stdlib Require Import SpecFloat.
From S2P Require Import Prelude.
From S2P Require Import Float32.
From S2P Require Import FloatRound.
From S2P Require Import PrismRenderer.
From S2P Require Import PrismHelpers.

(** ** Fixed-point numbers *)

Definition fx (j n : Z) : jfloat := fixed f32_prec f32_emax j n.
Definition fits24 (n : Z) : Prop := Z.abs n < 2 ^ 24.

Lemma f32_prec_ok : 1 < f32_prec. Proof. done. Qed.
Lemma f32_emax_ok : f32_prec + 1 < f32_emax. Proof. done. Qed.
Create HintDb float.
#[export] Hint Resolve f32_prec_ok f32_emax_ok : float.

Lemma of_int_fx n : of_int n = fx 0 n.
Proof. done. Qed.

Lemma fx_zero j : fx j 0 = f_zero.
Proof. done. Qed.

(** Scales whose squares are in range too. *)
Definition fx_scale (j : Z) : Prop := 0 <= j <= 50.

Lemma fx_scale_ok j : 0 <= j <= 100 -> scale_ok f32_emax j.
Proof. unfold scale_ok, f32_emax. lia. Qed.

Section fx.
Context (j : Z) (Hj : fx_scale j).

Lemma fadd_fx a b : fits24 a -> fits24 b -> fits24 (a + b) -> fadd (fx j a) (fx j b) = fx j (a + b).
Proof. intros. apply add_fixed; auto with float. apply fx_scale_ok. unfold fx_scale in Hj. lia. Qed.

Lemma fsub_fx a b : fits24 a -> fits24 b -> fits24 (a - b) -> fsub (fx j a) (fx j b) = fx j (a - b).
Proof. intros. apply sub_fixed; auto with float. apply fx_scale_ok. unfold fx_scale in Hj. lia. Qed.

Lemma compare_fx a b : fits24 a -> fits24 b -> SFcompare (fx j a) (fx j b) = Some (a ?= b).
Proof. intros. apply compare_fixed; auto with float. apply fx_scale_ok. unfold fx_scale in Hj. lia. Qed.

Lemma fle_fx a b : fits24 a -> fits24 b -> fle (fx j a) (fx j b) = (a <=? b).
Proof. intros. unfold fle, SFleb, Z.leb. rewrite compare_fx by done. by destruct (a ?= b). Qed.

Lemma feq_fx a b : fits24 a -> fits24 b -> feq (fx j a) (fx j b) = (a =? b).
Proof. intros. unfold feq, SFeqb. rewrite compare_fx, Z.eqb_compare by done. by destruct (a ?= b). Qed.

(** A product with a sign. *)
Lemma fmul_fx_sign a u : 0 < a -> fits24 a -> -1 <= u <= 1 -> fmul (fx j a) (fx 0 u) = fx j (a * u).
Proof.
  intros Ha Hf Hu. unfold fx_scale in Hj. destruct (Z.eq_dec u 0) as [->|Hn].
  - rewrite Z.mul_0_r. destruct (fixed_cases f32_prec f32_emax f32_prec_ok f32_emax_ok j a Hf (fx_scale_ok j ltac:(lia))) as [[? _]|(_ & M & E & _ & _ & _ & Ea)]; [lia|].
    unfold fx, fmul. rewrite Ea. cbn. by rewrite (proj2 (Z.ltb_ge a 0)) by lia.
  - replace j with (j + 0) at 2 by lia. apply mul_fixed; auto with float; try (apply fx_scale_ok; lia); try lia; unfold fits24, fits, f32_prec in *; [nia|nia].
Qed.

Lemma fmul_fx_square a : a <> 0 -> fits24 (a * a) -> fmul (fx j a) (fx j a) = fx (2 * j) (Z.abs a * Z.abs a).
Proof.
  intros Ha Hf. unfold fx_scale in Hj. replace (Z.abs a * Z.abs a) with (a * a) by nia. replace (2 * j) with (j + j) by lia.
  apply mul_fixed; auto with float; try (apply fx_scale_ok; lia); unfold fits24, fits, f32_prec in *; nia.
Qed.

(** A direction: a difference divided by its magnitude. *)
Lemma fdiv_fx_sign a b : 0 < b -> a = b \/ a = 0 \/ a = - b -> fits24 b -> fdiv (fx j a) (fx j b) = fx 0 (Z.sgn a).
Proof.
  intros Hb Ha Hf. unfold fx_scale in Hj. assert (Hs : scale_ok f32_emax j) by (apply fx_scale_ok; lia). destruct (Z.eq_dec a 0) as [->|Hn].
  - destruct (fixed_cases f32_prec f32_emax f32_prec_ok f32_emax_ok j b Hf Hs) as [[? _]|(_ & M & E & _ & _ & _ & Eb)]; [lia|].
    unfold fx, fdiv. rewrite Eb. cbn. by rewrite (proj2 (Z.ltb_ge b 0)) by lia.
  - replace (Z.sgn a) with (Z.sgn (a * b)) by (rewrite Z.sgn_mul, (Z.sgn_pos b) by lia; lia).
    apply div_fixed; auto with float; unfold fits24, fits, f32_prec in *; lia.
Qed.
End fx.

(** The conversions to and from double precision keep the number. *)
Lemma normalize_fx prec emax prec' emax' j a z : 1 < prec -> prec + 1 < emax -> 1 < prec' -> prec' + 1 < emax' -> a <> 0 -> Z.abs a < 2 ^ prec ->
  Z.abs a < 2 ^ prec' -> scale_ok emax j -> scale_ok emax' j -> forall s M E, fixed prec emax j a = S754_finite s M E ->
  binary_normalize prec' emax' (if s then Z.neg M else Z.pos M) E z = fixed prec' emax' j a.
Proof.
  intros H1 H2 H3 H4 Ha Hf Hf' Hs Hs' s M E Ea. destruct (fixed_cases prec emax H1 H2 j a Hf Hs) as [[? _]|(_ & N & F & _ & HF & HN & Eb)]; [done|].
  rewrite Ea in Eb. injection Eb as -> <- <-. rewrite <- (normalize_fixed prec' emax' H3 H4 a E j z) by done. f_equal.
  change (Z.neg M) with (- Z.pos M). rewrite HN. destruct (Z.ltb_spec a 0); [rewrite Z.abs_neq by lia; ring|by rewrite Z.abs_eq by lia].
Qed.

Lemma fsqrt_fx j n : fx_scale j -> 0 < n -> fits24 (n * n) -> fsqrt (fx (2 * j) (n * n)) = fx j n.
Proof.
  intros Hj Hn Hf. unfold fx_scale, fits24 in *. unfold fsqrt. assert (H53 : 2 ^ 24 < 2 ^ 53) by done.
  assert (Hd : to_double (fx (2 * j) (n * n)) = fixed 53 1024 (2 * j) (n * n)).
  { unfold fx, to_double.
    destruct (fixed_cases f32_prec f32_emax f32_prec_ok f32_emax_ok (2 * j) (n * n) Hf (fx_scale_ok (2 * j) ltac:(lia))) as [[? _]|(_ & M & E & _ & _ & _ & Ea)]; [nia|].
    rewrite Ea. apply (normalize_fx f32_prec f32_emax 53 1024 (2 * j) (n * n)); auto with float; try done; unfold scale_ok, f32_emax, f32_prec; nia. }
  rewrite Hd. unfold dsqrt. rewrite (sqrt_fixed 53 1024 ltac:(done) ltac:(done) j n Hn) by (unfold scale_ok, fits; lia).
  unfold of_double. destruct (fixed_cases 53 1024 ltac:(done) ltac:(done) j n) as [[? _]|(_ & M & E & _ & _ & _ & Ea)]; [unfold fits; nia|unfold scale_ok; lia|lia|].
  rewrite Ea. apply (normalize_fx 53 1024 f32_prec f32_emax j n); auto with float; try done; try (unfold scale_ok, f32_emax, f32_prec in *; nia).
Qed.

(** ** Lengths are numbers *)

Definition nonneg (x : jfloat) : Prop := fle f_zero x = true.

Lemma signed_nonneg x : signed false x -> nonneg x.
Proof. by destruct x as [[]|[]| |[] m e]. Qed.

Lemma round_nonneg prec emax m e : signed false (binary_round prec emax false m e).
Proof. unfold binary_round. destruct (shl_align _ _ _). by apply round_sign. Qed.

Lemma nonneg_cases x : nonneg x -> signed false x \/ x = S754_zero true.
Proof. destruct x as [[]|[]| |[] m e]; try done; cbn; eauto. Qed.

Lemma fadd_nonneg x y : nonneg x -> nonneg y -> nonneg (fadd x y).
Proof.
  destruct x as [[]|[]| |[] mx ex], y as [[]|[]| |[] my ey]; try done. intros _ _. unfold fadd. cbn [SFadd cond_Zopp].
  apply signed_nonneg. rewrite <- Pos2Z.inj_add. apply round_nonneg.
Qed.

Lemma fdiv_nonneg x : nonneg x -> nonneg (fdiv x two).
Proof.
  destruct x as [[]|[]| |[] m e]; try done. intros _. unfold fdiv. change two with (S754_finite false 8388608 (-22)). cbn [SFdiv].
  destruct (SFdiv_core_binary _ _ _ _ _ _) as [[q e'] l] eqn:E. apply signed_nonneg, round_sign. unfold SFdiv_core_binary in E.
  destruct (Z.div_eucl _ _) as [q' r] eqn:Eq. injection E as <- _ _.
  match type of Eq with Z.div_eucl ?a _ = _ => assert (Ha : 0 <= a) end.
  { destruct (e - -22 - _); [lia| |lia]. apply Z.shiftl_nonneg. lia. }
  match type of Eq with Z.div_eucl ?a ?b = _ => assert (Hq : a / b = q') by (unfold Z.div; by rewrite Eq) end. rewrite <- Hq. apply Z.div_pos; lia.
Qed.

(** A finite number squared. *)
Lemma fmul_square_nonneg k x : mag f32_prec f32_emax k x -> nonneg (fmul x x).
Proof.
  destruct x as [[]|[]| |s m e]; try done. intros _. unfold fmul. cbn [SFmul]. replace (xorb s s) with false by (by destruct s).
  apply signed_nonneg, round_sign. lia.
Qed.

Lemma to_double_nonneg x : nonneg x -> nonneg (to_double x).
Proof. destruct x as [[]|[]| |[] m e]; try done. intros _. apply signed_nonneg, round_nonneg. Qed.
Lemma of_double_nonneg x : nonneg x -> nonneg (of_double x).
Proof. destruct x as [[]|[]| |[] m e]; try done. intros _. apply signed_nonneg, round_nonneg. Qed.
Lemma dsqrt_nonneg x : nonneg x -> nonneg (dsqrt x).
Proof.
  destruct x as [[]|[]| |[] m e]; try done. intros _. unfold dsqrt. cbn [SFsqrt]. destruct (SFsqrt_core_binary _ _ _ _) as [[q e'] l] eqn:E.
  apply signed_nonneg, round_sign. unfold SFsqrt_core_binary in E. destruct (Z.sqrtrem _) as [q' r] eqn:Eq. injection E as <- _ _.
  match type of Eq with Z.sqrtrem ?a = _ => pose proof (Z.sqrtrem_sqrt a) as Hs; rewrite Eq in Hs; cbn in Hs; rewrite Hs end. apply Z.sqrt_nonneg.
Qed.

Lemma fsqrt_nonneg x : nonneg x -> nonneg (fsqrt x).
Proof. intros H. by apply of_double_nonneg, dsqrt_nonneg, to_double_nonneg. Qed.

(** A coordinate: finite, of magnitude at most [2 ^ 100]. *)
Definition coordinate : jfloat -> Prop := mag f32_prec f32_emax 100.

Lemma linelen_nonneg x0 y0 x1 y1 : coordinate x0 -> coordinate y0 -> coordinate x1 -> coordinate y1 -> nonneg (Helpers_linelen x0 y0 x1 y1).
Proof.
  intros. unfold Helpers_linelen. apply fsqrt_nonneg, fadd_nonneg; apply (fmul_square_nonneg (100 + 1));
    by apply (sub_mag f32_prec f32_emax f32_prec_ok f32_emax_ok).
Qed.

Lemma half_mag k x : -149 <= k < 127 -> mag f32_prec f32_emax (k + 1) x -> mag f32_prec f32_emax k (fdiv x two).
Proof.
  intros Hk. destruct x as [[]|[]| |s m e]; try done. intros [He Hm]. change (emin f32_prec f32_emax) with (-149) in He.
  unfold fdiv. change two with (S754_finite false 8388608 (-22)). cbn [SFdiv]. unfold SFdiv_core_binary.
  change (Zdigits2 (Z.pos 8388608)) with 24. set (f := fexp f32_prec f32_emax (Zdigits2 (Z.pos m) + e - (24 + -22))). set (e' := Z.min f (e - -22)).
  pose proof (digits_le (Z.pos m) (k + 1 - e) ltac:(lia) ltac:(lia) Hm) as Hd.
  assert (Hf : f <= Z.max (k - 24) (-149)) by (unfold f, fexp, emin, f32_prec, f32_emax; lia). assert (Hf' : -149 <= f) by (unfold f, fexp, emin, f32_prec, f32_emax; lia).
  rewrite shl_value by (unfold e'; lia). set (s' := e - -22 - e'). set (m' := Z.pos m * 2 ^ s').
  assert (Hm' : 0 <= m' <= 2 ^ (k - e') * 2 ^ 23).
  { unfold m', s'. assert (0 < 2 ^ (e - -22 - e')) by (apply Z.pow_pos_nonneg; unfold e'; lia). split; [nia|].
    rewrite <- Z.pow_add_r by (unfold e'; lia). replace (k - e' + 23) with ((k + 1 - e) + (e - -22 - e')) by lia. rewrite Z.pow_add_r by (unfold e'; lia). nia. }
  pose proof (Z.div_mod m' (2 ^ 23) ltac:(done)) as Hdm. pose proof (Z.mod_pos_bound m' (2 ^ 23) ltac:(done)) as Hr.
  rewrite (eucl_value m' (Z.pos 8388608) (m' / 2 ^ 23) (m' mod 2 ^ 23)) by (change (Z.pos 8388608) with (2 ^ 23); lia).
  assert (Hq : 0 <= m' / 2 ^ 23) by (apply Z.div_pos; lia).
  apply round_mag; auto with float; try (unfold e', emin, f32_prec, f32_emax; lia).
  - apply Z.div_le_upper_bound; lia.
  - intros Hl. apply Z.div_lt_upper_bound; [done|]. destruct (Z.eq_dec m' (2 ^ (k - e') * 2 ^ 23)) as [E|]; [|lia]. destruct Hl.
    rewrite E, Z.mod_mul by done. done.
Qed.

Lemma midpoint_coordinate a b : coordinate a -> coordinate b -> coordinate (midpoint a b).
Proof. intros Ha Hb. apply half_mag; [done|]. by apply (add_mag f32_prec f32_emax f32_prec_ok f32_emax_ok). Qed.
