(* ===== verification/PrismCalls.v ===== *)
(** * Filters of path consumers

    A stroker or dasher is a path consumer that calls another one.  It never looks at
    the state of the other: the calls it makes during an operation are a list
    ([call]), which is played into the other consumer ([play], [filtered]). *)

From S2P Require Import Prelude.
From S2P Require Import Float32.
From S2P Require Import PrismRasterizer.

Inductive call :=
  | MoveTo (x y : jfloat)
  | LineTo (x y : jfloat)
  | QuadTo (xc yc x y : jfloat)
  | CurveTo (xc0 yc0 xc1 yc1 x y : jfloat)
  | ClosePath
  | PathDone.

Section play.
Context {S : Type} (out : PathConsumer S).

Definition call_on (c : call) (s : S) : option S :=
  match c with
  | MoveTo x y => moveTo out x y s
  | LineTo x y => lineTo out x y s
  | QuadTo xc yc x y => quadTo out xc yc x y s
  | CurveTo xc0 yc0 xc1 yc1 x y => curveTo out xc0 yc0 xc1 yc1 x y s
  | ClosePath => closePath out s
  | PathDone => pathDone out s
  end.

Fixpoint play (cs : list call) (s : S) : option S :=
  match cs with
  | [] => Some s
  | c :: cs => s ← call_on c s; play cs s
  end.

Lemma play_app cs cs' s : play (cs ++ cs') s = s ← play cs s; play cs' s.
Proof.
  revert s. induction cs as [|c cs IH]; intros s; [done|]. simpl. destruct (call_on c s) as [s1|]; [|done]. simpl. apply IH.
Qed.

(** The consumer of a filter in front of [out]: [op] is what the filter does on a call,
    with the calls it makes. *)
Definition filtered {F} (op : call -> F -> option (F * list call)) : PathConsumer (F * S) :=
  let on c '((f, s) : F * S) := '(f, cs) ← op c f; s ← play cs s; Some (f, s) in
  mkPathConsumer (fun x y => on (MoveTo x y)) (fun x y => on (LineTo x y)) (fun xc yc x y => on (QuadTo xc yc x y))
    (fun xc0 yc0 xc1 yc1 x y => on (CurveTo xc0 yc0 xc1 yc1 x y)) (on ClosePath) (on PathDone).
End play.
