(* ===== verification/PrismStroker.v ===== *)
(** * Stroking

    native-prism/Stroker.c.  The stroker is a path consumer that turns a path into the
    outline of its stroke and passes it to another consumer.  The left side of the
    outline is passed on as it is found; the right side is kept on a stack
    ([PolyStack]) and passed on in reverse once the subpath ends.  The calls on the other
    consumer are kept in [st_out] until the end of the operation.

    The fields [offset], [miter] and [c] of the C structure and the static arrays [lp]
    and [rp] are written before they are read in every call, and are results here; the
    static arrays [middle] and [subdivTs] are part of the state. *)

From Stdlib Require Import SpecFloat.
From S2P Require Import Prelude.
From S2P Require Import Float32.
From S2P Require Import PrismRenderer.
From S2P Require Import PrismRasterizer.
From S2P Require Import PrismHelpers.
From S2P Require Import PrismCalls.

(** ** The stack of curves *)

(** [curvesSIZE] and [curveTypesSIZE] are the lengths of the arrays. *)
Record PolyStack := mkPolyStack { curves : list jfloat; curves_end : Z; curveTypes : list Z; numCurves : Z }.

Definition INIT_SIZE : Z := 50.

Definition PolyStack_init : PolyStack := mkPolyStack (new_float (8 * INIT_SIZE)) 0 (new_int INIT_SIZE) 0.

Definition PolyStack_isEmpty (ps : PolyStack) : bool := numCurves ps =? 0.

(** [System_arraycopy] from the start of one array to the start of another. *)
Definition arraycopy {A} (src : list A) (n : Z) (dst : list A) : option (list A) :=
  for_lt n (fun i d => v ← aget src i; aset d i v) dst.

Definition ensureSpace (n : Z) (ps : PolyStack) : option PolyStack :=
  c ← (if curves_end ps + n >=? alen (curves ps) then
         arraycopy (curves ps) (curves_end ps) (new_float (i32 ((curves_end ps + n) * 2)))
       else Some (curves ps));
  t ← (if numCurves ps >=? alen (curveTypes ps) then
         arraycopy (curveTypes ps) (numCurves ps) (new_int (i32 (numCurves ps * 2)))
       else Some (curveTypes ps));
  Some (mkPolyStack c (curves_end ps) t (numCurves ps)).

(** Values stored from an index on. *)
Fixpoint astore {A} (m : list A) (i : Z) (vs : list A) : option (list A) :=
  match vs with
  | [] => Some m
  | v :: vs => m ← aset m i v; astore m (i + 1) vs
  end.

Definition push_values (type : Z) (vs : list jfloat) (ps : PolyStack) : option PolyStack :=
  ps ← ensureSpace (alen vs) ps;
  t ← aset (curveTypes ps) (numCurves ps) type;
  c ← astore (curves ps) (curves_end ps) vs;
  Some (mkPolyStack c (i32 (curves_end ps + alen vs)) t (i32 (numCurves ps + 1))).

Definition PolyStack_pushCubic (x0 y0 x1 y1 x2 y2 : jfloat) : PolyStack -> option PolyStack :=
  push_values 8 [x2; y2; x1; y1; x0; y0].
Definition PolyStack_pushQuad (x0 y0 x1 y1 : jfloat) : PolyStack -> option PolyStack :=
  push_values 6 [x1; y1; x0; y0].
Definition PolyStack_pushLine (x y : jfloat) : PolyStack -> option PolyStack :=
  push_values 4 [x; y].

(** The call on the consumer, if there is one. *)
Definition PolyStack_pop (ps : PolyStack) : option (list call * PolyStack) :=
  let num := numCurves ps - 1 in
  type ← aget (curveTypes ps) num;
  let e := curves_end ps - (type - 2) in
  let c k := aget (curves ps) (e + k) in
  cs ← (if type =? 8 then
          x0 ← c 0; y0 ← c 1; x1 ← c 2; y1 ← c 3; x2 ← c 4; y2 ← c 5; Some [CurveTo x0 y0 x1 y1 x2 y2]
        else if type =? 6 then
          x0 ← c 0; y0 ← c 1; x1 ← c 2; y1 ← c 3; Some [QuadTo x0 y0 x1 y1]
        else if type =? 4 then
          x0 ← c 0; y0 ← c 1; Some [LineTo x0 y0]
        else Some []);
  Some (cs, mkPolyStack (curves ps) e (curveTypes ps) num).

(** ** State *)

Definition JOIN_MITER : Z := 0.
Definition JOIN_ROUND : Z := 1.
Definition JOIN_BEVEL : Z := 2.
Definition CAP_BUTT : Z := 0.
Definition CAP_ROUND : Z := 1.
Definition CAP_SQUARE : Z := 2.

Definition MOVE_TO : Z := 0.
Definition DRAWING_OP_TO : Z := 1.
Definition CLOSE : Z := 2.

Definition MAX_N_CURVES : Z := 11.

(** A point of the path, the slope there, and the vector to the left side: [sx0], [sy0],
    [sdx], [sdy], [smx] and [smy] for the start, [cx0], ... for the current point. *)
Record PathEnd := mkEnd { e_x : jfloat; e_y : jfloat; e_dx : jfloat; e_dy : jfloat; e_mx : jfloat; e_my : jfloat }.

Record Stroker := mkStroker {
  capStyle : Z; joinStyle : Z; lineWidth2 : jfloat; miterLimitSq : jfloat; st_prev : Z;
  st_start : PathEnd; st_cur : PathEnd; st_reverse : PolyStack;
  st_middle : list jfloat; st_subdivTs : list jfloat; st_out : list call }.

Section stroker_fields.
Implicit Types st : Stroker.

Definition st_set_prev v st := mkStroker (capStyle st) (joinStyle st) (lineWidth2 st) (miterLimitSq st) v (st_start st) (st_cur st)
  (st_reverse st) (st_middle st) (st_subdivTs st) (st_out st).
Definition st_set_start v st := mkStroker (capStyle st) (joinStyle st) (lineWidth2 st) (miterLimitSq st) (st_prev st) v (st_cur st)
  (st_reverse st) (st_middle st) (st_subdivTs st) (st_out st).
Definition st_set_cur v st := mkStroker (capStyle st) (joinStyle st) (lineWidth2 st) (miterLimitSq st) (st_prev st) (st_start st) v
  (st_reverse st) (st_middle st) (st_subdivTs st) (st_out st).
Definition st_set_reverse v st := mkStroker (capStyle st) (joinStyle st) (lineWidth2 st) (miterLimitSq st) (st_prev st) (st_start st)
  (st_cur st) v (st_middle st) (st_subdivTs st) (st_out st).
Definition st_set_scratch m ts st := mkStroker (capStyle st) (joinStyle st) (lineWidth2 st) (miterLimitSq st) (st_prev st)
  (st_start st) (st_cur st) (st_reverse st) m ts (st_out st).
Definition st_set_out v st := mkStroker (capStyle st) (joinStyle st) (lineWidth2 st) (miterLimitSq st) (st_prev st) (st_start st)
  (st_cur st) (st_reverse st) (st_middle st) (st_subdivTs st) v.
End stroker_fields.

Definition zero_end : PathEnd := mkEnd f_zero f_zero f_zero f_zero f_zero f_zero.

(** [scratch] is what earlier strokers have left in the static arrays. *)
Definition Stroker_init (scratch : list jfloat * list jfloat) (lineWidth : jfloat) (cap join : Z) (miterLimit : jfloat)
    : Stroker :=
  let w2 := (lineWidth / two)%jf in
  let limit := (miterLimit * w2)%jf in
  mkStroker cap join w2 (limit * limit)%jf CLOSE zero_end zero_end PolyStack_init (fst scratch) (snd scratch) [].

(** ** Vectors *)

Definition computeOffset (lx ly w : jfloat) : jfloat * jfloat :=
  let len := fsqrt (lx * lx + ly * ly)%jf in
  if feq len f_zero then (f_zero, f_zero) else (((ly * w) / len)%jf, (- (lx * w) / len)%jf).

Definition isCW (dx1 dy1 dx2 dy2 : jfloat) : bool := fle (dx1 * dy2)%jf (dy1 * dx2)%jf.

Definition ROUND_JOIN_THRESHOLD : jfloat := (of_int 1000 / of_int 65536)%jf.

Definition computeMiter (x0 y0 x1 y1 x0p y0p x1p y1p : jfloat) : jfloat * jfloat :=
  let x10 := (x1 - x0)%jf in let y10 := (y1 - y0)%jf in
  let x10p := (x1p - x0p)%jf in let y10p := (y1p - y0p)%jf in
  let den := (x10 * y10p - x10p * y10)%jf in
  let t := (x10p * (y0 - y0p) - y10p * (x0 - x0p))%jf in
  let t := (t / den)%jf in
  ((x0 + t * x10)%jf, (y0 + t * y10)%jf).

Definition safecomputeMiter (x0 y0 x1 y1 x0p y0p x1p y1p : jfloat) : jfloat * jfloat :=
  let x10 := (x1 - x0)%jf in let y10 := (y1 - y0)%jf in
  let x10p := (x1p - x0p)%jf in let y10p := (y1p - y0p)%jf in
  let den := (x10 * y10p - x10p * y10)%jf in
  if feq den f_zero then (((x0 + x0p) / two)%jf, ((y0 + y0p) / two)%jf)
  else
    let t := (x10p * (y0 - y0p) - y10p * (x0 - x0p))%jf in
    let t := (t / den)%jf in
    ((x0 + t * x10)%jf, (y0 + t * y10)%jf).

Definition withinULP (pf : platform) (x1 y1 x2 y2 : jfloat) (maxUlps : Z) : bool :=
  Helpers_withinULP pf x1 x2 maxUlps && Helpers_withinULP pf y1 y2 maxUlps.

(** The start and end of the line on the left and on the right. *)
Definition getLineOffsets (w x1 y1 x2 y2 : jfloat) : list jfloat * list jfloat :=
  let '(m0, m1) := computeOffset (x2 - x1)%jf (y2 - y1)%jf w in
  ([(x1 + m0)%jf; (y1 + m1)%jf; (x2 + m0)%jf; (y2 + m1)%jf], [(x1 - m0)%jf; (y1 - m1)%jf; (x2 - m0)%jf; (y2 - m1)%jf]).

(** ** Offset curves

    The kind of the curves (the number of coordinates) and the coordinates of the left
    and the right one. *)

Definition is_zero (dx dy : jfloat) : bool := feq dx f_zero && feq dy f_zero.

Definition computeOffsetCubic (pf : platform) (w : jfloat) (pts : list jfloat) (off : Z)
  : option (Z * list jfloat * list jfloat) :=
  x1 ← aget pts (off + 0); y1 ← aget pts (off + 1);
  x2 ← aget pts (off + 2); y2 ← aget pts (off + 3);
  x3 ← aget pts (off + 4); y3 ← aget pts (off + 5);
  x4 ← aget pts (off + 6); y4 ← aget pts (off + 7);
  let dx4 := (x4 - x3)%jf in let dy4 := (y4 - y3)%jf in
  let dx1 := (x2 - x1)%jf in let dy1 := (y2 - y1)%jf in
  let p1eqp2 := withinULP pf x1 y1 x2 y2 6 in
  let p3eqp4 := withinULP pf x3 y3 x4 y4 6 in
  let '(l, r) := getLineOffsets w x1 y1 x4 y4 in
  if p1eqp2 && p3eqp4 then Some (4, l, r)
  else
    let '(dx1, dy1) := if p1eqp2 then ((x3 - x1)%jf, (y3 - y1)%jf) else (dx1, dy1) in
    let '(dx4, dy4) := if negb p1eqp2 && p3eqp4 then ((x4 - x2)%jf, (y4 - y2)%jf) else (dx4, dy4) in
    let dotsq := (dx1 * dx4 + dy1 * dy4)%jf in
    let dotsq := (dotsq * dotsq)%jf in
    let l1sq := (dx1 * dx1 + dy1 * dy1)%jf in
    let l4sq := (dx4 * dx4 + dy4 * dy4)%jf in
    if Helpers_withinULP pf dotsq (l1sq * l4sq)%jf 4 then Some (4, l, r)
    else
      let eighth := (f_one / of_int 8)%jf in
      let x := (eighth * (x1 + three * (x2 + x3) + x4))%jf in
      let y := (eighth * (y1 + three * (y2 + y3) + y4))%jf in
      let dxm := (x3 + x4 - x1 - x2)%jf in
      let dym := (y3 + y4 - y1 - y2)%jf in
      let '(o00, o01) := computeOffset dx1 dy1 w in
      let '(o10, o11) := computeOffset dxm dym w in
      let '(o20, o21) := computeOffset dx4 dy4 w in
      let invdet43 := (four / (three * (dx1 * dy4 - dy1 * dx4)))%jf in
      let side x1p y1p xi yi x4p y4p :=
        let tx := (two * xi - x1p - x4p)%jf in
        let ty := (two * yi - y1p - y4p)%jf in
        let c1 := (invdet43 * (dy4 * tx - dx4 * ty))%jf in
        let c2 := (invdet43 * (dx1 * ty - dy1 * tx))%jf in
        [x1p; y1p; (x1p + c1 * dx1)%jf; (y1p + c1 * dy1)%jf; (x4p + c2 * dx4)%jf; (y4p + c2 * dy4)%jf; x4p; y4p] in
      let xi := (x + o10)%jf in
      let yi := (y + o11)%jf in
      Some (8, side (x1 + o00)%jf (y1 + o01)%jf xi yi (x4 + o20)%jf (y4 + o21)%jf,
               side (x1 - o00)%jf (y1 - o01)%jf (xi - two * o10)%jf (yi - two * o11)%jf (x4 - o20)%jf (y4 - o21)%jf).

Definition computeOffsetQuad (pf : platform) (w : jfloat) (pts : list jfloat) (off : Z)
  : option (Z * list jfloat * list jfloat) :=
  x1 ← aget pts (off + 0); y1 ← aget pts (off + 1);
  x2 ← aget pts (off + 2); y2 ← aget pts (off + 3);
  x3 ← aget pts (off + 4); y3 ← aget pts (off + 5);
  let dx3 := (x3 - x2)%jf in let dy3 := (y3 - y2)%jf in
  let dx1 := (x2 - x1)%jf in let dy1 := (y2 - y1)%jf in
  let '(l, r) := getLineOffsets w x1 y1 x3 y3 in
  if withinULP pf x1 y1 x2 y2 6 || withinULP pf x2 y2 x3 y3 6 then Some (4, l, r)
  else
    let dotsq := (dx1 * dx3 + dy1 * dy3)%jf in
    let dotsq := (dotsq * dotsq)%jf in
    let l1sq := (dx1 * dx1 + dy1 * dy1)%jf in
    let l3sq := (dx3 * dx3 + dy3 * dy3)%jf in
    if Helpers_withinULP pf dotsq (l1sq * l3sq)%jf 4 then Some (4, l, r)
    else
      let '(o00, o01) := computeOffset dx1 dy1 w in
      let '(o10, o11) := computeOffset dx3 dy3 w in
      let side x1p y1p x3p y3p :=
        let '(mx, my) := safecomputeMiter x1p y1p (x1p + dx1)%jf (y1p + dy1)%jf x3p y3p (x3p - dx3)%jf (y3p - dy3)%jf in
        [x1p; y1p; mx; my; x3p; y3p] in
      Some (6, side (x1 + o00)%jf (y1 + o01)%jf (x3 + o10)%jf (y3 + o11)%jf,
               side (x1 - o00)%jf (y1 - o01)%jf (x3 - o10)%jf (y3 - o11)%jf).

(** ** Subdivision points *)

(** The curve in [pts], turned so that it starts along the x axis. *)
Definition rotated_curve (pts : list jfloat) (type : Z) : option Curve :=
  p0 ← aget pts 0; p1 ← aget pts 1; p2 ← aget pts 2; p3 ← aget pts 3;
  let x12 := (p2 - p0)%jf in
  let y12 := (p3 - p1)%jf in
  if negb (feq y12 f_zero) && negb (feq x12 f_zero) then
    p4 ← aget pts 4; p5 ← aget pts 5;
    let hypot := fsqrt (x12 * x12 + y12 * y12)%jf in
    let cos := (x12 / hypot)%jf in
    let sin := (y12 / hypot)%jf in
    let rx px py := (cos * px + sin * py)%jf in
    let ry px py := (cos * py - sin * px)%jf in
    if type =? 8 then
      p6 ← aget pts 6; p7 ← aget pts 7;
      Some (Curve_setcubic (rx p0 p1) (ry p0 p1) (rx p2 p3) (ry p2 p3) (rx p4 p5) (ry p4 p5) (rx p6 p7) (ry p6 p7))
    else if type =? 6 then
      Some (Curve_setquad (rx p0 p1) (ry p0 p1) (rx p2 p3) (ry p2 p3) (rx p4 p5) (ry p4 p5))
    else Some no_curve
  else Curve_set pts type no_curve.

Definition SPLIT_MIN : jfloat := float_literal 1 10000.
Definition SPLIT_MAX : jfloat := float_literal 9999 10000.

(** The number of the points, and the array with the points in front. *)
Definition findSubdivPoints (pf : platform) (pts ts : list jfloat) (type : Z) (w : jfloat) : option (Z * list jfloat) :=
  c ← rotated_curve pts type;
  '(n, ts) ← Curve_dxRoots c ts 0;
  let ret := n in
  '(n, ts) ← Curve_dyRoots c ts ret;
  let ret := ret + n in
  '(n, ts) ← (if type =? 8 then Curve_infPoints c ts ret else Some (0, ts));
  let ret := ret + n in
  '(n, ts) ← Curve_rootsOfROCMinusW pf c ts ret w SPLIT_MIN;
  let ret := ret + n in
  '(ret, ts) ← Helpers_filterOutNotInAB ts 0 ret SPLIT_MIN SPLIT_MAX;
  ts ← Helpers_isort ts 0 ret;
  Some (ret, ts).

(** ** Output *)

Section stroker.
Context (pf : platform).
Implicit Types st : Stroker.

Definition say (c : call) st : Stroker := st_set_out (st_out st ++ [c]) st.

Definition emitMoveTo (x0 y0 : jfloat) st : option Stroker :=
  Some (say (MoveTo x0 y0) st).

Definition emitLineTo (x1 y1 : jfloat) (rev : bool) st : option Stroker :=
  if rev then ps ← PolyStack_pushLine x1 y1 (st_reverse st); Some (st_set_reverse ps st)
  else Some (say (LineTo x1 y1) st).

Definition emitQuadTo (x0 y0 x1 y1 x2 y2 : jfloat) (rev : bool) st : option Stroker :=
  if rev then ps ← PolyStack_pushQuad x0 y0 x1 y1 (st_reverse st); Some (st_set_reverse ps st)
  else Some (say (QuadTo x1 y1 x2 y2) st).

Definition emitCurveTo (x0 y0 x1 y1 x2 y2 x3 y3 : jfloat) (rev : bool) st : option Stroker :=
  if rev then ps ← PolyStack_pushCubic x0 y0 x1 y1 x2 y2 (st_reverse st); Some (st_set_reverse ps st)
  else Some (say (CurveTo x1 y1 x2 y2 x3 y3) st).

Definition emitClose st : option Stroker := Some (say ClosePath st).

(** One pop per curve on the stack. *)
Definition emitReverse st : option Stroker :=
  while_fuel (Z.to_nat (numCurves (st_reverse st))) (fun st => negb (PolyStack_isEmpty (st_reverse st)))
    (fun st => '(cs, ps) ← PolyStack_pop (st_reverse st); Some (st_set_out (st_out st ++ cs) (st_set_reverse ps st))) st.

(** ** Joins and caps *)

Definition drawBezApproxForArc (cx cy omx omy mx my : jfloat) (rev : bool) st : option Stroker :=
  let w2 := lineWidth2 st in
  let cosext2 := to_double ((omx * mx + omy * my) / (two * w2 * w2))%jf in
  let half := double_literal 1 2 in
  let cv := of_double (double_literal 4 3 * dsqrt (half - cosext2) / (double_of_int 1 + dsqrt (cosext2 + half)))%jd in
  let cv := if rev then (- cv)%jf else cv in
  let x1 := (cx + omx)%jf in
  let y1 := (cy + omy)%jf in
  let x2 := (x1 - cv * omy)%jf in
  let y2 := (y1 + cv * omx)%jf in
  let x4 := (cx + mx)%jf in
  let y4 := (cy + my)%jf in
  let x3 := (x4 + cv * my)%jf in
  let y3 := (y4 - cv * mx)%jf in
  emitCurveTo x1 y1 x2 y2 x3 y3 x4 y4 rev st.

Definition drawRoundJoin2 (cx cy omx omy mx my : jfloat) (rev : bool) st : option Stroker :=
  let cosext := to_double (omx * mx + omy * my)%jf in
  if dle (double_of_int 0) cosext then drawBezApproxForArc cx cy omx omy mx my rev st
  else
    let nx := (my - omy)%jf in
    let ny := (omx - mx)%jf in
    let nlen := fsqrt (nx * nx + ny * ny)%jf in
    let scale := (lineWidth2 st / nlen)%jf in
    let mmx := (nx * scale)%jf in
    let mmy := (ny * scale)%jf in
    let '(mmx, mmy) := if rev then ((- mmx)%jf, (- mmy)%jf) else (mmx, mmy) in
    st ← drawBezApproxForArc cx cy omx omy mmx mmy rev st;
    drawBezApproxForArc cx cy mmx mmy mx my rev st.

Definition drawRoundJoin (x y omx omy mx my : jfloat) (rev : bool) (threshold : jfloat) st : option Stroker :=
  if is_zero omx omy || is_zero mx my then Some st
  else
    let domx := (omx - mx)%jf in
    let domy := (omy - my)%jf in
    let len := (domx * domx + domy * domy)%jf in
    if flt len threshold then Some st
    else if rev then drawRoundJoin2 x y (- omx)%jf (- omy)%jf (- mx)%jf (- my)%jf rev st
    else drawRoundJoin2 x y omx omy mx my rev st.

Definition drawRoundCap (cx cy mx my : jfloat) st : option Stroker :=
  let C := float_literal 5522847498307933 10000000000000000 in
  st ← emitCurveTo (cx + mx)%jf (cy + my)%jf (cx + mx - C * my)%jf (cy + my + C * mx)%jf
         (cx - my + C * mx)%jf (cy + mx + C * my)%jf (cx - my)%jf (cy + mx)%jf false st;
  emitCurveTo (cx - my)%jf (cy + mx)%jf (cx - my - C * mx)%jf (cy + mx - C * my)%jf
    (cx - mx - C * my)%jf (cy - my + C * mx)%jf (cx - mx)%jf (cy - my)%jf false st.

Definition drawMiter (pdx pdy x0 y0 dx dy omx omy mx my : jfloat) (rev : bool) st : option Stroker :=
  if (feq mx omx && feq my omy) || is_zero pdx pdy || is_zero dx dy then Some st
  else
    let '(omx, omy, mx, my) := if rev then ((- omx)%jf, (- omy)%jf, (- mx)%jf, (- my)%jf) else (omx, omy, mx, my) in
    let '(m0, m1) := computeMiter ((x0 - pdx) + omx)%jf ((y0 - pdy) + omy)%jf (x0 + omx)%jf (y0 + omy)%jf
                       ((dx + x0) + mx)%jf ((dy + y0) + my)%jf (x0 + mx)%jf (y0 + my)%jf in
    let lenSq := ((m0 - x0) * (m0 - x0) + (m1 - y0) * (m1 - y0))%jf in
    if flt lenSq (miterLimitSq st) then emitLineTo m0 m1 rev st else Some st.

Definition drawJoin (pdx pdy x0 y0 dx dy omx omy mx my : jfloat) st : option Stroker :=
  st ← (if negb (st_prev st =? DRAWING_OP_TO) then
          st ← emitMoveTo (x0 + mx)%jf (y0 + my)%jf st;
          Some (st_set_start (mkEnd (e_x (st_start st)) (e_y (st_start st)) dx dy mx my) st)
        else
          let cw := isCW pdx pdy dx dy in
          st ← (if joinStyle st =? JOIN_MITER then drawMiter pdx pdy x0 y0 dx dy omx omy mx my cw st
                else if joinStyle st =? JOIN_ROUND then drawRoundJoin x0 y0 omx omy mx my cw ROUND_JOIN_THRESHOLD st
                else Some st);
          emitLineTo x0 y0 (negb cw) st);
  Some (st_set_prev DRAWING_OP_TO st).

Definition finish st : option Stroker :=
  let cap x y mx my st :=
    if capStyle st =? CAP_ROUND then drawRoundCap x y mx my st
    else if capStyle st =? CAP_SQUARE then
      st ← emitLineTo (x - my + mx)%jf (y + mx + my)%jf false st;
      emitLineTo (x - my - mx)%jf (y + mx - my)%jf false st
    else Some st in
  let c := st_cur st in
  st ← cap (e_x c) (e_y c) (e_mx c) (e_my c) st;
  st ← emitReverse st;
  let s := st_start st in
  st ← (if capStyle st =? CAP_ROUND then drawRoundCap (e_x s) (e_y s) (- e_mx s)%jf (- e_my s)%jf st
        else if capStyle st =? CAP_SQUARE then
          st ← emitLineTo (e_x s + e_my s - e_mx s)%jf (e_y s - e_mx s - e_my s)%jf false st;
          emitLineTo (e_x s + e_my s + e_mx s)%jf (e_y s - e_mx s + e_my s)%jf false st
        else Some st);
  emitClose st.

(** ** The path consumer *)

Definition Stroker_moveTo (x0 y0 : jfloat) st : option Stroker :=
  st ← (if st_prev st =? DRAWING_OP_TO then finish st else Some st);
  let s := st_start st in
  let c := st_cur st in
  Some (st_set_prev MOVE_TO
    (st_set_start (mkEnd x0 y0 f_one f_zero (e_mx s) (e_my s)) (st_set_cur (mkEnd x0 y0 f_one f_zero (e_mx c) (e_my c)) st))).

Definition Stroker_lineTo (x1 y1 : jfloat) st : option Stroker :=
  let c := st_cur st in
  let dx := (x1 - e_x c)%jf in
  let dy := (y1 - e_y c)%jf in
  let dx := if is_zero dx dy then f_one else dx in
  let '(mx, my) := computeOffset dx dy (lineWidth2 st) in
  st ← drawJoin (e_dx c) (e_dy c) (e_x c) (e_y c) dx dy (e_mx c) (e_my c) mx my st;
  st ← emitLineTo (e_x c + mx)%jf (e_y c + my)%jf false st;
  st ← emitLineTo (x1 + mx)%jf (y1 + my)%jf false st;
  st ← emitLineTo (e_x c - mx)%jf (e_y c - my)%jf true st;
  st ← emitLineTo (x1 - mx)%jf (y1 - my)%jf true st;
  Some (st_set_prev DRAWING_OP_TO (st_set_cur (mkEnd x1 y1 dx dy mx my) st)).

Definition Stroker_closePath st : option Stroker :=
  if negb (st_prev st =? DRAWING_OP_TO) then
    if st_prev st =? CLOSE then Some st
    else
      let w2 := lineWidth2 st in
      st ← emitMoveTo (e_x (st_cur st)) (e_y (st_cur st) - w2)%jf st;
      let st := st_set_cur (mkEnd (e_x (st_cur st)) (e_y (st_cur st)) f_one f_zero f_zero (- w2)%jf) st in
      let st := st_set_start (mkEnd (e_x (st_start st)) (e_y (st_start st)) f_one f_zero f_zero (- w2)%jf) st in
      finish st
  else
    st ← (if negb (feq (e_x (st_cur st)) (e_x (st_start st))) || negb (feq (e_y (st_cur st)) (e_y (st_start st))) then
            Stroker_lineTo (e_x (st_start st)) (e_y (st_start st)) st
          else Some st);
    let c := st_cur st in
    let s := st_start st in
    st ← drawJoin (e_dx c) (e_dy c) (e_x c) (e_y c) (e_dx s) (e_dy s) (e_mx c) (e_my c) (e_mx s) (e_my s) st;
    let s := st_start st in
    st ← emitLineTo (e_x s + e_mx s)%jf (e_y s + e_my s)%jf false st;
    st ← emitMoveTo (e_x s - e_mx s)%jf (e_y s - e_my s)%jf st;
    st ← emitReverse st;
    emitClose (st_set_prev CLOSE st).

Definition Stroker_pathDone st : option Stroker :=
  st ← (if st_prev st =? DRAWING_OP_TO then finish st else Some st);
  Some (st_set_prev CLOSE (say PathDone st)).

(** *** Curves *)

(** Short vectors are made unit vectors. *)
Definition normalized (dx dy : jfloat) : jfloat * jfloat :=
  let tenth := float_literal 1 10 in
  if flt (fabs dx) tenth && flt (fabs dy) tenth then
    let len := fsqrt (dx * dx + dy * dy)%jf in ((dx / len)%jf, (dy / len)%jf)
  else (dx, dy).

(** The offset curves of one part of the curve. *)
Definition emit_offsets (kind : Z) (lp rp : list jfloat) st : option Stroker :=
  let l k := aget lp k in
  let r k := aget rp k in
  if kind =? 0 then Some st
  else
    l0 ← l 0; l1 ← l 1; l2 ← l 2; l3 ← l 3; r0 ← r 0; r1 ← r 1; r2 ← r 2; r3 ← r 3;
    st ← emitLineTo l0 l1 false st;
    st ← (if kind =? 8 then
            l4 ← l 4; l5 ← l 5; l6 ← l 6; l7 ← l 7; r4 ← r 4; r5 ← r 5; r6 ← r 6; r7 ← r 7;
            st ← emitCurveTo l0 l1 l2 l3 l4 l5 l6 l7 false st;
            emitCurveTo r0 r1 r2 r3 r4 r5 r6 r7 true st
          else if kind =? 6 then
            l4 ← l 4; l5 ← l 5; r4 ← r 4; r5 ← r 5;
            st ← emitQuadTo l0 l1 l2 l3 l4 l5 false st;
            emitQuadTo r0 r1 r2 r3 r4 r5 true st
          else if kind =? 4 then
            st ← emitLineTo l2 l3 false st;
            emitLineTo r0 r1 true st
          else Some st);
    rx ← r (kind - 2); ry ← r (kind - 1);
    emitLineTo rx ry true st.

(** [middle] is broken at the points in [ts]. *)
Definition split_middle (type nSplits : Z) (ts middle : list jfloat) : option (list jfloat) :=
  '(_, middle) ← for_lt nSplits (fun i '(prevT, middle) =>
    t ← aget ts i;
    mem ← Helpers_subdivideAt ((t - prevT) / (f_one - prevT))%jf 0 (i * (type - 2)) (Some 0) (i * (type - 2))
            (Some 0) (i * (type - 2) + (type - 2)) type [middle];
    middle ← aget mem 0;
    Some (t, middle)) (f_zero, middle);
  Some middle.

(** The end of [Stroker_curveTo] and [Stroker_quadTo]: the join, the subdivision and the
    offset curves of the parts. *)
Definition stroke_curve (type : Z) (dxs dys dxf dyf xf yf : jfloat) st : option Stroker :=
  let '(dxs, dys) := normalized dxs dys in
  let '(dxf, dyf) := normalized dxf dyf in
  let w := lineWidth2 st in
  let '(mx, my) := computeOffset dxs dys w in
  let c := st_cur st in
  st ← drawJoin (e_dx c) (e_dy c) (e_x c) (e_y c) dxs dys (e_mx c) (e_my c) mx my st;
  '(nSplits, ts) ← findSubdivPoints pf (st_middle st) (st_subdivTs st) type w;
  middle ← split_middle type nSplits ts (st_middle st);
  let st := st_set_scratch middle ts st in
  '(kind, lp, rp, st) ← for_lt (nSplits + 1) (fun i '(_, _, _, st) =>
    '(kind, lp, rp) ← (if type =? 8 then computeOffsetCubic pf w middle (i * (type - 2))
                       else computeOffsetQuad pf w middle (i * (type - 2)));
    st ← emit_offsets kind lp rp st;
    Some (kind, lp, rp, st)) (0, [], [], st);
  lx ← aget lp (kind - 2); ly ← aget lp (kind - 1); rx ← aget rp (kind - 2); ry ← aget rp (kind - 1);
  Some (st_set_prev DRAWING_OP_TO (st_set_cur (mkEnd xf yf dxf dyf ((lx - rx) / two)%jf ((ly - ry) / two)%jf) st)).

Definition Stroker_curveTo (x1 y1 x2 y2 x3 y3 : jfloat) st : option Stroker :=
  let x0 := e_x (st_cur st) in
  let y0 := e_y (st_cur st) in
  middle ← astore (st_middle st) 0 [x0; y0; x1; y1; x2; y2; x3; y3];
  let st := st_set_scratch middle (st_subdivTs st) st in
  let '(dxs, dys) := ((x1 - x0)%jf, (y1 - y0)%jf) in
  let '(dxf, dyf) := ((x3 - x2)%jf, (y3 - y2)%jf) in
  let p1eqp2 := is_zero dxs dys in
  let p3eqp4 := is_zero dxf dyf in
  let '(dxs, dys) :=
    if p1eqp2 then
      let '(dxs, dys) := ((x2 - x0)%jf, (y2 - y0)%jf) in
      if is_zero dxs dys then ((x3 - x0)%jf, (y3 - y0)%jf) else (dxs, dys)
    else (dxs, dys) in
  let '(dxf, dyf) :=
    if p3eqp4 then
      let '(dxf, dyf) := ((x3 - x1)%jf, (y3 - y1)%jf) in
      if is_zero dxf dyf then ((x3 - x0)%jf, (y3 - y0)%jf) else (dxf, dyf)
    else (dxf, dyf) in
  if is_zero dxs dys then Stroker_lineTo x0 y0 st
  else stroke_curve 8 dxs dys dxf dyf x3 y3 st.

Definition Stroker_quadTo (x1 y1 x2 y2 : jfloat) st : option Stroker :=
  let x0 := e_x (st_cur st) in
  let y0 := e_y (st_cur st) in
  middle ← astore (st_middle st) 0 [x0; y0; x1; y1; x2; y2];
  let st := st_set_scratch middle (st_subdivTs st) st in
  let '(dxs, dys) := ((x1 - x0)%jf, (y1 - y0)%jf) in
  let '(dxf, dyf) := ((x2 - x1)%jf, (y2 - y1)%jf) in
  let '(dxs, dys, dxf, dyf) :=
    if is_zero dxs dys || is_zero dxf dyf then ((x2 - x0)%jf, (y2 - y0)%jf, (x2 - x0)%jf, (y2 - y0)%jf)
    else (dxs, dys, dxf, dyf) in
  if is_zero dxs dys then Stroker_lineTo x0 y0 st
  else stroke_curve 6 dxs dys dxf dyf x2 y2 st.

(** The functions [Stroker_init] installs. *)
Definition Stroker_call (c : call) st : option Stroker :=
  match c with
  | MoveTo x y => Stroker_moveTo x y st
  | LineTo x y => Stroker_lineTo x y st
  | QuadTo xc yc x y => Stroker_quadTo xc yc x y st
  | CurveTo xc0 yc0 xc1 yc1 x y => Stroker_curveTo xc0 yc0 xc1 yc1 x y st
  | ClosePath => Stroker_closePath st
  | PathDone => Stroker_pathDone st
  end.

Definition Stroker_op (c : call) st : option (Stroker * list call) :=
  st ← Stroker_call c st; Some (st_set_out [] st, st_out st).
End stroker.

(** The stroker in front of [out]. *)
Definition stroker_consumer {S} (pf : platform) (out : PathConsumer S) : PathConsumer (Stroker * S) :=
  filtered out (Stroker_op pf).

(** The static arrays of a process that has not stroked anything. *)
Definition fresh_scratch : list jfloat * list jfloat := (new_float (MAX_N_CURVES * 8), new_float (MAX_N_CURVES - 1)).
