(* ===== verification/PrismDasher.v ===== *)
(** * Dashing

    native-prism/Dasher.c.  The dasher is a path consumer that cuts a path into dashes
    and passes them to another consumer.  The segments of a first dash that starts with
    the subpath are kept in a buffer, so that a closing dash can be joined to it.

    Curves are cut by length: [LengthIterator] walks over the leaves of the tree of
    their subdivisions, at most [REC_LIMIT] levels deep, from left to right.  The loops
    that follow the dash pattern have fuel: they need not end, since the pattern and the
    lengths are floating-point numbers. *)

From Stdlib Require Import SpecFloat.
From S2P Require Import Prelude.
From S2P Require Import Float32.
From S2P Require Import PrismRenderer.
From S2P Require Import PrismRasterizer.
From S2P Require Import PrismHelpers.
From S2P Require Import PrismCalls.
From S2P Require Import PrismStroker.

(** ** The length iterator *)

Definition REC_LIMIT : Z := 4.
Definition ERR : jfloat := float_literal 1 100.
Definition MIN_T_INCREMENT : jfloat := (f_one / of_int (1 << REC_LIMIT))%jf.

Inductive Side := LEFT | RIGHT.
#[export] Instance Side_eq_dec : EqDecision Side.
Proof. solve_decision. Defined.

(** The fields of the C structure in groups: the tree, the current leaf, and the caches
    that belong to it. *)
Record Tree := mkTree { recCurveStack : memory; sides : list Side; recLevel : Z; done : bool }.
Record Leaf := mkLeaf { nextT : jfloat; lenAtNextT : jfloat; lastT : jfloat; lenAtLastT : jfloat }.
Record LeafCache := mkCache {
  curLeafCtrlPolyLengths : list jfloat; cachedHaveLowAcceleration : Z; nextRoots : list jfloat; flatLeafCoefCache : list jfloat }.

Record LengthIterator := mkLI {
  curveType : Z; li_tree : Tree; li_leaf : Leaf; li_cache : LeafCache; lenAtLastSplit : jfloat; lastSegLen : jfloat }.

Section iterator.
Context (pf : platform).
Implicit Types li : LengthIterator.

Definition li_set_tree v li := mkLI (curveType li) v (li_leaf li) (li_cache li) (lenAtLastSplit li) (lastSegLen li).
Definition li_set_leaf v li := mkLI (curveType li) (li_tree li) v (li_cache li) (lenAtLastSplit li) (lastSegLen li).
Definition li_set_cache v li := mkLI (curveType li) (li_tree li) (li_leaf li) v (lenAtLastSplit li) (lastSegLen li).
Definition li_set_split v li := mkLI (curveType li) (li_tree li) (li_leaf li) (li_cache li) v (lastSegLen li).
Definition li_set_seg v li := mkLI (curveType li) (li_tree li) (li_leaf li) (li_cache li) (lenAtLastSplit li) v.

Definition minus_one : jfloat := of_int (-1).

(** The length of the current curve if it is a leaf, and -1 if not. *)
Definition LIonLeaf li : option (jfloat * LengthIterator) :=
  curve ← aget (recCurveStack (li_tree li)) (recLevel (li_tree li));
  cx0 ← aget curve 0; cy0 ← aget curve 1;
  '(_, _, polyLen, lens) ← for_lt (curveType li / 2 - 1) (fun k '(x0, y0, polyLen, lens) =>
    let i := 2 * k + 2 in
    x1 ← aget curve i; y1 ← aget curve (i + 1);
    let len := Helpers_linelen x0 y0 x1 y1 in
    lens ← aset lens (i / 2 - 1) len;
    Some (x1, y1, (polyLen + len)%jf, lens)) (cx0, cy0, f_zero, curLeafCtrlPolyLengths (li_cache li));
  ex ← aget curve (curveType li - 2); ey ← aget curve (curveType li - 1);
  let lineLen := Helpers_linelen cx0 cy0 ex ey in
  let c := li_cache li in
  let li := li_set_cache (mkCache lens (cachedHaveLowAcceleration c) (nextRoots c) (flatLeafCoefCache c)) li in
  if flt (polyLen - lineLen)%jf ERR || (recLevel (li_tree li) =? REC_LIMIT) then Some (((polyLen + lineLen) / two)%jf, li)
  else Some (minus_one, li).

(** To the leftmost leaf below the current node.  There are at most [REC_LIMIT] levels
    below it. *)
Fixpoint LIgoLeft (fuel : nat) li : option LengthIterator :=
  '(len, li) ← LIonLeaf li;
  let tr := li_tree li in
  if fle f_zero len then
    let lf := li_leaf li in
    let li := li_set_leaf (mkLeaf (nextT lf + of_int (1 << (REC_LIMIT - recLevel tr)) * MIN_T_INCREMENT)%jf (lenAtNextT lf + len)%jf
                (nextT lf) (lenAtNextT lf)) li in
    let c := li_cache li in
    coefs ← aset (flatLeafCoefCache c) 2 minus_one;
    Some (li_set_cache (mkCache (curLeafCtrlPolyLengths c) (-1) (nextRoots c) coefs) li)
  else
    match fuel with
    | O => None
    | S fuel =>
        let l := recLevel tr in
        mem ← Helpers_subdivide l 0 (Some (l + 1)) 0 (Some l) 0 (curveType li) (recCurveStack tr);
        sd ← aset (sides tr) l LEFT;
        LIgoLeft fuel (li_set_tree (mkTree mem sd (l + 1) (done tr)) li)
    end.

Definition li_depth : nat := 5.

(** The first level above [l] whose right child has not been visited. *)
Fixpoint unvisited (fuel : nat) (sd : list Side) (l : Z) : option (option Z) :=
  s ← aget sd l;
  if decide (s = RIGHT) then
    if l =? 0 then Some None
    else match fuel with O => None | S fuel => unvisited fuel sd (l - 1) end
  else Some (Some l).

Definition LIgoToNextLeaf li : option LengthIterator :=
  let tr := li_tree li in
  up ← unvisited li_depth (sides tr) (recLevel tr - 1);
  match up with
  | None => Some (li_set_tree (mkTree (recCurveStack tr) (sides tr) 0 true) li)
  | Some l =>
      sd ← aset (sides tr) l RIGHT;
      from ← aget (recCurveStack tr) l;
      mem ← aupd (recCurveStack tr) (l + 1) (arraycopy from (curveType li));
      LIgoLeft li_depth (li_set_tree (mkTree mem sd (l + 1) (done tr)) li)
  end.

Definition LIinitializeIterationOnCurve (pts : list jfloat) (type : Z) li : option LengthIterator :=
  let tr := li_tree li in
  mem ← aupd (recCurveStack tr) 0 (arraycopy pts type);
  li ← LIgoLeft li_depth (mkLI type (mkTree mem (sides tr) 0 (done tr)) (mkLeaf f_zero f_zero f_zero f_zero) (li_cache li)
         (lenAtLastSplit li) (lastSegLen li));
  let tr := li_tree li in
  let inner := 0 <? recLevel tr in
  sd ← aset (sides tr) 0 (if inner then LEFT else RIGHT);
  let c := li_cache li in
  coefs ← astore (flatLeafCoefCache c) 0 [f_zero; f_zero; minus_one; f_zero];
  Some (mkLI type (mkTree (recCurveStack tr) sd (recLevel tr) (negb inner)) (li_leaf li)
    (mkCache (curLeafCtrlPolyLengths c) (-1) (nextRoots c) coefs) f_zero f_zero).

Definition set_low_acceleration (v : Z) li : LengthIterator :=
  let c := li_cache li in li_set_cache (mkCache (curLeafCtrlPolyLengths c) v (nextRoots c) (flatLeafCoefCache c)) li.

Definition LIhaveLowAcceleration (err : jfloat) li : option (bool * LengthIterator) :=
  let c := li_cache li in
  if cachedHaveLowAcceleration c =? -1 then
    len1 ← aget (curLeafCtrlPolyLengths c) 0; len2 ← aget (curLeafCtrlPolyLengths c) 1;
    if negb (Helpers_within len1 len2 (err * len2)%jf) then Some (false, set_low_acceleration 0 li)
    else
      ok ← (if curveType li =? 8 then
              len3 ← aget (curLeafCtrlPolyLengths c) 2;
              Some (Helpers_within len2 len3 (err * len3)%jf && Helpers_within len1 len3 (err * len3)%jf)
            else Some true);
      Some (ok, set_low_acceleration (if (ok : bool) then 1 else 0) li)
  else Some (cachedHaveLowAcceleration c =? 1, li).

(** The loop of [LInext]: to the leaf with the length [target]; [false] if there is
    none. *)
Fixpoint LI_advance (fuel : nat) (target : jfloat) li : option (bool * LengthIterator) :=
  if flt (lenAtNextT (li_leaf li)) target then
    if done (li_tree li) then Some (false, li)
    else match fuel with O => None | S fuel => li ← LIgoToNextLeaf li; LI_advance fuel target li end
  else Some (true, li).

(** Enough for the leaves of a tree of [REC_LIMIT] levels and the step behind the last. *)
Definition li_leaves : nat := 17.

(** The coefficients of the leaf flattened along the x axis. *)
Definition flatten_leaf li : option LengthIterator :=
  let c := li_cache li in
  c2 ← aget (flatLeafCoefCache c) 2;
  if flt c2 f_zero then
    l0 ← aget (curLeafCtrlPolyLengths c) 0; l1 ← aget (curLeafCtrlPolyLengths c) 1;
    let x := (f_zero + l0)%jf in
    let y := (x + l1)%jf in
    coefs ← (if curveType li =? 8 then
               l2 ← aget (curLeafCtrlPolyLengths c) 2;
               let z := (y + l2)%jf in
               astore (flatLeafCoefCache c) 0 [(three * (x - y) + z)%jf; (three * (y - two * x))%jf; (three * x)%jf; (- z)%jf]
             else if curveType li =? 6 then
               astore (flatLeafCoefCache c) 0 [f_zero; (y - two * x)%jf; (two * x)%jf; (- y)%jf]
             else Some (flatLeafCoefCache c));
    Some (li_set_cache (mkCache (curLeafCtrlPolyLengths c) (cachedHaveLowAcceleration c) (nextRoots c) coefs) li)
  else Some li.

(** The parameter in the current leaf, refined when the speed changes along it. *)
Definition leaf_parameter (t : jfloat) li : option (jfloat * LengthIterator) :=
  '(low, li) ← LIhaveLowAcceleration (float_literal 5 100) li;
  if (low : bool) then Some (t, li)
  else
    li ← flatten_leaf li;
    let c := li_cache li in
    a ← aget (flatLeafCoefCache c) 0; b ← aget (flatLeafCoefCache c) 1; k ← aget (flatLeafCoefCache c) 2;
    d ← aget (flatLeafCoefCache c) 3;
    '(n, roots) ← Helpers_cubicRootsInAB pf a b k (t * d)%jf (nextRoots c) 0 f_zero f_one;
    let li := li_set_cache (mkCache (curLeafCtrlPolyLengths c) (cachedHaveLowAcceleration c) roots (flatLeafCoefCache c)) li in
    r ← aget roots 0;
    Some (if (n =? 1) && negb (isnan r) then r else t, li).

Definition LInext (len : jfloat) li : option (jfloat * LengthIterator) :=
  let targetLength := (lenAtLastSplit li + len)%jf in
  '(found, li) ← LI_advance li_leaves targetLength li;
  let lf := li_leaf li in
  if negb found then Some (f_one, li_set_seg (lenAtNextT lf - lenAtLastSplit li)%jf li)
  else
    let li := li_set_split targetLength li in
    let leaflen := (lenAtNextT lf - lenAtLastT lf)%jf in
    let t := ((targetLength - lenAtLastT lf) / leaflen)%jf in
    '(t, li) ← leaf_parameter t li;
    let t := (t * (nextT lf - lastT lf) + lastT lf)%jf in
    let tr := li_tree li in
    let '(t, li) :=
      if fle f_one t then (f_one, li_set_tree (mkTree (recCurveStack tr) (sides tr) (recLevel tr) true) li) else (t, li) in
    Some (t, li_set_seg len li).

Definition LIlastSegLen li : jfloat := lastSegLen li.

(** The iterator in a structure of zeroes. *)
Definition LI_zero : LengthIterator :=
  mkLI 0 (mkTree (replicate (Z.to_nat (REC_LIMIT + 1)) (new_float 8)) (replicate (Z.to_nat REC_LIMIT) LEFT) 0 false)
    (mkLeaf f_zero f_zero f_zero f_zero) (mkCache (new_float 3) 0 (new_float 4) (new_float 4)) f_zero f_zero.
End iterator.

(** ** State *)

(** The pattern with the place it starts at, the place in it, the points of the path,
    and the buffer; [numdashes] is the length of [dash]. *)
Record Pattern := mkPattern { dash : list jfloat; startPhase : jfloat; startDashOn : bool; startIdx : Z }.
Record Place := mkPlace { idx : Z; dashOn : bool; phase : jfloat }.
Record Points := mkPoints { d_sx : jfloat; d_sy : jfloat; d_x0 : jfloat; d_y0 : jfloat }.
Record Segments := mkSegments { firstSegmentsBuffer : list jfloat; firstSegidx : Z }.

Record Dasher := mkDasher {
  d_pattern : Pattern; d_place : Place; starting : bool; needsMoveTo : bool; d_points : Points;
  curCurvepts : list jfloat; d_first : Segments; d_li : LengthIterator; d_out : list call }.

Section dasher_fields.
Implicit Types d : Dasher.

Definition d_set_place v d := mkDasher (d_pattern d) v (starting d) (needsMoveTo d) (d_points d) (curCurvepts d) (d_first d) (d_li d) (d_out d).
Definition d_set_flags a b d := mkDasher (d_pattern d) (d_place d) a b (d_points d) (curCurvepts d) (d_first d) (d_li d) (d_out d).
Definition d_set_points v d := mkDasher (d_pattern d) (d_place d) (starting d) (needsMoveTo d) v (curCurvepts d) (d_first d) (d_li d) (d_out d).
Definition d_set_pts v d := mkDasher (d_pattern d) (d_place d) (starting d) (needsMoveTo d) (d_points d) v (d_first d) (d_li d) (d_out d).
Definition d_set_first v d := mkDasher (d_pattern d) (d_place d) (starting d) (needsMoveTo d) (d_points d) (curCurvepts d) v (d_li d) (d_out d).
Definition d_set_li v d := mkDasher (d_pattern d) (d_place d) (starting d) (needsMoveTo d) (d_points d) (curCurvepts d) (d_first d) v (d_out d).
Definition d_set_out v d := mkDasher (d_pattern d) (d_place d) (starting d) (needsMoveTo d) (d_points d) (curCurvepts d) (d_first d) (d_li d) v.
End dasher_fields.

Definition MAX_CYCLES : jfloat := of_int 16000000.

(** [(jint) floor (x)] *)
Definition jint_floor (x : jfloat) : Z :=
  match ceil_int (- x)%jf with
  | Some z => if (- 2 ^ 31 <=? - z) && (- z <? 2 ^ 31) then - z else - 2 ^ 31
  | None => - 2 ^ 31
  end.

(** [while (phase >= (d = dash[sidx]))]: whole dashes are taken off the phase. *)
Fixpoint skip_dashes (fuel : nat) (dash : list jfloat) (p : Place) : option Place :=
  d ← aget dash (idx p);
  if fle d (phase p) then
    match fuel with
    | O => None
    | S fuel => skip_dashes fuel dash (mkPlace (Z.rem (idx p + 1) (alen dash)) (negb (dashOn p)) (phase p - d)%jf)
    end
  else Some p.

(** The phase, brought into the pattern: the dash it is in, whether that is drawn, and
    the phase that is left. *)
Definition normalize_phase (fuel : nat) (dash : list jfloat) (ph : jfloat) : option Place :=
  let ndashes := alen dash in
  let sum := fold_left fadd dash f_zero in
  let cycles := (ph / sum)%jf in
  if flt ph f_zero then
    if fle MAX_CYCLES (- cycles)%jf then Some (mkPlace 0 true f_zero)
    else
      let fullcycles := jint_floor (- cycles)%jf in
      let on := negb (ctrue (fullcycles & ndashes & 1)) in
      while_fuel fuel (fun p => flt (phase p) f_zero) (fun p =>
        let sidx := if idx p - 1 <? 0 then ndashes - 1 else idx p - 1 in
        d ← aget dash sidx;
        Some (mkPlace sidx (negb (dashOn p)) (phase p + d)%jf)) (mkPlace 0 on (ph + of_int fullcycles * sum)%jf)
  else if flt f_zero ph then
    if fle MAX_CYCLES cycles then Some (mkPlace 0 true f_zero)
    else
      let fullcycles := jint_floor cycles in
      let on := negb (ctrue (fullcycles & ndashes & 1)) in
      skip_dashes fuel dash (mkPlace 0 on (ph - of_int fullcycles * sum)%jf)
  else Some (mkPlace 0 true ph).

Definition Dasher_reset (fuel : nat) (dash : list jfloat) (ph : jfloat) (d : Dasher) : option Dasher :=
  p ← normalize_phase fuel dash ph;
  Some (mkDasher (mkPattern dash (phase p) (dashOn p) (idx p)) (mkPlace (idx (d_place d)) (dashOn p) (phase p))
    true (needsMoveTo d) (d_points d) (curCurvepts d) (d_first d) (d_li d) (d_out d)).

Definition Dasher_zero : Dasher :=
  mkDasher (mkPattern [] f_zero false 0) (mkPlace 0 false f_zero) false false (mkPoints f_zero f_zero f_zero f_zero)
    (new_float 16) (mkSegments [] 0) LI_zero [].

Definition Dasher_init (fuel : nat) (dash : list jfloat) (ph : jfloat) : option Dasher :=
  Dasher_reset fuel dash ph (d_set_first (mkSegments (new_float 7) 0) Dasher_zero).

(** ** Output *)

Section dasher.
Context (pf : platform) (fuel : nat).
Implicit Types d : Dasher.

Definition d_say (c : call) d : Dasher := d_set_out (d_out d ++ [c]) d.

Definition emitSeg (buf : list jfloat) (off type : Z) d : option Dasher :=
  let b k := aget buf (off + k) in
  if type =? 8 then
    x0 ← b 0; y0 ← b 1; x1 ← b 2; y1 ← b 3; x2 ← b 4; y2 ← b 5; Some (d_say (CurveTo x0 y0 x1 y1 x2 y2) d)
  else if type =? 6 then x0 ← b 0; y0 ← b 1; x1 ← b 2; y1 ← b 3; Some (d_say (QuadTo x0 y0 x1 y1) d)
  else if type =? 4 then x0 ← b 0; y0 ← b 1; Some (d_say (LineTo x0 y0) d)
  else Some d.

(** Each segment takes at least one place of the buffer. *)
Definition emitFirstSegments d : option Dasher :=
  let f := d_first d in
  '(_, d) ← while_fuel (Z.to_nat (firstSegidx f)) (fun p => fst p <? firstSegidx f) (fun '(i, d) =>
    ty ← aget (firstSegmentsBuffer f) i;
    d ← emitSeg (firstSegmentsBuffer f) (i + 1) (to_jint ty) d;
    Some (i + (to_jint ty - 1), d)) (0, d);
  Some (d_set_first (mkSegments (firstSegmentsBuffer f) 0) d).

(** [System_arraycopy] between any places. *)
Definition copy_range (src : list jfloat) (off : Z) (dst : list jfloat) (off' n : Z) : option (list jfloat) :=
  for_lt n (fun i m => v ← aget src (off + i); aset m (off' + i) v) dst.

Definition save_segment (pts : list jfloat) (off type : Z) (f : Segments) : option Segments :=
  let n := firstSegidx f in
  buf ← (if alen (firstSegmentsBuffer f) <? n + (type - 1) then
           arraycopy (firstSegmentsBuffer f) n (new_float (i32 ((n + (type - 1)) * 2)))
         else Some (firstSegmentsBuffer f));
  buf ← aset buf n (of_int type);
  buf ← copy_range pts off buf (n + 1) (type - 2);
  Some (mkSegments buf (i32 (n + 1 + (type - 2)))).

Definition goTo (off type : Z) d : option Dasher :=
  let pts := curCurvepts d in
  x ← aget pts (off + type - 4); y ← aget pts (off + type - 3);
  d ← (if dashOn (d_place d) then
         if starting d then f ← save_segment pts off type (d_first d); Some (d_set_first f d)
         else
           let d := if needsMoveTo d then d_set_flags (starting d) false (d_say (MoveTo (d_x0 (d_points d)) (d_y0 (d_points d))) d)
                    else d in
           emitSeg pts off type d
       else Some (d_set_flags false true d));
  Some (d_set_points (mkPoints (d_sx (d_points d)) (d_sy (d_points d)) x y) d).

(** To the start of the next dash. *)
Definition next_dash d : option Dasher :=
  let p := d_place d in
  let n := alen (dash (d_pattern d)) in
  if n =? 0 then None
  else Some (d_set_place (mkPlace (Z.rem (idx p + 1) n) (negb (dashOn p)) f_zero) d).

(** ** The path consumer *)

Definition Dasher_MoveTo (newx0 newy0 : jfloat) d : option Dasher :=
  d ← (if 0 <? firstSegidx (d_first d) then
         emitFirstSegments (d_say (MoveTo (d_sx (d_points d)) (d_sy (d_points d))) d)
       else Some d);
  let p := d_pattern d in
  Some (d_set_flags true true (d_set_place (mkPlace (startIdx p) (startDashOn p) (startPhase p))
    (d_set_points (mkPoints newx0 newy0 newx0 newy0) d))).

(** The loop of [Dasher_LineTo]: [len] is what is left of the line. *)
Fixpoint line_dashes (rounds : nat) (x1 y1 cx cy len : jfloat) d : option Dasher :=
  let p := d_place d in
  da ← aget (dash (d_pattern d)) (idx p);
  let leftInThisDashSegment := (da - phase p)%jf in
  if fle len leftInThisDashSegment then
    pts ← astore (curCurvepts d) 0 [x1; y1];
    d ← goTo 0 4 (d_set_pts pts d);
    let p := d_place d in
    let d := d_set_place (mkPlace (idx p) (dashOn p) (phase p + len)%jf) d in
    if feq len leftInThisDashSegment then next_dash d else Some d
  else
    let dashdx := (da * cx)%jf in
    let dashdy := (da * cy)%jf in
    let '(px, py) :=
      if feq (phase p) f_zero then ((d_x0 (d_points d) + dashdx)%jf, (d_y0 (d_points d) + dashdy)%jf)
      else
        let q := (leftInThisDashSegment / da)%jf in
        ((d_x0 (d_points d) + q * dashdx)%jf, (d_y0 (d_points d) + q * dashdy)%jf) in
    pts ← astore (curCurvepts d) 0 [px; py];
    d ← goTo 0 4 (d_set_pts pts d);
    d ← next_dash d;
    match rounds with
    | O => None
    | S rounds => line_dashes rounds x1 y1 cx cy (len - leftInThisDashSegment)%jf d
    end.

Definition Dasher_LineTo (x1 y1 : jfloat) d : option Dasher :=
  let dx := (x1 - d_x0 (d_points d))%jf in
  let dy := (y1 - d_y0 (d_points d))%jf in
  let len := fsqrt (dx * dx + dy * dy)%jf in
  if feq len f_zero then Some d
  else line_dashes fuel x1 y1 (dx / len)%jf (dy / len)%jf len d.

Definition pointCurve (curve : list jfloat) (type : Z) : option bool :=
  for_from (Z.to_nat (type - 2)) 2 (fun i same =>
    a ← aget curve i; b ← aget curve (i - 2);
    Some (same && feq a b)) true.

(** The loop of [somethingTo]: the parameter of the last split and the place of the
    rest of the curve. *)
Fixpoint curve_dashes (rounds : nat) (type : Z) (leftInThisDashSegment lastSplitT : jfloat) (curCurveoff : Z) d
  : option (Z * Dasher) :=
  '(t, li) ← LInext pf leftInThisDashSegment (d_li d);
  let d := d_set_li li d in
  if flt t f_one then
    '(lastSplitT, curCurveoff, d) ←
      (if negb (feq t f_zero) then
         mem ← Helpers_subdivideAt ((t - lastSplitT) / (f_one - lastSplitT))%jf 0 curCurveoff (Some 0) 0 (Some 0) type type [curCurvepts d];
         pts ← aget mem 0;
         d ← goTo 2 type (d_set_pts pts d);
         Some (t, type, d)
       else Some (lastSplitT, curCurveoff, d));
    d ← next_dash d;
    da ← aget (dash (d_pattern d)) (idx (d_place d));
    match rounds with
    | O => None
    | S rounds => curve_dashes rounds type da lastSplitT curCurveoff d
    end
  else Some (curCurveoff, d).

Definition somethingTo (type : Z) d : option Dasher :=
  point ← pointCurve (curCurvepts d) type;
  if (point : bool) then Some d
  else
    li ← LIinitializeIterationOnCurve (curCurvepts d) type (d_li d);
    da ← aget (dash (d_pattern d)) (idx (d_place d));
    '(curCurveoff, d) ← curve_dashes fuel type (da - phase (d_place d))%jf f_zero 0 (d_set_li li d);
    d ← goTo (curCurveoff + 2) type d;
    let p := d_place d in
    let d := d_set_place (mkPlace (idx p) (dashOn p) (phase p + LIlastSegLen (d_li d))%jf) d in
    da ← aget (dash (d_pattern d)) (idx p);
    if fle da (phase (d_place d)) then next_dash d else Some d.

Definition Dasher_CurveTo (x1 y1 x2 y2 x3 y3 : jfloat) d : option Dasher :=
  pts ← astore (curCurvepts d) 0 [d_x0 (d_points d); d_y0 (d_points d); x1; y1; x2; y2; x3; y3];
  somethingTo 8 (d_set_pts pts d).

Definition Dasher_QuadTo (x1 y1 x2 y2 : jfloat) d : option Dasher :=
  pts ← astore (curCurvepts d) 0 [d_x0 (d_points d); d_y0 (d_points d); x1; y1; x2; y2];
  somethingTo 6 (d_set_pts pts d).

Definition Dasher_ClosePath d : option Dasher :=
  let sx := d_sx (d_points d) in
  let sy := d_sy (d_points d) in
  d ← Dasher_LineTo sx sy d;
  d ← (if 0 <? firstSegidx (d_first d) then
         let d := if negb (dashOn (d_place d)) || needsMoveTo d then d_say (MoveTo sx sy) d else d in
         emitFirstSegments d
       else Some d);
  Dasher_MoveTo sx sy d.

Definition Dasher_PathDone d : option Dasher :=
  d ← (if 0 <? firstSegidx (d_first d) then
         emitFirstSegments (d_say (MoveTo (d_sx (d_points d)) (d_sy (d_points d))) d)
       else Some d);
  Some (d_say PathDone d).

(** The functions [Dasher_init] installs. *)
Definition Dasher_call (c : call) d : option Dasher :=
  match c with
  | MoveTo x y => Dasher_MoveTo x y d
  | LineTo x y => Dasher_LineTo x y d
  | QuadTo xc yc x y => Dasher_QuadTo xc yc x y d
  | CurveTo xc0 yc0 xc1 yc1 x y => Dasher_CurveTo xc0 yc0 xc1 yc1 x y d
  | ClosePath => Dasher_ClosePath d
  | PathDone => Dasher_PathDone d
  end.

Definition Dasher_op (c : call) d : option (Dasher * list call) :=
  d ← Dasher_call c d; Some (d_set_out [] d, d_out d).
End dasher.

(** The dasher in front of [out]. *)
Definition dasher_consumer {S} (pf : platform) (fuel : nat) (out : PathConsumer S) : PathConsumer (Dasher * S) :=
  filtered out (Dasher_op pf fuel).
