(* ===== verification/PrismStrokeAlphas.v ===== *)
(** * The stroke entry point

    The native method produceStrokeAlphas of native-prism/NativePiscesRasterizer.c: the
    path goes through the dasher, if there is a dash pattern, and the stroker; the
    outline through the transformer into the renderer, which fills it with the non-zero
    rule.  [produceStrokeAlphas_spec] composes the refinement of the renderer with the
    two filters. *)

From Stdlib Require Import String.
From S2P Require Import Prelude.
From S2P Require Import Float32.
From S2P Require Import Float32Spec.
From S2P Require Import PrismRenderer.
From S2P Require Import PrismCoverage.
From S2P Require Import PrismEdges.
From S2P Require Import PrismScan.
From S2P Require Import PrismFill.
From S2P Require Import PrismRasterizer.
From S2P Require Import PrismPath.
From S2P Require Import PrismRasterizerSpec.
From S2P Require Import PrismHelpers.
From S2P Require Import PrismCalls.
From S2P Require Import PrismStroker.
From S2P Require Import PrismDasher.
#[local] Open Scope Z_scope.

(** ** The native method *)

(** The style of a stroke, as passed by Java. *)
Record StrokeStyle := mkStyle { linewidth : jfloat; linecap : Z; linejoin : Z; miterlimit : jfloat; dashArray : option (list jfloat);
  dashphase : jfloat }.

Section stroke.
Context (pf : platform) (fuel : nat) (style : StrokeStyle).

(** The path through the filters into [out], which starts in [s]. *)
Definition stroke_path {S} (pinned : bool * bool) (scratch : list jfloat * list jfloat) (out : PathConsumer S) (coords : list jfloat)
    (commands : list Z) (numCommands : Z) (s : S) : option (failure * S) :=
  let stroker := Stroker_init scratch (linewidth style) (linecap style) (linejoin style) (miterlimit style) in
  match dashArray style with
  | None =>
      '(f, (_, s)) ← feedConsumer pinned (stroker_consumer pf out) coords (alen coords) commands numCommands (stroker, s);
      Some (f, s)
  | Some dashes =>
      dasher ← Dasher_init fuel dashes (dashphase style);
      '(f, (_, (_, s))) ← feedConsumer pinned (dasher_consumer pf fuel (stroker_consumer pf out)) coords (alen coords) commands
                            numCommands (dasher, (stroker, s));
      Some (f, s)
  end.

(** If the VM does not hand out the dashes the method returns at once. *)
Definition produceStrokeAlphas (g : statics) (scratch : list jfloat * list jfloat) (pinned : bool * bool)
    (dash_pinned mask_pinned : bool) (coordsArray : option (list jfloat)) (commandsArray : option (list Z)) (numCommands : Z)
    (t : Transformer) (boundsArray maskArray : option (list Z)) : option outcome :=
  match check_arrays coordsArray commandsArray boundsArray maskArray numCommands with
  | inl e => Some (mkOutcome (Some e) (default [] boundsArray) (default [] maskArray))
  | inr (coords, commands, bounds, mask) =>
      if bool_decide (is_Some (dashArray style)) && negb dash_pinned then Some (mkOutcome None bounds mask)
      else
        b0 ← aget bounds 0; b1 ← aget bounds 1; b2 ← aget bounds 2; b3 ← aget bounds 3;
        r ← Renderer_reset g b0 b1 (i32 (b2 - b0)) (i32 (b3 - b1)) WIND_NON_ZERO Renderer_init;
        '(f, r) ← stroke_path pinned scratch (Transformer_init t (renderer_consumer g fuel)) coords commands numCommands r;
        match f with
        | None => emit_mask g "Mask" mask_pinned r bounds mask
        | Some text => Some (mkOutcome (failure_exception text) bounds mask)
        end
  end.
End stroke.

(** ** Filters and simulation *)

Section filter_sim.
Context {A B : Type} (rel : A -> B -> Prop) (size : A -> nat) (N : nat) (cs : PathConsumer A) (ct : PathConsumer B).
Hypothesis Hsim : consumer_sim rel size N cs ct.

Lemma play_sim calls : op_sim rel size N (play cs calls) (play ct calls).
Proof.
  induction calls as [|c calls IH].
  { intros s s' [= <-]. split; [done|]. intros t Ht _. by exists t. }
  apply (op_sim_bind rel size N (call_on cs c) (play cs calls) (call_on ct c) (play ct calls)); [|exact IH].
  destruct Hsim as [H1 H2 H3 H4 H5 H6]. destruct c; [apply H1|apply H2|apply H3|apply H4|exact H5|exact H6].
Qed.

(** The same filter in front of related consumers. *)
Lemma filtered_sim {F} (op : call -> F -> option (F * list call)) :
  consumer_sim (beside rel) (fun s => size s.2) N (filtered cs op) (filtered ct op).
Proof.
  assert (H : forall c, op_sim (beside rel) (fun s => size s.2) N (fun '(f, s) => '(f, l) ← op c f; s ← play cs l s; Some (f, s))
                                 (fun '(f, s) => '(f, l) ← op c f; s ← play ct l s; Some (f, s))).
  { intros c [f s] [f' s'] E. apply bind_Some in E as ([f1 l] & Eo & E). apply bind_Some in E as (s1 & Ep & [= <- <-]).
    destruct (play_sim l _ _ Ep) as [Hl S]. split; [done|]. intros [f2 t] [[= <-] Ht] HN. destruct (S t Ht HN) as (t' & Et & Ht').
    exists (f1, t'). split; [|done]. rewrite Eo. mred. rewrite Et. by mred. }
  split; intros; apply H.
Qed.
End filter_sim.

(** A filter whose last call at the end of the path is to end the path. *)
Definition passes_done {F} (op : call -> F -> option (F * list call)) : Prop :=
  forall f f' l, op PathDone f = Some (f', l) -> exists l', l = (l' ++ [PathDone])%list.

Lemma filtered_draws_closed {X F} (pen : X -> Pen) g C (op : call -> F -> option (F * list call)) : passes_done op ->
  draws_closed pen g C -> draws_closed (fun s : F * X => pen s.2) g (filtered C op).
Proof.
  intros Hop [Hc Hd]. split.
  - intros y. destruct (Hc y) as [ct Hct].
    assert (Hct' : consumer_sim (fun (s : F * X) (_ : unit) => connected g y (pen s.2)) (fun _ => 0%nat) 0 (filtered C op) idle_consumer).
    { assert (H : forall c, keeps_inv (fun s : F * X => connected g y (pen s.2)) (fun '(f, s) => '(f, l) ← op c f; s ← play C l s; Some (f, s))).
      { intros c. apply keeps_inv_intro. intros [f s] [f' s'] E Hs. apply bind_Some in E as ([f1 l] & Eo & E).
        apply bind_Some in E as (s1 & Ep & [= <- <-]).
        destruct (play_sim _ _ _ _ _ Hct l _ _ Ep) as [_ S]. by destruct (S tt Hs (le_n _)) as (_ & _ & ?). }
      split; intros; apply H. }
    eauto.
  - intros [f s] [f' s'] E. cbn in E. apply bind_Some in E as ([f1 l] & Eo & E). apply bind_Some in E as (s1 & Ep & [= <- <-]).
    destruct (Hop _ _ _ Eo) as [l' ->]. rewrite play_app in Ep. apply bind_Some in Ep as (s2 & _ & Ep). cbn in Ep.
    apply bind_Some in Ep as (s3 & Ep & [= <-]). by eapply Hd.
Qed.

Lemma stroker_passes_done pf : passes_done (Stroker_op pf).
Proof.
  intros st st' l E. unfold Stroker_op in E. apply bind_Some in E as (st1 & E1 & [= <- <-]).
  cbn [Stroker_call] in E1. unfold Stroker_pathDone in E1. apply bind_Some in E1 as (st2 & _ & [= <-]). cbn. eauto.
Qed.

Lemma dasher_passes_done pf fuel : passes_done (Dasher_op pf fuel).
Proof.
  intros d d' l E. unfold Dasher_op in E. apply bind_Some in E as (d1 & E1 & [= <- <-]).
  cbn [Dasher_call] in E1. unfold Dasher_PathDone in E1. apply bind_Some in E1 as (d2 & _ & [= <-]). cbn. eauto.
Qed.

(** ** The mask of a stroke *)

(** The lines of the outline, as the recorder flattens it. *)
Definition outline_lines (pf : platform) (g : statics) (fuel : nat) (style : StrokeStyle) (scratch : list jfloat * list jfloat)
    (t : Transformer) (coords : list jfloat) (commands : list Z) (numCommands : Z) : option (failure * Pen) :=
  stroke_path pf fuel style (true, true) scratch (Transformer_init t (pen_consumer g fuel)) coords commands numCommands pen_start.

(** C5: stroking a path.  When the commands are well formed and the lines of the outline
    fit, the native method returns: it reports the pixel bounds, throws exactly when the
    mask array is too short for them, and otherwise stores in every pixel of the mask the
    alpha of the number of its samples inside the outline by the non-zero rule; the
    outline is what the dasher and the stroker make of the path. *)
Theorem produceStrokeAlphas_spec pf g lgx lgy fuel style scratch t coords commands numCommands b0 b1 b2 b3 rest mask p :
  ready g lgx lgy -> good_bounds lgx lgy b0 b1 b2 b3 -> numCommands <= alen commands ->
  outline_lines pf g fuel style scratch t coords commands numCommands = Some (None, p) ->
  SIZEOF_EDGE * alen (pen_lines p) + SIZEOF_EDGE < 2 ^ 24 -> forallb ordered (pen_lines p) = true ->
  let E := omap (line_edge (b1 * 2 ^ lgy) (b3 * 2 ^ lgy)) (pen_lines p) in
  exists o xa ya xb yb,
    produceStrokeAlphas pf fuel style g scratch (true, true) true true (Some coords) (Some commands) numCommands t
      (Some (b0 :: b1 :: b2 :: b3 :: rest)) (Some mask) = Some o /\
    bounds_out o = xa :: ya :: xb :: yb :: rest /\
    (if (xa <? xb) && (ya <? yb) then
       if Z.quot (alen mask) (xb - xa) <? yb - ya then thrown o = Some (AIOOBException "Mask") /\ mask_out o = mask
       else thrown o = None /\ mask_filled lgx lgy WIND_NON_ZERO E xa ya xb yb mask (mask_out o)
     else thrown o = None /\ mask_out o = mask) /\
    (forall px py, ~ (ya <= py < yb) -> pixel_samples lgx lgy WIND_NON_ZERO E px py = 0).
Proof.
  intros Hready Hgood Hn Hp Hfew Hord E. apply forallb_Forall in Hord.
  destruct (reset_spec g lgx lgy Hready b0 b1 b2 b3 WIND_NON_ZERO Hgood) as (r0 & Er & _).
  unfold produceStrokeAlphas. rewrite check_arrays_ok, andb_false_r by done. read_bounds. rewrite Er. mred.
  unfold outline_lines, stroke_path in *. set (st := Stroker_init _ _ _ _ _) in *.
  pose proof (filtered_draws_closed id g _ _ (stroker_passes_done pf) (pen_draws_closed g fuel t)) as Hst.
  destruct (dashArray style) as [dashes|].
  - apply bind_Some in Hp as (d & -> & Hp). mred. apply bind_Some in Hp as ([f [d' [st' p']]] & Hfed & [= -> ->]).
    pose proof (filtered_draws_closed _ g _ _ (dasher_passes_done pf fuel) Hst) as Hda.
    destruct (fed_mask (fun s : Dasher * (Stroker * Pen) => s.2.2) (fun s : Dasher * (Stroker * Renderer) => s.2.2)
      (fun r0 => beside (beside (holds r0))) _ _ g lgx lgy Hready (fun _ _ _ H => proj2 (proj2 H))
      (fun r0 N HN => filtered_sim _ _ N _ _ (filtered_sim _ _ N _ _ (renderer_drawn g fuel t r0 N HN) _) _) Hda
      b0 b1 b2 b3 WIND_NON_ZERO r0 (d, (st, pen_start)) (d', (st', p)) (d, (st, r0)) coords commands
      numCommands Hgood Er (fun H => conj eq_refl (conj eq_refl H)) eq_refl Hfed Hfew Hord "Mask" rest mask)
      as ([d2 [st2 r]] & o & xa & ya & xb & yb & Ef & Eo & Hres).
    exists o, xa, ya, xb, yb. split; [|exact Hres]. unfold dasher_consumer, stroker_consumer. rewrite Ef. mred. exact Eo.
  - apply bind_Some in Hp as ([f [st' p']] & Hfed & [= -> ->]).
    destruct (fed_mask (fun s : Stroker * Pen => s.2) (fun s : Stroker * Renderer => s.2)
      (fun r0 => beside (holds r0)) _ _ g lgx lgy Hready (fun _ _ _ H => proj2 H)
      (fun r0 N HN => filtered_sim _ _ N _ _ (renderer_drawn g fuel t r0 N HN) _) Hst
      b0 b1 b2 b3 WIND_NON_ZERO r0 (st, pen_start) (st', p) (st, r0) coords commands
      numCommands Hgood Er (fun H => conj eq_refl H) eq_refl Hfed Hfew Hord "Mask" rest mask)
      as ([st2 r] & o & xa & ya & xb & yb & Ef & Eo & Hres).
    exists o, xa, ya, xb, yb. split; [|exact Hres]. unfold stroker_consumer. rewrite Ef. mred. exact Eo.
Qed.

(** *** A dashed line *)

Definition line_path : list jfloat := of_int <$> [2; 2; 9; 2].
Definition line_commands : list Z := [SEG_MOVETO; SEG_LINETO].
Definition dashed : StrokeStyle := mkStyle two CAP_BUTT JOIN_BEVEL (of_int 10) (Some [three; two]) f_zero.

Definition dashed_pen : Pen :=
  match outline_lines plain_platform (Renderer_setup 3 3 first_statics) 10 dashed fresh_scratch identity line_path line_commands 2 with
  | Some (_, p) => p
  | None => pen_start
  end.

(** A line of length 7 and width 2: three pixels, a gap of two, and two more. *)
Example dashed_line :
  produceStrokeAlphas plain_platform 10 dashed (Renderer_setup 3 3 first_statics) fresh_scratch (true, true) true true (Some line_path)
    (Some line_commands) 2 identity (Some [0; 0; 12; 6]) (Some (replicate 15 7)) =
  Some (mkOutcome None [2; 1; 9; 3] [-1; -1; -1; 0; 0; -1; -1; -1; -1; -1; 0; 0; -1; -1; 7]).
Proof. vm_compute. reflexivity. Qed.

Lemma produceStrokeAlphas_spec_witness :
  let g := Renderer_setup 3 3 first_statics in
  let E := omap (line_edge (0 * 2 ^ 3) (6 * 2 ^ 3)) (pen_lines dashed_pen) in
  exists o xa ya xb yb,
    produceStrokeAlphas plain_platform 10 dashed g fresh_scratch (true, true) true true (Some line_path) (Some line_commands) 2 identity
      (Some [0; 0; 12; 6]) (Some (replicate 15 7)) = Some o /\
    bounds_out o = [xa; ya; xb; yb] /\
    (if (xa <? xb) && (ya <? yb) then
       if Z.quot (alen (replicate 15 7)) (xb - xa) <? yb - ya then
         thrown o = Some (AIOOBException "Mask") /\ mask_out o = replicate 15 7
       else thrown o = None /\ mask_filled 3 3 WIND_NON_ZERO E xa ya xb yb (replicate 15 7) (mask_out o)
     else thrown o = None /\ mask_out o = replicate 15 7) /\
    (forall px py, ~ (ya <= py < yb) -> pixel_samples 3 3 WIND_NON_ZERO E px py = 0).
Proof.
  intros g E.
  apply (produceStrokeAlphas_spec plain_platform g 3 3 10 dashed fresh_scratch identity line_path line_commands 2 0 0 12 6 [] (replicate 15 7)
    dashed_pen).
  - vm_compute. repeat split; discriminate.
  - vm_compute. repeat split; discriminate.
  - vm_compute. discriminate.
  - vm_compute. reflexivity.
  - vm_compute. reflexivity.
  - vm_compute. reflexivity.
Defined.
