(* ===== verification/PrismHelpersSpec.v ===== *)
(** * Properties of the numerical helpers

    The root finders write inside the arrays they are given and find a bounded number
    of roots, whatever the coefficients; filtering and sorting leave the parameters in
    range and in order; subdivision stays inside its arrays, also where source and
    halves overlap. *)

From Stdlib Require Import SpecFloat Sorted.
From S2P Require Import Prelude.
From S2P Require Import Float32.
From S2P Require Import PrismRenderer.
From S2P Require Import PrismEdges.
From S2P Require Import PrismScan.
From S2P Require Import PrismHelpers.

(** Step through an assignment or a read that is in bounds. *)
Ltac step_aset :=
  match goal with |- context [aset ?m ?i ?v] =>
    let m' := fresh "m" in let E := fresh "E" in let Hl := fresh "Hl" in
    destruct (aset_step m i v) as (m' & E & Hl & _); [lia|rewrite E; clear E; mred]
  end.
Ltac step_aget :=
  match goal with |- context [aget ?m ?i] =>
    let v := fresh "v" in let E := fresh "E" in
    destruct (aget_ex m i) as [v E]; [lia|rewrite E; clear E; mred]
  end.
Ltac steps := repeat first [step_aset | step_aget].

(** ** Roots *)

(** [found n m o]: [o] returns at most [n] roots, in an array of the same size. *)
Definition found (n : Z) (m : list jfloat) (o : option (Z * list jfloat)) : Prop :=
  exists k m', o = Some (k, m') /\ 0 <= k <= n /\ alen m' = alen m.

Lemma found_intro n m k m' : 0 <= k <= n -> alen m' = alen m -> found n m (Some (k, m')).
Proof. unfold found. eauto. Qed.

Ltac found := apply found_intro; [lia|congruence].

Lemma quadraticRoots_found a b c z off : 0 <= off -> off + 2 <= alen z -> found 2 z (Helpers_quadraticRoots a b c z off).
Proof.
  intros Ho Hz. unfold Helpers_quadraticRoots. destruct (negb (feq a f_zero)).
  - cbv zeta. destruct (flt f_zero _); [|destruct (feq _ f_zero); steps; found]. destruct (fle f_zero b); steps; found.
  - destruct (negb (feq b f_zero)); steps; found.
Qed.

Lemma cardano_found pf a b c z off : 0 <= off -> off + 3 <= alen z ->
  found 3 z (cardano pf a b c z off).
Proof.
  intros Ho Hz. unfold cardano. cbv zeta. destruct (dlt _ _); [steps; found|]. steps. destruct (Helpers_withind _ _ _); steps; found.
Qed.

(** *** Filtering *)

Definition in_AB (a b v : jfloat) : bool := fle a v && flt v b.

Lemma filter_loop a b todo : forall kept mid pre post,
  exists mid',
    for_from (length todo) (alen pre + alen kept + alen mid) (fun i '(ret, nums) =>
      v ← aget nums i;
      if fle a v && flt v b then nums ← aset nums ret v; Some (ret + 1, nums) else Some (ret, nums))
      (alen pre + alen kept, (pre ++ kept) ++ mid ++ todo ++ post) =
    Some (alen pre + alen kept + alen (filter (fun v => in_AB a b v = true) todo),
      (pre ++ kept ++ filter (fun v => in_AB a b v = true) todo) ++ mid' ++ post) /\
    alen mid + alen todo = alen (filter (fun v => in_AB a b v = true) todo) + alen mid'.
Proof.
  induction todo as [|v todo IH]; intros kept mid pre post.
  { exists mid. cbn. rewrite app_nil_r, Z.add_0_r. split; [done|]. lia. }
  cbn [length for_from].
  assert (Hget : aget ((pre ++ kept) ++ mid ++ (v :: todo) ++ post) (alen pre + alen kept + alen mid) = Some v).
  { rewrite app_assoc. rewrite <- (aget_middle ((pre ++ kept) ++ mid) v (todo ++ post)). f_equal. autorewrite with alen. lia. }
  rewrite Hget. mred. rewrite filter_cons. change (fle a v && flt v b) with (in_AB a b v).
  destruct (decide (in_AB a b v = true)) as [Hv|Hv]; [rewrite Hv|apply not_true_is_false in Hv; rewrite Hv].
  - destruct (mid ++ [v]) as [|w mid'] eqn:Em; [by destruct mid|].
    assert (Hlen : alen mid' = alen mid) by (apply (f_equal alen) in Em; autorewrite with alen in Em; lia).
    replace ((pre ++ kept) ++ mid ++ (v :: todo) ++ post) with ((pre ++ kept) ++ w :: mid' ++ todo ++ post).
    2: { f_equal. change (w :: mid' ++ todo ++ post) with ((w :: mid') ++ todo ++ post). rewrite <- Em, <- app_assoc. done. }
    replace (alen pre + alen kept) with (alen (pre ++ kept)) by (by autorewrite with alen). rewrite aset_middle. mred.
    destruct (IH (kept ++ [v]) mid' pre post) as (mid2 & E2 & L2). exists mid2.
    replace (alen (pre ++ kept) + alen mid + 1) with (alen pre + alen (kept ++ [v]) + alen mid') by (autorewrite with alen; lia).
    replace (alen (pre ++ kept) + 1) with (alen pre + alen (kept ++ [v])) by (autorewrite with alen; lia).
    replace ((pre ++ kept) ++ v :: mid' ++ todo ++ post) with ((pre ++ kept ++ [v]) ++ mid' ++ todo ++ post)
      by (rewrite <- !app_assoc; done).
    rewrite E2. split; [|autorewrite with alen in *; lia]. do 2 f_equal; [autorewrite with alen; lia|].
    by rewrite <- !app_assoc.
  - mred. destruct (IH kept (mid ++ [v]) pre post) as (mid2 & E2 & L2). exists mid2.
    replace (alen pre + alen kept + alen mid + 1) with (alen pre + alen kept + alen (mid ++ [v])) by (autorewrite with alen; lia).
    replace ((pre ++ kept) ++ mid ++ (v :: todo) ++ post) with ((pre ++ kept) ++ (mid ++ [v]) ++ todo ++ post)
      by (f_equal; by rewrite <- app_assoc).
    rewrite E2. split; [done|]. autorewrite with alen in *. lia.
Qed.

(** The elements in range are moved to the front of the region, in order. *)
Lemma filter_spec a b pre todo post : exists junk,
  Helpers_filterOutNotInAB (pre ++ todo ++ post) (alen pre) (alen todo) a b =
  Some (alen pre + alen (filter (fun v => in_AB a b v = true) todo),
    pre ++ filter (fun v => in_AB a b v = true) todo ++ junk ++ post) /\
  alen todo = alen (filter (fun v => in_AB a b v = true) todo) + alen junk.
Proof.
  destruct (filter_loop a b todo [] [] pre post) as (junk & E & Hl). exists junk. cbn [app] in *. rewrite app_nil_r in E.
  autorewrite with alen in *. rewrite !Z.add_0_r in E. split; [|lia]. unfold Helpers_filterOutNotInAB. unfold alen at 1. rewrite Nat2Z.id.
  rewrite E. by rewrite <- app_assoc.
Qed.

(** An array as the part before, at and behind a region. *)
Lemma region {A} (m : list A) off len : 0 <= off -> 0 <= len -> off + len <= alen m ->
  exists pre mid post, m = pre ++ mid ++ post /\ alen pre = off /\ alen mid = len.
Proof.
  intros Ho Hn Hm. unfold alen in *. exists (take (Z.to_nat off) m), (take (Z.to_nat len) (drop (Z.to_nat off) m)), (drop (Z.to_nat len) (drop (Z.to_nat off) m)).
  rewrite !take_drop. split; [done|]. rewrite !length_take, !length_drop. lia.
Qed.

Lemma filter_found m off len a b : 0 <= off -> 0 <= len -> off + len <= alen m ->
  exists k m', Helpers_filterOutNotInAB m off len a b = Some (off + k, m') /\ 0 <= k <= len /\ alen m' = alen m.
Proof.
  intros Ho Hn Hm. destruct (region m off len Ho Hn Hm) as (pre & mid & post & -> & <- & <-).
  destruct (filter_spec a b pre mid post) as (junk & -> & Hl). pose proof (alen_nonneg junk).
  pose proof (alen_nonneg (filter (fun v => in_AB a b v = true) mid)). eexists _, _. split; [done|]. split; [lia|].
  autorewrite with alen. lia.
Qed.

Lemma cubicRootsInAB_found pf d a b c z off lo hi : 0 <= off -> off + 3 <= alen z ->
  found 3 z (Helpers_cubicRootsInAB pf d a b c z off lo hi).
Proof.
  intros Ho Hz. unfold Helpers_cubicRootsInAB.
  enough (exists num z', (if feq d f_zero then Helpers_quadraticRoots a b c z off else _) = Some (num, z') /\ 0 <= num <= 3 /\ alen z' = alen z)
    as (num & z' & -> & Hn & Hl).
  { mred. destruct (filter_found z' off num lo hi) as (k & m' & -> & Hk & Hm); [lia..|]. mred. apply found_intro; [lia|congruence]. }
  destruct (feq d f_zero).
  - destruct (quadraticRoots_found a b c z off) as (k & m & -> & Hk & Hm); [lia..|]. exists k, m. split; [done|]. split; [lia|done].
  - cbv zeta. destruct (cardano_found pf (a / d)%jf (b / d)%jf (c / d)%jf z off Ho Hz) as (k & m & -> & Hk & Hm). mred.
    destruct (for_lt_inv (fun _ m' => alen m' = alen z) k
      (fun i pts => aupd pts (off + i) (fun v => Some (v - f_one / three * (a / d))%jf)) m) as (m' & -> & Hm'); [done| |].
    { intros i s Hi Hs. destruct (aupd_pointwise s (off + i) (fun v => Some (v - f_one / three * (a / d))%jf)
        (fun v => (v - f_one / three * (a / d))%jf)) as (s' & E & Hp); [lia|done|]. exists s'. split; [done|].
      rewrite (pointwise_alen _ _ _ Hp). done. }
    mred. eauto.
Qed.

Lemma rootsOfROC_found pf k z off w err : 0 <= off -> off + 4 <= alen z ->
  found 4 z (Curve_rootsOfROCMinusW pf k z off w err).
Proof.
  intros Ho Hz. unfold Curve_rootsOfROCMinusW, perpendiculardfddf.
  match goal with |- context [Helpers_cubicRootsInAB pf ?a ?b ?c ?d z off ?lo ?hi] =>
    destruct (cubicRootsInAB_found pf a b c d z off lo hi) as (n & m & -> & Hn & Hm); [lia..|] end.
  mred. cbv zeta. destruct (aset_step m (off + n) f_one) as (m1 & -> & Hl & _); [lia|]. mred.
  match goal with |- context [for_from ?rounds ?j ?body ?s0] =>
    destruct (for_from_inv (fun i (s : Z * list jfloat * jfloat * jfloat) =>
      let '(ret, roots, _, _) := s in off <= ret <= i /\ alen roots = alen z) rounds body j s0) as ([[[ret roots] t] ft] & -> & Hr & Hroots) end.
  - split; [lia|congruence].
  - intros i [[[ret roots] t0] ft0] Hi [Hr Hroots]. step_aget. destruct (feq ft0 f_zero); [|destruct (flt _ f_zero)]; try step_aset;
      (eexists; split; [done|]; cbn; split; [lia|congruence]).
  - mred. apply found_intro; [lia|done].
Qed.

(** ** Sorting *)

Definition not_greater (a b : jfloat) : Prop := flt b a = false.

(** Comparison is decided by the signs, the exponents and the mantissas. *)
Ltac compare_floats a b :=
  destruct a as [[]|[]| |[] m e], b as [[]|[]| |[] m' e']; cbn; try done;
  rewrite (Z.compare_antisym e e'); destruct (e ?= e'); cbn; try done;
  change (Pos.compare_cont Eq m m') with (m ?= m')%positive; change (Pos.compare_cont Eq m' m) with (m' ?= m)%positive;
  rewrite (Pos.compare_antisym m m'); by destruct (m ?= m')%positive.

Lemma flt_asym a b : flt a b = true -> flt b a = false.
Proof. unfold flt, SFltb. compare_floats a b. Qed.

(** Where there is no NaN, what is not greater is less or equal. *)
Lemma not_greater_fle a b : isnan a = false -> isnan b = false -> not_greater a b -> fle a b = true.
Proof.
  unfold not_greater, isnan, flt, fle, feq, SFltb, SFleb, SFeqb. compare_floats a b.
Qed.

Lemma Sorted_insert {A} (R : A -> A -> Prop) l1 a l2 : Sorted R (l1 ++ l2) ->
  (forall l x, l1 = l ++ [x] -> R x a) -> (forall y l, l2 = y :: l -> R a y) -> Sorted R (l1 ++ a :: l2).
Proof.
  induction l1 as [|x l1 IH]; cbn; intros Hs H1 H2.
  - constructor; [done|]. destruct l2; constructor. eauto.
  - apply Sorted_inv in Hs as [Hs Hx]. constructor.
    + apply IH; [done| |done]. intros l z ->. by apply (H1 (x :: l)).
    + destruct l1 as [|z l1]; cbn in *; constructor; [by apply (H1 [])|]. by apply HdRel_inv in Hx.
Qed.

(** The elements larger than [ai] at the end of [lo] move up over the place [h]. *)
Lemma isort_shift_spec pre ai post lo : forall fuel h hi, (length lo <= fuel)%nat ->
  exists lo1 lo2 h', lo = lo1 ++ lo2 /\
    isort_shift fuel (alen pre) (alen pre + alen lo - 1) ai (pre ++ lo ++ h :: hi ++ post) =
      Some (alen pre + alen lo1 - 1, pre ++ lo1 ++ h' :: lo2 ++ hi ++ post) /\
    Forall (fun x => flt ai x = true) lo2 /\ (forall l x, lo1 = l ++ [x] -> flt ai x = false).
Proof.
  induction lo as [|x lo IH] using rev_ind; intros fuel h hi Hf.
  { exists [], [], h. split; [done|]. split; [|split; [done|by intros [] ?]].
    destruct fuel; cbn [isort_shift app]; rewrite (proj2 (Z.ltb_lt _ _)) by (change (alen []) with 0; lia); done. }
  rewrite length_app in Hf. cbn in Hf. destruct fuel as [|fuel]; [lia|]. cbn [isort_shift].
  pose proof (alen_nonneg lo). rewrite (proj2 (Z.ltb_ge _ _)) by (autorewrite with alen; lia).
  assert (Hm : pre ++ (lo ++ [x]) ++ h :: hi ++ post = (pre ++ lo) ++ x :: h :: hi ++ post) by (rewrite <- !app_assoc; done).
  assert (Hj : alen pre + alen (lo ++ [x]) - 1 = alen (pre ++ lo)) by (autorewrite with alen; lia).
  rewrite Hm, Hj, aget_middle. mred. destruct (flt ai x) eqn:Ex.
  - assert (Hset : aset ((pre ++ lo) ++ x :: h :: hi ++ post) (alen (pre ++ lo) + 1) x = Some ((pre ++ lo) ++ x :: x :: hi ++ post)).
    { pose proof (aset_middle ((pre ++ lo) ++ [x]) h (hi ++ post) x) as Hs. autorewrite with alen in Hs.
      rewrite <- !app_assoc in Hs. cbn [app] in Hs. rewrite <- !app_assoc. autorewrite with alen. exact Hs. }
    rewrite Hset. mred. destruct (IH fuel x (x :: hi)) as (lo1 & lo2 & h' & -> & E & H1 & H2); [lia|].
    exists lo1, (lo2 ++ [x]), h'. split; [by rewrite app_assoc|]. split.
    + replace (alen (pre ++ lo1 ++ lo2) - 1) with (alen pre + alen (lo1 ++ lo2) - 1) by (autorewrite with alen; lia).
      rewrite <- app_assoc. cbn [app] in E. rewrite E. by rewrite <- !app_assoc.
    + split; [|done]. apply Forall_app. split; [done|]. by constructor.
  - exists (lo ++ [x]), [], h. split; [by rewrite app_nil_r|]. split; [|split; [done|]].
    + rewrite <- Hj. do 2 f_equal. rewrite <- !app_assoc. done.
    + intros l y Hy. by apply app_inj_tail in Hy as [_ <-].
Qed.

(** The region is sorted; nothing else is touched. *)
Lemma isort_spec pre mid post : exists mid',
  Helpers_isort (pre ++ mid ++ post) (alen pre) (alen mid) = Some (pre ++ mid' ++ post) /\ mid' ≡ₚ mid /\ Sorted not_greater mid'.
Proof.
  assert (Hloop : forall todo sorted, Sorted not_greater sorted -> exists mid',
    for_from (length todo) (alen pre + alen sorted) (fun i a =>
      ai ← aget a i; '(j, a) ← isort_shift (Z.to_nat (i - alen pre)) (alen pre) (i - 1) ai a; aset a (j + 1) ai)
      (pre ++ sorted ++ todo ++ post) = Some (pre ++ mid' ++ post) /\ mid' ≡ₚ sorted ++ todo /\ Sorted not_greater mid').
  { induction todo as [|ai todo IH]; intros sorted Hs; [exists sorted; by rewrite app_nil_r|]. cbn [length for_from].
    assert (Hget : aget (pre ++ sorted ++ (ai :: todo) ++ post) (alen pre + alen sorted) = Some ai).
    { rewrite app_assoc, <- alen_app. apply aget_middle. }
    rewrite Hget. mred. cbn [app].
    destruct (isort_shift_spec pre ai (todo ++ post) sorted (Z.to_nat (alen pre + alen sorted - alen pre)) ai []) as (lo1 & lo2 & h' & -> & E & H1 & H2).
    { unfold alen. lia. }
    cbn [app] in E. rewrite E. mred. replace (alen pre + alen lo1 - 1 + 1) with (alen (pre ++ lo1)) by (autorewrite with alen; lia).
    rewrite app_assoc, aset_middle, <- app_assoc. mred.
    destruct (IH (lo1 ++ ai :: lo2)) as (mid' & E' & Hp & Hs').
    { apply Sorted_insert; [done|done|]. intros y l ->. apply Forall_cons_1 in H1 as [H1 _]. by apply flt_asym. }
    exists mid'. split; [|split; [|done]].
    - rewrite <- E'. f_equal; [autorewrite with alen; lia|]. by rewrite <- !app_assoc.
    - rewrite Hp, <- !app_assoc. cbn [app]. apply Permutation_app_head, Permutation_middle. }
  destruct mid as [|x mid]; [exists []; split; [done|]; split; [done|constructor]|].
  destruct (Hloop mid [x]) as (mid' & E & Hp & Hs); [repeat constructor|]. exists mid'. split; [|done].
  unfold Helpers_isort. rewrite <- E. f_equal. rewrite alen_cons. unfold alen. lia.
Qed.

(** ** Subdivision *)

(** The sizes of the arrays of a memory. *)
Definition shape (mem : memory) : list Z := alen <$> mem.

(** [n] coordinates from [off] on are in array [a]. *)
Definition has_room (mem : memory) (a off n : Z) : Prop := exists m, aget (shape mem) a = Some m /\ 0 <= off /\ off + n <= m.

Lemma shape_aget mem a m : aget (shape mem) a = Some m <-> exists v, aget mem a = Some v /\ alen v = m.
Proof.
  unfold shape, aget. destruct (a <? 0); [split; [done|by intros (? & ? & _)]|]. rewrite list_lookup_fmap_Some.
  split; intros (v & H1 & H2); exists v; eauto.
Qed.

Lemma mread_ok mem a i : has_room mem a i 1 -> exists v, mread mem a i = Some v.
Proof. intros (m & (v & Hv & Hm)%shape_aget & Ho & Hn). unfold mread. rewrite Hv. mred. apply aget_ex. lia. Qed.

Lemma mwrite_ok mem a i v : has_room mem a i 1 -> exists mem', mwrite mem (Some a) i v = Some mem' /\ shape mem' = shape mem.
Proof.
  intros (m & (arr & Ha & Hm)%shape_aget & Ho & Hn). unfold mwrite, aupd. rewrite Ha. mred.
  destruct (aset_step arr i v) as (arr' & -> & Hl & _); [lia|]. mred.
  destruct (aset_step mem a arr') as (mem' & E & Hl' & H1 & H2); [by eapply aget_Some_range|]. exists mem'. split; [done|].
  apply aget_ext. intros j. destruct (Z.eq_dec j a) as [->|Hj].
  - rewrite (proj2 (shape_aget mem' a (alen arr))), (proj2 (shape_aget mem a (alen arr))); eauto.
  - unfold shape, aget in *. specialize (H2 j Hj). destruct (j <? 0); [done|]. by rewrite !list_lookup_fmap, H2.
Qed.

Lemma room_inside mem mem0 a i j n n' : has_room mem0 a i n -> shape mem = shape mem0 -> i <= j -> j + n' <= i + n -> has_room mem a j n'.
Proof. intros (m & Hm & Ho & Hn) Hs Hi Hj. exists m. rewrite Hs. split; [done|]. lia. Qed.

Lemma mstore_ok vs : forall mem a i, has_room mem a i (alen vs) -> exists mem', mstore mem (Some a) i vs = Some mem' /\ shape mem' = shape mem.
Proof.
  induction vs as [|v vs IH]; intros mem a i Hr; [by exists mem|]. cbn [mstore]. rewrite alen_cons in Hr. pose proof (alen_nonneg vs).
  destruct (mwrite_ok mem a i v) as (mem1 & -> & H1); [eapply room_inside; [exact Hr|done|lia|lia]|]. mred.
  destruct (IH mem1 a (i + 1)) as (mem' & -> & H2); [eapply room_inside; [exact Hr|done|lia|lia]|]. exists mem'. split; [done|congruence].
Qed.

(** The source and the halves lie in the memory; they may overlap. *)
Definition can_subdivide (mem : memory) (type src srcoff left leftoff right rightoff : Z) : Prop :=
  (type = 6 \/ type = 8) /\ has_room mem src srcoff type /\ has_room mem left leftoff type /\ has_room mem right rightoff type.

Ltac room := match goal with Hr : has_room _ ?a ?i _ |- has_room _ ?a _ _ =>
  eapply room_inside; [exact Hr|congruence|lia|autorewrite with alen; lia] end.
Ltac step_mread :=
  match goal with |- context [mread ?mem ?a ?i] =>
    let v := fresh "v" in let E := fresh "E" in destruct (mread_ok mem a i) as [v E]; [room|rewrite E; clear E; mred]
  end.
Ltac step_mstore :=
  match goal with |- context [mstore ?mem (Some ?a) ?i ?vs] =>
    let m := fresh "mem" in let E := fresh "E" in let Hs := fresh "Hs" in
    destruct (mstore_ok vs mem a i) as (m & E & Hs); [room|rewrite E; clear E; mred]
  end.
Ltac subdivided := repeat step_mread; cbv zeta; repeat step_mstore; eexists; (split; [done|congruence]).

Lemma subdivideAt_ok t type src srcoff left leftoff right rightoff mem : can_subdivide mem type src srcoff left leftoff right rightoff ->
  exists mem', Helpers_subdivideAt t src srcoff (Some left) leftoff (Some right) rightoff type mem = Some mem' /\ shape mem' = shape mem.
Proof.
  intros (Ht & Hs & Hl & Hr). unfold Helpers_subdivideAt. destruct Ht as [-> | ->]; cbn [Z.eqb Pos.eqb].
  - unfold Helpers_subdivideQuadAt. subdivided.
  - unfold Helpers_subdivideCubicAt. subdivided.
Qed.

Lemma subdivide_ok type src srcoff left leftoff right rightoff mem : can_subdivide mem type src srcoff left leftoff right rightoff ->
  exists mem', Helpers_subdivide src srcoff (Some left) leftoff (Some right) rightoff type mem = Some mem' /\ shape mem' = shape mem.
Proof.
  intros (Ht & Hs & Hl & Hr). unfold Helpers_subdivide. destruct Ht as [-> | ->]; cbn [Z.eqb Pos.eqb].
  - unfold Helpers_subdivideQuad. subdivided.
  - unfold Helpers_subdivideCubic. subdivided.
Qed.
