(* ===== verification/PrismStrokerSpec.v ===== *)
(** * Strokes as outlines

    The stack of the stroker refines a list of calls ([stack_ok]): what was pushed comes
    out in reverse.  The stroker turns every subpath into one outline: a closed contour
    for an open subpath, two for a closed one ([stroker_outlines]); it returns for every
    path, and reads and writes only inside its arrays, whatever the coordinates. *)

From Stdlib Require Import SpecFloat Sorted.
From S2P Require Import Prelude.
From S2P Require Import Float32.
From S2P Require Import PrismRenderer.
From S2P Require Import PrismRasterizer.
From S2P Require Import PrismEdges.
From S2P Require Import PrismScan.
From S2P Require Import PrismHelpers.
From S2P Require Import PrismHelpersSpec.
From S2P Require Import PrismCalls.
From S2P Require Import PrismStroker.

(** ** The stack *)

(** The coordinates of a segment, as the stack keeps them. *)
Definition coordinates (c : call) : list jfloat :=
  match c with
  | LineTo x y => [x; y]
  | QuadTo xc yc x y => [xc; yc; x; y]
  | CurveTo xc0 yc0 xc1 yc1 x y => [xc0; yc0; xc1; yc1; x; y]
  | _ => []
  end.

Definition is_segment (c : call) : bool := match c with LineTo _ _ | QuadTo _ _ _ _ | CurveTo _ _ _ _ _ _ => true | _ => false end.

Definition segments (cs : list call) : Prop := Forall (fun c => is_segment c = true) cs.

Definition segment_type (c : call) : Z := alen (coordinates c) + 2.

(** [stack_ok ps cs]: the stack holds the segments [cs], the newest first. *)
Record stack_ok (ps : PolyStack) (cs : list call) : Prop := {
  so_segments : segments cs;
  so_curves : exists rest, curves ps = concat (coordinates <$> reverse cs) ++ rest;
  so_end : curves_end ps = alen (concat (coordinates <$> reverse cs));
  so_types : exists rest, curveTypes ps = (segment_type <$> reverse cs) ++ rest;
  so_num : numCurves ps = alen cs;
  so_room : 0 < alen (curveTypes ps) }.

Lemma alen_reverse {A} (l : list A) : alen (reverse l) = alen l.
Proof. unfold alen. by rewrite length_reverse. Qed.
#[export] Hint Rewrite @alen_reverse : alen.

Lemma coordinates_length c : is_segment c = true -> 2 <= alen (coordinates c) <= 6.
Proof. destruct c; cbn; try done; intros _; autorewrite with alen; lia. Qed.

Lemma stack_size ps cs : stack_ok ps cs -> 2 * numCurves ps <= curves_end ps.
Proof.
  intros [Hs _ -> _ -> _]. rewrite <- (alen_reverse cs). assert (Hr : segments (reverse cs)) by (by apply Forall_reverse).
  induction Hr as [|c l Hc _ IH]; cbn; [done|]. pose proof (coordinates_length c Hc). autorewrite with alen. lia.
Qed.

Lemma stack_empty : stack_ok PolyStack_init [].
Proof. split; try done; [constructor|by eexists|by eexists]. Qed.

Lemma astore_prefix {A} (vs : list A) : forall l rest, alen vs <= alen rest -> exists rest', astore (l ++ rest) (alen l) vs = Some (l ++ vs ++ rest').
Proof.
  induction vs as [|v vs IH]; intros l rest Hr; [by exists rest|]. cbn [astore]. pose proof (alen_nonneg vs). rewrite alen_cons in Hr.
  destruct rest as [|w rest]; [change (alen []) with 0 in Hr; lia|]. rewrite alen_cons in Hr. rewrite aset_middle. mred.
  destruct (IH (l ++ [v]) rest ltac:(lia)) as [rest' E]. exists rest'. rewrite alen_snoc, <- !app_assoc in E. exact E.
Qed.

(** A copy keeps the part in use. *)
Lemma copy_prefix {A} (l rest dst : list A) : alen l <= alen dst ->
  exists rest', arraycopy (l ++ rest) (alen l) dst = Some (l ++ rest') /\ alen l + alen rest' = alen dst.
Proof.
  intros Hd. pose proof (alen_nonneg l). pose proof (alen_nonneg rest). unfold arraycopy.
  destruct (copy_spec (l ++ rest) dst (alen l)) as (m & -> & Hl & Hm); [lia|rewrite alen_app; lia|done|].
  exists (drop (length l) m). rewrite <- Hl.
  assert (Htake : take (length l) m = l).
  { apply list_eq. intros i. destruct (Nat.lt_ge_cases i (length l)) as [Hi|Hi].
    - rewrite lookup_take_lt by done. specialize (Hm (Z.of_nat i)). rewrite !aget_lookup, Nat2Z.id in Hm by lia.
      rewrite Hm. unfold alen. rewrite (proj2 (Z.leb_le 0 _)), (proj2 (Z.ltb_lt _ _)) by lia. cbn. by apply lookup_app_l.
    - rewrite (proj2 (lookup_ge_None l i)) by done. apply lookup_ge_None. rewrite length_take. lia. }
  split; [f_equal; rewrite <- (take_drop (length l) m) at 1; by rewrite Htake|].
  unfold alen in *. rewrite length_drop. lia.
Qed.

Definition stack_limit : Z := 2 ^ 29.

(** Room for [n] more coordinates and one more type; what is held is kept. *)
Lemma ensureSpace_ok ps l rest ts rest' n : curves ps = l ++ rest -> curves_end ps = alen l -> curveTypes ps = ts ++ rest' ->
  numCurves ps = alen ts -> 0 < alen (curveTypes ps) -> 2 * alen ts <= alen l -> 0 < n <= 6 -> alen l < stack_limit ->
  exists r1 r2, ensureSpace n ps = Some (mkPolyStack (l ++ r1) (alen l) (ts ++ r2) (alen ts)) /\ n <= alen r1 /\ 0 < alen r2.
Proof.
  intros Hc He Ht Hn Hr Hsz Hn6 Hlim. unfold ensureSpace, stack_limit in *. rewrite Hc, He, Ht, Hn in *.
  pose proof (alen_nonneg l). pose proof (alen_nonneg ts). pose proof (alen_nonneg rest). pose proof (alen_nonneg rest').
  assert (Hg1 : exists r1, (if alen l + n >=? alen (l ++ rest) then arraycopy (l ++ rest) (alen l) (new_float (i32 ((alen l + n) * 2)))
                           else Some (l ++ rest)) = Some (l ++ r1) /\ n <= alen r1).
  { rewrite Z.geb_leb. autorewrite with alen. destruct (Z.leb_spec (alen l + alen rest) (alen l + n)).
    - rewrite i32_id by (unfold in_i32; lia). destruct (copy_prefix l rest (new_float ((alen l + n) * 2))) as (r1 & -> & Hl).
      + unfold new_float. rewrite alen_new; lia.
      + unfold new_float in Hl. rewrite alen_new in Hl by lia. exists r1. split; [done|lia].
    - exists rest. split; [done|lia]. }
  assert (Hg2 : exists r2, (if alen ts >=? alen (ts ++ rest') then arraycopy (ts ++ rest') (alen ts) (new_int (i32 (alen ts * 2)))
                           else Some (ts ++ rest')) = Some (ts ++ r2) /\ 0 < alen r2).
  { rewrite Z.geb_leb. autorewrite with alen in *. destruct (Z.leb_spec (alen ts + alen rest') (alen ts)).
    - rewrite i32_id by (unfold in_i32; lia). destruct (copy_prefix ts rest' (new_int (alen ts * 2))) as (r2 & -> & Hl).
      + unfold new_int. rewrite alen_new; lia.
      + unfold new_int in Hl. rewrite alen_new in Hl by lia. exists r2. split; [done|lia].
    - exists rest'. split; [done|lia]. }
  destruct Hg1 as (r1 & -> & Hr1). destruct Hg2 as (r2 & -> & Hr2). mred. eauto.
Qed.

(** Pushing adds a segment. *)
Lemma push_ok ps cs c : stack_ok ps cs -> is_segment c = true -> curves_end ps < stack_limit ->
  exists ps', push_values (segment_type c) (coordinates c) ps = Some ps' /\ stack_ok ps' (c :: cs) /\
    curves_end ps' = curves_end ps + alen (coordinates c).
Proof.
  intros Hok Hc Hlim. pose proof (stack_size ps cs Hok) as Hsz. pose proof (coordinates_length c Hc) as Hlen.
  destruct Hok as [Hs [rest Hcu] He [rest' Ht] Hn Hr]. set (l := concat (coordinates <$> reverse cs)) in *.
  assert (Hts : alen (segment_type <$> reverse cs) = alen cs) by (rewrite alen_fmap; apply alen_reverse).
  destruct (ensureSpace_ok ps l rest (segment_type <$> reverse cs) rest' (alen (coordinates c))) as (r1 & r2 & E & Hr1 & Hr2);
    try done; try lia. unfold push_values. rewrite E. mred. cbn [curves curves_end curveTypes numCurves].
  destruct r2 as [|t r2]; [done|]. rewrite aset_middle. mred.
  destruct (astore_prefix (coordinates c) l r1 Hr1) as [r3 ->]. mred. unfold stack_limit in *. pose proof (alen_nonneg l). pose proof (alen_nonneg cs).
  rewrite (i32_id (alen l + alen (coordinates c))), (i32_id (alen (segment_type <$> reverse cs) + 1)) by (unfold in_i32; lia).
  eexists. split; [done|]. split; [|cbn; lia].
  assert (Hl' : concat (coordinates <$> reverse (c :: cs)) = l ++ coordinates c).
  { rewrite reverse_cons, fmap_app, concat_app. cbn. by rewrite app_nil_r. }
  split; cbn [curves curves_end curveTypes numCurves].
  - by constructor.
  - rewrite Hl'. exists r3. by rewrite app_assoc.
  - rewrite Hl'. by autorewrite with alen.
  - exists r2. rewrite reverse_cons, fmap_app, <- app_assoc. done.
  - autorewrite with alen. lia.
  - autorewrite with alen. pose proof (alen_nonneg r2). lia.
Qed.

(** Popping makes the call of the newest segment. *)
Lemma pop_ok ps c cs : stack_ok ps (c :: cs) -> exists ps', PolyStack_pop ps = Some ([c], ps') /\ stack_ok ps' cs.
Proof.
  intros [Hs [rest Hcu] He [rest' Ht] Hn Hr]. apply Forall_cons_1 in Hs as [Hc Hs].
  rewrite reverse_cons, fmap_app, concat_app in Hcu, He. cbn [fmap list_fmap concat] in Hcu, He. rewrite app_nil_r in Hcu, He.
  rewrite reverse_cons, fmap_app, <- app_assoc in Ht. cbn [fmap list_fmap app] in Ht. set (l := concat (coordinates <$> reverse cs)) in *.
  rewrite alen_cons in Hn. unfold PolyStack_pop. rewrite Hn, Ht. replace (alen cs + 1 - 1) with (alen (segment_type <$> reverse cs))
    by (rewrite alen_fmap, alen_reverse; lia). rewrite aget_middle. mred.
  assert (He' : curves_end ps - (segment_type c - 2) = alen l) by (rewrite He, alen_app; unfold segment_type; lia).
  rewrite He', Hcu, <- app_assoc.
  assert (Hget : forall k v, aget (coordinates c) k = Some v -> aget (l ++ coordinates c ++ rest) (alen l + k) = Some v).
  { intros k v Hk. pose proof (aget_Some_range _ _ _ Hk) as Hr'. pose proof (alen_nonneg l). rewrite !aget_lookup in * by lia.
    unfold alen. rewrite lookup_app_r by lia. replace (Z.to_nat (Z.of_nat (length l) + k) - length l)%nat with (Z.to_nat k) by lia.
    by apply lookup_app_l_Some. }
  exists (mkPolyStack (l ++ coordinates c ++ rest) (alen l) ((segment_type <$> reverse cs) ++ segment_type c :: rest')
    (alen (segment_type <$> reverse cs))). split.
  - destruct c; try done; [change (segment_type _) with 4|change (segment_type _) with 6|change (segment_type _) with 8];
      cbn [Z.eqb Pos.eqb]; repeat match goal with |- context [aget (l ++ _) (alen l + ?k)] => rewrite (Hget k _ eq_refl); mred end; reflexivity.
  - split; cbn; eauto; autorewrite with alen; [done|]. pose proof (alen_nonneg cs). pose proof (alen_nonneg rest'). lia.
Qed.

(** ** Drawing

    Between the start and the end of a subpath the stroker appends segments to its
    output and pushes segments. *)

Record good (st : Stroker) (cs : list call) : Prop := {
  g_stack : stack_ok (st_reverse st) cs;
  g_middle : alen (st_middle st) = MAX_N_CURVES * 8;
  g_ts : alen (st_subdivTs st) = MAX_N_CURVES - 1 }.

Definition used (st : Stroker) : Z := curves_end (st_reverse st).

(** What drawing does not change. *)
Definition same_subpath (st st' : Stroker) : Prop :=
  capStyle st' = capStyle st /\ joinStyle st' = joinStyle st /\ lineWidth2 st' = lineWidth2 st /\ miterLimitSq st' = miterLimitSq st /\
  st_prev st' = st_prev st /\ st_start st' = st_start st /\ st_cur st' = st_cur st.

#[export] Instance same_subpath_preorder : PreOrder same_subpath.
Proof.
  split; [intros st; by repeat split|]. intros a b c (A1 & A2 & A3 & A4 & A5 & A6 & A7) (B1 & B2 & B3 & B4 & B5 & B6 & B7).
  repeat split; congruence.
Qed.

(** [f] returns, and draws with at most [n] coordinates pushed. *)
Definition draws_from (n : Z) (f : Stroker -> option Stroker) (st : Stroker) (cs : list call) : Prop :=
  exists st' l r, f st = Some st' /\ good st' (r ++ cs) /\ segments l /\ st_out st' = st_out st ++ l /\
    used st' <= used st + n /\ same_subpath st st'.

Definition draws (n : Z) (f : Stroker -> option Stroker) : Prop :=
  forall st cs, good st cs -> used st + n <= stack_limit -> draws_from n f st cs.

Lemma segments_app l l' : segments l -> segments l' -> segments (l ++ l').
Proof. intros. by apply Forall_app. Qed.

Lemma draws_some : draws 0 Some.
Proof. intros st cs Hg _. exists st, [], []. rewrite app_nil_r. repeat split; try done; [apply Hg..|constructor|lia]. Qed.

Lemma draws_bind n m f h : 0 <= n -> 0 <= m -> draws n f -> draws m h -> draws (n + m) (fun st => st ← f st; h st).
Proof.
  intros Hn Hm Hf Hh st cs Hg Hu. destruct (Hf st cs Hg ltac:(lia)) as (st1 & l1 & r1 & E1 & G1 & S1 & O1 & U1 & M1).
  destruct (Hh st1 _ G1 ltac:(lia)) as (st2 & l2 & r2 & E2 & G2 & S2 & O2 & U2 & M2).
  exists st2, (l1 ++ l2), (r2 ++ r1). rewrite E1. mred. rewrite <- app_assoc.
  split; [done|]. split; [done|]. split; [by apply segments_app|]. split; [by rewrite O2, O1, app_assoc|]. split; [lia|by etrans].
Qed.

Lemma draws_le n m f : n <= m -> draws n f -> draws m f.
Proof.
  intros Hn Hf st cs Hg Hu. destruct (Hf st cs Hg ltac:(lia)) as (st' & l & r & E & G & S & O & U & M).
  exists st', l, r. repeat (split; [done|]). split; [lia|done].
Qed.

(** Drawing whose arguments are read from the state. *)
Lemma draws_at n f : (forall st, exists h, f st = h st /\ draws n h) -> draws n f.
Proof.
  intros H st cs Hg Hu. destruct (H st) as (h & E & Hh). destruct (Hh st cs Hg Hu) as (st' & l & r & E' & Hr).
  exists st', l, r. by rewrite E.
Qed.

(** *** Emitting *)

Lemma say_draws c : is_segment c = true -> draws 0 (fun st => Some (say c st)).
Proof.
  intros Hc st cs [G1 G2 G3] Hu. exists (say c st), [c], []. split; [done|]. split; [by split|]. split; [by repeat constructor|].
  split; [done|]. split; [unfold used; cbn; lia|done].
Qed.

Lemma push_draws c : is_segment c = true ->
  draws (alen (coordinates c)) (fun st => ps ← push_values (segment_type c) (coordinates c) (st_reverse st); Some (st_set_reverse ps st)).
Proof.
  intros Hc st cs [G1 G2 G3] Hu. pose proof (coordinates_length c Hc). unfold used in Hu.
  destruct (push_ok (st_reverse st) cs c G1 Hc ltac:(lia)) as (ps & E & Hok & He).
  exists (st_set_reverse ps st), [], [c]. rewrite E. mred. split; [done|]. split; [by split|]. split; [constructor|].
  split; [by rewrite app_nil_r|]. split; [|done]. unfold used. cbn. lia.
Qed.

Lemma emitLineTo_draws x y (rev : bool) : draws (if rev then 2 else 0) (emitLineTo x y rev).
Proof. destruct rev; [exact (push_draws (LineTo x y) eq_refl)|exact (say_draws (LineTo x y) eq_refl)]. Qed.

Lemma emitQuadTo_draws x0 y0 x1 y1 x2 y2 (rev : bool) : draws (if rev then 4 else 0) (emitQuadTo x0 y0 x1 y1 x2 y2 rev).
Proof. destruct rev; [exact (push_draws (QuadTo x1 y1 x0 y0) eq_refl)|exact (say_draws (QuadTo x1 y1 x2 y2) eq_refl)]. Qed.

Lemma emitCurveTo_draws x0 y0 x1 y1 x2 y2 x3 y3 (rev : bool) : draws (if rev then 6 else 0) (emitCurveTo x0 y0 x1 y1 x2 y2 x3 y3 rev).
Proof. destruct rev; [exact (push_draws (CurveTo x2 y2 x1 y1 x0 y0) eq_refl)|exact (say_draws (CurveTo x1 y1 x2 y2 x3 y3) eq_refl)]. Qed.

(** *** Joins and caps *)

Lemma drawBez_draws cx cy omx omy mx my rev : draws 6 (drawBezApproxForArc cx cy omx omy mx my rev).
Proof.
  apply draws_at. intros st. eexists. split; [unfold drawBezApproxForArc; cbv zeta; reflexivity|].
  eapply draws_le; [|apply emitCurveTo_draws]. destruct rev; lia.
Qed.

Lemma drawRoundJoin2_draws cx cy omx omy mx my rev : draws 12 (drawRoundJoin2 cx cy omx omy mx my rev).
Proof.
  unfold drawRoundJoin2. cbv zeta. destruct (dle _ _); [eapply draws_le; [|apply drawBez_draws]; lia|].
  apply draws_at. intros st. set (scale := (lineWidth2 st / _)%jf). destruct (if rev then _ else _) as [mmx mmy].
  exists (fun st => st ← drawBezApproxForArc cx cy omx omy mmx mmy rev st; drawBezApproxForArc cx cy mmx mmy mx my rev st).
  split; [done|]. apply (draws_bind 6 6); try lia; apply drawBez_draws.
Qed.

Lemma drawRoundJoin_draws x y omx omy mx my rev th : draws 12 (drawRoundJoin x y omx omy mx my rev th).
Proof.
  assert (H0 : draws 12 Some) by (eapply draws_le; [|apply draws_some]; lia).
  unfold drawRoundJoin. cbv zeta. destruct (is_zero omx omy || is_zero mx my); [exact H0|]. destruct (flt _ th); [exact H0|].
  destruct rev; apply drawRoundJoin2_draws.
Qed.

Lemma drawRoundCap_draws cx cy mx my : draws 0 (drawRoundCap cx cy mx my).
Proof. apply (draws_bind 0 0); try lia; apply (emitCurveTo_draws _ _ _ _ _ _ _ _ false). Qed.

Lemma drawMiter_draws pdx pdy x0 y0 dx dy omx omy mx my rev : draws 2 (drawMiter pdx pdy x0 y0 dx dy omx omy mx my rev).
Proof.
  assert (H0 : draws 2 Some) by (eapply draws_le; [|apply draws_some]; lia).
  unfold drawMiter. cbv zeta. destruct (_ || _ || _); [exact H0|]. destruct (if rev then _ else _) as [[[a b] c] d]. destruct (computeMiter _ _ _ _ _ _ _ _) as [m0 m1].
  apply draws_at. intros st. destruct (flt _ (miterLimitSq st)); [|by exists Some]. eexists. split; [reflexivity|].
  eapply draws_le; [|apply emitLineTo_draws]. destruct rev; lia.
Qed.

(** A join inside a subpath. *)
Lemma drawJoin_continues pdx pdy x0 y0 dx dy omx omy mx my st cs : st_prev st = DRAWING_OP_TO -> good st cs -> used st + 14 <= stack_limit ->
  draws_from 14 (drawJoin pdx pdy x0 y0 dx dy omx omy mx my) st cs.
Proof.
  intros Hp Hg Hu. set (cw := isCW pdx pdy dx dy).
  assert (Hd : draws 14 (fun st => st ← (if joinStyle st =? JOIN_MITER then drawMiter pdx pdy x0 y0 dx dy omx omy mx my cw st
    else if joinStyle st =? JOIN_ROUND then drawRoundJoin x0 y0 omx omy mx my cw ROUND_JOIN_THRESHOLD st else Some st);
    emitLineTo x0 y0 (negb cw) st)).
  { apply (draws_bind 12 2); try lia; [|eapply draws_le; [|apply emitLineTo_draws]; destruct cw; cbn; lia].
    apply draws_at. intros st0. destruct (joinStyle st0 =? JOIN_MITER); [|destruct (joinStyle st0 =? JOIN_ROUND)];
      (eexists; split; [reflexivity|]).
    - eapply draws_le; [|apply drawMiter_draws]. lia.
    - apply drawRoundJoin_draws.
    - eapply draws_le; [|apply draws_some]. lia. }
  destruct (Hd st cs Hg Hu) as (st' & l & r & E & G & S & O & U & M).
  assert (Hp' : st_prev st' = DRAWING_OP_TO) by (destruct M as (_ & _ & _ & _ & -> & _); done).
  exists (st_set_prev DRAWING_OP_TO st'), l, r. unfold drawJoin. rewrite Hp, Z.eqb_refl. cbn [negb]. fold cw. rewrite E. mred.
  split; [done|]. split; [by destruct G|]. repeat (split; [done|]). etrans; [exact M|]. destruct st'. cbn in *. subst. by repeat split.
Qed.

(** The join that starts a subpath is a move. *)
Lemma drawJoin_starts pdx pdy x0 y0 dx dy omx omy mx my st : st_prev st <> DRAWING_OP_TO ->
  drawJoin pdx pdy x0 y0 dx dy omx omy mx my st =
  Some (st_set_prev DRAWING_OP_TO (st_set_start (mkEnd (e_x (st_start st)) (e_y (st_start st)) dx dy mx my) (say (MoveTo (x0 + mx)%jf (y0 + my)%jf) st))).
Proof. intros Hp. unfold drawJoin. rewrite (proj2 (Z.eqb_neq _ _) Hp). done. Qed.

(** *** The reversed side *)

Lemma good_out st cs o : good st cs -> good (st_set_out o st) cs.
Proof. by intros []. Qed.

(** What is on the stack is emitted, the newest first. *)
Lemma emitReverse_spec st cs : good st cs ->
  exists st', emitReverse st = Some st' /\ good st' [] /\ st_out st' = st_out st ++ cs /\ same_subpath st st'.
Proof.
  unfold emitReverse. intros Hg. replace (Z.to_nat (numCurves (st_reverse st))) with (length cs)
    by (rewrite (so_num _ _ (g_stack _ _ Hg)); unfold alen; lia).
  revert st Hg. induction cs as [|c cs IH]; intros st Hg; cbn [length while_fuel]; unfold PolyStack_isEmpty;
    rewrite (so_num _ _ (g_stack _ _ Hg)).
  { exists st. split; [done|]. split; [done|]. by rewrite app_nil_r. }
  rewrite alen_cons. pose proof (alen_nonneg cs). rewrite (proj2 (Z.eqb_neq _ 0)) by lia. cbn [negb].
  destruct (pop_ok _ _ _ (g_stack _ _ Hg)) as (ps & -> & Hps). mred.
  destruct (IH (st_set_out (st_out st ++ [c]) (st_set_reverse ps st))) as (st' & E & G & O & M); [by destruct Hg|].
  exists st'. split; [exact E|]. split; [done|]. rewrite O. cbn. rewrite <- app_assoc. split; [done|exact M].
Qed.

Lemma cap_draws x y mx my x' y' x'' y'' : draws 0 (fun st =>
  if capStyle st =? CAP_ROUND then drawRoundCap x y mx my st
  else if capStyle st =? CAP_SQUARE then st ← emitLineTo x' y' false st; emitLineTo x'' y'' false st
  else Some st).
Proof.
  apply draws_at. intros st. destruct (capStyle st =? CAP_ROUND); [|destruct (capStyle st =? CAP_SQUARE)].
  - eexists. split; [reflexivity|apply drawRoundCap_draws].
  - exists (fun st => st ← emitLineTo x' y' false st; emitLineTo x'' y'' false st). split; [done|].
    apply (draws_bind 0 0); try lia; apply (emitLineTo_draws _ _ false).
  - eexists. split; [reflexivity|apply draws_some].
Qed.

Lemma finish_spec st cs : good st cs -> used st <= stack_limit ->
  exists st' l, finish st = Some st' /\ good st' [] /\ segments l /\ st_out st' = st_out st ++ l ++ [ClosePath] /\ used st' = 0 /\
    same_subpath st st'.
Proof.
  intros Hg Hu. unfold finish. set (c := st_cur st).
  destruct (cap_draws (e_x c) (e_y c) (e_mx c) (e_my c) (e_x c - e_my c + e_mx c)%jf (e_y c + e_mx c + e_my c)%jf
    (e_x c - e_my c - e_mx c)%jf (e_y c + e_mx c - e_my c)%jf st cs Hg ltac:(lia)) as (st1 & l1 & r1 & E1 & G1 & S1 & O1 & U1 & M1).
  cbv beta in E1. rewrite E1. mred. clear E1.
  destruct (emitReverse_spec st1 _ G1) as (st2 & -> & G2 & O2 & M2). mred.
  assert (U2 : used st2 = 0) by (apply (so_end _ _ (g_stack _ _ G2))).
  set (s := st_start st2).
  destruct (cap_draws (e_x s) (e_y s) (- e_mx s)%jf (- e_my s)%jf (e_x s + e_my s - e_mx s)%jf (e_y s - e_mx s - e_my s)%jf
    (e_x s + e_my s + e_mx s)%jf (e_y s - e_mx s + e_my s)%jf st2 [] G2 ltac:(unfold stack_limit; lia))
    as (st3 & l3 & r3 & E3 & G3 & S3 & O3 & U3 & M3). cbv beta in E3. rewrite E3. mred. clear E3.
  assert (Hr3 : r3 = []).
  { pose proof (stack_size _ _ (g_stack _ _ G3)) as Hsz. rewrite (so_num _ _ (g_stack _ _ G3)), app_nil_r in Hsz. unfold used in *.
    destruct r3; [done|]. rewrite alen_cons in Hsz. pose proof (alen_nonneg r3). lia. }
  subst r3. exists (say ClosePath st3), (l1 ++ (r1 ++ cs) ++ l3). split; [done|]. split; [by apply good_out|].
  split; [apply segments_app; [done|]; apply segments_app; [apply (so_segments _ _ (g_stack _ _ G1))|done]|].
  split; [cbn; rewrite O3, O2, O1, <- !app_assoc; done|].
  split; [apply (so_end _ _ (g_stack _ _ G3))|]. etrans; [exact M1|]. etrans; [exact M2|exact M3].
Qed.

(** ** Outlines *)

(** The same number, up to the sign of zero. *)
Definition same (a b : jfloat) : Prop := a = b \/ (exists s s', a = S754_zero s /\ b = S754_zero s').

Lemma same_feq a b : feq a b = true -> same a b.
Proof.
  unfold feq, SFeqb. destruct a as [s|s| |s m e], b as [s'|s'| |s' m' e']; cbn; try done; try (by destruct s); try (by destruct s').
  - intros _. right. eauto.
  - destruct s, s'; try done; by left.
  - destruct s, s'; try done; destruct (Z.compare_spec e e') as [-> | |]; try done; cbn;
      change (Pos.compare_cont Eq m m') with (m ?= m')%positive; destruct (Pos.compare_spec m m') as [-> | |]; try done; by left.
Qed.

Lemma same_add a b m : same a b -> same (a + m)%jf (b + m)%jf.
Proof.
  intros [-> | (s & s' & -> & ->)]; [by left|]. destruct m as [t|t| |t k e]; try (by left). right. destruct s, s', t; cbn; eauto.
Qed.

(** The outline of a subpath: one contour, or two if it is closed, the first of which
    comes back to where it starts. *)
Definition outline (closed : bool) (o : list call) : Prop :=
  if closed then
    exists x y l x' y' u v r, o = MoveTo x y :: l ++ LineTo x' y' :: MoveTo u v :: r ++ [ClosePath] /\ segments l /\ segments r /\
      same x x' /\ same y y'
  else exists x y l, o = MoveTo x y :: l ++ [ClosePath] /\ segments l.

Definition outlines (o : list call) (kinds : list bool) : Prop := exists outs, o = concat outs /\ Forall2 outline kinds outs.

Lemma outlines_snoc o ks k p : outlines o ks -> outline k p -> outlines (o ++ p) (ks ++ [k]).
Proof.
  intros (outs & -> & H) Hp. exists (outs ++ [p]). rewrite concat_app. cbn. rewrite app_nil_r. split; [done|]. by apply Forall2_app; [|constructor].
Qed.

(** Between subpaths: the output is complete and the current point is the start. *)
Definition idle (o : list call) (st : Stroker) (ks : list bool) : Prop :=
  st_prev st <> DRAWING_OP_TO /\ good st [] /\ same (e_x (st_cur st)) (e_x (st_start st)) /\ same (e_y (st_cur st)) (e_y (st_start st)) /\
  outlines o ks.

(** Inside a subpath: its outline has been started on the left side. *)
Definition drawing (o : list call) (st : Stroker) (ks : list bool) : Prop :=
  st_prev st = DRAWING_OP_TO /\ exists p x y l cs, o = p ++ MoveTo x y :: l /\ segments l /\ outlines p ks /\ good st cs /\
    same x (e_x (st_start st) + e_mx (st_start st))%jf /\ same y (e_y (st_start st) + e_my (st_start st))%jf.

(** [f] leads from [st] into a subpath. *)
Definition leads_to (n : Z) (f : Stroker -> option Stroker) (o : list call) (st : Stroker) (ks : list bool) : Prop :=
  exists st' l, f st = Some st' /\ st_out st' = st_out st ++ l /\ drawing (o ++ l) st' ks /\ used st' <= used st + n /\
    lineWidth2 st' = lineWidth2 st /\ st_cur st' = st_cur st /\ e_x (st_start st') = e_x (st_start st) /\ e_y (st_start st') = e_y (st_start st).

Lemma drawing_draws n f o st ks : draws n f -> drawing o st ks -> used st + n <= stack_limit -> leads_to n f o st ks.
Proof.
  intros Hf (Hp & p & x & y & l & cs & -> & Hl & Ho & Hg & Hx & Hy) Hu.
  destruct (Hf st cs Hg Hu) as (st' & l' & r & E & G & S & O & U & (M1 & M2 & M3 & M4 & M5 & M6 & M7)).
  exists st', l'. rewrite M3, M6, M7. split; [done|]. split; [done|]. split; [|repeat (split; [done|]); done].
  split; [congruence|]. exists p, x, y, (l ++ l'), (r ++ cs). rewrite M6. split; [by rewrite <- app_assoc|].
  split; [by apply segments_app|]. done.
Qed.

(** Steps in a subpath one after the other. *)
Lemma leads_bind n m f h o st ks : leads_to n f o st ks ->
  (forall st' o', drawing o' st' ks -> used st' <= used st + n -> lineWidth2 st' = lineWidth2 st -> st_cur st' = st_cur st ->
    leads_to m h o' st' ks) ->
  leads_to (n + m) (fun st => st ← f st; h st) o st ks.
Proof.
  intros (st1 & l1 & E1 & O1 & D1 & U1 & W1 & C1 & X1 & Y1) Hh. destruct (Hh st1 (o ++ l1) D1 U1 W1 C1) as (st2 & l2 & E2 & O2 & D2 & U2 & W2 & C2 & X2 & Y2).
  exists st2, (l1 ++ l2). rewrite E1. mred. rewrite !app_assoc. split; [done|]. split; [by rewrite O2, O1|]. split; [done|].
  split; [lia|]. repeat split; congruence.
Qed.

Definition at_subpath (o : list call) (st : Stroker) (ks : list bool) : Prop := drawing o st ks \/ idle o st ks.

(** The join at the current point continues the subpath or starts one. *)
Lemma drawJoin_leads pdx pdy dx dy omx omy mx my o st ks : at_subpath o st ks -> used st + 14 <= stack_limit ->
  leads_to 14 (drawJoin pdx pdy (e_x (st_cur st)) (e_y (st_cur st)) dx dy omx omy mx my) o st ks.
Proof.
  intros [Hd|(Hp & Hg & Hx & Hy & Ho)] Hu.
  - destruct Hd as (Hp & p & x & y & l & cs & -> & Hl & Ho & Hg & Hx & Hy).
    destruct (drawJoin_continues pdx pdy (e_x (st_cur st)) (e_y (st_cur st)) dx dy omx omy mx my st cs Hp Hg Hu)
      as (st' & l' & r & E & G & S & O & U & (M1 & M2 & M3 & M4 & M5 & M6 & M7)).
    exists st', l'. rewrite M3, M6, M7. split; [done|]. split; [done|]. split; [|repeat (split; [done|]); done].
    split; [congruence|]. exists p, x, y, (l ++ l'), (r ++ cs). rewrite M6. split; [by rewrite <- app_assoc|].
    split; [by apply segments_app|]. done.
  - eexists _, [_]. split; [by apply drawJoin_starts|]. cbn. split; [done|]. split; [|unfold used; cbn; repeat split; lia].
    split; [done|]. exists o, (e_x (st_cur st) + mx)%jf, (e_y (st_cur st) + my)%jf, [], []. cbn. split; [done|]. split; [constructor|].
    split; [done|]. split; [by destruct Hg|]. split; by apply same_add.
Qed.

Lemma drawing_at o st ks c : drawing o st ks -> drawing o (st_set_prev DRAWING_OP_TO (st_set_cur c st)) ks.
Proof.
  intros (Hp & p & x & y & l & cs & Eo & Hl & Ho & Hg & Hx & Hy). split; [done|]. exists p, x, y, l, cs. cbn.
  destruct Hg. repeat (split; [done|]). done.
Qed.

(** Both sides of a line. *)
Lemma line_sides_draws a b c d e f g h :
  draws 4 (fun st => st ← emitLineTo a b false st; st ← emitLineTo c d false st; st ← emitLineTo e f true st; emitLineTo g h true st).
Proof.
  apply (draws_bind 0 4); try lia; [apply (emitLineTo_draws _ _ false)|]. apply (draws_bind 0 4); try lia; [apply (emitLineTo_draws _ _ false)|].
  apply (draws_bind 2 2); try lia; apply (emitLineTo_draws _ _ true).
Qed.

Lemma lineTo_leads x1 y1 o st ks : at_subpath o st ks -> used st + 18 <= stack_limit ->
  exists st' l, Stroker_lineTo x1 y1 st = Some st' /\ st_out st' = st_out st ++ l /\ drawing (o ++ l) st' ks /\ used st' <= used st + 18 /\
    e_x (st_cur st') = x1 /\ e_y (st_cur st') = y1 /\ e_x (st_start st') = e_x (st_start st) /\ e_y (st_start st') = e_y (st_start st).
Proof.
  intros Ha Hu. unfold Stroker_lineTo. cbv zeta. set (c := st_cur st). set (dx := if is_zero _ _ then _ else _).
  destruct (computeOffset _ _ _) as [mx my].
  destruct (leads_bind 14 4 (drawJoin (e_dx c) (e_dy c) (e_x c) (e_y c) dx (y1 - e_y c)%jf (e_mx c) (e_my c) mx my)
    (fun st => st ← emitLineTo (e_x c + mx)%jf (e_y c + my)%jf false st; st ← emitLineTo (x1 + mx)%jf (y1 + my)%jf false st;
               st ← emitLineTo (e_x c - mx)%jf (e_y c - my)%jf true st; emitLineTo (x1 - mx)%jf (y1 - my)%jf true st) o st ks)
    as (st' & l & E & O & D & U & W & C & X & Y).
  - apply drawJoin_leads; [done|lia].
  - intros st' o' Hd Hu' _ _. apply drawing_draws; [apply line_sides_draws|done|lia].
  - exists (st_set_prev DRAWING_OP_TO (st_set_cur (mkEnd x1 y1 dx (y1 - e_y c)%jf mx my) st')), l. split.
    { cbv beta in E. apply bind_Some in E as (st1 & -> & E). mred. apply bind_Some in E as (st2 & -> & E). mred.
      apply bind_Some in E as (st3 & -> & E). mred. apply bind_Some in E as (st4 & -> & E). mred. rewrite E. by mred. }
    split; [done|]. split; [by apply drawing_at|]. split; [exact U|]. done.
Qed.

Lemma finish_leads o st ks : drawing o st ks -> used st <= stack_limit ->
  exists st' l, finish st = Some st' /\ st_out st' = st_out st ++ l /\ good st' [] /\ outlines (o ++ l) (ks ++ [false]) /\ used st' = 0 /\
    same_subpath st st'.
Proof.
  intros (Hp & p & x & y & l & cs & -> & Hl & Ho & Hg & Hx & Hy) Hu.
  destruct (finish_spec st cs Hg Hu) as (st' & l' & E & G & S & O & U & M).
  exists st', (l' ++ [ClosePath]). repeat (split; [done|]). split; [|done]. rewrite <- app_assoc. apply outlines_snoc; [done|].
  exists x, y, (l ++ l'). split; [cbn; by rewrite <- app_assoc|by apply segments_app].
Qed.

Lemma used_nonneg st cs : good st cs -> 0 <= used st.
Proof. unfold used. intros [[_ _ -> _ _ _] _ _]. apply alen_nonneg. Qed.

Lemma drawing_used o st ks : drawing o st ks -> 0 <= used st.
Proof. intros (_ & _ & _ & _ & _ & cs & _ & _ & _ & Hg & _). by eapply used_nonneg. Qed.

(** A move ends an open subpath. *)
Lemma moveTo_leads x0 y0 o st ks : at_subpath o st ks -> used st <= stack_limit ->
  exists st' l, Stroker_moveTo x0 y0 st = Some st' /\ st_out st' = st_out st ++ l /\ st_prev st' = MOVE_TO /\ used st' <= used st /\
    idle (o ++ l) st' (ks ++ (if st_prev st =? DRAWING_OP_TO then [false] else [])).
Proof.
  intros [Hd|(Hp & Hg & _ & _ & Ho)] Hu; unfold Stroker_moveTo.
  - pose proof Hd as [Hp _]. rewrite Hp, Z.eqb_refl. pose proof (drawing_used _ _ _ Hd).
    destruct (finish_leads o st ks Hd Hu) as (st' & l & -> & O & G & Ho & U & M). mred. eexists _, l. split; [done|]. split; [done|].
    split; [done|]. split; [unfold used in *; cbn; lia|]. unfold idle. cbn. split; [done|]. split; [by destruct G|]. split; [by left|]. split; [by left|done].
  - rewrite (proj2 (Z.eqb_neq _ _) Hp). mred. eexists _, []. rewrite !app_nil_r. split; [done|]. split; [done|]. split; [done|].
    split; [unfold used; cbn; lia|]. unfold idle. cbn. split; [done|]. split; [by destruct Hg|]. split; [by left|]. split; [by left|done].
Qed.

Lemma pathDone_leads o st ks : at_subpath o st ks -> used st <= stack_limit ->
  exists st' l, Stroker_pathDone st = Some st' /\ st_out st' = st_out st ++ l ++ [PathDone] /\ good st' [] /\
    outlines (o ++ l) (ks ++ (if st_prev st =? DRAWING_OP_TO then [false] else [])).
Proof.
  intros [Hd|(Hp & Hg & _ & _ & Ho)] Hu; unfold Stroker_pathDone.
  - pose proof Hd as [Hp _]. rewrite Hp, Z.eqb_refl.
    destruct (finish_leads o st ks Hd Hu) as (st' & l & -> & O & G & Ho & U & M). mred. eexists _, l. split; [done|].
    split; [cbn; by rewrite O, app_assoc|]. split; [by destruct G|done].
  - rewrite (proj2 (Z.eqb_neq _ _) Hp). mred. eexists _, []. rewrite !app_nil_r. split; [done|]. split; [done|]. split; [by destruct Hg|done].
Qed.

(** A closed subpath ends with the second contour; a subpath of one point is a dot. *)
Lemma closePath_idle o st ks : idle o st ks -> used st <= stack_limit ->
  exists st' l, Stroker_closePath st = Some st' /\ st_out st' = st_out st ++ l /\ st_prev st' = st_prev st /\ used st' <= used st /\
    idle (o ++ l) st' (ks ++ (if st_prev st =? CLOSE then [] else [false])).
Proof.
  intros (Hp & Hg & Hx & Hy & Ho) Hu. unfold Stroker_closePath. rewrite (proj2 (Z.eqb_neq _ _) Hp). cbn [negb].
  destruct (st_prev st =? CLOSE).
  { exists st, []. rewrite !app_nil_r. split; [done|]. split; [done|]. split; [done|]. split; [lia|]. done. }
  unfold emitMoveTo. mred. set (x := e_x (st_cur st)). set (y := (e_y (st_cur st) - lineWidth2 st)%jf). cbn [say st_set_out st_cur st_start].
  match goal with |- context [finish ?s] => set (st1 := s) end.
  assert (G1 : good st1 []) by (by destruct Hg).
  destruct (finish_spec st1 [] G1 Hu) as (st' & l & -> & G & S & O & U & (M1 & M2 & M3 & M4 & M5 & M6 & M7)).
  exists st', (MoveTo x y :: l ++ [ClosePath]). split; [done|]. split; [rewrite O; cbn; rewrite <- app_assoc; done|].
  split; [by rewrite M5|]. split; [pose proof (used_nonneg _ _ Hg); lia|]. unfold idle. rewrite M5, M6, M7. split; [done|]. split; [done|].
  split; [done|]. split; [done|]. apply outlines_snoc; [done|]. by exists x, y, l.
Qed.

Lemma closePath_drawing o st ks : drawing o st ks -> used st + 32 <= stack_limit ->
  exists st' l, Stroker_closePath st = Some st' /\ st_out st' = st_out st ++ l /\ st_prev st' = CLOSE /\ used st' <= used st /\
    idle (o ++ l) st' (ks ++ [true]).
Proof.
  intros Hd Hu. pose proof Hd as [Hp _]. pose proof (drawing_used _ _ _ Hd) as Hnn. unfold Stroker_closePath. rewrite Hp, Z.eqb_refl. cbn [negb].
  assert (H1 : exists st1 l1, (if negb (feq (e_x (st_cur st)) (e_x (st_start st))) || negb (feq (e_y (st_cur st)) (e_y (st_start st))) then
      Stroker_lineTo (e_x (st_start st)) (e_y (st_start st)) st else Some st) = Some st1 /\ st_out st1 = st_out st ++ l1 /\
      drawing (o ++ l1) st1 ks /\ used st1 <= used st + 18 /\ same (e_x (st_cur st1)) (e_x (st_start st1)) /\ same (e_y (st_cur st1)) (e_y (st_start st1))).
  { destruct (feq (e_x (st_cur st)) (e_x (st_start st))) eqn:Ex, (feq (e_y (st_cur st)) (e_y (st_start st))) eqn:Ey; cbn [negb orb];
      [exists st, []; rewrite !app_nil_r; split; [done|]; split; [done|]; split; [done|]; split; [lia|]; split; by apply same_feq|..];
      (destruct (lineTo_leads (e_x (st_start st)) (e_y (st_start st)) o st ks (or_introl Hd) ltac:(lia)) as (st1 & l1 & E & O & D & U & X & Y & X' & Y');
       exists st1, l1; rewrite X, Y, X', Y'; repeat (split; [done|]); split; by left). }
  destruct H1 as (st1 & l1 & -> & O1 & D1 & U1 & X1 & Y1). mred. set (c := st_cur st1). set (s := st_start st1).
  destruct (drawJoin_leads (e_dx c) (e_dy c) (e_dx s) (e_dy s) (e_mx c) (e_my c) (e_mx s) (e_my s) (o ++ l1) st1 ks (or_introl D1) ltac:(lia))
    as (st2 & l2 & E2 & O2 & D2 & U2 & W2 & C2 & X2 & Y2). fold c in E2. rewrite E2. mred. clear E2.
  destruct D2 as (Hp2 & p & x & y & l & cs & Eo & Hl & Ho & Hg & Hx & Hy). unfold emitLineTo, emitMoveTo. mred.
  set (s2 := st_start st2) in *. match goal with |- context [emitReverse ?st0] => set (st3 := st0) end.
  destruct (emitReverse_spec st3 cs ltac:(by destruct Hg)) as (st4 & -> & G4 & O4 & (M1 & M2 & M3 & M4 & M5 & M6 & M7)). mred.
  unfold emitClose. eexists _, (l1 ++ l2 ++ [LineTo _ _; MoveTo _ _] ++ cs ++ [ClosePath]). split; [done|].
  split; [cbn; rewrite O4; cbn; rewrite O2, O1, <- !app_assoc; done|]. split; [done|].
  assert (U4 : used st4 = 0) by (apply (so_end _ _ (g_stack _ _ G4))). split; [change (used st4 <= used st); lia|].
  unfold idle. cbn. rewrite M6, M7. cbn. rewrite C2. fold c. split; [done|]. split; [by destruct G4|]. fold s2. split; [by rewrite X2|]. split; [by rewrite Y2|].
  rewrite !app_assoc in *. rewrite Eo. rewrite <- !app_assoc. apply outlines_snoc; [done|].
  exists x, y, l. eexists _, _, _, _, cs. split; [reflexivity|].
  split; [done|]. split; [apply (so_segments _ _ (g_stack _ _ Hg))|]. done.
Qed.
