(* ===== verification/PrismOutlines.v ===== *)
(** * Curves and whole paths in the stroker

    The points where a curve is subdivided are at most ten, in order and inside the
    curve ([findSubdivPoints_spec]); the parts fit the arrays; so every curve is drawn
    and every path becomes a sequence of outlines ([stroker_outlines]). *)

From Stdlib Require Import SpecFloat Sorted.
From S2P Require Import Prelude.
From S2P Require Import Float32.
From S2P Require Import PrismRenderer.
From S2P Require Import PrismRasterizer.
From S2P Require Import PrismEdges.
From S2P Require Import PrismScan.
From S2P Require Import PrismHelpers.
From S2P Require Import PrismHelpersSpec.
From S2P Require Import PrismCalls.
From S2P Require Import PrismStroker.
From S2P Require Import PrismStrokerSpec.

(** ** Subdivision points *)

Lemma Curve_set_ok pts type c : 8 <= alen pts -> exists c', Curve_set pts type c = Some c'.
Proof. intros Hl. unfold Curve_set. destruct (type =? 8); [steps; eauto|]. destruct (type =? 6); [steps; eauto|]. eauto. Qed.

Lemma rotated_curve_ok pts type : 8 <= alen pts -> exists c, rotated_curve pts type = Some c.
Proof.
  intros Hl. unfold rotated_curve. steps. cbv zeta.
  match goal with |- context [if ?b then _ else _] => destruct b end; [|by apply Curve_set_ok].
  destruct (type =? 8); [eauto|]. destruct (type =? 6); eauto.
Qed.

Ltac step_found H :=
  let k := fresh "k" in let m := fresh "m" in let Hk := fresh "Hk" in let Hm := fresh "Hm" in
  let E := fresh "E" in destruct H as (k & m & E & Hk & Hm); [lia|lia|rewrite E; clear E; mred].

Lemma in_AB_number a b v : in_AB a b v = true -> isnan v = false.
Proof. unfold in_AB, isnan, fle, feq, SFleb, SFeqb. destruct a as [[]|[]| |[] m0 e0], v as [[]|[]| |[] m e]; cbn; try done;
  intros _; rewrite Z.compare_refl; change (Pos.compare_cont Eq m m) with (m ?= m)%positive; by rewrite Pos.compare_refl. Qed.

Definition ascending_params (l : list jfloat) : Prop := Sorted (fun a b => fle a b = true) l.

Lemma sorted_numbers l : Sorted not_greater l -> Forall (fun v => isnan v = false) l -> ascending_params l.
Proof.
  unfold ascending_params. induction 1 as [|x l Hs IH Hx]; intros Hn; [constructor|]. apply Forall_cons_1 in Hn as [Hn1 Hn2].
  constructor; [by apply IH|]. destruct Hx as [|y l Hxy]; constructor. apply Forall_cons_1 in Hn2 as [Hn3 _]. by apply not_greater_fle.
Qed.

Lemma findSubdivPoints_ok pf pts ts type w : 8 <= alen pts -> alen ts = MAX_N_CURVES - 1 ->
  exists n ts', findSubdivPoints pf pts ts type w = Some (n, ts') /\ 0 <= n <= MAX_N_CURVES - 1 /\ alen ts' = MAX_N_CURVES - 1 /\
    ascending_params (take (Z.to_nat n) ts') /\
    Forall (fun t => fle SPLIT_MIN t = true /\ flt t SPLIT_MAX = true) (take (Z.to_nat n) ts').
Proof.
  intros Hp Ht. unfold MAX_N_CURVES in *. unfold findSubdivPoints. destruct (rotated_curve_ok pts type Hp) as [c ->]. mred.
  unfold Curve_dxRoots, Curve_dyRoots, Curve_infPoints. cbv zeta.
  step_found (quadraticRoots_found (c_dax c) (c_dbx c) (c_cx c) ts 0).
  step_found (quadraticRoots_found (c_day c) (c_dby c) (c_cy c) m k).
  assert (Hinf : exists n z, (if type =? 8 then Helpers_quadraticRoots (c_dax c * c_dby c - c_dbx c * c_day c)%jf
      (two * (c_cy c * c_dax c - c_day c * c_cx c))%jf (c_cy c * c_dbx c - c_cx c * c_dby c)%jf m0 (k + k0) else Some (0, m0)) = Some (n, z) /\
      0 <= n <= 2 /\ alen z = 10).
  { destruct (type =? 8); [|exists 0, m0; split; [done|lia]].
    destruct (quadraticRoots_found (c_dax c * c_dby c - c_dbx c * c_day c)%jf (two * (c_cy c * c_dax c - c_day c * c_cx c))%jf
      (c_cy c * c_dbx c - c_cx c * c_dby c)%jf m0 (k + k0)) as (n & z & -> & Hn & Hz); [lia|lia|]. exists n, z. split; [done|lia]. }
  destruct Hinf as (n & z & -> & Hn & Hz). mred.
  step_found (rootsOfROC_found pf c z (k + k0 + n) w SPLIT_MIN).
  set (len := k + k0 + n + k1). destruct (region m1 0 len) as (pre & mid & post & -> & Hpre & Hmid); [lia|lia|lia|].
  destruct pre; [|rewrite alen_cons in Hpre; pose proof (alen_nonneg pre); lia]. cbn [app] in *.
  destruct (filter_spec SPLIT_MIN SPLIT_MAX [] mid post) as (junk & E & Hl). cbn [app] in E. change (alen []) with 0 in E. rewrite Hmid in E.
  rewrite E. mred. set (keep := filter (fun v => in_AB SPLIT_MIN SPLIT_MAX v = true) mid) in *.
  destruct (isort_spec [] keep (junk ++ post)) as (sorted & Es & Hperm & Hs). cbn [app] in Es. change (alen []) with 0 in Es.
  rewrite Z.add_0_l, Es. mred. pose proof (alen_nonneg keep). pose proof (alen_nonneg junk).
  assert (Hls : alen sorted = alen keep) by (unfold alen; by rewrite Hperm).
  assert (Hin : Forall (fun v => in_AB SPLIT_MIN SPLIT_MAX v = true) sorted).
  { rewrite Hperm. apply Forall_forall. intros v Hv%list_elem_of_In. unfold keep in Hv. by apply list_elem_of_filter in Hv as [Hv _]. }
  exists (alen keep), (sorted ++ junk ++ post). split; [done|]. split; [lia|].
  split; [autorewrite with alen in *; lia|]. replace (Z.to_nat (alen keep)) with (length sorted) by (rewrite <- Hls; unfold alen; lia).
  rewrite take_app_length. split.
  - apply sorted_numbers; [done|]. eapply Forall_impl; [|exact Hin]. intros v Hv. exact (in_AB_number _ _ _ Hv).
  - eapply Forall_impl; [|exact Hin]. intros v Hv. by apply andb_true_iff in Hv.
Qed.

(** C33: the subdivision points of a curve.  Whatever the curve and the width, the search
    stays inside the array of ten entries and returns: the points are in ascending order
    and lie inside the curve, away from both ends. *)
Theorem findSubdivPoints_spec pf pts ts type w : 8 <= alen pts -> alen ts = MAX_N_CURVES - 1 ->
  exists n ts', findSubdivPoints pf pts ts type w = Some (n, ts') /\ 0 <= n <= MAX_N_CURVES - 1 /\ alen ts' = MAX_N_CURVES - 1 /\
    ascending_params (take (Z.to_nat n) ts') /\
    Forall (fun t => fle SPLIT_MIN t = true /\ flt t SPLIT_MAX = true) (take (Z.to_nat n) ts').
Proof. apply findSubdivPoints_ok. Qed.

(** ** Offset curves *)

(** Curves of [kind] coordinates on both sides. *)
Definition offsets_ok (kind : Z) (lp rp : list jfloat) : Prop := (kind = 4 \/ kind = 6 \/ kind = 8) /\ alen lp = kind /\ alen rp = kind.

Lemma getLineOffsets_ok w x1 y1 x2 y2 l r : getLineOffsets w x1 y1 x2 y2 = (l, r) -> offsets_ok 4 l r.
Proof. unfold getLineOffsets. destruct (computeOffset _ _ _) as [m0 m1]. intros [= <- <-]. by split; [left|]. Qed.

Lemma computeOffsetCubic_ok pf w pts off : 0 <= off -> off + 8 <= alen pts ->
  exists kind l r, computeOffsetCubic pf w pts off = Some (kind, l, r) /\ offsets_ok kind l r.
Proof.
  intros Ho Hl. unfold computeOffsetCubic. steps. cbv zeta.
  destruct (getLineOffsets _ _ _ _ _) as [l r] eqn:El. apply getLineOffsets_ok in El.
  match goal with |- context [if ?b then _ else _] => destruct b end; [eauto|].
  destruct (if withinULP _ _ _ _ _ _ then _ else _) as [dx1 dy1]. destruct (if negb _ && _ then _ else _) as [dx4 dy4].
  destruct (Helpers_withinULP _ _ _ _); [eauto|]. do 3 destruct (computeOffset _ _ _). eexists _, _, _. split; [done|].
  by split; [right; right|].
Qed.

Lemma computeOffsetQuad_ok pf w pts off : 0 <= off -> off + 6 <= alen pts ->
  exists kind l r, computeOffsetQuad pf w pts off = Some (kind, l, r) /\ offsets_ok kind l r.
Proof.
  intros Ho Hl. unfold computeOffsetQuad. steps. cbv zeta.
  destruct (getLineOffsets _ _ _ _ _) as [l r] eqn:El. apply getLineOffsets_ok in El.
  match goal with |- context [if ?b then _ else _] => destruct b end; [eauto|].
  destruct (Helpers_withinULP _ _ _ _); [eauto|]. do 2 destruct (computeOffset _ _ _). do 2 destruct (safecomputeMiter _ _ _ _ _ _ _ _).
  eexists _, _, _. split; [done|]. by split; [right; left|].
Qed.

Lemma emit_offsets_draws kind lp rp : offsets_ok kind lp rp -> draws 8 (emit_offsets kind lp rp).
Proof.
  intros (Hk & Hl & Hr).
  assert (Hll : forall x y, draws 0 (emitLineTo x y false)) by (intros; apply (emitLineTo_draws _ _ false)).
  assert (Hlr : forall x y, draws 2 (emitLineTo x y true)) by (intros; apply (emitLineTo_draws _ _ true)).
  unfold emit_offsets. destruct Hk as [-> | [-> | ->]]; cbn [Z.eqb Pos.eqb].
  - steps. apply (draws_bind 0 8); try lia; [apply Hll|]. apply (draws_bind 6 2); try lia; [|apply Hlr].
    apply (draws_bind 0 6); try lia; [apply Hll|]. eapply draws_le; [|apply Hlr]. lia.
  - steps. apply (draws_bind 0 8); try lia; [apply Hll|]. apply (draws_bind 6 2); try lia; [|apply Hlr].
    apply (draws_bind 0 6); try lia; [apply (emitQuadTo_draws _ _ _ _ _ _ false)|].
    eapply draws_le; [|apply (emitQuadTo_draws _ _ _ _ _ _ true)]. lia.
  - steps. apply (draws_bind 0 8); try lia; [apply Hll|]. apply (draws_bind 6 2); try lia; [|apply Hlr].
    apply (draws_bind 0 6); try lia; [apply (emitCurveTo_draws _ _ _ _ _ _ _ _ false)|apply (emitCurveTo_draws _ _ _ _ _ _ _ _ true)].
Qed.

(** ** Curves *)

(** The parts of a curve of [type] coordinates fit into [middle]. *)
Lemma split_middle_ok type n ts middle : type = 6 \/ type = 8 -> 0 <= n <= MAX_N_CURVES - 1 -> alen ts = MAX_N_CURVES - 1 ->
  alen middle = MAX_N_CURVES * 8 -> exists middle', split_middle type n ts middle = Some middle' /\ alen middle' = MAX_N_CURVES * 8.
Proof.
  unfold MAX_N_CURVES. intros Hty Hn Ht Hm. unfold split_middle.
  match goal with |- context [for_lt n ?body ?s0] =>
    destruct (for_lt_inv (fun _ (s : jfloat * list jfloat) => alen s.2 = 88) n body s0) as ([t m] & -> & Hm') end; [done| |by mred; eauto].
  intros i [t m] Hi Hl. cbn [snd] in Hl. step_aget.
  match goal with |- context [Helpers_subdivideAt ?t ?a ?b (Some ?c) ?d (Some ?e) ?f ?g ?mem] =>
    destruct (subdivideAt_ok t g a b c d e f mem) as (mem' & -> & Hs) end.
  { assert (Hroom : forall off, 0 <= off -> off + type <= 88 -> has_room [m] 0 off type) by (intros off ? ?; exists 88; unfold shape; cbn; rewrite Hl; done).
    split; [done|]. repeat split; apply Hroom; lia. }
  mred. destruct (proj1 (shape_aget mem' 0 88)) as (m' & -> & Hl'); [rewrite Hs; unfold shape; cbn; by rewrite Hl|].
  mred. by eexists.
Qed.

(** The parts are drawn one after the other. *)
Lemma parts_lead pf type w middle nSplits o st ks : type = 6 \/ type = 8 -> alen middle = MAX_N_CURVES * 8 -> 0 <= nSplits <= MAX_N_CURVES - 1 ->
  drawing o st ks -> used st + 88 <= stack_limit ->
  exists kind lp rp st' l, for_lt (nSplits + 1) (fun i '(_, _, _, st) =>
      '(kind, lp, rp) ← (if type =? 8 then computeOffsetCubic pf w middle (i * (type - 2))
                         else computeOffsetQuad pf w middle (i * (type - 2)));
      st ← emit_offsets kind lp rp st;
      Some (kind, lp, rp, st)) (0, [], [], st) = Some (kind, lp, rp, st') /\ offsets_ok kind lp rp /\
    st_out st' = st_out st ++ l /\ drawing (o ++ l) st' ks /\ used st' <= used st + 88.
Proof.
  unfold MAX_N_CURVES. intros Hty Hm Hn Hd Hu.
  match goal with |- context [for_lt (nSplits + 1) ?body ?s0] =>
    destruct (for_lt_inv (fun i (s : Z * list jfloat * list jfloat * Stroker) => let '(kind, lp, rp, st1) := s in
      (0 < i -> offsets_ok kind lp rp) /\ exists l, st_out st1 = st_out st ++ l /\ drawing (o ++ l) st1 ks /\ used st1 <= used st + 8 * i)
      (nSplits + 1) body s0) as ([[[kind lp] rp] st'] & -> & Hk & l & Ho & Hd' & Hu') end.
  - split; [lia|]. exists []. rewrite !app_nil_r. split; [done|]. split; [done|lia].
  - intros i [[[kind lp] rp] st1] Hi (_ & l & Ho & Hd1 & Hu1).
    assert (Hoff : exists kind lp rp, (if type =? 8 then computeOffsetCubic pf w middle (i * (type - 2)) else computeOffsetQuad pf w middle (i * (type - 2)))
      = Some (kind, lp, rp) /\ offsets_ok kind lp rp).
    { destruct Hty as [-> | ->]; cbn [Z.eqb Pos.eqb]; [apply computeOffsetQuad_ok|apply computeOffsetCubic_ok]; lia. }
    destruct Hoff as (kind' & lp' & rp' & -> & Hok). mred.
    destruct (drawing_draws 8 _ _ _ _ (emit_offsets_draws kind' lp' rp' Hok) Hd1 ltac:(lia)) as (st2 & l2 & -> & O2 & D2 & U2 & _). mred.
    eexists. split; [done|]. split; [done|]. exists (l ++ l2). rewrite !app_assoc. split; [by rewrite O2, Ho|]. split; [done|lia].
  - exists kind, lp, rp, st', l. split; [done|]. split; [apply Hk; lia|]. split; [done|]. split; [done|]. lia.
Qed.

Lemma drawing_scratch o st ks m ts : alen m = MAX_N_CURVES * 8 -> alen ts = MAX_N_CURVES - 1 -> drawing o st ks -> drawing o (st_set_scratch m ts st) ks.
Proof.
  intros Hm Ht (Hp & p & x & y & l & cs & Eo & Hl & Ho & Hg & Hx & Hy). split; [done|]. exists p, x, y, l, cs. cbn.
  destruct Hg. repeat (split; [done|]). done.
Qed.

Lemma subpath_scratch o st ks m : alen m = MAX_N_CURVES * 8 -> at_subpath o st ks -> at_subpath o (st_set_scratch m (st_subdivTs st) st) ks.
Proof.
  intros Hm [Hd|(Hp & Hg & Hr)]; [left|right].
  - apply drawing_scratch; [done| |done]. by destruct Hd as (_ & ? & ? & ? & ? & ? & _ & _ & _ & [] & _).
  - destruct Hg. done.
Qed.

Definition curve_leads (f : Stroker -> option Stroker) (o : list call) (st : Stroker) (ks : list bool) : Prop :=
  exists st' l, f st = Some st' /\ st_out st' = st_out st ++ l /\ drawing (o ++ l) st' ks /\ used st' <= used st + 102.

Lemma stroke_curve_leads pf type dxs dys dxf dyf xf yf o st ks : type = 6 \/ type = 8 -> at_subpath o st ks -> used st + 102 <= stack_limit ->
  curve_leads (stroke_curve pf type dxs dys dxf dyf xf yf) o st ks.
Proof.
  intros Hty Ha Hu. unfold curve_leads, stroke_curve. destruct (normalized dxs dys) as [ux uy]. destruct (normalized dxf dyf) as [vx vy].
  set (w := lineWidth2 st). destruct (computeOffset ux uy w) as [mx my]. set (c := st_cur st).
  destruct (drawJoin_leads (e_dx c) (e_dy c) ux uy (e_mx c) (e_my c) mx my o st ks Ha ltac:(lia))
    as (st1 & l1 & E1 & O1 & D1 & U1 & _). fold c in E1. rewrite E1. mred. clear E1.
  pose proof D1 as (_ & ? & ? & ? & ? & ? & _ & _ & _ & [_ Hm Ht] & _).
  destruct (findSubdivPoints_ok pf (st_middle st1) (st_subdivTs st1) type w) as (n & ts & -> & Hn & Hts & _); [rewrite Hm; unfold MAX_N_CURVES; lia|done|]. mred.
  destruct (split_middle_ok type n ts (st_middle st1) Hty Hn Hts Hm) as (m & -> & Hm'). mred.
  destruct (parts_lead pf type w m n (o ++ l1) (st_set_scratch m ts st1) ks Hty Hm' Hn ltac:(by apply drawing_scratch))
    as (kind & lp & rp & st2 & l2 & E2 & (Hk & Hlp & Hrp) & O2 & D2 & U2); [unfold used in *; cbn; lia|].
  rewrite E2. mred. clear E2. do 4 step_aget. eexists _, (l1 ++ l2). split; [done|].
  split; [cbn; by rewrite O2, app_assoc; cbn; rewrite O1|]. rewrite app_assoc. split; [by apply drawing_at|].
  unfold used in *. cbn in *. lia.
Qed.

Lemma astore_ok {A} (vs : list A) : forall m i, 0 <= i -> i + alen vs <= alen m -> exists m', astore m i vs = Some m' /\ alen m' = alen m.
Proof.
  induction vs as [|v vs IH]; intros m i Hi Hl; [by exists m|]. cbn [astore]. rewrite alen_cons in Hl. pose proof (alen_nonneg vs).
  destruct (aset_step m i v) as (m1 & -> & Hl1 & _); [lia|]. mred. destruct (IH m1 (i + 1)) as (m' & E & Hl'); [lia|lia|].
  exists m'. split; [done|congruence].
Qed.

Lemma subpath_middle o st ks : at_subpath o st ks -> alen (st_middle st) = MAX_N_CURVES * 8.
Proof. intros [(_ & ? & ? & ? & ? & ? & _ & _ & _ & [] & _)|(_ & [] & _)]; done. Qed.

(** A curve that is a point is drawn as a line to where it is. *)
Lemma point_leads x y o st ks : at_subpath o st ks -> used st + 102 <= stack_limit -> curve_leads (Stroker_lineTo x y) o st ks.
Proof.
  intros Ha Hu. destruct (lineTo_leads x y o st ks Ha ltac:(lia)) as (st' & l & E & O & D & U & _). exists st', l.
  repeat (split; [done|]). lia.
Qed.

Lemma curveTo_leads pf x1 y1 x2 y2 x3 y3 o st ks : at_subpath o st ks -> used st + 102 <= stack_limit ->
  curve_leads (Stroker_curveTo pf x1 y1 x2 y2 x3 y3) o st ks.
Proof.
  intros Ha Hu. unfold curve_leads, Stroker_curveTo. cbv zeta. set (x0 := e_x (st_cur st)). set (y0 := e_y (st_cur st)).
  pose proof (subpath_middle _ _ _ Ha) as Hm.
  destruct (astore_ok [x0; y0; x1; y1; x2; y2; x3; y3] (st_middle st) 0) as (m & -> & Hm'); [lia|rewrite Hm; unfold MAX_N_CURVES; autorewrite with alen; lia|].
  mred. rewrite Hm in Hm'. pose proof (subpath_scratch _ _ _ m Hm' Ha) as Ha'. set (st1 := st_set_scratch m (st_subdivTs st) st) in *.
  change (used st) with (used st1) in *. change (st_out st) with (st_out st1).
  repeat (match goal with |- context [let '(_, _) := ?p in _] => destruct p end).
  match goal with |- context [if ?b then Stroker_lineTo _ _ _ else _] => destruct b end.
  - by apply point_leads.
  - apply stroke_curve_leads; [by right|done|done].
Qed.

Lemma quadTo_leads pf x1 y1 x2 y2 o st ks : at_subpath o st ks -> used st + 102 <= stack_limit ->
  curve_leads (Stroker_quadTo pf x1 y1 x2 y2) o st ks.
Proof.
  intros Ha Hu. unfold curve_leads, Stroker_quadTo. cbv zeta. set (x0 := e_x (st_cur st)). set (y0 := e_y (st_cur st)).
  pose proof (subpath_middle _ _ _ Ha) as Hm.
  destruct (astore_ok [x0; y0; x1; y1; x2; y2] (st_middle st) 0) as (m & -> & Hm'); [lia|rewrite Hm; unfold MAX_N_CURVES; autorewrite with alen; lia|].
  mred. rewrite Hm in Hm'. pose proof (subpath_scratch _ _ _ m Hm' Ha) as Ha'. set (st1 := st_set_scratch m (st_subdivTs st) st) in *.
  change (used st) with (used st1) in *. change (st_out st) with (st_out st1).
  repeat (match goal with |- context [let '(_, _) := ?p in _] => destruct p end).
  match goal with |- context [if ?b then Stroker_lineTo _ _ _ else _] => destruct b end.
  - by apply point_leads.
  - apply stroke_curve_leads; [by left|done|done].
Qed.

(** ** Whole paths *)

(** What the subpaths of a path are, given what came before: [true] is a closed one.  A
    move and a close make a dot, an outline like that of an open subpath. *)
Fixpoint subpaths (prev : Z) (path : list call) : list bool :=
  match path with
  | [] => if prev =? DRAWING_OP_TO then [false] else []
  | MoveTo _ _ :: path => (if prev =? DRAWING_OP_TO then [false] else []) ++ subpaths MOVE_TO path
  | ClosePath :: path =>
      if prev =? DRAWING_OP_TO then true :: subpaths CLOSE path
      else (if prev =? CLOSE then [] else [false]) ++ subpaths prev path
  | PathDone :: path => subpaths prev path
  | _ :: path => subpaths DRAWING_OP_TO path
  end.

Definition not_done (c : call) : Prop := c <> PathDone.

(** One call on the stroker. *)
Lemma call_leads pf c o st ks : c <> PathDone -> at_subpath o st ks -> used st + 102 <= stack_limit ->
  exists st' l ks', Stroker_call pf c st = Some st' /\ st_out st' = st_out st ++ l /\ at_subpath (o ++ l) st' (ks ++ ks') /\ used st' <= used st + 102 /\
    forall path, subpaths (st_prev st) (c :: path) = ks' ++ subpaths (st_prev st') path.
Proof.
  intros Hc Ha Hu.
  assert (Hcurve : forall f, curve_leads f o st ks -> exists st' l ks', f st = Some st' /\ st_out st' = st_out st ++ l /\
    at_subpath (o ++ l) st' (ks ++ ks') /\ used st' <= used st + 102 /\ forall path, subpaths DRAWING_OP_TO path = ks' ++ subpaths (st_prev st') path).
  { intros f (st' & l & E & O & D & U). exists st', l, []. rewrite app_nil_r. split; [done|]. split; [done|]. split; [by left|].
    split; [done|]. intros path. by destruct D as [-> _]. }
  destruct c as [x y|x y|xc yc x y|xc0 yc0 xc1 yc1 x y| |]; cbn [Stroker_call subpaths].
  - destruct (moveTo_leads x y o st ks Ha ltac:(lia)) as (st' & l & E & O & P & U & I). eexists st', l, _. split; [done|]. split; [done|].
    split; [by right|]. split; [lia|]. intros path. by rewrite P.
  - by apply Hcurve, point_leads.
  - by apply Hcurve, quadTo_leads.
  - by apply Hcurve, curveTo_leads.
  - destruct Ha as [Hd|Hi].
    + destruct (closePath_drawing o st ks Hd ltac:(lia)) as (st' & l & E & O & P & U & I). exists st', l, [true]. split; [done|]. split; [done|].
      split; [by right|]. split; [lia|]. intros path. destruct Hd as [-> _]. rewrite Z.eqb_refl, P. done.
    + destruct (closePath_idle o st ks Hi ltac:(lia)) as (st' & l & E & O & P & U & I). eexists st', l, _. split; [done|]. split; [done|].
      split; [by right|]. split; [lia|]. intros path. destruct Hi as [Hp _]. rewrite (proj2 (Z.eqb_neq _ _) Hp), P. done.
  - done.
Qed.

(** A consumer that notes what is called. *)
Definition recorder : PathConsumer (list call) :=
  let note c (l : list call) := Some (l ++ [c]) in
  mkPathConsumer (fun x y => note (MoveTo x y)) (fun x y => note (LineTo x y)) (fun xc yc x y => note (QuadTo xc yc x y))
    (fun xc0 yc0 xc1 yc1 x y => note (CurveTo xc0 yc0 xc1 yc1 x y)) (note ClosePath) (note PathDone).

Lemma play_recorder cs o : play recorder cs o = Some (o ++ cs).
Proof.
  revert o. induction cs as [|c cs IH]; intros o; cbn [play]; [by rewrite app_nil_r|].
  replace (call_on recorder c o) with (Some (o ++ [c])) by (by destruct c). mred. rewrite IH. by rewrite <- app_assoc.
Qed.

Lemma filtered_call {S F} (out : PathConsumer S) (op : call -> F -> option (F * list call)) c f s :
  call_on (filtered out op) c (f, s) = ('(f, cs) ← op c f; s ← play out cs s; Some (f, s)).
Proof. by destruct c. Qed.

Lemma stroke_call pf c st o st' : Stroker_call pf c st = Some st' ->
  call_on (stroker_consumer pf recorder) c (st, o) = Some (st_set_out [] st', o ++ st_out st').
Proof. intros E. unfold stroker_consumer. rewrite filtered_call. unfold Stroker_op. rewrite E. mred. rewrite play_recorder. by mred. Qed.

Lemma subpath_out o st ks l : at_subpath o st ks -> at_subpath o (st_set_out l st) ks.
Proof.
  intros [(Hp & p & x & y & l' & cs & Eo & Hl & Ho & Hg & Hx & Hy)|(Hp & Hg & Hr)]; [left|right].
  - split; [done|]. exists p, x, y, l', cs. destruct Hg. repeat (split; [done|]). done.
  - destruct Hg. done.
Qed.

Lemma path_leads pf path : Forall not_done path -> forall o st ks, st_out st = [] -> at_subpath o st ks ->
  used st + 102 * (alen path + 1) <= stack_limit ->
  exists st' outs, play (stroker_consumer pf recorder) (path ++ [PathDone]) (st, o) = Some (st', outs ++ [PathDone]) /\
    good st' [] /\ outlines outs (ks ++ subpaths (st_prev st) path).
Proof.
  induction 1 as [|c path Hc _ IH]; intros o st ks Hout Ha Hu.
  - change (alen []) with 0 in Hu. cbn [app play].
    destruct (pathDone_leads o st ks Ha ltac:(lia)) as (st' & l & E & O & G & Ho).
    rewrite (stroke_call pf PathDone st o st' E). mred. rewrite O, Hout. cbn [app]. exists (st_set_out [] st'), (o ++ l).
    split; [by rewrite <- app_assoc|]. split; [by apply good_out|done].
  - rewrite alen_cons in Hu. pose proof (alen_nonneg path). cbn [app play].
    destruct (call_leads pf c o st ks Hc Ha ltac:(lia)) as (st1 & l & ks' & E & O & A & U & Hk). rewrite (stroke_call pf c st o st1 E). mred.
    rewrite O, Hout. cbn [app]. destruct (IH (o ++ l) (st_set_out [] st1) (ks ++ ks')) as (st' & outs & E' & G & Ho);
      [done|by apply subpath_out|change (used (st_set_out [] st1)) with (used st1); lia|].
    exists st', outs. split; [done|]. split; [done|]. rewrite Hk, app_assoc. exact Ho.
Qed.

(** C6: strokes are outlines.  For every path, every style and every coordinates, also
    infinite or not numbers, the stroker returns, with no access outside its arrays; what
    it has called on its consumer is, for each subpath in turn, one outline: a contour
    that is moved to, drawn and closed, and for a closed subpath two contours, the first
    of which ends where it starts; then the end of the path.  Nothing is left on the
    stack. *)
Theorem stroker_outlines pf scratch lineWidth cap join miterLimit path :
  alen (fst scratch) = MAX_N_CURVES * 8 -> alen (snd scratch) = MAX_N_CURVES - 1 ->
  Forall not_done path -> 102 * (alen path + 1) <= 2 ^ 29 ->
  exists st outs, play (stroker_consumer pf recorder) (path ++ [PathDone]) (Stroker_init scratch lineWidth cap join miterLimit, []) =
      Some (st, outs ++ [PathDone]) /\
    stack_ok (st_reverse st) [] /\ outlines outs (subpaths CLOSE path).
Proof.
  intros Hm Ht Hp Hl. set (st := Stroker_init scratch lineWidth cap join miterLimit).
  destruct (path_leads pf path Hp [] st []) as (st' & outs & E & [G _ _] & Ho); [done| |exact Hl|by exists st', outs].
  right. split; [done|]. split; [split; [apply stack_empty|done|done]|]. split; [by left|]. split; [by left|]. by exists [].
Qed.

Definition loop_path : list call :=
  [MoveTo two two; CurveTo (of_int 9) two (of_int 9) (of_int 9) two (of_int 9); ClosePath; MoveTo f_zero f_zero; LineTo S754_nan f_one].

Lemma stroker_outlines_witness :
  exists st outs, play (stroker_consumer plain_platform recorder) (loop_path ++ [PathDone])
      (Stroker_init fresh_scratch two CAP_ROUND JOIN_MITER (of_int 10), []) = Some (st, outs ++ [PathDone]) /\
    stack_ok (st_reverse st) [] /\ outlines outs [true; false].
Proof.
  apply (stroker_outlines plain_platform fresh_scratch two CAP_ROUND JOIN_MITER (of_int 10) loop_path); [done|done| |done].
  repeat constructor; discriminate.
Defined.

Lemma findSubdivPoints_spec_witness :
  exists n ts', findSubdivPoints plain_platform (fst fresh_scratch) (snd fresh_scratch) 8 f_one = Some (n, ts') /\ 0 <= n <= MAX_N_CURVES - 1 /\
    alen ts' = MAX_N_CURVES - 1 /\ ascending_params (take (Z.to_nat n) ts') /\
    Forall (fun t => fle SPLIT_MIN t = true /\ flt t SPLIT_MAX = true) (take (Z.to_nat n) ts').
Proof.
  apply (findSubdivPoints_spec plain_platform (fst fresh_scratch) (snd fresh_scratch) 8 f_one); [|done]. vm_compute. discriminate.
Defined.
