(* ===== verification/PrismDashes.v ===== *)
(** * Dashes

    What the dasher makes of a path, as a reference definition ([dash_path]): every
    segment is cut into pieces that are drawn or not ([cut_line], [cut_curve]), with no
    buffer and no shared array, and each subpath is drawn from the list of its pieces
    ([dashes_of]).  The dasher of Dasher.c, with its buffer of first segments, its flags
    and the array its curves are cut in, is equivalent to it ([dasher_dashes]). *)

From Stdlib Require Import SpecFloat.
From S2P Require Import Prelude.
From S2P Require Import Float32.
From S2P Require Import Float32Spec.
From S2P Require Import PrismRenderer.
From S2P Require Import PrismRasterizer.
From S2P Require Import PrismEdges.
From S2P Require Import PrismScan.
From S2P Require Import PrismHelpers.
From S2P Require Import PrismHelpersSpec.
From S2P Require Import PrismCalls.
From S2P Require Import PrismStroker.
From S2P Require Import PrismStrokerSpec.
From S2P Require Import PrismDasher.
From S2P Require Import PrismOutlines.

(** ** Pieces *)

Definition point := (jfloat * jfloat)%type.

(** A segment that lies in one dash, and whether that dash is drawn. *)
Record piece := mkPiece { p_on : bool; p_seg : call }.

(** The point a segment ends at. *)
Definition end_of (c : call) : point :=
  match c with
  | MoveTo x y | LineTo x y | QuadTo _ _ x y | CurveTo _ _ _ _ x y => (x, y)
  | _ => (f_zero, f_zero)
  end.

Definition end_from (s : point) (ps : list piece) : point := fold_left (fun _ p => end_of (p_seg p)) ps s.

(** The calls that draw pieces from a point on; with the pen down a drawn piece goes on
    where the last one ended. *)
Fixpoint inked (down : bool) (at_ : point) (ps : list piece) : list call :=
  match ps with
  | [] => []
  | p :: ps =>
      if p_on p then (if down then [] else [MoveTo (fst at_) (snd at_)]) ++ p_seg p :: inked true (end_of (p_seg p)) ps
      else inked false (end_of (p_seg p)) ps
  end.

Definition all_on (ps : list piece) : bool := forallb p_on ps.

(** The drawn pieces a subpath begins with, and the others. *)
Fixpoint lead (ps : list piece) : list call :=
  match ps with p :: ps => if p_on p then p_seg p :: lead ps else [] | [] => [] end.
Fixpoint others (ps : list piece) : list piece :=
  match ps with p :: ps' => if p_on p then others ps' else ps | [] => [] end.
Definition after_lead (s : point) (ps : list piece) : point := fold_left (fun _ c => end_of c) (lead ps) s.

(** The last piece is drawn and is not part of the lead. *)
Definition last_on (down : bool) (ps : list piece) : bool := fold_left (fun _ p => p_on p) ps down.
Definition pen_down (ps : list piece) : bool := negb (all_on ps) && last_on false ps.

(** A subpath from [s]: the dashes behind the lead, then the lead, which goes on from the
    last dash when the two are [joined]. *)
Definition dashes_of (s : point) (joined : bool) (ps : list piece) : list call :=
  inked false (after_lead s ps) (others ps) ++
  match lead ps with [] => [] | l => (if joined then [] else [MoveTo (fst s) (snd s)]) ++ l end.

(** ** Cutting *)

Definition next_place (dash : list jfloat) (p : Place) : option Place :=
  if alen dash =? 0 then None else Some (mkPlace (Z.rem (idx p + 1) (alen dash)) (negb (dashOn p)) f_zero).

(** The dashes along a line of length [len] in direction [(cx, cy)]. *)
Fixpoint cut_line (rounds : nat) (dash : list jfloat) (to : point) (cx cy : jfloat) (at_ : point) (len : jfloat) (p : Place)
  : option (list piece * Place) :=
  da ← aget dash (idx p);
  let left := (da - phase p)%jf in
  if fle len left then
    let on := mkPiece (dashOn p) (LineTo (fst to) (snd to)) in
    let p := mkPlace (idx p) (dashOn p) (phase p + len)%jf in
    p ← (if feq len left then next_place dash p else Some p);
    Some ([on], p)
  else
    let q := (left / da)%jf in
    let cut := if feq (phase p) f_zero then ((fst at_ + da * cx)%jf, (snd at_ + da * cy)%jf)
               else ((fst at_ + q * (da * cx))%jf, (snd at_ + q * (da * cy))%jf) in
    p' ← next_place dash p;
    match rounds with
    | O => None
    | S rounds =>
        '(ps, p') ← cut_line rounds dash to cx cy cut (len - left)%jf p';
        Some (mkPiece (dashOn p) (LineTo (fst cut) (snd cut)) :: ps, p')
    end.

Definition cut_to (fuel : nat) (dash : list jfloat) (to at_ : point) (p : Place) : option (list piece * Place) :=
  let dx := (fst to - fst at_)%jf in
  let dy := (snd to - snd at_)%jf in
  let len := fsqrt (dx * dx + dy * dy)%jf in
  if feq len f_zero then Some ([], p) else cut_line fuel dash to (dx / len)%jf (dy / len)%jf at_ len p.

(** The two parts of a curve, given by the coordinates of its points. *)
Definition split_at (t : jfloat) (curve : list jfloat) : list jfloat * list jfloat :=
  match curve with
  | [x1; y1; cx1; cy1; cx2; cy2; x2; y2] =>
      let ax := mix t x1 cx1 in let ay := mix t y1 cy1 in
      let bx := mix t cx2 x2 in let by_ := mix t cy2 y2 in
      let mx := mix t cx1 cx2 in let my := mix t cy1 cy2 in
      let lx := mix t ax mx in let ly := mix t ay my in
      let rx := mix t mx bx in let ry := mix t my by_ in
      let cx := mix t lx rx in let cy := mix t ly ry in
      ([x1; y1; ax; ay; lx; ly; cx; cy], [cx; cy; rx; ry; bx; by_; x2; y2])
  | [x1; y1; cx1; cy1; x2; y2] =>
      let ax := mix t x1 cx1 in let ay := mix t y1 cy1 in
      let bx := mix t cx1 x2 in let by_ := mix t cy1 y2 in
      let cx := mix t ax bx in let cy := mix t ay by_ in
      ([x1; y1; ax; ay; cx; cy], [cx; cy; bx; by_; x2; y2])
  | _ => (curve, curve)
  end.

Definition segment_of (curve : list jfloat) : call :=
  match curve with
  | [_; _; cx1; cy1; cx2; cy2; x2; y2] => CurveTo cx1 cy1 cx2 cy2 x2 y2
  | [_; _; cx1; cy1; x2; y2] => QuadTo cx1 cy1 x2 y2
  | _ => PathDone
  end.

(** The dashes along a curve but the last, and what is left for the last. *)
Fixpoint cut_curve (pf : platform) (rounds : nat) (dash : list jfloat) (left lastT : jfloat) (curve : list jfloat)
    (li : LengthIterator) (p : Place) : option (list piece * list jfloat * LengthIterator * Place) :=
  '(t, li) ← LInext pf left li;
  if flt t f_one then
    let '(ps, lastT, curve) :=
      if negb (feq t f_zero) then
        let '(l, r) := split_at ((t - lastT) / (f_one - lastT))%jf curve in
        ([mkPiece (dashOn p) (segment_of l)], t, r)
      else ([], lastT, curve) in
    p ← next_place dash p;
    da ← aget dash (idx p);
    match rounds with
    | O => None
    | S rounds =>
        '(ps', curve, li, p) ← cut_curve pf rounds dash da lastT curve li p;
        Some (ps ++ ps', curve, li, p)
    end
  else Some ([], curve, li, p).

(** All points of the curve are equal. *)
Definition is_point (curve : list jfloat) : bool :=
  forallb (fun '(a, b) => feq a b) (combine (drop 2 curve) curve).

Definition cut_along (pf : platform) (fuel : nat) (dash : list jfloat) (curve : list jfloat) (li : LengthIterator) (p : Place)
  : option (list piece * LengthIterator * Place) :=
  if is_point curve then Some ([], li, p)
  else
    li ← LIinitializeIterationOnCurve curve (alen curve) li;
    da ← aget dash (idx p);
    '(ps, rest, li, p) ← cut_curve pf fuel dash (da - phase p)%jf f_zero curve li p;
    let last := mkPiece (dashOn p) (segment_of rest) in
    let p := mkPlace (idx p) (dashOn p) (phase p + LIlastSegLen li)%jf in
    da ← aget dash (idx p);
    p ← (if fle da (phase p) then next_place dash p else Some p);
    Some (ps ++ [last], li, p).

(** ** Paths *)

(** The subpath begun at [k_start], its pieces so far, the place in the pattern, the
    length iterator, and the calls made for the subpaths before. *)
Record sketch := mkSketch { k_start : point; k_pieces : list piece; k_place : Place; k_li : LengthIterator; k_out : list call }.

Section reference.
Context (pf : platform) (fuel : nat) (pat : Pattern).

Definition k_at (k : sketch) : point := end_from (k_start k) (k_pieces k).

(** A new subpath from [s]; the dashes of the old one are [cs]. *)
Definition k_move (s : point) (cs : list call) (k : sketch) : sketch :=
  mkSketch s [] (mkPlace (startIdx pat) (startDashOn pat) (startPhase pat)) (k_li k) (k_out k ++ cs).

Definition k_line (to : point) (k : sketch) : option sketch :=
  '(ps, p) ← cut_to fuel (dash pat) to (k_at k) (k_place k);
  Some (mkSketch (k_start k) (k_pieces k ++ ps) p (k_li k) (k_out k)).

Definition k_curve (coords : list jfloat) (k : sketch) : option sketch :=
  '(ps, li, p) ← cut_along pf fuel (dash pat) (fst (k_at k) :: snd (k_at k) :: coords) (k_li k) (k_place k);
  Some (mkSketch (k_start k) (k_pieces k ++ ps) p li (k_out k)).

Definition dash_call (c : call) (k : sketch) : option sketch :=
  match c with
  | MoveTo x y => Some (k_move (x, y) (dashes_of (k_start k) false (k_pieces k)) k)
  | LineTo x y => k_line (x, y) k
  | QuadTo xc yc x y => k_curve [xc; yc; x; y] k
  | CurveTo xc0 yc0 xc1 yc1 x y => k_curve [xc0; yc0; xc1; yc1; x; y] k
  | ClosePath =>
      k ← k_line (k_start k) k;
      let joined := dashOn (k_place k) && pen_down (k_pieces k) in
      Some (k_move (k_start k) (dashes_of (k_start k) joined (k_pieces k)) k)
  | PathDone => Some (mkSketch (k_start k) [] (k_place k) (k_li k) (k_out k ++ dashes_of (k_start k) false (k_pieces k) ++ [PathDone]))
  end.

Fixpoint dash_path (cs : list call) (k : sketch) : option sketch :=
  match cs with
  | [] => Some k
  | c :: cs => k ← dash_call c k; dash_path cs k
  end.
End reference.

(** ** The buffer of first segments *)

Definition encode (c : call) : list jfloat := of_int (segment_type c) :: coordinates c.

(** The buffer holds segments: each is its type and its coordinates. *)
Record holds (f : Segments) (cs : list call) : Prop := {
  h_segments : segments cs;
  h_idx : firstSegidx f = alen (concat (encode <$> cs));
  h_buffer : exists rest, firstSegmentsBuffer f = concat (encode <$> cs) ++ rest }.

Lemma aget_region {A} (pre mid post : list A) k v : aget mid k = Some v -> aget (pre ++ mid ++ post) (alen pre + k) = Some v.
Proof.
  intros Hk. pose proof (aget_Some_range _ _ _ Hk). pose proof (alen_nonneg pre). rewrite !aget_lookup in * by lia.
  unfold alen. rewrite lookup_app_r by lia. replace (Z.to_nat (Z.of_nat (length pre) + k) - length pre)%nat with (Z.to_nat k) by lia.
  by apply lookup_app_l_Some.
Qed.

(** Copying a region appends it. *)
Lemma copy_range_loop vs : forall pre post l rest (done_ : list jfloat), alen vs <= alen rest ->
  exists rest', for_from (length vs) (alen done_) (fun i m => v ← aget (pre ++ (done_ ++ vs) ++ post) (alen pre + i); aset m (alen l + i) v)
    ((l ++ done_) ++ rest) = Some ((l ++ done_ ++ vs) ++ rest') /\ alen vs + alen rest' = alen rest.
Proof.
  induction vs as [|v vs IH]; intros pre post l rest done_ Hr; cbn [length for_from].
  { exists rest. rewrite app_nil_r. done. }
  rewrite (aget_region pre (done_ ++ v :: vs) post (alen done_) v) by apply aget_middle. mred. rewrite alen_cons in Hr.
  pose proof (alen_nonneg vs). destruct rest as [|w rest]; [change (alen []) with 0 in Hr; lia|].
  replace (alen l + alen done_) with (alen (l ++ done_)) by apply alen_app. rewrite aset_middle. mred.
  destruct (IH pre post l rest (done_ ++ [v])) as (rest' & E & Hl); [rewrite alen_cons in Hr; lia|]. exists rest'.
  rewrite alen_snoc, <- !app_assoc in E. cbn [app] in E. rewrite <- !app_assoc. cbn [app]. split; [exact E|rewrite !alen_cons; lia].
Qed.

Lemma copy_range_ok pre vs post l rest : alen vs <= alen rest -> exists rest',
  copy_range (pre ++ vs ++ post) (alen pre) (l ++ rest) (alen l) (alen vs) = Some ((l ++ vs) ++ rest') /\ alen vs + alen rest' = alen rest.
Proof.
  intros Hr. destruct (copy_range_loop vs pre post l rest [] Hr) as (rest' & E & Hl). exists rest'. split; [|done].
  rewrite app_nil_r in E. unfold copy_range, for_lt. replace (Z.to_nat (alen vs)) with (length vs) by (unfold alen; lia). exact E.
Qed.

Lemma encode_length c : alen (encode c) = segment_type c - 1.
Proof. unfold encode, segment_type. rewrite alen_cons. lia. Qed.

Lemma segment_type_range c : is_segment c = true -> 4 <= segment_type c <= 8.
Proof. intros Hc. pose proof (coordinates_length c Hc). unfold segment_type. lia. Qed.

(** A saved segment is behind those the buffer held; the buffer grows when it is full. *)
Lemma save_segment_ok f cs c pre post : holds f cs -> is_segment c = true -> firstSegidx f < 2 ^ 29 ->
  exists f', save_segment (pre ++ coordinates c ++ post) (alen pre) (segment_type c) f = Some f' /\ holds f' (cs ++ [c]).
Proof.
  intros [Hs Hi [rest Hb]] Hc Hlim. pose proof (segment_type_range c Hc) as Ht. unfold save_segment.
  set (l := concat (encode <$> cs)) in *. pose proof (alen_nonneg l). rewrite Hi, Hb in *.
  assert (Hg : exists r, (if alen (l ++ rest) <? alen l + (segment_type c - 1)
    then arraycopy (l ++ rest) (alen l) (new_float (i32 ((alen l + (segment_type c - 1)) * 2))) else Some (l ++ rest)) = Some (l ++ r) /\
    segment_type c - 1 <= alen r).
  { destruct (Z.ltb_spec (alen (l ++ rest)) (alen l + (segment_type c - 1))) as [Hf|Hf]; rewrite alen_app in Hf.
    - rewrite i32_id by (unfold in_i32; lia). destruct (copy_prefix l rest (new_float ((alen l + (segment_type c - 1)) * 2))) as (r & -> & Hl).
      + unfold new_float. rewrite alen_new; lia.
      + unfold new_float in Hl. rewrite alen_new in Hl by lia. exists r. split; [done|lia].
    - exists rest. split; [done|lia]. }
  destruct Hg as (r & -> & Hr). mred. destruct r as [|w r]; [change (alen []) with 0 in Hr; lia|]. rewrite aset_middle. mred.
  rewrite alen_cons in Hr. replace (segment_type c - 2) with (alen (coordinates c)) by (unfold segment_type; lia).
  destruct (copy_range_ok pre (coordinates c) post (l ++ [of_int (segment_type c)]) r) as (r' & E & Hl); [unfold segment_type in Hr; lia|].
  rewrite alen_snoc, <- !app_assoc in E. cbn [app] in E. rewrite E. mred. pose proof (coordinates_length c Hc).
  rewrite i32_id by (unfold in_i32; lia). eexists. split; [done|].
  assert (El : concat (encode <$> cs ++ [c]) = l ++ encode c) by (rewrite fmap_app, concat_app; cbn [fmap list_fmap concat]; by rewrite app_nil_r).
  split; cbn [firstSegidx firstSegmentsBuffer].
  - apply Forall_app. split; [done|by constructor].
  - rewrite El, alen_app, encode_length. unfold segment_type. lia.
  - rewrite El. exists r'. rewrite <- app_assoc. done.
Qed.

(** The call of a segment in an array. *)
Lemma emitSeg_ok c pre post d : is_segment c = true -> emitSeg (pre ++ coordinates c ++ post) (alen pre) (segment_type c) d = Some (d_say c d).
Proof.
  intros Hc. unfold emitSeg.
  destruct c as [|x y|xc yc x y|a b e f x y| |]; try done; cbn [coordinates].
  - change (segment_type (LineTo x y)) with 4. cbn [Z.eqb Pos.eqb]. repeat (erewrite aget_region by reflexivity; mred). done.
  - change (segment_type (QuadTo xc yc x y)) with 6. cbn [Z.eqb Pos.eqb]. repeat (erewrite aget_region by reflexivity; mred). done.
  - change (segment_type (CurveTo a b e f x y)) with 8. cbn [Z.eqb Pos.eqb]. repeat (erewrite aget_region by reflexivity; mred). done.
Qed.

(** What was saved is drawn, in order, and the buffer is empty. *)
Lemma emit_loop cs : segments cs -> forall l rest d n, (length cs <= n)%nat ->
  while_fuel n (fun p => fst p <? alen (l ++ concat (encode <$> cs))) (fun '(i, d) =>
    ty ← aget (l ++ concat (encode <$> cs) ++ rest) i;
    d ← emitSeg (l ++ concat (encode <$> cs) ++ rest) (i + 1) (to_jint ty) d;
    Some (i + (to_jint ty - 1), d)) (alen l, d) = Some (alen (l ++ concat (encode <$> cs)), d_set_out (d_out d ++ cs) d).
Proof.
  induction 1 as [|c cs Hc _ IH]; intros l rest d n Hn.
  { cbn. rewrite !app_nil_r. replace (d_set_out (d_out d) d) with d by (by destruct d).
    destruct n; cbn [while_fuel fst]; rewrite Z.ltb_irrefl; done. }
  destruct n as [|n]; [cbn in Hn; lia|]. pose proof (segment_type_range c Hc) as Ht. cbn [fmap list_fmap concat]. cbn [while_fuel fst].
  assert (Hlt : alen l < alen (l ++ encode c ++ concat (encode <$> cs))).
  { rewrite !alen_app, encode_length. pose proof (alen_nonneg (concat (encode <$> cs))). lia. }
  change ((fix go (l0 : list call) : list (list jfloat) := match l0 with [] => [] | x :: l1 => encode x :: go l1 end) cs) with (encode <$> cs) in *.
  rewrite (proj2 (Z.ltb_lt _ _) Hlt). specialize (IH (l ++ encode c) rest (d_say c d) n ltac:(cbn in Hn; lia)).
  replace ((l ++ encode c) ++ concat (encode <$> cs) ++ rest) with (l ++ (encode c ++ concat (encode <$> cs)) ++ rest) in IH by (by rewrite <- !app_assoc).
  replace ((l ++ encode c) ++ concat (encode <$> cs)) with (l ++ encode c ++ concat (encode <$> cs)) in IH by (by rewrite <- app_assoc).
  set (m := l ++ (encode c ++ concat (encode <$> cs)) ++ rest) in *.
  assert (E1 : aget m (alen l) = Some (of_int (segment_type c))) by (unfold m, encode; cbn [app]; apply aget_middle).
  assert (E2 : emitSeg m (alen l + 1) (segment_type c) d = Some (d_say c d)).
  { rewrite <- (emitSeg_ok c (l ++ [of_int (segment_type c)]) (concat (encode <$> cs) ++ rest) d Hc). rewrite alen_snoc. f_equal.
    unfold m, encode. cbn [app]. by rewrite <- !app_assoc. }
  rewrite E1. mred. rewrite to_jint_of_int by lia. rewrite E2. mred.
  replace (alen l + (segment_type c - 1)) with (alen (l ++ encode c)) by (rewrite alen_app, encode_length; lia). rewrite IH.
  f_equal. f_equal. destruct d. unfold d_say, d_set_out. cbn. by rewrite <- app_assoc.
Qed.

Lemma emitFirstSegments_ok d cs : holds (d_first d) cs ->
  exists f, emitFirstSegments d = Some (d_set_first f (d_set_out (d_out d ++ cs) d)) /\ holds f [].
Proof.
  intros [Hs Hi [rest Hb]]. unfold emitFirstSegments. rewrite Hi, Hb.
  assert (Hn : (length cs <= Z.to_nat (alen (concat (encode <$> cs))))%nat).
  { unfold alen. rewrite Nat2Z.id. clear. induction cs as [|c cs IH]; cbn; [lia|]. rewrite length_app. cbn in IH. lia. }
  pose proof (emit_loop cs Hs [] rest d _ Hn) as E. cbn [app] in E. change (alen []) with 0 in E. rewrite E. mred.
  eexists. split; [done|]. split; [constructor|done|by eexists].
Qed.

(** ** Laying pieces *)

Lemma inked_app ps ps' : forall down at_, inked down at_ (ps ++ ps') = inked down at_ ps ++ inked (last_on down ps) (end_from at_ ps) ps'.
Proof.
  induction ps as [|p ps IH]; intros down at_; [done|]. cbn [app inked]. unfold last_on, end_from in *. cbn [fold_left].
  destruct (p_on p); rewrite IH; [|done]. by rewrite <- !app_assoc.
Qed.

Lemma lead_snoc ps p : lead (ps ++ [p]) = if all_on ps && p_on p then lead ps ++ [p_seg p] else lead ps.
Proof. induction ps as [|q ps IH]; cbn; [by destruct (p_on p)|]. destruct (p_on q); [|done]. rewrite IH. fold (all_on ps). by destruct (all_on ps), (p_on p). Qed.

Lemma others_snoc ps p : others (ps ++ [p]) = if all_on ps then (if p_on p then [] else [p]) else others ps ++ [p].
Proof. induction ps as [|q ps IH]; cbn; [by destruct (p_on p)|]. destruct (p_on q); [|done]. exact IH. Qed.

Lemma all_on_snoc ps p : all_on (ps ++ [p]) = all_on ps && p_on p.
Proof. unfold all_on. rewrite forallb_app. cbn. by rewrite andb_true_r. Qed.

Lemma others_all_on ps : all_on ps = true -> others ps = [].
Proof. induction ps as [|p ps IH]; cbn; [done|]. destruct (p_on p); [exact IH|done]. Qed.

(** The pieces behind the lead end where the subpath ends. *)
Lemma others_end ps : all_on ps = false -> forall s down down',
  end_from (after_lead s ps) (others ps) = end_from s ps /\ last_on down (others ps) = last_on down' ps.
Proof.
  induction ps as [|p ps IH]; [done|]. unfold after_lead, all_on in *. cbn [lead others forallb]. intros Ha s down down'.
  destruct (p_on p) eqn:Ep; [|done]. destruct (IH Ha (end_of (p_seg p)) down true) as [H1 H2].
  split; [exact H1|]. rewrite H2. unfold last_on. cbn. by rewrite Ep.
Qed.

Lemma segments_lead ps : segments (p_seg <$> ps) -> segments (lead ps).
Proof. induction ps as [|p ps IH]; cbn; [done|]. intros [H1 H2]%Forall_cons_1. destruct (p_on p); [|constructor]. constructor; [done|by apply IH]. Qed.

Lemma lead_length ps : (length (lead ps) <= length ps)%nat.
Proof. induction ps as [|p ps IH]; cbn; [lia|]. destruct (p_on p); cbn; lia. Qed.

Lemma encoded_size cs : segments cs -> alen (concat (encode <$> cs)) <= 7 * alen cs.
Proof.
  induction 1 as [|c cs Hc _ IH]; [done|]. change (concat (encode <$> c :: cs)) with (encode c ++ concat (encode <$> cs)).
  rewrite alen_app, encode_length, alen_cons. pose proof (segment_type_range c Hc). lia.
Qed.

(** [laid o d k]: the dasher is where the sketch is, when [o] was drawn before. *)
Record laid (pat : Pattern) (o : list call) (d : Dasher) (k : sketch) : Prop := {
  l_pattern : d_pattern d = pat;
  l_place : d_place d = k_place k;
  l_li : d_li d = k_li k;
  l_segs : segments (p_seg <$> k_pieces k);
  l_first : holds (d_first d) (lead (k_pieces k));
  l_starting : starting d = all_on (k_pieces k);
  l_needs : needsMoveTo d = negb (pen_down (k_pieces k));
  l_points : d_points d = mkPoints (fst (k_start k)) (snd (k_start k)) (fst (k_at k)) (snd (k_at k));
  l_out : o ++ d_out d = k_out k ++ inked false (after_lead (k_start k) (k_pieces k)) (others (k_pieces k));
  l_pts : alen (curCurvepts d) = 16 }.

Definition k_add (ps : list piece) (k : sketch) : sketch := mkSketch (k_start k) (k_pieces k ++ ps) (k_place k) (k_li k) (k_out k).
Definition k_with_place (p : Place) (k : sketch) : sketch := mkSketch (k_start k) (k_pieces k) p (k_li k) (k_out k).
Definition k_with_li (li : LengthIterator) (k : sketch) : sketch := mkSketch (k_start k) (k_pieces k) (k_place k) li (k_out k).

Lemma end_coordinates c : is_segment c = true ->
  aget (coordinates c) (segment_type c - 4) = Some (fst (end_of c)) /\ aget (coordinates c) (segment_type c - 3) = Some (snd (end_of c)).
Proof. by destruct c. Qed.

(** The bound on the pieces of a subpath keeps the size of the buffer an [int]. *)
Definition piece_limit : Z := 2 ^ 26.

Lemma goTo_ok pat o d k c pre post : laid pat o d k -> is_segment c = true -> curCurvepts d = pre ++ coordinates c ++ post ->
  alen (k_pieces k) < piece_limit ->
  exists d', goTo (alen pre) (segment_type c) d = Some d' /\ curCurvepts d' = curCurvepts d /\
    laid pat o d' (k_add [mkPiece (dashOn (k_place k)) c] k).
Proof.
  intros [Hpat Hpl Hli Hs Hf Hst Hn Hp Ho Hlen] Hc Hpts Hlim. unfold goTo. destruct (end_coordinates c Hc) as [E1 E2].
  replace (alen pre + segment_type c - 4) with (alen pre + (segment_type c - 4)) by lia.
  replace (alen pre + segment_type c - 3) with (alen pre + (segment_type c - 3)) by lia.
  rewrite Hpts, (aget_region pre _ post _ _ E1). mred. rewrite (aget_region pre _ post _ _ E2). mred. rewrite <- Hpts, Hpl, Hst.
  assert (Hsegs : segments (p_seg <$> k_pieces k ++ [mkPiece (dashOn (k_place k)) c])).
  { rewrite fmap_app. apply Forall_app. split; [done|]. by constructor. }
  assert (Hend : end_from (k_start k) (k_pieces k ++ [mkPiece (dashOn (k_place k)) c]) = end_of c) by (unfold end_from; by rewrite fold_left_app).
  assert (Hpen : pen_down (k_pieces k ++ [mkPiece (dashOn (k_place k)) c]) = negb (all_on (k_pieces k)) && dashOn (k_place k)).
  { unfold pen_down, last_on. rewrite all_on_snoc, fold_left_app. cbn. by destruct (all_on _), (dashOn _). }
  destruct (dashOn (k_place k)) eqn:Hon.
  - destruct (all_on (k_pieces k)) eqn:Ha.
    + assert (Hroom : firstSegidx (d_first d) < 2 ^ 29).
      { destruct Hf as [Hsl -> _]. pose proof (encoded_size _ Hsl). pose proof (lead_length (k_pieces k)). unfold alen, piece_limit in *. lia. }
      destruct (save_segment_ok (d_first d) _ c pre post Hf Hc Hroom) as (f' & E & Hf'). rewrite Hpts, E. mred. eexists. split; [done|]. split; [done|].
      split; cbn -[end_from all_on pen_down lead others inked after_lead k_at]; try done.
      * by rewrite lead_snoc, Ha.
      * rewrite all_on_snoc, Ha. done.
      * rewrite Hpen, Hn. unfold pen_down. by rewrite Ha.
      * unfold k_at, k_add. cbn [k_start k_pieces]. rewrite Hend, Hp. done.
      * rewrite others_snoc, Ha. cbn. rewrite Ho, others_all_on by done. done.
    + rewrite Hpts, Hn. destruct (pen_down (k_pieces k)) eqn:Epd; cbn [negb];
        (rewrite emitSeg_ok by done; mred; eexists; split; [done|]; split; [done|]; split; cbn -[end_from all_on pen_down lead others inked after_lead k_at]; try done).
      all: try (by rewrite lead_snoc, Ha); try (rewrite all_on_snoc, Ha; done); try (rewrite Hpen, Ha; done); try (by rewrite Hpen).
      all: try (unfold k_at, k_add; cbn [k_start k_pieces]; rewrite Hend, Hp; done).
      all: rewrite others_snoc, Ha, inked_app; unfold after_lead; rewrite lead_snoc, Ha; cbn [andb]; fold (after_lead (k_start k) (k_pieces k)).
      all: destruct (others_end (k_pieces k) Ha (k_start k) false false) as [-> ->]; unfold pen_down in Epd; rewrite Ha in Epd; cbn [negb andb] in Epd; rewrite Epd.
      all: cbn -[end_from after_lead others]; rewrite !app_assoc, Ho; try rewrite Hp; by rewrite <- !app_assoc.
  - mred. eexists. split; [done|]. split; [done|]. split; cbn -[end_from all_on pen_down lead others inked after_lead k_at]; try done.
    + rewrite lead_snoc. cbn. by rewrite andb_false_r.
    + rewrite all_on_snoc. cbn. by rewrite andb_false_r.
    + rewrite Hpen. by rewrite andb_false_r.
    + unfold k_at, k_add. cbn [k_start k_pieces]. rewrite Hend, Hp. done.
    + rewrite others_snoc. unfold after_lead. rewrite lead_snoc. cbn [p_on]. rewrite andb_false_r. fold (after_lead (k_start k) (k_pieces k)).
      rewrite Ho. destruct (all_on (k_pieces k)) eqn:Ha; [by rewrite others_all_on|]. rewrite inked_app. cbn. by rewrite app_nil_r.
Qed.

Lemma for_lt_ext {S} (f g : Z -> S -> option S) n : (forall i s, 0 <= i < n -> f i s = g i s) -> forall s, for_lt n f s = for_lt n g s.
Proof.
  unfold for_lt. intros Hfg. assert (Hf : forall k j s, 0 <= j -> j + Z.of_nat k <= Z.max 0 n -> for_from k j f s = for_from k j g s).
  { induction k as [|k IH]; intros j s Hj Hk; [done|]. cbn. rewrite Hfg by lia. destruct (g j s); [|done]. mred. apply IH; lia. }
  intros s. apply Hf; lia.
Qed.

Section laid.
Context (pat : Pattern) (o : list call).
Implicit Types (d : Dasher) (k : sketch).

Lemma laid_place p d k : laid pat o d k -> laid pat o (d_set_place p d) (k_with_place p k).
Proof. by intros []; split. Qed.

Lemma laid_li li d k : laid pat o d k -> laid pat o (d_set_li li d) (k_with_li li k).
Proof. by intros []; split. Qed.

Lemma laid_pts pts d k : laid pat o d k -> alen pts = 16 -> laid pat o (d_set_pts pts d) k.
Proof. by intros [] ?; split. Qed.

(** The current curve is stored at the front. *)
Lemma laid_store vs d k : laid pat o d k -> alen vs <= 16 ->
  exists rest, astore (curCurvepts d) 0 vs = Some (vs ++ rest) /\ laid pat o (d_set_pts (vs ++ rest) d) k.
Proof.
  intros H Hv. pose proof (l_pts _ _ _ _ H) as Hl. destruct (astore_prefix vs [] (curCurvepts d) ltac:(lia)) as [rest E]. cbn [app] in E.
  change (alen []) with 0 in E. exists rest. split; [exact E|]. apply laid_pts; [done|].
  destruct (astore_ok vs (curCurvepts d) 0) as (m' & E' & Hm); [lia|lia|]. rewrite E in E'. injection E' as <-. lia.
Qed.

Lemma next_dash_ok d k : laid pat o d k ->
  next_dash d = (fun p => d_set_place p d) <$> next_place (dash pat) (k_place k).
Proof. intros []. unfold next_dash, next_place. rewrite l_pattern0, l_place0. by destruct (_ =? 0). Qed.

(** A point of a line. *)
Lemma line_piece_ok x y d k : laid pat o d k -> alen (k_pieces k) < piece_limit ->
  exists pts d', astore (curCurvepts d) 0 [x; y] = Some pts /\ goTo 0 4 (d_set_pts pts d) = Some d' /\
    laid pat o d' (k_add [mkPiece (dashOn (k_place k)) (LineTo x y)] k).
Proof.
  intros H Hl. destruct (laid_store [x; y] d k H) as (rest & E & H1); [done|].
  destruct (goTo_ok pat o _ k (LineTo x y) [] rest H1) as (d' & E' & _ & H'); [done|done|done|]. by exists ([x; y] ++ rest), d'.
Qed.

Lemma k_add_add ps ps' p k : k_with_place p (k_add ps' (k_add ps k)) = k_with_place p (k_add (ps ++ ps') k).
Proof. unfold k_with_place, k_add. cbn. by rewrite app_assoc. Qed.

Lemma k_at_add ps k : k_at (k_add ps k) = end_from (k_at k) ps.
Proof. unfold k_at, k_add, end_from. cbn. by rewrite fold_left_app. Qed.

(** Dashing a line lays its pieces, or does not end just as cutting does not. *)
Lemma line_dashes_ok x1 y1 cx cy rounds : forall d k len, laid pat o d k -> alen (k_pieces k) + Z.of_nat rounds < piece_limit ->
  match cut_line rounds (dash pat) (x1, y1) cx cy (k_at k) len (k_place k) with
  | Some (ps, p) => exists d', line_dashes rounds x1 y1 cx cy len d = Some d' /\ laid pat o d' (k_with_place p (k_add ps k)) /\
      alen ps <= Z.of_nat rounds + 1
  | None => line_dashes rounds x1 y1 cx cy len d = None
  end.
Proof.
  induction rounds as [|rounds IH]; intros d k len H Hl.
  all: cbn [cut_line line_dashes]; rewrite (l_pattern _ _ _ _ H), (l_place _ _ _ _ H), (l_points _ _ _ _ H); cbn [d_x0 d_y0].
  all: destruct (aget (dash pat) (idx (k_place k))) as [da|]; [|done]; mred; destruct (fle len (da - phase (k_place k))%jf).
  1,3: destruct (line_piece_ok x1 y1 d k H ltac:(lia)) as (pts & d' & -> & E & H'); mred; rewrite E; mred;
    rewrite (l_place _ _ _ _ H'); cbn [fst snd]; set (p1 := mkPlace _ _ _);
    pose proof (laid_place p1 d' _ H') as H2; destruct (feq len _);
    [rewrite (next_dash_ok _ _ H2); cbn [k_with_place k_place]; destruct (next_place (dash pat) p1) as [p2|]; [|done]; mred;
     eexists; split; [done|]; split; [exact (laid_place p2 _ _ H2)|rewrite alen_cons, alen_nil; lia]
    |mred; eexists; split; [done|]; split; [exact H2|rewrite alen_cons, alen_nil; lia]].
  all: cbn [fst snd].
  all: set (cut := if feq (phase (k_place k)) f_zero then _ else _); destruct cut as [px py] eqn:Ecut.
  all: destruct (line_piece_ok px py d k H ltac:(lia)) as (pts & d' & -> & E & H'); mred; rewrite E; mred; rewrite (next_dash_ok _ _ H').
  all: cbn [k_add k_place]; destruct (next_place (dash pat) (k_place k)) as [p2|]; [|done]; mred.
  { done. }
  cbn [fst snd]. set (k1 := k_with_place p2 (k_add [mkPiece (dashOn (k_place k)) (LineTo px py)] k)).
  assert (H1 : laid pat o (d_set_place p2 d') k1) by (exact (laid_place p2 d' _ H')).
  assert (Hl1 : alen (k_pieces k1) + Z.of_nat rounds < piece_limit) by (cbn [k1 k_with_place k_add k_pieces]; rewrite alen_snoc; lia).
  specialize (IH _ k1 (len - (da - phase (k_place k)))%jf H1 Hl1).
  replace (k_at k1) with (px, py) in IH by (unfold k1, k_at, k_with_place, k_add, end_from; cbn; by rewrite fold_left_app).
  change (k_place k1) with p2 in IH. destruct (cut_line rounds _ _ _ _ _ _ _) as [[ps p]|]; [|exact IH]. mred.
  destruct IH as (d2 & E2 & H2 & L2). exists d2. split; [done|]. split; [|rewrite alen_cons; lia].
  replace (k_with_place p (k_add (_ :: ps) k)) with (k_with_place p (k_add ps k1)); [done|].
  unfold k1, k_with_place, k_add. cbn. by rewrite <- app_assoc.
Qed.

(** ** Laying curves *)

Definition curve_type (type : Z) : Prop := type = 6 \/ type = 8.

(** The curve at an offset of the array. *)
Definition curve_at (pts : list jfloat) (off type : Z) : list jfloat := take (Z.to_nat type) (drop (Z.to_nat off) pts).

Lemma curve_at_length pts off type : 0 <= off -> 0 <= type -> off + type <= alen pts -> alen (curve_at pts off type) = type.
Proof. intros. unfold curve_at, alen in *. rewrite length_take, length_drop. lia. Qed.

Lemma explicit {A} n (l : list A) : alen l = n ->
  (n = 6 -> exists a b c d e f : A, l = [a; b; c; d; e; f]) /\ (n = 8 -> exists a b c d e f g h : A, l = [a; b; c; d; e; f; g; h]).
Proof.
  unfold alen. intros Hl. split; intros ->; repeat (destruct l as [|? l]; [cbn in Hl; lia|]); (destruct l; [|cbn in Hl; lia]); by repeat eexists.
Qed.

Lemma curve_shape curve type : curve_type type -> alen curve = type ->
  is_segment (segment_of curve) = true /\ segment_type (segment_of curve) = type /\
  exists a b, curve = [a; b] ++ coordinates (segment_of curve).
Proof.
  intros [-> | ->] Hl.
  - destruct (proj1 (explicit 6 curve Hl) eq_refl) as (a & b & c & d & e & f & ->). do 2 (split; [done|]). by exists a, b.
  - destruct (proj2 (explicit 8 curve Hl) eq_refl) as (a & b & c & d & e & f & g & h & ->). do 2 (split; [done|]). by exists a, b.
Qed.

Lemma split_length t curve type : curve_type type -> alen curve = type -> alen (fst (split_at t curve)) = type /\ alen (snd (split_at t curve)) = type.
Proof.
  intros [-> | ->] Hl.
  - by destruct (proj1 (explicit 6 curve Hl) eq_refl) as (a & b & c & d & e & f & ->).
  - by destruct (proj2 (explicit 8 curve Hl) eq_refl) as (a & b & c & d & e & f & g & h & ->).
Qed.

(** Both parts of a curve are written over the array the curve is in. *)
Lemma split_in_place t type off pts : curve_type type -> off = 0 \/ off = type -> alen pts = 16 ->
  exists rest, Helpers_subdivideAt t 0 off (Some 0) 0 (Some 0) type type [pts] =
    Some [fst (split_at t (curve_at pts off type)) ++ snd (split_at t (curve_at pts off type)) ++ rest].
Proof.
  intros Ht Ho Hl. exists (drop (Z.to_nat (2 * type)) pts). unfold alen in Hl.
  do 16 (destruct pts as [|? pts]; [cbn in Hl; lia|]). destruct pts; [|cbn in Hl; lia].
  destruct Ht as [-> | ->], Ho as [-> | ->]; reflexivity.
Qed.

(** The segment of the curve at an offset is laid. *)
Lemma goTo_curve d k off type : laid pat o d k -> curve_type type -> 0 <= off -> off + type <= 16 -> alen (k_pieces k) < piece_limit ->
  exists d', goTo (off + 2) type d = Some d' /\ curCurvepts d' = curCurvepts d /\
    laid pat o d' (k_add [mkPiece (dashOn (k_place k)) (segment_of (curve_at (curCurvepts d) off type))] k).
Proof.
  intros H Ht Ho Hr Hl. pose proof (l_pts _ _ _ _ H) as H16. set (curve := curve_at (curCurvepts d) off type).
  assert (Hty : 0 <= type) by (destruct Ht; lia). assert (Hcl : alen curve = type) by (apply curve_at_length; lia).
  destruct (curve_shape curve type Ht Hcl) as (Hseg & Hst & a & b & Ec).
  assert (Hsplit : curCurvepts d = (take (Z.to_nat off) (curCurvepts d) ++ [a; b]) ++ coordinates (segment_of curve) ++ drop (Z.to_nat type) (drop (Z.to_nat off) (curCurvepts d))).
  { rewrite <- app_assoc. change ([a; b] ++ coordinates (segment_of curve) ++ ?x) with (([a; b] ++ coordinates (segment_of curve)) ++ x). rewrite app_assoc, <- Ec.
    unfold curve, curve_at. by rewrite <- app_assoc, !take_drop. }
  destruct (goTo_ok pat o d k (segment_of curve) _ _ H Hseg Hsplit Hl) as (d' & E & Hp & H'). exists d'. split; [|done].
  rewrite <- E, Hst. f_equal. rewrite alen_app. unfold alen in *. rewrite length_take. change (Z.of_nat (length [a; b])) with 2. lia.
Qed.

Definition k_next (ps : list piece) (li : LengthIterator) (p : Place) (k : sketch) : sketch :=
  mkSketch (k_start k) (k_pieces k ++ ps) p li (k_out k).

Lemma curve_at_front (l r : list jfloat) type : alen l = type -> curve_at (l ++ r) 0 type = l.
Proof. intros Hl. unfold curve_at. rewrite drop_0. replace (Z.to_nat type) with (length l) by (unfold alen in *; lia). apply take_app_length. Qed.

Lemma curve_at_second (l r m : list jfloat) type : alen l = type -> alen r = type -> curve_at (l ++ r ++ m) type type = r.
Proof.
  intros Hl Hr. unfold curve_at. replace (drop (Z.to_nat type) (l ++ r ++ m)) with (r ++ m).
  - replace (Z.to_nat type) with (length r) by (unfold alen in *; lia). apply take_app_length.
  - replace (Z.to_nat type) with (length l) by (unfold alen in *; lia). by rewrite drop_app_length.
Qed.

(** A cut of the curve: its first part is laid, and the second is the rest. *)
Lemma curve_piece_ok t d k off type : laid pat o d k -> curve_type type -> off = 0 \/ off = type -> alen (k_pieces k) < piece_limit ->
  let '(l, r) := split_at t (curve_at (curCurvepts d) off type) in
  exists pts d', Helpers_subdivideAt t 0 off (Some 0) 0 (Some 0) type type [curCurvepts d] = Some [pts] /\
    goTo 2 type (d_set_pts pts d) = Some d' /\ laid pat o d' (k_add [mkPiece (dashOn (k_place k)) (segment_of l)] k) /\
    curve_at (curCurvepts d') type type = r.
Proof.
  intros H Ht Ho Hl. pose proof (l_pts _ _ _ _ H) as H16. destruct (split_in_place t type off (curCurvepts d) Ht Ho H16) as [rest E].
  assert (Hty : type = 6 \/ type = 8) by exact Ht.
  destruct (split_length t (curve_at (curCurvepts d) off type) type Ht) as [L1 L2]; [apply curve_at_length; lia|].
  destruct (split_at t (curve_at (curCurvepts d) off type)) as [l r]. cbn [fst snd] in *.
  assert (Hlen : alen (l ++ r ++ rest) = 16).
  { destruct (subdivideAt_ok t type 0 off 0 0 0 type [curCurvepts d]) as (mem' & E' & Hsh).
    - unfold can_subdivide, has_room. cbn. repeat split; try done; eexists; (split; [reflexivity|lia]).
    - rewrite E in E'. injection E' as <-. unfold shape in Hsh. cbn in Hsh. injection Hsh as Hsh. unfold alen in *. lia. }
  pose proof (laid_pts _ _ _ H Hlen) as H1. destruct (goTo_curve _ _ 0 type H1 Ht ltac:(lia) ltac:(lia) Hl) as (d' & E' & Hp & H').
  cbn [d_set_pts curCurvepts] in Hp, H'. rewrite (curve_at_front l _ type L1) in H'. exists (l ++ r ++ rest), d'. split; [done|]. split; [done|]. split; [done|].
  rewrite Hp. by apply curve_at_second.
Qed.

(** One round: a cut, unless it would be at the start. *)
Lemma curve_round_ok t lastT d k off type : laid pat o d k -> curve_type type -> off = 0 \/ off = type -> alen (k_pieces k) < piece_limit ->
  exists ps lastT' curve off' d',
    (if negb (feq t f_zero) then
       let '(l, r) := split_at ((t - lastT) / (f_one - lastT))%jf (curve_at (curCurvepts d) off type) in
       ([mkPiece (dashOn (k_place k)) (segment_of l)], t, r)
     else ([], lastT, curve_at (curCurvepts d) off type)) = (ps, lastT', curve) /\
    (if negb (feq t f_zero) then
       mem ← Helpers_subdivideAt ((t - lastT) / (f_one - lastT))%jf 0 off (Some 0) 0 (Some 0) type type [curCurvepts d];
       pts ← aget mem 0;
       d ← goTo 2 type (d_set_pts pts d);
       Some (t, type, d)
     else Some (lastT, off, d)) = Some (lastT', off', d') /\
    laid pat o d' (k_add ps k) /\ (off' = 0 \/ off' = type) /\ curve_at (curCurvepts d') off' type = curve /\ alen ps <= 1.
Proof.
  intros H Ht Ho Hl. destruct (negb (feq t f_zero)).
  - pose proof (curve_piece_ok ((t - lastT) / (f_one - lastT))%jf d k off type H Ht Ho Hl) as Hc. destruct (split_at _ _) as [l r].
    destruct Hc as (pts & d' & E1 & E2 & H2 & Hr). do 5 eexists. split; [done|]. rewrite E1. mred. change (aget [pts] 0) with (Some pts). mred.
    rewrite E2. mred. split; [done|]. split; [exact H2|]. split; [by right|done].
  - do 5 eexists. split; [done|]. split; [done|]. split; [|done]. unfold k_add. rewrite app_nil_r. by destruct k.
Qed.

Lemma curve_dashes_ok pf type rounds : curve_type type -> forall d k left lastT off, laid pat o d k -> off = 0 \/ off = type ->
  alen (k_pieces k) + Z.of_nat rounds < piece_limit ->
  match cut_curve pf rounds (dash pat) left lastT (curve_at (curCurvepts d) off type) (k_li k) (k_place k) with
  | Some (ps, rest, li, p) => exists off' d', curve_dashes pf rounds type left lastT off d = Some (off', d') /\
      laid pat o d' (k_next ps li p k) /\ (off' = 0 \/ off' = type) /\ curve_at (curCurvepts d') off' type = rest /\ alen ps <= Z.of_nat rounds
  | None => curve_dashes pf rounds type left lastT off d = None
  end.
Proof.
  intros Ht. induction rounds as [|rounds IH]; intros d k left lastT off H Ho Hl.
  all: cbn [cut_curve curve_dashes]; rewrite (l_li _ _ _ _ H); destruct (LInext pf left (k_li k)) as [[t li]|]; [|done]; mred.
  all: pose proof (laid_li li d k H) as H1.
  all: destruct (flt t f_one); [|exists off, (d_set_li li d); split; [done|]; split;
    [unfold k_next; rewrite app_nil_r; exact H1|split; [done|split; [done|rewrite alen_nil; lia]]]].
  all: destruct (curve_round_ok t lastT _ _ off type H1 Ht Ho ltac:(cbn; lia)) as (ps & lastT' & curve & off1 & d1 & E1 & E2 & H2 & Ho1 & Hc1 & Hps).
  all: cbn [k_with_li k_place] in E1; change (curCurvepts (d_set_li li d)) with (curCurvepts d) in E1; rewrite E1, E2; mred.
  all: rewrite (next_dash_ok _ _ H2); cbn [k_add k_with_li k_place]; destruct (next_place (dash pat) (k_place k)) as [p2|]; [|done]; mred.
  all: pose proof (laid_place p2 _ _ H2) as H3; cbn [fmap option_fmap option_map mbind option_bind d_set_place d_pattern d_place];
    fold (d_set_place p2 d1); rewrite (l_pattern _ _ _ _ H2).
  all: destruct (aget (dash pat) (idx p2)) as [da|]; [|done]; mred.
  { done. }
  set (k1 := k_with_place p2 (k_add ps (k_with_li li k))) in *.
  assert (Hl1 : alen (k_pieces k1) + Z.of_nat rounds < piece_limit) by (cbn [k1 k_with_place k_add k_with_li k_pieces]; rewrite alen_app; lia).
  specialize (IH _ k1 da lastT' off1 H3 Ho1 Hl1). change (curCurvepts (d_set_place p2 d1)) with (curCurvepts d1) in IH. rewrite Hc1 in IH.
  change (k_li k1) with li in IH. change (k_place k1) with p2 in IH.
  destruct (cut_curve pf rounds _ _ _ _ _ _) as [[[[ps' rest] li'] p']|]; [|exact IH]. mred.
  destruct IH as (off2 & d2 & E3 & H4 & Ho2 & Hc2 & Hps2). exists off2, d2. split; [done|]. split; [|split; [done|split; [done|rewrite alen_app; lia]]].
  replace (k_next (ps ++ ps') li' p' k) with (k_next ps' li' p' k1); [done|]. unfold k_next, k1, k_with_place, k_add, k_with_li. cbn. by rewrite <- app_assoc.
Qed.

(** Comparing neighbouring points. *)
Lemma pointCurve_ok pts type : curve_type type -> alen pts = 16 -> pointCurve pts type = Some (is_point (curve_at pts 0 type)).
Proof.
  intros Ht Hl. unfold alen in Hl. do 16 (destruct pts as [|? pts]; [cbn in Hl; lia|]). destruct pts; [|cbn in Hl; lia].
  unfold pointCurve, is_point. generalize feq as eqf. intros eqf. destruct Ht as [-> | ->]; lazy -[andb]; by rewrite !andb_true_r, ?andb_assoc.
Qed.

(** Only the points of the curve are copied. *)
Lemma arraycopy_front (pts dst : list jfloat) type : 0 <= type <= alen pts ->
  arraycopy pts type dst = arraycopy (curve_at pts 0 type) type dst.
Proof.
  intros Ht. unfold arraycopy. apply for_lt_ext. intros i m Hi. replace (aget (curve_at pts 0 type) i) with (aget pts i); [done|].
  unfold curve_at. rewrite drop_0, !aget_lookup by lia. by rewrite lookup_take_lt by lia.
Qed.

Lemma initialize_front pts type li : 0 <= type <= alen pts ->
  LIinitializeIterationOnCurve pts type li = LIinitializeIterationOnCurve (curve_at pts 0 type) type li.
Proof.
  intros Ht. unfold LIinitializeIterationOnCurve, aupd. destruct (aget _ 0) as [v|]; [|done]. mred. by rewrite (arraycopy_front pts v type Ht).
Qed.

(** Dashing a curve, given with its first point at the front of the array. *)
Lemma somethingTo_ok pf fuel d k curve type : laid pat o d k -> curve_type type -> curve_at (curCurvepts d) 0 type = curve ->
  alen (k_pieces k) + Z.of_nat fuel < piece_limit ->
  match cut_along pf fuel (dash pat) curve (k_li k) (k_place k) with
  | Some (ps, li, p) => exists d', somethingTo pf fuel type d = Some d' /\ laid pat o d' (k_next ps li p k) /\ alen ps <= Z.of_nat fuel + 1
  | None => somethingTo pf fuel type d = None
  end.
Proof.
  intros H Ht Hc Hl. pose proof (l_pts _ _ _ _ H) as H16. assert (Hty : type = 6 \/ type = 8) by exact Ht.
  assert (Hcl : alen curve = type) by (rewrite <- Hc; apply curve_at_length; lia).
  unfold somethingTo, cut_along. rewrite (pointCurve_ok _ _ Ht H16), Hc. mred. destruct (is_point curve).
  { exists d. split; [done|]. split; [unfold k_next; rewrite app_nil_r; by destruct k|rewrite alen_nil; lia]. }
  rewrite (initialize_front (curCurvepts d) type) by lia. rewrite Hc, Hcl, (l_li _ _ _ _ H).
  destruct (LIinitializeIterationOnCurve curve type (k_li k)) as [li|]; [|done]. mred.
  rewrite (l_pattern _ _ _ _ H), (l_place _ _ _ _ H). destruct (aget (dash pat) (idx (k_place k))) as [da|]; [|done]. mred.
  pose proof (laid_li li d k H) as H1.
  pose proof (curve_dashes_ok pf type fuel Ht _ _ (da - phase (k_place k))%jf f_zero 0 H1 (or_introl eq_refl) Hl) as Hd.
  change (curCurvepts (d_set_li li d)) with (curCurvepts d) in Hd. rewrite Hc in Hd. cbn [k_with_li k_li k_place] in Hd.
  destruct (cut_curve _ _ _ _ _ _ _ _) as [[[[ps rest] li'] p]|]; [|by rewrite Hd]. destruct Hd as (off & d1 & E1 & H2 & Ho & Hr & Hps).
  rewrite E1. mred. destruct (goTo_curve d1 _ off type H2 Ht) as (d2 & E2 & _ & H3); [lia|lia|cbn; rewrite alen_app; lia|].
  rewrite E2, Hr in *. mred. cbn [k_next k_place] in H3.
  rewrite (l_place _ _ _ _ H3), (l_li _ _ _ _ H3). cbn [k_add k_next k_place k_li]. set (p1 := mkPlace _ _ _).
  pose proof (laid_place p1 d2 _ H3) as H4. cbn [d_set_place d_pattern d_place]. fold (d_set_place p1 d2). rewrite (l_pattern _ _ _ _ H3).
  change (idx p1) with (idx p). destruct (aget (dash pat) (idx p)) as [da'|]; [|done]. mred.
  assert (Hk : forall q, k_with_place q (k_add [mkPiece (dashOn p) (segment_of rest)] (k_next ps li' p (k_with_li li k))) =
    k_next (ps ++ [mkPiece (dashOn p) (segment_of rest)]) li' q k) by (intros q; unfold k_with_place, k_add, k_next; cbn; by rewrite <- app_assoc).
  destruct (fle da' (phase p1)).
  - rewrite (next_dash_ok _ _ H4). cbn [k_with_place k_place]. destruct (next_place (dash pat) p1) as [p2|]; [|done]. mred.
    eexists. split; [done|]. split; [rewrite <- Hk; exact (laid_place p2 _ _ H4)|rewrite alen_snoc; lia].
  - mred. eexists. split; [done|]. split; [rewrite <- Hk; exact H4|rewrite alen_snoc; lia].
Qed.

(** ** Calls *)

(** The lead is drawn at the end of a subpath. *)
Lemma flush_ok joined d k : laid pat o d k -> exists f l,
  (if 0 <? firstSegidx (d_first d) then
     emitFirstSegments (if (joined : bool) then d else d_say (MoveTo (fst (k_start k)) (snd (k_start k))) d)
   else Some d) = Some (d_set_first f (d_set_out l d)) /\
  holds f [] /\ o ++ l = k_out k ++ dashes_of (k_start k) joined (k_pieces k).
Proof.
  intros [Hpat Hpl Hli Hs Hf Hst Hn Hp Ho Hlen]. unfold dashes_of. pose proof Hf as [Hfs Hfi _]. destruct (lead (k_pieces k)) as [|c cs] eqn:El.
  - rewrite Hfi. cbn. exists (d_first d), (d_out d). split; [by destruct d|]. split; [done|]. by rewrite Ho, app_nil_r.
  - apply Forall_cons_1 in Hfs as [Hc _]. pose proof (segment_type_range c Hc).
    change (concat (encode <$> c :: cs)) with (encode c ++ concat (encode <$> cs)) in Hfi. rewrite alen_app, encode_length in Hfi.
    pose proof (alen_nonneg (concat (encode <$> cs))). rewrite (proj2 (Z.ltb_lt _ _)) by lia. destruct joined.
    + destruct (emitFirstSegments_ok d (c :: cs) Hf) as (f & -> & Hf'). exists f, (d_out d ++ c :: cs). split; [done|]. split; [done|].
      by rewrite app_assoc, Ho, <- app_assoc.
    + destruct (emitFirstSegments_ok (d_say (MoveTo (fst (k_start k)) (snd (k_start k))) d) (c :: cs) Hf) as (f & -> & Hf').
      exists f, ((d_out d ++ [MoveTo (fst (k_start k)) (snd (k_start k))]) ++ c :: cs). split; [done|]. split; [done|].
      rewrite !app_assoc, Ho, <- !app_assoc. done.
Qed.

(** Beginning a subpath with an empty buffer. *)
Lemma begin_ok x y d k cs : laid pat o d k -> forall f l, holds f [] -> o ++ l = k_out k ++ cs ->
  exists d', Dasher_MoveTo x y (d_set_first f (d_set_out l d)) = Some d' /\ laid pat o d' (k_move pat (x, y) cs k).
Proof.
  intros [Hpat Hpl Hli Hs Hf Hst Hn Hp Ho Hlen] f l Hf' Hl. pose proof Hf' as [_ Hi _]. unfold Dasher_MoveTo. cbn [d_set_first d_set_out d_first].
  rewrite Hi. cbn. eexists. split; [done|]. split; cbn; try done; [by rewrite Hpat|constructor|by rewrite app_nil_r].
Qed.

Lemma moveTo_ok x y d k : laid pat o d k ->
  exists d', Dasher_MoveTo x y d = Some d' /\ laid pat o d' (k_move pat (x, y) (dashes_of (k_start k) false (k_pieces k)) k).
Proof.
  intros H. destruct (flush_ok false d k H) as (f & l & E & Hf & Hl). destruct (begin_ok x y d k _ H f l Hf Hl) as (d' & E' & H').
  exists d'. split; [|done]. rewrite <- E'. unfold Dasher_MoveTo at 1. rewrite (l_points _ _ _ _ H). cbn [d_sx d_sy]. cbv iota in E. rewrite E. mred.
  unfold Dasher_MoveTo. cbn [d_set_first d_set_out d_first]. destruct Hf as [_ -> _]. done.
Qed.

Lemma lineTo_ok fuel x y d k : laid pat o d k -> alen (k_pieces k) + Z.of_nat fuel < piece_limit ->
  match k_line fuel pat (x, y) k with
  | Some k' => exists d', Dasher_LineTo fuel x y d = Some d' /\ laid pat o d' k' /\ alen (k_pieces k') <= alen (k_pieces k) + Z.of_nat fuel + 1 /\
      k_start k' = k_start k
  | None => Dasher_LineTo fuel x y d = None
  end.
Proof.
  intros H Hl. unfold k_line, cut_to, Dasher_LineTo. rewrite (l_points _ _ _ _ H). cbn [d_x0 d_y0 fst snd]. destruct (feq _ f_zero).
  { mred. exists d. split; [done|]. rewrite app_nil_r. split; [by destruct k|]. cbn. split; [lia|done]. }
  pose proof (line_dashes_ok x y ((x - fst (k_at k)) / fsqrt ((x - fst (k_at k)) * (x - fst (k_at k)) + (y - snd (k_at k)) * (y - snd (k_at k))))%jf
    ((y - snd (k_at k)) / fsqrt ((x - fst (k_at k)) * (x - fst (k_at k)) + (y - snd (k_at k)) * (y - snd (k_at k))))%jf fuel d k
    (fsqrt ((x - fst (k_at k)) * (x - fst (k_at k)) + (y - snd (k_at k)) * (y - snd (k_at k))))%jf H Hl) as Hd.
  destruct (cut_line _ _ _ _ _ _ _ _) as [[ps p]|]; [|exact Hd]. mred. destruct Hd as (d' & E & H' & Hps). exists d'. split; [done|].
  split; [exact H'|]. cbn. split; [rewrite alen_app; lia|done].
Qed.

Lemma curveTo_ok pf fuel coords d k : laid pat o d k -> curve_type (alen coords + 2) -> alen (k_pieces k) + Z.of_nat fuel < piece_limit ->
  match k_curve pf fuel pat coords k with
  | Some k' => exists d', (pts ← astore (curCurvepts d) 0 (fst (k_at k) :: snd (k_at k) :: coords);
        somethingTo pf fuel (alen coords + 2) (d_set_pts pts d)) = Some d' /\ laid pat o d' k' /\
      alen (k_pieces k') <= alen (k_pieces k) + Z.of_nat fuel + 1
  | None => (pts ← astore (curCurvepts d) 0 (fst (k_at k) :: snd (k_at k) :: coords); somethingTo pf fuel (alen coords + 2) (d_set_pts pts d)) = None
  end.
Proof.
  intros H Ht Hl. assert (Hty : alen coords + 2 = 6 \/ alen coords + 2 = 8) by exact Ht. unfold k_curve.
  destruct (laid_store (fst (k_at k) :: snd (k_at k) :: coords) d k H) as (rest & -> & H1); [rewrite !alen_cons; lia|]. mred.
  pose proof (somethingTo_ok pf fuel _ _ (fst (k_at k) :: snd (k_at k) :: coords) _ H1 Ht) as Hd. cbn [d_set_pts curCurvepts] in Hd.
  rewrite curve_at_front in Hd by (rewrite !alen_cons; lia). specialize (Hd eq_refl Hl).
  destruct (cut_along _ _ _ _ _ _) as [[[ps li] p]|]; [|exact Hd]. mred. destruct Hd as (d' & E & H' & Hps). exists d'. split; [done|].
  split; [exact H'|]. cbn. rewrite alen_app. lia.
Qed.

Lemma closePath_ok fuel d k : laid pat o d k -> alen (k_pieces k) + Z.of_nat fuel < piece_limit ->
  match dash_call plain_platform fuel pat ClosePath k with
  | Some k' => exists d', Dasher_ClosePath fuel d = Some d' /\ laid pat o d' k' /\ k_pieces k' = []
  | None => Dasher_ClosePath fuel d = None
  end.
Proof.
  intros H Hl. cbn [dash_call]. unfold Dasher_ClosePath. rewrite (l_points _ _ _ _ H). cbn [d_sx d_sy].
  pose proof (lineTo_ok fuel (fst (k_start k)) (snd (k_start k)) d k H Hl) as Hd. rewrite <- surjective_pairing in Hd.
  destruct (k_line fuel pat (k_start k) k) as [k1|]; [|by rewrite Hd]. destruct Hd as (d1 & -> & H1 & _ & Hs). mred.
  destruct (flush_ok (dashOn (k_place k1) && pen_down (k_pieces k1)) d1 k1 H1) as (f & l & E & Hf & Ho).
  destruct (begin_ok (fst (k_start k1)) (snd (k_start k1)) d1 k1 _ H1 f l Hf Ho) as (d2 & E2 & H2). exists d2. rewrite <- surjective_pairing in H2.
  split; [|done]. rewrite (l_place _ _ _ _ H1), (l_needs _ _ _ _ H1). rewrite <- negb_andb. rewrite <- Hs. revert E.
  destruct (0 <? firstSegidx (d_first d1)); [|by intros [= ->]]. by destruct (dashOn _ && pen_down _); cbn [negb]; intros ->.
Qed.

Lemma dash_call_ok pf fuel c d k : c <> PathDone -> laid pat o d k -> alen (k_pieces k) + Z.of_nat fuel < piece_limit ->
  match dash_call pf fuel pat c k with
  | Some k' => exists d', Dasher_call pf fuel c d = Some d' /\ laid pat o d' k' /\ alen (k_pieces k') <= alen (k_pieces k) + Z.of_nat fuel + 1
  | None => Dasher_call pf fuel c d = None
  end.
Proof.
  intros Hc H Hl. pose proof (alen_nonneg (k_pieces k)). destruct c as [x y|x y|xc yc x y|xc0 yc0 xc1 yc1 x y| |]; [..|done].
  - destruct (moveTo_ok x y d k H) as (d' & E & H'). exists d'. split; [exact E|]. split; [exact H'|]. cbn. rewrite alen_nil. lia.
  - pose proof (lineTo_ok fuel x y d k H Hl) as Hd. cbn [dash_call Dasher_call]. destruct (k_line _ _ _ _); [|exact Hd].
    destruct Hd as (d' & E & H' & Hp & _). by exists d'.
  - pose proof (curveTo_ok pf fuel [xc; yc; x; y] d k H (or_introl eq_refl) Hl) as Hd. cbn [dash_call Dasher_call]. unfold Dasher_QuadTo.
    rewrite (l_points _ _ _ _ H). exact Hd.
  - pose proof (curveTo_ok pf fuel [xc0; yc0; xc1; yc1; x; y] d k H (or_intror eq_refl) Hl) as Hd. cbn [dash_call Dasher_call]. unfold Dasher_CurveTo.
    rewrite (l_points _ _ _ _ H). exact Hd.
  - pose proof (closePath_ok fuel d k H Hl) as Hd. cbn [dash_call Dasher_call] in *. destruct (k_line _ _ _ _) as [k1|]; [|exact Hd].
    mred. destruct Hd as (d' & E & H' & Hp). exists d'. split; [done|]. split; [done|]. rewrite Hp, alen_nil. lia.
Qed.
End laid.

(** ** Paths *)

Lemma laid_out pat o d k : laid pat o d k -> laid pat (o ++ d_out d) (d_set_out [] d) k.
Proof. intros []. split; cbn; try done. by rewrite app_nil_r. Qed.

Lemma dash_op pf fuel c d o :
  call_on (dasher_consumer pf fuel recorder) c (d, o) = (fun d => (d_set_out [] d, o ++ d_out d)) <$> Dasher_call pf fuel c d.
Proof.
  unfold dasher_consumer. rewrite filtered_call. unfold Dasher_op. destruct (Dasher_call pf fuel c d) as [d'|]; [|done]. mred.
  rewrite play_recorder. done.
Qed.

Lemma path_ok pf fuel pat path : Forall not_done path -> forall o d k, laid pat o d k ->
  alen (k_pieces k) + (alen path + 1) * (Z.of_nat fuel + 1) <= piece_limit ->
  snd <$> play (dasher_consumer pf fuel recorder) (path ++ [PathDone]) (d, o) = k_out <$> dash_path pf fuel pat (path ++ [PathDone]) k.
Proof.
  induction 1 as [|c path Hc _ IH]; intros o d k H Hl; cbn [app play dash_path]; rewrite dash_op.
  - cbn [Dasher_call dash_call]. unfold Dasher_PathDone. rewrite (l_points _ _ _ _ H). cbn [d_sx d_sy].
    destruct (flush_ok pat o false d k H) as (f & l & E & _ & Ho). cbv iota in E. rewrite E. cbn. by rewrite !app_assoc, Ho, <- !app_assoc.
  - rewrite alen_cons in Hl. pose proof (alen_nonneg path).
    pose proof (dash_call_ok pat o pf fuel c d k Hc H ltac:(nia)) as Hd. destruct (dash_call pf fuel pat c k) as [k1|]; [|by rewrite Hd].
    destruct Hd as (d1 & -> & H1 & Hp). mred. apply IH; [by apply laid_out|lia].
Qed.

Lemma dasher_equiv (pf : platform) (fuel : nat) (dashes : list jfloat) (ph : jfloat) (d : Dasher) (x y : jfloat) (path : list call) :
  Dasher_init fuel dashes ph = Some d -> Forall not_done path -> (alen path + 1) * (Z.of_nat fuel + 1) <= 2 ^ 26 ->
  snd <$> play (dasher_consumer pf fuel recorder) (MoveTo x y :: path ++ [PathDone]) (d, []) =
  k_out <$> dash_path pf fuel (d_pattern d) (path ++ [PathDone])
    (mkSketch (x, y) [] (mkPlace (startIdx (d_pattern d)) (startDashOn (d_pattern d)) (startPhase (d_pattern d))) LI_zero []).
Proof.
  unfold Dasher_init, Dasher_reset. intros E Hp Hl. destruct (normalize_phase fuel dashes ph) as [p|]; [|done]. injection E as <-.
  cbn [play]. rewrite dash_op. apply path_ok; [done| |exact Hl]. split; try done; [constructor|]. split; [constructor|done|by exists (new_float 7)].
Qed.

(** C7: the dasher draws the dashes.  For every path that begins a subpath and every
    pattern, the calls the dasher makes are those of the reference: each subpath is cut
    into pieces along the pattern, a dash that the subpath begins with is drawn last,
    joined to the closing dash of a closed subpath, and every other dash begins with a
    move to its first point.  The reference has no buffer of first segments: the
    dasher's own is large enough for every subpath.  The dasher fails exactly where
    cutting a segment fails: where it does not end within the fuel, where the pattern
    is empty, and where the length iterator, which both use, leaves its arrays (on a
    curve that has no length). *)
Theorem dasher_dashes (pf : platform) (fuel : nat) (dashes : list jfloat) (ph : jfloat) (d : Dasher) (x y : jfloat) (path : list call) :
  Dasher_init fuel dashes ph = Some d -> Forall not_done path -> (alen path + 1) * (Z.of_nat fuel + 1) <= 2 ^ 26 ->
  snd <$> play (dasher_consumer pf fuel recorder) (MoveTo x y :: path ++ [PathDone]) (d, []) =
  k_out <$> dash_path pf fuel (d_pattern d) (path ++ [PathDone])
    (mkSketch (x, y) [] (mkPlace (startIdx (d_pattern d)) (startDashOn (d_pattern d)) (startPhase (d_pattern d))) LI_zero []).
Proof. exact (dasher_equiv pf fuel dashes ph d x y path). Qed.

(** A square of side 4 dashed with 3 and 2: the last dash goes on into the first. *)
Definition square_path : list call :=
  [LineTo (of_int 4) f_zero; LineTo (of_int 4) (of_int 4); LineTo f_zero (of_int 4); ClosePath].

Lemma dasher_dashes_witness :
  exists d, Dasher_init 9 [of_int 3; two] f_zero = Some d /\
  snd <$> play (dasher_consumer plain_platform 9 recorder) (MoveTo f_zero f_zero :: square_path ++ [PathDone]) (d, []) =
  Some [MoveTo (of_int 4) f_one; LineTo (of_int 4) (of_int 4); MoveTo two (of_int 4); LineTo f_zero (of_int 4); LineTo f_zero three;
        MoveTo f_zero f_one; LineTo f_zero f_zero; LineTo three f_zero; PathDone].
Proof.
  eexists. split; [reflexivity|]. rewrite (dasher_dashes plain_platform 9 [of_int 3; two] f_zero); [|reflexivity|repeat constructor; discriminate|done].
  vm_compute. reflexivity.
Defined.
