(* ===== verification/PrismDashExact.v ===== *)
(** * Exact dashes

    Along a horizontal or vertical line whose coordinates and dashes are fixed-point
    numbers of one scale, dashing is exact: the cuts are the partial sums of the pattern
    and the number of rounds is bounded by the length ([axis_dashes]).  Without such
    bounds the loop need not end ([line_never_ends]). *)

From Stdlib Require Import SpecFloat.
From S2P Require Import Prelude.
From S2P Require Import Float32.
From S2P Require Import FloatRound.
From S2P Require Import FloatExact.
From S2P Require Import PrismRenderer.
From S2P Require Import PrismRasterizer.
From S2P Require Import PrismHelpers.
From S2P Require Import PrismStroker.
From S2P Require Import PrismCalls.
From S2P Require Import PrismDasher.
From S2P Require Import PrismOutlines.
From S2P Require Import PrismDashes.
From S2P Require Import PrismScan.

(** The dash of round [k], and where it begins: the sum of the dashes before. *)
Definition cyclic (ds : list Z) (k : nat) : Z := nth (k mod length ds) ds 0.
Fixpoint mark (ds : list Z) (k : nat) : Z := match k with O => 0 | S k => mark ds k + cyclic ds k end.

Section axis.
Context (j : Z) (ds : list Z) (x y ux uy L : Z).
Hypothesis Hj : fx_scale j.
Hypothesis Hds : Forall (fun d => 0 < d < 2 ^ 24) ds.
Hypothesis Hne : ds <> [].
Hypothesis Hu : (ux = 0 /\ Z.abs uy = 1) \/ (Z.abs ux = 1 /\ uy = 0).
Hypothesis HL : 0 < L < 2 ^ 12.
Hypothesis Hx : Z.abs x < 2 ^ 23.
Hypothesis Hy : Z.abs y < 2 ^ 23.

(** The point at distance [p]. *)
Definition along (p : Z) : point := (fx j (x + ux * p), fx j (y + uy * p)).

Definition axis_piece (k : nat) : piece :=
  mkPiece (Nat.even k) (let p := along (Z.min L (mark ds (S k))) in LineTo (fst p) (snd p)).

Lemma cyclic_range k : 0 < cyclic ds k < 2 ^ 24.
Proof.
  unfold cyclic. assert (Hl : length ds <> 0%nat) by (by destruct ds). rewrite List.Forall_forall in Hds. apply Hds. apply nth_In. by apply Nat.mod_upper_bound.
Qed.

Lemma mark_mono k k' : (k <= k')%nat -> mark ds k + Z.of_nat (k' - k) <= mark ds k'.
Proof. induction 1 as [|k' Hk IH]; [rewrite Nat.sub_diag; lia|]. cbn [mark]. pose proof (cyclic_range k'). lia. Qed.

Definition spot (k : nat) : Place := mkPlace (Z.of_nat (k mod length ds)) (Nat.even k) f_zero.

Lemma length_pos : length ds <> 0%nat.
Proof. by destruct ds. Qed.

Lemma dash_at k : aget (fx j <$> ds) (Z.of_nat (k mod length ds)) = Some (fx j (cyclic ds k)).
Proof.
  pose proof length_pos as Hl. rewrite aget_lookup, Nat2Z.id by lia. rewrite list_lookup_fmap. unfold cyclic.
  destruct (nth_lookup_or_length ds (k mod length ds) 0) as [->|Hge]; [done|]. pose proof (Nat.mod_upper_bound k (length ds) Hl). lia.
Qed.

Lemma next_spot k p : idx p = Z.of_nat (k mod length ds) -> dashOn p = Nat.even k -> next_place (fx j <$> ds) p = Some (spot (S k)).
Proof.
  intros Hi Ho. pose proof length_pos as Hl. unfold next_place. rewrite alen_fmap. unfold alen. destruct (Z.eqb_spec (Z.of_nat (length ds)) 0); [lia|].
  unfold spot. f_equal. f_equal.
  - rewrite Hi, Z.rem_mod_nonneg by lia. rewrite !Nat2Z.inj_mod, Zplus_mod_idemp_l. f_equal. lia.
  - rewrite Ho, Nat.even_succ. by rewrite <- Nat.negb_even.
Qed.

Lemma fits_small n : Z.abs n < 2 ^ 24 -> fits24 n.
Proof. done. Qed.

(** The next cut. *)
Lemma along_step p d : 0 <= p -> 0 < d -> p + d <= L -> (fadd (fst (along p)) (fmul (fx j d) (fx 0 ux)), fadd (snd (along p)) (fmul (fx j d) (fx 0 uy))) = along (p + d).
Proof.
  intros Hp Hd Hl. unfold along. cbn [fst snd]. rewrite !fmul_fx_sign by (try done; try lia; unfold fits24; lia).
  rewrite !fadd_fx by (try done; unfold fits24; nia). f_equal; f_equal; lia.
Qed.

(** From the mark [k] on: the rest of the pieces, one per round. *)
Lemma cut_line_exact K : mark ds K < L <= mark ds (S K) -> forall n k, (k + n = K)%nat -> forall rounds, (n <= rounds)%nat ->
  exists p, cut_line rounds (fx j <$> ds) (along L) (fx 0 ux) (fx 0 uy) (along (mark ds k)) (fx j (L - mark ds k)) (spot k) =
    Some (axis_piece <$> seq k (S n), p).
Proof.
  intros HK. induction n as [|n IH]; intros k Hk rounds Hr; pose proof (cyclic_range k) as Hc; pose proof (mark_mono 0 k ltac:(lia)) as Hm0; cbn [mark] in Hm0.
  all: pose proof (mark_mono k K ltac:(lia)) as HkK.
  - rewrite Nat.add_0_r in Hk. subst k. cbn [mark] in HK.
    assert (Hlast : axis_piece K = mkPiece (Nat.even K) (LineTo (fst (along L)) (snd (along L)))).
    { unfold axis_piece. cbn [mark]. by rewrite Z.min_l by lia. }
    cbn [seq fmap list_fmap]. rewrite Hlast.
    destruct rounds as [|rounds]; cbn [cut_line spot idx dashOn phase]; rewrite dash_at; mred; rewrite <- (fx_zero j), fsub_fx, Z.sub_0_r by (try done; unfold fits24; lia);
      rewrite fle_fx, (proj2 (Z.leb_le _ _)) by (try done; unfold fits24; lia); rewrite (next_spot K) by done; destruct (feq _ _); mred; by eexists.
  - destruct rounds as [|rounds]; [lia|]. pose proof (mark_mono (S k) K ltac:(lia)) as HSk. cbn [mark] in HSk.
    destruct (IH (S k) ltac:(lia) rounds ltac:(lia)) as [p Ep]. exists p.
    assert (Hpiece : axis_piece k = mkPiece (Nat.even k) (LineTo (fst (along (mark ds (S k)))) (snd (along (mark ds (S k)))))).
    { unfold axis_piece. cbn [mark]. by rewrite Z.min_r by lia. }
    change (seq k (S (S n))) with (k :: seq (S k) (S n)). rewrite fmap_cons, Hpiece.
    cbn [cut_line spot idx dashOn phase]. rewrite dash_at. mred. rewrite <- (fx_zero j), fsub_fx, Z.sub_0_r by (try done; unfold fits24; lia).
    rewrite fle_fx, (proj2 (Z.leb_gt _ _)) by (try done; unfold fits24; lia). rewrite feq_fx, Z.eqb_refl by (try done; unfold fits24; lia).
    rewrite (next_spot k) by done. mred. rewrite along_step by lia. rewrite fsub_fx by (try done; unfold fits24; lia).
    replace (L - mark ds k - cyclic ds k) with (L - mark ds (S k)) by (cbn [mark]; lia). change (mark ds k + cyclic ds k) with (mark ds (S k)).
    rewrite Ep. mred. done.
Qed.

(** ** The length and the direction *)

Lemma square_L : 0 < L * L < 2 ^ 24.
Proof. change (2 ^ 24) with (2 ^ 12 * 2 ^ 12). nia. Qed.

Lemma hypot a b : (Z.abs a = L /\ b = 0) \/ (a = 0 /\ Z.abs b = L) ->
  fadd (fmul (fx j a) (fx j a)) (fmul (fx j b) (fx j b)) = fx (2 * j) (L * L).
Proof.
  assert (Hs : fx_scale j) by exact Hj. unfold fx_scale in Hs. pose proof square_L as HLL.
  destruct (fixed_cases f32_prec f32_emax f32_prec_ok f32_emax_ok (2 * j) (L * L)) as [[? _]|(_ & M & E & _ & _ & _ & EL)];
    [unfold fits, f32_prec; lia|apply fx_scale_ok; lia|lia|].
  assert (Hsq : forall c, Z.abs c = L -> fmul (fx j c) (fx j c) = fx (2 * j) (L * L)).
  { intros c Hc. rewrite (fmul_fx_square j Hj c), Hc; [done|lia|]. unfold fits24. replace (c * c) with (Z.abs c * Z.abs c) by nia. rewrite Hc. lia. }
  intros [[Ha ->]|[-> Hb]]; [rewrite (Hsq a Ha)|rewrite (Hsq b Hb)]; unfold fx, fadd; rewrite EL; done.
Qed.

Lemma axis_cut fuel K : mark ds K < L <= mark ds (S K) -> (K <= fuel)%nat -> exists p,
  cut_to fuel (fx j <$> ds) (along L) (along 0) (spot 0) = Some (axis_piece <$> seq 0 (S K), p).
Proof.
  intros HK Hf. unfold cut_to, along. cbn [fst snd]. rewrite !fsub_fx by (try done; unfold fits24; nia).
  replace (x + ux * L - (x + ux * 0)) with (ux * L) by lia. replace (y + uy * L - (y + uy * 0)) with (uy * L) by lia.
  rewrite hypot by nia. rewrite fsqrt_fx by (try done; unfold fits24; nia).
  rewrite <- (fx_zero j), feq_fx by (try done; unfold fits24; lia). destruct (Z.eqb_spec L 0); [lia|].
  rewrite !fdiv_fx_sign by (try done; unfold fits24; nia). replace (Z.sgn (ux * L)) with ux by nia. replace (Z.sgn (uy * L)) with uy by nia.
  destruct (cut_line_exact K HK K 0 eq_refl fuel Hf) as [p Ep]. exists p. rewrite <- Ep. cbn [mark]. by rewrite Z.sub_0_r.
Qed.

(** The last dash that begins on the line. *)
Lemma last_mark : exists K, (K <= Z.to_nat L)%nat /\ mark ds K < L <= mark ds (S K).
Proof.
  assert (Hf : forall n, L <= mark ds n -> exists K, (K < n)%nat /\ mark ds K < L <= mark ds (S K)).
  { induction n as [|n IH]; intros Hn; [cbn in Hn; lia|]. destruct (Z.le_gt_cases L (mark ds n)) as [Hle|Hgt]; [|by exists n; lia].
    destruct (IH Hle) as (K & HK & Hm). exists K. split; [lia|done]. }
  pose proof (mark_mono 0 (Z.to_nat L) ltac:(lia)) as Hm. cbn [mark] in Hm. destruct (Hf (Z.to_nat L) ltac:(lia)) as (K & ? & ?). exists K. split; [lia|done].
Qed.

(** ** What is drawn *)

(** The dash of round [k], up to the end of the line. *)
Definition dash_calls (k : nat) : list call :=
  let a := along (mark ds k) in let b := along (Z.min L (mark ds (S k))) in [MoveTo (fst a) (snd a); LineTo (fst b) (snd b)].

Lemma inked_axis K n : mark ds K < L -> forall k down, (k + n <= S K)%nat -> (Nat.even k = true -> down = false) ->
  inked down (along (mark ds k)) (axis_piece <$> seq k n) = concat (dash_calls <$> filter (fun k => Nat.even k = true) (seq k n)).
Proof.
  intros HK. induction n as [|n IH]; intros k down Hk Hd; [done|]. cbn [seq]. rewrite fmap_cons, filter_cons. cbn [inked axis_piece p_on p_seg].
  assert (Hend : forall down, (Nat.even (S k) = true -> down = false) ->
    inked down (end_of (LineTo (fst (along (Z.min L (mark ds (S k))))) (snd (along (Z.min L (mark ds (S k))))))) (axis_piece <$> seq (S k) n) =
    concat (dash_calls <$> filter (fun k => Nat.even k = true) (seq (S k) n))).
  { intros down' Hd'. destruct n as [|n]; [done|]. pose proof (mark_mono (S k) K ltac:(lia)). rewrite Z.min_r by lia.
    cbn [end_of]. rewrite <- surjective_pairing. apply IH; [lia|done]. }
  rewrite Nat.even_succ, <- Nat.negb_even in Hend. destruct (Nat.even k) eqn:Ek.
  - rewrite decide_True by done. rewrite Hd by done. rewrite fmap_cons. cbn [concat]. rewrite <- (Hend true) by done. done.
  - rewrite decide_False by done. by apply Hend.
Qed.

Lemma dashes_axis K : mark ds K < L <= mark ds (S K) ->
  dashes_of (along 0) false (axis_piece <$> seq 0 (S K)) =
  concat (dash_calls <$> filter (fun k => Nat.even k = true) (seq 1 K)) ++ dash_calls 0.
Proof.
  intros HK. unfold dashes_of. change (seq 0 (S K)) with (0%nat :: seq 1 K). rewrite fmap_cons.
  assert (Hl : lead (axis_piece <$> seq 1 K) = []) by (by destruct K).
  assert (Ho : others (axis_piece <$> seq 1 K) = axis_piece <$> seq 1 K) by (by destruct K).
  unfold after_lead. cbn [lead others axis_piece p_on p_seg Nat.even]. rewrite Hl, Ho. f_equal.
  destruct K as [|K]; [done|]. cbn [fold_left end_of]. rewrite <- surjective_pairing. pose proof (mark_mono 1 (S K) ltac:(lia)). rewrite Z.min_r by lia.
  apply (inked_axis (S K)); [lia|lia|done].
Qed.
End axis.

(** C9: dashing is exact along the axes.  A horizontal or vertical line of a length below
    4096, in units of [2 ^ -j], with a pattern of whole units is drawn as exactly the
    dashes of the ideal pattern: the even-numbered intervals between the partial sums of
    the pattern, cut off at the end of the line, the first of them last; and the dasher
    returns, after at most one round per unit of length. *)
Theorem axis_dashes (pf : platform) (fuel : nat) (j : Z) (ds : list Z) (x y ux uy L : Z) :
  0 <= j <= 50 -> Forall (fun d => 0 < d < 2 ^ 24) ds -> ds <> [] -> (ux = 0 /\ Z.abs uy = 1) \/ (Z.abs ux = 1 /\ uy = 0) ->
  0 < L < 2 ^ 12 -> Z.abs x < 2 ^ 23 -> Z.abs y < 2 ^ 23 -> L <= Z.of_nat fuel < 2 ^ 24 ->
  exists d K, Dasher_init fuel (fx j <$> ds) f_zero = Some d /\ mark ds K < L <= mark ds (S K) /\
    snd <$> play (dasher_consumer pf fuel recorder) [MoveTo (fx j x) (fx j y); LineTo (fx j (x + ux * L)) (fx j (y + uy * L)); PathDone] (d, []) =
    Some (concat (dash_calls j ds x y ux uy L <$> filter (fun k => Nat.even k = true) (seq 1 K)) ++ dash_calls j ds x y ux uy L 0 ++ [PathDone]).
Proof.
  intros Hj Hds Hne Hu HL Hx Hy Hfuel. destruct (last_mark ds x y ux uy L Hds Hne Hu HL) as (K & HKL & HK).
  eexists. exists K. split; [reflexivity|]. split; [done|]. set (d := mkDasher _ _ _ _ _ _ _ _ _).
  assert (Eq := dasher_equiv pf fuel (fx j <$> ds) f_zero d (fx j x) (fx j y) [LineTo (fx j (x + ux * L)) (fx j (y + uy * L))]).
  cbn [app] in Eq. rewrite Eq; [|reflexivity|by repeat constructor|change (alen [_]) with 1; lia]. clear Eq.
  destruct (axis_cut j ds x y ux uy L Hj Hds Hne Hu HL Hx Hy fuel K HK ltac:(lia)) as [p Ep].
  cbn [app dash_path dash_call]. unfold k_line, k_at. cbn [k_start k_pieces k_place end_from fold_left d d_pattern dash startIdx startDashOn startPhase].
  assert (E0 : along j x y ux uy 0 = (fx j x, fx j y)) by (unfold along; f_equal; f_equal; lia).
  rewrite E0 in Ep. unfold spot in Ep. rewrite Nat.Div0.mod_0_l in Ep. unfold along in Ep at 1.
  change (mkPlace (idx (mkPlace 0 true f_zero)) _ _) with (mkPlace (Z.of_nat 0) (Nat.even 0) f_zero). rewrite Ep. mred. cbn [k_out k_start k_pieces app].
  rewrite <- E0, (dashes_axis j ds x y ux uy L Hds Hne Hu K HK), <- app_assoc. done.
Qed.

(** Half units: 5.5 to the left from (3, -1) with dashes of 1.5 and 1. *)
Lemma axis_dashes_witness :
  exists d K, Dasher_init 20 (fx 1 <$> [3; 2]) f_zero = Some d /\ mark [3; 2] K < 11 <= mark [3; 2] (S K) /\
    snd <$> play (dasher_consumer plain_platform 20 recorder) [MoveTo (fx 1 6) (fx 1 (-2)); LineTo (fx 1 (6 + -1 * 11)) (fx 1 (-2 + 0 * 11)); PathDone] (d, []) =
    Some (concat (dash_calls 1 [3; 2] 6 (-2) (-1) 0 11 <$> filter (fun k => Nat.even k = true) (seq 1 K)) ++
      dash_calls 1 [3; 2] 6 (-2) (-1) 0 11 0 ++ [PathDone]).
Proof. apply (axis_dashes plain_platform 20 1 [3; 2] 6 (-2) (-1) 0 11); try lia; [by repeat constructor|done]. Defined.

Example axis_dashes_drawn : dash_calls 1 [3; 2] 6 (-2) (-1) 0 11 4 =
  [MoveTo (fx 1 (-4)) (fx 1 (-2)); LineTo (fx 1 (-5)) (fx 1 (-2))].
Proof. reflexivity. Qed.

(** ** Lines without end *)

(** What does not change where the dasher goes. *)
Definition same_pattern (d d' : Dasher) : Prop := d_pattern d' = d_pattern d /\ d_place d' = d_place d.

Lemma emitSeg_pattern buf off type d d' : emitSeg buf off type d = Some d' -> same_pattern d d'.
Proof.
  unfold emitSeg. cbv zeta. intros E. repeat case_match; try (by simplify_eq).
  all: repeat (apply bind_Some in E as (? & _ & E)); by simplify_eq.
Qed.

Lemma goTo_pattern off type d d' : goTo off type d = Some d' -> same_pattern d d'.
Proof.
  unfold goTo. cbv zeta. intros E. apply bind_Some in E as (x & _ & E). apply bind_Some in E as (y & _ & E).
  apply bind_Some in E as (d1 & E1 & E). simplify_eq. assert (H : same_pattern d d1).
  { repeat case_match; [apply bind_Some in E1 as (? & _ & E1); by simplify_eq|exact (emitSeg_pattern _ _ _ _ _ E1)..|by simplify_eq]. }
  exact H.
Qed.

(** The loop over the dashes of a line does not end when no dash reaches the end of the
    line and none shortens it, whatever the number of rounds. *)
Lemma line_never_ends x1 y1 cx cy len n : forall d, phase (d_place d) = f_zero ->
  Forall (fun da => fle len (da - f_zero)%jf = false /\ (len - (da - f_zero))%jf = len) (dash (d_pattern d)) ->
  line_dashes n x1 y1 cx cy len d = None.
Proof.
  induction n as [|n IH]; intros d Hp Hd; cbn [line_dashes]; destruct (aget (dash (d_pattern d)) (idx (d_place d))) as [da|] eqn:Ea;
    try done; mred; destruct (aget_Forall _ _ _ _ Hd Ea) as [E1 E2]; rewrite Hp, E1.
  all: destruct (if feq f_zero f_zero then _ else _) as [px py]; match goal with |- context [mbind _ ?e] => destruct e as [pts|]; [|done] end; mred.
  all: destruct (goTo _ _ _) as [d1|] eqn:E; [|done]; mred; apply goTo_pattern in E as [Ep _].
  all: destruct (next_dash d1) as [d2|] eqn:En; [|done]; mred; try done.
  unfold next_dash in En. destruct (_ =? 0); [done|]. simplify_eq. rewrite E2. apply IH; [done|].
  cbn [d_set_place d_pattern]. by rewrite Ep.
Qed.

(** A length that is NaN, dashes that are zero, and dashes below half a unit in the last
    place of the length. *)
Lemma endless_lengths :
  Forall (fun p : jfloat * jfloat => fle (fst p) (snd p - f_zero)%jf = false /\ (fst p - (snd p - f_zero))%jf = fst p)
    [(S754_nan, f_one); (f_one, f_zero); (of_int (2 ^ 25), f_half)].
Proof. repeat constructor; vm_compute; reflexivity. Qed.
