(* ===== verification/PrismLengths.v ===== *)
(** * Lengths along curves

    The length iterator of the dasher walks over the leaves of the tree of subdivisions
    of a curve with an explicit stack.  It is equivalent to a walk over the list of the
    leaves ([leaves], [ruler_next]), which the recursive subdivision gives: it stays
    inside its stack, returns after at most sixteen leaves, and its parameters are exact
    multiples of a sixteenth ([length_iterator_ruler]). *)

From Stdlib Require Import SpecFloat.
From S2P Require Import Prelude.
From S2P Require Import Float32.
From S2P Require Import FloatRound.
From S2P Require Import PrismRenderer.
From S2P Require Import PrismEdges.
From S2P Require Import PrismScan.
From S2P Require Import PrismHelpers.
From S2P Require Import PrismHelpersSpec.
From S2P Require Import FloatExact.
From S2P Require Import PrismStroker.
From S2P Require Import PrismStrokerSpec.
From S2P Require Import PrismDasher.
From S2P Require Import PrismOutlines.
From S2P Require Import PrismDashes.

(** ** Leaves *)

(** The lengths of the edges of the control polygon. *)
Fixpoint edges_of (curve : list jfloat) : list jfloat :=
  match curve with
  | x0 :: y0 :: ((x1 :: y1 :: _) as rest) => Helpers_linelen x0 y0 x1 y1 :: edges_of rest
  | _ => []
  end.

Definition chord_of (curve : list jfloat) : jfloat :=
  match curve with
  | [x0; y0; _; _; _; _; x; y] | [x0; y0; _; _; x; y] => Helpers_linelen x0 y0 x y
  | _ => f_zero
  end.

(** The length of a curve that is flat enough, or need not be. *)
Definition leaf_length (limit : bool) (curve : list jfloat) : option jfloat :=
  let polyLen := fold_left fadd (edges_of curve) f_zero in
  let lineLen := chord_of curve in
  if flt (polyLen - lineLen)%jf ERR || limit then Some ((polyLen + lineLen) / two)%jf else None.

Definition halves (curve : list jfloat) : list jfloat * list jfloat :=
  match curve with
  | [x1; y1; cx1; cy1; cx2; cy2; x2; y2] =>
      let ax := midpoint x1 cx1 in let ay := midpoint y1 cy1 in
      let bx := midpoint x2 cx2 in let by_ := midpoint y2 cy2 in
      let mx := midpoint cx1 cx2 in let my := midpoint cy1 cy2 in
      let lx := midpoint ax mx in let ly := midpoint ay my in
      let rx := midpoint bx mx in let ry := midpoint by_ my in
      let cx := midpoint lx rx in let cy := midpoint ly ry in
      ([x1; y1; ax; ay; lx; ly; cx; cy], [cx; cy; rx; ry; bx; by_; x2; y2])
  | [x1; y1; cx1; cy1; x2; y2] =>
      let ax := midpoint x1 cx1 in let ay := midpoint y1 cy1 in
      let bx := midpoint x2 cx1 in let by_ := midpoint y2 cy1 in
      let cx := midpoint ax bx in let cy := midpoint ay by_ in
      ([x1; y1; ax; ay; cx; cy], [cx; cy; bx; by_; x2; y2])
  | _ => (curve, curve)
  end.

(** A leaf covers a number of sixteenths of the curve. *)
Record leaf := mkLeafOf { ticks : Z; leaf_len : jfloat; leaf_edges : list jfloat }.

(** The leaves of a curve that may be subdivided [n] times, from left to right. *)
Fixpoint leaves (n : nat) (curve : list jfloat) : list leaf :=
  match leaf_length (Nat.eqb n 0) curve with
  | Some len => [mkLeafOf (2 ^ Z.of_nat n) len (edges_of curve)]
  | None => match n with O => [] | S n => leaves n (fst (halves curve)) ++ leaves n (snd (halves curve)) end
  end.

Lemma leaves_cases n curve :
  (exists len, leaf_length (Nat.eqb n 0) curve = Some len /\ leaves n curve = [mkLeafOf (2 ^ Z.of_nat n) len (edges_of curve)]) \/
  (exists n', n = S n' /\ leaf_length false curve = None /\ leaves n curve = leaves n' (fst (halves curve)) ++ leaves n' (snd (halves curve))).
Proof.
  destruct n as [|n].
  - left. unfold leaf_length. cbn [leaves Nat.eqb]. unfold leaf_length. rewrite orb_true_r. eauto.
  - cbn [leaves Nat.eqb]. destruct (leaf_length false curve) as [len|]; [left|right]; eauto.
Qed.

(** They cover the curve. *)
Lemma leaves_ticks n : forall curve, foldr Z.add 0 (ticks <$> leaves n curve) = 2 ^ Z.of_nat n /\ leaves n curve <> [].
Proof.
  induction n as [|n IH]; intros curve; [destruct (leaves_cases 0 curve) as [(len & _ & ->)|(n' & En & _ & ->)]; done|].
  destruct (leaves_cases (S n) curve) as [(len & _ & ->)|(n' & En & _ & ->)].
  - cbn [fmap list_fmap foldr ticks]. split; [lia|done].
  - injection En as <-. destruct (IH (fst (halves curve))) as [H1 N1], (IH (snd (halves curve))) as [H2 _]. rewrite fmap_app, foldr_app, H2.
    assert (Hf : forall l b, foldr Z.add b l = foldr Z.add 0 l + b) by (induction l as [|a l IHl]; intros b; cbn; [lia|rewrite IHl; lia]).
    rewrite Hf, H1. rewrite Nat2Z.inj_succ, Z.pow_succ_r by lia. split; [lia|]. by destruct (leaves n (fst (halves curve))).
Qed.

(** ** The ruler *)

(** The place of the iterator among the leaves, whether it has ended, the length of the
    last split and of the last segment, and the scratch array of the root finder. *)
Record ruler := mkRuler {
  r_past : list leaf; r_leaf : leaf; r_rest : list leaf; r_done : bool; r_split : jfloat; r_seg : jfloat; r_roots : list jfloat }.

Definition tick (ls : list leaf) : jfloat := fx 4 (foldr Z.add 0 (ticks <$> ls)).
Definition length_of (ls : list leaf) : jfloat := fold_left fadd (leaf_len <$> ls) f_zero.

(** To the leaf that contains the length [target]. *)
Fixpoint reach (ended : bool) (target : jfloat) (past : list leaf) (lf : leaf) (rest : list leaf) : bool * list leaf * leaf * list leaf :=
  if flt (length_of (past ++ [lf])) target then
    match rest with
    | next :: rest' => if ended then (false, past, lf, rest) else reach ended target (past ++ [lf]) next rest'
    | [] => (false, past, lf, [])
    end
  else (true, past, lf, rest).

(** The edges are nearly equal. *)
Definition steady (edges : list jfloat) : bool :=
  let near a b := Helpers_within a b (float_literal 5 100 * b)%jf in
  match edges with
  | [a; b] => near a b
  | [a; b; c] => near a b && (near b c && near a c)
  | _ => true
  end.

(** The polynomial of the leaf with its control points laid along a line. *)
Definition flat_coefs (edges : list jfloat) : list jfloat :=
  match edges with
  | [a; b] => let x := (f_zero + a)%jf in let y := (x + b)%jf in [f_zero; (y - two * x)%jf; (two * x)%jf; (- y)%jf]
  | [a; b; c] =>
      let x := (f_zero + a)%jf in let y := (x + b)%jf in let z := (y + c)%jf in
      [(three * (x - y) + z)%jf; (three * (y - two * x))%jf; (three * x)%jf; (- z)%jf]
  | _ => []
  end.

Definition leaf_root (pf : platform) (edges : list jfloat) (t : jfloat) (roots : list jfloat) : jfloat * list jfloat :=
  if steady edges then (t, roots)
  else
    match flat_coefs edges with
    | [a; b; c; d] =>
        match Helpers_cubicRootsInAB pf a b c (t * d)%jf roots 0 f_zero f_one with
        | Some (n, roots) => (match aget roots 0 with Some r => if (n =? 1) && negb (isnan r) then r else t | None => t end, roots)
        | None => (t, roots)
        end
    | _ => (t, roots)
    end.

(** The parameter at the distance [len] from the last split. *)
Definition ruler_next (pf : platform) (len : jfloat) (r : ruler) : jfloat * ruler :=
  let target := (r_split r + len)%jf in
  let '(found, past, lf, rest) := reach (r_done r) target (r_past r) (r_leaf r) (r_rest r) in
  let lenAtNextT := length_of (past ++ [lf]) in
  if (found : bool) then
    let lenAtLastT := length_of past in
    let '(u, roots) := leaf_root pf (leaf_edges lf) ((target - lenAtLastT) / (lenAtNextT - lenAtLastT))%jf (r_roots r) in
    let t := (u * (tick (past ++ [lf]) - tick past) + tick past)%jf in
    if fle f_one t then (f_one, mkRuler past lf rest true target len roots)
    else (t, mkRuler past lf rest (r_done r) target len roots)
  else (f_one, mkRuler past lf rest true (r_split r) (lenAtNextT - r_split r)%jf (r_roots r)).

(** A ruler at the start of a curve. *)
Definition ruler_of (curve : list jfloat) (roots : list jfloat) : option ruler :=
  match leaves 4 curve with
  | [] => None
  | lf :: rest => Some (mkRuler [] lf rest (match rest with [] => true | _ => false end) f_zero f_zero roots)
  end.

(** ** The stack of curves *)

Definition rows (stack : list (list jfloat)) : Prop := alen stack = 5 /\ Forall (fun r => alen r = 8) stack.

Definition row (stack : list (list jfloat)) (k : nat) : list jfloat := default [] (stack !! k).

(** The curve of type [type] in a row. *)
Definition in_row (type : Z) (stack : list (list jfloat)) (k : nat) : list jfloat := curve_at (row stack k) 0 type.

Lemma row_get stack k : rows stack -> (k < 5)%nat -> aget stack (Z.of_nat k) = Some (row stack k) /\ alen (row stack k) = 8.
Proof.
  intros [Hl Hr] Hk. rewrite aget_lookup, Nat2Z.id by lia. unfold row. destruct (lookup_lt_is_Some_2 stack k) as [r E]; [unfold alen in Hl; lia|].
  rewrite E. split; [done|]. exact (Forall_lookup_1 _ _ _ _ Hr E).
Qed.

Lemma in_row_length type stack k : curve_type type -> rows stack -> (k < 5)%nat -> alen (in_row type stack k) = type.
Proof. intros Ht Hr Hk. destruct (row_get stack k Hr Hk) as [_ Hl]. apply curve_at_length; [lia|destruct Ht; lia|destruct Ht; lia]. Qed.

(** A row written. *)
Lemma row_set stack k v : rows stack -> (k < 5)%nat -> alen v = 8 -> exists stack', aset stack (Z.of_nat k) v = Some stack' /\ rows stack' /\
  row stack' k = v /\ (forall i, i <> k -> row stack' i = row stack i).
Proof.
  intros [Hl Hr] Hk Hv. unfold aset. unfold alen in Hl. rewrite (proj2 (Z.leb_le 0 _)), (proj2 (Z.ltb_lt _ _)) by lia. cbn [andb].
  rewrite Nat2Z.id. eexists. split; [done|]. unfold rows, row, alen in *. rewrite length_insert. split; [split; [done|]|split].
  - by apply Forall_insert.
  - by rewrite list_lookup_insert_eq by lia.
  - intros i Hi. by rewrite list_lookup_insert_ne by done.
Qed.

(** One subdivision: the left half in the next row, the right half in place. *)
Lemma subdivide_rows type k stack : curve_type type -> rows stack -> (k < 4)%nat -> exists stack',
  Helpers_subdivide (Z.of_nat k) 0 (Some (Z.of_nat k + 1)) 0 (Some (Z.of_nat k)) 0 type stack = Some stack' /\ rows stack' /\
  in_row type stack' k = snd (halves (in_row type stack k)) /\ in_row type stack' (S k) = fst (halves (in_row type stack k)) /\
  (forall i, i <> k -> i <> S k -> row stack' i = row stack i).
Proof.
  intros Ht Hr Hk. set (L := fst (halves (in_row type stack k))). set (R := snd (halves (in_row type stack k))).
  destruct (row_get stack k Hr ltac:(lia)) as [_ La]. destruct (row_get stack (S k) Hr ltac:(lia)) as [_ Lb].
  assert (Hlen : alen L = type /\ alen R = type).
  { pose proof (in_row_length type stack k Ht Hr ltac:(lia)) as Hc. unfold L, R. destruct Ht as [-> | ->].
    - by destruct (proj1 (explicit 6 _ Hc) eq_refl) as (a & b & c & d & e & f & ->).
    - by destruct (proj2 (explicit 8 _ Hc) eq_refl) as (a & b & c & d & e & f & g & h & ->). }
  assert (Hfill : forall v w : list jfloat, alen v = type -> alen w = 8 -> alen (v ++ drop (Z.to_nat type) w) = 8).
  { intros v w Hv Hw. rewrite alen_app, Hv. unfold alen in *. rewrite length_drop. destruct Ht; lia. }
  assert (E : Helpers_subdivide (Z.of_nat k) 0 (Some (Z.of_nat k + 1)) 0 (Some (Z.of_nat k)) 0 type stack =
    (m ← aset stack (Z.of_nat k) (R ++ drop (Z.to_nat type) (row stack k)); aset m (Z.of_nat (S k)) (L ++ drop (Z.to_nat type) (row stack (S k))))).
  { clear Hfill Hlen. destruct Hr as [Hl5 Hr]. unfold alen in Hl5. do 5 (destruct stack as [|? stack]; [cbn in Hl5; lia|]). destruct stack; [|cbn in Hl5; lia].
    clear Hl5 Hr. do 4 (destruct k as [|k]; [cbn in La, Lb; unfold alen in La, Lb;
      match type of La with Z.of_nat (length ?a) = 8 => match type of Lb with Z.of_nat (length ?b) = 8 =>
        do 8 (destruct a as [|? a]; [cbn in La; lia|]); (destruct a; [|cbn in La; lia]);
        do 8 (destruct b as [|? b]; [cbn in Lb; lia|]); (destruct b; [|cbn in Lb; lia]) end end;
      subst L R; clear La Lb Hk; destruct Ht as [-> | ->]; reflexivity|]). lia. }
  destruct (row_set stack k (R ++ drop (Z.to_nat type) (row stack k)) Hr ltac:(lia)) as (m & Em & Hm & R1 & R2); [apply Hfill; tauto|].
  destruct (row_set m (S k) (L ++ drop (Z.to_nat type) (row stack (S k))) Hm ltac:(lia)) as (m' & Em' & Hm' & R3 & R4); [apply Hfill; tauto|].
  exists m'. rewrite E, Em. mred. split; [done|]. split; [done|]. unfold in_row. rewrite R3, (R4 k), R1 by lia.
  split; [apply curve_at_front; tauto|]. split; [apply curve_at_front; tauto|]. intros i H1 H2. by rewrite R4, R2.
Qed.

(** ** Leaves of the tree *)

(** The arrays of the iterator have their sizes, and its curve is of type [type]. *)
Record sized (type : Z) (li : LengthIterator) : Prop := {
  z_type : curveType li = type;
  z_curve : curve_type type;
  z_rows : rows (recCurveStack (li_tree li));
  z_sides : alen (sides (li_tree li)) = 4;
  z_lens : alen (curLeafCtrlPolyLengths (li_cache li)) = 3;
  z_roots : alen (nextRoots (li_cache li)) = 4;
  z_coefs : alen (flatLeafCoefCache (li_cache li)) = 4 }.

(** The lengths of the edges, stored over the front of the array. *)
Definition overlay (v w : list jfloat) : list jfloat := v ++ drop (length v) w.

Definition li_set_lens (v : list jfloat) (li : LengthIterator) : LengthIterator :=
  li_set_cache (mkCache v (cachedHaveLowAcceleration (li_cache li)) (nextRoots (li_cache li)) (flatLeafCoefCache (li_cache li))) li.

Lemma onLeaf_ok type li k : sized type li -> recLevel (li_tree li) = Z.of_nat k -> (k < 5)%nat ->
  let curve := in_row type (recCurveStack (li_tree li)) k in
  LIonLeaf li = Some (default minus_one (leaf_length (Z.of_nat k =? REC_LIMIT) curve),
    li_set_lens (overlay (edges_of curve) (curLeafCtrlPolyLengths (li_cache li))) li).
Proof.
  intros [Hty Ht Hr _ Hl _ _] Hk Hk5. unfold LIonLeaf. destruct (row_get _ k Hr Hk5) as [Eg Hrl]. rewrite Hk, Eg, Hty. cbv zeta. unfold in_row.
  destruct li as [ct tr lf c sp sg]. destruct c as [lens low roots coefs]. destruct tr as [stack sd lev dn].
  cbn [li_tree li_cache curLeafCtrlPolyLengths recCurveStack recLevel] in *. generalize dependent (row stack k). intros r _ Hrl. subst lev.
  unfold alen in Hrl, Hl. do 8 (destruct r as [|? r]; [cbn in Hrl; lia|]). destruct r; [|cbn in Hrl; lia].
  do 3 (destruct lens as [|? lens]; [cbn in Hl; lia|]). destruct lens; [|cbn in Hl; lia].
  unfold leaf_length. destruct Ht as [-> | ->]; mred.
  all: cbn [li_set_cache li_tree recLevel]; generalize (Z.of_nat k =? REC_LIMIT); intros limit.
  all: lazy -[Helpers_linelen fadd fsub fdiv flt ERR two minus_one f_zero orb].
  all: by destruct (flt _ ERR || limit).
Qed.

(** The lengths of a curve of coordinates are numbers. *)
Lemma edges_nonneg curve : Forall coordinate curve -> Forall nonneg (edges_of curve).
Proof.
  remember (length curve) as n eqn:Hn. revert curve Hn. induction n as [n IH] using lt_wf_ind. intros curve -> Hc.
  destruct curve as [|x0 [|y0 [|x1 [|y1 rest]]]]; try (by constructor).
  change (edges_of (x0 :: y0 :: x1 :: y1 :: rest)) with (Helpers_linelen x0 y0 x1 y1 :: edges_of (x1 :: y1 :: rest)). constructor.
  - repeat (apply Forall_cons_1 in Hc as [? Hc]). by apply linelen_nonneg.
  - apply (IH (length (x1 :: y1 :: rest))); [cbn; lia|done|]. by do 2 apply Forall_cons_1 in Hc as [_ Hc].
Qed.

Lemma sum_nonneg l : Forall nonneg l -> forall a, nonneg a -> nonneg (fold_left fadd l a).
Proof. induction 1 as [|x l Hx _ IH]; intros a Ha; [done|]. cbn. apply IH. by apply fadd_nonneg. Qed.

Lemma chord_nonneg curve : Forall coordinate curve -> nonneg (chord_of curve).
Proof.
  intros Hc. destruct curve as [|x0 [|y0 [|a [|b [|c [|d [|e [|f [|]]]]]]]]]; try done; repeat (apply Forall_cons_1 in Hc as [? Hc]); by apply linelen_nonneg.
Qed.

Lemma leaf_length_nonneg limit curve len : Forall coordinate curve -> leaf_length limit curve = Some len -> nonneg len.
Proof.
  intros Hc. unfold leaf_length. destruct (_ || limit); [|done]. intros [= <-]. apply fdiv_nonneg, fadd_nonneg; [|by apply chord_nonneg].
  apply sum_nonneg; [by apply edges_nonneg|done].
Qed.

Lemma halves_coordinates curve : Forall coordinate curve -> Forall coordinate (fst (halves curve)) /\ Forall coordinate (snd (halves curve)).
Proof.
  intros Hc. destruct curve as [|x0 [|y0 [|a [|b [|c [|d [|e [|f [|]]]]]]]]]; try (split; exact Hc);
    repeat (apply Forall_cons_1 in Hc as [? Hc]); cbv zeta; split; repeat constructor; auto 7 using midpoint_coordinate.
Qed.

(** ** What is left of the tree *)

(** The curves whose leaves are still to be visited, with the subdivisions they may
    have: the right halves of the levels below [k] that went left. *)
Fixpoint waiting (type : Z) (stack : list (list jfloat)) (sd : list Side) (k : nat) : list (nat * list jfloat) :=
  match k with
  | O => []
  | S k => (if decide (sd !! k = Some LEFT) then [((3 - k)%nat, in_row type stack k)] else []) ++ waiting type stack sd k
  end.

Definition leaves_left (w : list (nat * list jfloat)) : list leaf := concat ((fun p => leaves (fst p) (snd p)) <$> w).
Definition tame (w : list (nat * list jfloat)) : Prop := Forall (fun p => Forall coordinate (snd p)) w.

Lemma waiting_ext type stack stack' sd sd' k : (forall i, (i < k)%nat -> row stack' i = row stack i /\ sd' !! i = sd !! i) ->
  waiting type stack' sd' k = waiting type stack sd k.
Proof.
  induction k as [|k IH]; intros H; [done|]. cbn [waiting]. unfold in_row. destruct (H k ltac:(lia)) as [-> ->]. rewrite IH; [done|]. intros i Hi. apply H. lia.
Qed.

Lemma leaves_left_app w w' : leaves_left (w ++ w') = leaves_left w ++ leaves_left w'.
Proof. unfold leaves_left. by rewrite fmap_app, concat_app. Qed.

(** A leaf is reached: the fields that tell about it. *)
Record on_leaf (lf : leaf) (before : Leaf) (li : LengthIterator) : Prop := {
  ol_leaf : li_leaf li = mkLeaf (nextT before + of_int (ticks lf) * MIN_T_INCREMENT)%jf (lenAtNextT before + leaf_len lf)%jf (nextT before) (lenAtNextT before);
  ol_edges : exists rest, curLeafCtrlPolyLengths (li_cache li) = leaf_edges lf ++ rest;
  ol_low : cachedHaveLowAcceleration (li_cache li) = -1;
  ol_flat : aget (flatLeafCoefCache (li_cache li)) 2 = Some minus_one }.

(** What a step does not touch. *)
Definition untouched (li li' : LengthIterator) : Prop :=
  done (li_tree li') = done (li_tree li) /\ nextRoots (li_cache li') = nextRoots (li_cache li) /\
  lenAtLastSplit li' = lenAtLastSplit li /\ lastSegLen li' = lastSegLen li.

Lemma overlay_length v w : (length v <= length w)%nat -> alen (overlay v w) = alen w.
Proof. intros. unfold overlay, alen. rewrite length_app, length_drop. lia. Qed.

Lemma edges_length curve type : curve_type type -> alen curve = type -> (length (edges_of curve) <= 3)%nat.
Proof.
  intros [-> | ->] Hl.
  - destruct (proj1 (explicit 6 curve Hl) eq_refl) as (a & b & c & d & e & f & ->). cbn. lia.
  - destruct (proj2 (explicit 8 curve Hl) eq_refl) as (a & b & c & d & e & f & g & h & ->). cbn. lia.
Qed.

Lemma sized_lens type li k : sized type li -> (k < 5)%nat ->
  sized type (li_set_lens (overlay (edges_of (in_row type (recCurveStack (li_tree li)) k)) (curLeafCtrlPolyLengths (li_cache li))) li).
Proof.
  intros [] Hk. split; try done. cbn. rewrite overlay_length; [done|]. pose proof (edges_length _ type z_curve0 (in_row_length type _ k z_curve0 z_rows0 Hk)).
  unfold alen in z_lens0. lia.
Qed.

Lemma side_set (sd : list Side) k v : alen sd = 4 -> (k < 4)%nat -> exists sd', aset sd (Z.of_nat k) v = Some sd' /\ alen sd' = 4 /\
  sd' !! k = Some v /\ (forall i, i <> k -> sd' !! i = sd !! i).
Proof.
  intros Hl Hk. unfold aset. unfold alen in *. rewrite (proj2 (Z.leb_le 0 _)), (proj2 (Z.ltb_lt _ _)) by lia. cbn [andb]. rewrite Nat2Z.id.
  eexists. split; [done|]. rewrite length_insert. split; [done|]. split; [by rewrite list_lookup_insert_eq by lia|]. intros i Hi. by rewrite list_lookup_insert_ne.
Qed.

(** From level [k] the iterator has come to the leaf [lf], and left [w] behind. *)
Record arrival (type : Z) (li : LengthIterator) (k : nat) (lf : leaf) (w : list (nat * list jfloat)) (li' : LengthIterator) (k' : nat) : Prop := {
  ar_sized : sized type li';
  ar_level : recLevel (li_tree li') = Z.of_nat k';
  ar_range : (k <= k' <= 4)%nat;
  ar_deeper : w = [] <-> k' = k;
  ar_left : (k < k')%nat -> sides (li_tree li') !! k = Some LEFT;
  ar_below : forall i, (i < k)%nat -> sides (li_tree li') !! i = sides (li_tree li) !! i;
  ar_waiting : waiting type (recCurveStack (li_tree li')) (sides (li_tree li')) k' =
    w ++ waiting type (recCurveStack (li_tree li)) (sides (li_tree li)) k;
  ar_tame : tame w;
  ar_leaf : on_leaf lf (li_leaf li) li';
  ar_untouched : untouched li li' }.

(** The current curve is a leaf. *)
Lemma goLeft_leaf type n fuel li k len : sized type li -> recLevel (li_tree li) = Z.of_nat k -> (k + n = 4)%nat ->
  let curve := in_row type (recCurveStack (li_tree li)) k in
  Forall coordinate curve -> leaf_length (Nat.eqb n 0) curve = Some len ->
  exists li', LIgoLeft fuel li = Some li' /\ arrival type li k (mkLeafOf (2 ^ Z.of_nat n) len (edges_of curve)) [] li' k.
Proof.
  intros Hz Hk Hkn curve Hc El. pose proof (onLeaf_ok type li k Hz Hk ltac:(lia)) as Eon. cbv zeta in Eon. fold curve in Eon.
  pose proof (sized_lens type li k Hz ltac:(lia)) as Hz1. fold curve in Hz1.
  replace (Z.of_nat k =? REC_LIMIT) with (Nat.eqb n 0) in Eon
    by (unfold REC_LIMIT; destruct (Nat.eqb_spec n 0), (Z.eqb_spec (Z.of_nat k) 4); lia || done).
  rewrite El in Eon. change (default minus_one (Some len)) with len in Eon. pose proof (leaf_length_nonneg _ _ _ Hc El) as Hn. unfold nonneg in Hn.
  destruct (aset_step (flatLeafCoefCache (li_cache li)) 2 minus_one) as (coefs & Es & Hcl & Hget); [rewrite (z_coefs _ _ Hz); lia|].
  assert (E : LIgoLeft fuel li = Some (li_set_cache (mkCache (overlay (edges_of curve) (curLeafCtrlPolyLengths (li_cache li))) (-1) (nextRoots (li_cache li)) coefs)
    (li_set_leaf (mkLeaf (nextT (li_leaf li) + of_int (1 << (REC_LIMIT - recLevel (li_tree li))) * MIN_T_INCREMENT)%jf (lenAtNextT (li_leaf li) + len)%jf
                (nextT (li_leaf li)) (lenAtNextT (li_leaf li))) li))).
  { destruct fuel; cbn [LIgoLeft]; rewrite Eon; mred; rewrite Hn; cbn [li_set_lens li_set_cache li_set_leaf li_cache flatLeafCoefCache]; rewrite Es; done. }
  eexists. split; [exact E|]. destruct Hz1, Hz. split; try done; cbn.
  - split; try done. cbn. congruence.
  - lia.
  - lia.
  - constructor.
  - split; cbn; [|by exists (drop (length (edges_of curve)) (curLeafCtrlPolyLengths (li_cache li)))|done|by apply Hget].
    rewrite Hk. unfold REC_LIMIT. replace (4 - Z.of_nat k) with (Z.of_nat n) by lia. by rewrite Z.shiftl_1_l.
Qed.

(** The first leaf below a level, and the others below it waiting. *)
Lemma goLeft_ok type n : forall fuel li k, sized type li -> recLevel (li_tree li) = Z.of_nat k -> (k + n = 4)%nat -> (n <= fuel)%nat ->
  Forall coordinate (in_row type (recCurveStack (li_tree li)) k) ->
  exists lf w li' k', leaves n (in_row type (recCurveStack (li_tree li)) k) = lf :: leaves_left w /\
    LIgoLeft fuel li = Some li' /\ arrival type li k lf w li' k'.
Proof.
  induction n as [|n IH]; intros fuel li k Hz Hk Hkn Hf Hc; set (curve := in_row type (recCurveStack (li_tree li)) k) in *.
  - destruct (leaves_cases 0 curve) as [(len & El & ->)|(n' & ? & _)]; [|done].
    destruct (goLeft_leaf type 0 fuel li k len Hz Hk Hkn Hc El) as (li' & E & Ha). by eexists _, [], li', k.
  - destruct (leaves_cases (S n) curve) as [(len & El & ->)|(n' & [= <-] & El & ->)].
    { destruct (goLeft_leaf type (S n) fuel li k len Hz Hk Hkn Hc El) as (li' & E & Ha). by eexists _, [], li', k. }
    pose proof (onLeaf_ok type li k Hz Hk ltac:(lia)) as Eon. cbv zeta in Eon. fold curve in Eon.
    pose proof (sized_lens type li k Hz ltac:(lia)) as Hz1. fold curve in Hz1.
    set (li1 := li_set_lens (overlay (edges_of curve) (curLeafCtrlPolyLengths (li_cache li))) li) in *.
    rewrite (proj2 (Z.eqb_neq (Z.of_nat k) REC_LIMIT)), El in Eon by (unfold REC_LIMIT; lia). change (default minus_one None) with minus_one in Eon.
    destruct fuel as [|fuel]; [lia|]. cbn [LIgoLeft]. rewrite Eon. mred. change (fle f_zero minus_one) with false. cbv iota.
    change (li_tree li1) with (li_tree li). rewrite Hk. change (curveType li1) with (curveType li). rewrite (z_type _ _ Hz).
    destruct (subdivide_rows type k (recCurveStack (li_tree li)) (z_curve _ _ Hz) (z_rows _ _ Hz) ltac:(lia)) as (stack & Es & Hrows & Hr1 & Hr2 & Hr3).
    rewrite Es. mred. destruct (side_set (sides (li_tree li)) k LEFT (z_sides _ _ Hz) ltac:(lia)) as (sd & Ed & Hsd & Hd1 & Hd2). rewrite Ed. mred.
    set (li2 := li_set_tree (mkTree stack sd (Z.of_nat k + 1) (done (li_tree li))) li1).
    assert (Hz2 : sized type li2) by (by destruct Hz1; split).
    destruct (halves_coordinates curve Hc) as [Hcl Hcr]. fold curve in Hr1, Hr2.
    destruct (IH fuel li2 (S k) Hz2 ltac:(cbn [li2 li_set_tree li_tree recLevel]; lia) ltac:(lia) ltac:(lia)) as (lf & w & li' & k' & Elv & Ego & Ha).
    { change (recCurveStack (li_tree li2)) with stack. by rewrite Hr2. }
    change (recCurveStack (li_tree li2)) with stack in Elv. rewrite Hr2 in Elv.
    exists lf, (w ++ [(n, snd (halves curve))]), li', k'. rewrite Elv. split; [cbn [app]; rewrite leaves_left_app; unfold leaves_left at 2; cbn; by rewrite app_nil_r|].
    split; [exact Ego|]. destruct Ha. split; try done.
    + lia.
    + split; [by destruct w|]. lia.
    + intros _. rewrite ar_below0 by lia. exact Hd1.
    + intros i Hi. rewrite ar_below0 by lia. apply Hd2. lia.
    + rewrite ar_waiting0. change (recCurveStack (li_tree li2)) with stack. change (sides (li_tree li2)) with sd. cbn [waiting]. rewrite decide_True by done.
      rewrite Hr1. replace (3 - k)%nat with n by lia. rewrite <- app_assoc. cbn [app]. do 2 f_equal. apply waiting_ext. intros i Hi. split; [apply Hr3|apply Hd2]; lia.
    + apply Forall_app. split; [done|]. by constructor.
Qed.

Lemma unvisited_ok type stack sd fuel k : alen sd = 4 -> (S k <= 4)%nat -> (k <= fuel)%nat ->
  (unvisited fuel sd (Z.of_nat k) = Some None /\ waiting type stack sd (S k) = []) \/
  (exists l, (l <= k)%nat /\ unvisited fuel sd (Z.of_nat k) = Some (Some (Z.of_nat l)) /\
    waiting type stack sd (S k) = ((3 - l)%nat, in_row type stack l) :: waiting type stack sd l).
Proof.
  intros Hl. revert fuel. induction k as [|k IH]; intros fuel Hk Hf.
  all: match goal with |- context [unvisited _ _ (Z.of_nat ?m)] => destruct (lookup_lt_is_Some_2 sd m) as [s Es]; [unfold alen in Hl; lia|];
    assert (Eg : aget sd (Z.of_nat m) = Some s) by (rewrite aget_lookup, Nat2Z.id by lia; done) end.
  - destruct fuel; cbn [unvisited waiting]; rewrite Eg; mred; rewrite Es; (destruct s; [right; exists 0%nat; repeat split; try lia; done|left; done]).
  - destruct fuel as [|fuel]; [lia|]. cbn [unvisited]. rewrite Eg. mred. cbn [waiting]. rewrite Es. destruct s.
    + right. exists (S k). rewrite decide_False, decide_True by done. split; [lia|]. done.
    + rewrite decide_True, decide_False by done. rewrite (proj2 (Z.eqb_neq _ _)) by lia. replace (Z.of_nat (S k) - 1) with (Z.of_nat k) by lia.
      destruct (IH fuel ltac:(lia) ltac:(lia)) as [[E1 E2]|(l & H1 & H2 & H3)]; [by left|]. right. exists l. split; [lia|]. split; [done|]. exact H3.
Qed.

(** The curve of a row copied to the next row. *)
Lemma copy_row type stack l : curve_type type -> rows stack -> (l < 4)%nat -> exists stack',
  aupd stack (Z.of_nat l + 1) (arraycopy (row stack l) type) = Some stack' /\ rows stack' /\ in_row type stack' (S l) = in_row type stack l /\
  (forall i, i <> S l -> row stack' i = row stack i).
Proof.
  intros Ht Hr Hl. destruct (row_get stack l Hr ltac:(lia)) as [_ La]. destruct (row_get stack (S l) Hr ltac:(lia)) as [Eb Lb].
  pose proof (in_row_length type stack l Ht Hr ltac:(lia)) as Hlen. unfold aupd. replace (Z.of_nat l + 1) with (Z.of_nat (S l)) by lia. rewrite Eb. mred.
  destruct (copy_prefix (in_row type stack l) (drop (Z.to_nat type) (row stack l)) (row stack (S l))) as (r & E & Hrl); [destruct Ht; lia|].
  assert (Erow : in_row type stack l ++ drop (Z.to_nat type) (row stack l) = row stack l) by (unfold in_row, curve_at; by rewrite drop_0, take_drop).
  rewrite Erow, Hlen in E. rewrite E. mred.
  destruct (row_set stack (S l) (in_row type stack l ++ r) Hr ltac:(lia)) as (stack' & -> & Hr' & R1 & R2); [rewrite alen_app; lia|].
  exists stack'. split; [done|]. split; [done|]. split; [|done]. unfold in_row at 1. rewrite R1. by apply curve_at_front.
Qed.

(** On to the next leaf, or to the end. *)
Lemma goToNextLeaf_ok type li k : sized type li -> recLevel (li_tree li) = Z.of_nat k -> (1 <= k <= 4)%nat ->
  let w := waiting type (recCurveStack (li_tree li)) (sides (li_tree li)) k in
  tame w ->
  match leaves_left w with
  | [] => LIgoToNextLeaf li = Some (li_set_tree (mkTree (recCurveStack (li_tree li)) (sides (li_tree li)) 0 true) li)
  | lf :: rest => exists li' k', LIgoToNextLeaf li = Some li' /\ sized type li' /\ recLevel (li_tree li') = Z.of_nat k' /\ (1 <= k' <= 4)%nat /\
      leaves_left (waiting type (recCurveStack (li_tree li')) (sides (li_tree li')) k') = rest /\
      tame (waiting type (recCurveStack (li_tree li')) (sides (li_tree li')) k') /\ on_leaf lf (li_leaf li) li' /\ untouched li li'
  end.
Proof.
  intros Hz Hk Hk4 w Ht. unfold LIgoToNextLeaf. destruct k as [|k]; [lia|]. rewrite Hk. replace (Z.of_nat (S k) - 1) with (Z.of_nat k) by lia.
  destruct (unvisited_ok type (recCurveStack (li_tree li)) (sides (li_tree li)) li_depth k (z_sides _ _ Hz)) as [[-> Ew]|(l & Hl & -> & Ew)]; [lia|unfold li_depth; lia| |].
  { unfold w. rewrite Ew. done. }
  unfold w in *. rewrite Ew in *. apply Forall_cons_1 in Ht as [Hc Ht]. cbn [snd] in Hc. mred.
  destruct (side_set (sides (li_tree li)) l RIGHT (z_sides _ _ Hz) ltac:(lia)) as (sd & -> & Hsd & Hd1 & Hd2). mred.
  destruct (row_get _ l (z_rows _ _ Hz) ltac:(lia)) as [-> _]. mred. rewrite (z_type _ _ Hz).
  destruct (copy_row type _ l (z_curve _ _ Hz) (z_rows _ _ Hz) ltac:(lia)) as (stack & -> & Hrows & Hr1 & Hr2). mred.
  set (li1 := li_set_tree (mkTree stack sd (Z.of_nat l + 1) (done (li_tree li))) li). assert (Hz1 : sized type li1) by (by destruct Hz; split).
  destruct (goLeft_ok type (3 - l) li_depth li1 (S l) Hz1) as (lf & w' & li' & k' & El & Ego & Ha);
    [cbn [li1 li_set_tree li_tree recLevel]; lia|lia|unfold li_depth; lia|change (recCurveStack (li_tree li1)) with stack; by rewrite Hr1|].
  change (recCurveStack (li_tree li1)) with stack in El. rewrite Hr1 in El.
  assert (Ewl : waiting type stack sd (S l) = waiting type (recCurveStack (li_tree li)) (sides (li_tree li)) l).
  { cbn [waiting]. rewrite decide_False by congruence. apply waiting_ext. intros i Hi. split; [apply Hr2|apply Hd2]; lia. }
  change (leaves_left (((3 - l)%nat, in_row type (recCurveStack (li_tree li)) l) :: ?v)) with (leaves (3 - l) (in_row type (recCurveStack (li_tree li)) l) ++ leaves_left v).
  rewrite El. cbn [app]. exists li', k'. split; [exact Ego|]. destruct Ha. split; [done|]. split; [done|]. split; [lia|].
  rewrite ar_waiting0. change (recCurveStack (li_tree li1)) with stack. change (sides (li_tree li1)) with sd. rewrite Ewl, leaves_left_app.
  split; [done|]. split; [by apply Forall_app|done].
Qed.

(** ** The iterator and the ruler *)

Definition good_leaf (type : Z) (lf : leaf) : Prop := 1 <= ticks lf <= 16 /\ alen (leaf_edges lf) = type / 2 - 1.

(** The caches are empty or hold what belongs to the leaf. *)
Record cache_ok (edges : list jfloat) (c : LeafCache) : Prop := {
  co_edges : exists rest, curLeafCtrlPolyLengths c = edges ++ rest;
  co_low : cachedHaveLowAcceleration c = -1 \/ cachedHaveLowAcceleration c = if steady edges then 1 else 0;
  co_flat : (exists v, aget (flatLeafCoefCache c) 2 = Some v /\ flt v f_zero = true) \/ flatLeafCoefCache c = flat_coefs edges }.

Record measures (type : Z) (li : LengthIterator) (r : ruler) : Prop := {
  me_sized : sized type li;
  me_good : Forall (good_leaf type) (r_leaf r :: r_rest r);
  me_whole : Forall (fun lf => 1 <= ticks lf) (r_past r) /\ foldr Z.add 0 (ticks <$> r_past r ++ r_leaf r :: r_rest r) = 16;
  me_leaf : li_leaf li = mkLeaf (tick (r_past r ++ [r_leaf r])) (length_of (r_past r ++ [r_leaf r])) (tick (r_past r)) (length_of (r_past r));
  me_cache : cache_ok (leaf_edges (r_leaf r)) (li_cache li);
  me_roots : nextRoots (li_cache li) = r_roots r;
  me_done : done (li_tree li) = r_done r;
  me_left : r_done r = false -> exists k, recLevel (li_tree li) = Z.of_nat k /\ (1 <= k <= 4)%nat /\
    leaves_left (waiting type (recCurveStack (li_tree li)) (sides (li_tree li)) k) = r_rest r /\
    tame (waiting type (recCurveStack (li_tree li)) (sides (li_tree li)) k);
  me_split : lenAtLastSplit li = r_split r;
  me_seg : lastSegLen li = r_seg r }.

Lemma tick_sum_app l l' : foldr Z.add 0 (ticks <$> l ++ l') = foldr Z.add 0 (ticks <$> l) + foldr Z.add 0 (ticks <$> l').
Proof. induction l as [|a l IH]; [done|]. cbn in *. rewrite IH. lia. Qed.

Lemma tick_sum_cons lf l : foldr Z.add 0 (ticks <$> lf :: l) = ticks lf + foldr Z.add 0 (ticks <$> l).
Proof. done. Qed.

Lemma tick_sum_length l : Forall (fun lf => 1 <= ticks lf) l -> alen l <= foldr Z.add 0 (ticks <$> l).
Proof. induction 1 as [|a l Ha _ IH]; [done|]. rewrite alen_cons. cbn in *. lia. Qed.

(** The parameter advances by exact sixteenths. *)
Lemma tick_snoc ls lf : 1 <= ticks lf <= 16 -> 0 <= foldr Z.add 0 (ticks <$> ls) <= 16 ->
  (tick ls + of_int (ticks lf) * MIN_T_INCREMENT)%jf = tick (ls ++ [lf]).
Proof.
  intros Hw Hs. unfold tick. rewrite tick_sum_app. cbn [fmap list_fmap foldr]. rewrite Z.add_0_r.
  assert (E : fmul (of_int (ticks lf)) MIN_T_INCREMENT = fx 4 (ticks lf)).
  { change MIN_T_INCREMENT with (fx 4 1). rewrite of_int_fx. replace (ticks lf) with (ticks lf * 1) at 2 by lia. change 4 with (0 + 4) at 2.
    apply mul_fixed; auto with float; unfold fits, scale_ok, f32_prec, f32_emax; lia. }
  rewrite E. apply fadd_fx; unfold fx_scale, fits24; lia.
Qed.

Lemma length_snoc ls lf : (length_of ls + leaf_len lf)%jf = length_of (ls ++ [lf]).
Proof. unfold length_of. rewrite fmap_app, fold_left_app. done. Qed.

Lemma leaves_good type n : curve_type type -> (n <= 4)%nat -> forall curve, alen curve = type -> Forall (good_leaf type) (leaves n curve).
Proof.
  intros Ht. assert (Hty : type = 6 \/ type = 8) by exact Ht.
  assert (He : forall curve, alen curve = type -> alen (edges_of curve) = type / 2 - 1).
  { intros curve Hl. destruct Ht as [-> | ->].
    - by destruct (proj1 (explicit 6 curve Hl) eq_refl) as (a & b & c & d & e & f & ->).
    - by destruct (proj2 (explicit 8 curve Hl) eq_refl) as (a & b & c & d & e & f & g & h & ->). }
  assert (Hh : forall curve, alen curve = type -> alen (fst (halves curve)) = type /\ alen (snd (halves curve)) = type).
  { intros curve Hl. destruct Ht as [-> | ->].
    - by destruct (proj1 (explicit 6 curve Hl) eq_refl) as (a & b & c & d & e & f & ->).
    - by destruct (proj2 (explicit 8 curve Hl) eq_refl) as (a & b & c & d & e & f & g & h & ->). }
  assert (Hpow : forall n, (n <= 4)%nat -> 1 <= 2 ^ Z.of_nat n <= 16) by (intros m Hm; do 5 (destruct m as [|m]; [cbn; lia|]); lia).
  induction n as [|n IH]; intros Hn curve Hl.
  - destruct (leaves_cases 0 curve) as [(len & _ & ->)|(n' & ? & _)]; [|done]. constructor; [|done]. split; [by apply Hpow|by apply He].
  - destruct (leaves_cases (S n) curve) as [(len & _ & ->)|(n' & [= <-] & _ & ->)]; [constructor; [split; [by apply Hpow|by apply He]|done]|].
    destruct (Hh curve Hl). apply Forall_app. split; apply IH; done || lia.
Qed.

(** *** The parameter in a leaf *)
Lemma cache_parts edges c type : curve_type type -> cache_ok edges c -> alen edges = type / 2 - 1 -> alen (curLeafCtrlPolyLengths c) = 3 ->
  (type = 6 /\ exists a b z, edges = [a; b] /\ curLeafCtrlPolyLengths c = [a; b; z]) \/
  (type = 8 /\ exists a b z, edges = [a; b; z] /\ curLeafCtrlPolyLengths c = [a; b; z]).
Proof.
  intros Ht [[rest Hr] _ _] He Hl. rewrite Hr in *. unfold alen in *. rewrite length_app in Hl. destruct Ht as [-> | ->]; [left|right]; (split; [done|]).
  - change (6 / 2 - 1) with 2 in He. destruct edges as [|a [|b [|]]]; cbn in He; try lia. destruct rest as [|z [|]]; cbn in Hl; try lia. by exists a, b, z.
  - change (8 / 2 - 1) with 3 in He. destruct edges as [|a [|b [|z [|]]]]; cbn in He; try lia. destruct rest as [|]; cbn in Hl; try lia. by exists a, b, z.
Qed.

Lemma lowAcceleration_ok type li edges : sized type li -> cache_ok edges (li_cache li) -> alen edges = type / 2 - 1 ->
  exists low, LIhaveLowAcceleration (float_literal 5 100) li = Some (steady edges, set_low_acceleration low li) /\
    (low = -1 \/ low = if steady edges then 1 else 0).
Proof.
  intros Hz Hc He. pose proof (cache_parts edges _ type (z_curve _ _ Hz) Hc He (z_lens _ _ Hz)) as Hp. unfold LIhaveLowAcceleration.
  destruct (Z.eqb_spec (cachedHaveLowAcceleration (li_cache li)) (-1)) as [_|Hlow].
  - exists (if steady edges then 1 else 0). split; [|by right]. destruct Hp as [(Hty & a & b & z & -> & ->)|(Hty & a & b & z & -> & ->)]; rewrite (z_type _ _ Hz), Hty.
    + change (aget [a; b; z] 0) with (Some a). change (aget [a; b; z] 1) with (Some b). mred. cbn [Z.eqb Pos.eqb steady]. destruct (Helpers_within a b _); done.
    + change (aget [a; b; z] 0) with (Some a). change (aget [a; b; z] 1) with (Some b). change (aget [a; b; z] 2) with (Some z). mred. cbn [Z.eqb Pos.eqb steady].
      destruct (Helpers_within a b _); [|done]. mred. cbn [andb]. done.
  - destruct Hc as [_ [?|Hl] _]; [done|]. exists (cachedHaveLowAcceleration (li_cache li)). split; [|by right].
    replace (set_low_acceleration _ li) with li by (by destruct li as [? ? ? [] ? ?]). rewrite Hl. by destruct (steady edges).
Qed.

Lemma flatten_ok type li edges : sized type li -> cache_ok edges (li_cache li) -> alen edges = type / 2 - 1 ->
  flatten_leaf li = Some (li_set_cache (mkCache (curLeafCtrlPolyLengths (li_cache li)) (cachedHaveLowAcceleration (li_cache li)) (nextRoots (li_cache li)) (flat_coefs edges)) li).
Proof.
  intros Hz Hc He. pose proof (cache_parts edges _ type (z_curve _ _ Hz) Hc He (z_lens _ _ Hz)) as Hp. unfold flatten_leaf.
  pose proof (z_coefs _ _ Hz) as Hl. destruct (aget_ex (flatLeafCoefCache (li_cache li)) 2 ltac:(lia)) as [v Ev]. rewrite Ev. mred.
  destruct Hc as [_ _ Hflat]. destruct (flt v f_zero) eqn:Ef.
  - destruct li as [ct tr lf [lens low roots coefs] sp sg]. cbn [li_cache curLeafCtrlPolyLengths flatLeafCoefCache] in *. pose proof (z_type _ _ Hz) as Hct. cbn [curveType] in Hct.
    unfold alen in Hl. do 4 (destruct coefs as [|? coefs]; [cbn in Hl; lia|]). destruct coefs; [|cbn in Hl; lia].
    destruct Hp as [(Hty & a & b & z & -> & ->)|(Hty & a & b & z & -> & ->)]; rewrite Hct, Hty; reflexivity.
  - destruct Hflat as [(v' & Ev' & Hv')|Hflat]; [congruence|]. rewrite <- Hflat. by destruct li as [? ? ? [] ? ?].
Qed.

Lemma flat_coefs_length type edges : curve_type type -> alen edges = type / 2 - 1 -> exists a b c d, flat_coefs edges = [a; b; c; d].
Proof.
  intros [-> | ->] He; unfold alen in He.
  - change (6 / 2 - 1) with 2 in He. destruct edges as [|a [|b [|]]]; cbn in He; try lia. cbn [flat_coefs]. by repeat eexists.
  - change (8 / 2 - 1) with 3 in He. destruct edges as [|a [|b [|z [|]]]]; cbn in He; try lia. cbn [flat_coefs]. by repeat eexists.
Qed.

Lemma leaf_parameter_ok pf type li edges t : sized type li -> cache_ok edges (li_cache li) -> alen edges = type / 2 - 1 ->
  exists c, leaf_parameter pf t li = Some (fst (leaf_root pf edges t (nextRoots (li_cache li))), li_set_cache c li) /\
    cache_ok edges c /\ nextRoots c = snd (leaf_root pf edges t (nextRoots (li_cache li))) /\ sized type (li_set_cache c li).
Proof.
  intros Hz Hc He. unfold leaf_parameter, leaf_root. destruct (lowAcceleration_ok type li edges Hz Hc He) as (low & -> & Hlow). mred.
  assert (Hz1 : sized type (set_low_acceleration low li)) by (by destruct Hz; split).
  assert (Hc1 : cache_ok edges (li_cache (set_low_acceleration low li))) by (by destruct Hc; split).
  destruct (steady edges) eqn:Es.
  { cbn [fst snd]. eexists. split; [unfold set_low_acceleration; reflexivity|]. split; [exact Hc1|]. split; [done|exact Hz1]. }
  rewrite (flatten_ok type _ edges Hz1 Hc1 He). mred. destruct (flat_coefs_length type edges (z_curve _ _ Hz) He) as (a & b & c & d & Ef). rewrite Ef.
  cbn [li_set_cache li_cache flatLeafCoefCache curLeafCtrlPolyLengths cachedHaveLowAcceleration nextRoots set_low_acceleration].
  change (aget [a; b; c; d] 0) with (Some a). change (aget [a; b; c; d] 1) with (Some b). change (aget [a; b; c; d] 2) with (Some c). change (aget [a; b; c; d] 3) with (Some d). mred.
  pose proof (z_roots _ _ Hz) as Hr.
  destruct (cubicRootsInAB_found pf a b c (t * d)%jf (nextRoots (li_cache li)) 0 f_zero f_one) as (n & roots & -> & Hn & Hl); [lia|lia|]. mred.
  destruct (aget_ex roots 0 ltac:(lia)) as [r ->]. mred. cbn [fst snd]. eexists. split; [reflexivity|].
  split; [|split; [done|by destruct Hz; split; cbn; try done; lia]].
  destruct Hc as [Hce _ _]. split; cbn; [done|rewrite Es; exact Hlow|right; by rewrite Ef].
Qed.

(** *** Steps *)

Definition r_with (past : list leaf) (lf : leaf) (rest : list leaf) (ended : bool) (r : ruler) : ruler :=
  mkRuler past lf rest ended (r_split r) (r_seg r) (r_roots r).

(** The ruler moved on to the next leaf. *)
Lemma measures_next type li r lf rest : measures type li r -> r_done r = false -> r_rest r = lf :: rest ->
  exists li', LIgoToNextLeaf li = Some li' /\ measures type li' (r_with (r_past r ++ [r_leaf r]) lf rest false r).
Proof.
  intros [Hz Hg [Hp1 Hp2] Hl Hc Hr Hd Hleft Hs Hseg] Hnd Hrest. destruct (Hleft Hnd) as (k & Hk & Hk4 & Hw & Ht).
  pose proof (goToNextLeaf_ok type li k Hz Hk Hk4 Ht) as H. cbv zeta in H. rewrite Hw, Hrest in H.
  destruct H as (li' & k' & E & Hz' & Hk' & Hk4' & Hw' & Ht' & [Ol Oe Olow Of] & (Ud & Ur & Us & Useg)). exists li'. split; [done|].
  rewrite Hrest in *. apply Forall_cons_1 in Hg as [[Hg1 _] Hg]. pose proof Hg as Hg'. apply Forall_cons_1 in Hg' as [[Hg2 _] Hgr].
  assert (Htot := Hp2). rewrite tick_sum_app, !tick_sum_cons in Htot.
  assert (Hpos : Forall (fun lf => 1 <= ticks lf) rest) by (eapply Forall_impl; [|exact Hgr]; intros x [? _]; lia).
  pose proof (tick_sum_length rest Hpos) as H0. pose proof (alen_nonneg rest).
  pose proof (tick_sum_length _ Hp1) as H1. pose proof (alen_nonneg (r_past r)).
  split; cbn [r_with r_past r_leaf r_rest r_done r_split r_seg r_roots]; try done.
  - split; [apply Forall_app; split; [done|by constructor; [lia|]]|]. by rewrite <- app_assoc.
  - rewrite Ol, Hl. cbn [nextT lenAtNextT]. f_equal; [|by rewrite length_snoc].
    apply tick_snoc; [lia|]. rewrite tick_sum_app, tick_sum_cons. change (foldr Z.add 0 (ticks <$> [])) with 0. lia.
  - split; [done|by left|left; exists minus_one; by split].
  - by rewrite Ur.
  - by rewrite Ud, Hd.
  - intros _. exists k'. done.
  - by rewrite Us.
  - by rewrite Useg.
Qed.

Lemma measures_end type li r : measures type li r -> r_done r = false -> r_rest r = [] ->
  exists li', LIgoToNextLeaf li = Some li' /\ measures type li' (r_with (r_past r) (r_leaf r) [] true r).
Proof.
  intros [Hz Hg [Hp1 Hp2] Hl Hc Hr Hd Hleft Hs Hseg] Hnd Hrest. destruct (Hleft Hnd) as (k & Hk & Hk4 & Hw & Ht).
  pose proof (goToNextLeaf_ok type li k Hz Hk Hk4 Ht) as H. cbv zeta in H. rewrite Hw, Hrest in H. eexists. split; [exact H|].
  rewrite Hrest in *. split; cbn [r_with r_past r_leaf r_rest r_done r_split r_seg r_roots]; try done. by destruct Hz; split.
Qed.

Lemma li_advance_ok type target : forall fuel li r, measures type li r -> alen (r_rest r) < Z.of_nat fuel ->
  let '(found, past, lf, rest) := reach (r_done r) target (r_past r) (r_leaf r) (r_rest r) in
  exists li', LI_advance fuel target li = Some (found, li') /\ measures type li' (r_with past lf rest (if found then r_done r else true) r).
Proof.
  intros fuel li r. remember (r_rest r) as rest eqn:Hrest. revert fuel li r Hrest. induction rest as [|next rest IH]; intros fuel li r Hrest Hm Hf; cbn [reach].
  all: pose proof Hm as [_ _ _ Hl _ _ Hd _ _ _].
  all: assert (Hsame : measures type li (r_with (r_past r) (r_leaf r) (r_rest r) (r_done r) r)) by (by destruct r).
  all: destruct fuel as [|fuel]; [pose proof (alen_nonneg (r_rest r)); rewrite ?alen_nil, ?alen_cons in Hf; try (pose proof (alen_nonneg rest)); lia|].
  all: cbn [LI_advance]; rewrite Hl, Hd; cbn [lenAtNextT]; destruct (flt (length_of _) target) eqn:Ef; [|rewrite <- Hrest in Hsame; by exists li].
  - destruct (r_done r) eqn:Ed; [rewrite <- Hrest in Hsame; by exists li|].
    destruct (measures_end type li r Hm Ed ltac:(done)) as (li' & -> & Hm'). mred. exists li'. split; [|done].
    pose proof Hm' as [_ _ _ Hl' _ _ Hd' _ _ _]. cbn [r_with r_past r_leaf r_done] in Hl', Hd'. destruct fuel; cbn [LI_advance]; rewrite Hl', Hd'; cbn [lenAtNextT]; rewrite Ef; done.
  - destruct (r_done r) eqn:Ed; [rewrite <- Hrest in Hsame; by exists li|].
    destruct (measures_next type li r next rest Hm Ed ltac:(done)) as (li' & -> & Hm'). mred. rewrite alen_cons in Hf.
    specialize (IH fuel li' (r_with (r_past r ++ [r_leaf r]) next rest false r) eq_refl Hm' ltac:(lia)). cbn [r_with r_past r_leaf r_done r_rest] in IH.
    destruct (reach false target (r_past r ++ [r_leaf r]) next rest) as [[[found past] lf] rest']. exact IH.
Qed.

Lemma few_leaves type li r : measures type li r -> alen (r_rest r) < Z.of_nat li_leaves.
Proof.
  intros [_ Hg [Hp1 Hp2] _ _ _ _ _ _ _]. rewrite tick_sum_app in Hp2. pose proof (tick_sum_length _ Hp1). pose proof (alen_nonneg (r_past r)).
  assert (Hg1 : Forall (fun lf => 1 <= ticks lf) (r_leaf r :: r_rest r)) by (eapply Forall_impl; [|exact Hg]; intros x [? _]; lia).
  pose proof (tick_sum_length _ Hg1) as Hs. rewrite alen_cons in Hs. unfold li_leaves. lia.
Qed.

(** One request of the dasher. *)
Lemma LInext_ok pf type len li r : measures type li r ->
  exists li', LInext pf len li = Some (fst (ruler_next pf len r), li') /\ measures type li' (snd (ruler_next pf len r)).
Proof.
  intros Hm. unfold LInext, ruler_next. rewrite (me_split _ _ _ Hm). pose proof (li_advance_ok type (r_split r + len)%jf li_leaves li r Hm (few_leaves type li r Hm)) as Ha.
  destruct (reach _ _ _ _ _) as [[[found past] lf] rest]. destruct Ha as (li1 & -> & Hm1). mred. pose proof Hm1 as [Hz1 Hg1 Hw1 Hl1 Hc1 Hr1 Hd1 Hleft1 Hs1 Hseg1].
  cbn [r_with r_past r_leaf r_rest r_done r_split r_seg r_roots] in *. rewrite Hl1. cbn [lenAtNextT lenAtLastT nextT lastT]. destruct found; cbn [negb].
  - pose proof Hg1 as [[Hgt Hge] Hgr]%Forall_cons_1.
    set (li2 := li_set_split (r_split r + len)%jf li1). assert (Hz2 : sized type li2) by (by destruct Hz1; split).
    destruct (leaf_parameter_ok pf type li2 (leaf_edges lf) ((r_split r + len - length_of past) / (length_of (past ++ [lf]) - length_of past))%jf Hz2 Hc1 Hge) as (c & -> & Hc & Hrc & Hzc).
    mred. change (nextRoots (li_cache li2)) with (nextRoots (li_cache li1)) in *. rewrite Hr1 in *. destruct (leaf_root _ _ _ _) as [u roots]. cbn [fst snd] in *.
    destruct (fle f_one _); (eexists; split; [reflexivity|]); split; cbn [fst snd r_past r_leaf r_rest r_done r_split r_seg r_roots]; try done; by destruct Hzc; split.
  - eexists. split; [rewrite Hs1; reflexivity|]. split; cbn [snd r_past r_leaf r_rest r_done r_split r_seg r_roots]; try done. by destruct Hz1; split.
Qed.

(** *** Initialisation *)

(** The sizes of the arrays, whatever they hold. *)
Record li_arrays (li : LengthIterator) : Prop := {
  la_rows : rows (recCurveStack (li_tree li));
  la_sides : alen (sides (li_tree li)) = 4;
  la_lens : alen (curLeafCtrlPolyLengths (li_cache li)) = 3;
  la_roots : alen (nextRoots (li_cache li)) = 4;
  la_coefs : alen (flatLeafCoefCache (li_cache li)) = 4 }.

Lemma sized_arrays type li : sized type li -> li_arrays li.
Proof. by intros []; split. Qed.

(** The whole curve in the first row. *)
Lemma first_row pts type stack : curve_type type -> rows stack -> type <= alen pts -> exists stack',
  aupd stack 0 (arraycopy pts type) = Some stack' /\ rows stack' /\ in_row type stack' 0 = curve_at pts 0 type.
Proof.
  intros Ht Hr Hl. assert (Hty : type = 6 \/ type = 8) by exact Ht. destruct (row_get stack 0 Hr ltac:(lia)) as [Eb Lb]. unfold aupd. change 0 with (Z.of_nat 0). rewrite Eb. mred.
  assert (Hc : alen (curve_at pts 0 type) = type) by (apply curve_at_length; lia).
  destruct (copy_prefix (curve_at pts 0 type) (drop (Z.to_nat type) pts) (row stack 0)) as (r & E & Hrl); [lia|].
  assert (Epts : curve_at pts 0 type ++ drop (Z.to_nat type) pts = pts) by (unfold curve_at; by rewrite drop_0, take_drop).
  rewrite Epts, Hc in E. rewrite E. mred.
  destruct (row_set stack 0 (curve_at pts 0 type ++ r) Hr ltac:(lia)) as (stack' & -> & Hr' & R1 & _); [rewrite alen_app; lia|].
  exists stack'. split; [done|]. split; [done|]. unfold in_row. rewrite R1. by apply curve_at_front.
Qed.

Lemma initialize_ok pts type li : curve_type type -> li_arrays li -> type <= alen pts -> Forall coordinate (curve_at pts 0 type) ->
  exists li' r, LIinitializeIterationOnCurve pts type li = Some li' /\
    ruler_of (curve_at pts 0 type) (nextRoots (li_cache li)) = Some r /\ measures type li' r.
Proof.
  intros Ht [La1 La2 La3 La4 La5] Hl Hc. assert (Hty : type = 6 \/ type = 8) by exact Ht. unfold LIinitializeIterationOnCurve. set (curve := curve_at pts 0 type) in *.
  assert (Hcl : alen curve = type) by (apply curve_at_length; lia).
  destruct (first_row pts type _ Ht La1 Hl) as (stack & -> & Hrows & Hr0). mred. fold curve in Hr0.
  set (li1 := mkLI type _ _ _ _ _). assert (Hz1 : sized type li1) by done.
  destruct (goLeft_ok type 4 li_depth li1 0 Hz1 eq_refl eq_refl ltac:(unfold li_depth; lia)) as (lf & w & li2 & k & El & -> & Ha);
    [change (recCurveStack (li_tree li1)) with stack; by rewrite Hr0|].
  change (recCurveStack (li_tree li1)) with stack in El. rewrite Hr0 in El. destruct Ha as [Hz2 Hk Hk4 Hdeep Hleft _ Hw Htame [Ol Oe Olow Of] (Ud & Ur & Us & Useg)]. mred.
  cbn [waiting] in Hw. rewrite app_nil_r in Hw. rewrite Hk.
  destruct (side_set (sides (li_tree li2)) 0 (if 0 <? Z.of_nat k then LEFT else RIGHT) (z_sides _ _ Hz2) ltac:(lia)) as (sd & Es & Hsd & Hd1 & Hd2).
  change (Z.of_nat 0) with 0 in Es. rewrite Es. mred.
  assert (Ecoef : astore (flatLeafCoefCache (li_cache li2)) 0 [f_zero; f_zero; minus_one; f_zero] = Some [f_zero; f_zero; minus_one; f_zero]).
  { pose proof (z_coefs _ _ Hz2) as Hlc. unfold alen in Hlc. destruct (flatLeafCoefCache (li_cache li2)) as [|? [|? [|? [|? [|]]]]]; cbn in Hlc; try lia. reflexivity. }
  rewrite Ecoef. mred. unfold ruler_of. rewrite El. eexists _, _. split; [reflexivity|]. split; [reflexivity|].
  pose proof (leaves_good type 4 Ht ltac:(lia) curve Hcl) as Hgood. rewrite El in Hgood. destruct (leaves_ticks 4 curve) as [Hsum _]. rewrite El in Hsum.
  assert (Hrest : leaves_left w = [] <-> k = 0%nat).
  { rewrite <- Hdeep. split; [|by intros ->]. destruct w as [|[n c] w]; [done|]. unfold leaves_left. cbn. destruct (leaves_ticks n c) as [_ Hne]. by destruct (leaves n c). }
  destruct Hz2. split; cbn; try done.
  - rewrite Ol. cbn. f_equal. apply (tick_snoc [] lf); [|by cbn]. by apply Forall_cons_1 in Hgood as [[? _] _].
  - destruct Oe as [rest Oe]. split; cbn; [by exists rest|by left|left; by exists minus_one].
  - destruct (leaves_left w) eqn:Ew; destruct k as [|k]; try done; [discriminate (proj1 Hrest eq_refl)|discriminate (proj2 Hrest eq_refl)].
  - intros Hnd. destruct k as [|k]; [by rewrite (proj2 Hrest eq_refl) in Hnd|]. exists (S k). split; [done|]. split; [lia|].
    assert (Ew : waiting type (recCurveStack (li_tree li2)) sd (S k) = w).
    { rewrite <- Hw. apply waiting_ext. intros i Hi. split; [done|]. destruct i as [|i]; [rewrite Hd1, Hleft by lia; done|by apply Hd2]. }
    by rewrite Ew.
Qed.

(** ** Requests *)

(** The parameters for a list of requested lengths. *)
Fixpoint requests (pf : platform) (lens : list jfloat) (li : LengthIterator) : option (list jfloat * LengthIterator) :=
  match lens with
  | [] => Some ([], li)
  | len :: lens => '(t, li) ← LInext pf len li; '(ts, li) ← requests pf lens li; Some (t :: ts, li)
  end.

Fixpoint measured (pf : platform) (lens : list jfloat) (r : ruler) : list jfloat :=
  match lens with
  | [] => []
  | len :: lens => fst (ruler_next pf len r) :: measured pf lens (snd (ruler_next pf len r))
  end.

Lemma requests_ok pf type lens : forall li r, measures type li r ->
  exists li', requests pf lens li = Some (measured pf lens r, li') /\ sized type li'.
Proof.
  induction lens as [|len lens IH]; intros li r Hm; [exists li; split; [done|by destruct Hm]|]. cbn [requests measured].
  destruct (LInext_ok pf type len li r Hm) as (li1 & -> & Hm1). mred. destruct (IH li1 _ Hm1) as (li' & -> & Hz). mred. by exists li'.
Qed.

(** C8: the length iterator measures along the leaves.  For every quadratic or cubic curve
    with coordinates of magnitude at most [2 ^ 100], in whatever state earlier curves have
    left the iterator: it can be initialised, and for every list of requested lengths,
    also negative, infinite or not numbers, it returns the parameters that the walk over
    the list of the leaves of the recursive subdivision gives.  The leaves are at most
    sixteen and their exact parameter widths add up to one; no access is outside the
    stack of curves or the other arrays, which are ready for the next curve. *)
Theorem length_iterator_ruler (pf : platform) (type : Z) (pts lens : list jfloat) (li : LengthIterator) :
  type = 6 \/ type = 8 -> li_arrays li -> type <= alen pts -> Forall coordinate (curve_at pts 0 type) ->
  exists li0 r li', LIinitializeIterationOnCurve pts type li = Some li0 /\
    ruler_of (curve_at pts 0 type) (nextRoots (li_cache li)) = Some r /\
    requests pf lens li0 = Some (measured pf lens r, li') /\ li_arrays li' /\
    foldr Z.add 0 (ticks <$> leaves 4 (curve_at pts 0 type)) = 16 /\ 1 <= alen (leaves 4 (curve_at pts 0 type)) <= 16.
Proof.
  intros Ht Ha Hl Hc. destruct (initialize_ok pts type li Ht Ha Hl Hc) as (li0 & r & E & Er & Hm).
  destruct (requests_ok pf type lens li0 r Hm) as (li' & Eq & Hz). exists li0, r, li'. split; [done|]. split; [done|]. split; [done|]. split; [by eapply sized_arrays|].
  destruct (leaves_ticks 4 (curve_at pts 0 type)) as [Hs Hne]. split; [exact Hs|].
  assert (Hg : Forall (fun lf => 1 <= ticks lf) (leaves 4 (curve_at pts 0 type))).
  { eapply Forall_impl; [|apply (leaves_good type 4 Ht)]; [by intros x [? _]; lia|lia|apply curve_at_length; lia]. }
  pose proof (tick_sum_length _ Hg). rewrite Hs in *. destruct (leaves 4 _) as [|lf ls]; [done|]. rewrite alen_cons in *. pose proof (alen_nonneg ls). change (2 ^ Z.of_nat 4) with 16 in *. lia.
Qed.

(** An arch of a cubic curve: its first 16 units end at the parameter 0.366. *)
Definition arch : list jfloat := of_int <$> [0; 0; 0; 16; 32; 16; 32; 0].

Lemma length_iterator_ruler_witness :
  exists li0 r li', LIinitializeIterationOnCurve arch 8 LI_zero = Some li0 /\
    ruler_of (curve_at arch 0 8) (nextRoots (li_cache LI_zero)) = Some r /\
    requests plain_platform [of_int 16; f_one; S754_nan; of_int 1000] li0 = Some (measured plain_platform [of_int 16; f_one; S754_nan; of_int 1000] r, li') /\ li_arrays li' /\
    foldr Z.add 0 (ticks <$> leaves 4 (curve_at arch 0 8)) = 16 /\ 1 <= alen (leaves 4 (curve_at arch 0 8)) <= 16.
Proof.
  apply (length_iterator_ruler plain_platform 8 arch [of_int 16; f_one; S754_nan; of_int 1000] LI_zero); [by right| |done|].
  - split; try done. split; [done|]. repeat constructor.
  - vm_compute. repeat constructor; discriminate.
Defined.

Example arch_parameters :
  match LIinitializeIterationOnCurve arch 8 LI_zero with
  | Some li => option_map (fun p => map (fun t => to_jint (t * of_int 1000)%jf) (fst p)) (requests plain_platform [of_int 16; of_int 1000] li)
  | None => None
  end = Some [366; 1000].
Proof. vm_compute. reflexivity. Qed.

(** A curve with a NaN coordinate: the descent to the first leaf passes the last level of
    the stack. *)
Example nan_curve : LIinitializeIterationOnCurve (replicate 8 S754_nan) 8 LI_zero = None.
Proof. vm_compute. reflexivity. Qed.
